(* ===== verification/_CoqProject ===== *)
-Q . S2P
Prelude.v
GoTime.v
Strconv.v
Paths.v
Types.v
Window.v
Watermark.v
Json.v
Duration.v
State.v
Operators.v
Reduce.v
WindowOp.v
WindowProofs.v
WindowClaims.v
Pebble.v
Merge.v
Stages.v
Planner.v
Storage.v
Coordinator.v
CoordinatorRun.v
Engine.v
Wiring.v
Dataflow.v
KeyedFlow.v
Gauges.v
EngineState.v
EngineOps.v
Execute.v
Owners.v
Savepoint.v
JobAgent.v
Lifecycle.v
JobStore.v
Backend.v
Control.v
ControlProofs.v
ControlClaims.v
Docker.v
Kubernetes.v
Fleet.v
TxnSink.v
Source.v
KafkaOptions.v
KafkaRun.v
Batch.v
HttpSink.v
Postgres.v
Queues.v
SinkWrites.v
SinkOptions.v
Fields.v
BuiltinOps.v
Api.v
Workflow.v
Compile.v
CompileProofs.v
Fluent.v
Describe.v
Ends.v
Auth.v
Stats.v
Cli.v
Startup.v
Runner.v
Deployment.v
