(* ===== verification/Prelude.v ===== *)
(** * Weibo: a verification of a Go stream-processing engine

    The repository is an embeddable stream processor (package weibo) with a
    declarative workflow format and a control plane that runs workflows in
    containers.  This library models the parts that carry its logic and proves
    what makes each correct.  Every model is an executable definition taken
    from the Go source named beside it; theorems that hold are the contract of
    a component, and a few theorems about concrete traces record behaviour that
    differs from what the code or its comments intend.

    ** The program and its models

    A record ([Types], types/record.go) is a data record, a watermark or a
    checkpoint barrier.  Records leave a source, pass through operators grouped
    into stages, and end in a sink; barriers travel with them and cut the
    stream into checkpoint intervals.

    - [GoTime], [Strconv], [Paths], [Json], [Duration]: time.Time as
      nanoseconds with RFC3339Nano texts, decimal integers and float64, file
      paths, UTF-8 coercion and JSON trees, duration texts: the standard library
      as far as the code uses it, and workflow/duration.go.
    - [Window], [Watermark] (window/*.go, watermark/bounded.go,
      source/watermark.go): tumbling, sliding and session assigners; the
      watermark generator and the source wrapper as a step function.
    - [State], [Pebble] (state/*.go): the state backend interface as a class
      with laws, the in-memory backend, and the Pebble backend over a class of
      ordered key-value databases, with its key layout and native checkpoints;
      [Owners]: the factories and the directories of the engine's owners.
    - [Operators], [Reduce], [WindowOp] with [WindowProofs] and [WindowClaims]
      (operator/*.go): stateless operators in both forms, FNV-1a key routing,
      the keyed reduce with eviction and snapshots, and the whole event loop of
      the window operator.
    - [Merge], [Stages], [Planner] (pipeline/*.go): the barrier-aligned merge
      as a step relation, stateless and keyed stages, the sink stage, and the
      grouping of operators into stages.
    - [Storage], [Coordinator], [CoordinatorRun], [Engine], [EngineState],
      [EngineOps], [Execute], [Wiring] (checkpoint/checkpoint.go,
      checkpoint/coordinator.go, mailer.go): checkpoint files with saves that may
      stop after any write, two-phase finalization with a fault at every external
      call, the coordinator's goroutines from Start to Stop, coordinated recovery,
      barrier injection with its forced exits, the assembly and restore of
      checkpoints, Reduce and Window as the operators the engine snapshots, the
      start and the result of Execute, and the stages as processes over bounded
      edges with the two-phase shutdown.  The sink stage ([sinkProc]) drops the
      markers its sink must not see; a process may leave before its input ends.
    - [Dataflow], [KeyedFlow], [Gauges] (pipeline/stateless_stage.go,
      keyed_stage.go, stage.go, metrics.go): parallel and keyed stages, and the
      channel stage with its counters and latency batches, as processes of
      [Wiring], so that whole pipelines run on the net.
    - [Savepoint], [JobAgent] (checkpoint/archive.go, blob.go, savepoint.go,
      jobagent/agent.go, sdk/sdk.go): archives of checkpoints under a label,
      the agent that supervises one run, and the lifecycle around a run.
    - [Source], [KafkaOptions], [KafkaRun] (source/*.go): offsets, delivery,
      retries and the single-reader loop of the Kafka source; its options and
      construction; the partition manager with its reader goroutines, the source
      stage and the in-memory sources.
    - [TxnSink], [Batch], [HttpSink], [Postgres], [Queues], [SinkWrites],
      [SinkOptions] (sink/*.go): the transactional Kafka sink over a class of transactional
      clients, the batching loop and failure policies, the HTTP, Postgres, Kafka
      and S3 sinks, the dead-letter queues, their Write loops with the
      destination, and the options and constructors of all of them; [Auth]
      (auth/*.go): the SASL and TLS settings of every Kafka client.
    - [Fluent], [Describe] (stream.go, metadata.go, the Describe methods): the
      builder a pipeline is written with, and its description.
    - [Lifecycle], [JobStore], [Backend], [Control] with [ControlProofs] and
      [ControlClaims] (control/...): phases and restart policy, the SQLite
      store as text tables, the container backend as a class with the fake
      backend as an instance, and the controller and reconciler in a state
      monad with Hoare triples.  A step of the control plane ([plane_step]) is a
      controller operation ([ctl_step]) or containers exiting; [Logged] is any
      backend with a record of the stops that failed.
    - [Docker], [Kubernetes], [Fleet] (control/backend/docker.go,
      kubernetes.go): both backends over a class for the daemon and the cluster,
      and the controller over them; [Stats]: logs and displayed figures.
    - [Api], [Cli], [Startup] (control/api/api.go, control/cmd/weibo): the HTTP
      surface of the controller, the command line as its client, and the start
      of the dashboard with the store's migrations and the reconciler loop.
    - [Fields], [BuiltinOps], [Workflow], [Compile] with [CompileProofs],
      [Ends], [Runner] (workflow/..., cmd/..., jobagent/http.go): dotted paths
      in decoded records, the declarative operators, document validation,
      compilation to operators that the planner accepts, the two ends of a
      compiled pipeline, and the processes that load, compile and serve a
      document.
    - [Deployment] (control/controller.go, workflow/secrets): a document from
      its submission, through the controller and a backend, to the runner.

    Interfaces between components are classes: [StateBackend] with
    [StateLaws] for operators, [EngineOp] with [EngineOpLaws] for the
    engine's view of operators (proved of Reduce and Window over the in-memory
    backend in [EngineOps]), [PebbleDB] for Pebble, [TxnClient] for the sink,
    [TarText] for archives, [ContainerBackend] with [BackendLaws] for the
    controller, [DockerDaemon] with [DaemonLaws] and [KubeAPI] with
    [ClusterLaws] for the backends, [Quantities] for resource quantities,
    [Delivers] for what a backend hands to the runner's process, [Lossless] for
    what the batching loop needs of a sink's flush, [URLText] for addresses,
    [JSONText] and [ObjectText] for JSON texts.  Each has an instance in the library, so no law is vacuous.

    ** What the theorems show

    - Exactly-once: after a process whose last finalization failed, and after any
      sequence of such processes, recovery restores exactly the last checkpoint
      whose transaction committed ([recovery_is_exactly_once],
      [recovery_over_runs]), outside the two gaps the library exhibits
      ([finalize_after_fatal_replays], [pointer_gap_replays]); the visible
      output of the transactional sink is exactly the committed intervals
      ([txn_output_atomic]); the marker probe decides commitment
      ([probe_decides_commit]); offsets registered for a barrier are those of
      the records before it ([barrier_offsets_aligned]); a checkpoint saved as
      its barrier reaches the sink is resumed by Execute after a crash
      ([execute_resumes]); the coordinator stops without a panic, a deadlock or
      a half-done finalization ([coordinator_stops_cleanly]).
    - Streams: stages that take their input to the end never deadlock over
      bounded edges and run to completion under any interleaving, failure and
      cancellation ([execution_completes]; [early_leaver_blocks] shows what a
      stage that returns early does); the aligned merge refines its specification and
      completes; whole pipelines of parallel stages, and of a keyed Reduce
      between them, hand the sink stage what their operators make of the stream
      one after the other ([stateless_dataflow], [keyed_dataflow]); counters and
      timers change nothing ([channel_stage_is_operator]).
    - Windows and state: every accepted record is emitted exactly once per
      window, or waits in the buffer; the live sessions of a key do not overlap
      and their records are at least the gap apart; the Pebble backend refines
      the in-memory one for keys without NUL bytes; checkpoints round-trip.
    - Savepoints: archiving and restoring a checkpoint gives back every file
      ([savepoint_roundtrip]), and a job stopped with a savepoint is continued
      by another ([stop_and_resume]); the agent's answers are truthful
      ([agent_moves_forward], [agent_surface]).
    - Sources and sinks: a batching loop that returns without error has landed
      every record once; what the HTTP sink read was processed by its endpoint,
      at least once ([http_write_delivers]), and what the S3 and Postgres sinks
      read is what the requests they saw accepted hold ([s3_write_delivers],
      [postgres_write_delivers]); all Kafka clients build the same connection
      from the same settings ([clients_agree]);
      the source commits only behind its output; each partition has one reader,
      sought to its restored offset ([partition_manager_run]).
    - Control plane: one live container per job and stopped jobs come down, but
      for containers whose stop failed and under stated assumptions on ids, clock
      and atomicity ([single_live_container], [stopped_job_comes_down]; each
      assumption has a counterexample without it); bounded restarts; Docker and Kubernetes keep the contract the controller relies
      on; a request is at most one controller operation and only with the token
      ([requests_are_controller_steps], [unauthorized_changes_nothing]); the
      management commands are those operations
      ([commands_are_controller_operations]); a deployment submits what it
      pushed ([deploy_submits_what_it_pushed]); what was accepted is what every
      later launch runs ([accepted_job_runs]).
    - Workflows and pipelines: valid documents compile and plan, with the
      delivery guarantee they ask for and directories of their own, and Execute
      starts them ([compiled_workflow_starts]); every pipeline of the builder
      plans ([fluent_pipeline_plans]); durations round-trip; descriptions show no
      credentials; field operations obey their laws; integer filters and counts
      are exact up to the stated bounds.

    ** Bounds and fuel

    Loops that are not structural carry fuel that is computed from their input
    and proved or argued enough where they are defined: sliding windows
    ([2 * size / slide + 3] steps), UTF-8 coercion and secret replacement (a byte
    per round), the backoff doubling (at most 64 rounds), shortest float texts
    (17 digits), duration texts (a term per round).  Integers are kept at 64
    bits where they can overflow ([wrap64]); the clock of the control plane is
    bounded in its theorems.

    ** Not modelled

    The static page, opening a browser, tables and spinners of the command line,
    the registration of Prometheus metrics, connecting to Docker, Kubernetes and
    SQLite, the cryptography and protocols behind SASL, TLS, HTTP, S3 and Kafka
    clients, the decoding of YAML and JSON documents into structs, signal
    handling, and the setters of test hooks: they are I/O or
    calls of libraries outside the repository.  Within modelled parts: the
    iteration order of Go maps is fixed where no result depends on it; error
    texts keep their cause but not every prefix; case folding is that of ASCII;
    bodies of the API are typed documents, their JSON member names left out; a
    constructor that panics returns an error; a worker inside a parallel or keyed
    stage processes a record as it is handed over, while what it sends may lag,
    and the forced-shutdown exits of the merge are left out; time.Parse
    is modelled on the forms Format writes; a nil entry in a list state reads
    back as empty; a window size of zero, which panics in Go, is excluded by
    validation ([valid_workflow_plans]); checkpoint file names are those of ids
    the engine makes, which filepath.Join leaves alone.  The laws of the Docker
    daemon ([DaemonLaws]) take a create, start or stop that returned an error
    to have had no effect, which Docker does not promise; a daemon that acts and
    then fails to answer is outside [docker_implements_backend]. *)
From stdpp Require Export base gmap strings list sorting fin_maps.
From Stdlib Require Export ZArith Lia Ascii.

Open Scope Z_scope.

(** ** Byte strings

    A Go [string] and the contents of a Go [[]byte] are both sequences of
    8-bit bytes.  [slice] is a [[]byte] together with its nil-ness: [None] is
    the nil slice. *)
Abbreviation bytes := (list ascii).
Abbreviation slice := (option (list ascii)).

Declare Scope go_scope.
Delimit Scope go_scope with go.
Open Scope go_scope.

(** [b "lit"] is the byte string of a Go string literal. *)
Fixpoint b (s : string) : bytes :=
  match s with
  | EmptyString => []
  | String c s' => c :: b s'
  end.

(** [string(s)] and [len(s)] of a byte slice: nil behaves as empty. *)
Definition str (s : slice) : bytes := default [] s.

Definition byteZ (c : ascii) : Z := Z.of_N (Ascii.N_of_ascii c).
Definition Zbyte (z : Z) : ascii := Ascii.ascii_of_N (Z.to_N (z mod 256)).

Lemma byteZ_range c : 0 <= byteZ c < 256.
Proof.
  unfold byteZ. pose proof (Ascii.N_ascii_bounded c). lia.
Qed.

Lemma Zbyte_byteZ c : Zbyte (byteZ c) = c.
Proof.
  unfold Zbyte. rewrite Z.mod_small by apply byteZ_range.
  unfold byteZ. rewrite N2Z.id. apply Ascii.ascii_N_embedding.
Qed.

Lemma byteZ_Zbyte z : byteZ (Zbyte z) = z mod 256.
Proof.
  unfold Zbyte, byteZ. pose proof (Z.mod_pos_bound z 256 ltac:(lia)).
  rewrite Ascii.N_ascii_embedding by lia. lia.
Qed.

Lemma byteZ_inj c d : byteZ c = byteZ d -> c = d.
Proof. intros H. by rewrite <- (Zbyte_byteZ c), H, Zbyte_byteZ. Qed.

(** ** Machine integers *)

(** Two's-complement reading of [z] at 64 bits: Go's [int64] arithmetic. *)
Definition wrap64 (z : Z) : Z := (z + 2 ^ 63) mod 2 ^ 64 - 2 ^ 63.
(** Unsigned reading at [w] bits: Go's [uint32], [uint64] arithmetic. *)
Definition wrapU (w z : Z) : Z := z mod 2 ^ w.

Definition int64 (z : Z) : Prop := - 2 ^ 63 <= z < 2 ^ 63.
#[export] Instance int64_dec z : Decision (int64 z).
Proof. unfold int64. apply _. Defined.

Lemma wrap64_range z : int64 (wrap64 z).
Proof.
  unfold int64, wrap64. pose proof (Z.mod_pos_bound (z + 2^63) (2^64) ltac:(lia)). lia.
Qed.

Lemma wrap64_id z : int64 z -> wrap64 z = z.
Proof. unfold int64, wrap64. intros. rewrite Z.mod_small; lia. Qed.

Lemma wrap64_wrapU z : wrap64 (wrapU 64 z) = wrap64 z.
Proof.
  unfold wrap64, wrapU. f_equal.
  rewrite <- (Zplus_mod_idemp_l z). done.
Qed.

Arguments wrap64 : simpl never.
Arguments wrapU : simpl never.

(** ** Big-endian integers (encoding/binary) *)

Fixpoint be_enc (n : nat) (u : Z) : bytes :=
  match n with
  | O => []
  | S m => Zbyte (u / 256 ^ Z.of_nat m) :: be_enc m u
  end.

Fixpoint be_dec (l : bytes) : Z :=
  match l with
  | [] => 0
  | c :: l' => byteZ c * 256 ^ Z.of_nat (length l') + be_dec l'
  end.

Lemma be_enc_length n u : length (be_enc n u) = n.
Proof. induction n; simpl; congruence. Qed.

Lemma be_dec_enc n u : be_dec (be_enc n u) = u mod 256 ^ Z.of_nat n.
Proof.
  induction n as [|n IH]; [by rewrite Z.mod_1_r|].
  cbn [be_enc be_dec]. rewrite be_enc_length, IH, byteZ_Zbyte, Nat2Z.inj_succ, Z.pow_succ_r by lia.
  rewrite (Z.mul_comm 256), Z.rem_mul_r by lia. lia.
Qed.

(** [binary.BigEndian.PutUint64] and [binary.BigEndian.Uint64]. *)
Definition PutUint64 (u : Z) : bytes := be_enc 8 (wrapU 64 u).
Definition Uint64 (l : bytes) : Z := be_dec l.

Lemma Uint64_PutUint64 u : Uint64 (PutUint64 u) = wrapU 64 u.
Proof.
  unfold Uint64, PutUint64. rewrite be_dec_enc. unfold wrapU.
  rewrite Z.mod_small; [done|]. apply Z.mod_pos_bound. lia.
Qed.

Lemma PutUint64_length u : length (PutUint64 u) = 8%nat.
Proof. apply be_enc_length. Qed.

(** ** Errors

    A Go function that returns [(T, error)] is a function to [result T];
    errors carry the message the code formats. *)
Inductive result (A : Type) : Type :=
| Ok (a : A)
| Err (msg : string).
Arguments Ok {A} a.
Arguments Err {A} msg.

#[export] Instance result_bind : MBind result := λ A B f m,
  match m with Ok a => f a | Err e => Err e end.
#[export] Instance result_ret : MRet result := λ A a, Ok a.
#[export] Instance result_fmap : FMap result := λ A B f m,
  match m with Ok a => Ok (f a) | Err e => Err e end.

Definition is_ok {A} (r : result A) : bool :=
  match r with Ok _ => true | Err _ => false end.

(** ** String searching (package strings) *)

(** Split at the last occurrence of [c]: [Some (before, after)] when
    [strings.LastIndex] finds one. *)
Fixpoint cut_last (c : ascii) (l : bytes) : option (bytes * bytes) :=
  match l with
  | [] => None
  | x :: l' =>
      match cut_last c l' with
      | Some (p, s) => Some (x :: p, s)
      | None => if decide (x = c) then Some ([], l') else None
      end
  end.

Lemma cut_last_None c l : c ∉ l -> cut_last c l = None.
Proof.
  induction l as [|x l IH]; intros Hc; [done|]. simpl.
  rewrite not_elem_of_cons in Hc. destruct Hc as [? ?].
  rewrite IH by done. by rewrite decide_False by congruence.
Qed.

Lemma cut_last_app c p s : c ∉ s -> cut_last c (p ++ c :: s) = Some (p, s).
Proof.
  intros Hs. induction p as [|x p IH]; simpl.
  - rewrite cut_last_None by done. by rewrite decide_True.
  - by rewrite IH.
Qed.

Lemma cut_last_None_inv c l : cut_last c l = None -> c ∉ l.
Proof.
  induction l as [|x l IH]; simpl; [set_solver|].
  destruct (cut_last c l) as [[]|]; [done|]. case_decide; [done|]. set_solver.
Qed.

Lemma cut_last_Some c l p s : cut_last c l = Some (p, s) -> l = p ++ c :: s /\ c ∉ s.
Proof.
  revert p. induction l as [|x l IH]; intros p; simpl; [done|].
  destruct (cut_last c l) as [[p' s']|] eqn:E.
  - intros [= <- <-]. destruct (IH _ eq_refl) as [-> ?]. done.
  - case_decide; intros; simplify_eq. eauto using cut_last_None_inv.
Qed.

(** [strings.HasPrefix], [strings.TrimPrefix], [strings.HasSuffix]. *)
Definition HasPrefix (s p : bytes) : bool := bool_decide (take (length p) s = p).
Definition TrimPrefix (s p : bytes) : bytes :=
  if HasPrefix s p then drop (length p) s else s.

(** ** Byte order

    [bytes.Compare]: lexicographic on unsigned bytes. *)
Fixpoint bytes_leb (x y : bytes) : bool :=
  match x, y with
  | [], _ => true
  | _ :: _, [] => false
  | c :: x', d :: y' =>
      if byteZ c <? byteZ d then true
      else if byteZ d <? byteZ c then false else bytes_leb x' y'
  end.
Definition bytes_le (x y : bytes) : Prop := bytes_leb x y = true.
Definition bytes_lt (x y : bytes) : Prop := bytes_leb y x = false.
#[export] Instance bytes_le_dec x y : Decision (bytes_le x y).
Proof. unfold bytes_le. apply _. Defined.

Lemma bytes_leb_refl x : bytes_leb x x = true.
Proof. induction x as [|c x IH]; simpl; [done|]. rewrite Z.ltb_irrefl. exact IH. Qed.

Lemma bytes_leb_total x y : bytes_leb x y = true \/ bytes_leb y x = true.
Proof.
  revert y. induction x as [|c x IH]; intros [|d y]; simpl; auto.
  destruct (Z.ltb_spec (byteZ c) (byteZ d)), (Z.ltb_spec (byteZ d) (byteZ c)); auto.
Qed.

Lemma bytes_leb_trans x y z :
  bytes_leb x y = true -> bytes_leb y z = true -> bytes_leb x z = true.
Proof.
  revert y z. induction x as [|c x IH]; intros [|d y] [|e z]; simpl; try done.
  destruct (Z.ltb_spec (byteZ c) (byteZ d)), (Z.ltb_spec (byteZ d) (byteZ c)),
    (Z.ltb_spec (byteZ d) (byteZ e)), (Z.ltb_spec (byteZ e) (byteZ d)),
    (Z.ltb_spec (byteZ c) (byteZ e)), (Z.ltb_spec (byteZ e) (byteZ c));
    try done; try lia; eauto.
Qed.

Lemma bytes_leb_antisym x y : bytes_leb x y = true -> bytes_leb y x = true -> x = y.
Proof.
  revert y. induction x as [|c x IH]; intros [|d y]; simpl; try done.
  destruct (Z.ltb_spec (byteZ c) (byteZ d)), (Z.ltb_spec (byteZ d) (byteZ c)); try done; try lia.
  intros. f_equal; [apply byteZ_inj; lia|auto].
Qed.

#[export] Instance bytes_le_total : Total bytes_le.
Proof. intros x y. apply bytes_leb_total. Qed.
#[export] Instance bytes_le_trans : Transitive bytes_le.
Proof. intros x y z. apply bytes_leb_trans. Qed.

(** ** Automation *)

Create HintDb weibo.

(** Split every conjunction and existential in the context. *)
Ltac crush_hyps := repeat match goal with
  | H : _ /\ _ |- _ => destruct H
  | H : ex _ |- _ => destruct H
  end.
Ltac go := intros; simplify_eq/=; eauto with weibo.

#[export] Hint Resolve wrap64_range : weibo.
