(* ===== verification/GoTime.v ===== *)
(** * Package time, as far as the engine uses it

    [time.Time] is an instant, [Z] nanoseconds since the Unix epoch; every
    instant the engine formats is in UTC.  [time.Duration] is an [int64]
    count of nanoseconds.  [Format] and [Parse] are the RFC3339Nano layout:
    [Parse] is the strict grammar (fixed-width fields, optional fraction,
    [Z] or a numeric offset). *)
From S2P Require Import Prelude.

(** The zero [time.Time]: January 1 of year 1, 00:00:00 UTC. *)
Definition zeroTime : Z := -62135596800 * 10 ^ 9.
Definition IsZero (t : Z) : bool := bool_decide (t = zeroTime).
Definition Before (t u : Z) : bool := bool_decide (t < u).
Definition After (t u : Z) : bool := bool_decide (u < t).
(** [t.UnixNano()] is an [int64]: it wraps outside 1678..2262. *)
Definition UnixNano (t : Z) : Z := wrap64 t.
(** [time.Unix(0, n)]. *)
Definition Unix0 (n : Z) : Z := n.

Definition Second : Z := 10 ^ 9.
(** [time.Duration(1<<uint(attempt)) * time.Second]. *)
Definition shifted (attempt : Z) : Z := wrap64 ((if attempt <? 64 then wrap64 (2 ^ attempt) else 0) * Second).
Definition Minute : Z := 60 * Second.

(** ** The proleptic Gregorian calendar *)

Definition leap (y : Z) : bool :=
  (y mod 4 =? 0) && (negb (y mod 100 =? 0) || (y mod 400 =? 0)).

Definition daysIn (m y : Z) : Z :=
  if m =? 2 then (if leap y then 29 else 28)
  else if (m =? 4) || (m =? 6) || (m =? 9) || (m =? 11) then 30 else 31.

(** Days since 1970-01-01 of a civil date, and back; years are counted from
    March inside a 400-year era. *)
Definition days_of_civil (y m d : Z) : Z :=
  let y' := if m <=? 2 then y - 1 else y in
  let yoe := y' mod 400 in
  let mp := if m <=? 2 then m + 9 else m - 3 in
  let doy := (153 * mp + 2) / 5 + d - 1 in
  (y' / 400) * 146097 + (365 * yoe + yoe / 4 - yoe / 100 + doy) - 719468.

Definition civil_of_days (z : Z) : Z * Z * Z :=
  let z' := z + 719468 in
  let doe := z' mod 146097 in
  let yoe := (doe - doe / 1460 + doe / 36524 - doe / 146096) / 365 in
  let doy := doe - (365 * yoe + yoe / 4 - yoe / 100) in
  let mp := (5 * doy + 2) / 153 in
  let d := doy - (153 * mp + 2) / 5 + 1 in
  let m := if mp <? 10 then mp + 3 else mp - 9 in
  let y := yoe + (z' / 146097) * 400 in
  ((if m <=? 2 then y + 1 else y), m, d).

(** ** Decimal fields *)

Definition digit (d : Z) : ascii := Zbyte (48 + d).
Definition isDigit (c : ascii) : bool := (48 <=? byteZ c) && (byteZ c <=? 57).
Definition digit_val (c : ascii) : Z := byteZ c - 48.

(** [n] in decimal on exactly [w] digits. *)
Fixpoint pad (w : nat) (n : Z) : bytes :=
  match w with
  | O => []
  | S v => digit (n / 10 ^ Z.of_nat v mod 10) :: pad v n
  end.

Fixpoint digits_val (acc : Z) (l : bytes) : Z :=
  match l with
  | [] => acc
  | c :: l' => digits_val (10 * acc + digit_val c) l'
  end.

Definition parseUint (l : bytes) (lo hi : Z) : option Z :=
  if forallb isDigit l then
    let x := digits_val 0 l in
    if (lo <=? x) && (x <=? hi) then Some x else None
  else None.

Fixpoint trimZeros (l : bytes) : bytes :=
  match l with
  | [] => []
  | c :: l' =>
      match trimZeros l' with
      | [] => if decide (c = digit 0) then [] else [c]
      | t => c :: t
      end
  end.

(** ** Format and Parse for RFC3339Nano *)

Definition fmtFrac (nanos : Z) : bytes :=
  match trimZeros (pad 9 nanos) with
  | [] => []
  | ds => "."%char :: ds
  end.

Definition Format (t : Z) : bytes :=
  let secs := t / 10 ^ 9 in
  let sod := secs mod 86400 in
  let '(y, m, d) := civil_of_days (secs / 86400) in
  pad 4 y ++ "-"%char :: pad 2 m ++ "-"%char :: pad 2 d ++ "T"%char ::
  pad 2 (sod / 3600) ++ ":"%char :: pad 2 (sod / 60 mod 60) ++ ":"%char ::
  pad 2 (sod mod 60) ++ fmtFrac (t mod 10 ^ 9) ++ ["Z"%char].

(** Leading digits and the rest. *)
Fixpoint span_digits (l : bytes) : bytes * bytes :=
  match l with
  | c :: l' => if isDigit c then let '(ds, r) := span_digits l' in (c :: ds, r)
               else ([], l)
  | [] => ([], [])
  end.

Definition parseFrac (l : bytes) : Z * bytes :=
  match l with
  | c :: l' =>
      if decide (c = "."%char) then
        match span_digits l' with
        | ([], _) => (0, l)
        | (ds, r) =>
            let ds := take 9 ds in
            (digits_val 0 ds * 10 ^ (9 - Z.of_nat (length ds)), r)
        end
      else (0, l)
  | [] => (0, l)
  end.

(** The offset in seconds of a zone suffix. *)
Definition parseZone (l : bytes) : option Z :=
  match l with
  | [z] => if decide (z = "Z"%char) then Some 0 else None
  | [sg; h1; h2; c; m1; m2] =>
      h ← parseUint [h1; h2] 0 23;
      m ← parseUint [m1; m2] 0 59;
      if decide (c = ":"%char) then
        if decide (sg = "+"%char) then Some ((h * 60 + m) * 60)
        else if decide (sg = "-"%char) then Some (- ((h * 60 + m) * 60)) else None
      else None
  | _ => None
  end.

Definition Parse (s : bytes) : option Z :=
  match s with
  | y1 :: y2 :: y3 :: y4 :: s1 :: m1 :: m2 :: s2 :: d1 :: d2 :: t1 ::
    h1 :: h2 :: c1 :: i1 :: i2 :: c2 :: x1 :: x2 :: rest =>
      y ← parseUint [y1; y2; y3; y4] 0 9999;
      m ← parseUint [m1; m2] 1 12;
      d ← parseUint [d1; d2] 1 (daysIn m y);
      h ← parseUint [h1; h2] 0 23;
      mi ← parseUint [i1; i2] 0 59;
      se ← parseUint [x1; x2] 0 59;
      if bool_decide ([s1; s2; t1; c1; c2] = ["-"; "-"; "T"; ":"; ":"]%char) then
        let '(nsec, rest) := parseFrac rest in
        off ← parseZone rest;
        Some ((days_of_civil y m d * 86400 + h * 3600 + mi * 60 + se - off) * 10 ^ 9 + nsec)
      else None
  | _ => None
  end.

Example Format_ex : Format 1700000000123450000 = b "2023-11-14T22:13:20.12345Z".
Proof. vm_compute. reflexivity. Qed.
Example Parse_ex : Parse (b "2023-11-15T00:13:20.12345+02:00") = Some 1700000000123450000.
Proof. vm_compute. reflexivity. Qed.
Example Parse_bad : Parse (b "2023-02-29T00:00:00Z") = None.
Proof. vm_compute. reflexivity. Qed.

(** ** Correctness of the calendar *)

(** First day of March-based year [yoe] inside its era. *)
Local Definition ystart (yoe : Z) : Z := 365 * yoe + yoe / 4 - yoe / 100.

Local Definition year_checks (yoe : Z) : bool :=
  (ystart (yoe + 1) - ystart yoe =? 365 + (if leap (yoe + 1) then 1 else 0))
  || ((yoe =? 399) && (ystart yoe + 366 =? 146097)).

Lemma year_checks_all yoe : 0 <= yoe < 400 -> year_checks yoe = true.
Proof.
  intros H.
  assert (Hall : forallb (fun n => year_checks (Z.of_nat n)) (seq 0 400) = true)
    by (vm_compute; reflexivity).
  rewrite forallb_forall in Hall. specialize (Hall (Z.to_nat yoe)).
  rewrite Z2Nat.id in Hall by lia. apply Hall, in_seq. lia.
Qed.

Lemma yoe_bounds doe :
  0 <= doe < 146097 ->
  let yoe := (doe - doe / 1460 + doe / 36524 - doe / 146096) / 365 in
  0 <= yoe < 400 /\ ystart yoe <= doe /\ (yoe < 399 -> doe < ystart (yoe + 1)).
Proof.
  intros H yoe. unfold ystart. subst yoe.
  Z.to_euclidean_division_equations; lia.
Qed.

Lemma leap_era y e : leap (y + e * 400) = leap y.
Proof.
  unfold leap.
  replace ((y + e * 400) mod 4) with (y mod 4) by (Z.to_euclidean_division_equations; lia).
  replace ((y + e * 400) mod 100) with (y mod 100) by (Z.to_euclidean_division_equations; lia).
  by rewrite Z.mod_add by lia.
Qed.

Lemma doy_bounds doe :
  0 <= doe < 146097 ->
  let yoe := (doe - doe / 1460 + doe / 36524 - doe / 146096) / 365 in
  0 <= yoe < 400 /\ 0 <= doe - ystart yoe <= (if leap (yoe + 1) then 365 else 364).
Proof.
  intros Hdoe yoe. destruct (yoe_bounds doe Hdoe) as (Hy & Hlo & Hhi). fold yoe in Hy, Hlo, Hhi.
  split; [done|].
  pose proof (year_checks_all yoe Hy) as Hchk. unfold year_checks in Hchk.
  apply orb_true_iff in Hchk as [H|H].
  - apply Z.eqb_eq in H. destruct (decide (yoe = 399)) as [E|]; [rewrite E in H; vm_compute in H; done|].
    specialize (Hhi ltac:(lia)). destruct (leap (yoe + 1)); lia.
  - apply andb_true_iff in H as [H1 H2]. apply Z.eqb_eq in H1, H2. rewrite H1 in *.
    change (leap (399 + 1)) with true. cbv iota. lia.
Qed.

Lemma mp_cases doy mp :
  0 <= doy <= 365 -> mp = (5 * doy + 2) / 153 ->
  0 <= mp <= 11 /\ 1 <= doy - (153 * mp + 2) / 5 + 1 <= 31 /\
  (mp = 11 -> doy - (153 * mp + 2) / 5 + 1 = doy - 336) /\
  (mp = 1 \/ mp = 3 \/ mp = 6 \/ mp = 8 -> doy - (153 * mp + 2) / 5 + 1 <= 30).
Proof. intros H ->. Z.to_euclidean_division_equations; lia. Qed.

(** Civil month and year of the [mp]-th month counted from March. *)
Local Definition civ_month (mp : Z) : Z := if mp <? 10 then mp + 3 else mp - 9.
Local Definition civ_year (y mp : Z) : Z := if civ_month mp <=? 2 then y + 1 else y.

Lemma civ_month_cases mp :
  0 <= mp <= 11 ->
  (mp < 10 /\ civ_month mp = mp + 3 /\ (civ_month mp <=? 2) = false) \/
  (10 <= mp /\ civ_month mp = mp - 9 /\ (civ_month mp <=? 2) = true).
Proof.
  unfold civ_month. intros. destruct (Z.ltb_spec mp 10); [left|right];
    (split; [lia|split; [done|]]); [apply Z.leb_gt | apply Z.leb_le]; lia.
Qed.

Lemma days_of_march yoe e mp d :
  0 <= yoe < 400 -> 0 <= mp <= 11 ->
  days_of_civil (civ_year (yoe + e * 400) mp) (civ_month mp) d
  = e * 146097 + (ystart yoe + ((153 * mp + 2) / 5 + d - 1)) - 719468.
Proof.
  intros Hy Hm.
  assert (E1 : (yoe + e * 400) mod 400 = yoe) by (rewrite Z.mod_add, Z.mod_small; lia).
  assert (E2 : (yoe + e * 400) / 400 = e) by (rewrite Z.div_add, Z.div_small; lia).
  unfold days_of_civil, civ_year.
  destruct (civ_month_cases mp Hm) as [(? & -> & E)|(? & -> & E)]; rewrite !E.
  - rewrite E1, E2. replace (mp + 3 - 3) with mp by lia. unfold ystart. lia.
  - replace (yoe + e * 400 + 1 - 1) with (yoe + e * 400) by lia.
    rewrite E1, E2. replace (mp - 9 + 9) with mp by lia. unfold ystart. lia.
Qed.

Lemma daysIn_march yoe e mp d :
  0 <= mp <= 11 -> d <= 31 ->
  (mp = 11 -> d <= if leap (yoe + 1) then 29 else 28) ->
  (mp = 1 \/ mp = 3 \/ mp = 6 \/ mp = 8 -> d <= 30) ->
  d <= daysIn (civ_month mp) (civ_year (yoe + e * 400) mp).
Proof.
  intros Hm H31 Hfeb H30. unfold daysIn, civ_year.
  destruct (civ_month_cases mp Hm) as [(? & -> & E)|(? & -> & E)]; rewrite !E.
  - replace (mp + 3 =? 2) with false by (symmetry; apply Z.eqb_neq; lia).
    destruct (Z.eqb_spec (mp + 3) 4), (Z.eqb_spec (mp + 3) 6),
      (Z.eqb_spec (mp + 3) 9), (Z.eqb_spec (mp + 3) 11); simpl; lia.
  - destruct (Z.eqb_spec (mp - 9) 2).
    + replace (yoe + e * 400 + 1) with (yoe + 1 + e * 400) by lia. rewrite leap_era.
      apply Hfeb. lia.
    + replace (mp - 9) with 1 by lia. simpl. lia.
Qed.

(** A calendar date produced from a day count is a valid date, and it denotes
    that day. *)
Lemma civil_of_days_spec z y m d :
  civil_of_days z = (y, m, d) ->
  days_of_civil y m d = z /\ 1 <= m <= 12 /\ 1 <= d <= daysIn m y.
Proof.
  unfold civil_of_days.
  set (z' := z + 719468). set (doe := z' mod 146097).
  set (yoe := (doe - doe / 1460 + doe / 36524 - doe / 146096) / 365).
  set (doy := doe - _). set (mp := (5 * doy + 2) / 153). set (e := z' / 146097).
  fold (civ_month mp). fold (civ_year (yoe + e * 400) mp).
  assert (Hdoe : 0 <= doe < 146097) by (apply Z.mod_pos_bound; lia).
  destruct (doy_bounds doe Hdoe) as [Hy Hdoy]. fold yoe in Hy, Hdoy. unfold ystart in Hdoy. fold doy in Hdoy.
  destruct (mp_cases doy mp) as (Hmp & Hd & Hfeb & H30); [destruct (leap _); lia | done |].
  assert (Hz : z' = e * 146097 + doe) by (unfold e, doe; rewrite (Z.div_mod z' 146097) at 1; lia).
  intros [= <- <- <-].
  split; [|split; [|split]].
  - rewrite days_of_march by done. unfold doy, ystart, z' in *. lia.
  - destruct (civ_month_cases mp Hmp) as [(? & -> & _)|(? & -> & _)]; lia.
  - lia.
  - apply daysIn_march; [done|lia| |done]. intros ->. rewrite Hfeb by done. destruct (leap _); lia.
Qed.

Lemma civil_of_days_year z y m d :
  civil_of_days z = (y, m, d) -> -700000 <= z < 2700000 -> 0 <= y <= 9999.
Proof.
  unfold civil_of_days.
  set (z' := z + 719468). set (doe := z' mod 146097).
  set (yoe := (doe - doe / 1460 + doe / 36524 - doe / 146096) / 365).
  intros [= <- _ _] Hz.
  assert (Hdoe : 0 <= doe < 146097) by (apply Z.mod_pos_bound; lia).
  destruct (yoe_bounds doe Hdoe) as (Hy & _ & _). fold yoe in Hy.
  assert (0 <= z' / 146097 <= 23) by (unfold z'; Z.to_euclidean_division_equations; lia).
  clearbody yoe. destruct (_ <=? 2); lia.
Qed.

(** ** Decimal round trips *)

Lemma digit_byteZ d : 0 <= d < 10 -> byteZ (digit d) = 48 + d.
Proof. intros. unfold digit. rewrite byteZ_Zbyte, Z.mod_small; lia. Qed.

Lemma digit_isDigit d : 0 <= d < 10 -> isDigit (digit d) = true.
Proof. intros. unfold isDigit. rewrite digit_byteZ by done. apply andb_true_iff; split; apply Z.leb_le; lia. Qed.

Lemma digits_val_acc acc l :
  digits_val acc l = acc * 10 ^ Z.of_nat (length l) + digits_val 0 l.
Proof.
  revert acc. induction l as [|c l IH]; intros acc; cbn [digits_val length]; [lia|].
  rewrite IH, (IH (10 * 0 + _)), Nat2Z.inj_succ, Z.pow_succ_r by lia. lia.
Qed.

Lemma digits_val_app l1 l2 :
  digits_val 0 (l1 ++ l2) = digits_val 0 l1 * 10 ^ Z.of_nat (length l2) + digits_val 0 l2.
Proof.
  assert (G : forall acc, digits_val acc (l1 ++ l2) = digits_val (digits_val acc l1) l2).
  { induction l1; intros; simpl; auto. }
  rewrite G, digits_val_acc. done.
Qed.

Lemma pad_length w n : length (pad w n) = w.
Proof. induction w; simpl; congruence. Qed.

Lemma pad_digits w n : forallb isDigit (pad w n) = true.
Proof.
  induction w; cbn [pad forallb]; [done|]. rewrite IHw, digit_isDigit; [done|].
  apply Z.mod_pos_bound. lia.
Qed.

Lemma digits_val_pad w n : digits_val 0 (pad w n) = n mod 10 ^ Z.of_nat w.
Proof.
  induction w as [|w IH]; [by rewrite Z.mod_1_r|].
  cbn [pad digits_val]. rewrite digits_val_acc, IH, pad_length. unfold digit_val.
  rewrite digit_byteZ by (apply Z.mod_pos_bound; lia).
  rewrite Nat2Z.inj_succ, Z.pow_succ_r by lia.
  rewrite (Z.mul_comm 10 (10 ^ _)), Z.rem_mul_r by lia. lia.
Qed.

Lemma parseUint_pad w n lo hi :
  0 <= n < 10 ^ Z.of_nat w -> lo <= n <= hi -> parseUint (pad w n) lo hi = Some n.
Proof.
  intros Hn Hr. unfold parseUint. rewrite pad_digits, digits_val_pad, Z.mod_small by done.
  replace (lo <=? n) with true by (symmetry; apply Z.leb_le; lia).
  by replace (n <=? hi) with true by (symmetry; apply Z.leb_le; lia).
Qed.

Lemma trimZeros_spec l : exists k, l = trimZeros l ++ replicate k (digit 0).
Proof.
  induction l as [|c l [k IH]]; [by exists 0%nat|]. cbn [trimZeros].
  destruct (trimZeros l) as [|t ts] eqn:E.
  - case_decide; subst.
    + exists (S k). simpl in *. by f_equal.
    + exists k. simpl in *. by f_equal.
  - exists k. simpl in *. by rewrite IH at 1.
Qed.

Lemma digits_val_zeros k : digits_val 0 (replicate k (digit 0)) = 0.
Proof. induction k; [done|]. cbn [replicate digits_val]. by rewrite digits_val_acc, IHk. Qed.

Lemma span_digits_app ds r :
  forallb isDigit ds = true -> (forall c, head r = Some c -> isDigit c = false) ->
  span_digits (ds ++ r) = (ds, r).
Proof.
  intros Hd Hr. induction ds as [|c ds IH]; simpl in *.
  - destruct r as [|c r]; simpl; [done|]. by rewrite Hr.
  - apply andb_true_iff in Hd as [-> Hd]. by rewrite IH.
Qed.

Lemma parseFrac_fmtFrac n :
  0 <= n < 10 ^ 9 -> parseFrac (fmtFrac n ++ ["Z"%char]) = (n, ["Z"%char]).
Proof.
  intros Hn. unfold fmtFrac.
  destruct (trimZeros_spec (pad 9 n)) as [k Hk].
  pose proof (digits_val_pad 9 n) as Hv. rewrite Z.mod_small in Hv by done.
  pose proof (pad_digits 9 n) as Hdig. pose proof (pad_length 9 n) as Hlen.
  rewrite Hk in Hv, Hdig, Hlen.
  rewrite digits_val_app, digits_val_zeros, length_replicate in Hv.
  rewrite length_app, length_replicate in Hlen.
  rewrite forallb_app in Hdig. apply andb_true_iff in Hdig as [Hdig _].
  destruct (trimZeros (pad 9 n)) as [|t ts] eqn:E.
  - simpl in *. rewrite <- Hv. done.
  - cbn [app parseFrac]. rewrite decide_True by done.
    change (t :: ts ++ ["Z"%char]) with ((t :: ts) ++ ["Z"%char]).
    rewrite span_digits_app; [|done|by intros c [= <-]].
    rewrite take_ge by lia. rewrite <- Hv. f_equal.
    rewrite Z.add_0_r. do 2 f_equal. lia.
Qed.

(** Every character of a formatted instant is one of the layout's. *)
Definition layout_char (c : ascii) : Prop :=
  isDigit c = true \/ c ∈ ["-"; "T"; ":"; "."; "Z"]%char.

Lemma pad_layout w n : Forall layout_char (pad w n).
Proof.
  apply Forall_forall. intros c Hc. left.
  pose proof (pad_digits w n) as H. rewrite forallb_forall in H. apply H. by apply list_elem_of_In.
Qed.

Lemma fmtFrac_layout n : Forall layout_char (fmtFrac n).
Proof.
  unfold fmtFrac. destruct (trimZeros_spec (pad 9 n)) as [k Hk].
  pose proof (pad_layout 9 n) as H. rewrite Hk in H. apply Forall_app in H as [H _].
  destruct (trimZeros (pad 9 n)); [constructor|].
  constructor; [right; set_solver|done].
Qed.

Lemma Format_layout t : Forall layout_char (Format t).
Proof.
  unfold Format. destruct (civil_of_days _) as [[y m] d].
  repeat first [apply pad_layout | apply fmtFrac_layout | apply Forall_app_2
    | apply Forall_nil_2 | apply Forall_cons_2; [right; set_solver|]].
Qed.

Lemma Format_no_slash t : "/"%char ∉ Format t.
Proof.
  intros H. pose proof (Format_layout t) as HF. rewrite Forall_forall in HF.
  destruct (HF _ H) as [Hd|Hd]; [vm_compute in Hd; done|].
  repeat (apply elem_of_cons in Hd as [Hd|Hd]; [done|]). by apply elem_of_nil in Hd.
Qed.

(** Formatting is inverted by parsing on years 1 to 9000 or so, in particular
    on every instant an [int64] nanosecond count denotes. *)
Lemma Parse_Format t : int64 t -> Parse (Format t) = Some t.
Proof.
  intros Ht. unfold Format.
  set (secs := t / 10 ^ 9). set (sod := secs mod 86400).
  destruct (civil_of_days (secs / 86400)) as [[y m] d] eqn:Hc.
  destruct (civil_of_days_spec _ _ _ _ Hc) as (Hdays & Hm & Hd).
  assert (Hsod : 0 <= sod < 86400) by (apply Z.mod_pos_bound; lia).
  assert (Hdi : daysIn m y <= 31) by (unfold daysIn; repeat case_match; lia).
  assert (Hsecs : -9223372037 <= secs <= 9223372036)
    by (unfold int64 in Ht; unfold secs; Z.to_euclidean_division_equations; lia).
  assert (Hy : 0 <= y <= 9999).
  { eapply civil_of_days_year; [exact Hc|]. clearbody secs. Z.to_euclidean_division_equations; lia. }
  assert (Hn : 0 <= t mod 10 ^ 9 < 10 ^ 9) by (apply Z.mod_pos_bound; lia).
  pose proof (parseUint_pad 4 y 0 9999 ltac:(lia) ltac:(lia)) as P1.
  pose proof (parseUint_pad 2 m 1 12 ltac:(lia) ltac:(lia)) as P2.
  pose proof (parseUint_pad 2 d 1 (daysIn m y) ltac:(lia) ltac:(lia)) as P3.
  assert (Hh : 0 <= sod / 3600 <= 23) by (clearbody sod; Z.to_euclidean_division_equations; lia).
  assert (Hmi : 0 <= sod / 60 mod 60 < 60) by (apply Z.mod_pos_bound; lia).
  assert (Hse : 0 <= sod mod 60 < 60) by (apply Z.mod_pos_bound; lia).
  pose proof (parseUint_pad 2 (sod / 3600) 0 23 ltac:(lia) ltac:(lia)) as P4.
  pose proof (parseUint_pad 2 (sod / 60 mod 60) 0 59 ltac:(lia) ltac:(lia)) as P5.
  pose proof (parseUint_pad 2 (sod mod 60) 0 59 ltac:(lia) ltac:(lia)) as P6.
  pose proof (parseFrac_fmtFrac _ Hn) as PF.
  cbn [pad app] in *. unfold Parse.
  rewrite P1; cbn [mbind option_bind]. rewrite P2; cbn [mbind option_bind].
  rewrite P3; cbn [mbind option_bind]. rewrite P4; cbn [mbind option_bind].
  rewrite P5; cbn [mbind option_bind]. rewrite P6; cbn [mbind option_bind].
  rewrite bool_decide_true by done. rewrite PF. cbn [parseZone mbind option_bind].
  rewrite decide_True by done. cbn [mbind option_bind]. f_equal.
  rewrite Hdays. unfold secs, sod in *.
  Z.to_euclidean_division_equations; lia.
Qed.

(** ** What a parsed instant's text looks like *)

Lemma parseUint_digits l lo hi x : parseUint l lo hi = Some x -> Forall layout_char l.
Proof.
  unfold parseUint. destruct (forallb isDigit l) eqn:E; [|done]. intros _.
  apply Forall_forall. intros c Hc. left. rewrite forallb_forall in E. by apply E, list_elem_of_In.
Qed.

Lemma span_digits_spec l : let '(ds, r) := span_digits l in
  l = ds ++ r /\ Forall layout_char ds.
Proof.
  induction l as [|c l IH]; simpl; [done|]. destruct (isDigit c) eqn:E; [|done].
  destruct (span_digits l) as [ds r]. destruct IH as [-> ?]. split; [done|].
  constructor; [by left|done].
Qed.

Lemma parseFrac_spec l : exists p, l = p ++ (parseFrac l).2 /\ Forall layout_char p.
Proof.
  assert (Hnil : exists p, l = p ++ l /\ Forall layout_char p) by (exists []; done).
  unfold parseFrac. destruct l as [|c l]; [done|]. case_decide; [|done].
  pose proof (span_digits_spec l) as Hs. destruct (span_digits l) as [[|d ds] r]; [done|].
  destruct Hs as [-> Hd]. simpl. exists (c :: d :: ds). split; [done|].
  constructor; [right; subst; set_solver|done].
Qed.

(** Characters of a zone suffix: those of the layout, plus a sign. *)
Definition instant_char (c : ascii) : Prop := layout_char c \/ c = "+"%char.

Lemma parseZone_chars l x : parseZone l = Some x -> Forall instant_char l.
Proof.
  unfold parseZone. intros Hz.
  destruct l as [|a [|c1 [|c2 [|c3 [|c4 [|c5 [|? ?]]]]]]]; try done.
  - case_decide; [|done]. subst. apply Forall_singleton. left. right. set_solver.
  - destruct (parseUint [c1; c2] 0 23) eqn:E1; [|done].
    destruct (parseUint [c4; c5] 0 59) eqn:E2; [|done]. simpl in Hz.
    apply parseUint_digits in E1, E2. inv E1. inv E2.
    repeat match goal with H : Forall _ (_ :: _) |- _ => inv H end.
    repeat case_decide; simplify_eq; repeat (apply Forall_cons_2 || apply Forall_nil_2);
      first [by left | by right | left; right; set_solver].
Qed.

(** No "/" in a text that parses: the fields of a state key stay apart. *)
Lemma Parse_no_slash s t : Parse s = Some t -> "/"%char ∉ s.
Proof.
  intros Hp.
  assert (HF : Forall instant_char s).
  { unfold Parse in Hp. do 19 (destruct s as [|? s]; [done|]).
    repeat match type of Hp with
    | (parseUint ?l ?lo ?hi ≫= _) = _ =>
        let E := fresh "E" in destruct (parseUint l lo hi) eqn:E; [|done];
        apply parseUint_digits in E; cbn [mbind option_bind] in Hp
    end.
    case_bool_decide as Hsep; [|done]. simplify_eq.
    destruct (parseFrac_spec s) as (p & Hs & Hpc). destruct (parseFrac s) as [n r]. simpl in Hs.
    destruct (parseZone r) eqn:Ez; [|done]. apply parseZone_chars in Ez.
    repeat match goal with H : Forall _ (_ :: _) |- _ => inv H end.
    repeat (apply Forall_cons_2; [left; first [done | right; set_solver]|]).
    apply Forall_app_2; [|done]. eapply Forall_impl; [exact Hpc|]. intros c Hc. by left. }
  intros Hin. rewrite Forall_forall in HF. destruct (HF _ Hin) as [[Hd|Hd]|Hd]; [done| |done].
  repeat (apply elem_of_cons in Hd as [Hd|Hd]; [done|]). by apply elem_of_nil in Hd.
Qed.

Arguments Format : simpl never.
Arguments Parse : simpl never.
