(* ===== verification/Strconv.v ===== *)
(** * Package strconv: decimal texts and float64

    [Itoa], [ParseInt], [ParseFloat] and [FormatFloat(x, 'g', -1, 64)], as far
    as records and configuration use them.  A finite float64 is an integer
    multiple of 2^-1074, so [FFin neg u] stands for (-1)^neg * u / 2^1074;
    conversions round to nearest, ties to even. *)
From stdpp Require Import pretty.
From S2P Require Import Prelude GoTime.

(** ** Integers *)

(** [strconv.Itoa] and [FormatInt(n, 10)]. *)
Definition dec_ (n : Z) : bytes := b (pretty n).

Lemma b_app s t : b (s +:+ t) = b s ++ b t.
Proof. induction s as [|c s IH]; [done|]. cbn. by rewrite <- IH. Qed.
Lemma b_inj s t : b s = b t -> s = t.
Proof. revert t. induction s as [|c s IH]; intros [|d t] E; try done. cbn in E. injection E as -> E. f_equal. by apply IH. Qed.
#[export] Instance dec_inj : Inj (=) (=) dec_.
Proof. intros x y E. unfold dec_ in E. by apply b_inj, (inj pretty) in E. Qed.

Lemma pretty_char_digit x : (x < 10)%N -> isDigit (pretty_N_char x) = true /\ digit_val (pretty_N_char x) = Z.of_N x.
Proof.
  intros Hx. assert (H : x ∈ (N.of_nat <$> seq 0 10)).
  { apply list_elem_of_fmap. exists (N.to_nat x). split; [lia|]. apply elem_of_seq. lia. }
  clear Hx. cbn in H. rewrite !elem_of_cons, elem_of_nil in H.
  destruct_or! H; try subst; try done.
Qed.

Lemma pretty_go_val x s :
  forallb isDigit (b s) = true ->
  forallb isDigit (b (pretty_N_go x s)) = true /\
  digits_val 0 (b (pretty_N_go x s)) = Z.of_N x * 10 ^ Z.of_nat (length (b s)) + digits_val 0 (b s) /\
  ((0 < x)%N -> b (pretty_N_go x s) <> []) /\ (s <> EmptyString -> b (pretty_N_go x s) <> []).
Proof.
  revert s. induction (N.lt_wf_0 x) as [x _ IH]; intros s Hs.
  destruct (decide (x = 0)%N) as [->|Hx].
  - rewrite pretty_N_go_0. split_and!; [done|lia|lia|]. by destruct s.
  - rewrite pretty_N_go_step by lia.
    destruct (pretty_char_digit (x `mod` 10)) as [Hd Hv]; [apply N.mod_lt; lia|].
    destruct (IH (x `div` 10)%N ltac:(apply N.div_lt; lia) (String (pretty_N_char (x `mod` 10)) s)) as (H1 & H2 & _ & H4).
    { cbn. by rewrite Hd, Hs. }
    split_and!; [done| |intros _; by apply H4|intros _; by apply H4].
    rewrite H2. cbn [b digits_val length]. rewrite digits_val_acc, Hv, Nat2Z.inj_succ, Z.pow_succ_r by lia.
    rewrite N2Z.inj_div, N2Z.inj_mod by lia. change (Z.of_N 10) with 10.
    pose proof (Z.div_mod (Z.of_N x) 10 ltac:(lia)) as Hdm.
    remember (Z.of_N x / 10) as q eqn:Eq. remember (Z.of_N x mod 10) as r eqn:Er. rewrite Hdm. ring.
Qed.

Lemma pretty_N_val x : forallb isDigit (b (pretty x)) = true /\ digits_val 0 (b (pretty x)) = Z.of_N x /\ b (pretty x) <> [].
Proof.
  unfold pretty, pretty_N. case_decide as Hx; [by subst|].
  destruct (pretty_go_val x "" eq_refl) as (H1 & H2 & H3 & _). split_and!; [done| |apply H3; lia].
  rewrite H2. change (digits_val 0 (b "")) with 0. change (10 ^ Z.of_nat (length (b ""))) with 1. lia.
Qed.
Lemma dec_ascii p : Forall (λ c, byteZ c < 128) (dec_ p).
Proof.
  unfold dec_. assert (Hd : forall l, forallb isDigit l = true -> Forall (λ c, byteZ c < 128) l).
  { intros l. rewrite forallb_forall. intros H. apply Forall_forall. intros c Hc. apply list_elem_of_In, H in Hc.
    unfold isDigit in Hc. lia. }
  destruct p as [|p|p]; [by repeat constructor|by apply Hd, (pretty_N_val (N.pos p))|].
  change (pretty (Z.neg p)) with ("-" +:+ pretty (N.pos p)). rewrite b_app. apply Forall_app. split; [by repeat constructor|by apply Hd, pretty_N_val].
Qed.

Lemma span_all ds : forallb isDigit ds = true -> span_digits ds = (ds, []).
Proof. intros H. rewrite <- (app_nil_r ds) at 1. by apply span_digits_app. Qed.

(** An optional sign. *)
Definition cut_sign (s : bytes) : bool * bytes :=
  match s with
  | c :: s' => if decide (c = "-"%char) then (true, s') else if decide (c = "+"%char) then (false, s') else (false, s)
  | [] => (false, [])
  end.
Definition with_sign (neg : bool) (n : Z) : Z := if neg then - n else n.

(** [ParseInt(s, 10, 64)]. *)
Definition ParseInt (s : bytes) : result Z :=
  let '(neg, ds) := cut_sign s in
  if bool_decide (ds = []) || negb (forallb isDigit ds) then Err "invalid syntax"
  else let n := with_sign neg (digits_val 0 ds) in
       if decide (int64 n) then Ok n else Err "value out of range".

(** ** float64 *)

Inductive float64 : Type := FNaN | FInf (neg : bool) | FFin (neg : bool) (u : Z).
#[export] Instance float64_eq_dec : EqDecision float64.
Proof. solve_decision. Defined.

(** 1.0 in units of 2^-1074. *)
Definition one_ : Z := Z.shiftl 1 1074.

(** [n / d] to the nearest integer, ties to even. *)
Definition half_even (n d : Z) : Z :=
  let q := n / d in
  let r := n mod d in
  if 2 * r <? d then q else if d <? 2 * r then q + 1 else if Z.even q then q else q + 1.

(** [n / d] units to 53 significant bits. *)
Definition round53 (n d : Z) : Z :=
  let i := n / d in
  let ulp := if i <? 2 ^ 53 then 1 else Z.shiftl 1 (Z.log2 i - 52) in
  half_even n (d * ulp) * ulp.
Definition finite (neg : bool) (u : Z) : float64 := if Z.shiftl 1 2098 <=? u then FInf neg else FFin neg u.
(** The float64 nearest to [p / q]. *)
Definition of_ratio (neg : bool) (p q : Z) : float64 := finite neg (round53 (p * one_) q).
Definition of_scaled (neg : bool) (m x : Z) : float64 :=     (* m * 10^x *)
  if 0 <=? x then of_ratio neg (m * 10 ^ x) 1 else of_ratio neg m (10 ^ (- x)).

(** The exponent part of a literal. *)
Definition parse_exp (s : bytes) : option Z :=
  match s with
  | [] => Some 0
  | c :: s' =>
      if decide (c = "e"%char \/ c = "E"%char) then
        let '(neg, ds) := cut_sign s' in
        if bool_decide (ds = []) || negb (forallb isDigit ds) then None else Some (with_sign neg (digits_val 0 ds))
      else None
  end.

(** [ParseFloat(s, 64)] on decimal literals and on the texts FormatFloat gives
    to the special values (hexadecimal literals and underscores are left out):
    the value and the error, which come together when out of range. *)
Definition parse_float (s : bytes) : float64 * option string :=
  let '(neg, s) := cut_sign s in
  if bool_decide (s = b "NaN") then (FNaN, None)
  else if bool_decide (s = b "Inf") then (FInf neg, None)
  else
    let '(ip, r) := span_digits s in
    let '(fp, r) := match r with
      | c :: r' => if decide (c = "."%char) then span_digits r' else ([], r)
      | [] => ([], [])
      end in
    match ip ++ fp, parse_exp r with
    | [], _ | _, None => (FFin false 0, Some "invalid syntax")
    | ds, Some e =>
        match of_scaled neg (digits_val 0 ds) (e - Z.of_nat (length fp)) with
        | FInf n => (FInf n, Some "value out of range")
        | f => (f, None)
        end
    end.
Definition ParseFloat (s : bytes) : result float64 :=
  match parse_float s with (f, None) => Ok f | (_, Some e) => Err e end.

Definition units (f : float64) : Z := match f with FFin neg u => with_sign neg u | _ => 0 end.
Definition rank (f : float64) : Z := match f with FInf neg => with_sign neg 1 | _ => 0 end.
Definition is_nan (f : float64) : bool := match f with FNaN => true | _ => false end.
(** [<] and [==] on float64. *)
Definition flt (x y : float64) : bool :=
  negb (is_nan x) && negb (is_nan y) && ((rank x <? rank y) || (rank x =? rank y) && (units x <? units y)).
Definition feq (x y : float64) : bool :=
  negb (is_nan x) && negb (is_nan y) && (rank x =? rank y) && (units x =? units y).

(** [x + y]. *)
Definition fadd (x y : float64) : float64 :=
  match x, y with
  | FNaN, _ | _, FNaN => FNaN
  | FInf n, FInf m => if Bool.eqb n m then FInf n else FNaN
  | FInf n, _ | _, FInf n => FInf n
  | FFin n _, FFin m _ =>
      let s := units x + units y in
      if s =? 0 then FFin (n && m) 0 else finite (s <? 0) (round53 (Z.abs s) 1)
  end.

(** [float64(n)], and [int64(x)] (out of range: the value amd64 gives). *)
Definition of_int64 (n : Z) : float64 := of_ratio (n <? 0) (Z.abs n) 1.
Definition to_int64 (x : float64) : Z :=
  match x with
  | FFin neg u => let n := with_sign neg (u / one_) in if decide (int64 n) then n else - 2 ^ 63
  | _ => - 2 ^ 63
  end.

(** ** FormatFloat(x, 'g', -1, 64) *)

Definition ge_pow10 (u x : Z) : bool := if 0 <=? x then 10 ^ x * one_ <=? u else one_ <=? u * 10 ^ (- x).
(** The decimal exponent of [u] units, from the binary one. *)
Definition exp10 (u : Z) : Z :=
  let x := (Z.log2 u - 1074) * 30103 / 100000 in
  if ge_pow10 u (x + 1) then x + 1 else if ge_pow10 u x then x else x - 1.
(** The [n]-digit decimals next to the value that read back as it, nearest
    first: digits and exponent. *)
Definition candidates (u : Z) (n : nat) : list (Z * Z) :=
  let k := exp10 u + 1 - Z.of_nat n in
  let '(num, den) := if 0 <=? k then (u, one_ * 10 ^ k) else (u * 10 ^ (- k), one_) in
  let lo := num / den in
  let near := if 2 * (num mod den) <? den then [lo; lo + 1] else [lo + 1; lo] in
  (λ d, (d, k)) <$> List.filter (λ d, bool_decide (of_scaled false d k = FFin false u)) near.
(** The fewest digits that identify the value; 17 always do. *)
Fixpoint shortest_from (u : Z) (n fuel : nat) : Z * Z :=
  match fuel with
  | O => (0, 0)
  | S fuel => match candidates u n with c :: _ => c | [] => shortest_from u (S n) fuel end
  end.
Definition shortest (u : Z) : Z * Z := shortest_from u 1 17.

Definition zeros (n : Z) : bytes := replicate (Z.to_nat n) (digit 0).
Definition fmt_e (ds : bytes) (x : Z) : bytes :=
  match ds with
  | [] => []
  | [d] => [d]
  | d :: ds => d :: "."%char :: ds
  end ++ "e"%char :: (if x <? 0 then "-"%char else "+"%char) :: (if Z.abs x <? 10 then zeros 1 else []) ++ dec_ (Z.abs x).
Definition fmt_f (ds : bytes) (dp : Z) : bytes :=
  let nd := Z.of_nat (length ds) in
  if dp <=? 0 then b "0." ++ zeros (- dp) ++ ds
  else if nd <=? dp then ds ++ zeros (dp - nd)
  else take (Z.to_nat dp) ds ++ "."%char :: drop (Z.to_nat dp) ds.
Definition FormatFloat (f : float64) : bytes :=
  match f with
  | FNaN => b "NaN"
  | FInf neg => b (if neg then "-Inf" else "+Inf")
  | FFin neg u =>
      (if neg then b "-" else []) ++
      if u =? 0 then b "0"
      else
        let '(d, k) := shortest u in
        let dp := Z.of_nat (length (dec_ d)) + k in
        let ds := trimZeros (dec_ d) in
        if (dp - 1 <? - 4) || (6 <=? dp - 1) then fmt_e ds (dp - 1) else fmt_f ds dp
  end.

Example float_texts :
  (λ s, match ParseFloat (b s) with Ok f => FormatFloat f | Err e => b e end) <$>
    ["0.1"; "1e21"; "100"; "1000000"; "123456.7"; "5e-324"; "2e308"; "-0.00001"; "x"; "0.3e1"]
  = b <$> ["0.1"; "1e+21"; "100"; "1e+06"; "123456.7"; "5e-324"; "value out of range"; "-1e-05"; "invalid syntax"; "3"].
Proof. vm_compute. reflexivity. Qed.

(** ** Integers up to 2^53 are exact *)

Definition exact_int (n : Z) : Prop := - 2 ^ 53 <= n <= 2 ^ 53.

Lemma one_pos : 0 < one_.
Proof. unfold one_. rewrite Z.shiftl_1_l. apply Z.pow_pos_nonneg; lia. Qed.
Lemma half_even_exact q d : 0 < d -> half_even (q * d) d = q.
Proof.
  intros Hd. unfold half_even. rewrite Z.div_mul, Z.mod_mul by lia.
  destruct (Z.ltb_spec (2 * 0) d); lia.
Qed.
(** Rounding keeps a number its unit in the last place divides. *)
Lemma round53_exact i d : 0 < d -> 0 <= i -> (2 ^ 53 <= i -> (2 ^ (Z.log2 i - 52) | i)) -> round53 (i * d) d = i.
Proof.
  intros Hd Hi Hdiv. unfold round53. rewrite Z.div_mul by lia.
  destruct (Z.ltb_spec i (2 ^ 53)) as [Hs|Hs].
  - by rewrite !Z.mul_1_r, half_even_exact.
  - destruct (Hdiv Hs) as [k Hk]. rewrite Z.shiftl_1_l.
    assert (0 < 2 ^ (Z.log2 i - 52)) as Hp.
    { apply Z.pow_pos_nonneg; [lia|]. apply Z.log2_le_mono in Hs. rewrite Z.log2_pow2 in Hs; lia. }
    revert Hk Hp. generalize (2 ^ (Z.log2 i - 52)). intros p Hk Hp.
    rewrite Hk. replace (k * p * d) with (k * (d * p)) by ring. by rewrite half_even_exact by lia.
Qed.

Lemma ulp_divides n : 0 < n <= 2 ^ 53 -> (2 ^ (Z.log2 (n * one_) - 52) | n * one_).
Proof.
  intros Hn. unfold one_. rewrite Z.shiftl_1_l, <- Z.shiftl_mul_pow2, Z.log2_shiftl, Z.shiftl_mul_pow2 by lia.
  assert (Hl : 0 <= Z.log2 n <= 53) by (split; [apply Z.log2_nonneg|]; rewrite <- (Z.log2_pow2 53) by lia; apply Z.log2_le_mono; lia).
  destruct (decide (Z.log2 n = 53)) as [E|E].
  - assert (n = 2 ^ 53) as -> by (pose proof (Z.log2_spec n ltac:(lia)) as H; rewrite E in H; lia).
    rewrite <- Z.pow_add_r by lia. exists (2 ^ (53 + 1074 - (Z.log2 (2 ^ 53) + 1074 - 52))).
    rewrite <- Z.pow_add_r by (rewrite ?Z.log2_pow2; lia). reflexivity.
  - exists (n * 2 ^ (1074 - (Z.log2 n + 1074 - 52))). rewrite <- Z.mul_assoc, <- Z.pow_add_r by lia. do 2 f_equal. lia.
Qed.

Lemma of_ratio_int neg n : 0 <= n <= 2 ^ 53 -> of_ratio neg n 1 = FFin neg (n * one_).
Proof.
  intros Hn. unfold of_ratio. pose proof one_pos. rewrite <- (Z.mul_1_r (n * one_)) at 1. rewrite round53_exact; [|lia|nia|].
  - unfold finite. destruct (Z.leb_spec (Z.shiftl 1 2098) (n * one_)) as [Hl|]; [exfalso|done].
    unfold one_ in Hl. rewrite !Z.shiftl_1_l in Hl.
    assert (n * 2 ^ 1074 <= 2 ^ 53 * 2 ^ 1074) by (apply Z.mul_le_mono_nonneg_r; lia).
    rewrite <- Z.pow_add_r in * by lia. assert (2 ^ (53 + 1074) < 2 ^ 2098) by (apply Z.pow_lt_mono_r; lia). lia.
  - intros Hbig. apply ulp_divides. destruct (decide (n = 0)) as [->|]; [|lia]. lia.
Qed.

Lemma of_int64_exact n : exact_int n -> of_int64 n = FFin (n <? 0) (Z.abs n * one_).
Proof. unfold exact_int. intros. unfold of_int64. apply of_ratio_int. lia. Qed.

(** A decimal text is its sign and its digits. *)
Lemma dec_cut n : exists ds, cut_sign (dec_ n) = (n <? 0, ds) /\ ds <> [] /\ forallb isDigit ds = true /\ digits_val 0 ds = Z.abs n.
Proof.
  unfold dec_. destruct n as [|p|p]; [exists [digit 0]; done| |];
    destruct (pretty_N_val (N.pos p)) as (H1 & H2 & H3).
  - change (pretty (Z.pos p)) with (pretty (N.pos p)). exists (b (pretty (N.pos p))). split_and!; try done.
    destruct (b (pretty (N.pos p))) as [|c l]; [done|]. unfold cut_sign.
    assert (Hc : isDigit c = true) by (cbn in H1; by apply andb_prop in H1 as [? _]).
    rewrite decide_False by (intros ->; done). by rewrite decide_False by (intros ->; done).
  - change (pretty (Z.neg p)) with ("-" +:+ pretty (N.pos p)). rewrite b_app. exists (b (pretty (N.pos p))). done.
Qed.

Lemma ParseInt_dec n : int64 n -> ParseInt (dec_ n) = Ok n.
Proof.
  intros Hn. unfold ParseInt. destruct (dec_cut n) as (ds & -> & H1 & H2 & H3).
  rewrite bool_decide_false, H2 by done. cbn. unfold with_sign. rewrite H3.
  replace (if n <? 0 then - Z.abs n else Z.abs n) with n by (destruct (Z.ltb_spec n 0); lia). by rewrite decide_True.
Qed.
Lemma ParseFloat_dec n : exact_int n -> ParseFloat (dec_ n) = Ok (FFin (n <? 0) (Z.abs n * one_)).
Proof.
  intros Hn. unfold ParseFloat, parse_float. destruct (dec_cut n) as (ds & -> & H1 & H2 & H3).
  rewrite bool_decide_false by (intros ->; done). rewrite bool_decide_false by (intros ->; done).
  rewrite span_all by done. cbn [parse_exp length]. rewrite app_nil_r. destruct ds as [|c ds]; [done|]. rewrite H3.
  unfold of_scaled. change (0 <=? 0 - Z.of_nat 0) with true. change (10 ^ (0 - Z.of_nat 0)) with 1. cbn [negb]. rewrite Z.mul_1_r, of_ratio_int; [done|]. unfold exact_int in Hn. lia.
Qed.

(** Their order and sum are those of the integers. *)
Definition fint (n : Z) : float64 := FFin (n <? 0) (Z.abs n * one_).
Lemma units_fint n : units (fint n) = n * one_.
Proof. unfold units, fint, with_sign. destruct (Z.ltb_spec n 0); lia. Qed.
Lemma flt_fint m n : flt (fint m) (fint n) = (m <? n).
Proof.
  unfold flt. rewrite !units_fint. cbn. pose proof one_pos.
  destruct (Z.ltb_spec (m * one_) (n * one_)), (Z.ltb_spec m n); try done; nia.
Qed.
Lemma feq_fint m n : feq (fint m) (fint n) = (m =? n).
Proof.
  unfold feq. rewrite !units_fint. cbn. pose proof one_pos.
  destruct (Z.eqb_spec (m * one_) (n * one_)), (Z.eqb_spec m n); try done; nia.
Qed.
Lemma to_int64_fint n : int64 n -> to_int64 (fint n) = n.
Proof.
  intros Hn. pose proof one_pos. unfold to_int64, fint. rewrite Z.div_mul by lia. unfold with_sign.
  replace (if n <? 0 then - Z.abs n else Z.abs n) with n by (destruct (Z.ltb_spec n 0); lia). by rewrite decide_True.
Qed.
Lemma fadd_fint m n : exact_int (m + n) -> 0 <= m -> 0 <= n -> fadd (fint m) (fint n) = fint (m + n).
Proof.
  intros H Hm Hn. pose proof one_pos. unfold fadd. rewrite !units_fint. unfold fint.
  replace (m <? 0) with false by lia. replace (n <? 0) with false by lia. replace (m + n <? 0) with false by lia. cbn [andb].
  destruct (Z.eqb_spec (m * one_ + n * one_) 0) as [E|E].
  - replace (m + n) with 0 by nia. done.
  - replace (m * one_ + n * one_ <? 0) with false by nia. unfold exact_int in *.
    pose proof (of_ratio_int false (m + n)) as R. unfold of_ratio in R. rewrite !Z.abs_eq by nia.
    rewrite <- R by lia. repeat f_equal; ring.
Qed.
#[export] Hint Resolve one_pos : weibo.
