(* ===== verification/Paths.v ===== *)
(** * File paths (package path/filepath, on Unix)

    Joining, cleaning and relating slash-separated paths, with the facts the
    directory layouts rely on. *)
From S2P Require Import Prelude.

Definition isE (s : bytes) : bool := bool_decide (s = []).
Definition eqs (s : bytes) (lit : string) : bool := bool_decide (s = b lit).

(** [strings.Join] and [strings.Split]. *)
Fixpoint join (sep : bytes) (l : list bytes) : bytes :=
  match l with
  | [] => []
  | [x] => x
  | x :: l => x ++ sep ++ join sep l
  end.
Definition slash : ascii := "/"%char.
Fixpoint split_on (c : ascii) (s : bytes) : list bytes :=
  match s with
  | [] => [[]]
  | d :: s =>
      if decide (d = c) then [] :: split_on c s
      else match split_on c s with seg :: rest => (d :: seg) :: rest | [] => [[d]] end
  end.
(** One path element applied to the elements kept, last first. *)
Definition clean_step (rooted : bool) (out : list bytes) (seg : bytes) : list bytes :=
  if bool_decide (seg = [] \/ seg = b ".") then out
  else if bool_decide (seg = b "..") then
    match out with
    | top :: rest => if decide (top = b "..") then seg :: out else rest
    | [] => if rooted then [] else [seg]
    end
  else seg :: out.
Definition rooted (path : bytes) : bool := match path with c :: _ => bool_decide (c = slash) | [] => false end.
Definition elems (path : bytes) : list bytes := reverse (foldl (clean_step (rooted path)) [] (split_on slash path)).
Definition render (r : bool) (l : list bytes) : bytes :=
  match (if r then [slash] else []) ++ join [slash] l with [] => b "." | p => p end.
(** [filepath.Clean]. *)
Definition Clean (path : bytes) : bytes := render (rooted path) (elems path).
(** [filepath.Join]: empty elements are skipped. *)
Definition path_Join (elems : list bytes) : bytes :=
  match List.filter (λ e, negb (isE e)) elems with [] => [] | es => Clean (join [slash] es) end.

Definition dotty (s : bytes) : bool := isE s || eqs s "." || eqs s "..".

(** A path element that [Clean] keeps as it is. *)
Definition ordinary (s : bytes) : Prop := dotty s = false /\ slash ∉ s.
Lemma split_on_ne c s : split_on c s <> [].
Proof. destruct s as [|d s]; cbn; [done|]. case_decide; [done|]. by destruct (split_on c s). Qed.
Lemma split_on_app c p s : split_on c (p ++ c :: s) = split_on c p ++ split_on c s.
Proof.
  induction p as [|d p IH]; cbn; [by rewrite decide_True|]. rewrite IH. case_decide; [done|].
  destruct (split_on c p) eqn:E; [by apply split_on_ne in E|done].
Qed.
Lemma split_on_plain c s : c ∉ s -> split_on c s = [s].
Proof.
  induction s as [|d s IH]; intros Hc; [done|]. cbn. rewrite not_elem_of_cons in Hc. destruct Hc as [H1 H2].
  rewrite decide_False by congruence. by rewrite IH.
Qed.
Lemma clean_ordinary r out s : ordinary s -> clean_step r out s = s :: out.
Proof.
  intros [Hd _]. unfold dotty, isE, eqs in Hd. apply orb_false_iff in Hd as [[H1 H2]%orb_false_iff H3].
  unfold clean_step. apply bool_decide_eq_false in H1, H2, H3. rewrite bool_decide_false by naive_solver. by rewrite bool_decide_false.
Qed.
Lemma join_snoc sep l x : join sep (l ++ [x]) = (match l with [] => [] | _ => join sep l ++ sep end) ++ x.
Proof.
  induction l as [|y [|z l] IH]; [done|cbn; by rewrite <- app_assoc|].
  change (join sep ((y :: z :: l) ++ [x])) with (y ++ sep ++ join sep ((z :: l) ++ [x])). rewrite IH. cbn. by rewrite <- !app_assoc.
Qed.
(** Ordinary elements are appended to what cleaning makes of the rest. *)
Lemma Clean_snoc p : p <> [] -> exists pre, forall s, ordinary s ->
  Clean (p ++ slash :: s) = pre ++ s /\ (forall t, ordinary t -> Clean (p ++ slash :: s ++ slash :: t) = pre ++ s ++ slash :: t).
Proof.
  intros Hp. destruct p as [|c p]; [done|]. set (r := bool_decide (c = slash)).
  set (out := foldl (clean_step r) [] (split_on slash (c :: p))).
  exists ((if r then [slash] else []) ++ match reverse out with [] => [] | _ => join [slash] (reverse out) ++ [slash] end).
  intros s Hs. pose proof Hs as [Hd Hsl].
  assert (Hs0 : s <> []) by (intros ->; done). unfold Clean, render, elems. cbn [app rooted]. fold r. split.
  - change (c :: p ++ slash :: s) with ((c :: p) ++ slash :: s). rewrite split_on_app, (split_on_plain _ s), foldl_app by done.
    fold out. cbn [foldl]. rewrite clean_ordinary, reverse_cons, join_snoc by done. rewrite app_assoc.
    destruct (_ ++ s) eqn:E; [|done]. by apply app_nil in E as [_ ?].
  - intros t Ht. pose proof Ht as [Hdt Htl].
    change (c :: p ++ slash :: s ++ slash :: t) with ((c :: p) ++ slash :: s ++ slash :: t).
    rewrite split_on_app, split_on_app, (split_on_plain _ s), (split_on_plain _ t), foldl_app by done.
    fold out. cbn [foldl app]. rewrite !clean_ordinary, !reverse_cons, join_snoc by done.
    destruct (reverse out ++ [s]) eqn:Er; [by apply app_nil in Er as [_ ?]|]. rewrite <- Er, join_snoc, <- !app_assoc. cbn [app].
    rewrite !app_assoc. destruct (_ ++ slash :: t) eqn:E; [|done]. by apply app_nil in E as [_ ?].
Qed.

(** ** Clean paths *)

(** Elements kept by cleaning, last first: parent steps only at the bottom of
    a relative path. *)
Fixpoint stack_ok (r : bool) (out : list bytes) : Prop :=
  match out with
  | [] => True
  | s :: rest => ((slash ∉ s) /\ s <> [] /\ s <> b ".") /\ (s = b ".." -> r = false /\ Forall (eq (b "..")) rest) /\ stack_ok r rest
  end.
Lemma clean_step_ok r out seg : slash ∉ seg -> stack_ok r out -> stack_ok r (clean_step r out seg).
Proof.
  intros Hs Ho. unfold clean_step. case_bool_decide as H1; [done|]. case_bool_decide as H2.
  - subst seg. destruct out as [|top rest]; [by destruct r|]. case_decide as H3; [|by destruct Ho as (_ & _ & ?)].
    subst top. split; [naive_solver|]. split; [|done]. intros _. destruct Ho as (_ & [-> Hf]%(λ f, f eq_refl) & _). split; [done|by constructor].
  - split; [naive_solver|]. by split.
Qed.
Lemma clean_fold_ok r segs out : Forall (λ s, slash ∉ s) segs -> stack_ok r out -> stack_ok r (foldl (clean_step r) out segs).
Proof. intros Hs. revert out. induction Hs; intros out Ho; [done|]. cbn [foldl]. by apply IHHs, clean_step_ok. Qed.
Lemma clean_fold_fix r out : stack_ok r out -> foldl (clean_step r) [] (reverse out) = out.
Proof.
  induction out as [|s rest IH]; [done|]. intros ((H1 & H2 & H3) & H4 & H5). rewrite reverse_cons, foldl_app, IH by done. cbn [foldl].
  unfold clean_step. rewrite bool_decide_false by naive_solver. case_bool_decide as Hd; [|done]. destruct (H4 Hd) as [-> Hf].
  destruct Hf as [|x l <- _]; [done|]. by rewrite decide_True.
Qed.
Lemma split_on_free c s : Forall (λ x, c ∉ x) (split_on c s).
Proof.
  induction s as [|d s IH]; cbn; [by repeat constructor; apply not_elem_of_nil|]. case_decide; [by constructor; [apply not_elem_of_nil|]|].
  destruct IH as [|x l Hx Hl]; constructor; try done; rewrite not_elem_of_cons; by (split; [|try apply not_elem_of_nil]).
Qed.
Lemma split_on_join c l : l <> [] -> Forall (λ x, c ∉ x) l -> split_on c (join [c] l) = l.
Proof.
  intros Hl Hf. induction Hf as [|x l Hx Hf IH]; [done|]. destruct l as [|y l]; [by apply split_on_plain|].
  change (join [c] (x :: y :: l)) with (x ++ c :: join [c] (y :: l)). by rewrite split_on_app, split_on_plain, IH.
Qed.
Lemma elems_ok p : stack_ok (rooted p) (reverse (elems p)).
Proof. unfold elems. rewrite reverse_involutive. by apply clean_fold_ok; [apply split_on_free|]. Qed.

(** The canonical text of a non-trivial path. *)
Record clean_path (p : bytes) (r : bool) (l : list bytes) : Prop := {
  cp_ne : l <> [];
  cp_text : p = (if r then [slash] else []) ++ join [slash] l;
  cp_ok : stack_ok r (reverse l);
}.
Lemma stack_free r out : stack_ok r out -> Forall (λ s, (slash ∉ s) /\ s <> []) out.
Proof. induction out as [|s rest IH]; [by constructor|]. intros ((? & ? & _) & _ & ?). constructor; auto. Qed.
Lemma clean_free p r l : clean_path p r l -> Forall (λ s, (slash ∉ s) /\ s <> []) l.
Proof. intros [_ _ H]. apply stack_free in H. by rewrite Forall_reverse in H. Qed.
Lemma clean_split p r l : clean_path p r l -> split_on slash p = (if r then [[]] else []) ++ l.
Proof.
  intros H. pose proof (clean_free _ _ _ H) as Hf. destruct H as [Hl -> _].
  assert (E : split_on slash (join [slash] l) = l) by (apply split_on_join; [done|eapply Forall_impl; [done|naive_solver]]).
  destruct r; [|exact E]. cbn. by rewrite E.
Qed.
Lemma clean_rooted p r l : clean_path p r l -> rooted p = r.
Proof.
  intros H. pose proof (clean_free _ _ _ H) as Hf. destruct H as [Hl -> _]. destruct r; [done|]. destruct l as [|x l]; [done|].
  apply Forall_cons in Hf as [[Hx Hx'] _]. destruct x as [|c x]; [done|]. rewrite not_elem_of_cons in Hx.
  destruct l; cbn; apply bool_decide_false; naive_solver.
Qed.
Lemma clean_elems p r l : clean_path p r l -> elems p = l.
Proof.
  intros H. unfold elems. rewrite (clean_rooted _ _ _ H), (clean_split _ _ _ H). destruct H as [_ _ H].
  apply clean_fold_fix in H. rewrite reverse_involutive in H. rewrite <- (reverse_involutive l) at 2.
  f_equal. destruct r; [exact H|exact H].
Qed.
Lemma render_text r l : l <> [] -> Forall (λ s, s <> []) l -> render r l = (if r then [slash] else []) ++ join [slash] l.
Proof.
  intros Hl Hf. unfold render. destruct (_ ++ _) eqn:E; [|done]. apply app_nil in E as [_ E]. destruct Hf as [|x [|]]; [done|..]; cbn in E; [done|].
  by apply app_nil in E as [? _].
Qed.
Lemma clean_path_Clean p : elems p <> [] -> clean_path (Clean p) (rooted p) (elems p).
Proof.
  intros Hl. pose proof (elems_ok p) as Ho. split; [done| |done]. apply render_text; [done|].
  apply stack_free in Ho. rewrite Forall_reverse in Ho. eapply Forall_impl; [done|naive_solver].
Qed.
Lemma clean_path_fix p r l : clean_path p r l -> Clean p = p.
Proof.
  intros H. unfold Clean. rewrite (clean_rooted _ _ _ H), (clean_elems _ _ _ H), render_text; [by destruct H|by destruct H|].
  eapply Forall_impl; [by eapply clean_free|naive_solver].
Qed.
Lemma join_app l l' : l <> [] -> l' <> [] -> join [slash] (l ++ l') = join [slash] l ++ slash :: join [slash] l'.
Proof.
  intros Hl Hl'. induction l as [|x [|y l] IH]; [done|by destruct l'|].
  change (join [slash] ((x :: y :: l) ++ l')) with (x ++ slash :: join [slash] ((y :: l) ++ l')). rewrite IH by done.
  cbn. by rewrite <- !app_assoc.
Qed.
Lemma stack_push r out segs : stack_ok r out -> Forall ordinary segs -> stack_ok r (reverse segs ++ out).
Proof.
  intros Ho Hs. revert out Ho. induction Hs as [|s segs [Hd Hsl] _ IH]; intros out Ho; [done|]. rewrite reverse_cons, <- app_assoc.
  apply IH. cbn [app stack_ok]. unfold dotty, isE, eqs in Hd. apply orb_false_iff in Hd as [[H1 H2]%orb_false_iff H3].
  apply bool_decide_eq_false in H1, H2, H3. split; [done|]. by split.
Qed.
(** Ordinary elements below a clean path. *)
Lemma clean_path_app p r l segs :
  clean_path p r l -> segs <> [] -> Forall ordinary segs -> clean_path (p ++ slash :: join [slash] segs) r (l ++ segs).
Proof.
  intros [Hl -> Ho] Hs Hf. split; [by destruct l| |].
  - by rewrite join_app, <- app_assoc.
  - rewrite reverse_app. by apply stack_push.
Qed.
Lemma elems_snoc p s : p <> [] -> ordinary s -> elems (p ++ slash :: s) = elems p ++ [s].
Proof.
  intros Hp Hs. destruct p as [|c p]; [done|]. unfold elems. change (rooted ((c :: p) ++ slash :: s)) with (rooted (c :: p)).
  rewrite split_on_app, (split_on_plain _ s), foldl_app by (by destruct Hs). cbn [foldl]. by rewrite clean_ordinary, reverse_cons.
Qed.
Lemma path_Join_clean dir s : ordinary s -> exists r l, clean_path (path_Join [dir; s]) r (l ++ [s]).
Proof.
  intros Hs. assert (Hs0 : s <> []) by (by intros ->; destruct Hs). unfold path_Join. cbn [List.filter].
  unfold isE. rewrite (bool_decide_false (s = [])) by done. case_bool_decide as Hd; cbn [negb join].
  - exists false, []. rewrite (clean_path_fix s false [s]); split; try done.
    all: by apply (stack_push _ [] [s]); [|constructor].
  - exists (rooted dir), (elems dir). change (dir ++ [slash] ++ s) with (dir ++ slash :: s).
    rewrite <- elems_snoc by done. replace (rooted dir) with (rooted (dir ++ slash :: s)) by by destruct dir.
    apply clean_path_Clean. rewrite elems_snoc by done. by destruct (elems dir).
Qed.

(** ** filepath.Rel *)

(** The elements of a cleaned path; the root is an empty first element. *)
Definition comps (p : bytes) : list bytes := (if rooted p then [[]] else []) ++ elems p.
Fixpoint strip_common (x y : list bytes) : list bytes * list bytes :=
  match x, y with
  | a :: x', c :: y' => if decide (a = c) then strip_common x' y' else (x, y)
  | _, _ => (x, y)
  end.
Definition Rel (base targ : bytes) : option bytes :=
  let cb := Clean base in
  let ct := Clean targ in
  if decide (cb = ct) then Some (b ".")
  else if negb (Bool.eqb (rooted cb) (rooted ct)) then None
  else match strip_common (comps cb) (if decide (ct = b ".") then [b "."] else comps ct) with
       | ([], ts) => Some (join [slash] ts)
       | (x :: bs, ts) =>
           if decide (x = b ".." /\ ts <> []) then None
           else Some (join [slash] ((b ".." :: ((λ _, b "..") <$> bs)) ++ ts))
       end.

Lemma strip_common_app x y : strip_common x (x ++ y) = ([], y).
Proof. induction x as [|a x IH]; [by destruct y|]. cbn. by rewrite decide_True. Qed.
Lemma elems_app p q : p <> [] ->
  elems (p ++ slash :: q) = reverse (foldl (clean_step (rooted p)) (reverse (elems p)) (split_on slash q)).
Proof.
  intros Hp. destruct p as [|c p]; [done|]. unfold elems. change (rooted ((c :: p) ++ slash :: q)) with (rooted (c :: p)).
  by rewrite split_on_app, foldl_app, reverse_involutive.
Qed.
Lemma fold_ordinary r out segs : Forall ordinary segs -> foldl (clean_step r) out segs = reverse segs ++ out.
Proof.
  intros H. revert out. induction H as [|s segs Hs _ IH]; intros out; [done|]. cbn [foldl].
  by rewrite clean_ordinary, IH, reverse_cons, <- app_assoc.
Qed.
Lemma elems_Clean p : elems (Clean p) = elems p /\ rooted (Clean p) = rooted p.
Proof.
  destruct (decide (elems p = [])) as [E|E].
  - unfold Clean. rewrite E. by destruct (rooted p).
  - pose proof (clean_path_Clean p E) as H. by rewrite (clean_elems _ _ _ H), (clean_rooted _ _ _ H).
Qed.
(** What lies below a path, seen from it. *)
Lemma Rel_below base targ segs :
  segs <> [] -> rooted targ = rooted base -> elems targ = elems base ++ segs -> Rel base targ = Some (join [slash] segs).
Proof.
  intros Hs Hr He. unfold Rel. destruct (elems_Clean base) as [E1 E2]. destruct (elems_Clean targ) as [E3 E4].
  rewrite decide_False by (intros E; rewrite E, E3, He in E1; by apply (f_equal length) in E1; rewrite length_app in E1; destruct segs; [|cbn in E1; lia]).
  rewrite E2, E4, Hr, eqb_reflx. cbn [negb].
  rewrite decide_False by (intros E; rewrite E in E3; by rewrite He in E3; destruct (elems base), segs).
  unfold comps. rewrite E1, E2, E3, E4, Hr, He, app_assoc, strip_common_app. done.
Qed.
Example Rel_up : Rel (b "/a/b/c") (b "/a/x") = Some (b "../../x") /\ Rel (b "a") (b "a/b") = Some (b "b") /\ Rel (b "..") (b "a") = None.
Proof. split_and!; vm_compute; reflexivity. Qed.

(** ** Cleaning without parent steps *)

Definition plain_elem (s : bytes) : bool := negb (isE s || eqs s ".").
Lemma fold_no_parent r out segs :
  existsb (λ s, eqs s "..") segs = false -> foldl (clean_step r) out segs = reverse (List.filter plain_elem segs) ++ out.
Proof.
  revert out. induction segs as [|s segs IH]; intros out; [done|]. cbn [existsb]. intros [H1 H2]%orb_false_iff. cbn [foldl List.filter].
  rewrite IH by done. unfold eqs in H1. apply bool_decide_eq_false in H1. unfold clean_step, plain_elem, isE, eqs.
  destruct (decide (s = [] \/ s = b ".")) as [Hs|Hs].
  - rewrite (bool_decide_true (s = [] \/ s = b ".")) by done. rewrite <- bool_decide_or, bool_decide_true by done. done.
  - rewrite (bool_decide_false (s = [] \/ s = b ".")) by done. rewrite <- bool_decide_or, (bool_decide_false (_ \/ _)), (bool_decide_false (s = b "..")) by done.
    cbn [negb]. by rewrite reverse_cons, <- app_assoc.
Qed.
Lemma plain_ordinary p : existsb (λ s, eqs s "..") (split_on slash p) = false -> Forall ordinary (List.filter plain_elem (split_on slash p)).
Proof.
  intros H. apply Forall_forall. intros s [Hin Hp]%list_elem_of_In%filter_In. split.
  - assert (E : eqs s ".." = false).
    { destruct (eqs s "..") eqn:E; [|done]. rewrite <- H. symmetry. apply existsb_exists. eauto. }
    unfold plain_elem in Hp. apply negb_true_iff in Hp. unfold dotty. by rewrite Hp, E.
  - pose proof (split_on_free slash p) as Hf. rewrite Forall_forall in Hf. by apply Hf, list_elem_of_In.
Qed.

Lemma stack_suffix r x y : stack_ok r (x ++ y) -> stack_ok r y.
Proof. induction x as [|s x IH]; [done|]. intros (_ & _ & H). by apply IH. Qed.
Lemma elems_render r l : stack_ok r (reverse l) -> elems (render r l) = l.
Proof.
  intros H. destruct (decide (l = [])) as [->|Hl]; [by destruct r|]. apply (clean_elems _ r). split; [done| |done].
  apply render_text; [done|]. apply stack_free in H. rewrite Forall_reverse in H. eapply Forall_impl; [done|naive_solver].
Qed.
(** No proper prefix of a path has the path's own text. *)
Lemma prefix_differs p n : (n < length (elems p))%nat -> render (rooted p) (take n (elems p)) <> Clean p.
Proof.
  intros Hn E. apply (f_equal elems) in E. destruct (elems_Clean p) as [-> _] in E.
  rewrite elems_render in E.
  - apply (f_equal length) in E. rewrite length_take in E. lia.
  - pose proof (elems_ok p) as H. rewrite <- (take_drop n (elems p)), reverse_app in H. by apply stack_suffix in H.
Qed.
