(* ===== verification/Types.v ===== *)
(** * Package types: the record that flows through every stage *)
From S2P Require Import Prelude GoTime Strconv.

(** A dynamically typed Go value ([any]).  Deserializers produce nil, bools,
    [json.Number] literals, strings, slices and objects; configuration
    documents also ints and floats.  [AnyNilMap] is a nil object, [AnyOther] a
    value of any further type, with the text fmt prints for it. *)
Inductive any : Type :=
| AnyNil
| AnyBool (v : bool)
| AnyNumber (literal : bytes)
| AnyInt (n : Z)
| AnyFloat (f : float64)
| AnyString (s : bytes)
| AnySlice (l : list any)
| AnyMap (m : list (bytes * any))
| AnyNilMap
| AnyOther (text : bytes).

(** [types.Record].  Data records have both markers false; a watermark
    carries only a timestamp; a barrier carries only a checkpoint id. *)
Record Rec : Type := mkRec {
  Key : slice;
  Value : slice;
  Timestamp : Z;
  Offset : Z;
  Partition : Z;
  Headers : gmap bytes slice;
  Parsed : any;
  IsWatermark : bool;
  IsBarrier : bool;
  CheckpointID : bytes;
}.

(** The zero value [Record{}]. *)
Definition zeroRec : Rec :=
  mkRec None None zeroTime 0 0 ∅ AnyNil false false [].

Definition NewRecord (now : Z) (key value : slice) : Rec :=
  mkRec key value now 0 0 ∅ AnyNil false false [].
Definition NewWatermark (ts : Z) : Rec :=
  mkRec None None ts 0 0 ∅ AnyNil true false [].
Definition NewBarrier (checkpointID : bytes) : Rec :=
  mkRec None None zeroTime 0 0 ∅ AnyNil false true checkpointID.

Definition WithTimestamp (r : Rec) (t : Z) : Rec :=
  mkRec (Key r) (Value r) t (Offset r) (Partition r) (Headers r) (Parsed r)
    (IsWatermark r) (IsBarrier r) (CheckpointID r).
Definition WithOffset (r : Rec) (offset : Z) : Rec :=
  mkRec (Key r) (Value r) (Timestamp r) offset (Partition r) (Headers r) (Parsed r)
    (IsWatermark r) (IsBarrier r) (CheckpointID r).
(** The header map is cloned before the insertion, so the original record's
    map is untouched: persistent maps model exactly that. *)
Definition WithHeader (r : Rec) (key : bytes) (value : slice) : Rec :=
  mkRec (Key r) (Value r) (Timestamp r) (Offset r) (Partition r)
    (<[key := value]> (Headers r)) (Parsed r)
    (IsWatermark r) (IsBarrier r) (CheckpointID r).

(** The assignment [r.Key = k] on a by-value copy. *)
Definition set_Key (r : Rec) (k : slice) : Rec :=
  mkRec k (Value r) (Timestamp r) (Offset r) (Partition r) (Headers r) (Parsed r)
    (IsWatermark r) (IsBarrier r) (CheckpointID r).

(** [r.IsWatermark || r.IsBarrier]: the guard every stage tests. *)
Definition is_marker (r : Rec) : bool := IsWatermark r || IsBarrier r.
Definition is_data (r : Rec) : bool := negb (is_marker r).
