(* ===== verification/Window.v ===== *)
(** * Package window: assigners and session merging

    [Window] is a half-open time range; [Assigner] has one constructor per
    implementation of the Go interface [WindowAssigner]. *)
From S2P Require Import Prelude GoTime.

Record Window : Type := mkWin { Start : Z; End : Z }.
#[export] Instance Window_eq_dec : EqDecision Window.
Proof. solve_decision. Defined.

Inductive Assigner : Type :=
| Tumbling (size offset : Z)
| Sliding (size slide offset : Z)
| Session (gap : Z).

(** [NewTumbling], [NewSliding], [NewSession] and the [WithOffset] methods. *)
Definition NewTumbling (size : Z) : Assigner := Tumbling size 0.
Definition NewSliding (size slide : Z) : Assigner := Sliding size slide 0.
Definition NewSession (gap : Z) : Assigner := Session gap.

(** [WindowStart]: Go's [/] truncates toward zero, which is [Z.quot].  Sizes and
    slides are positive in the theorems: in Go a size of zero panics. *)
Definition WindowStart (ts size offset : Z) : Z :=
  let tsUnix := UnixNano ts in
  let aligned := wrap64 (tsUnix - offset) in
  let start := wrap64 (Z.quot aligned size * size) in
  Unix0 (wrap64 (start + offset)).

(** The backward loop of [Sliding.AssignWindows]: from [start], while
    [start + size > ts], stepping by [-slide]. *)
Fixpoint slide_back (fuel : nat) (ts size slide start : Z) : list Window :=
  match fuel with
  | O => []
  | S fuel =>
      if After (start + size) ts then
        (if negb (After start ts) then [mkWin start (start + size)] else [])
        ++ slide_back fuel ts size slide (start - slide)
      else []
  end.

(** The forward loop: from [start], while [start < ts + size]. *)
Fixpoint slide_fwd (fuel : nat) (ts size slide start : Z) : list Window :=
  match fuel with
  | O => []
  | S fuel =>
      if Before start (ts + size) then
        (if negb (After start ts) && After (start + size) ts
         then [mkWin start (start + size)] else [])
        ++ slide_fwd fuel ts size slide (start + slide)
      else []
  end.

(** Iterations that are always enough (theorem [slide_fuel_enough]): each
    loop runs at most [size/slide] times plus a boundary case. *)
Definition slide_fuel (size slide : Z) : nat := Z.to_nat (2 * size / slide + 3).

Definition sliding_AssignWindows (size slide offset ts : Z) : list Window :=
  let lastStart := WindowStart ts slide offset in
  let n := slide_fuel size slide in
  let windows := slide_back n ts size slide lastStart
                 ++ slide_fwd n ts size slide (lastStart + slide) in
  match windows with
  | [] => [mkWin lastStart (lastStart + size)]
  | _ => windows
  end.

Definition AssignWindows (a : Assigner) (ts : Z) : list Window :=
  match a with
  | Tumbling size offset =>
      let start := WindowStart ts size offset in [mkWin start (start + size)]
  | Sliding size slide offset => sliding_AssignWindows size slide offset ts
  | Session gap => [mkWin ts (ts + gap)]
  end.

Definition WindowSize (a : Assigner) : Z :=
  match a with Tumbling size _ => size | Sliding size _ _ => size | Session gap => gap end.
Definition IsSession (a : Assigner) : bool :=
  match a with Session _ => true | _ => false end.

Definition MergeSessions (x y : Window) : list Window :=
  if After (End x) (Start y) && Before (Start x) (End y) then
    let start := if Before (Start y) (Start x) then Start y else Start x in
    let endt := if After (End y) (End x) then End y else End x in
    [mkWin start endt]
  else [x; y].

Definition contains (w : Window) (t : Z) : Prop := Start w <= t < End w.
Definition overlap (x y : Window) : Prop := Start x < End y /\ Start y < End x.
#[export] Instance contains_dec w t : Decision (contains w t).
Proof. unfold contains. apply _. Defined.

(** ** Alignment *)

(** No intermediate of [WindowStart] leaves the [int64] range. *)
Definition start_in_range (ts size offset : Z) : Prop :=
  0 < size /\ int64 (ts - offset) /\ int64 (ts - size) /\ int64 (ts + size).
#[export] Instance start_in_range_dec ts size offset : Decision (start_in_range ts size offset).
Proof. unfold start_in_range. apply _. Defined.

Lemma quot_mul_bounds x s :
  0 < s -> (0 <= x -> 0 <= Z.quot x s * s <= x /\ x - s < Z.quot x s * s) /\
           (x <= 0 -> x <= Z.quot x s * s <= 0 /\ Z.quot x s * s < x + s).
Proof.
  intros Hs. pose proof (Z.quot_rem' x s).
  split; intros Hx.
  - pose proof (Z.rem_bound_pos x s ltac:(lia) ltac:(lia)).
    pose proof (Z.quot_pos x s ltac:(lia) ltac:(lia)). nia.
  - pose proof (Z.rem_nonpos x s ltac:(lia) ltac:(lia)).
    pose proof (Z.rem_bound_abs x s ltac:(lia)).
    pose proof (Z.quot_opp_l x s ltac:(lia)).
    pose proof (Z.quot_pos (- x) s ltac:(lia) ltac:(lia)). nia.
Qed.

Lemma WindowStart_exact ts size offset :
  start_in_range ts size offset ->
  WindowStart ts size offset = Z.quot (ts - offset) size * size + offset.
Proof.
  intros (Hs & H1 & H2 & H3).
  unfold WindowStart, UnixNano, Unix0. rewrite (wrap64_id ts) by (unfold int64 in *; lia).
  rewrite (wrap64_id (ts - offset)) by done.
  destruct (quot_mul_bounds (ts - offset) size Hs) as [Hp Hn].
  unfold int64 in *.
  rewrite (wrap64_id (_ * size)) by (unfold int64; destruct (Z_le_gt_dec 0 (ts - offset)); lia).
  rewrite wrap64_id by (unfold int64; destruct (Z_le_gt_dec 0 (ts - offset)); lia). done.
Qed.

(** At or after the alignment origin the start is the floor of [ts]. *)
Lemma WindowStart_floor ts size offset :
  start_in_range ts size offset -> offset <= ts ->
  WindowStart ts size offset <= ts < WindowStart ts size offset + size
  /\ (WindowStart ts size offset - offset) mod size = 0.
Proof.
  intros Hr Ho. rewrite WindowStart_exact by done. destruct Hr as (Hs & _).
  destruct (quot_mul_bounds (ts - offset) size Hs) as [Hp _]. specialize (Hp ltac:(lia)).
  split; [lia|]. replace (_ - offset) with (Z.quot (ts - offset) size * size) by lia.
  apply Z.mod_mul. lia.
Qed.

(** Before it the start is the ceiling: the window begins after the record. *)
Lemma WindowStart_ceil ts size offset :
  start_in_range ts size offset -> ts < offset -> (ts - offset) mod size <> 0 ->
  ts < WindowStart ts size offset.
Proof.
  intros Hr Ho Hm. rewrite WindowStart_exact by done. destruct Hr as (Hs & _).
  destruct (quot_mul_bounds (ts - offset) size Hs) as [_ Hn]. specialize (Hn ltac:(lia)).
  destruct (decide (Z.quot (ts - offset) size * size = ts - offset)) as [E|]; [|lia].
  exfalso. apply Hm. rewrite <- E. apply Z.mod_mul. lia.
Qed.

(** Two starts on the same grid that both cover [ts] agree. *)
Lemma aligned_unique s s' offset size ts :
  0 < size -> (s - offset) mod size = 0 -> (s' - offset) mod size = 0 ->
  s <= ts < s + size -> s' <= ts < s' + size -> s = s'.
Proof.
  intros Hs H1 H2 H3 H4. apply Z.mod_divide in H1, H2; [|lia|lia].
  destruct H1 as [k Hk], H2 as [k' Hk']. assert (k = k') by nia. nia.
Qed.

(** ** Sliding windows *)

Lemma slide_back_elem n ts size slide start w :
  0 < slide -> start <= ts -> start + size - ts <= Z.of_nat n * slide ->
  w ∈ slide_back n ts size slide start <->
  exists k, 0 <= k /\ Start w = start - k * slide /\ End w = Start w + size /\ contains w ts.
Proof.
  intros Hs. revert start. induction n as [|n IH]; intros start Hle Hn.
  - simpl. split; [by intros ?%elem_of_nil|].
    intros (k & Hk & E1 & E2 & Hc). unfold contains in Hc. exfalso. nia.
  - cbn [slide_back]. unfold After.
    case_bool_decide as Hc.
    + rewrite (bool_decide_false (ts < start)) by lia. cbn [negb].
      rewrite elem_of_app, list_elem_of_singleton, IH by lia. split.
      * intros [->|(k & ? & ? & ? & ?)].
        -- exists 0. unfold contains. simpl. lia.
        -- exists (k + 1). split_and!; try lia. done.
      * intros (k & Hk & E1 & E2 & E3).
        destruct (decide (k = 0)) as [->|].
        -- left. destruct w; simpl in *. f_equal; lia.
        -- right. exists (k - 1). split_and!; try lia. done.
    + split; [by intros ?%elem_of_nil|].
      intros (k & Hk & E1 & E2 & Hcw). unfold contains in Hcw. exfalso. nia.
Qed.

Lemma slide_back_NoDup n ts size slide start :
  0 < slide -> NoDup (slide_back n ts size slide start)
  /\ forall w, w ∈ slide_back n ts size slide start -> Start w <= start.
Proof.
  intros Hs. revert start. induction n as [|n IH]; intros start; simpl;
    [split; [constructor|intros w ?%elem_of_nil; done]|].
  destruct (IH (start - slide)) as [Hnd Hlt].
  case_match; [|split; [constructor|intros w ?%elem_of_nil; done]].
  case_match; cbn [app].
  - split.
    + constructor; [|done]. intros Hin%Hlt. simpl in *. lia.
    + intros w [->|Hin%Hlt]%elem_of_cons; simpl; lia.
  - split; [done|]. intros w Hin%Hlt. lia.
Qed.

Lemma slide_fwd_nil n ts size slide start :
  0 < slide -> ts < start -> slide_fwd n ts size slide start = [].
Proof.
  intros Hs. revert start. induction n as [|n IH]; intros start Hlt; [done|].
  cbn [slide_fwd]. case_match; [|done].
  unfold After. rewrite (bool_decide_true (ts < start)) by done. simpl. apply IH. lia.
Qed.

Lemma slide_fuel_bound size slide start ts :
  0 < slide -> 0 < size -> start <= ts ->
  start + size - ts <= Z.of_nat (slide_fuel size slide) * slide.
Proof.
  intros Hs Hz Hle. unfold slide_fuel.
  pose proof (Z.div_pos (2 * size) slide ltac:(lia) ltac:(lia)).
  rewrite Z2Nat.id by lia.
  pose proof (Z.mul_succ_div_gt (2 * size) slide ltac:(lia)). nia.
Qed.

(** More iterations than [slide_fuel] never change the backward loop. *)
Lemma slide_back_fuel n m ts size slide start :
  0 < slide -> start + size - ts <= Z.of_nat n * slide ->
  slide_back (n + m) ts size slide start = slide_back n ts size slide start.
Proof.
  intros Hs. revert start. induction n as [|n IH]; intros start Hn.
  - simpl. destruct m; simpl; [done|]. unfold After. by rewrite bool_decide_false by lia.
  - cbn [Nat.add slide_back]. case_match; [|done]. f_equal. apply IH. lia.
Qed.

Lemma slide_fwd_fuel n m ts size slide start :
  0 < slide -> ts + size - start <= Z.of_nat n * slide ->
  slide_fwd (n + m) ts size slide start = slide_fwd n ts size slide start.
Proof.
  intros Hs. revert start. induction n as [|n IH]; intros start Hn.
  - simpl. destruct m; simpl; [done|]. unfold Before. by rewrite bool_decide_false by lia.
  - cbn [Nat.add slide_fwd]. case_match; [|done]. f_equal. apply IH. lia.
Qed.

(** Membership in the assigned windows, in terms of the loops. *)
Lemma sliding_elem size slide offset ts w :
  start_in_range ts slide offset -> offset <= ts -> 0 < size ->
  (w ∈ slide_back (slide_fuel size slide) ts size slide (WindowStart ts slide offset)
       ++ slide_fwd (slide_fuel size slide) ts size slide (WindowStart ts slide offset + slide))
  <-> (End w = Start w + size /\ contains w ts /\ (Start w - offset) mod slide = 0).
Proof.
  intros Hr Ho Hz. destruct (WindowStart_floor _ _ _ Hr Ho) as [Hb Hm].
  destruct Hr as (Hs & _).
  rewrite slide_fwd_nil, app_nil_r by lia.
  rewrite slide_back_elem by (auto using slide_fuel_bound with lia).
  apply Z.mod_divide in Hm as [q Hq]; [|lia]. unfold contains. split.
  - intros (k & Hk & E1 & E2 & Hc). split_and!; try lia.
    apply Z.mod_divide; [lia|]. exists (q - k). nia.
  - intros (E2 & Hc & Ha). apply Z.mod_divide in Ha as [p Hp]; [|lia].
    exists (q - p). nia.
Qed.

(** ** The assigners' contracts *)

Lemma tumbling_AssignWindows size offset ts :
  AssignWindows (Tumbling size offset) ts
  = [mkWin (WindowStart ts size offset) (WindowStart ts size offset + size)].
Proof. reflexivity. Qed.

Lemma aligned_window_unique size offset ts s0 :
  0 < size -> s0 <= ts < s0 + size -> (s0 - offset) mod size = 0 ->
  contains (mkWin s0 (s0 + size)) ts /\
  forall s, (s - offset) mod size = 0 -> s <= ts < s + size ->
    mkWin s0 (s0 + size) = mkWin s (s + size).
Proof.
  intros Hs Hb Hm. split; [exact Hb|]. intros s Ha Hc.
  by rewrite (aligned_unique _ _ _ _ _ Hs Hm Ha Hb Hc).
Qed.

(** A tumbling assigner puts a record at or after its alignment origin in
    exactly one window, which contains the record's timestamp, has the
    configured size and is the only window of the grid that does. *)
Theorem tumbling_partition size offset ts :
  start_in_range ts size offset -> offset <= ts ->
  exists s0, AssignWindows (Tumbling size offset) ts = [mkWin s0 (s0 + size)]
    /\ contains (mkWin s0 (s0 + size)) ts
    /\ forall s, (s - offset) mod size = 0 -> s <= ts < s + size ->
         mkWin s0 (s0 + size) = mkWin s (s + size).
Proof.
  intros Hr Ho. destruct (WindowStart_floor _ _ _ Hr Ho) as [Hb Hm].
  exists (WindowStart ts size offset). split; [apply tumbling_AssignWindows|].
  apply aligned_window_unique; [apply Hr|exact Hb|exact Hm].
Qed.

Lemma tumbling_partition_witness :
  start_in_range 125 50 10 /\ AssignWindows (Tumbling 50 10) 125 = [mkWin 110 160]
  /\ exists s0, AssignWindows (Tumbling 50 10) 125 = [mkWin s0 (s0 + 50)].
Proof.
  split; [vm_compute; intuition congruence|]. split; [reflexivity|].
  destruct (tumbling_partition 50 10 125) as (w & H1 & _);
    [vm_compute; intuition congruence | lia | eauto].
Defined.

(** Before the alignment origin Go's truncating division rounds the start
    up, so the window assigned to an off-grid timestamp does not contain it. *)
Theorem tumbling_before_origin size offset ts :
  start_in_range ts size offset -> ts < offset -> (ts - offset) mod size <> 0 ->
  exists w, AssignWindows (Tumbling size offset) ts = [w] /\ ~ contains w ts.
Proof.
  intros Hr Ho Hm. eexists. split; [reflexivity|]. unfold contains. simpl.
  pose proof (WindowStart_ceil _ _ _ Hr Ho Hm). lia.
Qed.

Lemma tumbling_before_origin_witness :
  exists w, AssignWindows (NewTumbling 10) (-7) = [w] /\ ~ contains w (-7).
Proof.
  apply (tumbling_before_origin 10 0 (-7));
    [vm_compute; intuition congruence | lia | vm_compute; discriminate].
Defined.

(** A sliding assigner returns, without repetition, exactly the windows
    of the grid that contain the timestamp. *)
Theorem sliding_exact size slide offset ts :
  start_in_range ts slide offset -> offset <= ts -> slide <= size ->
  NoDup (AssignWindows (Sliding size slide offset) ts) /\
  forall w, w ∈ AssignWindows (Sliding size slide offset) ts <->
    (End w = Start w + size /\ contains w ts /\ (Start w - offset) mod slide = 0).
Proof.
  intros Hr Ho Hsz. pose proof Hr as (Hs & _).
  pose proof (fun w => sliding_elem size slide offset ts w Hr Ho ltac:(lia)) as He.
  destruct (WindowStart_floor _ _ _ Hr Ho) as [Hb Hm].
  simpl. unfold sliding_AssignWindows.
  destruct (_ ++ _) as [|x l] eqn:E.
  - exfalso. pose proof (proj2 (He (mkWin (WindowStart ts slide offset)
      (WindowStart ts slide offset + size)))) as Hin.
    apply (not_elem_of_nil (A:=Window) _ (Hin ltac:(unfold contains; simpl; lia))).
  - split; [|exact He]. rewrite <- E, slide_fwd_nil, app_nil_r by lia.
    by apply slide_back_NoDup.
Qed.

Lemma sliding_exact_witness :
  NoDup (AssignWindows (NewSliding 5 1) 3) /\
  AssignWindows (NewSliding 5 1) 3 = [mkWin 3 8; mkWin 2 7; mkWin 1 6; mkWin 0 5; mkWin (-1) 4].
Proof.
  split; [|reflexivity].
  apply (sliding_exact 5 1 0 3); [vm_compute; intuition congruence | lia | lia].
Defined.

(** Both loops of [Sliding.AssignWindows] stop within [slide_fuel] iterations:
    further iterations change nothing. *)
Theorem sliding_fuel_enough size slide offset ts extra :
  start_in_range ts slide offset -> offset <= ts -> 0 < size ->
  let s := WindowStart ts slide offset in
  slide_back (slide_fuel size slide + extra) ts size slide s
    = slide_back (slide_fuel size slide) ts size slide s /\
  slide_fwd (slide_fuel size slide + extra) ts size slide (s + slide)
    = slide_fwd (slide_fuel size slide) ts size slide (s + slide).
Proof.
  intros Hr Ho Hz s. destruct (WindowStart_floor _ _ _ Hr Ho) as [Hb _]. fold s in Hb.
  destruct Hr as (Hs & _). split.
  - apply slide_back_fuel; [done|]. apply slide_fuel_bound; lia.
  - apply slide_fwd_fuel; [done|]. unfold slide_fuel.
    pose proof (Z.div_pos (2 * size) slide ltac:(lia) ltac:(lia)). rewrite Z2Nat.id by lia.
    pose proof (Z.mul_succ_div_gt (2 * size) slide ltac:(lia)). nia.
Qed.

Lemma sliding_fuel_enough_witness :
  slide_back (slide_fuel 5 2 + 3) 7 5 2 (WindowStart 7 2 0)
  = slide_back (slide_fuel 5 2) 7 5 2 (WindowStart 7 2 0).
Proof.
  apply (sliding_fuel_enough 5 2 0 7 3); [vm_compute; intuition congruence | lia | lia].
Defined.

(** [MergeSessions] on overlapping sessions is their hull; disjoint sessions
    come back unchanged. *)
Lemma MergeSessions_overlap x y :
  overlap x y ->
  MergeSessions x y = [mkWin (Z.min (Start x) (Start y)) (Z.max (End x) (End y))].
Proof.
  unfold overlap, MergeSessions, After, Before. intros [H1 H2].
  rewrite !bool_decide_true by lia. simpl.
  repeat case_bool_decide; do 2 f_equal; lia.
Qed.

Lemma MergeSessions_disjoint x y : ~ overlap x y -> MergeSessions x y = [x; y].
Proof.
  unfold overlap, MergeSessions, After, Before. intros H.
  repeat case_bool_decide; simpl; try done; lia.
Qed.
