(* ===== verification/Watermark.v ===== *)
(** * Packages watermark and source: watermark generation

    [BoundedOutOfOrderness] tracks the largest timestamp; [WatermarkSource]
    interleaves the wrapped source's records with generated watermarks.  Its
    [select] loop is a step function over the events the select can take. *)
From S2P Require Import Prelude GoTime Types.

(** ** BoundedOutOfOrderness *)

Record BoundedOutOfOrderness : Type := mkBOO { maxTimestamp : Z; allowedLateness : Z }.

Definition NewBoundedOutOfOrderness (lateness : Z) : BoundedOutOfOrderness :=
  mkBOO zeroTime lateness.

Definition OnRecord (g : BoundedOutOfOrderness) (ts : Z) : BoundedOutOfOrderness :=
  if After ts (maxTimestamp g) then mkBOO ts (allowedLateness g) else g.

Definition GetWatermark (g : BoundedOutOfOrderness) : Z :=
  if IsZero (maxTimestamp g) then zeroTime else maxTimestamp g - allowedLateness g.

(** ** WatermarkSource.Run *)

(** What the select of the run loop can observe. *)
Inductive wsEvent : Type :=
| EvRecord (r : Rec)      (* record received and forwarded *)
| EvTick                  (* the ticker fired *)
| EvTickCancelled         (* the ticker fired, the send lost to ctx.Done *)
| EvClosed                (* the wrapped source finished *)
| EvCtxDone.              (* the context was cancelled *)

(** [time.Date(9999, 1, 1, 0, 0, 0, 0, time.UTC)]. *)
Definition maxWatermarkTime : Z := days_of_civil 9999 1 1 * 86400 * Second.

Record wsState : Type := mkWS { gen : BoundedOutOfOrderness; emitted : list Rec; stopped : bool }.

Definition ws_step (s : wsState) (e : wsEvent) : wsState :=
  if stopped s then s else
  match e with
  | EvRecord r => mkWS (OnRecord (gen s) (Timestamp r)) (emitted s ++ [r]) false
  | EvTick =>
      let wm := GetWatermark (gen s) in
      if IsZero wm then s else mkWS (gen s) (emitted s ++ [NewWatermark wm]) false
  | EvTickCancelled => s
  | EvClosed | EvCtxDone =>
      mkWS (gen s) (emitted s ++ [NewWatermark maxWatermarkTime]) true
  end.

Definition ws_run (lateness : Z) (evs : list wsEvent) : wsState :=
  foldl ws_step (mkWS (NewBoundedOutOfOrderness lateness) [] false) evs.

(** ** Properties *)

(** The largest timestamp of the data records of an output prefix. *)
Definition max_ts (l : list Rec) : Z :=
  foldr (λ r acc, if is_data r then Z.max (Timestamp r) acc else acc) zeroTime l.

Definition data_event (e : wsEvent) : Prop :=
  match e with EvRecord r => is_data r = true | _ => True end.

Lemma OnRecord_max g ts :
  maxTimestamp (OnRecord g ts) = Z.max ts (maxTimestamp g)
  /\ allowedLateness (OnRecord g ts) = allowedLateness g.
Proof. unfold OnRecord, After. case_bool_decide; simpl; split; lia. Qed.

Lemma max_ts_ge l : zeroTime <= max_ts l.
Proof. induction l as [|x l IH]; simpl; [done|]. destruct (is_data x); lia. Qed.

Lemma max_ts_app l l' : max_ts (l ++ l') = Z.max (max_ts l) (max_ts l').
Proof.
  induction l as [|x l IH]; cbn [max_ts app foldr].
  - pose proof (max_ts_ge l'). unfold max_ts in *. lia.
  - fold (max_ts (l ++ l')). fold (max_ts l). rewrite IH. destruct (is_data x); lia.
Qed.

Lemma GetWatermark_nonzero g :
  IsZero (GetWatermark g) = false -> GetWatermark g = maxTimestamp g - allowedLateness g.
Proof.
  unfold GetWatermark, IsZero.
  destruct (bool_decide_reflect (maxTimestamp g = zeroTime)); [|done].
  by rewrite bool_decide_true.
Qed.

(** What holds of the run loop's state at every point. *)
Record ws_inv (lateness : Z) (s : wsState) : Prop := {
  inv_late : allowedLateness (gen s) = lateness;
  inv_max : maxTimestamp (gen s) = max_ts (emitted s);
  inv_wm : forall pre wm post, emitted s = pre ++ wm :: post -> IsWatermark wm = true ->
    Timestamp wm = max_ts pre - lateness
    \/ (stopped s = true /\ post = [] /\ Timestamp wm = maxWatermarkTime);
}.

Lemma snoc_split {A} (l : list A) x pre y post :
  l ++ [x] = pre ++ y :: post ->
  (post = [] /\ y = x /\ pre = l) \/ exists post', post = post' ++ [x] /\ l = pre ++ y :: post'.
Proof.
  induction post as [|z post _] using rev_ind.
  - intros E. apply app_inj_tail in E as [-> ->]. by left.
  - rewrite app_comm_cons, app_assoc. intros E. apply app_inj_tail in E as [-> ->]. eauto.
Qed.

Lemma ws_inv_step lateness s e :
  data_event e -> ws_inv lateness s -> ws_inv lateness (ws_step s e).
Proof.
  intros Hd Hinv. unfold ws_step. destruct (stopped s) eqn:Hst; [exact Hinv|].
  pose proof Hinv as [H1 H2 H3].
  assert (Hlive : forall pre wm post, emitted s = pre ++ wm :: post -> IsWatermark wm = true ->
    Timestamp wm = max_ts pre - lateness) 
    by (intros pre wm post E Hw; destruct (H3 pre wm post E Hw) as [?|[? _]]; [done|congruence]).
  destruct e as [r| | | |]; simpl in Hd; try exact Hinv; cbv zeta.
  - destruct (OnRecord_max (gen s) (Timestamp r)) as [E1 E2]. split; simpl.
    + congruence.
    + rewrite E1, max_ts_app, H2. simpl. rewrite Hd. pose proof (max_ts_ge (emitted s)). lia.
    + intros pre wm post [(-> & -> & ->)|(post' & -> & E)]%snoc_split Hw.
      * unfold is_data, is_marker in Hd. by rewrite Hw in Hd.
      * left. by eapply Hlive.
  - destruct (IsZero _) eqn:Hz; [exact Hinv|]. split; simpl; [done| |].
    + rewrite max_ts_app, H2. simpl. pose proof (max_ts_ge (emitted s)). lia.
    + intros pre wm post [(-> & -> & ->)|(post' & -> & E)]%snoc_split Hw; left.
      * simpl. rewrite GetWatermark_nonzero by done. congruence.
      * by eapply Hlive.
  - split; simpl; [done| |].
    + rewrite max_ts_app, H2. simpl. pose proof (max_ts_ge (emitted s)). lia.
    + intros pre wm post [(-> & -> & ->)|(post' & -> & E)]%snoc_split Hw; [by right|].
      left. by eapply Hlive.
  - split; simpl; [done| |].
    + rewrite max_ts_app, H2. simpl. pose proof (max_ts_ge (emitted s)). lia.
    + intros pre wm post [(-> & -> & ->)|(post' & -> & E)]%snoc_split Hw; [by right|].
      left. by eapply Hlive.
Qed.

Lemma ws_inv_run lateness evs : Forall data_event evs -> ws_inv lateness (ws_run lateness evs).
Proof.
  intros H. unfold ws_run.
  assert (H0 : ws_inv lateness (mkWS (NewBoundedOutOfOrderness lateness) [] false)).
  { split; [done|done|]. intros pre wm post E. by destruct pre. }
  revert H0. generalize (mkWS (NewBoundedOutOfOrderness lateness) [] false).
  induction H; intros s Hs; simpl; auto using ws_inv_step.
Qed.

(** Every watermark [WatermarkSource] emits equals the largest timestamp
    emitted before it minus the allowed lateness, except the final year-9999
    flush, after which nothing follows; so a record at most [lateness] behind
    the largest timestamp before it is never below an earlier watermark. *)
Theorem watermark_run_sound lateness evs :
  Forall data_event evs ->
  let out := emitted (ws_run lateness evs) in
  (forall pre wm post, out = pre ++ wm :: post -> IsWatermark wm = true ->
     Timestamp wm = max_ts pre - lateness \/ (post = [] /\ Timestamp wm = maxWatermarkTime)) /\
  (forall pre r post wm, out = pre ++ r :: post -> max_ts pre - lateness <= Timestamp r ->
     wm ∈ pre -> IsWatermark wm = true -> Before (Timestamp r) (Timestamp wm) = false).
Proof.
  intros H out. destruct (ws_inv_run lateness evs H) as [_ _ Hwm]. fold out in Hwm. split.
  - intros pre wm post E Hw. destruct (Hwm pre wm post E Hw) as [?|(_ & ? & ?)]; auto.
  - intros pre r post wm E Hr (p1 & p2 & ->)%list_elem_of_split Hw.
    rewrite <- app_assoc in E. simpl in E.
    destruct (Hwm p1 wm (p2 ++ r :: post) E Hw) as [Ht|(_ & Hnil & _)]; [|by destruct p2].
    unfold Before. apply bool_decide_eq_false. rewrite max_ts_app in Hr.
    pose proof (max_ts_ge p1). lia.
Qed.

Lemma watermark_run_sound_witness :
  let evs := [EvRecord (NewRecord 10 None None); EvTick; EvRecord (NewRecord 8 None None); EvClosed] in
  Forall data_event evs /\
  (Timestamp <$> emitted (ws_run 5 evs)) = [10; 5; 8; maxWatermarkTime] /\
  Before 8 (Timestamp (NewWatermark 5)) = false.
Proof.
  split; [repeat constructor|]. split; [reflexivity|].
  eapply (watermark_run_sound 5
    [EvRecord (NewRecord 10 None None); EvTick; EvRecord (NewRecord 8 None None); EvClosed])
    with (pre := [NewRecord 10 None None; NewWatermark 5]) (r := NewRecord 8 None None).
  - repeat constructor.
  - reflexivity.
  - vm_compute. discriminate.
  - set_solver.
  - reflexivity.
Defined.
