(* ===== verification/Json.v ===== *)
(** * Package encoding/json, as far as snapshots and buffered records use it

    A JSON text is represented by its syntax tree; [JSONText] says that
    printing a tree and parsing the text gives the tree back.  How Go values
    become trees is modelled here: [[]byte] as base64 ([JB64]), maps as
    objects sorted by key, object keys coerced to valid UTF-8. *)
From S2P Require Import Prelude.

Inductive json : Type :=
| JNull
| JNum (n : Z)
| JB64 (v : bytes)
| JStr (s : bytes)
| JArr (l : list json)
| JObj (fs : list (bytes * json)).

(** The text syntax: one printer and one parser, inverse on trees. *)
Class JSONText : Type := {
  json_print : json -> bytes;
  json_parse : bytes -> option json;
  json_parse_print j : json_parse (json_print j) = Some j;
}.

(** ** UTF-8 coercion of strings *)

Definition in_range (lo hi : Z) (c : ascii) : bool := (lo <=? byteZ c) && (byteZ c <=? hi).
Definition cont (c : ascii) : bool := in_range 0x80 0xbf c.
(** The replacement rune U+FFFD. *)
Definition runeError : bytes := [Zbyte 0xef; Zbyte 0xbf; Zbyte 0xbd].

(** Length of the valid encoding [s] starts with, 0 when there is none
    ([utf8.DecodeRuneInString] returns [RuneError] of size 1). *)
Definition rune_len (s : bytes) : nat :=
  match s with
  | c1 :: s1 =>
      if byteZ c1 <? 0x80 then 1%nat
      else match s1 with
      | c2 :: s2 =>
          if in_range 0xc2 0xdf c1 && cont c2 then 2%nat
          else match s2 with
          | c3 :: s3 =>
              if (((byteZ c1 =? 0xe0) && in_range 0xa0 0xbf c2)
                  || ((in_range 0xe1 0xec c1 || in_range 0xee 0xef c1) && cont c2)
                  || ((byteZ c1 =? 0xed) && in_range 0x80 0x9f c2)) && cont c3 then 3%nat
              else match s3 with
              | c4 :: _ =>
                  if (((byteZ c1 =? 0xf0) && in_range 0x90 0xbf c2)
                      || (in_range 0xf1 0xf3 c1 && cont c2)
                      || ((byteZ c1 =? 0xf4) && in_range 0x80 0x8f c2)) && cont c3 && cont c4
                  then 4%nat else 0%nat
              | [] => 0%nat
              end
          | [] => 0%nat
          end
      | [] => 0%nat
      end
  | [] => 0%nat
  end.

Fixpoint coerce_loop (fuel : nat) (s : bytes) : bytes :=
  match fuel, s with
  | S fuel, c :: s' =>
      match rune_len s with
      | O => runeError ++ coerce_loop fuel s'
      | n => take n s ++ coerce_loop fuel (drop n s)
      end
  | _, _ => []
  end.
(** Each iteration consumes a byte, so [length s] iterations suffice. *)
Definition utf8_coerce (s : bytes) : bytes := coerce_loop (length s) s.

Definition utf8_valid (s : bytes) : Prop := utf8_coerce s = s.
#[export] Instance utf8_valid_dec s : Decision (utf8_valid s).
Proof. unfold utf8_valid. apply _. Defined.

Lemma coerce_ascii s : Forall (λ c, byteZ c < 128) s -> utf8_valid s.
Proof.
  unfold utf8_valid, utf8_coerce.
  induction 1 as [|c s Hc Hs IH]; [done|]. cbn [length coerce_loop rune_len].
  destruct (Z.ltb_spec (byteZ c) 128); [|lia]. simpl. f_equal. exact IH.
Qed.

Example utf8_bad : utf8_coerce [Zbyte 0xff] = runeError /\ utf8_coerce [Zbyte 0xfe] = runeError.
Proof. vm_compute. done. Qed.

(** ** Maps with string keys *)

Section Maps.
Context {V : Type} (enc : V -> json) (dec : json -> V).
Hypothesis dec_enc : forall v, dec (enc v) = v.

Definition key_le (x y : bytes * V) : Prop := bytes_le x.1 y.1.
#[export] Instance key_le_dec x y : Decision (key_le x y).
Proof. unfold key_le. apply _. Defined.
#[export] Instance key_le_total : Total key_le.
Proof. intros x y. apply bytes_leb_total. Qed.
#[export] Instance key_le_trans : Transitive key_le.
Proof. intros x y z. apply bytes_leb_trans. Qed.

Definition marshal_map (m : gmap bytes V) : json :=
  JObj ((λ kv : bytes * V, (utf8_coerce kv.1, enc kv.2)) <$> merge_sort key_le (map_to_list m)).

(** Decoding into a map: later members overwrite earlier ones. *)
Definition unmarshal_map (j : json) : gmap bytes V :=
  match j with
  | JObj fs => foldl (λ m kv, <[kv.1 := dec kv.2]> m) ∅ fs
  | _ => ∅
  end.

Lemma foldl_insert_list_to_map (l : list (bytes * V)) (m : gmap bytes V) :
  NoDup l.*1 ->
  foldl (λ m kv, <[kv.1 := kv.2]> m) m l = list_to_map l ∪ m.
Proof.
  revert m. induction l as [|[k v] l IH]; intros m Hnd; simpl.
  - by rewrite map_empty_union.
  - apply NoDup_cons in Hnd as [Hk Hnd]. rewrite IH by done.
    rewrite <- insert_union_r; [by rewrite insert_union_l|].
    by apply not_elem_of_list_to_map_1.
Qed.

(** A map whose keys are valid UTF-8 survives a marshal round trip. *)
Lemma unmarshal_marshal_map m :
  (forall k, is_Some (m !! k) -> utf8_valid k) -> unmarshal_map (marshal_map m) = m.
Proof.
  intros Hv. unfold unmarshal_map, marshal_map.
  set (l := merge_sort key_le (map_to_list m)).
  assert (Hp : l ≡ₚ map_to_list m) by apply merge_sort_Permutation.
  assert (Hl : Forall (λ kv : bytes * V, utf8_valid kv.1) l).
  { rewrite Hp. apply Forall_forall. intros [k v] H. apply elem_of_map_to_list in H. apply Hv. eauto. }
  assert (E : forall m0 : gmap bytes V,
    foldl (λ m kv, <[kv.1 := dec kv.2]> m) m0
    ((λ kv : bytes * V, (utf8_coerce kv.1, enc kv.2)) <$> l)
    = foldl (λ m kv, <[kv.1 := kv.2]> m) m0 l).
  { clear Hp. induction Hl as [|[k v] l Hk Hl IH]; intros m0; [done|]. simpl in *.
    rewrite dec_enc. unfold utf8_valid in Hk. rewrite Hk. apply IH. }
  rewrite E, foldl_insert_list_to_map by (rewrite Hp; apply NoDup_fst_map_to_list).
  rewrite map_union_empty, (list_to_map_proper l _ (ltac:(rewrite Hp; apply NoDup_fst_map_to_list)) Hp).
  apply list_to_map_to_list.
Qed.
End Maps.

(** [[]byte] values: base64 text, [null] for nil. *)
Definition enc_slice (s : slice) : json := match s with Some v => JB64 v | None => JNull end.
Definition dec_slice (j : json) : slice := match j with JB64 v => Some v | _ => None end.
Lemma dec_enc_slice s : dec_slice (enc_slice s) = s.
Proof. by destruct s. Qed.

(** Field access of a decoded object: the zero value when absent. *)
Definition jfield (name : bytes) (j : json) : json :=
  match j with
  | JObj fs => default JNull (list_find (λ f, f.1 = name) fs ≫= λ x, Some x.2.2)
  | _ => JNull
  end.
Lemma jfield_here n j fs : jfield n (JObj ((n, j) :: fs)) = j.
Proof. unfold jfield. simpl. by rewrite decide_True. Qed.
Lemma jfield_skip n m j fs : m <> n -> jfield n (JObj ((m, j) :: fs)) = jfield n (JObj fs).
Proof.
  intros Hne. unfold jfield. simpl. rewrite decide_False by done.
  destruct (list_find _ fs) as [[i [k v]]|]; done.
Qed.
Definition jint (j : json) : Z := match j with JNum n => n | _ => 0 end.

(** ** A concrete text syntax

    Any injective printer meets [JSONText]; this one codes trees through
    [Countable] and is what the witnesses compute with. *)
Section JsonInd.
Variable P : json -> Prop.
Hypotheses (HNull : P JNull) (HNum : forall n, P (JNum n)) (HB64 : forall v, P (JB64 v))
  (HStr : forall s, P (JStr s)) (HArr : forall l, Forall P l -> P (JArr l))
  (HObj : forall fs, Forall (λ kv, P kv.2) fs -> P (JObj fs)).
Fixpoint json_ind' (j : json) : P j :=
  match j with
  | JNull => HNull
  | JNum n => HNum n
  | JB64 v => HB64 v
  | JStr s => HStr s
  | JArr l => HArr l ((fix go l : Forall P l :=
      match l with [] => Forall_nil_2 _ | x :: l => Forall_cons_2 _ _ _ (json_ind' x) (go l) end) l)
  | JObj fs => HObj fs ((fix go fs : Forall (λ kv, P kv.2) fs :=
      match fs with
      | [] => Forall_nil_2 _
      | kv :: fs => Forall_cons_2 _ _ _ (json_ind' kv.2) (go fs)
      end) fs)
  end.
End JsonInd.

Abbreviation jtree := (gen_tree (Z + bytes)).

Fixpoint to_tree (j : json) : jtree :=
  match j with
  | JNull => GenNode 0 []
  | JNum n => GenNode 1 [GenLeaf (inl n)]
  | JB64 v => GenNode 2 [GenLeaf (inr v)]
  | JStr s => GenNode 3 [GenLeaf (inr s)]
  | JArr l => GenNode 4 (to_tree <$> l)
  | JObj fs => GenNode 5 ((λ kv : bytes * json, GenNode 6 [GenLeaf (inr kv.1); to_tree kv.2]) <$> fs)
  end.

Fixpoint of_tree (t : jtree) : json :=
  match t with
  | GenNode 1 [GenLeaf (inl n)] => JNum n
  | GenNode 2 [GenLeaf (inr v)] => JB64 v
  | GenNode 3 [GenLeaf (inr s)] => JStr s
  | GenNode 4 l => JArr (of_tree <$> l)
  | GenNode 5 l => JObj ((λ t, match t with
      | GenNode 6 [GenLeaf (inr k); v] => (k, of_tree v) | _ => ([], JNull) end) <$> l)
  | _ => JNull
  end.

Lemma of_to_tree j : of_tree (to_tree j) = j.
Proof.
  induction j as [|n|v|s|l IH|fs IH] using json_ind'; try done; simpl; f_equal.
  - induction IH as [|x l Hx Hl IHl]; [done|]. simpl. f_equal; [exact Hx|exact IHl].
  - induction IH as [|[k x] fs Hx Hl IHl]; [done|]. simpl in *. f_equal; [by rewrite Hx|exact IHl].
Qed.

Fixpoint pos_bytes (p : positive) : bytes :=
  match p with
  | xH => []
  | xO p => "0"%char :: pos_bytes p
  | xI p => "1"%char :: pos_bytes p
  end.
Fixpoint bytes_pos (l : bytes) : positive :=
  match l with
  | [] => xH
  | c :: l => if decide (c = "0"%char) then xO (bytes_pos l) else xI (bytes_pos l)
  end.
Lemma bytes_pos_bytes p : bytes_pos (pos_bytes p) = p.
Proof. induction p; simpl; rewrite ?IHp; done. Qed.

#[export] Program Instance json_text_coded : JSONText := {
  json_print j := pos_bytes (encode (to_tree j));
  json_parse s := of_tree <$> decode (bytes_pos s);
}.
Next Obligation. intros j. cbv beta. rewrite bytes_pos_bytes. rewrite decode_encode. simpl. by rewrite of_to_tree. Qed.
