(* ===== verification/Duration.v ===== *)
(** * Durations as texts

    [time.Duration.String] and [time.ParseDuration] of the standard library, and
    the workflow's [Duration] (workflow/duration.go) that reads and writes them
    in documents. *)
From stdpp Require Import pretty.
From S2P Require Import Prelude GoTime Strconv Json Paths.

(** ** time.Duration.String *)

Definition dot : ascii := "."%char.
(** The loop of [fmtFrac]: [prec] digits from the right, without trailing
    zeros; what is left of [v]. *)
Fixpoint frac_loop (prec : nat) (v : Z) (print : bool) (acc : bytes) : bytes * bool * Z :=
  match prec with
  | O => (acc, print, v)
  | S prec =>
      let d := v mod 10 in
      let print := print || negb (d =? 0) in
      frac_loop prec (v / 10) print (if print then digit d :: acc else acc)
  end.
Definition fmtFrac (v : Z) (prec : nat) : bytes * Z :=
  let '(ds, print, v) := frac_loop prec v false [] in (if print then dot :: ds else ds, v).
Definition fmtInt (v : Z) : bytes := dec_ v.
Definition micro : bytes := [Zbyte 0xc2; Zbyte 0xb5].
(** [u] is the magnitude as a uint64. *)
Definition fmt_magnitude (u : Z) : bytes :=
  if u <? Second then
    if u =? 0 then b "0s"
    else
      let '(prec, unit) := if u <? 1000 then (0%nat, b "n") else if u <? 1000000 then (3%nat, micro) else (6%nat, b "m") in
      let '(frac, u) := fmtFrac u prec in fmtInt u ++ frac ++ unit ++ b "s"
  else
    let '(frac, u) := fmtFrac u 9 in
    let secs := fmtInt (u mod 60) ++ frac ++ b "s" in
    let u := u / 60 in
    if 0 <? u then
      let mins := fmtInt (u mod 60) ++ b "m" ++ secs in
      let u := u / 60 in
      if 0 <? u then fmtInt u ++ b "h" ++ mins else mins
    else secs.
Definition Duration_String (d : Z) : bytes := if d <? 0 then "-"%char :: fmt_magnitude (- d) else fmt_magnitude d.

(** ** time.ParseDuration *)

Definition unitMap (u : bytes) : option Z :=
  if eqs u "ns" then Some 1
  else if eqs u "us" || bool_decide (u = micro ++ b "s") || bool_decide (u = [Zbyte 0xce; Zbyte 0xbc] ++ b "s") then Some 1000
  else if eqs u "ms" then Some 1000000
  else if eqs u "s" then Some Second
  else if eqs u "m" then Some (60 * Second)
  else if eqs u "h" then Some (3600 * Second)
  else None.
Fixpoint leadingInt (x : Z) (s : bytes) : option (Z * bytes) :=
  match s with
  | c :: s' =>
      if negb (isDigit c) then Some (x, s)
      else if 2 ^ 63 / 10 <? x then None
      else let x := x * 10 + digit_val c in if 2 ^ 63 <? x then None else leadingInt x s'
  | [] => Some (x, [])
  end.
(** The digits read, and how many: the scale is ten to that power. *)
Fixpoint leadingFraction (x : Z) (k : nat) (overflow : bool) (s : bytes) : Z * nat * bytes :=
  match s with
  | c :: s' =>
      if negb (isDigit c) then (x, k, s)
      else if overflow then leadingFraction x k true s'
      else if (2 ^ 63 - 1) / 10 <? x then leadingFraction x k true s'
      else let y := x * 10 + digit_val c in
           if 2 ^ 63 <? y then leadingFraction x k true s' else leadingFraction y (S k) false s'
  | [] => (x, k, [])
  end.
(** [x * y] of two non-negative float64. *)
Definition fmul_pos (x y : float64) : float64 :=
  match x, y with
  | FFin _ u, FFin _ v => finite false (round53 (u * v) one_)
  | _, _ => FInf false
  end.
(** [uint64(float64(f) * (float64(unit) / scale))]. *)
Definition frac_ns (f unit : Z) (k : nat) : Z :=
  match fmul_pos (of_ratio false f 1) (of_ratio false unit (10 ^ Z.of_nat k)) with FFin _ u => u / one_ | _ => 2 ^ 63 end.
Definition unit_char (c : ascii) : bool := negb (bool_decide (c = dot)) && negb (isDigit c).
Fixpoint span_unit (s : bytes) : bytes * bytes :=
  match s with
  | c :: s' => if unit_char c then let '(u, r) := span_unit s' in (c :: u, r) else ([], s)
  | [] => ([], [])
  end.
(** One number with its unit: what it adds, and the rest. *)
Definition parse_term (s : bytes) : result (Z * bytes) :=
  match s with
  | [] => Err "time: invalid duration"
  | c :: _ =>
      if unit_char c then Err "time: invalid duration"
      else match leadingInt 0 s with
      | None => Err "time: invalid duration"
      | Some (v, s1) =>
          let pre := negb (length s1 =? length s)%nat in
          let '(f, k, s2, post) :=
            match s1 with
            | c :: s' => if bool_decide (c = dot) then let '(f, k, s2) := leadingFraction 0 0 false s' in (f, k, s2, negb (length s2 =? length s')%nat)
                         else (0, 0%nat, s1, false)
            | [] => (0, 0%nat, s1, false)
            end in
          if negb pre && negb post then Err "time: invalid duration"
          else match span_unit s2 with
          | ([], _) => Err "time: missing unit in duration"
          | (u, rest) =>
              match unitMap u with
              | None => Err "time: unknown unit in duration"
              | Some unit =>
                  if 2 ^ 63 / unit <? v then Err "time: invalid duration"
                  else
                    let v := v * unit in
                    if 0 <? f then
                      let v := v + frac_ns f unit k in
                      if 2 ^ 63 <? v then Err "time: invalid duration" else Ok (v, rest)
                    else Ok (v, rest)
              end
          end
      end
  end.
(** The loop; every term takes a byte at least, so the length is fuel enough. *)
Fixpoint parse_terms (fuel : nat) (s : bytes) (d : Z) : result Z :=
  match s, fuel with
  | [], _ => Ok d
  | _, O => Err "out of fuel"
  | s, S fuel =>
      '(v, rest) ← parse_term s;
      let d := d + v in
      if 2 ^ 63 <? d then Err "time: invalid duration" else parse_terms fuel rest d
  end.
Definition ParseDuration (orig : bytes) : result Z :=
  let '(neg, s) := cut_sign orig in
  if eqs s "0" then Ok 0
  else if isE s then Err "time: invalid duration"
  else
    d ← parse_terms (length s) s 0;
    if neg then Ok (wrap64 (- wrap64 d)) else if 2 ^ 63 - 1 <? d then Err "time: invalid duration" else Ok d.

(** ** The workflow's Duration *)

Definition wf_String (d : Z) : bytes := if d =? 0 then b "0s" else Duration_String d.
Definition parseDuration (s : bytes) : result Z :=
  if isE s then Ok 0
  else match ParseDuration s with Ok v => Ok v | Err e => Err ("invalid duration: " +:+ e) end.
Section Json.
Context `{JT : JSONText}.
Definition Duration_MarshalJSON (d : Z) : bytes := json_print (JStr (wf_String d)).
(** A null leaves the string empty. *)
Definition Duration_UnmarshalJSON (data : bytes) : result Z :=
  match json_parse data with
  | Some (JStr s) => parseDuration s
  | Some JNull => parseDuration []
  | _ => Err "duration must be a JSON string"
  end.
End Json.

Example durations :
  Duration_String 5400000000000 = b "1h30m0s" /\ Duration_String (-1500000) = b "-1.5ms" /\
  ParseDuration (b "1.5h") = Ok 5400000000000 /\ is_ok (ParseDuration (b "5")) = false /\
  ParseDuration (Duration_String (- 2 ^ 63)) = Ok (- 2 ^ 63).
Proof. vm_compute. done. Qed.

(** ** Reading numbers *)

Lemma dec_nonneg v : 0 <= v -> forallb isDigit (dec_ v) = true /\ digits_val 0 (dec_ v) = v /\ dec_ v <> [].
Proof.
  intros Hv. unfold dec_. destruct v as [|p|p]; [done| |lia]. change (pretty (Z.pos p)) with (pretty (N.pos p)). apply pretty_N_val.
Qed.
Lemma digit_val_range c : isDigit c = true -> 0 <= digit_val c <= 9.
Proof. unfold isDigit, digit_val. intros [H1 H2]%andb_prop. lia. Qed.
Lemma digits_val_ge ds x : forallb isDigit ds = true -> 0 <= x -> x <= digits_val x ds.
Proof.
  revert x. induction ds as [|c ds IH]; intros x Hd Hx; cbn [digits_val]; [lia|]. cbn in Hd. apply andb_prop in Hd as [Hc Hd].
  pose proof (digit_val_range c Hc). specialize (IH (10 * x + digit_val c) Hd ltac:(lia)). lia.
Qed.
Definition no_digit (r : bytes) : Prop := forall c, head r = Some c -> isDigit c = false.
Lemma leadingInt_digits ds r x : forallb isDigit ds = true -> no_digit r -> 0 <= x -> digits_val x ds <= 2 ^ 63 / 10 ->
  leadingInt x (ds ++ r) = Some (digits_val x ds, r).
Proof.
  intros Hd Hr. revert x Hd. induction ds as [|c ds IH]; intros x Hd Hx Hb; cbn [app leadingInt digits_val] in *.
  - destruct r as [|c r]; [done|]. cbn [leadingInt]. by rewrite (Hr c eq_refl).
  - apply andb_prop in Hd as [Hc Hd]. rewrite Hc. cbn [negb]. pose proof (digit_val_range c Hc).
    pose proof (digits_val_ge ds (10 * x + digit_val c) Hd ltac:(lia)). assert (2 ^ 63 / 10 < 2 ^ 63) by (vm_compute; reflexivity).
    destruct (Z.ltb_spec (2 ^ 63 / 10) x); [lia|]. replace (x * 10 + digit_val c) with (10 * x + digit_val c) by ring.
    destruct (Z.ltb_spec (2 ^ 63) (10 * x + digit_val c)); [lia|]. apply IH; [done|lia|done].
Qed.
Lemma leadingFraction_digits ds r x k : forallb isDigit ds = true -> no_digit r -> 0 <= x -> digits_val x ds <= (2 ^ 63 - 1) / 10 ->
  leadingFraction x k false (ds ++ r) = (digits_val x ds, (k + length ds)%nat, r).
Proof.
  intros Hd Hr. revert x k Hd. induction ds as [|c ds IH]; intros x k Hd Hx Hb; cbn [app leadingFraction digits_val length] in *.
  - rewrite Nat.add_0_r. destruct r as [|c r]; [done|]. cbn [leadingFraction]. by rewrite (Hr c eq_refl).
  - apply andb_prop in Hd as [Hc Hd]. rewrite Hc. cbn [negb]. pose proof (digit_val_range c Hc).
    pose proof (digits_val_ge ds (10 * x + digit_val c) Hd ltac:(lia)). assert ((2 ^ 63 - 1) / 10 < 2 ^ 63) by (vm_compute; reflexivity).
    destruct (Z.ltb_spec ((2 ^ 63 - 1) / 10) x); [lia|]. replace (x * 10 + digit_val c) with (10 * x + digit_val c) by ring.
    destruct (Z.ltb_spec (2 ^ 63) (10 * x + digit_val c)); [lia|]. rewrite IH by (done || lia). f_equal. f_equal. lia.
Qed.
Definition no_unit (r : bytes) : Prop := forall c, head r = Some c -> unit_char c = false.
Lemma span_unit_app u r : forallb unit_char u = true -> no_unit r -> span_unit (u ++ r) = (u, r).
Proof.
  intros Hu Hr. induction u as [|c u IH]; cbn [app] in *.
  - destruct r as [|c r]; [done|]. cbn [span_unit]. by rewrite (Hr c eq_refl).
  - cbn in Hu. apply andb_prop in Hu as [Hc Hu]. cbn [span_unit]. by rewrite Hc, (IH Hu).
Qed.

(** ** Exact fractions *)

Lemma of_ratio_cancel m q : 0 < q -> 0 <= m <= 2 ^ 53 -> of_ratio false (m * q) q = FFin false (m * one_).
Proof.
  intros Hq Hm. rewrite <- (of_ratio_int false m Hm). unfold of_ratio. f_equal. pose proof one_pos.
  assert (Hd : 2 ^ 53 <= m * one_ -> (2 ^ (Z.log2 (m * one_) - 52) | m * one_)).
  { intros Hb. apply ulp_divides. destruct (decide (m = 0)) as [->|]; lia. }
  replace (m * q * one_) with (m * one_ * q) by ring. rewrite (round53_exact (m * one_) q) by (done || lia).
  rewrite <- (Z.mul_1_r (m * one_)) at 2. by rewrite (round53_exact (m * one_) 1) by (done || lia).
Qed.
(** A fraction whose digits divide the unit is read exactly. *)
Lemma frac_ns_exact f m k unit : unit = m * 10 ^ Z.of_nat k -> 0 <= f <= 2 ^ 53 -> 0 <= m <= 2 ^ 53 -> f * m <= 2 ^ 53 -> frac_ns f unit k = f * m.
Proof.
  intros -> Hf Hm Hfm. pose proof one_pos. unfold frac_ns. rewrite of_ratio_int, of_ratio_cancel by (done || (apply Z.pow_pos_nonneg; lia)).
  unfold fmul_pos. pose proof (of_ratio_cancel (f * m) one_ ltac:(lia) ltac:(nia)) as H1. unfold of_ratio in H1.
  replace (f * one_ * (m * one_)) with (f * m * one_ * one_) by ring. rewrite H1. by apply Z.div_mul; lia.
Qed.

(** ** One term *)

Definition frac_text (ds : bytes) : bytes := match ds with [] => [] | _ => dot :: ds end.
Definition term (v : Z) (ds u : bytes) : bytes := dec_ v ++ frac_text ds ++ u.
Lemma unit_no_digit u r : forallb unit_char u = true -> u <> [] -> no_digit (u ++ r).
Proof.
  intros Hu Hne. destruct u as [|c u]; [done|]. intros c' [= <-]. cbn in Hu. apply andb_prop in Hu as [Hc _].
  unfold unit_char in Hc. apply andb_prop in Hc as [_ Hc]. by apply negb_true_iff.
Qed.
Lemma parse_term_ok v ds u unit m rest :
  0 <= v <= 2 ^ 63 / unit -> v <= 2 ^ 63 / 10 -> forallb isDigit ds = true -> digits_val 0 ds <= 10 ^ 9 -> 
  unitMap u = Some unit -> u <> [] -> forallb unit_char u = true -> no_unit rest ->
  unit = m * 10 ^ Z.of_nat (length ds) -> 0 <= m <= 10 ^ 13 -> digits_val 0 ds * m <= 2 ^ 53 -> v * unit + digits_val 0 ds * m <= 2 ^ 63 ->
  parse_term (term v ds u ++ rest) = Ok (v * unit + digits_val 0 ds * m, rest).
Proof.
  intros Hv Hv10 Hd Hf Hu Hune Huc Hrest Hunit Hm Hfm Htot. destruct (dec_nonneg v ltac:(lia)) as (D1 & D2 & D3).
  pose proof (digits_val_ge ds 0 Hd ltac:(lia)) as Hf0. set (f := digits_val 0 ds) in *. unfold term, parse_term.
  assert (Hnd : no_digit (frac_text ds ++ u ++ rest)).
  { destruct ds as [|c ds]; [cbn [frac_text app]; by apply unit_no_digit|]. intros c' [= <-]. done. }
  rewrite <- !app_assoc. destruct (dec_ v ++ frac_text ds ++ u ++ rest) as [|c s] eqn:Es; [by destruct (dec_ v)|].
  assert (Hc : unit_char c = false).
  { destruct (dec_ v) as [|c' l]; [done|]. injection Es as -> _. cbn in D1. apply andb_prop in D1 as [D1 _]. unfold unit_char. rewrite D1. apply andb_false_r. }
  rewrite Hc, <- Es. rewrite leadingInt_digits by (done || (rewrite D2; lia)). rewrite D2.
  assert (Hpre : (length (frac_text ds ++ u ++ rest) =? length (dec_ v ++ frac_text ds ++ u ++ rest))%nat = false).
  { apply Nat.eqb_neq. rewrite (length_app (dec_ v)). destruct (dec_ v); cbn; [done|lia]. }
  rewrite Hpre. cbn [negb andb].
  assert (Hsplit : exists post, (match frac_text ds ++ u ++ rest with
     | c :: s' => if bool_decide (c = dot) then let '(f, k, s2) := leadingFraction 0 0 false s' in (f, k, s2, negb (length s2 =? length s')%nat)
                  else (0, 0%nat, frac_text ds ++ u ++ rest, false)
     | [] => (0, 0%nat, frac_text ds ++ u ++ rest, false) end) = (f, length ds, u ++ rest, post)).
  { destruct ds as [|d ds].
    - exists false. cbn [frac_text app]. destruct (u ++ rest) as [|c0 s0] eqn:E0; [done|]. destruct u as [|cu u]; [done|]. injection E0 as -> _.
      cbn in Huc. apply andb_prop in Huc as [Huc _]. unfold unit_char in Huc. apply andb_prop in Huc as [Huc _]. apply negb_true_iff in Huc. by rewrite Huc.
    - eexists. change (frac_text (d :: ds) ++ u ++ rest) with (dot :: ((d :: ds) ++ u ++ rest)). cbv iota beta. rewrite bool_decide_true by done.
      rewrite leadingFraction_digits; [cbn [plus]; reflexivity|done|by apply unit_no_digit|lia|]. fold f. assert (10 ^ 9 <= (2 ^ 63 - 1) / 10) by (vm_compute; discriminate). lia. }
  destruct Hsplit as [post ->]. rewrite span_unit_app by done. destruct u as [|cu u']; [done|]. rewrite Hu.
  destruct (Z.ltb_spec (2 ^ 63 / unit) v); [lia|]. destruct (Z.ltb_spec 0 f) as [Hp|Hp].
  - rewrite (frac_ns_exact f m (length ds) unit) by (done || lia). destruct (Z.ltb_spec (2 ^ 63) (v * unit + f * m)); [lia|done].
  - assert (f = 0) as -> by lia. by rewrite Z.mul_0_l, Z.add_0_r.
Qed.

(** What [fmtFrac] writes. *)
Lemma frac_loop_spec prec : forall v print acc t, 0 <= v -> forallb isDigit acc = true -> print = negb (isE acc) ->
  exists ds t', frac_loop prec v print acc = (ds, negb (isE ds), v / 10 ^ Z.of_nat prec) /\ forallb isDigit ds = true /\
    (length ds + t' = prec + length acc + t)%nat /\
    digits_val 0 ds * 10 ^ Z.of_nat t' = (v mod 10 ^ Z.of_nat prec) * 10 ^ Z.of_nat (length acc + t) + digits_val 0 acc * 10 ^ Z.of_nat t.
Proof.
  induction prec as [|prec IH]; intros v print acc t Hv Ha ->; cbn [frac_loop].
  - exists acc, t. rewrite Z.div_1_r, Z.mod_1_r. split_and!; [done..|lia|lia].
  - pose proof (Z.mod_pos_bound v 10 ltac:(lia)) as Hmod. pose proof (Z.div_mod v 10 ltac:(lia)) as Hdm.
    assert (H10 : 0 < 10 ^ Z.of_nat prec) by (apply Z.pow_pos_nonneg; lia).
    assert (Ediv : v / 10 ^ Z.of_nat (S prec) = v / 10 / 10 ^ Z.of_nat prec).
    { rewrite Z.div_div by lia. f_equal. rewrite Nat2Z.inj_succ, Z.pow_succ_r by lia. done. }
    assert (Emod : v mod 10 ^ Z.of_nat (S prec) = (v / 10) mod 10 ^ Z.of_nat prec * 10 + v mod 10).
    { rewrite Nat2Z.inj_succ, Z.pow_succ_r by lia. rewrite Z.rem_mul_r by lia. ring. }
    destruct (negb (isE acc) || negb (v mod 10 =? 0)) eqn:Ep.
    + destruct (IH (v / 10) true (digit (v mod 10) :: acc) t) as (ds & t' & E & H1 & H2 & H3).
      { apply Z.div_pos; lia. } { cbn. by rewrite digit_isDigit, Ha by lia. } { done. }
      exists ds, t'. rewrite E, Ediv. split_and!; [done..|cbn in H2; lia|]. rewrite H3, Emod. cbn [length digits_val].
      rewrite digits_val_acc. assert (Hdv : digit_val (digit (v mod 10)) = v mod 10) by (unfold digit_val; rewrite digit_byteZ; lia).
      rewrite Hdv. replace (Z.of_nat (S (length acc) + t)) with (Z.of_nat (length acc + t) + 1) by lia.
      rewrite Z.pow_add_r, Z.pow_1_r by lia. replace (10 ^ Z.of_nat (length acc + t)) with (10 ^ Z.of_nat (length acc) * 10 ^ Z.of_nat t) by (rewrite <- Z.pow_add_r by lia; f_equal; lia).
      ring.
    + apply orb_false_iff in Ep as [E1 E2]. apply negb_false_iff in E2. apply Z.eqb_eq in E2. apply negb_false_iff, bool_decide_eq_true in E1. subst acc.
      destruct (IH (v / 10) false [] (S t)) as (ds & t' & E & H1 & H2 & H3); [apply Z.div_pos; lia|done..|].
      exists ds, t'. rewrite E, Ediv. split_and!; [done..|cbn in *; lia|]. rewrite H3, Emod, E2. cbn [length plus digits_val].
      rewrite Nat2Z.inj_succ, Z.pow_succ_r by lia. ring.
Qed.
Lemma fmtFrac_spec v prec : 0 <= v -> exists ds t, fmtFrac v prec = (frac_text ds, v / 10 ^ Z.of_nat prec) /\ forallb isDigit ds = true /\
  (length ds + t = prec)%nat /\ digits_val 0 ds * 10 ^ Z.of_nat t = v mod 10 ^ Z.of_nat prec.
Proof.
  intros Hv. destruct (frac_loop_spec prec v false [] 0 Hv eq_refl eq_refl) as (ds & t & E & H1 & H2 & H3). exists ds, t. unfold fmtFrac. rewrite E.
  cbn [length] in *. split_and!; [by destruct ds|done|lia|]. rewrite H3. cbn. lia.
Qed.

(** ** The texts of durations *)

Lemma term_ne v ds u : 0 <= v -> exists c s, term v ds u = c :: s /\ isDigit c = true.
Proof.
  intros Hv. destruct (dec_nonneg v Hv) as (H1 & _ & H3). unfold term. destruct (dec_ v) as [|c s]; [done|]. cbn in H1. apply andb_prop in H1 as [H1 _].
  eexists _, _. by split.
Qed.
Lemma digit_no_unit c s : isDigit c = true -> no_unit (c :: s).
Proof. intros Hc c' [= <-]. unfold unit_char. rewrite Hc. apply andb_false_r. Qed.
(** Reading a term in front of the rest. *)
Lemma parse_terms_cons fuel s rest v d : s <> [] -> parse_term (s ++ rest) = Ok (v, rest) -> d + v <= 2 ^ 63 ->
  parse_terms (S fuel) (s ++ rest) d = parse_terms fuel rest (d + v).
Proof.
  intros Hs Hp Hd. destruct (s ++ rest) as [|c s'] eqn:E; [by destruct s|]. cbn [parse_terms]. rewrite Hp. cbn [mbind result_bind].
  destruct (Z.ltb_spec (2 ^ 63) (d + v)); [lia|done].
Qed.
Lemma parse_terms_one fuel s v d : s <> [] -> parse_term s = Ok (v, []) -> d + v <= 2 ^ 63 -> parse_terms (S fuel) s d = Ok (d + v).
Proof. intros Hs Hp Hd. pose proof (parse_terms_cons fuel s [] v d Hs) as H. rewrite app_nil_r in H. rewrite H by done. by destruct fuel. Qed.

(** A magnitude in its smallest unit, with the fraction [fmtFrac] gives. *)
Lemma small_term u prec un : 0 <= u <= 2 ^ 63 -> (prec <= 9)%nat -> u / 10 ^ Z.of_nat prec <= 10 ^ 10 -> unitMap un = Some (10 ^ Z.of_nat prec) -> un <> [] -> forallb unit_char un = true ->
  forall v, 0 <= v <= u / 10 ^ Z.of_nat prec -> exists ds, fmtFrac u prec = (frac_text ds, u / 10 ^ Z.of_nat prec) /\
    parse_term (term v ds un) = Ok (v * 10 ^ Z.of_nat prec + u mod 10 ^ Z.of_nat prec, []).
Proof.
  intros Hu Hp Hq Hun Hne Hc v Hv. destruct (fmtFrac_spec u prec ltac:(lia)) as (ds & t & E & H1 & H2 & H3). exists ds. split; [done|].
  assert (Hpow : 10 ^ Z.of_nat prec = 10 ^ Z.of_nat t * 10 ^ Z.of_nat (length ds)) by (rewrite <- Z.pow_add_r by lia; f_equal; lia).
  assert (Ht : 0 < 10 ^ Z.of_nat t) by (apply Z.pow_pos_nonneg; lia). assert (Hp0 : 0 < 10 ^ Z.of_nat prec) by (apply Z.pow_pos_nonneg; lia).
  assert (Hp9 : 10 ^ Z.of_nat prec <= 10 ^ 9) by (apply Z.pow_le_mono_r; lia). assert (Ht9 : 10 ^ Z.of_nat t <= 10 ^ 9) by (apply Z.pow_le_mono_r; lia).
  pose proof (Z.mod_pos_bound u _ Hp0) as Hm. pose proof (Z.div_mod u (10 ^ Z.of_nat prec) ltac:(lia)) as Hdm.
  pose proof (digits_val_ge ds 0 H1 ltac:(lia)) as Hd0. pose proof (Z.mul_le_mono_nonneg_l 1 (10 ^ Z.of_nat t) (digits_val 0 ds) Hd0 ltac:(lia)).
  assert (Hd9 : digits_val 0 ds <= 10 ^ 9) by lia. pose proof (Z.mul_le_mono_nonneg_r v (u / 10 ^ Z.of_nat prec) (10 ^ Z.of_nat prec) ltac:(lia) ltac:(lia)).
  rewrite <- (app_nil_r (term v ds un)), <- H3. apply parse_term_ok; try done; try lia.
  - split; [lia|]. apply Z.div_le_lower_bound; [lia|]. lia.
  - assert (10 ^ 10 <= 2 ^ 63 / 10) by (vm_compute; discriminate). lia.
Qed.

(** A whole number of minutes or hours in front of more. *)
Lemma whole_term v un unit c s : 0 <= v -> v * unit <= 2 ^ 63 -> v <= 10 ^ 10 -> unitMap un = Some unit -> un <> [] -> forallb unit_char un = true ->
  0 < unit <= 10 ^ 13 -> isDigit c = true -> parse_term (term v [] un ++ c :: s) = Ok (v * unit, c :: s).
Proof.
  intros Hv Hb H10 Hun Hne Hc Hu Hd. rewrite (parse_term_ok v [] un unit unit); try done; try lia.
  - f_equal. f_equal. cbn. lia.
  - split; [lia|]. apply Z.div_le_lower_bound; [lia|]. lia.
  - assert (10 ^ 10 <= 2 ^ 63 / 10) by (vm_compute; discriminate). lia.
  - by apply digit_no_unit.
  - cbn. lia.
  - cbn. lia.
Qed.

Definition reads (text : bytes) (u : Z) : Prop :=
  (exists c s, text = c :: s /\ isDigit c = true) /\ text <> b "0" /\ parse_terms (length text) text 0 = Ok u.
Lemma term_length v ds un : 0 <= v -> un <> [] -> (2 <= length (term v ds un))%nat.
Proof.
  intros Hv Hu. destruct (dec_nonneg v Hv) as (_ & _ & H). unfold term. rewrite !length_app. destruct (dec_ v); [done|]. destruct un; [done|]. cbn. lia.
Qed.
Lemma term_nonempty v ds un : 0 <= v -> term v ds un <> [].
Proof. intros Hv. by destruct (term_ne v ds un Hv) as (c & s & -> & _). Qed.
Lemma one_term_reads v ds un x : 0 <= v -> un <> [] -> parse_term (term v ds un) = Ok (x, []) -> x <= 2 ^ 63 -> reads (term v ds un) x.
Proof.
  intros Hv Hu Hp Hx. pose proof (term_length v ds un Hv Hu) as Hl. split; [by apply term_ne|]. split; [intros E; rewrite E in Hl; cbn in Hl; lia|].
  destruct (length (term v ds un)) as [|n]; [lia|]. rewrite (parse_terms_one n _ x 0); [done|by apply term_nonempty|done|lia].
Qed.
Lemma small_reads u prec un : 0 < u < Second -> (prec <= 9)%nat -> unitMap un = Some (10 ^ Z.of_nat prec) -> un <> [] -> forallb unit_char un = true ->
  reads (let '(frac, v) := fmtFrac u prec in fmtInt v ++ frac ++ un) u.
Proof.
  intros Hu Hp Hun Hne Hc. assert (Hp0 : 0 < 10 ^ Z.of_nat prec) by (apply Z.pow_pos_nonneg; lia). unfold Second in Hu.
  pose proof (Z.div_pos u _ ltac:(lia) Hp0) as Hq0. assert (u / 10 ^ Z.of_nat prec <= u) by (apply Z.div_le_upper_bound; nia).
  destruct (small_term u prec un ltac:(lia) Hp ltac:(lia) Hun Hne Hc (u / 10 ^ Z.of_nat prec) ltac:(lia)) as (ds & -> & Ht).
  apply one_term_reads; [done..| |lia]. rewrite Ht. f_equal. f_equal. rewrite (Z.div_mod u (10 ^ Z.of_nat prec)) at 3 by lia. lia.
Qed.

(** A whole term in front of a text that reads. *)
Lemma cons_reads v un unit text u : 0 <= v -> v <= 10 ^ 10 -> unitMap un = Some unit -> un <> [] -> forallb unit_char un = true -> 0 < unit <= 10 ^ 13 ->
  (forall fuel d, (length text <= fuel)%nat -> d + u <= 2 ^ 63 -> parse_terms fuel text d = Ok (d + u)) -> (exists c s, text = c :: s /\ isDigit c = true) ->
  0 <= u -> v * unit + u <= 2 ^ 63 ->
  (exists c s, term v [] un ++ text = c :: s /\ isDigit c = true) /\
  forall fuel d, (length (term v [] un ++ text) <= fuel)%nat -> d + (v * unit + u) <= 2 ^ 63 -> parse_terms fuel (term v [] un ++ text) d = Ok (d + (v * unit + u)).
Proof.
  intros Hv H10 Hun Hne Hc Hu Hr (c & s & -> & Hd) Hu0 Hb. destruct (term_ne v [] un Hv) as (c' & s' & E & Hd'). split; [rewrite E; by eexists _, _|].
  intros fuel d Hf Hx. pose proof (term_length v [] un Hv Hne) as Hl. rewrite length_app in Hf. destruct fuel as [|fuel]; [lia|].
  rewrite (parse_terms_cons fuel _ (c :: s) (v * unit) d); [|by apply term_nonempty|apply whole_term; done || lia|lia].
  rewrite Hr; [f_equal; lia|lia|lia].
Qed.
Lemma term_reads v ds un x : 0 <= v -> un <> [] -> parse_term (term v ds un) = Ok (x, []) ->
  forall fuel d, (length (term v ds un) <= fuel)%nat -> d + x <= 2 ^ 63 -> parse_terms fuel (term v ds un) d = Ok (d + x).
Proof.
  intros Hv Hu Hp fuel d Hf Hx. pose proof (term_length v ds un Hv Hu) as Hl. destruct fuel as [|fuel]; [lia|].
  apply parse_terms_one; [by apply term_nonempty|done|done].
Qed.

Lemma magnitude_reads u : 0 <= u <= 2 ^ 63 -> reads (fmt_magnitude u) u.
Proof.
  intros Hu. unfold fmt_magnitude. destruct (Z.ltb_spec u Second) as [Hs|Hs].
  - destruct (Z.eqb_spec u 0) as [->|Hz]; [split; [by eexists _, _|]; split; [done|vm_compute; reflexivity]|].
    destruct (u <? 1000); [|destruct (u <? 1000000)].
    + apply (small_reads u 0 (b "ns")); [lia|lia|done..].
    + apply (small_reads u 3 (micro ++ b "s")); [lia|lia|done..].
    + apply (small_reads u 6 (b "ms")); [lia|lia|done..].
  - unfold Second in *. set (q := u / 10 ^ 9). assert (Hq : 1 <= q <= 10 ^ 10) by (subst q; split; [apply Z.div_le_lower_bound; lia|apply Z.div_le_upper_bound; lia]).
    pose proof (Z.mod_pos_bound q 60 ltac:(lia)) as Hm60. pose proof (Z.div_mod q 60 ltac:(lia)) as D60.
    pose proof (Z.div_mod u (10 ^ 9) ltac:(lia)) as Du. fold q in Du. pose proof (Z.mod_pos_bound u (10 ^ 9) ltac:(lia)) as Hmu.
    destruct (small_term u 9 (b "s") ltac:(lia) ltac:(lia) ltac:(fold q; lia) eq_refl ltac:(done) eq_refl (q mod 60) ltac:(change (10 ^ Z.of_nat 9) with (10 ^ 9); fold q; lia)) as (ds & -> & Ht).
    change (10 ^ Z.of_nat 9) with (10 ^ 9) in *. fold q. set (q2 := q / 60) in *. change (fmtInt (q mod 60) ++ frac_text ds ++ b "s") with (term (q mod 60) ds (b "s")).
    destruct (Z.ltb_spec 0 q2) as [H2|H2].
    2:{ assert (q2 = 0) as E2 by (pose proof (Z.div_pos q 60 ltac:(lia) ltac:(lia)); unfold q2 in *; lia). rewrite E2 in D60.
        apply one_term_reads; [lia|done| |lia]. rewrite Ht. do 2 f_equal. lia. }
    set (q3 := q2 / 60). pose proof (Z.mod_pos_bound q2 60 ltac:(lia)) as Hm2. pose proof (Z.div_mod q2 60 ltac:(lia)) as D2. fold q3 in D2.
    pose proof (Z.div_pos q2 60 ltac:(lia) ltac:(lia)) as Hq3. fold q3 in Hq3.
    destruct (cons_reads (q2 mod 60) (b "m") (60 * 10 ^ 9) (term (q mod 60) ds (b "s")) ((q mod 60) * 10 ^ 9 + u mod 10 ^ 9)) as [M1 M2];
      [lia|lia|done|done|done|lia|apply term_reads; [lia|done|done]|apply term_ne; lia|lia|lia|].
    assert (Happ : forall v un text, fmtInt v ++ un ++ text = term v [] un ++ text) by (intros; unfold term, fmtInt; cbn [frac_text app]; by rewrite <- app_assoc).
    rewrite !Happ. assert (Hne : forall v un text u0, 0 <= v -> un <> [] ->
      (exists c s, term v [] un ++ text = c :: s /\ isDigit c = true) ->
      (forall fuel d, (length (term v [] un ++ text) <= fuel)%nat -> d + u0 <= 2 ^ 63 -> parse_terms fuel (term v [] un ++ text) d = Ok (d + u0)) ->
      u0 <= 2 ^ 63 -> reads (term v [] un ++ text) u0).
    { intros v un text u0 Hv Hun Hh Hf Hb. split; [done|]. split; [|by rewrite Hf by lia]. intros E. apply (f_equal length) in E. rewrite length_app in E.
      pose proof (term_length v [] un Hv Hun). cbn in E. lia. }
    destruct (Z.ltb_spec 0 q3) as [H3|H3].
    + destruct (cons_reads q3 (b "h") (3600 * 10 ^ 9) (term (q2 mod 60) [] (b "m") ++ term (q mod 60) ds (b "s"))
        ((q2 mod 60) * (60 * 10 ^ 9) + ((q mod 60) * 10 ^ 9 + u mod 10 ^ 9))) as [N1 N2];
        [lia|lia|done|done|done|lia|exact M2|exact M1|lia|lia|].
      replace u with (q3 * (3600 * 10 ^ 9) + ((q2 mod 60) * (60 * 10 ^ 9) + ((q mod 60) * 10 ^ 9 + u mod 10 ^ 9))) at 1 by lia.
      apply Hne; [lia|done|exact N1|exact N2|lia].
    + replace u with ((q2 mod 60) * (60 * 10 ^ 9) + ((q mod 60) * 10 ^ 9 + u mod 10 ^ 9)) at 1 by lia.
      apply Hne; [lia|done|exact M1|exact M2|lia].
Qed.

(** ** Round trips *)

Lemma cut_sign_digit c s : isDigit c = true -> cut_sign (c :: s) = (false, c :: s).
Proof. intros Hc. unfold cut_sign. rewrite decide_False by (intros ->; done). by rewrite decide_False by (intros ->; done). Qed.
Lemma parse_String d : int64 d -> ParseDuration (Duration_String d) = Ok d.
Proof.
  intros Hd. unfold int64 in Hd. unfold Duration_String, ParseDuration. destruct (Z.ltb_spec d 0) as [Hn|Hn].
  - destruct (magnitude_reads (- d) ltac:(lia)) as ((c & s & E & Hc) & H0 & Hp). rewrite E in *. cbn [cut_sign]. rewrite decide_True by done.
    unfold eqs, isE. rewrite !bool_decide_false by done. rewrite Hp. cbn [mbind result_bind]. f_equal.
    destruct (decide (d = - 2 ^ 63)) as [->|Hne]; [vm_compute; reflexivity|]. rewrite (wrap64_id (- d)), Z.opp_involutive by (unfold int64; lia). by apply wrap64_id.
  - destruct (magnitude_reads d ltac:(lia)) as ((c & s & E & Hc) & H0 & Hp). rewrite E in *. rewrite cut_sign_digit by done.
    unfold eqs, isE. rewrite !bool_decide_false by done. rewrite Hp. cbn [mbind result_bind]. destruct (Z.ltb_spec (2 ^ 63 - 1) d); [lia|done].
Qed.
(** C37: durations survive a document.  Every duration, the most negative
    included, is read back from its text, and from its JSON form, as the same
    number of nanoseconds: fractions and units lose nothing. *)
Theorem duration_roundtrip `{JT : JSONText} (d : Z) :
  int64 d -> parseDuration (wf_String d) = Ok d /\ Duration_UnmarshalJSON (Duration_MarshalJSON d) = Ok d.
Proof.
  intros Hd. assert (H : parseDuration (wf_String d) = Ok d).
  { unfold wf_String, parseDuration. destruct (Z.eqb_spec d 0) as [->|Hz]; [vm_compute; reflexivity|].
    rewrite parse_String by done. unfold isE. rewrite bool_decide_false; [done|]. unfold Duration_String.
    destruct (Z.ltb_spec d 0); [done|]. unfold int64 in Hd. destruct (magnitude_reads d ltac:(lia)) as ((c & s & -> & _) & _). done. }
  split; [done|]. unfold Duration_UnmarshalJSON, Duration_MarshalJSON. by rewrite json_parse_print.
Qed.
Definition ninetySeconds : Z := 90 * Second + 500.
Lemma duration_roundtrip_witness :
  wf_String ninetySeconds = b "1m30.0000005s" /\ Duration_UnmarshalJSON (Duration_MarshalJSON ninetySeconds) = Ok ninetySeconds.
Proof.
  split; [vm_compute; reflexivity|]. apply (duration_roundtrip ninetySeconds). split; vm_compute; (discriminate || reflexivity).
Defined.

(** Texts that name no unit, or an unknown one, are refused. *)
Example duration_refused :
  is_ok (parseDuration (b "10")) = false /\ is_ok (parseDuration (b "1d")) = false /\ parseDuration [] = Ok 0 /\ is_ok (parseDuration (b "9223372036.9s")) = false.
Proof. vm_compute. done. Qed.
