(* ===== verification/State.v ===== *)
(** * Package state: the keyed state interface and the in-memory backend

    [StateBackend] is what the operators are written against; its laws say
    that a backend behaves as two finite maps per namespace.  The handles
    [ValueState] and [ListState] carry the key set by [SetKey], as in Go.
    [MemoryBackend] implements the interface. *)
From S2P Require Import Prelude.

(** ** The interface *)

(** The operations a Go [StateBackend] offers through its two kinds of
    handle, with the handle's namespace and current key as arguments. *)
Class StateBackend (B : Type) : Type := {
  value_get : bytes -> bytes -> B -> slice;
  value_set : bytes -> bytes -> slice -> B -> B;
  value_clear : bytes -> bytes -> B -> B;
  value_keys : bytes -> B -> list bytes;
  value_snapshot : bytes -> B -> gmap bytes bytes;
  value_restore : bytes -> gmap bytes bytes -> B -> result B;
  list_append : bytes -> bytes -> bytes -> B -> B;
  list_getall : bytes -> bytes -> B -> list bytes;
  list_clear : bytes -> bytes -> B -> B;
  list_keys : bytes -> B -> list bytes;
}.

(** What the interface promises.  [ok] is the backend's own invariant and
    [good ns key] the keys it can hold; the two views are the abstract state.
    [Keys] reports each live key once, in an unspecified order. *)
Class StateLaws (B : Type) `{StateBackend B} : Type := {
  ok : B -> Prop;
  good : bytes -> bytes -> Prop;
  vview : bytes -> B -> gmap bytes bytes;
  lview : bytes -> B -> gmap bytes (list bytes);

  ok_set ns k v s : ok s -> good ns k -> ok (value_set ns k v s);
  ok_clear ns k s : ok s -> good ns k -> ok (value_clear ns k s);
  ok_append ns k v s : ok s -> good ns k -> ok (list_append ns k v s);
  ok_lclear ns k s : ok s -> good ns k -> ok (list_clear ns k s);

  get_view ns k s : ok s -> good ns k -> value_get ns k s = vview ns s !! k;
  set_view ns k v s ns' : ok s -> good ns k ->
    vview ns' (value_set ns k v s)
    = if decide (ns' = ns) then <[k := str v]> (vview ns s) else vview ns' s;
  clear_view ns k s ns' : ok s -> good ns k ->
    vview ns' (value_clear ns k s)
    = if decide (ns' = ns) then delete k (vview ns s) else vview ns' s;
  set_lview ns k v s ns' : ok s -> good ns k -> lview ns' (value_set ns k v s) = lview ns' s;
  clear_lview ns k s ns' : ok s -> good ns k -> lview ns' (value_clear ns k s) = lview ns' s;
  keys_view ns s : ok s -> NoDup (value_keys ns s)
    /\ forall k, k ∈ value_keys ns s <-> is_Some (vview ns s !! k);

  getall_view ns k s : ok s -> good ns k -> list_getall ns k s = default [] (lview ns s !! k);
  append_lview ns k v s ns' : ok s -> good ns k ->
    lview ns' (list_append ns k v s)
    = if decide (ns' = ns) then <[k := default [] (lview ns s !! k) ++ [v]]> (lview ns s)
      else lview ns' s;
  lclear_lview ns k s ns' : ok s -> good ns k ->
    lview ns' (list_clear ns k s)
    = if decide (ns' = ns) then delete k (lview ns s) else lview ns' s;
  append_vview ns k v s ns' : ok s -> good ns k -> vview ns' (list_append ns k v s) = vview ns' s;
  lclear_vview ns k s ns' : ok s -> good ns k -> vview ns' (list_clear ns k s) = vview ns' s;
  lkeys_view ns s : ok s -> NoDup (list_keys ns s)
    /\ forall k, k ∈ list_keys ns s <-> is_Some (lview ns s !! k);
  lview_nonempty ns k s : ok s -> lview ns s !! k <> Some [];
  snapshot_view ns s : ok s -> value_snapshot ns s = vview ns s;
  restore_view ns e s : ok s -> (forall k, is_Some (e !! k) -> good ns k) ->
    exists s', value_restore ns e s = Ok s' /\ ok s'
      /\ (forall ns', vview ns' s' = if decide (ns' = ns) then e else vview ns' s)
      /\ (forall ns', lview ns' s' = lview ns' s);
  good_live ns k s : ok s ->
    is_Some (vview ns s !! k) \/ is_Some (lview ns s !! k) -> good ns k;
}.

(** ** The in-memory backend *)

(** [MemoryBackend]: name -> key -> value(s).  A Go map iterates in an
    unspecified order; the model lists keys in [gmap]'s order, and the laws
    above fix no order. *)
Record MemoryBackend : Type := mkMem {
  value : gmap bytes (gmap bytes bytes);
  mlist : gmap bytes (gmap bytes (list bytes));
}.

Definition NewMemoryBackend : MemoryBackend := mkMem ∅ ∅.

(** [ValueState]/[ListState] create the namespace's map when it is absent. *)
Definition mem_open_value (ns : bytes) (m : MemoryBackend) : MemoryBackend :=
  match value m !! ns with
  | Some _ => m
  | None => mkMem (<[ns := ∅]> (value m)) (mlist m)
  end.
Definition mem_open_list (ns : bytes) (m : MemoryBackend) : MemoryBackend :=
  match mlist m !! ns with
  | Some _ => m
  | None => mkMem (value m) (<[ns := ∅]> (mlist m))
  end.

(** [memoryValueState] methods: each first re-reads [backend.value[name]]. *)
Definition mem_data (ns : bytes) (m : MemoryBackend) : gmap bytes bytes :=
  default ∅ (value m !! ns).
Definition mem_get (ns k : bytes) (m : MemoryBackend) : slice := mem_data ns m !! k.
Definition mem_set (ns k : bytes) (v : slice) (m : MemoryBackend) : MemoryBackend :=
  mkMem (<[ns := <[k := str v]> (mem_data ns m)]> (value m)) (mlist m).
Definition mem_clear (ns k : bytes) (m : MemoryBackend) : MemoryBackend :=
  match value m !! ns with
  | Some d => mkMem (<[ns := delete k d]> (value m)) (mlist m)
  | None => m
  end.
Definition mem_keys (ns : bytes) (m : MemoryBackend) : list bytes :=
  (map_to_list (mem_data ns m)).*1.
Definition mem_snapshot (ns : bytes) (m : MemoryBackend) : gmap bytes bytes := mem_data ns m.
Definition mem_restore (ns : bytes) (entries : gmap bytes bytes) (m : MemoryBackend)
  : result MemoryBackend := Ok (mkMem (<[ns := entries]> (value m)) (mlist m)).

(** [memoryListState] methods. *)
Definition mem_ldata (ns : bytes) (m : MemoryBackend) : gmap bytes (list bytes) :=
  default ∅ (mlist m !! ns).
Definition mem_append (ns k v : bytes) (m : MemoryBackend) : MemoryBackend :=
  mkMem (value m)
    (<[ns := <[k := default [] (mem_ldata ns m !! k) ++ [v]]> (mem_ldata ns m)]> (mlist m)).
Definition mem_getall (ns k : bytes) (m : MemoryBackend) : list bytes :=
  default [] (mem_ldata ns m !! k).
Definition mem_lclear (ns k : bytes) (m : MemoryBackend) : MemoryBackend :=
  match mlist m !! ns with
  | Some d => mkMem (value m) (<[ns := delete k d]> (mlist m))
  | None => m
  end.
Definition mem_lkeys (ns : bytes) (m : MemoryBackend) : list bytes :=
  (map_to_list (mem_ldata ns m)).*1.

#[export] Instance mem_backend : StateBackend MemoryBackend := {
  value_get := mem_get; value_set := mem_set; value_clear := mem_clear;
  value_keys := mem_keys; value_snapshot := mem_snapshot; value_restore := mem_restore;
  list_append := mem_append; list_getall := mem_getall; list_clear := mem_lclear;
  list_keys := mem_lkeys;
}.

(** Invariant: no stored list is empty (a list is created by an append). *)
Definition mem_ok (m : MemoryBackend) : Prop :=
  forall ns k, mem_ldata ns m !! k <> Some [].

Lemma mem_ok_new : mem_ok NewMemoryBackend.
Proof. intros ns k. unfold mem_ldata. simpl. by rewrite !lookup_empty. Qed.

Lemma mem_data_insert ns ns' d vs ls :
  mem_data ns' (mkMem (<[ns := d]> vs) ls)
  = if decide (ns' = ns) then d else default ∅ (vs !! ns').
Proof.
  unfold mem_data. simpl. rewrite lookup_insert.
  repeat case_decide; by simplify_eq.
Qed.

Lemma mem_ldata_insert ns ns' d vs ls :
  mem_ldata ns' (mkMem vs (<[ns := d]> ls))
  = if decide (ns' = ns) then d else default ∅ (ls !! ns').
Proof.
  unfold mem_ldata. simpl. rewrite lookup_insert.
  repeat case_decide; by simplify_eq.
Qed.

Lemma map_keys_spec {V} (m : gmap bytes V) :
  NoDup (map_to_list m).*1 /\ forall k, k ∈ (map_to_list m).*1 <-> is_Some (m !! k).
Proof.
  split; [apply NoDup_fst_map_to_list|]. intros k.
  rewrite list_elem_of_fmap. split.
  - intros ([k' v] & -> & H). apply elem_of_map_to_list in H. simpl. eauto.
  - intros [v Hv]. exists (k, v). split; [done|]. by apply elem_of_map_to_list.
Qed.

Lemma mem_clear_data ns k m ns' :
  mem_data ns' (mem_clear ns k m)
  = if decide (ns' = ns) then delete k (mem_data ns m) else mem_data ns' m.
Proof.
  unfold mem_clear. destruct (value m !! ns) as [d|] eqn:E.
  - rewrite mem_data_insert. case_decide; [|done]. unfold mem_data. by rewrite E.
  - case_decide; [|done]. subst. unfold mem_data. rewrite E. simpl. by rewrite delete_empty.
Qed.

Lemma mem_lclear_data ns k m ns' :
  mem_ldata ns' (mem_lclear ns k m)
  = if decide (ns' = ns) then delete k (mem_ldata ns m) else mem_ldata ns' m.
Proof.
  unfold mem_lclear. destruct (mlist m !! ns) as [d|] eqn:E.
  - rewrite mem_ldata_insert. case_decide; [|done]. unfold mem_ldata. by rewrite E.
  - case_decide; [|done]. subst. unfold mem_ldata. rewrite E. simpl. by rewrite delete_empty.
Qed.

Lemma mem_ok_append ns k v m : mem_ok m -> mem_ok (mem_append ns k v m).
Proof.
  intros Hok ns' k'. unfold mem_append. rewrite mem_ldata_insert. case_decide; [|apply Hok].
  rewrite lookup_insert. case_decide; [|apply Hok]. intros [= E].
  by destruct (default [] (mem_ldata ns m !! k)).
Qed.

Lemma mem_ok_lclear ns k m : mem_ok m -> mem_ok (mem_lclear ns k m).
Proof.
  intros Hok ns' k'. rewrite mem_lclear_data. case_decide; [|apply Hok].
  rewrite lookup_delete. case_decide; [done|apply Hok].
Qed.

#[export] Program Instance mem_laws : StateLaws MemoryBackend := {
  ok := mem_ok; good := λ _ _, True; vview := mem_data; lview := mem_ldata;
}.
Next Obligation. by intros ? ? ? ? ? _. Qed.
Next Obligation. intros ns k s Hok _ ns' k'. simpl. unfold mem_clear. destruct (value s !! ns); apply Hok. Qed.
Next Obligation. simpl. auto using mem_ok_append. Qed.
Next Obligation. simpl. auto using mem_ok_lclear. Qed.
Next Obligation. done. Qed.
Next Obligation. intros. simpl. unfold mem_set. by rewrite mem_data_insert. Qed.
Next Obligation. intros. apply mem_clear_data. Qed.
Next Obligation. done. Qed.
Next Obligation. intros ns k s ns' _ _. simpl. unfold mem_clear. by destruct (value s !! ns). Qed.
Next Obligation. intros. apply map_keys_spec. Qed.
Next Obligation. done. Qed.
Next Obligation. intros. simpl. unfold mem_append. by rewrite mem_ldata_insert. Qed.
Next Obligation. intros. apply mem_lclear_data. Qed.
Next Obligation. done. Qed.
Next Obligation. intros ns k s ns' _ _. simpl. unfold mem_lclear. by destruct (mlist s !! ns). Qed.
Next Obligation. intros. apply map_keys_spec. Qed.
Next Obligation. intros ns k s Hok. apply Hok. Qed.
Next Obligation. done. Qed.
Next Obligation.
  intros ns e s Hok _. eexists. split; [reflexivity|]. split; [exact Hok|].
  split; [|done]. intros ns'. by rewrite mem_data_insert.
Qed.
Next Obligation. done. Qed.

(** ** Handles

    [vs := op.backend.ValueState(name)] is the backend plus the scoped key. *)
Section Handles.
Context {B : Type} `{StateBackend B}.

Record ValueState : Type := mkVS { vs_backend : B; vs_name : bytes; vs_key : bytes }.
Definition vs_SetKey (k : bytes) (h : ValueState) : ValueState :=
  mkVS (vs_backend h) (vs_name h) k.
Definition vs_Get (h : ValueState) : slice := value_get (vs_name h) (vs_key h) (vs_backend h).
Definition vs_Set (v : slice) (h : ValueState) : ValueState :=
  mkVS (value_set (vs_name h) (vs_key h) v (vs_backend h)) (vs_name h) (vs_key h).
Definition vs_Clear (h : ValueState) : ValueState :=
  mkVS (value_clear (vs_name h) (vs_key h) (vs_backend h)) (vs_name h) (vs_key h).
Definition vs_Keys (h : ValueState) : list bytes := value_keys (vs_name h) (vs_backend h).

Record ListState : Type := mkLS { ls_backend : B; ls_name : bytes; ls_key : bytes }.
Definition ls_SetKey (k : bytes) (h : ListState) : ListState :=
  mkLS (ls_backend h) (ls_name h) k.
Definition ls_Append (v : bytes) (h : ListState) : ListState :=
  mkLS (list_append (ls_name h) (ls_key h) v (ls_backend h)) (ls_name h) (ls_key h).
Definition ls_GetAll (h : ListState) : list bytes :=
  list_getall (ls_name h) (ls_key h) (ls_backend h).
Definition ls_Clear (h : ListState) : ListState :=
  mkLS (list_clear (ls_name h) (ls_key h) (ls_backend h)) (ls_name h) (ls_key h).
Definition ls_Keys (h : ListState) : list bytes := list_keys (ls_name h) (ls_backend h).
End Handles.
Arguments ValueState B : clear implicits.
Arguments ListState B : clear implicits.
