(* ===== verification/Operators.v ===== *)
(** * Package operator: stateless operators and key routing

    [Map], [Filter], [FlatMap] and [Process] in both of their forms: the
    channel loop [Process] and the direct call [ProcessOne] that stages chain.
    User functions are arguments.  [KeyBy] hashes keys with FNV-1a. *)
From S2P Require Import Prelude GoTime Types.

(** ** Failure policy of the Process operator *)

Inductive ProcFailurePolicy : Type := ProcFailureDrop | ProcFailureDLQ | ProcFailureFail.

(** [ProcessOperator]: [Fn] may fail; [hasDLQ] says whether [DLQ] is non-nil. *)
Record ProcessOperator : Type := mkProc {
  proc_Fn : Rec -> result Rec;
  proc_Label : string;
  FailurePolicy : ProcFailurePolicy;
  hasDLQ : bool;
}.

(** The records handed to [DLQ.Write], in order; write errors are only
    logged, so nothing depends on them. *)
Abbreviation dlq := (list Rec).

Definition NewProcess (fn : Rec -> result Rec) : ProcessOperator :=
  mkProc fn "" ProcFailureDrop false.

(** [handleFailure]: returns the dead-letter log, or the panic. *)
Definition handleFailure (op : ProcessOperator) (r : Rec) (err : string) (q : dlq) : result dlq :=
  match FailurePolicy op with
  | ProcFailureDrop => Ok q
  | ProcFailureDLQ =>
      if hasDLQ op then Ok (q ++ [WithHeader r (b "_error") (Some (b err))]) else Ok q
  | ProcFailureFail => Err ("weibo/operator: Process failed: " +:+ err)
  end.

(** ** The stateless operators *)

Inductive SingleProcessor : Type :=
| MapOperator (par : Z) (fn : Rec -> Rec)
| FilterOperator (par : Z) (fn : Rec -> bool)
| FlatMapOperator (par : Z) (fn : Rec -> list Rec)
| ProcOperator (par : Z) (op : ProcessOperator).

(** [Parallelizable.Par] and [Parallelism()]: at least one worker. *)
Definition Par (o : SingleProcessor) : Z :=
  match o with
  | MapOperator p _ | FilterOperator p _ | FlatMapOperator p _ | ProcOperator p _ => p
  end.
Definition Parallelism (o : SingleProcessor) : Z := if Par o <? 1 then 1 else Par o.
Definition SetParallelism (n : Z) (o : SingleProcessor) : SingleProcessor :=
  match o with
  | MapOperator _ f => MapOperator n f
  | FilterOperator _ f => FilterOperator n f
  | FlatMapOperator _ f => FlatMapOperator n f
  | ProcOperator _ f => ProcOperator n f
  end.

(** [ProcessOne] of each operator. *)
Definition ProcessOne (o : SingleProcessor) (r : Rec) (q : dlq) : result (list Rec * dlq) :=
  match o with
  | MapOperator _ fn => Ok ([fn r], q)
  | FilterOperator _ fn => Ok ((if fn r then [r] else []), q)
  | FlatMapOperator _ fn => Ok (fn r, q)
  | ProcOperator _ op =>
      match proc_Fn op r with
      | Err e => q' ← handleFailure op r e q; Ok ([], q')
      | Ok res => Ok ([res], q)
      end
  end.

(** The channel form [Process]: one pass over the input, markers forwarded. *)
Fixpoint Process (o : SingleProcessor) (inp : list Rec) (q : dlq) : result (list Rec * dlq) :=
  match inp with
  | [] => Ok ([], q)
  | record :: rest =>
      if IsWatermark record || IsBarrier record then
        '(out, q') ← Process o rest q; Ok (record :: out, q')
      else
        match o with
        | MapOperator _ fn => '(out, q') ← Process o rest q; Ok (fn record :: out, q')
        | FilterOperator _ fn =>
            '(out, q') ← Process o rest q;
            Ok (if fn record then record :: out else out, q')
        | FlatMapOperator _ fn => '(out, q') ← Process o rest q; Ok (fn record ++ out, q')
        | ProcOperator _ op =>
            match proc_Fn op record with
            | Err e => q1 ← handleFailure op record e q; Process o rest q1
            | Ok res => '(out, q') ← Process o rest q; Ok (res :: out, q')
            end
        end
  end.

(** A stream pushed record by record through [ProcessOne], markers aside. *)
Fixpoint process_each (o : SingleProcessor) (inp : list Rec) (q : dlq) : result (list Rec * dlq) :=
  match inp with
  | [] => Ok ([], q)
  | r :: rest =>
      '(hd, q1) ← (if is_marker r then Ok ([r], q) else ProcessOne o r q);
      '(tl, q2) ← process_each o rest q1;
      Ok (hd ++ tl, q2)
  end.

Lemma Process_process_each o inp q : Process o inp q = process_each o inp q.
Proof.
  revert q. induction inp as [|r inp IH]; intros q; [done|].
  cbn [Process process_each]. unfold is_marker.
  destruct (IsWatermark r || IsBarrier r); cbn.
  - rewrite IH. by destruct (process_each o inp q) as [[]|].
  - destruct o as [p fn|p fn|p fn|p op]; cbn.
    + rewrite IH. by destruct (process_each _ inp q) as [[]|].
    + rewrite IH. destruct (process_each _ inp q) as [[]|]; by destruct (fn r).
    + rewrite IH. by destruct (process_each _ inp q) as [[]|].
    + destruct (proc_Fn op r) as [res|e]; cbn.
      * rewrite IH. by destruct (process_each _ inp q) as [[]|].
      * destruct (handleFailure op r e q) as [q1|]; cbn; [|done].
        rewrite IH. by destruct (process_each _ inp q1) as [[]|].
Qed.

(** The channel loop [Process] of every stateless operator forwards each
    marker in place and is otherwise the record-by-record [ProcessOne] that
    stages chain, failure policy included. *)
Theorem Process_is_ProcessOne o inp q : Process o inp q = process_each o inp q.
Proof. apply Process_process_each. Qed.

(** ** KeyBy *)

Definition defaultPartitions : Z := 16.
Definition fnvOffset32 : Z := 2166136261.
Definition fnvPrime32 : Z := 16777619.

Record KeyByOperator : Type := mkKeyBy { KeySelector : Rec -> slice; Partitions : Z }.

Definition KeyBy (fn : Rec -> slice) : KeyByOperator := mkKeyBy fn defaultPartitions.
Definition WithPartitions (n : Z) (op : KeyByOperator) : KeyByOperator :=
  mkKeyBy (KeySelector op) n.

Definition SelectKey (op : KeyByOperator) (r : Rec) : slice := KeySelector op r.

(** The hash loop: [h ^= uint32(b); h *= prime] over the key's bytes. *)
Fixpoint fnv_loop (h : Z) (key : bytes) : Z :=
  match key with
  | [] => h
  | c :: key' => fnv_loop (wrapU 32 (Z.lxor h (byteZ c) * fnvPrime32)) key'
  end.

(** [int(h) % op.Partitions]; Go's [%] is [Z.rem]. *)
Definition RouteKey (op : KeyByOperator) (key : slice) : Z :=
  if bool_decide (length (str key) = 0%nat) || (Partitions op <=? 1) then 0
  else Z.rem (fnv_loop fnvOffset32 (str key)) (Partitions op).

Definition Route (op : KeyByOperator) (r : Rec) : Z := RouteKey op (SelectKey op r).

Lemma fnv_loop_range h key : 0 <= h < 2 ^ 32 -> 0 <= fnv_loop h key < 2 ^ 32.
Proof.
  revert h. induction key as [|c key IH]; intros h Hh; [done|]. cbn [fnv_loop].
  apply IH. apply Z.mod_pos_bound. lia.
Qed.

Lemma RouteKey_range op key : 0 < Partitions op -> 0 <= RouteKey op key < Partitions op.
Proof.
  intros Hp. unfold RouteKey. destruct (bool_decide _); simpl; [lia|].
  destruct (Z.leb_spec (Partitions op) 1); [lia|].
  apply Z.rem_bound_pos; [|lia].
  apply fnv_loop_range. unfold fnvOffset32. lia.
Qed.

Lemma RouteKey_str op key key' : str key = str key' -> RouteKey op key = RouteKey op key'.
Proof. intros E. unfold RouteKey. by rewrite E. Qed.

(** Routing sends every record to an existing worker, and the worker is a
    function of the selected key alone: equal keys never split. *)
Theorem route_stable op r r' :
  0 < Partitions op -> str (SelectKey op r) = str (SelectKey op r') ->
  0 <= Route op r < Partitions op /\ Route op r = Route op r'.
Proof.
  intros Hp Hk. split; [by apply RouteKey_range|by apply RouteKey_str].
Qed.

Lemma route_stable_witness :
  let op := WithPartitions 8 (KeyBy Key) in
  let r := NewRecord 0 (Some (b "user-1")) None in
  let r' := NewRecord 9 (Some (b "user-1")) (Some (b "x")) in
  Route op r = 4 /\ (0 <= Route op r < 8 /\ Route op r = Route op r').
Proof.
  split; [vm_compute; reflexivity|].
  apply (route_stable (WithPartitions 8 (KeyBy Key))); [done|reflexivity].
Defined.
