(* ===== verification/Reduce.v ===== *)
(** * Package operator: the keyed Reduce operator

    [reduce_step] is one iteration of [ReduceOperator.Process].  The operator
    is generic in its state backend: the theorems use the laws of
    [StateLaws] only, so they hold for every backend. *)
From S2P Require Import Prelude GoTime Types Json State.

Definition reduceNS : bytes := b "reduce".
Definition slash : ascii := "/"%char.
Definition hWindowStart : bytes := b "window_start".
Definition hWindowEnd : bytes := b "window_end".

(** [StateKey]: the record key, scoped by the window bounds when tagged. *)
Definition StateKey (r : Rec) : bytes :=
  match Headers r !! hWindowStart with
  | Some ws =>
      let we := default None (Headers r !! hWindowEnd) in
      str (Key r) ++ slash :: str ws ++ slash :: str we
  | None => str (Key r)
  end.

(** [stateKeyWindowEnd]: both bounds must parse. *)
Definition stateKeyWindowEnd (sk : bytes) : option Z :=
  match cut_last slash sk with
  | None => None
  | Some (pre, lastField) =>
      match cut_last slash pre with
      | None => None
      | Some (_, prevField) =>
          match Parse prevField with
          | None => None
          | Some _ => Parse lastField
          end
      end
  end.

Section Reduce.
Context `{JT : JSONText} {B : Type} `{SB : StateBackend B} `{SL : !StateLaws B}.
(** [op.Fn], and the two snapshot hooks when set. *)
Variable Fn : slice -> Rec -> slice.
Variable barrierSnapshot : bool.
Variable nativeSnapshot : option (bytes -> B -> result bytes).

Record ReduceState : Type := mkRed { red_vs : ValueState B; windowFrontier : Z }.

(** [Process] opens the namespace with no key set; the frontier is the
    zero time on a new operator. *)
Definition reduce_open (backend : B) : ReduceState :=
  mkRed (mkVS backend reduceNS []) zeroTime.

Definition closed_below (frontier : Z) (k : bytes) : bool :=
  match stateKeyWindowEnd k with
  | Some endt => Before endt frontier
  | None => false
  end.

Definition evictClosedWindows (vs : ValueState B) (frontier : Z) : ValueState B :=
  let stale := List.filter (closed_below frontier) (vs_Keys vs) in
  foldl (λ vs k, vs_Clear (vs_SetKey k vs)) vs stale.

Definition advanceWindowFrontier (s : ReduceState) (r : Rec) : ReduceState :=
  match Headers r !! hWindowEnd with
  | None => s
  | Some raw =>
      match Parse (str raw) with
      | None => s
      | Some endt =>
          if negb (After endt (windowFrontier s)) then s
          else
            let vs := evictClosedWindows (red_vs s) endt in
            mkRed (vs_SetKey (StateKey r) vs) endt
      end
  end.

Definition red_Snapshot (backend : B) : result bytes :=
  Ok (json_print (JObj [(b "entries", marshal_map JB64 (value_snapshot reduceNS backend))])).

Definition jbytes (j : json) : bytes := match j with JB64 v => v | _ => [] end.

Definition red_Restore (data : bytes) (backend : B) : result B :=
  match json_parse data with
  | None => Err "invalid JSON"
  | Some j => value_restore reduceNS (unmarshal_map jbytes (jfield (b "entries") j)) backend
  end.

(** One record: the new state, the records sent, the snapshot reported. *)
Definition reduce_step (s : ReduceState) (record : Rec)
  : ReduceState * list Rec * list (bytes * result bytes) :=
  if IsWatermark record then (s, [record], [])
  else if IsBarrier record then
    let snaps :=
      if barrierSnapshot then
        let snap := match nativeSnapshot with
                    | Some f => f (CheckpointID record) (vs_backend (red_vs s))
                    | None => red_Snapshot (vs_backend (red_vs s))
                    end in
        [(CheckpointID record, snap)]
      else [] in
    (s, [record], snaps)
  else
    let vs := vs_SetKey (StateKey record) (red_vs s) in
    let accum := vs_Get vs in
    let newAccum := Fn accum record in
    let vs := vs_Set newAccum vs in
    let out := mkRec (Key record) newAccum (Timestamp record) (Offset record) 0
                 (Headers record) AnyNil false false [] in
    (advanceWindowFrontier (mkRed vs (windowFrontier s)) record, [out], []).

(** The whole loop over an input stream. *)
Fixpoint reduce_process (s : ReduceState) (inp : list Rec)
  : ReduceState * list Rec * list (bytes * result bytes) :=
  match inp with
  | [] => (s, [], [])
  | r :: inp =>
      let '(s1, o1, n1) := reduce_step s r in
      let '(s2, o2, n2) := reduce_process s1 inp in
      (s2, o1 ++ o2, n1 ++ n2)
  end.

(** ** The abstract state *)

Definition red_view (s : ReduceState) : gmap bytes bytes :=
  vview reduceNS (vs_backend (red_vs s)).

Definition red_ok (s : ReduceState) : Prop :=
  ok (vs_backend (red_vs s)) /\ vs_name (red_vs s) = reduceNS.

Lemma red_ok_open backend : ok backend -> red_ok (reduce_open backend).
Proof. by split. Qed.

Lemma clear_all_view ks (vs : ValueState B) :
  ok (vs_backend vs) -> (forall k, k ∈ ks -> good (vs_name vs) k) ->
  let vs' := foldl (λ vs k, vs_Clear (vs_SetKey k vs)) vs ks in
  ok (vs_backend vs') /\ vs_name vs' = vs_name vs /\
  forall k, vview (vs_name vs) (vs_backend vs') !! k
            = if decide (k ∈ ks) then None else vview (vs_name vs) (vs_backend vs) !! k.
Proof.
  revert vs. induction ks as [|k ks IH]; intros vs Hok Hg; cbn [foldl].
  - split_and!; [done|done|]. intros k. rewrite decide_False; [done|]. set_solver.
  - destruct (IH (vs_Clear (vs_SetKey k vs))) as (H1 & H2 & H3).
    { simpl. apply ok_clear; [done|]. apply Hg. set_solver. }
    { simpl. intros k' Hk'. apply Hg. set_solver. }
    split_and!; [done|done|]. simpl in *. intros k'. rewrite H3.
    rewrite clear_view by (try done; apply Hg; set_solver).
    destruct (decide (vs_name vs = vs_name vs)); [|done]. rewrite lookup_delete.
    repeat case_decide; set_solver.
Qed.

Lemma evict_view vs frontier :
  ok (vs_backend vs) ->
  let vs' := evictClosedWindows vs frontier in
  ok (vs_backend vs') /\ vs_name vs' = vs_name vs /\
  forall k, vview (vs_name vs) (vs_backend vs') !! k
            = if closed_below frontier k then None else vview (vs_name vs) (vs_backend vs) !! k.
Proof.
  intros Hok vs'. destruct (keys_view (vs_name vs) (vs_backend vs) Hok) as [_ Hk].
  destruct (clear_all_view (List.filter (closed_below frontier) (vs_Keys vs)) vs Hok)
    as (H1 & H2 & H3).
  { intros k Hin. apply list_elem_of_In, filter_In in Hin as [Hin _].
    apply list_elem_of_In, Hk in Hin. apply (good_live _ _ _ Hok). by left. }
  split_and!; [done|done|]. intros k. unfold vs', evictClosedWindows. rewrite H3.
  destruct (closed_below frontier k) eqn:Hc; case_decide as Hin; [done| | |done].
  - apply eq_None_not_Some. intros Hs. apply Hin.
    apply list_elem_of_In, filter_In. split; [|done]. by apply list_elem_of_In, Hk.
  - apply list_elem_of_In, filter_In in Hin as [_ ?]. congruence.
Qed.

(** Advancing: the frontier never moves back and only keys strictly below
    the new frontier disappear. *)
Lemma advance_spec s r :
  red_ok s ->
  let s' := advanceWindowFrontier s r in
  red_ok s' /\ windowFrontier s <= windowFrontier s' /\
  forall k, red_view s' !! k
    = if bool_decide (windowFrontier s < windowFrontier s') && closed_below (windowFrontier s') k
      then None else red_view s !! k.
Proof.
  intros [Hok Hn] s'. unfold s', advanceWindowFrontier, After.
  assert (Hsame : red_ok s /\ windowFrontier s <= windowFrontier s /\
    forall k, red_view s !! k = if bool_decide (windowFrontier s < windowFrontier s)
      && closed_below (windowFrontier s) k then None else red_view s !! k).
  { split_and!; [by split|lia|]. intros k. by rewrite bool_decide_false by lia. }
  destruct (Headers r !! hWindowEnd) as [raw|]; [|exact Hsame].
  destruct (Parse (str raw)) as [e|]; [|exact Hsame].
  destruct (bool_decide_reflect (windowFrontier s < e)) as [Hlt|]; cbn [negb]; [|exact Hsame].
  destruct (evict_view (red_vs s) e Hok) as (H1 & H2 & H3).
  split; [split; simpl; congruence|]. split; [simpl; lia|]. intros k.
  unfold red_view. cbn [red_vs windowFrontier vs_SetKey vs_backend].
  rewrite (bool_decide_true _ Hlt). simpl.
  rewrite <- Hn, H3. by rewrite Hn.
Qed.

(** The fold a key's accumulator is meant to be. *)
Definition key_fold (k : bytes) (init : slice) (recs : list Rec) : slice :=
  foldl (λ acc r, if is_data r && bool_decide (StateKey r = k)
                  then Some (str (Fn acc r)) else acc) init recs.

Lemma reduce_step_marker s r : is_data r = false -> (reduce_step s r).1.1 = s.
Proof.
  unfold is_data, is_marker, reduce_step. intros Hm.
  destruct (IsWatermark r); [done|]. destruct (IsBarrier r); [done|]. done.
Qed.

Lemma reduce_step_spec s r :
  red_ok s -> good reduceNS (StateKey r) -> is_data r = true ->
  let s' := (reduce_step s r).1.1 in
  red_ok s' /\ windowFrontier s <= windowFrontier s' /\
  forall k, red_view s' !! k
    = if bool_decide (windowFrontier s < windowFrontier s') && closed_below (windowFrontier s') k
      then None
      else if decide (k = StateKey r) then Some (str (Fn (red_view s !! k) r))
           else red_view s !! k.
Proof.
  intros [Hok Hn] Hg Hd. unfold is_data, is_marker in Hd.
  unfold reduce_step. destruct (IsWatermark r); [done|]. destruct (IsBarrier r); [done|].
  cbv zeta. cbn [fst].
  set (vs := vs_Set _ (vs_SetKey (StateKey r) (red_vs s))).
  assert (Hok1 : red_ok (mkRed vs (windowFrontier s))).
  { split; simpl; [|done]. rewrite Hn. by apply ok_set. }
  destruct (advance_spec _ r Hok1) as (H1 & H2 & H3).
  split_and!; [done|done|]. intros k. rewrite H3. cbn [windowFrontier].
  case_match; [done|]. unfold red_view at 1. cbn [red_vs vs_Set vs_backend vs vs_SetKey vs_name vs_key].
  rewrite Hn, set_view, decide_True by done. rewrite lookup_insert.
  unfold vs_Get. simpl. rewrite Hn, get_view by done. unfold red_view.
  repeat case_decide; simplify_eq; done.
Qed.

Lemma own_end_is_frontier s r :
  is_data r = true -> windowFrontier s < windowFrontier (reduce_step s r).1.1 ->
  exists raw e, Headers r !! hWindowEnd = Some raw /\ Parse (str raw) = Some e
    /\ windowFrontier (reduce_step s r).1.1 = e.
Proof.
  unfold is_data, is_marker, reduce_step. intros Hd.
  destruct (IsWatermark r); [done|]. destruct (IsBarrier r); [done|]. cbv zeta. cbn [fst].
  unfold advanceWindowFrontier. cbn [windowFrontier].
  destruct (Headers r !! hWindowEnd) as [raw|]; cbn [windowFrontier]; [|lia].
  destruct (Parse (str raw)) as [e|] eqn:He; cbn [windowFrontier]; [|lia].
  destruct (After e (windowFrontier s)); cbn [negb windowFrontier]; [|lia]. eauto.
Qed.

Definition goods (recs : list Rec) : Prop :=
  Forall (λ r, is_data r = true -> good reduceNS (StateKey r)) recs.

(** A key survives the run when its window has not closed below the final
    frontier; plain keys always survive. *)
Definition survives (k : bytes) (s : ReduceState) : Prop :=
  forall e, stateKeyWindowEnd k = Some e -> windowFrontier s <= e.

Lemma survives_not_closed k s f : survives k s -> f <= windowFrontier s -> closed_below f k = false.
Proof.
  intros Hs Hf. unfold closed_below, Before. destruct (stateKeyWindowEnd k) as [e|] eqn:E; [|done].
  apply bool_decide_eq_false. specialize (Hs e E). lia.
Qed.

Lemma reduce_process_spec s recs :
  red_ok s -> goods recs ->
  let s' := (reduce_process s recs).1.1 in
  red_ok s' /\ windowFrontier s <= windowFrontier s' /\
  forall k, survives k s' -> red_view s' !! k = key_fold k (red_view s !! k) recs.
Proof.
  revert s. induction recs as [|r recs IH]; intros s Hok Hg; simpl.
  - split_and!; [done|lia|done].
  - apply Forall_cons in Hg as [Hr Hg].
    destruct (reduce_step s r) as [[s1 o1] n1] eqn:E1.
    destruct (reduce_process s1 recs) as [[s2 o2] n2] eqn:E2.
    assert (Es1 : s1 = (reduce_step s r).1.1) by (by rewrite E1).
    assert (Es2 : s2 = (reduce_process s1 recs).1.1) by (by rewrite E2). simpl.
    destruct (is_data r) eqn:Hd.
    + destruct (reduce_step_spec s r Hok (Hr eq_refl) Hd) as (H1 & H2 & H3). rewrite <- Es1 in *.
      destruct (IH s1 H1 Hg) as (H4 & H5 & H6). rewrite <- Es2 in *.
      split_and!; [done|lia|]. intros k Hs. rewrite H6 by done. simpl. f_equal. rewrite H3.
      rewrite (survives_not_closed k s2) by done. rewrite andb_false_r.
      repeat case_decide; subst; by rewrite ?bool_decide_true, ?bool_decide_false by done.
    + rewrite reduce_step_marker in Es1 by done. subst s1.
      destruct (IH s Hok Hg) as (H4 & H5 & H6). rewrite <- Es2 in *.
      split_and!; [done|lia|]. intros k Hs. by rewrite H6 by done.
Qed.
End Reduce.
Arguments ReduceState B : clear implicits.

(** ** Properties *)

Lemma stateKey_own_end r ws we e s :
  Headers r !! hWindowStart = Some ws -> Parse (str ws) = Some s ->
  Headers r !! hWindowEnd = Some we -> Parse (str we) = Some e ->
  stateKeyWindowEnd (StateKey r) = Some e.
Proof.
  intros Hws Hs Hwe He. unfold StateKey. rewrite Hws, Hwe. simpl.
  unfold stateKeyWindowEnd.
  replace (str (Key r) ++ slash :: str ws ++ slash :: str we)
    with ((str (Key r) ++ slash :: str ws) ++ slash :: str we) by (by rewrite <- app_assoc).
  rewrite cut_last_app by (eapply Parse_no_slash; exact He).
  rewrite cut_last_app by (eapply Parse_no_slash; exact Hs). by rewrite Hs.
Qed.

Section Properties.
Context `{JT : JSONText} {B : Type} `{SB : StateBackend B} `{SL : !StateLaws B}.

(** After any stream of records, watermarks and barriers, the stored
    accumulator of every state key that is not a window closed below the
    frontier is the fold of the reduce function over exactly the records of
    that key, in order, from the initial state. *)
Theorem reduce_state_is_fold (Fn : slice -> Rec -> slice) bs ns (s : ReduceState B) recs k :
  red_ok s -> goods recs ->
  let s' := (reduce_process Fn bs ns s recs).1.1 in
  survives k s' -> red_view s' !! k = key_fold Fn k (red_view s !! k) recs.
Proof. intros Hok Hg s' Hs. by apply (reduce_process_spec Fn bs ns s recs Hok Hg). Qed.

(** When a windowed record moves the frontier, every window that ended
    before it is evicted, nothing else is, and the record's own accumulator
    is kept. *)
Theorem reduce_evicts_exactly (Fn : slice -> Rec -> slice) bs ns (s : ReduceState B) r ws st :
  red_ok s -> good reduceNS (StateKey r) -> is_data r = true ->
  Headers r !! hWindowStart = Some ws -> Parse (str ws) = Some st ->
  let s' := (reduce_step Fn bs ns s r).1.1 in
  windowFrontier s < windowFrontier s' ->
  (forall k, closed_below (windowFrontier s') k = true -> red_view s' !! k = None) /\
  (forall k, closed_below (windowFrontier s') k = false -> k <> StateKey r ->
     red_view s' !! k = red_view s !! k) /\
  red_view s' !! StateKey r = Some (str (Fn (red_view s !! StateKey r) r)).
Proof.
  intros Hok Hg Hd Hws Hst s' Hlt.
  destruct (reduce_step_spec Fn bs ns s r Hok Hg Hd) as (_ & _ & Hv). fold s' in Hv.
  assert (Hown : closed_below (windowFrontier s') (StateKey r) = false).
  { destruct (own_end_is_frontier Fn bs ns s r Hd Hlt) as (raw & e & H1 & H2 & H3).
    unfold closed_below. rewrite (stateKey_own_end r ws raw e st) by done.
    apply bool_decide_eq_false. fold s' in H3. lia. }
  split_and!.
  - intros k Hc. rewrite Hv, bool_decide_true, Hc by done. done.
  - intros k Hc Hne. rewrite Hv, Hc, andb_false_r. by rewrite decide_False.
  - rewrite Hv, Hown, andb_false_r. by rewrite decide_True.
Qed.

(** Restoring a snapshot of a Reduce operator gives back its state when
    the state keys are valid UTF-8. *)
Theorem reduce_snapshot_roundtrip (backend other : B) :
  ok backend -> ok other ->
  (forall k, is_Some (vview reduceNS backend !! k) -> utf8_valid k) ->
  exists data restored, red_Snapshot backend = Ok data
    /\ red_Restore data other = Ok restored
    /\ vview reduceNS restored = vview reduceNS backend.
Proof.
  intros Hok Hok' Hutf. eexists.
  destruct (restore_view reduceNS (vview reduceNS backend) other Hok') as (s' & E & _ & Hv & _).
  { intros k Hk. apply (good_live _ _ backend Hok). by left. }
  exists s'. split; [reflexivity|]. split.
  - unfold red_Restore. rewrite json_parse_print, jfield_here.
    rewrite unmarshal_marshal_map; rewrite ?snapshot_view by done; done.
  - rewrite Hv. by rewrite decide_True.
Qed.
End Properties.

(** Two keys that are not valid UTF-8 are merged by a snapshot round trip
    of the in-memory backend: one accumulator is lost. *)
Theorem reduce_snapshot_merges_keys `{JT : JSONText} :
  let k1 := [Zbyte 0xfe] in let k2 := [Zbyte 0xff] in
  let m := mem_set reduceNS k2 (Some (b "2")) (mem_set reduceNS k1 (Some (b "1")) NewMemoryBackend) in
  exists data m', red_Snapshot m = Ok data /\ red_Restore data NewMemoryBackend = Ok m'
    /\ mem_get reduceNS k1 m' = None /\ mem_get reduceNS k2 m' = None
    /\ mem_data reduceNS m' = {[ runeError := b "2" ]}.
Proof.
  intros k1 k2 m. unfold red_Snapshot, red_Restore.
  eexists. exists (mkMem {[ reduceNS := {[ runeError := b "2" ]} ]} ∅).
  split; [reflexivity|]. rewrite json_parse_print, jfield_here.
  split; [vm_compute; reflexivity|].
  split; [vm_compute; reflexivity|]. split; vm_compute; reflexivity.
Qed.

(** ** Witnesses *)

(** A reducer that counts in unary. *)
Definition unary (acc : slice) (r : Rec) : slice := Some ("x"%char :: str acc).
Definition keyed (k : string) (ts : Z) : Rec := NewRecord ts (Some (b k)) None.
Definition windowed (k : string) (lo hi : Z) : Rec :=
  WithHeader (WithHeader (keyed k lo) hWindowStart (Some (Format lo))) hWindowEnd (Some (Format hi)).

Lemma reduce_state_is_fold_witness :
  let s := reduce_open NewMemoryBackend in
  let recs := [keyed "a" 1; keyed "b" 2; NewBarrier (b "1"); keyed "a" 3] in
  red_view (reduce_process unary true None s recs).1.1 !! b "a" = Some (b "xx").
Proof.
  intros s recs. etransitivity.
  - apply (reduce_state_is_fold unary true None s recs (b "a")).
    + apply red_ok_open, mem_ok_new.
    + repeat constructor.
    + intros e. vm_compute. discriminate.
  - vm_compute. reflexivity.
Defined.

Lemma reduce_evicts_exactly_witness :
  let s := (reduce_step unary false None (reduce_open NewMemoryBackend) (windowed "a" 0 10)).1.1 in
  let s' := (reduce_step unary false None s (windowed "a" 10 20)).1.1 in
  red_view s !! StateKey (windowed "a" 0 10) = Some (b "x") /\
  red_view s' !! StateKey (windowed "a" 0 10) = None.
Proof.
  intros s s'. split; [vm_compute; reflexivity|].
  assert (Hok : red_ok s).
  { apply (reduce_step_spec unary false None (reduce_open NewMemoryBackend) (windowed "a" 0 10));
      [apply red_ok_open, mem_ok_new|exact I|vm_compute; reflexivity]. }
  refine (proj1 (reduce_evicts_exactly unary false None s (windowed "a" 10 20)
    (Some (Format 10)) 10 Hok I _ _ _ _) _ _); vm_compute; reflexivity.
Defined.

Lemma reduce_snapshot_roundtrip_witness :
  let m := mem_set reduceNS (b "k") (Some (b "v")) NewMemoryBackend in
  exists data restored, red_Snapshot m = Ok data /\ red_Restore data NewMemoryBackend = Ok restored
    /\ vview reduceNS restored = vview reduceNS m.
Proof.
  apply (reduce_snapshot_roundtrip
    (mem_set reduceNS (b "k") (Some (b "v")) NewMemoryBackend) NewMemoryBackend).
  - change (mem_ok NewMemoryBackend). exact mem_ok_new.
  - exact mem_ok_new.
  - intros k Hk.
    destruct (decide (k = b "k")) as [->|Hne]; [vm_compute; reflexivity|].
    exfalso. revert Hk. simpl. unfold mem_set. rewrite mem_data_insert, decide_True by done.
    rewrite lookup_insert_ne by done. by intros [? ?].
Defined.
