(* ===== verification/WindowOp.v ===== *)
(** * Package operator: the Window operator

    Buffered records live in the state backend under
    "<key>/<start>/<end>"; [win_step] is one iteration of the select loop of
    [WindowOperator.Process].  The operator is generic in its backend. *)
From S2P Require Import Prelude GoTime Types Window Json State Reduce.

Definition windowRecordsNS : bytes := b "window_records".
Definition windowWatermarkNS : bytes := b "window_wm".
Definition windowWatermarkK : bytes := b "wm".

(** ** Window keys *)

Record windowKey : Type := mkWK { wkKey : bytes; wkStart : Z; wkEnd : Z }.

Definition toWindowKey (key : bytes) (win : Window) : windowKey :=
  mkWK key (UnixNano (Start win)) (UnixNano (End win)).

(** [windowKey.String]. *)
Definition wkString (k : windowKey) : bytes :=
  wkKey k ++ slash :: Format (Unix0 (wkStart k)) ++ slash :: Format (Unix0 (wkEnd k)).

(** [time.Parse] returns the zero time on error, which the caller ignores. *)
Definition parseOrZero (s : bytes) : Z := default zeroTime (Parse s).

(** The scan for the last two slashes from the right. *)
Definition parseWindowKey (s : bytes) : windowKey :=
  match cut_last slash s with
  | Some (pre, lastField) =>
      match cut_last slash pre with
      | Some (key, startField) =>
          mkWK key (UnixNano (parseOrZero startField)) (UnixNano (parseOrZero lastField))
      | None => mkWK [] 0 0
      end
  | None => mkWK [] 0 0
  end.

Definition wk_in_range (k : windowKey) : Prop := int64 (wkStart k) /\ int64 (wkEnd k).

Lemma parse_wkString k : wk_in_range k -> parseWindowKey (wkString k) = k.
Proof.
  intros [Hs He]. destruct k as [key s e]. unfold parseWindowKey, wkString, Unix0. cbn [wkKey wkStart wkEnd] in *.
  assert (E : key ++ slash :: Format s ++ slash :: Format e
    = (key ++ slash :: Format s) ++ slash :: Format e) by (by rewrite <- app_assoc).
  rewrite E.
  rewrite (cut_last_app slash (key ++ slash :: Format s) (Format e)) by apply Format_no_slash.
  rewrite (cut_last_app slash key (Format s)) by apply Format_no_slash.
  unfold parseOrZero. rewrite !Parse_Format by done. cbn [default from_option id]. unfold UnixNano. by rewrite !wrap64_id.
Qed.

(** ** Record encoding *)

Record recordJSON : Type := mkRJ {
  rj_Key : slice; rj_Value : slice; rj_Timestamp : Z; rj_Offset : Z;
  rj_Headers : gmap bytes slice;
}.

Definition recordToJSON (r : Rec) : recordJSON :=
  mkRJ (Key r) (Value r) (UnixNano (Timestamp r)) (Offset r) (Headers r).
Definition recordFromJSON (r : recordJSON) : Rec :=
  mkRec (rj_Key r) (rj_Value r) (Unix0 (rj_Timestamp r)) (rj_Offset r) 0
    (rj_Headers r) AnyNil false false [].

(** The struct tags: [omitempty] drops empty slices and empty maps. *)
Definition omit_slice (name : bytes) (s : slice) : list (bytes * json) :=
  match s with Some ((_ :: _) as v) => [(name, JB64 v)] | _ => [] end.
Definition omit_headers (h : gmap bytes slice) : list (bytes * json) :=
  if decide (h = ∅) then [] else [(b "headers", marshal_map enc_slice h)].
Definition tree_of_record (r : recordJSON) : json :=
  JObj (omit_slice (b "key") (rj_Key r) ++ omit_slice (b "value") (rj_Value r)
    ++ [(b "timestamp", JNum (rj_Timestamp r)); (b "offset", JNum (rj_Offset r))]
    ++ omit_headers (rj_Headers r)).
Definition record_of_tree (j : json) : recordJSON :=
  mkRJ (dec_slice (jfield (b "key") j)) (dec_slice (jfield (b "value") j))
    (jint (jfield (b "timestamp") j)) (jint (jfield (b "offset") j))
    (unmarshal_map dec_slice (jfield (b "headers") j)).

(** What a record looks like after one trip through the buffer. *)
Definition omit_empty (s : slice) : slice := match s with Some [] => None | _ => s end.
Definition omitted (r : recordJSON) : recordJSON :=
  mkRJ (omit_empty (rj_Key r)) (omit_empty (rj_Value r)) (rj_Timestamp r) (rj_Offset r) (rj_Headers r).

Definition utf8_headers (h : gmap bytes slice) : Prop :=
  forall k, is_Some (h !! k) -> utf8_valid k.

Lemma jfield_headers n h :
  jfield n (JObj (omit_headers h))
  = if decide (n = b "headers") then (if decide (h = ∅) then JNull else marshal_map enc_slice h)
    else JNull.
Proof.
  unfold omit_headers. destruct (decide (h = ∅)); [by destruct (decide _)|].
  destruct (decide (n = b "headers")) as [->|]; [apply jfield_here|].
  by rewrite jfield_skip by done.
Qed.

Lemma unmarshal_headers h :
  utf8_headers h -> unmarshal_map dec_slice (jfield (b "headers") (JObj (omit_headers h))) = h.
Proof.
  intros Hh. rewrite jfield_headers, decide_True by done.
  destruct (decide (h = ∅)); [by subst|].
  apply unmarshal_marshal_map; [apply dec_enc_slice|done].
Qed.

Lemma jfield_omit n m s fs :
  jfield n (JObj (omit_slice m s ++ fs))
  = if decide (n = m) then match s with Some ((_ :: _) as v) => JB64 v | _ => jfield n (JObj fs) end
    else jfield n (JObj fs).
Proof.
  destruct (decide (n = m)) as [->|]; destruct s as [[|c v]|]; cbn [omit_slice app];
    rewrite ?jfield_here, ?jfield_skip by done; done.
Qed.

Lemma record_of_tree_of_record r :
  utf8_headers (rj_Headers r) -> record_of_tree (tree_of_record r) = omitted r.
Proof.
  intros Hh. destruct r as [k v t o h]. unfold record_of_tree, tree_of_record, omitted.
  cbn [rj_Key rj_Value rj_Timestamp rj_Offset rj_Headers] in *.
  rewrite !jfield_omit. cbn [app].
  repeat first [rewrite (decide_True (P := b _ = b _)) by done
    | rewrite (decide_False (P := b _ = b _)) by done].
  repeat first [rewrite jfield_here | rewrite jfield_skip by done].
  rewrite unmarshal_headers, !jfield_headers by done.
  rewrite !(decide_False (P := b _ = b _)) by done.
  by destruct k as [[|? ?]|], v as [[|? ?]|].
Qed.

(** [tagWithWindow]: a clone of the headers plus the window's bounds. *)
Definition tagWithWindow (r : Rec) (win : Window) : Rec :=
  mkRec (Key r) (Value r) (Timestamp r) (Offset r) 0
    (<[hWindowEnd := Some (Format (End win))]>
      (<[hWindowStart := Some (Format (Start win))]> (Headers r)))
    AnyNil false false [].

(** ** The operator *)

Section WindowOperator.
Context `{JT : JSONText} {B : Type} `{SB : StateBackend B} `{SL : !StateLaws B}.

(** Configuration: the assigner, the reducer when set, the snapshot hooks. *)
Record WindowConfig : Type := mkWinCfg {
  wAssigner : Assigner;
  Reducer : option (slice -> Rec -> slice);
  wBarrierSnapshot : bool;
  wNativeSnapshot : option (bytes -> B -> result bytes);
}.
Variable op : WindowConfig.

(** The list handle (with the backend inside) and the RAM watermark. *)
Record WinState : Type := mkWinState { recState : ListState B; currentWatermark : Z }.

Definition encodeRecordJSON (r : recordJSON) : bytes := json_print (tree_of_record r).
Definition encodeRecord (r : Rec) : bytes := encodeRecordJSON (recordToJSON r).
Definition decodeRecordJSON (v : bytes) : recordJSON :=
  match json_parse v with
  | Some j => record_of_tree j
  | None => mkRJ None None 0 0 ∅
  end.
Definition decodeRecord (v : bytes) : Rec := recordFromJSON (decodeRecordJSON v).

Definition loadWatermark (backend : B) : Z :=
  match value_get windowWatermarkNS windowWatermarkK backend with
  | Some v => if decide (length v = 8%nat) then Unix0 (wrap64 (Uint64 v)) else zeroTime
  | None => zeroTime
  end.
Definition storeWatermark (s : WinState) : WinState :=
  let buf := PutUint64 (UnixNano (currentWatermark s)) in
  let ls := recState s in
  mkWinState (mkLS (value_set windowWatermarkNS windowWatermarkK (Some buf) (ls_backend ls))
               (ls_name ls) (ls_key ls)) (currentWatermark s).

(** What [Process] does before its loop. *)
Definition win_open (backend : B) : WinState :=
  mkWinState (mkLS backend windowRecordsNS []) (loadWatermark backend).

Definition overlaps (win : Window) (eStart eEnd : Z) : bool :=
  Before (Start win) eEnd && After (End win) eStart.

(** The scan over existing sessions: merged bounds, records and keys. *)
Definition session_scan (ls : ListState B) (key : bytes) (win : Window)
  : Z * Z * list bytes * list bytes :=
  foldl (λ '(newStart, newEnd, merged, toRemove) existingStr,
    let ek := parseWindowKey existingStr in
    if negb (bool_decide (wkKey ek = key)) then (newStart, newEnd, merged, toRemove)
    else
      let eStart := Unix0 (wkStart ek) in
      let eEnd := Unix0 (wkEnd ek) in
      if negb (overlaps win eStart eEnd) then (newStart, newEnd, merged, toRemove)
      else ((if Before eStart newStart then eStart else newStart),
            (if After eEnd newEnd then eEnd else newEnd),
            merged ++ ls_GetAll (ls_SetKey existingStr ls),
            toRemove ++ [existingStr]))
    (Start win, End win, [], []) (ls_Keys ls).

Definition assignToWindow (ls : ListState B) (key : bytes) (win : Window) (recBytes : bytes)
  : ListState B :=
  let plain := ls_Append recBytes (ls_SetKey (wkString (toWindowKey key win)) ls) in
  if IsSession (wAssigner op) then
    let '(newStart, newEnd, mergedRecords, toRemove) := session_scan ls key win in
    match toRemove with
    | [] => plain
    | _ =>
        let mergedStr := wkString (toWindowKey key (mkWin newStart newEnd)) in
        let ls := foldl (λ ls oldKey, ls_Clear (ls_SetKey oldKey ls)) ls toRemove in
        let ls := foldl (λ ls r, ls_Append r ls) (ls_SetKey mergedStr ls) mergedRecords in
        ls_Append recBytes ls
    end
  else plain.

Definition handleDataRecord (ls : ListState B) (record : Rec) : ListState B :=
  let recBytes := encodeRecord record in
  foldl (λ ls win, assignToWindow ls (str (Key record)) win recBytes) ls
    (AssignWindows (wAssigner op) (Timestamp record)).

Definition keyWindow (keyStr : bytes) : Window :=
  let wk := parseWindowKey keyStr in mkWin (Unix0 (wkStart wk)) (Unix0 (wkEnd wk)).

(** The fold of a window with a reducer: accumulator and last record. *)
Definition reduce_entries (f : slice -> Rec -> slice) (entries : list bytes) : slice * Rec :=
  foldl (λ '(accum, _) rb, let last := decodeRecord rb in (f accum last, last))
    (None, zeroRec) entries.

(** What firing a window with these entries sends downstream. *)
Definition fired (win : Window) (entries : list bytes) : list Rec :=
  match Reducer op with
  | Some f =>
      match entries with
      | [] => []
      | _ =>
          let '(accum, last) := reduce_entries f entries in
          [tagWithWindow (mkRec (Key last) accum (Timestamp last) (Offset last) 0
                           (Headers last) AnyNil false false []) win]
      end
  | None => (λ rb, tagWithWindow (decodeRecord rb) win) <$> entries
  end.

Definition fireWindow (ls : ListState B) (keyStr : bytes) : ListState B * list Rec :=
  let ls := ls_SetKey keyStr ls in
  let entries := ls_GetAll ls in
  (ls_Clear ls, fired (keyWindow keyStr) entries).

(** Fire every key of a list that passes [p], in order. *)
Definition fire_one (p : bytes -> bool) (acc : ListState B * list Rec) (keyStr : bytes)
  : ListState B * list Rec :=
  if p keyStr then let '(ls, o) := fireWindow acc.1 keyStr in (ls, acc.2 ++ o) else acc.
Definition fire_keys (p : bytes -> bool) (ls : ListState B) (keys : list bytes)
  : ListState B * list Rec := foldl (fire_one p) (ls, []) keys.

Definition window_due (wm : Z) (keyStr : bytes) : bool := negb (After (End (keyWindow keyStr)) wm).

Definition handleWatermark (s : WinState) (watermark : Rec) : WinState * list Rec :=
  let s := if After (Timestamp watermark) (currentWatermark s)
           then storeWatermark (mkWinState (recState s) (Timestamp watermark)) else s in
  let '(ls, out) := fire_keys (window_due (currentWatermark s)) (recState s) (ls_Keys (recState s)) in
  (mkWinState ls (currentWatermark s), out).

Definition flushRemaining (s : WinState) : WinState * list Rec :=
  let '(ls, out) := fire_keys (λ _, true) (recState s) (ls_Keys (recState s)) in
  (mkWinState ls (currentWatermark s), out).

(** ** Snapshots *)

Definition tree_of_window (win : Window) (recs : list recordJSON) : json :=
  JObj [(b "win", JObj [(b "Start", JStr (Format (Start win))); (b "End", JStr (Format (End win)))]);
        (b "records", JArr (tree_of_record <$> recs))].
Definition records_of_tree (j : json) : list recordJSON :=
  match jfield (b "records") j with JArr l => record_of_tree <$> l | _ => [] end.

Definition win_Snapshot (s : WinState) : result bytes :=
  let ls := recState s in
  let windows : gmap bytes json := list_to_map ((λ keyStr,
    (keyStr, tree_of_window (keyWindow keyStr)
               (decodeRecordJSON <$> ls_GetAll (ls_SetKey keyStr ls)))) <$> ls_Keys ls) in
  Ok (json_print (JObj [(b "current_watermark", JNum (UnixNano (currentWatermark s)));
                        (b "windows", marshal_map id windows)])).

Definition win_Restore (data : bytes) (s : WinState) : result WinState :=
  match json_parse data with
  | None => Err "invalid JSON"
  | Some j =>
      let s := storeWatermark (mkWinState (recState s) (Unix0 (jint (jfield (b "current_watermark") j)))) in
      let ls := foldl (λ ls k, ls_Clear (ls_SetKey k ls)) (recState s) (ls_Keys (recState s)) in
      let ls := foldl (λ ls (kw : bytes * json),
          foldl (λ ls r, ls_Append (encodeRecordJSON r) ls) (ls_SetKey kw.1 ls) (records_of_tree kw.2))
        ls (map_to_list (unmarshal_map id (jfield (b "windows") j) : gmap bytes json)) in
      Ok (mkWinState ls (currentWatermark s))
  end.

(** ** The select loop *)

Inductive winEvent : Type :=
| WinRecord (r : Rec)    (* a record arrived *)
| WinClosed              (* the input channel is closed *)
| WinIdle.               (* the idle timer fired *)

(** State, records sent, snapshots reported, and whether the loop returned. *)
Definition win_step (s : WinState) (e : winEvent)
  : WinState * list Rec * list (bytes * result bytes) * bool :=
  match e with
  | WinClosed | WinIdle => let '(s, out) := flushRemaining s in (s, out, [], true)
  | WinRecord record =>
      if IsWatermark record then
        let '(s, out) := handleWatermark s record in (s, out, [], false)
      else if IsBarrier record then
        let snaps := if wBarrierSnapshot op then
            let snap := match wNativeSnapshot op with
                        | Some f => f (CheckpointID record) (ls_backend (recState s))
                        | None => win_Snapshot s
                        end in
            [(CheckpointID record, snap)]
          else [] in
        (s, [record], snaps, false)
      else if negb (IsZero (currentWatermark s)) && Before (Timestamp record) (currentWatermark s)
      then (s, [], [], false)
      else (mkWinState (handleDataRecord (recState s) record) (currentWatermark s), [], [], false)
  end.

(** Run over the records of the input, then the close. *)
Fixpoint win_run (s : WinState) (inp : list Rec) : WinState * list Rec :=
  match inp with
  | [] => let '(s, out, _, _) := win_step s WinClosed in (s, out)
  | r :: inp =>
      let '(s, out, _, _) := win_step s (WinRecord r) in
      let '(s, out') := win_run s inp in (s, out ++ out')
  end.
(** The loop as far as it got on the records [inp], the input still open. *)
Fixpoint win_upto (s : WinState) (inp : list Rec) : WinState * list Rec :=
  match inp with
  | [] => (s, [])
  | r :: inp =>
      let '(s, out, _, _) := win_step s (WinRecord r) in
      let '(s, out') := win_upto s inp in (s, out ++ out')
  end.
End WindowOperator.
Arguments WinState B : clear implicits.
Arguments WindowConfig B : clear implicits.
