(* ===== verification/WindowProofs.v ===== *)
(** * Correctness of the Window operator

    Conservation (every accepted record is emitted exactly once per assigned
    window), firing at the watermark, session merging, snapshots. *)
From S2P Require Import Prelude GoTime Types Window Json State Reduce WindowOp.

(** ** Buffers as multisets of entries *)

Definition pairs (m : gmap bytes (list bytes)) : list (bytes * bytes) :=
  map_to_list m ≫= λ kv, pair kv.1 <$> kv.2.

Lemma pairs_empty : pairs ∅ = [].
Proof. unfold pairs. by rewrite map_to_list_empty. Qed.

Lemma pairs_insert k vs m : m !! k = None -> pairs (<[k := vs]> m) ≡ₚ (pair k <$> vs) ++ pairs m.
Proof.
  intros Hk. unfold pairs. rewrite map_to_list_insert by done. done.
Qed.

Lemma pairs_delete k m :
  pairs m ≡ₚ (pair k <$> default [] (m !! k)) ++ pairs (delete k m).
Proof.
  destruct (m !! k) as [vs|] eqn:E; simpl.
  - rewrite <- (insert_delete_id m k vs E) at 1. apply pairs_insert, lookup_delete_eq.
  - by rewrite delete_id.
Qed.

Lemma pairs_append k v m :
  pairs (<[k := default [] (m !! k) ++ [v]]> m) ≡ₚ pairs m ++ [(k, v)].
Proof.
  rewrite (pairs_delete k (<[k:=_]> m)), lookup_insert_eq, delete_insert_eq. simpl.
  rewrite fmap_app. simpl. rewrite (pairs_delete k m). solve_Permutation.
Qed.

Lemma pairs_nil m : pairs m = [] -> (forall k, m !! k <> Some []) -> m = ∅.
Proof.
  intros Hp Hne. apply map_eq. intros k. rewrite lookup_empty.
  destruct (m !! k) as [vs|] eqn:E; [|done]. exfalso.
  pose proof (pairs_delete k m) as H. rewrite Hp, E in H. simpl in H.
  destruct vs; [by apply (Hne k)|]. by apply Permutation_nil in H.
Qed.

Section WindowProofs.
Context `{JT : JSONText} {B : Type} `{SB : StateBackend B} `{SL : !StateLaws B}.
Implicit Types (ls : ListState B) (s : WinState B) (op : WindowConfig B).

Definition NS : bytes := windowRecordsNS.
Definition ls_ok ls : Prop := ok (ls_backend ls) /\ ls_name ls = NS.
Definition lv ls : gmap bytes (list bytes) := lview NS (ls_backend ls).

(** One handle operation, in terms of the abstract buffer. *)
Lemma ls_append_spec ls v :
  ls_ok ls -> good NS (ls_key ls) ->
  ls_ok (ls_Append v ls) /\
  lv (ls_Append v ls) = <[ls_key ls := default [] (lv ls !! ls_key ls) ++ [v]]> (lv ls).
Proof.
  intros [Hok Hn] Hg. unfold lv, ls_ok. simpl. rewrite Hn. split.
  - split; [by apply ok_append|done].
  - rewrite append_lview by done. by rewrite decide_True.
Qed.

Lemma ls_clear_spec ls :
  ls_ok ls -> good NS (ls_key ls) ->
  ls_ok (ls_Clear ls) /\ lv (ls_Clear ls) = delete (ls_key ls) (lv ls).
Proof.
  intros [Hok Hn] Hg. unfold lv, ls_ok. simpl. rewrite Hn. split.
  - split; [by apply ok_lclear|done].
  - rewrite lclear_lview by done. by rewrite decide_True.
Qed.

Lemma ls_getall_spec ls :
  ls_ok ls -> good NS (ls_key ls) -> ls_GetAll ls = default [] (lv ls !! ls_key ls).
Proof. intros [Hok Hn] Hg. unfold ls_GetAll. rewrite Hn. by apply getall_view. Qed.

Lemma ls_keys_spec ls :
  ls_ok ls -> NoDup (ls_Keys ls) /\
  forall k, k ∈ ls_Keys ls <-> is_Some (lv ls !! k).
Proof. intros [Hok Hn]. unfold ls_Keys. rewrite Hn. by apply lkeys_view. Qed.

Lemma lv_good ls k : ls_ok ls -> is_Some (lv ls !! k) -> good NS k.
Proof. intros [Hok _] Hk. apply (good_live _ _ _ Hok). by right. Qed.

Lemma ls_setkey_ok ls k : ls_ok ls -> ls_ok (ls_SetKey k ls).
Proof. done. Qed.

(** Clearing a list of keys, appending a list of entries. *)
Lemma clear_keys_spec ks ls :
  ls_ok ls -> Forall (good NS) ks ->
  let ls' := foldl (λ ls k, ls_Clear (ls_SetKey k ls)) ls ks in
  ls_ok ls' /\ forall k, lv ls' !! k = if decide (k ∈ ks) then None else lv ls !! k.
Proof.
  revert ls. induction ks as [|k ks IH]; intros ls Hok Hg; cbn [foldl].
  - split; [done|]. intros k. rewrite decide_False; [done|]. set_solver.
  - apply Forall_cons in Hg as [Hk Hg].
    destruct (ls_clear_spec (ls_SetKey k ls) Hok Hk) as [H1 H2].
    destruct (IH _ H1 Hg) as [H3 H4]. split; [done|]. intros k'. rewrite H4, H2.
    cbn [ls_SetKey ls_key]. rewrite lookup_delete. repeat case_decide; set_solver.
Qed.

Lemma append_all_spec vs ls :
  ls_ok ls -> good NS (ls_key ls) ->
  let ls' := foldl (λ ls r, ls_Append r ls) ls vs in
  ls_ok ls' /\ ls_key ls' = ls_key ls /\
  (forall k, k <> ls_key ls -> lv ls' !! k = lv ls !! k) /\
  default [] (lv ls' !! ls_key ls) = default [] (lv ls !! ls_key ls) ++ vs /\
  pairs (lv ls') ≡ₚ pairs (lv ls) ++ (pair (ls_key ls) <$> vs).
Proof.
  revert ls. induction vs as [|v vs IH]; intros ls Hok Hg; cbn [foldl].
  - rewrite !app_nil_r. done.
  - destruct (ls_append_spec ls v Hok Hg) as [H1 H2].
    destruct (IH _ H1 Hg) as (H3 & H4 & H5 & H6 & H7).
    change (ls_key (ls_Append v ls)) with (ls_key ls) in *.
    split_and!; [done|done| | |].
    + intros k Hk. rewrite H5, H2 by done. by rewrite lookup_insert_ne.
    + rewrite H6, H2, lookup_insert_eq. simpl. by rewrite <- app_assoc.
    + rewrite H7, H2, pairs_append. simpl. by rewrite <- app_assoc.
Qed.

(** ** Firing *)

Definition emit_pair (kv : bytes * bytes) : Rec := tagWithWindow (decodeRecord kv.2) (keyWindow kv.1).

(** The entries fired from a list of keys, in order. *)
Definition fired_entries (p : bytes -> bool) (m : gmap bytes (list bytes)) (keys : list bytes)
  : list (bytes * list bytes) :=
  (λ k, (k, default [] (m !! k))) <$> List.filter p keys.

Definition fired_all op (l : list (bytes * list bytes)) : list Rec :=
  l ≫= λ ke, fired op (keyWindow ke.1) ke.2.

Lemma fired_entries_delete (p : bytes -> bool) (m : gmap bytes (list bytes)) (k : bytes) (keys : list bytes) :
  k ∉ keys -> fired_entries p (delete k m) keys = fired_entries p m keys.
Proof.
  intros Hk. apply list_fmap_ext. intros i k' Hi. f_equal.
  rewrite lookup_delete_ne; [done|]. intros ->. apply Hk, list_elem_of_In.
  apply list_elem_of_lookup_2, list_elem_of_In, filter_In in Hi. tauto.
Qed.

Lemma fire_keys_acc op p keys ls out :
  ls_ok ls -> Forall (good NS) keys -> NoDup keys ->
  let res := foldl (fire_one op p) (ls, out) keys in
  ls_ok res.1 /\
  (forall k, lv res.1 !! k = if decide (k ∈ List.filter p keys) then None else lv ls !! k) /\
  res.2 = out ++ fired_all op (fired_entries p (lv ls) keys).
Proof.
  revert ls out. induction keys as [|k keys IH]; intros ls out Hok Hg Hnd; cbn [foldl List.filter].
  - split_and!; [done| |by rewrite app_nil_r]. intros k. rewrite decide_False; [done|]. set_solver.
  - apply Forall_cons in Hg as [Hk Hg]. apply NoDup_cons in Hnd as [Hnin Hnd].
    assert (E : fire_one op p (ls, out) k = if p k
      then (ls_Clear (ls_SetKey k ls), out ++ fired op (keyWindow k) (ls_GetAll (ls_SetKey k ls)))
      else (ls, out)) by done.
    rewrite E. clear E. destruct (p k) eqn:Hp.
    + destruct (ls_clear_spec (ls_SetKey k ls) Hok Hk) as [H1 H2].
      destruct (IH _ (out ++ fired op (keyWindow k) (ls_GetAll (ls_SetKey k ls))) H1 Hg Hnd)
        as (H3 & H4 & H5).
      split_and!; [done| |].
      * intros k'. rewrite H4, H2. cbn [ls_SetKey ls_key]. rewrite lookup_delete.
        repeat case_decide; set_solver.
      * rewrite H5, ls_getall_spec, H2 by done.
        change (ls_key (ls_SetKey k ls)) with k. change (lv (ls_SetKey k ls)) with (lv ls).
        rewrite fired_entries_delete by done. unfold fired_entries at 2. cbn [List.filter].
        rewrite Hp. by rewrite <- app_assoc.
    + destruct (IH ls out Hok Hg Hnd) as (H3 & H4 & H5). split_and!; [done|done|].
      rewrite H5. unfold fired_entries. simpl. by rewrite Hp.
Qed.

Lemma fire_keys_spec op p ls :
  ls_ok ls ->
  let res := fire_keys op p ls (ls_Keys ls) in
  ls_ok res.1 /\
  (forall k, lv res.1 !! k = if p k then None else lv ls !! k) /\
  res.2 = fired_all op (fired_entries p (lv ls) (ls_Keys ls)).
Proof.
  intros Hok. destruct (ls_keys_spec ls Hok) as [Hnd Hk].
  destruct (fire_keys_acc op p (ls_Keys ls) ls [] Hok) as (H1 & H2 & H3); [|done|].
  { apply Forall_forall. intros k Hin. apply (lv_good ls k Hok). by apply Hk. }
  split_and!; [done| |done]. intros k. unfold fire_keys. rewrite H2.
  destruct (p k) eqn:Hp; case_decide as Hin; [done| | |done].
  - apply eq_None_not_Some. intros Hs. apply Hin.
    apply list_elem_of_In, filter_In. split; [|done]. by apply list_elem_of_In, Hk.
  - apply list_elem_of_In, filter_In in Hin as [_ ?]. congruence.
Qed.

Lemma fired_all_plain op l :
  Reducer op = None -> fired_all op l = emit_pair <$> (l ≫= λ ke, pair ke.1 <$> ke.2).
Proof.
  intros Hr. unfold fired_all. induction l as [|[k es] l IH]; [done|].
  rewrite !bind_cons, fmap_app, IH. f_equal. unfold fired. rewrite Hr. cbn [fst snd].
  rewrite <- list_fmap_compose. done.
Qed.

(** What stays plus what was fired is what was there. *)
Lemma fired_pairs (p : bytes -> bool) (m m' : gmap bytes (list bytes)) (keys : list bytes) :
  NoDup keys -> (forall k, k ∈ keys <-> is_Some (m !! k)) ->
  (forall k, m' !! k = if p k then None else m !! k) ->
  pairs m ≡ₚ (fired_entries p m keys ≫= λ ke, pair ke.1 <$> ke.2) ++ pairs m'.
Proof.
  intros Hnd Hk Hm'.
  assert (G : forall ks (m1 : gmap bytes (list bytes)), NoDup ks ->
    (forall k, k ∈ ks -> m1 !! k = m !! k) ->
    exists m2, pairs m1 ≡ₚ (((λ k, (k, default [] (m !! k))) <$> ks) ≫= λ ke, pair ke.1 <$> ke.2) ++ pairs m2
      /\ forall k, m2 !! k = if decide (k ∈ ks) then None else m1 !! k).
  { induction ks as [|k ks IH]; intros m1 Hn He.
    - exists m1. split; [done|]. intros k. rewrite decide_False; [done|]. set_solver.
    - apply NoDup_cons in Hn as [Hni Hn].
      destruct (IH (delete k m1) Hn) as (m2 & Hp & Hl).
      { intros k' Hin. rewrite lookup_delete_ne by set_solver. apply He. set_solver. }
      exists m2. split.
      + rewrite (pairs_delete k m1), Hp. simpl. rewrite (He k) by set_solver. by rewrite app_assoc.
      + intros k'. rewrite Hl, lookup_delete. repeat case_decide; set_solver. }
  destruct (G (List.filter p keys) m) as (m2 & Hp & Hl); [by apply NoDup_ListNoDup, List.NoDup_filter, NoDup_ListNoDup|done|].
  rewrite Hp. unfold fired_entries. replace m' with m2; [done|]. apply map_eq. intros k.
  rewrite Hl, Hm'. destruct (p k) eqn:E; case_decide as Hin; [done| | |done].
  - apply eq_None_not_Some. intros Hs. apply Hin, list_elem_of_In, filter_In.
    split; [|done]. by apply list_elem_of_In, Hk.
  - apply list_elem_of_In, filter_In in Hin as [_ ?]. congruence.
Qed.

(** ** Assigning a record to its windows *)

(** Keys the backend can hold, whatever the window bounds. *)
Definition key_good (key : bytes) : Prop := forall st en, good NS (wkString (mkWK key st en)).

Lemma assign_plain_spec op ls key win v :
  IsSession (wAssigner op) = false -> ls_ok ls -> key_good key ->
  let ls' := assignToWindow op ls key win v in
  ls_ok ls' /\ pairs (lv ls') ≡ₚ pairs (lv ls) ++ [(wkString (toWindowKey key win), v)].
Proof.
  intros Hs Hok Hg. unfold assignToWindow. rewrite Hs.
  destruct (ls_append_spec (ls_SetKey (wkString (toWindowKey key win)) ls) v Hok (Hg _ _)) as [H1 H2].
  split; [done|]. rewrite H2. by apply pairs_append.
Qed.

(** The sessions of [key] that overlap the new window. *)
Definition session_hit (key : bytes) (win : Window) (k : bytes) : bool :=
  bool_decide (wkKey (parseWindowKey k) = key)
  && overlaps win (Start (keyWindow k)) (End (keyWindow k)).

Definition hull_start (st : Z) (ks : list bytes) : Z :=
  foldl (λ a k, if Before (Start (keyWindow k)) a then Start (keyWindow k) else a) st ks.
Definition hull_end (en : Z) (ks : list bytes) : Z :=
  foldl (λ a k, if After (End (keyWindow k)) a then End (keyWindow k) else a) en ks.

Lemma session_scan_spec ls key win :
  session_scan ls key win =
  let hits := List.filter (session_hit key win) (ls_Keys ls) in
  (hull_start (Start win) hits, hull_end (End win) hits,
   hits ≫= λ k, ls_GetAll (ls_SetKey k ls), hits).
Proof.
  unfold session_scan.
  assert (G : forall ks st en mr tr,
    foldl (λ '(newStart, newEnd, merged, toRemove) existingStr,
      let ek := parseWindowKey existingStr in
      if negb (bool_decide (wkKey ek = key)) then (newStart, newEnd, merged, toRemove)
      else if negb (overlaps win (Unix0 (wkStart ek)) (Unix0 (wkEnd ek)))
        then (newStart, newEnd, merged, toRemove)
        else ((if Before (Unix0 (wkStart ek)) newStart then Unix0 (wkStart ek) else newStart),
              (if After (Unix0 (wkEnd ek)) newEnd then Unix0 (wkEnd ek) else newEnd),
              merged ++ ls_GetAll (ls_SetKey existingStr ls), toRemove ++ [existingStr]))
      (st, en, mr, tr) ks
    = let hits := List.filter (session_hit key win) ks in
      (hull_start st hits, hull_end en hits,
       mr ++ (hits ≫= λ k, ls_GetAll (ls_SetKey k ls)), tr ++ hits)).
  { induction ks as [|k ks IH]; intros st en mr tr; [simpl; by rewrite !app_nil_r|].
    assert (E : session_hit key win k = bool_decide (wkKey (parseWindowKey k) = key)
      && overlaps win (Unix0 (wkStart (parseWindowKey k))) (Unix0 (wkEnd (parseWindowKey k)))) by done.
    cbn [foldl List.filter]. rewrite E. clear E. cbv zeta.
    destruct (bool_decide _); cbn [negb andb]; [|rewrite IH; done].
    destruct (overlaps win _ _); cbn [negb andb]; [|rewrite IH; done].
    rewrite IH. cbv zeta. rewrite <- !app_assoc. done. }
  apply G.
Qed.

Lemma hull_start_spec st ks :
  hull_start st ks <= st /\ (forall k, k ∈ ks -> hull_start st ks <= Start (keyWindow k)) /\
  (hull_start st ks = st \/ exists k, k ∈ ks /\ hull_start st ks = Start (keyWindow k)).
Proof.
  revert st. induction ks as [|k ks IH]; intros st; cbn [hull_start foldl].
  - split_and!; [lia|set_solver|by left].
  - fold (hull_start (if Before (Start (keyWindow k)) st then Start (keyWindow k) else st) ks).
    destruct (IH (if Before (Start (keyWindow k)) st then Start (keyWindow k) else st)) as (H1 & H2 & H3).
    assert (Hle : (if Before (Start (keyWindow k)) st then Start (keyWindow k) else st)
      = Z.min (Start (keyWindow k)) st) by (unfold Before; case_bool_decide; lia).
    rewrite Hle in *. split_and!; [lia| |].
    + intros k' [->|Hin]%elem_of_cons; [lia|auto].
    + destruct H3 as [H3|(k' & Hin & H3)]; [|right; exists k'; split; [set_solver|done]].
      destruct (Z.min_spec (Start (keyWindow k)) st) as [[? E]|[? E]]; rewrite E in H3.
      * right. exists k. split; [set_solver|]. by rewrite E.
      * left. by rewrite E.
Qed.

Lemma hull_end_spec en ks :
  en <= hull_end en ks /\ (forall k, k ∈ ks -> End (keyWindow k) <= hull_end en ks) /\
  (hull_end en ks = en \/ exists k, k ∈ ks /\ hull_end en ks = End (keyWindow k)).
Proof.
  revert en. induction ks as [|k ks IH]; intros en; cbn [hull_end foldl].
  - split_and!; [lia|set_solver|by left].
  - fold (hull_end (if After (End (keyWindow k)) en then End (keyWindow k) else en) ks).
    destruct (IH (if After (End (keyWindow k)) en then End (keyWindow k) else en)) as (H1 & H2 & H3).
    assert (Hle : (if After (End (keyWindow k)) en then End (keyWindow k) else en)
      = Z.max (End (keyWindow k)) en) by (unfold After; case_bool_decide; lia).
    rewrite Hle in *. split_and!; [lia| |].
    + intros k' [->|Hin]%elem_of_cons; [lia|auto].
    + destruct H3 as [H3|(k' & Hin & H3)]; [|right; exists k'; split; [set_solver|done]].
      destruct (Z.max_spec (End (keyWindow k)) en) as [[? E]|[? E]]; rewrite E in H3.
      * left. by rewrite E.
      * right. exists k. split; [set_solver|]. by rewrite E.
Qed.

Lemma hits_spec ls key win k :
  ls_ok ls -> k ∈ List.filter (session_hit key win) (ls_Keys ls)
  <-> is_Some (lv ls !! k) /\ session_hit key win k = true.
Proof.
  intros Hok. destruct (ls_keys_spec ls Hok) as [_ Hk].
  by rewrite list_elem_of_In, filter_In, <- list_elem_of_In, Hk.
Qed.

(** Reading out and clearing the hit sessions. *)
Lemma hits_drain ls key win :
  ls_ok ls ->
  let hits := List.filter (session_hit key win) (ls_Keys ls) in
  let ls1 := foldl (λ ls k, ls_Clear (ls_SetKey k ls)) ls hits in
  ls_ok ls1 /\
  (forall k, lv ls1 !! k = if session_hit key win k then None else lv ls !! k) /\
  (pairs (lv ls)).*2 ≡ₚ (hits ≫= λ k, ls_GetAll (ls_SetKey k ls)) ++ (pairs (lv ls1)).*2.
Proof.
  intros Hok hits ls1. destruct (ls_keys_spec ls Hok) as [Hnd Hk].
  pose proof (λ k, hits_spec ls key win k Hok) as Hhit. fold hits in Hhit.
  assert (Hgh : Forall (good NS) hits).
  { apply Forall_forall. intros k Hin. apply (lv_good ls k Hok). by apply Hhit. }
  destruct (clear_keys_spec hits ls Hok Hgh) as [Hok1 Hl1]. fold ls1 in Hok1, Hl1.
  assert (Hl : forall k, lv ls1 !! k = if session_hit key win k then None else lv ls !! k).
  { intros k. rewrite Hl1. destruct (session_hit key win k) eqn:E; case_decide as Hin; try done.
    - apply eq_None_not_Some. intros ?. by apply Hin, Hhit.
    - apply Hhit in Hin as [_ ?]. congruence. }
  split_and!; [done|done|].
  rewrite (fired_pairs (session_hit key win) (lv ls) (lv ls1) (ls_Keys ls) Hnd Hk Hl).
  rewrite fmap_app. f_equiv. unfold fired_entries. fold hits. clearbody hits. clear -Hok Hgh.
  induction hits as [|k ks IH]; [done|]. apply Forall_cons in Hgh as [Hk Hgh].
  rewrite fmap_cons, !bind_cons, fmap_app. f_equiv; [|by apply IH].
  rewrite ls_getall_spec by done. simpl. rewrite <- list_fmap_compose. by rewrite list_fmap_id.
Qed.

Definition merged_key (key : bytes) (win : Window) (hits : list bytes) : bytes :=
  wkString (toWindowKey key (mkWin (hull_start (Start win) hits) (hull_end (End win) hits))).

(** The session branch as one equation: drain the hits, append everything
    under the hull's key. *)
Lemma assign_session_eq op ls key win v :
  IsSession (wAssigner op) = true ->
  let hits := List.filter (session_hit key win) (ls_Keys ls) in
  assignToWindow op ls key win v =
  foldl (λ ls r, ls_Append r ls)
    (ls_SetKey (merged_key key win hits) (foldl (λ ls k, ls_Clear (ls_SetKey k ls)) ls hits))
    ((hits ≫= λ k, ls_GetAll (ls_SetKey k ls)) ++ [v]).
Proof.
  intros Hs hits. unfold assignToWindow. rewrite Hs, session_scan_spec. cbv zeta. fold hits.
  rewrite foldl_app. unfold merged_key. destruct hits; [by destruct win|done].
Qed.

(** What a session assignment leaves in the buffer: the hit sessions are
    gone and one session over their hull holds their entries and the new
    one. *)
Lemma assign_session_spec op ls key win v :
  IsSession (wAssigner op) = true -> ls_ok ls -> key_good key ->
  let new := merged_key key win (List.filter (session_hit key win) (ls_Keys ls)) in
  let ls' := assignToWindow op ls key win v in
  ls_ok ls' /\
  (forall k, k <> new -> lv ls' !! k = if session_hit key win k then None else lv ls !! k) /\
  (pairs (lv ls')).*2 ≡ₚ (pairs (lv ls)).*2 ++ [v].
Proof.
  intros Hs Hok Hg new ls'. unfold ls'. rewrite assign_session_eq by done. cbv zeta.
  destruct (hits_drain ls key win Hok) as (Hok1 & Hl1 & Hc). revert Hok1 Hl1 Hc.
  unfold new. set (hits := List.filter _ _). set (ls1 := foldl _ ls hits). intros Hok1 Hl1 Hc.
  destruct (append_all_spec ((hits ≫= λ k, ls_GetAll (ls_SetKey k ls)) ++ [v])
    (ls_SetKey (merged_key key win hits) ls1) Hok1 (Hg _ _)) as (H1 & _ & H3 & _ & H5).
  split_and!; [done| |].
  - intros k Hne. rewrite H3 by done. apply Hl1.
  - rewrite H5, fmap_app, <- list_fmap_compose, Hc. change (lv (ls_SetKey _ ls1)) with (lv ls1).
    rewrite list_fmap_id. solve_Permutation.
Qed.

(** ** Sessions stay disjoint *)

(** Every buffered key denotes a nonempty in-range window. *)
Definition key_wf (k : bytes) : Prop :=
  exists wk, k = wkString wk /\ wk_in_range wk /\ wkStart wk < wkEnd wk.

Record sessions_ok (m : gmap bytes (list bytes)) : Prop := {
  sess_wf : forall k, is_Some (m !! k) -> key_wf k;
  sess_disjoint : forall k1 k2, is_Some (m !! k1) -> is_Some (m !! k2) -> k1 <> k2 ->
    wkKey (parseWindowKey k1) = wkKey (parseWindowKey k2) ->
    ~ overlap (keyWindow k1) (keyWindow k2);
}.

Lemma overlaps_overlap win w : overlaps win (Start w) (End w) = true <-> overlap win w.
Proof. unfold overlaps, overlap, Before, After. rewrite andb_true_iff, !bool_decide_eq_true. lia. Qed.

Lemma key_wf_window k : key_wf k ->
  int64 (Start (keyWindow k)) /\ int64 (End (keyWindow k)) /\ Start (keyWindow k) < End (keyWindow k).
Proof.
  intros (wk & -> & Hr & Hlt). unfold keyWindow. rewrite parse_wkString by done.
  destruct Hr. done.
Qed.

Lemma key_wf_inj k1 k2 : key_wf k1 -> key_wf k2 ->
  wkKey (parseWindowKey k1) = wkKey (parseWindowKey k2) -> keyWindow k1 = keyWindow k2 -> k1 = k2.
Proof.
  intros (w1 & -> & H1 & _) (w2 & -> & H2 & _). unfold keyWindow. rewrite !parse_wkString by done.
  destruct w1, w2; simpl; unfold Unix0. intros -> [= -> ->]. done.
Qed.

Lemma merged_key_spec m key win hits :
  sessions_ok m -> int64 (Start win) -> int64 (End win) -> Start win < End win ->
  Forall (λ k, is_Some (m !! k)) hits ->
  let new := merged_key key win hits in
  key_wf new /\ wkKey (parseWindowKey new) = key /\
  keyWindow new = mkWin (hull_start (Start win) hits) (hull_end (End win) hits).
Proof.
  intros Hm Hs He Hlt Hh. rewrite Forall_forall in Hh.
  destruct (hull_start_spec (Start win) hits) as (S1 & _ & S3).
  destruct (hull_end_spec (End win) hits) as (E1 & _ & E3).
  assert (Hrs : int64 (hull_start (Start win) hits)).
  { destruct S3 as [->|(k & Hin & ->)]; [done|]. apply key_wf_window, (sess_wf m Hm), Hh, Hin. }
  assert (Hre : int64 (hull_end (End win) hits)).
  { destruct E3 as [->|(k & Hin & ->)]; [done|]. apply key_wf_window, (sess_wf m Hm), Hh, Hin. }
  intros new.
  assert (Hnew : new = wkString (mkWK key (hull_start (Start win) hits) (hull_end (End win) hits))).
  { unfold new, merged_key, toWindowKey, UnixNano. simpl. by rewrite !wrap64_id. }
  rewrite Hnew. unfold keyWindow. rewrite parse_wkString by done.
  split_and!; [|done|done]. eexists. split; [reflexivity|]. split; [by split|]. simpl. lia.
Qed.

(** A session that overlaps neither the new window nor any of the merged
    sessions does not overlap their hull. *)
Lemma hull_disjoint key win hits e :
  Start e < End e -> ~ overlap win e ->
  (forall k, k ∈ hits -> overlap win (keyWindow k) /\ ~ overlap (keyWindow k) e) ->
  ~ overlap (keyWindow (merged_key key win hits)) e \/
  keyWindow (merged_key key win hits)
    <> mkWin (hull_start (Start win) hits) (hull_end (End win) hits).
Proof.
  intros He Hne Hh. destruct (decide (keyWindow (merged_key key win hits)
    = mkWin (hull_start (Start win) hits) (hull_end (End win) hits))) as [->|]; [left|by right].
  destruct (hull_start_spec (Start win) hits) as (S1 & _ & S3).
  destruct (hull_end_spec (End win) hits) as (E1 & _ & E3).
  unfold overlap in *. simpl. intros [H1 H2].
  destruct S3 as [S3|(k1 & Hk1 & S3)], E3 as [E3|(k2 & Hk2 & E3)];
    try (pose proof (Hh _ Hk1)); try (pose proof (Hh _ Hk2)); lia.
Qed.

Lemma assign_session_inv op ls key win v :
  IsSession (wAssigner op) = true -> ls_ok ls -> key_good key ->
  int64 (Start win) -> int64 (End win) -> Start win < End win ->
  sessions_ok (lv ls) -> sessions_ok (lv (assignToWindow op ls key win v)).
Proof.
  intros Hs Hok Hg Hs64 He64 Hlt Hm.
  destruct (assign_session_spec op ls key win v Hs Hok Hg) as (_ & Hl & _).
  set (hits := List.filter (session_hit key win) (ls_Keys ls)) in *.
  pose proof (λ k, hits_spec ls key win k Hok) as Hhit. fold hits in Hhit.
  destruct (merged_key_spec (lv ls) key win hits Hm Hs64 He64 Hlt) as (Hwf & Hkey & Hwin).
  { apply Forall_forall. intros k Hin. by apply Hhit. }
  set (new := merged_key key win hits) in *.
  assert (Hold : forall k, k <> new -> is_Some (lv (assignToWindow op ls key win v) !! k) ->
    is_Some (lv ls !! k) /\ session_hit key win k = false).
  { intros k Hne. rewrite Hl by done. destruct (session_hit key win k); [by intros [? ?]|done]. }
  assert (Hnewdis : forall k, k <> new -> is_Some (lv (assignToWindow op ls key win v) !! k) ->
    wkKey (parseWindowKey k) = key -> ~ overlap (keyWindow new) (keyWindow k)).
  { intros k Hne Hk Hkk. destruct (Hold k Hne Hk) as [Hlive Hmiss].
    destruct (hull_disjoint key win hits (keyWindow k)) as [?|Hbad]; [| | |done|by destruct (Hbad Hwin)].
    - apply key_wf_window, (sess_wf _ Hm), Hlive.
    - unfold session_hit in Hmiss. rewrite bool_decide_true in Hmiss by done. cbn [andb] in Hmiss.
      intros Ho. apply overlaps_overlap in Ho. congruence.
    - intros h [Hh1 Hh2]%Hhit. unfold session_hit in Hh2. apply andb_true_iff in Hh2 as [Hh2 Hh3].
      apply bool_decide_eq_true in Hh2. split; [by apply overlaps_overlap|].
      apply (sess_disjoint _ Hm); [done|done| |congruence]. intros ->.
      unfold session_hit in Hmiss. rewrite Hh3 in Hmiss. by rewrite bool_decide_true in Hmiss. }
  split.
  - intros k Hk. destruct (decide (k = new)) as [->|Hne]; [done|].
    apply (sess_wf _ Hm). by apply Hold.
  - intros k1 k2 H1 H2 Hne Hkk.
    destruct (decide (k1 = new)) as [->|Hn1]; [apply Hnewdis; congruence|].
    destruct (decide (k2 = new)) as [->|Hn2].
    + intros Ho. apply (Hnewdis k1); [done|done|congruence|]. unfold overlap in *. lia.
    + apply (sess_disjoint _ Hm); [by apply Hold|by apply Hold|done|done].
Qed.

(** Every entry of a session lies in it, with the gap after it. *)
Definition gap_ok (gap : Z) (m : gmap bytes (list bytes)) : Prop :=
  forall k es e, m !! k = Some es -> e ∈ es ->
    Start (keyWindow k) <= Timestamp (decodeRecord e) /\ Timestamp (decodeRecord e) + gap <= End (keyWindow k).

Lemma assign_session_gap op ls key win v gap :
  IsSession (wAssigner op) = true -> ls_ok ls -> key_good key ->
  int64 (Start win) -> int64 (End win) -> Start win < End win ->
  Timestamp (decodeRecord v) = Start win -> End win = Start win + gap ->
  sessions_ok (lv ls) -> gap_ok gap (lv ls) -> gap_ok gap (lv (assignToWindow op ls key win v)).
Proof.
  intros Hs Hok Hg Hs64 He64 Hlt Hv Hgap Hm Hin k es e Hk He.
  destruct (assign_session_spec op ls key win v Hs Hok Hg) as (_ & Hl & _).
  destruct (decide (k = merged_key key win (List.filter (session_hit key win) (ls_Keys ls)))) as [Ek|Hne].
  2: { rewrite Hl in Hk by done. destruct (session_hit key win k); [done|]. by apply (Hin k es). }
  clear Hl. rewrite assign_session_eq in Hk by done. cbv zeta in Hk.
  destruct (hits_drain ls key win Hok) as (Hok1 & Hl1 & _). cbv zeta in Hok1, Hl1.
  pose proof (λ k, hits_spec ls key win k Hok) as Hhit.
  set (hits := List.filter (session_hit key win) (ls_Keys ls)) in *. set (ls1 := foldl (λ ls k, ls_Clear (ls_SetKey k ls)) ls hits) in *.
  destruct (append_all_spec ((hits ≫= λ k, ls_GetAll (ls_SetKey k ls)) ++ [v])
    (ls_SetKey (merged_key key win hits) ls1) Hok1 (Hg _ _)) as (_ & _ & _ & H4 & _).
  change (ls_key (ls_SetKey (merged_key key win hits) ls1)) with (merged_key key win hits) in H4. rewrite <- Ek in H4.
  rewrite <- Ek in Hk. rewrite Hk in H4. cbn [default from_option id] in H4. subst es.
  destruct (merged_key_spec (lv ls) key win hits Hm Hs64 He64 Hlt) as (_ & _ & Hwin).
  { apply Forall_forall. intros k' Hk'. by apply Hhit. }
  destruct (hull_start_spec (Start win) hits) as (S1 & S2 & _). destruct (hull_end_spec (End win) hits) as (E1 & E2 & _).
  apply elem_of_app in He as [He|[He|He%list_elem_of_singleton]%elem_of_app].
  - change (lv (ls_SetKey k ls1)) with (lv ls1) in He. rewrite Hl1 in He.
    destruct (session_hit key win k); [by apply elem_of_nil in He|]. destruct (lv ls !! k) as [es|] eqn:E; [|by apply elem_of_nil in He].
    by apply (Hin k es).
  - apply list_elem_of_bind in He as (h & He & Hh). pose proof (proj1 (Hhit h) Hh) as [[es Hes] _].
    rewrite ls_getall_spec in He by (done || (apply (lv_good ls h Hok); by rewrite Hes)).
    change (lv (ls_SetKey h ls)) with (lv ls) in He. change (ls_key (ls_SetKey h ls)) with h in He. rewrite Hes in He.
    destruct (Hin h es e Hes He). rewrite Ek, Hwin. cbn [Start End]. specialize (S2 h Hh). specialize (E2 h Hh). lia.
  - subst e. rewrite Ek, Hwin, Hv. cbn [Start End]. lia.
Qed.

(** ** Whole runs *)

Definition win_ok s : Prop := ls_ok (recState s).
Definition buffer s : gmap bytes (list bytes) := lv (recState s).
(** The durable watermark's cell must be a key the backend can hold. *)
Definition wm_good : Prop := good windowWatermarkNS windowWatermarkK.

Lemma store_spec s : wm_good -> win_ok s ->
  win_ok (storeWatermark s) /\ buffer (storeWatermark s) = buffer s.
Proof.
  intros Hw [Hok Hn]. unfold win_ok, ls_ok, buffer, lv, storeWatermark. simpl. split.
  - split; [by apply ok_set|done].
  - by rewrite set_lview.
Qed.

(** The watermark after one watermark record. *)
Definition advance_wm (wm : Z) (r : Rec) : Z :=
  if After (Timestamp r) wm then Timestamp r else wm.

Lemma handleWatermark_spec op s r :
  wm_good -> win_ok s ->
  let res := handleWatermark op s r in
  let wm := advance_wm (currentWatermark s) r in
  win_ok res.1 /\ currentWatermark res.1 = wm /\
  (forall k, buffer res.1 !! k = if window_due wm k then None else buffer s !! k) /\
  exists keys, NoDup keys /\ (forall k, k ∈ keys <-> is_Some (buffer s !! k)) /\
    res.2 = fired_all op (fired_entries (window_due wm) (buffer s) keys).
Proof.
  intros Hw Hok. unfold handleWatermark.
  set (s1 := if After _ _ then _ else s).
  assert (H1 : win_ok s1 /\ buffer s1 = buffer s
    /\ currentWatermark s1 = advance_wm (currentWatermark s) r).
  { unfold s1, advance_wm. destruct (After _ _); [|done].
    destruct (store_spec (mkWinState (recState s) (Timestamp r)) Hw Hok). done. }
  destruct H1 as (Hok1 & Hb1 & Hc1).
  destruct (fire_keys_spec op (window_due (currentWatermark s1)) (recState s1) Hok1) as (H2 & H3 & H4).
  destruct (fire_keys op _ _ _) as [ls out]. cbn [fst snd] in *.
  rewrite Hc1 in *. split_and!; [done|done| |].
  - intros k. unfold buffer at 1. cbn [recState]. rewrite H3. by rewrite <- Hb1.
  - destruct (ls_keys_spec (recState s1) Hok1) as [Hnd Hk].
    exists (ls_Keys (recState s1)). rewrite <- Hb1. split_and!; [done|done|done].
Qed.

Lemma flush_spec op s :
  win_ok s ->
  let res := flushRemaining op s in
  win_ok res.1 /\ buffer res.1 = ∅ /\
  exists keys, NoDup keys /\ (forall k, k ∈ keys <-> is_Some (buffer s !! k)) /\
    res.2 = fired_all op (fired_entries (λ _, true) (buffer s) keys).
Proof.
  intros Hok. unfold flushRemaining.
  destruct (fire_keys_spec op (λ _, true) (recState s) Hok) as (H2 & H3 & H4).
  destruct (fire_keys op _ _ _) as [ls out]. cbn [fst snd] in *. split_and!; [done| |].
  - apply map_eq. intros k. rewrite lookup_empty. apply H3.
  - destruct (ls_keys_spec (recState s) Hok) as [Hnd Hk]. eauto.
Qed.

(** The data records that are not late: the reference for a run. *)
Fixpoint accepted (wm : Z) (inp : list Rec) : list Rec :=
  match inp with
  | [] => []
  | r :: inp =>
      if IsWatermark r then accepted (advance_wm wm r) inp
      else if IsBarrier r then accepted wm inp
      else if negb (IsZero wm) && Before (Timestamp r) wm then accepted wm inp
      else r :: accepted wm inp
  end.
Definition barriers (inp : list Rec) : list Rec :=
  List.filter (λ r, negb (IsWatermark r) && IsBarrier r) inp.

(** Where a record's entries are buffered when first assigned. *)
Definition assigned op (r : Rec) : list (bytes * bytes) :=
  (λ w, (wkString (toWindowKey (str (Key r)) w), encodeRecord r)) <$>
    AssignWindows (wAssigner op) (Timestamp r).

(** Conservation, through a projection [f] of the entries that the
    assignment preserves: the identity for fixed windows, the record bytes
    for sessions, whose keys change when they merge. *)
Section Conservation.
Context {X : Type} (f : bytes * bytes -> X) (op : WindowConfig B).
Hypothesis Hplain : Reducer op = None.
Hypothesis Hassign : forall ls r, ls_ok ls -> key_good (str (Key r)) ->
  ls_ok (handleDataRecord op ls r) /\
  (f <$> pairs (lv (handleDataRecord op ls r))) ≡ₚ (f <$> pairs (lv ls)) ++ (f <$> assigned op r).
Hypothesis Hwm : wm_good.

Lemma win_run_conserves inp s :
  win_ok s -> Forall (λ r, is_data r = true -> key_good (str (Key r))) inp ->
  let res := win_run op s inp in
  buffer res.1 = ∅ /\
  exists ps, res.2 ≡ₚ barriers inp ++ (emit_pair <$> ps) /\
    (f <$> ps) ≡ₚ (f <$> pairs (buffer s))
              ++ (accepted (currentWatermark s) inp ≫= λ r, f <$> assigned op r).
Proof.
  revert s. induction inp as [|r inp IH]; intros s Hok Hg; cbn [win_run win_step].
  - destruct (flush_spec op s Hok) as (H1 & H2 & keys & Hnd & Hk & Ho).
    destruct (flushRemaining op s) as [s' out]. cbn [fst snd] in *. split; [done|].
    exists (fired_entries (λ _, true) (buffer s) keys ≫= λ ke, pair ke.1 <$> ke.2).
    rewrite Ho, fired_all_plain by done. split; [done|]. rewrite app_nil_r.
    pose proof (fired_pairs (λ _, true) (buffer s) ∅ keys Hnd Hk) as Hp.
    rewrite pairs_empty, app_nil_r in Hp. rewrite Hp; [done|]. intros k. apply lookup_empty.
  - apply Forall_cons in Hg as [Hr Hg]. unfold barriers. cbn [accepted List.filter].
    destruct (IsWatermark r) eqn:Ew; cbn [negb andb].
    + destruct (handleWatermark_spec op s r Hwm Hok) as (H1 & H2 & H3 & keys & Hnd & Hk & Ho).
      destruct (handleWatermark op s r) as [s1 out]. cbn [fst snd] in *.
      destruct (IH s1 H1 Hg) as [He (ps & Hps & Hf)].
      destruct (win_run op s1 inp) as [s2 out2]. cbn [fst snd] in *. split; [done|].
      exists ((fired_entries (window_due (advance_wm (currentWatermark s) r)) (buffer s) keys
                ≫= λ ke, pair ke.1 <$> ke.2) ++ ps).
      rewrite Ho, fired_all_plain, Hps, fmap_app by done. split; [solve_Permutation|].
      rewrite H2 in Hf. rewrite fmap_app, Hf.
      rewrite (fired_pairs _ (buffer s) (buffer s1) keys Hnd Hk H3), fmap_app. solve_Permutation.
    + destruct (IsBarrier r) eqn:Eb.
      { destruct (IH s Hok Hg) as [He (ps & Hps & Hf)].
        destruct (win_run op s inp) as [s2 out2]. cbn [fst snd] in *. split; [done|].
        exists ps. split; [|done]. cbn [app]. by rewrite Hps. }
      destruct (negb _ && _).
      { destruct (IH s Hok Hg) as [He (ps & Hps & Hf)].
        destruct (win_run op s inp) as [s2 out2]. cbn [fst snd] in *. split; [done|]. eauto. }
      destruct (Hassign (recState s) r Hok) as [H1 H2];
        [apply Hr; unfold is_data, is_marker; by rewrite Ew, Eb|].
      destruct (IH (mkWinState (handleDataRecord op (recState s) r) (currentWatermark s)) H1 Hg)
        as [He (ps & Hps & Hf)].
      destruct (win_run op _ inp) as [s2 out2]. cbn [fst snd] in *. split; [done|].
      exists ps. split; [done|]. rewrite bind_cons, Hf. unfold buffer at 1. cbn [recState currentWatermark].
      rewrite H2. unfold buffer. by rewrite app_assoc.
Qed.

(** The same at any point of the run, with what is still buffered. *)
Lemma win_upto_conserves inp s :
  win_ok s -> Forall (λ r, is_data r = true -> key_good (str (Key r))) inp ->
  let res := win_upto op s inp in
  win_ok res.1 /\
  exists ps, res.2 ≡ₚ barriers inp ++ (emit_pair <$> ps) /\
    (f <$> ps) ++ (f <$> pairs (buffer res.1)) ≡ₚ (f <$> pairs (buffer s))
              ++ (accepted (currentWatermark s) inp ≫= λ r, f <$> assigned op r).
Proof.
  revert s. induction inp as [|r inp IH]; intros s Hok Hg; cbn [win_upto win_step].
  - split; [done|]. exists []. cbn. by rewrite app_nil_r.
  - apply Forall_cons in Hg as [Hr Hg]. unfold barriers. cbn [accepted List.filter].
    destruct (IsWatermark r) eqn:Ew; cbn [negb andb].
    + destruct (handleWatermark_spec op s r Hwm Hok) as (H1 & H2 & H3 & keys & Hnd & Hk & Ho).
      destruct (handleWatermark op s r) as [s1 out]. cbn [fst snd] in *.
      destruct (IH s1 H1 Hg) as [He (ps & Hps & Hf)].
      destruct (win_upto op s1 inp) as [s2 out2]. cbn [fst snd] in *. split; [done|].
      exists ((fired_entries (window_due (advance_wm (currentWatermark s) r)) (buffer s) keys
                ≫= λ ke, pair ke.1 <$> ke.2) ++ ps).
      rewrite Ho, fired_all_plain, Hps, fmap_app by done. split; [solve_Permutation|].
      rewrite H2 in Hf. rewrite fmap_app, <- app_assoc, Hf.
      rewrite (fired_pairs _ (buffer s) (buffer s1) keys Hnd Hk H3), fmap_app. solve_Permutation.
    + destruct (IsBarrier r) eqn:Eb.
      { destruct (IH s Hok Hg) as [He (ps & Hps & Hf)].
        destruct (win_upto op s inp) as [s2 out2]. cbn [fst snd] in *. split; [done|].
        exists ps. split; [|done]. cbn [app]. by rewrite Hps. }
      destruct (negb _ && _).
      { destruct (IH s Hok Hg) as [He (ps & Hps & Hf)].
        destruct (win_upto op s inp) as [s2 out2]. cbn [fst snd] in *. split; [done|]. eauto. }
      destruct (Hassign (recState s) r Hok) as [H1 H2];
        [apply Hr; unfold is_data, is_marker; by rewrite Ew, Eb|].
      destruct (IH (mkWinState (handleDataRecord op (recState s) r) (currentWatermark s)) H1 Hg)
        as [He (ps & Hps & Hf)].
      destruct (win_upto op _ inp) as [s2 out2]. cbn [fst snd] in *. split; [done|].
      exists ps. split; [done|]. rewrite bind_cons, Hf. unfold buffer at 1. cbn [recState currentWatermark].
      rewrite H2. unfold buffer. by rewrite app_assoc.
Qed.
End Conservation.

Lemma assign_fixed op ls r :
  IsSession (wAssigner op) = false -> ls_ok ls -> key_good (str (Key r)) ->
  ls_ok (handleDataRecord op ls r) /\
  pairs (lv (handleDataRecord op ls r)) ≡ₚ pairs (lv ls) ++ assigned op r.
Proof.
  intros Hs Hok Hg. unfold handleDataRecord, assigned. cbv zeta.
  generalize (AssignWindows (wAssigner op) (Timestamp r)) as ws. intros ws.
  revert ls Hok. induction ws as [|w ws IH]; intros ls Hok; cbn [foldl].
  - simpl. by rewrite app_nil_r.
  - destruct (assign_plain_spec op ls (str (Key r)) w (encodeRecord r) Hs Hok Hg) as [H1 H2].
    destruct (IH _ H1) as [H3 H4]. split; [done|]. rewrite H4, H2. simpl. by rewrite <- app_assoc.
Qed.

Lemma assign_any op ls r :
  ls_ok ls -> key_good (str (Key r)) ->
  ls_ok (handleDataRecord op ls r) /\
  (pairs (lv (handleDataRecord op ls r))).*2 ≡ₚ (pairs (lv ls)).*2 ++ (assigned op r).*2.
Proof.
  intros Hok Hg. destruct (IsSession (wAssigner op)) eqn:Hs.
  - destruct (wAssigner op) as [| |gap] eqn:Ha; try done.
    unfold handleDataRecord, assigned. rewrite Ha. cbn [AssignWindows foldl].
    destruct (assign_session_spec op ls (str (Key r)) (mkWin (Timestamp r) (Timestamp r + gap))
      (encodeRecord r)) as (H1 & _ & H2); [by rewrite Ha|done|done|]. done.
  - destruct (assign_fixed op ls r Hs Hok Hg) as [H1 H2]. split; [done|]. by rewrite H2, fmap_app.
Qed.
(** A watermark record moves the watermark forward only, fires exactly
    the buffered windows whose end is at or below it (each once, with all
    its entries) and leaves every other window untouched. *)
Theorem watermark_fires_due op s r :
  wm_good -> win_ok s ->
  let '(s', out) := handleWatermark op s r in
  currentWatermark s' = Z.max (currentWatermark s) (Timestamp r) /\
  (forall k, buffer s' !! k =
     if bool_decide (End (keyWindow k) <= currentWatermark s') then None else buffer s !! k) /\
  exists keys, NoDup keys /\
    (forall k, k ∈ keys <-> is_Some (buffer s !! k) /\ End (keyWindow k) <= currentWatermark s') /\
    out = keys ≫= λ k, fired op (keyWindow k) (default [] (buffer s !! k)).
Proof.
  intros Hw Hok. destruct (handleWatermark_spec op s r Hw Hok) as (_ & H2 & H3 & keys & Hnd & Hk & Ho).
  destruct (handleWatermark op s r) as [s' out]. cbn [fst snd] in *.
  assert (Hdue : forall k, window_due (advance_wm (currentWatermark s) r) k
    = bool_decide (End (keyWindow k) <= currentWatermark s')).
  { intros k. rewrite H2. unfold window_due, After. repeat case_bool_decide; first [done|lia]. }
  split_and!.
  - rewrite H2. unfold advance_wm, After. case_bool_decide; lia.
  - intros k. by rewrite H3, Hdue.
  - exists (List.filter (window_due (advance_wm (currentWatermark s) r)) keys). split_and!.
    + by apply NoDup_ListNoDup, List.NoDup_filter, NoDup_ListNoDup.
    + intros k. by rewrite list_elem_of_In, filter_In, <- list_elem_of_In, Hk, Hdue, bool_decide_eq_true.
    + rewrite Ho. unfold fired_all, fired_entries. by rewrite list_fmap_bind.
Qed.

End WindowProofs.
