(* ===== verification/WindowClaims.v ===== *)
(** * Package operator: what the Window operator guarantees

    The properties of the operator of [WindowOp], from the lemmas of
    [WindowProofs]: exactly-once delivery into windows, firing on watermarks,
    disjoint sessions, aggregation, the durable watermark and snapshots. *)
From S2P Require Import Prelude GoTime Types Window Watermark Json State Reduce WindowOp WindowProofs.

(** The text of a window key parses back to the key, whatever bytes
    (slashes included) the record key holds, for bounds that fit int64. *)
Theorem window_key_roundtrip (key : bytes) (start stop : Z) :
  int64 start -> int64 stop ->
  parseWindowKey (wkString (mkWK key start stop)) = mkWK key start stop.
Proof. intros H1 H2. apply parse_wkString. by split. Qed.

Lemma window_key_roundtrip_witness :
  parseWindowKey (wkString (mkWK (b "a/b//") 0 (5 * Second))) = mkWK (b "a/b//") 0 (5 * Second).
Proof. apply window_key_roundtrip; unfold int64, Second; lia. Defined.

(** A record as it comes back out of the buffer. *)
Definition buffered (r : Rec) : Rec := recordFromJSON (omitted (recordToJSON r)).

Lemma keyWindow_toWindowKey key w :
  int64 (Start w) -> int64 (End w) -> keyWindow (wkString (toWindowKey key w)) = w.
Proof.
  intros Hs He. destruct w as [s e]. unfold keyWindow, toWindowKey, UnixNano. cbn [Start End] in *.
  rewrite !wrap64_id by done. by rewrite parse_wkString.
Qed.

Section Claims.
Context `{JT : JSONText} {B : Type} `{SB : StateBackend B} `{SL : !StateLaws B}.
Implicit Types (s : WinState B) (op : WindowConfig B).

Lemma decode_encode r : utf8_headers (Headers r) -> decodeRecord (encodeRecord r) = buffered r.
Proof.
  intros Hh. unfold decodeRecord, decodeRecordJSON, encodeRecord, encodeRecordJSON, buffered.
  rewrite json_parse_print. by rewrite record_of_tree_of_record.
Qed.

(** The inputs the operator can carry faithfully: a key the backend can
    hold, UTF-8 header names, windows whose bounds fit int64. *)
Definition carries op (r : Rec) : Prop :=
  is_data r = true -> key_good (str (Key r)) /\ utf8_headers (Headers r) /\
  Forall (λ w, int64 (Start w) /\ int64 (End w)) (AssignWindows (wAssigner op) (Timestamp r)).

Lemma carries_good op inp : Forall (carries op) inp -> Forall (λ r, is_data r = true -> key_good (str (Key r))) inp.
Proof. intros H. eapply Forall_impl; [exact H|]. intros r Hr Hd. by apply Hr. Qed.

Lemma accepted_subset wm inp (P : Rec -> Prop) : Forall P inp -> Forall (λ r, is_data r = true /\ P r) (accepted wm inp).
Proof.
  revert wm. induction inp as [|r inp IH]; intros wm H; [done|]. apply Forall_cons in H as [Hr H].
  cbn [accepted]. destruct (IsWatermark r) eqn:Ew; [auto|]. destruct (IsBarrier r) eqn:Eb; [auto|].
  destruct (_ && _); [auto|]. constructor; [|auto]. split; [|done]. unfold is_data, is_marker. by rewrite Ew, Eb.
Qed.

Lemma emit_assigned op r :
  is_data r = true /\ carries op r ->
  emit_pair <$> assigned op r
  = tagWithWindow (buffered r) <$> AssignWindows (wAssigner op) (Timestamp r).
Proof.
  intros [Hd Hc]. destruct (Hc Hd) as (_ & Hh & Hw). unfold assigned. rewrite <- list_fmap_compose. apply list_fmap_ext.
  intros i w Hi. unfold compose, emit_pair. cbn [fst snd]. rewrite decode_encode by done.
  rewrite Forall_lookup in Hw. destruct (Hw i w Hi). by rewrite keyWindow_toWindowKey.
Qed.

Lemma bind_ext_Forall {A C} (f g : A -> list C) (P : A -> Prop) l :
  (forall x, P x -> f x = g x) -> Forall P l -> l ≫= f = l ≫= g.
Proof. intros H. induction 1 as [|x l Hx _ IH]; [done|]. by rewrite !bind_cons, IH, H. Qed.

Lemma fmap_bind {A C D} (f : C -> D) (g : A -> list C) l : f <$> (l ≫= g) = l ≫= λ x, f <$> g x.
Proof. induction l as [|x l IH]; [done|]. by rewrite !bind_cons, fmap_app, IH. Qed.


(** The records waiting in the buffer. *)
Definition held s : list Rec := decodeRecord <$> (pairs (buffer s)).*2.

(** Firing a list of buffered entries, as the records and their windows. *)
Definition unpack (ps : list (bytes * bytes)) : list (Rec * Window) :=
  (λ kv, (decodeRecord kv.2, keyWindow kv.1)) <$> ps.

Lemma unpack_emits ps : uncurry tagWithWindow <$> unpack ps = emit_pair <$> ps.
Proof. unfold unpack. by rewrite <- list_fmap_compose. Qed.
Lemma unpack_records ps : (unpack ps).*1 = decodeRecord <$> ps.*2.
Proof. unfold unpack. by rewrite <- !list_fmap_compose. Qed.

Lemma assigned_records op wm inp :
  Forall (carries op) inp ->
  decodeRecord <$> (accepted wm inp ≫= λ r, (assigned op r).*2)
  = accepted wm inp ≫= λ r, (λ _, buffered r) <$> AssignWindows (wAssigner op) (Timestamp r).
Proof.
  intros Hc. rewrite fmap_bind. eapply bind_ext_Forall; [|by apply accepted_subset].
  intros r [Hd Hc']. destruct (Hc' Hd) as (_ & Hh & _). cbn beta. unfold assigned. rewrite <- !list_fmap_compose.
  apply list_fmap_ext. intros i w _. unfold compose. cbn [fst snd]. by apply decode_encode.
Qed.

(** C30: a window operator without a reducer loses and invents nothing, for
    any assigner, sessions included.  At every point of a run, from any
    buffer, over inputs the operator can carry, what has been sent is the
    barriers plus tagged records, and those records together with the ones
    still buffered are, up to order, the ones buffered at the start plus each
    accepted (not late) record once per assigned window (once, for
    sessions).  When the input closes, the buffer is emptied downstream: the
    records sent are then all of them. *)
Theorem windows_lose_nothing op s inp :
  Reducer op = None -> wm_good -> win_ok s -> Forall (carries op) inp ->
  let entered := accepted (currentWatermark s) inp ≫= λ r,
      (λ _, buffered r) <$> AssignWindows (wAssigner op) (Timestamp r) in
  (let '(s1, out) := win_upto op s inp in
   exists tagged : list (Rec * Window),
     out ≡ₚ barriers inp ++ (uncurry tagWithWindow <$> tagged) /\
     tagged.*1 ++ held s1 ≡ₚ held s ++ entered) /\
  (let '(s2, out) := win_run op s inp in
   buffer s2 = ∅ /\ exists tagged : list (Rec * Window),
     out ≡ₚ barriers inp ++ (uncurry tagWithWindow <$> tagged) /\
     tagged.*1 ≡ₚ held s ++ entered).
Proof.
  intros Hr Hw Hok Hc entered.
  pose proof (λ ls r, assign_any op ls r) as Ha. split.
  - destruct (win_upto_conserves snd op Hr Ha Hw inp s Hok (carries_good op inp Hc)) as [_ (ps & H2 & H3)].
    destruct (win_upto op s inp) as [s1 out]. cbn [fst snd] in *. exists (unpack ps).
    rewrite unpack_emits, unpack_records. split; [exact H2|]. unfold held, entered.
    rewrite <- (assigned_records op (currentWatermark s) inp Hc). apply (fmap_Permutation decodeRecord) in H3. by rewrite !fmap_app in H3.
  - destruct (win_run_conserves snd op Hr Ha Hw inp s Hok (carries_good op inp Hc)) as [H1 (ps & H2 & H3)].
    destruct (win_run op s inp) as [s2 out]. cbn [fst snd] in *. split; [exact H1|]. exists (unpack ps).
    rewrite unpack_emits, unpack_records. split; [exact H2|]. unfold held, entered.
    rewrite <- (assigned_records op (currentWatermark s) inp Hc). apply (fmap_Permutation decodeRecord) in H3. by rewrite fmap_app in H3.
Qed.

(** ** Sessions over a run *)

Lemma sessions_ok_shrink (m m' : gmap bytes (list bytes)) :
  (forall k, is_Some (m' !! k) -> is_Some (m !! k)) -> sessions_ok m -> sessions_ok m'.
Proof. intros Hsub [H1 H2]. split; [auto|]. intros k1 k2 Hk1 Hk2. apply H2; auto. Qed.

Lemma sessions_ok_empty : sessions_ok ∅.
Proof. split; [intros k [? H]|intros k1 k2 [? H]]; by rewrite lookup_empty in H. Qed.

Lemma buffered_timestamp r : int64 (Timestamp r) -> Timestamp (buffered r) = Timestamp r.
Proof. intros H. destruct r as [[[|? ?]|] [[|? ?]|] ? ? ? ? ? ? ? ?]; cbn; unfold Unix0, UnixNano; by apply wrap64_id. Qed.

(** The invariant of the session buffer: the sessions of a key are apart, and
    each holds its records with the gap after them. *)
Definition session_inv (gap : Z) (m : gmap bytes (list bytes)) : Prop := sessions_ok m /\ gap_ok gap m.

Lemma session_data_inv op s r :
  IsSession (wAssigner op) = true -> 0 < WindowSize (wAssigner op) -> win_ok s ->
  is_data r = true -> carries op r -> session_inv (WindowSize (wAssigner op)) (buffer s) ->
  session_inv (WindowSize (wAssigner op)) (lv (handleDataRecord op (recState s) r)).
Proof.
  intros Hs Hgap Hok Hd Hc [Hm Hg']. destruct (Hc Hd) as (Hg & Hh & Hw). destruct (wAssigner op) as [| |gap] eqn:Ha; try done.
  unfold handleDataRecord. rewrite Ha. cbn [AssignWindows foldl WindowSize] in *.
  apply Forall_singleton in Hw as [Hw1 Hw2]. cbn [Start End] in *. split.
  - apply assign_session_inv; try done; [by rewrite Ha|]. simpl. lia.
  - apply assign_session_gap; try done; [by rewrite Ha|simpl; lia|].
    cbn [Start]. rewrite decode_encode by done. by apply buffered_timestamp.
Qed.

Lemma session_step_inv op s r :
  IsSession (wAssigner op) = true -> 0 < WindowSize (wAssigner op) -> wm_good -> win_ok s ->
  carries op r -> session_inv (WindowSize (wAssigner op)) (buffer s) ->
  let s' := (win_step op s (WinRecord r)).1.1.1 in
  win_ok s' /\ session_inv (WindowSize (wAssigner op)) (buffer s').
Proof.
  intros Hs Hgap Hw Hok Hc [Hm Hg]. cbn [win_step]. destruct (IsWatermark r) eqn:Ew.
  - destruct (handleWatermark_spec op s r Hw Hok) as (H1 & _ & H3 & _).
    destruct (handleWatermark op s r) as [s1 out]. cbn [fst snd] in *. split; [done|]. split.
    + eapply sessions_ok_shrink; [|exact Hm]. intros k. rewrite H3. by destruct (window_due _ k); [intros [? ?]|].
    + intros k es e. rewrite H3. destruct (window_due _ k); [done|]. apply Hg.
  - destruct (IsBarrier r) eqn:Eb; [done|]. destruct (negb _ && _); [done|].
    assert (Hd : is_data r = true) by (unfold is_data, is_marker; by rewrite Ew, Eb). split.
    + apply assign_any; [done|]. by apply Hc.
    + by apply session_data_inv.
Qed.

Lemma session_run_inv op s inp :
  IsSession (wAssigner op) = true -> 0 < WindowSize (wAssigner op) -> wm_good -> win_ok s ->
  Forall (carries op) inp -> session_inv (WindowSize (wAssigner op)) (buffer s) ->
  session_inv (WindowSize (wAssigner op)) (buffer (win_upto op s inp).1).
Proof.
  intros Hs Hgap Hw Hok Hc. revert s Hok. induction Hc as [|r inp Hr _ IH]; intros s Hok Hm; [done|].
  destruct (session_step_inv op s r Hs Hgap Hw Hok Hr Hm) as [H1 H2]. cbn [win_upto].
  destruct (win_step op s (WinRecord r)) as [[[s' out] ?] ?]. cbn [fst snd] in *.
  specialize (IH s' H1 H2). by destruct (win_upto op s' inp).
Qed.

(** C34: at every point of a run of a session-window operator with a
    positive gap, started on an empty buffer, over inputs it can carry: the
    live sessions of one key are non-empty intervals that do not overlap
    (they may touch), each record lies in its session with the whole gap
    after it, and so two records in different live sessions of one key are
    at least the gap apart in event time: a record closer than the gap to
    several sessions has merged all of them. *)
Theorem sessions_stay_disjoint op s inp :
  IsSession (wAssigner op) = true -> 0 < WindowSize (wAssigner op) -> wm_good ->
  win_ok s -> buffer s = ∅ -> Forall (carries op) inp ->
  let gap := WindowSize (wAssigner op) in
  let m := buffer (win_upto op s inp).1 in
  (forall k es e, m !! k = Some es -> e ∈ es ->
     Start (keyWindow k) <= Timestamp (decodeRecord e) /\ Timestamp (decodeRecord e) + gap <= End (keyWindow k)) /\
  (forall k1 k2 es1 es2, m !! k1 = Some es1 -> m !! k2 = Some es2 -> k1 <> k2 ->
     wkKey (parseWindowKey k1) = wkKey (parseWindowKey k2) ->
     (End (keyWindow k1) <= Start (keyWindow k2) \/ End (keyWindow k2) <= Start (keyWindow k1)) /\
     forall e1 e2, e1 ∈ es1 -> e2 ∈ es2 ->
       gap <= Z.abs (Timestamp (decodeRecord e1) - Timestamp (decodeRecord e2))).
Proof.
  intros Hs Hgap Hw Hok He Hc gap m.
  destruct (session_run_inv op s inp Hs Hgap Hw Hok Hc) as [Hm Hg].
  { rewrite He. split; [apply sessions_ok_empty|]. intros k es e H. by rewrite lookup_empty in H. }
  fold m gap in Hm, Hg. split; [exact Hg|]. intros k1 k2 es1 es2 H1 H2 Hne Hk.
  assert (L1 : is_Some (m !! k1)) by eauto. assert (L2 : is_Some (m !! k2)) by eauto.
  pose proof (sess_disjoint m Hm k1 k2 L1 L2 Hne Hk) as Hd.
  destruct (key_wf_window k1 (sess_wf m Hm k1 L1)) as (_ & _ & W1).
  destruct (key_wf_window k2 (sess_wf m Hm k2 L2)) as (_ & _ & W2).
  unfold overlap in Hd. split; [lia|]. intros e1 e2 E1 E2.
  pose proof (Hg k1 es1 e1 H1 E1). pose proof (Hg k2 es2 e2 H2 E2). lia.
Qed.

(** ** Aggregation *)

Lemma last_cons_default {A} (l : list A) x d : List.last l x = List.last (x :: l) d.
Proof. revert x d. induction l as [|y l IH]; intros x d; [done|]. cbn [List.last]. destruct l; [done|]. apply (IH x d). Qed.

Lemma reduce_entries_fold (f : slice -> Rec -> slice) (rs : list Rec) (acc : slice) (last : Rec) :
  Forall (λ r, utf8_headers (Headers r)) rs ->
  foldl (λ '(accum, _) rb, let last := decodeRecord rb in (f accum last, last)) (acc, last)
    (encodeRecord <$> rs)
  = (foldl f acc (buffered <$> rs), List.last (buffered <$> rs) last).
Proof.
  intros Hh. revert acc last. induction Hh as [|r rs Hr _ IH]; intros acc last; [done|].
  cbn [fmap list_fmap foldl]. rewrite IH, decode_encode by done. f_equal.
  by apply last_cons_default.
Qed.

(** Firing a window of an operator with a reducer emits one record: the
    reducer folded over all the window's records in arrival order, carrying
    the last record's key and timestamp and the window's bounds; and the
    window's buffer is cleared, no other. *)
Theorem window_aggregate op f ls k rs r :
  Reducer op = Some f -> ls_ok ls -> lv ls !! k = Some (encodeRecord <$> (rs ++ [r])) ->
  Forall (λ r, utf8_headers (Headers r)) (rs ++ [r]) ->
  let '(ls', out) := fireWindow op ls k in
  lv ls' = delete k (lv ls) /\
  out = [tagWithWindow (mkRec (Key (buffered r)) (foldl f None (buffered <$> rs ++ [r]))
           (Timestamp (buffered r)) (Offset r) 0 (Headers r) AnyNil false false []) (keyWindow k)].
Proof.
  intros Hf Hok Hk Hh. assert (Hg : good NS k) by (apply (lv_good ls k Hok); by rewrite Hk).
  unfold fireWindow. destruct (ls_clear_spec (ls_SetKey k ls) Hok Hg) as [_ H2]. split; [exact H2|].
  rewrite ls_getall_spec by done. change (lv (ls_SetKey k ls)) with (lv ls).
  change (ls_key (ls_SetKey k ls)) with k. rewrite Hk. cbn [default from_option id].
  unfold fired. rewrite Hf. 
  assert (E : reduce_entries f (encodeRecord <$> rs ++ [r]) = _)
    by exact (reduce_entries_fold f (rs ++ [r]) None zeroRec Hh).
  rewrite E. clear E.
  destruct (encodeRecord <$> rs ++ [r]) eqn:E; [by destruct rs|].
  replace (List.last (buffered <$> rs ++ [r]) zeroRec) with (buffered r); [done|].
  rewrite fmap_app. cbn [fmap list_fmap]. by rewrite last_last.
Qed.

(** ** The durable watermark *)

Lemma fire_keys_vview op p ks ls out ns :
  ls_ok ls -> Forall (good NS) ks ->
  vview ns (ls_backend (foldl (fire_one op p) (ls, out) ks).1) = vview ns (ls_backend ls).
Proof.
  revert ls out. induction ks as [|k ks IH]; intros ls out Hok Hg; [done|].
  apply Forall_cons in Hg as [Hk Hg]. cbn [foldl].
  assert (E : fire_one op p (ls, out) k = if p k
      then (ls_Clear (ls_SetKey k ls), out ++ fired op (keyWindow k) (ls_GetAll (ls_SetKey k ls)))
      else (ls, out)) by done.
  rewrite E. clear E. destruct (p k); [|by apply IH].
  destruct (ls_clear_spec (ls_SetKey k ls) Hok Hk) as [H1 _]. rewrite IH by done.
  cbn. destruct Hok as [Hok Hn]. rewrite Hn. by apply lclear_vview.
Qed.

Lemma store_load s :
  wm_good -> win_ok s ->
  vview windowWatermarkNS (ls_backend (recState (storeWatermark s))) !! windowWatermarkK
  = Some (PutUint64 (UnixNano (currentWatermark s))).
Proof.
  intros Hw [Hok _]. unfold storeWatermark. cbn [recState ls_backend].
  rewrite set_view, decide_True by done. by rewrite lookup_insert_eq.
Qed.

Lemma load_put backend z :
  ok backend -> wm_good ->
  vview windowWatermarkNS backend !! windowWatermarkK = Some (PutUint64 (UnixNano z)) ->
  loadWatermark backend = wrap64 z.
Proof.
  intros Hok Hw E. unfold loadWatermark. rewrite get_view, E by done. cbn [str].
  rewrite decide_True by apply PutUint64_length.
  rewrite Uint64_PutUint64, wrap64_wrapU. unfold Unix0, UnixNano.
  by rewrite (wrap64_id (wrap64 z)) by apply wrap64_range.
Qed.

Lemma handleWatermark_vview op s r :
  wm_good -> win_ok s -> currentWatermark s < Timestamp r ->
  let s' := (handleWatermark op s r).1 in
  ok (ls_backend (recState s')) /\
  vview windowWatermarkNS (ls_backend (recState s')) !! windowWatermarkK
  = Some (PutUint64 (UnixNano (Timestamp r))).
Proof.
  intros Hw Hok Hlt s'. split; [apply (handleWatermark_spec op s r Hw Hok)|].
  assert (Ha : After (Timestamp r) (currentWatermark s) = true)
    by (unfold After; by apply bool_decide_eq_true).
  unfold s', handleWatermark. rewrite Ha. clear Ha.
  set (s1 := storeWatermark _).
  destruct (store_spec (mkWinState (recState s) (Timestamp r)) Hw Hok) as [H1 _]. fold s1 in H1.
  pose proof (fire_keys_vview op (window_due (currentWatermark s1)) (ls_Keys (recState s1))
    (recState s1) [] windowWatermarkNS H1) as Hv.
  unfold fire_keys. destruct (foldl _ _ _) as [ls out]. cbn [fst recState] in *. rewrite Hv.
  - by apply store_load.
  - apply Forall_forall. intros k Hin. apply (lv_good _ _ H1). by apply ls_keys_spec.
Qed.

(** The watermark is durable.  After a watermark record that advances
    it, an operator opened on the same backend starts from that watermark,
    for every watermark that fits int64 nanoseconds. *)
Theorem watermark_survives_reopen op s r :
  wm_good -> win_ok s -> currentWatermark s < Timestamp r -> int64 (Timestamp r) ->
  let '(s', _) := handleWatermark op s r in
  currentWatermark (win_open (ls_backend (recState s'))) = currentWatermark s'.
Proof.
  intros Hw Hok Hlt H64. destruct (handleWatermark_vview op s r Hw Hok Hlt) as [H1 H2].
  destruct (handleWatermark_spec op s r Hw Hok) as (_ & H3 & _).
  destruct (handleWatermark op s r) as [s' out]. cbn [fst snd] in *.
  cbn [win_open currentWatermark]. rewrite (load_put _ (Timestamp r) H1 Hw H2), wrap64_id, H3 by done.
  unfold advance_wm, After. by rewrite bool_decide_true by lia.
Qed.

(** ** Snapshots *)

Lemma tree_omitted r : tree_of_record (omitted r) = tree_of_record r.
Proof. by destruct r as [[[|? ?]|] [[|? ?]|] ? ? ?]. Qed.

Lemma decodeJSON_encode r :
  utf8_headers (Headers r) -> decodeRecordJSON (encodeRecord r) = omitted (recordToJSON r).
Proof.
  intros Hh. unfold decodeRecordJSON, encodeRecord, encodeRecordJSON.
  rewrite json_parse_print. by apply record_of_tree_of_record.
Qed.

(** What the operator itself puts in its buffer. *)
Definition own_entries (es : list bytes) : Prop :=
  exists rs, es = encodeRecord <$> rs /\ Forall (λ r, utf8_headers (Headers r)) rs.

(** An entry list decoded into a snapshot and encoded back is unchanged. *)
Lemma entries_roundtrip w es :
  own_entries es ->
  encodeRecordJSON <$> records_of_tree (tree_of_window w (decodeRecordJSON <$> es)) = es.
Proof.
  intros (rs & -> & Hh). unfold records_of_tree, tree_of_window.
  rewrite jfield_skip by done. rewrite jfield_here. rewrite <- !list_fmap_compose.
  apply list_fmap_ext. intros i r Hi. rewrite Forall_lookup in Hh. unfold compose.
  rewrite decodeJSON_encode, record_of_tree_of_record by (by apply (Hh i)).
  unfold encodeRecord, encodeRecordJSON. by rewrite !tree_omitted.
Qed.

Lemma restore_all_spec (ws : list (bytes * json)) ls :
  ls_ok ls -> NoDup ws.*1 -> Forall (good NS) ws.*1 ->
  let ls' := foldl (λ ls (kw : bytes * json),
    foldl (λ ls r, ls_Append (encodeRecordJSON r) ls) (ls_SetKey kw.1 ls) (records_of_tree kw.2)) ls ws in
  ls_ok ls' /\ forall k, default [] (lv ls' !! k) = default [] (lv ls !! k) ++
    default [] ((λ j, encodeRecordJSON <$> records_of_tree j) <$> (list_to_map ws : gmap bytes json) !! k).
Proof.
  revert ls. induction ws as [|[k j] ws IH]; intros ls Hok Hnd Hg; cbn [foldl].
  - split; [done|]. intros k. by rewrite app_nil_r.
  - cbn [fmap list_fmap fst] in *. apply NoDup_cons in Hnd as [Hni Hnd]. apply Forall_cons in Hg as [Hk Hg].
    cbn [fst snd]. rewrite <- (foldl_fmap (λ ls r, ls_Append r ls) _ _ encodeRecordJSON).
    destruct (append_all_spec (encodeRecordJSON <$> records_of_tree j) (ls_SetKey k ls) Hok Hk)
      as (H1 & _ & H3 & H4 & _).
    destruct (IH _ H1 Hnd Hg) as [H5 H6]. split; [done|]. intros k'. rewrite H6.
    cbn [list_to_map foldr uncurry]. destruct (decide (k' = k)) as [->|Hne].
    + change (ls_key (ls_SetKey k ls)) with k in *. rewrite H4.
      rewrite (not_elem_of_list_to_map_1 ws k) by done. cbn. rewrite lookup_insert_eq. cbn. by rewrite app_nil_r.
    + rewrite H3 by done. cbn. by rewrite lookup_insert_ne.
Qed.

Definition snapshot_windows (ls : ListState B) : gmap bytes json :=
  list_to_map ((λ keyStr, (keyStr, tree_of_window (keyWindow keyStr)
    (decodeRecordJSON <$> ls_GetAll (ls_SetKey keyStr ls)))) <$> ls_Keys ls).

Lemma snapshot_windows_spec ls k :
  ls_ok ls -> snapshot_windows ls !! k
  = (λ es, tree_of_window (keyWindow k) (decodeRecordJSON <$> es)) <$> (lv ls !! k).
Proof.
  intros Hok. destruct (ls_keys_spec ls Hok) as [Hnd Hk]. unfold snapshot_windows.
  destruct (lv ls !! k) as [es|] eqn:E; cbn [fmap option_fmap option_map].
  - apply elem_of_list_to_map_1.
    + rewrite <- list_fmap_compose. by rewrite list_fmap_id.
    + apply list_elem_of_fmap. exists k. split; [|by apply Hk].
      rewrite ls_getall_spec by (done || (apply (lv_good ls k Hok); by rewrite E)).
      change (lv (ls_SetKey k ls)) with (lv ls). change (ls_key (ls_SetKey k ls)) with k. by rewrite E.
  - apply not_elem_of_list_to_map_1. rewrite <- list_fmap_compose, list_fmap_id.
    intros Hin. apply Hk in Hin as [? ?]. congruence.
Qed.

Lemma buffer_ext (m1 m2 : gmap bytes (list bytes)) :
  (forall k, m1 !! k <> Some []) -> (forall k, m2 !! k <> Some []) ->
  (forall k, default [] (m1 !! k) = default [] (m2 !! k)) -> m1 = m2.
Proof.
  intros H1 H2 H. apply map_eq. intros k. specialize (H k). specialize (H1 k). specialize (H2 k).
  destruct (m1 !! k), (m2 !! k); cbn in H; congruence.
Qed.

Lemma lv_nonempty ls k : ls_ok ls -> lv ls !! k <> Some [].
Proof. intros [Hok _]. by apply lview_nonempty. Qed.

(** Restoring a snapshot into any operator state (whose old contents are
    discarded) gives back the snapshot's watermark and exactly its buffered
    windows, entry for entry, when window keys are valid UTF-8 and the
    watermark fits int64. *)
Theorem window_snapshot_roundtrip s s0 :
  wm_good -> win_ok s -> win_ok s0 -> int64 (currentWatermark s) ->
  (forall k es, buffer s !! k = Some es -> utf8_valid k /\ own_entries es) ->
  exists data s', win_Snapshot s = Ok data /\ win_Restore data s0 = Ok s' /\
    win_ok s' /\ currentWatermark s' = currentWatermark s /\ buffer s' = buffer s.
Proof.
  intros Hw Hok Hok0 H64 Hown. eexists. eexists. split; [reflexivity|].
  unfold win_Restore. rewrite json_parse_print, jfield_here. rewrite jfield_skip by done. rewrite jfield_here.
  cbn [jint]. unfold Unix0, UnixNano. rewrite wrap64_id by done. fold (snapshot_windows (recState s)).
  rewrite unmarshal_marshal_map;
    [|done|intros k [j Hj]; rewrite snapshot_windows_spec in Hj by done;
      apply fmap_Some in Hj as (es & Hes & _); by apply (Hown k es)].
  split; [reflexivity|].
  set (s1 := storeWatermark _). cbn [recState currentWatermark].
  destruct (store_spec (mkWinState (recState s0) (currentWatermark s)) Hw Hok0) as [H1 _].
  destruct (ls_keys_spec (recState s1) H1) as [_ Hks].
  destruct (clear_keys_spec (ls_Keys (recState s1)) (recState s1) H1) as [H2 H3].
  { apply Forall_forall. intros k Hin. apply (lv_good _ k H1). by apply Hks. }
  set (ws := map_to_list (snapshot_windows (recState s))).
  destruct (restore_all_spec ws (foldl (λ ls k, ls_Clear (ls_SetKey k ls)) (recState s1)
    (ls_Keys (recState s1))) H2) as [H4 H5].
  { apply NoDup_fst_map_to_list. }
  { apply Forall_forall. intros k Hin. apply map_keys_spec in Hin as [j Hj].
    rewrite snapshot_windows_spec in Hj by done. apply fmap_Some in Hj as (es & Hes & _).
    apply (lv_good _ k Hok). unfold lv, buffer, lv in *. by rewrite Hes. }
  split_and!; [exact H4|done|]. unfold buffer. cbn [recState].
  apply buffer_ext; [intros k; by apply lv_nonempty|intros k; by apply lv_nonempty|].
  intros k. rewrite H5, H3. unfold ws. rewrite list_to_map_to_list, snapshot_windows_spec by done.
  assert (Hnone : (if decide (k ∈ ls_Keys (recState s1)) then None else lv (recState s1) !! k) = None).
  { case_decide as Hin; [done|]. apply eq_None_not_Some. by rewrite <- Hks. }
  rewrite Hnone. cbn [default from_option app].
  destruct (lv (recState s) !! k) as [es|] eqn:E; [|done]. cbn.
  apply entries_roundtrip. by apply (Hown k).
Qed.
End Claims.

Lemma mem_wm_good : wm_good (B := MemoryBackend).
Proof. exact I. Qed.
Lemma open_ok : win_ok (win_open NewMemoryBackend).
Proof. split; [apply mem_ok_new|done]. Qed.

(** The end-of-stream watermark (year 9999) does not survive: its
    nanoseconds wrap at 64 bits, so an operator reopened on the backend, or
    restored from the snapshot, starts from a watermark before 1970. *)
Theorem max_watermark_wraps `{JT : JSONText} (op : WindowConfig MemoryBackend) :
  let s := win_open NewMemoryBackend in
  let s' := (handleWatermark op s (NewWatermark maxWatermarkTime)).1 in
  currentWatermark s' = maxWatermarkTime /\
  currentWatermark (win_open (ls_backend (recState s'))) = -4883652231933722624.
Proof.
  intros s s'.
  assert (Hlt : currentWatermark s < Timestamp (NewWatermark maxWatermarkTime)) by (vm_compute; reflexivity).
  destruct (handleWatermark_vview op s (NewWatermark maxWatermarkTime) mem_wm_good open_ok Hlt) as [H1 H2].
  split; [vm_compute; reflexivity|].
  etransitivity; [exact (load_put _ _ H1 mem_wm_good H2)|]. vm_compute. reflexivity.
Qed.

(** ** Witnesses *)

Definition plainOp (a : Assigner) : WindowConfig MemoryBackend := mkWinCfg a None false None.
Definition tickStream : list Rec :=
  [keyed "a" 1; keyed "b" 7; NewBarrier (b "1"); NewWatermark 6; keyed "a" 2; keyed "a" 9].

Lemma keyed_utf8 k ts : utf8_headers (Headers (keyed k ts)).
Proof. intros h [? H]. change (Headers (keyed k ts)) with (∅ : gmap bytes slice) in H. by rewrite lookup_empty in H. Qed.

Definition fits (a : Assigner) (r : Rec) : bool :=
  is_marker r || forallb (λ w, (- 2^63 <=? Start w) && (Start w <? 2^63) && (- 2^63 <=? End w)
    && (End w <? 2^63)) (AssignWindows a (Timestamp r)).

Lemma carries_by a inp :
  forallb (fits a) inp = true -> Forall (λ r, Headers r = ∅) inp -> Forall (carries (plainOp a)) inp.
Proof.
  intros H HH. rewrite Forall_forall in HH. apply Forall_forall. intros r Hin Hd. pose proof (HH r Hin) as Hh.
  apply list_elem_of_In in Hin.
  pose proof (proj1 (forallb_forall _ _) H r Hin) as Hf. unfold fits in Hf. unfold is_data in Hd.
  destruct (is_marker r); [done|]. cbn [orb] in Hf. split_and!; [done| |].
  - rewrite Hh. intros k [? Hk]. by rewrite lookup_empty in Hk.
  - apply Forall_forall. intros w Hw%list_elem_of_In.
    apply (proj1 (forallb_forall _ _) Hf) in Hw. unfold int64. lia.
Qed.

Lemma tickStream_carries a : forallb (fits a) tickStream = true -> Forall (carries (plainOp a)) tickStream.
Proof. intros H. apply carries_by; [done|]. by repeat constructor. Qed.


(** Sessions with gap 5: [a] opens, [b] opens, the watermark fires nothing,
    the late [a] at 2 is dropped, and the third [a] opens a second session. *)
Lemma windows_lose_nothing_witness :
  (let '(s1, out) := win_upto (plainOp (NewSession 5)) (win_open NewMemoryBackend) tickStream in
   length out + length (held s1) = 4)%nat /\
  (let '(s2, out) := win_run (plainOp (NewSession 5)) (win_open NewMemoryBackend) tickStream in
   buffer s2 = ∅ /\ length out = 4%nat).
Proof.
  destruct (windows_lose_nothing (plainOp (NewSession 5)) (win_open NewMemoryBackend) tickStream
    eq_refl mem_wm_good open_ok (tickStream_carries (NewSession 5) ltac:(vm_compute; reflexivity))) as [H K]. split.
  - destruct (win_upto _ _ _) as [s1 out]. destruct H as (tagged & H2 & H3). rewrite H2.
    apply Permutation_length in H3. rewrite length_app, length_fmap in H3.
    rewrite length_app, length_fmap, <- Nat.add_assoc, H3. vm_compute. reflexivity.
  - destruct (win_run _ _ _) as [s2 out]. destruct K as [H1 (tagged & H2 & H3)]. split; [exact H1|].
    rewrite H2. apply Permutation_length in H3. rewrite length_fmap in H3.
    rewrite length_app, length_fmap, H3. vm_compute. reflexivity.
Defined.

(** Two records of [a], 8 apart, with gap 5: two live sessions. *)
Definition apartStream : list Rec := [keyed "a" 1; keyed "b" 7; keyed "a" 9].
Lemma sessions_stay_disjoint_witness :
  let m := buffer (win_upto (plainOp (NewSession 5)) (win_open NewMemoryBackend) apartStream).1 in
  exists es1 es2, m !! wkString (mkWK (b "a") 1 6) = Some es1 /\ m !! wkString (mkWK (b "a") 9 14) = Some es2 /\
    es1 <> [] /\ es2 <> [] /\ forall e1 e2, e1 ∈ es1 -> e2 ∈ es2 ->
      5 <= Z.abs (Timestamp (decodeRecord e1) - Timestamp (decodeRecord e2)).
Proof.
  intros m. pose proof (sessions_stay_disjoint (plainOp (NewSession 5)) (win_open NewMemoryBackend) apartStream
    eq_refl eq_refl mem_wm_good open_ok eq_refl
    (carries_by (NewSession 5) apartStream ltac:(vm_compute; reflexivity) ltac:(repeat constructor))) as [_ H].
  exists [encodeRecord (keyed "a" 1)], [encodeRecord (keyed "a" 9)].
  assert (E1 : m !! wkString (mkWK (b "a") 1 6) = Some [encodeRecord (keyed "a" 1)]) by reflexivity.
  assert (E2 : m !! wkString (mkWK (b "a") 9 14) = Some [encodeRecord (keyed "a" 9)]) by reflexivity.
  split_and!; [exact E1|exact E2|done|done|].
  refine (proj2 (H _ _ _ _ E1 E2 _ _)); [done|vm_compute; reflexivity].
Defined.

(** One buffered record, and the state that holds it. *)
Definition oneKey : bytes := wkString (mkWK (b "a") 0 5).
Definition oneState : WinState MemoryBackend :=
  mkWinState (ls_Append (encodeRecord (keyed "a" 1)) (ls_SetKey oneKey (recState (win_open NewMemoryBackend)))) 0.

Lemma oneState_spec :
  win_ok oneState /\ buffer oneState = {[ oneKey := [encodeRecord (keyed "a" 1)] ]}.
Proof.
  destruct (ls_append_spec (ls_SetKey oneKey (recState (win_open NewMemoryBackend)))
    (encodeRecord (keyed "a" 1)) open_ok I) as [H1 H2]. split; [exact H1|].
  unfold buffer, oneState. cbn [recState]. rewrite H2.
  change (lv (ls_SetKey oneKey (recState (win_open NewMemoryBackend)))) with (∅ : gmap bytes (list bytes)).
  rewrite lookup_empty. done.
Qed.

Lemma watermark_fires_due_witness :
  let '(s', out) := handleWatermark (plainOp (NewTumbling 5)) oneState (NewWatermark 5) in
  currentWatermark s' = 5 /\ buffer s' !! oneKey = None.
Proof.
  destruct oneState_spec as [Hok Hb].
  pose proof (watermark_fires_due (plainOp (NewTumbling 5)) oneState (NewWatermark 5) mem_wm_good Hok) as H.
  destruct (handleWatermark _ _ _) as [s' out]. destruct H as (H1 & H2 & _).
  split; [exact H1|]. rewrite H2, H1. vm_compute. reflexivity.
Defined.

Lemma window_aggregate_witness :
  let '(ls', out) := fireWindow (mkWinCfg (NewTumbling 5) (Some unary) false None) (recState oneState) oneKey in
  length out = 1%nat.
Proof.
  destruct oneState_spec as [Hok Hb].
  pose proof (window_aggregate (mkWinCfg (NewTumbling 5) (Some unary) false None) unary (recState oneState)
    oneKey [] (keyed "a" 1) eq_refl Hok) as H.
  destruct (fireWindow _ _ _) as [ls' out].
  destruct H as [_ ->]; [| |reflexivity].
  - change (lv (recState oneState)) with (buffer oneState). rewrite Hb. apply lookup_singleton_eq.
  - constructor; [apply keyed_utf8|constructor].
Defined.

Lemma watermark_survives_reopen_witness :
  let '(s', _) := handleWatermark (plainOp (NewTumbling 5)) oneState (NewWatermark 5) in
  currentWatermark (win_open (ls_backend (recState s'))) = currentWatermark s'.
Proof.
  apply (watermark_survives_reopen (plainOp (NewTumbling 5)) oneState (NewWatermark 5) mem_wm_good).
  - apply oneState_spec.
  - reflexivity.
  - unfold int64. simpl. lia.
Defined.

Lemma window_snapshot_roundtrip_witness :
  exists data s', win_Snapshot oneState = Ok data /\ win_Restore data (win_open NewMemoryBackend) = Ok s' /\
    win_ok s' /\ currentWatermark s' = currentWatermark oneState /\ buffer s' = buffer oneState.
Proof.
  apply (window_snapshot_roundtrip oneState (win_open NewMemoryBackend) mem_wm_good).
  - apply oneState_spec.
  - exact open_ok.
  - unfold int64. simpl. lia.
  - intros k es H. rewrite (proj2 oneState_spec) in H. apply lookup_singleton_Some in H as [<- <-].
    split; [vm_compute; reflexivity|]. exists [keyed "a" 1]. split; [reflexivity|].
    constructor; [apply keyed_utf8|constructor].
Defined.
