(* ===== verification/Pebble.v ===== *)
(** * Package state: the Pebble backend

    [PebbleBackend] keeps values and list entries in one ordered key-value
    store.  The store (cockroachdb/pebble) is a parameter: an operation class
    with the behaviour its documentation promises.  The backend is proved to
    refine the in-memory one on keys without NUL bytes. *)
From S2P Require Import Prelude State.

(** ** Key encoding *)

Definition NUL : ascii := Zbyte 0.
Definition valuePrefix : ascii := Zbyte 0x76.
Definition listPrefix : ascii := Zbyte 0x6c.

Definition valueUserKey (namespace key : bytes) : bytes :=
  valuePrefix :: NUL :: namespace ++ NUL :: key.
Definition valuePrefixBytes (namespace : bytes) : bytes := valueUserKey namespace [].
Definition valueUserKeyFromFull (namespace fullKey : bytes) : bytes :=
  let expected := valuePrefixBytes namespace in
  if decide (length expected < length fullKey)%nat then drop (length expected) fullKey else [].

Definition listEntryKey (namespace key : bytes) (seq : Z) : bytes :=
  listPrefix :: NUL :: namespace ++ NUL :: key ++ NUL :: PutUint64 seq.
Definition listPrefixBytes (namespace key : bytes) : bytes :=
  take (length (listEntryKey namespace key 0) - 8) (listEntryKey namespace key 0).
Definition listNamespacePrefix (namespace : bytes) : bytes :=
  listPrefix :: NUL :: namespace ++ [NUL].

Definition prefixStart (namespace : bytes) : bytes := valueUserKey namespace [].

(** The loop of [prefixUpperBound]: increment the rightmost byte below 0xff
    and cut there; [None] when there is none. *)
Fixpoint bump (prefix : bytes) : option bytes :=
  match prefix with
  | [] => None
  | c :: p =>
      match bump p with
      | Some u => Some (c :: u)
      | None => if byteZ c <? 0xff then Some [Zbyte (byteZ c + 1)] else None
      end
  end.
Definition prefixUpperBound (prefix : bytes) : bytes :=
  match bump prefix with Some u => u | None => prefix ++ [Zbyte 0xff] end.
Definition prefixEnd (namespace : bytes) : bytes := prefixUpperBound (valueUserKey namespace []).

(** ** Ranges are prefixes *)

Definition in_bounds (lo hi k : bytes) : bool := bytes_leb lo k && negb (bytes_leb hi k).
Arguments in_bounds : simpl never.

Lemma bytes_leb_cons c d x y :
  bytes_leb (c :: x) (d :: y) = true <-> byteZ c < byteZ d \/ (c = d /\ bytes_leb x y = true).
Proof.
  simpl. destruct (Z.ltb_spec (byteZ c) (byteZ d)), (Z.ltb_spec (byteZ d) (byteZ c));
    split; intros; try done; try lia; auto.
  - destruct H1 as [?|[-> _]]; lia.
  - right. split; [apply byteZ_inj; lia|done].
  - by destruct H1 as [?|[_ ?]]; [lia|].
Qed.

Lemma bump_None_ge p k : bump p = None -> bytes_leb p k = true -> p `prefix_of` k.
Proof.
  revert k. induction p as [|c p IH]; intros k Hb Hle; [apply prefix_nil|].
  simpl in Hb. destruct (bump p) as [u|] eqn:E; [done|].
  destruct (Z.ltb_spec (byteZ c) 0xff); [done|]. destruct k as [|d k]; [done|].
  apply bytes_leb_cons in Hle as [Hlt|[-> Hle]].
  - pose proof (byteZ_range d). pose proof (byteZ_range c). lia.
  - apply prefix_cons. by apply IH.
Qed.

Lemma prefix_leb p k : p `prefix_of` k -> bytes_leb p k = true.
Proof.
  intros [x ->]. induction p as [|c p IH]; [done|]. apply bytes_leb_cons. by right.
Qed.

Lemma bump_range p u k :
  bump p = Some u -> (bytes_leb p k = true /\ bytes_leb u k = false) <-> p `prefix_of` k.
Proof.
  revert u k. induction p as [|c p IH]; intros u k Hb; [done|]. simpl in Hb.
  destruct (bump p) as [u'|] eqn:E.
  - injection Hb as <-. destruct k as [|d k].
    { simpl. split; [by intros [? _]|]. by intros ?%prefix_nil_inv. }
    rewrite <- not_true_iff_false, !bytes_leb_cons. split.
    + intros [[?|[-> Hle]] Hn]; [by destruct Hn; left|]. apply prefix_cons.
      apply (IH u' k eq_refl). split; [done|]. apply not_true_iff_false. auto.
    + intros Hp. apply prefix_cons_inv_1 in Hp as Hcd. apply prefix_cons_inv_2 in Hp. subst d.
      apply (IH u' k eq_refl) in Hp as [H1 H2]. split; [by right|].
      intros [?|[_ ?]]; [lia|congruence].
  - destruct (Z.ltb_spec (byteZ c) 0xff) as [Hc|]; [|done]. injection Hb as <-.
    pose proof (byteZ_range c). destruct k as [|d k].
    { simpl. split; [by intros [? _]|]. by intros ?%prefix_nil_inv. }
    rewrite <- not_true_iff_false, !bytes_leb_cons, byteZ_Zbyte, Z.mod_small by lia. split.
    + intros [[?|[-> Hle]] Hn].
      * destruct Hn. destruct (Z.eq_dec (byteZ c + 1) (byteZ d)) as [He|]; [|left; lia].
        right. split; [|by destruct k]. apply byteZ_inj. rewrite byteZ_Zbyte, Z.mod_small; lia.
      * apply prefix_cons. by apply bump_None_ge.
    + intros Hp. apply prefix_cons_inv_1 in Hp as Hcd. apply prefix_cons_inv_2 in Hp. subst d.
      split; [right; split; [done|by apply prefix_leb]|].
      intros [?|[Heq _]]; [lia|]. apply (f_equal byteZ) in Heq. rewrite byteZ_Zbyte, Z.mod_small in Heq; lia.
Qed.

Lemma bump_Some p : Exists (λ c, byteZ c < 0xff) p -> is_Some (bump p).
Proof.
  induction 1 as [c p Hc|c p _ [u Hu]]; simpl.
  - destruct (bump p); [done|]. by destruct (Z.ltb_spec (byteZ c) 0xff); [|lia].
  - by rewrite Hu.
Qed.

Lemma in_bounds_prefix (prefix k : bytes) :
  Exists (λ c, byteZ c < 0xff) prefix ->
  in_bounds prefix (prefixUpperBound prefix) k = true <-> prefix `prefix_of` k.
Proof.
  intros Hp. destruct (bump_Some prefix Hp) as [u Hu]. unfold in_bounds, prefixUpperBound.
  rewrite Hu, andb_true_iff, negb_true_iff. by apply bump_range.
Qed.

(** Scanning [prefix, prefixUpperBound(prefix)) visits exactly the keys
    that start with the prefix, for every prefix with a byte below 0xff (all
    the prefixes the backend builds have one). *)
Theorem prefix_scan_exact (prefix k : bytes) :
  Exists (λ c, byteZ c < 0xff) prefix ->
  in_bounds prefix (prefixUpperBound prefix) k = true <-> prefix `prefix_of` k.
Proof. apply in_bounds_prefix. Qed.

Lemma prefix_scan_exact_witness :
  in_bounds (valuePrefixBytes (b "ns")) (prefixUpperBound (valuePrefixBytes (b "ns")))
    (valueUserKey (b "ns") (b "k")) = true.
Proof.
  apply (prefix_scan_exact (valuePrefixBytes (b "ns")) (valueUserKey (b "ns") (b "k"))).
  - apply Exists_cons_hd. vm_compute. reflexivity.
  - exists (b "k"). reflexivity.
Defined.

(** ** Keys without NUL are parsed back uniquely *)

Definition nulfree (s : bytes) : Prop := NUL ∉ s.
#[export] Instance nulfree_dec s : Decision (nulfree s).
Proof. unfold nulfree. apply _. Defined.

Lemma nul_prefix x a y c :
  nulfree x -> nulfree y -> x ++ NUL :: a `prefix_of` y ++ NUL :: c -> x = y /\ a `prefix_of` c.
Proof.
  revert y. induction x as [|d x IH]; intros [|e y] Hx Hy Hp; simpl in *.
  - split; [done|]. by apply prefix_cons_inv_2 in Hp.
  - apply prefix_cons_inv_1 in Hp as <-. destruct Hy. by left.
  - apply prefix_cons_inv_1 in Hp as ->. destruct Hx. by left.
  - apply prefix_cons_inv_1 in Hp as Hde. apply prefix_cons_inv_2 in Hp. subst.
    unfold nulfree in *. destruct (IH y) as [-> ?]; [set_solver|set_solver|done|done].
Qed.

Lemma nul_inj x a y c :
  nulfree x -> nulfree y -> x ++ NUL :: a = y ++ NUL :: c -> x = y /\ a = c.
Proof.
  intros Hx Hy E. destruct (nul_prefix x a y c Hx Hy) as [-> _]; [by rewrite E|].
  by simplify_list_eq.
Qed.

Lemma valueUserKey_inj ns k ns' k' :
  nulfree ns -> nulfree ns' -> valueUserKey ns k = valueUserKey ns' k' -> ns = ns' /\ k = k'.
Proof. intros H1 H2 [= E]. by apply nul_inj in E. Qed.

Lemma value_list_ne ns k ns' k' seq : valueUserKey ns k <> listEntryKey ns' k' seq.
Proof. by intros [=]. Qed.

Lemma PutUint64_inj a c : 0 <= a < 2^64 -> 0 <= c < 2^64 -> PutUint64 a = PutUint64 c -> a = c.
Proof.
  intros Ha Hc E. apply (f_equal Uint64) in E. rewrite !Uint64_PutUint64 in E.
  unfold wrapU in E. by rewrite !Z.mod_small in E.
Qed.

Lemma listEntryKey_inj ns k q ns' k' q' :
  nulfree ns -> nulfree ns' -> nulfree k -> nulfree k' -> 0 <= q < 2^64 -> 0 <= q' < 2^64 ->
  listEntryKey ns k q = listEntryKey ns' k' q' -> ns = ns' /\ k = k' /\ q = q'.
Proof.
  intros ?????? [= E]. apply nul_inj in E as [-> E]; [|done..]. apply nul_inj in E as [-> E]; [|done..].
  apply PutUint64_inj in E; [|done..]. done.
Qed.

Lemma listPrefixBytes_eq ns k : listPrefixBytes ns k = listPrefix :: NUL :: ns ++ NUL :: k ++ [NUL].
Proof.
  unfold listPrefixBytes, listEntryKey.
  assert (E : listPrefix :: NUL :: ns ++ NUL :: k ++ NUL :: PutUint64 0
    = (listPrefix :: NUL :: ns ++ NUL :: k ++ [NUL]) ++ PutUint64 0)
    by (simpl; rewrite <- app_assoc; simpl; by rewrite <- app_assoc).
  rewrite E, take_app_length'; [done|]. rewrite length_app, PutUint64_length. lia.
Qed.

Lemma listEntry_prefix ns k ns' k' q :
  nulfree ns -> nulfree ns' -> nulfree k -> nulfree k' ->
  listPrefixBytes ns k `prefix_of` listEntryKey ns' k' q <-> ns = ns' /\ k = k'.
Proof.
  intros Hns Hns' Hk Hk'. rewrite listPrefixBytes_eq. unfold listEntryKey. split.
  - intros H%prefix_cons_inv_2%prefix_cons_inv_2. apply nul_prefix in H as [-> H]; [|done..].
    by apply nul_prefix in H as [-> _].
  - intros [-> ->]. do 2 apply prefix_cons. apply prefix_app, prefix_cons, prefix_app, prefix_cons, prefix_nil.
Qed.

Lemma listNs_prefix ns ns' k' q :
  nulfree ns -> nulfree ns' ->
  listNamespacePrefix ns `prefix_of` listEntryKey ns' k' q <-> ns = ns'.
Proof.
  intros Hns Hns'. unfold listNamespacePrefix, listEntryKey. split.
  - intros H%prefix_cons_inv_2%prefix_cons_inv_2. by apply nul_prefix in H as [-> H].
  - intros ->. do 2 apply prefix_cons. apply prefix_app, prefix_cons, prefix_nil.
Qed.

Lemma value_prefix ns ns' k' :
  nulfree ns -> nulfree ns' -> valuePrefixBytes ns `prefix_of` valueUserKey ns' k' <-> ns = ns'.
Proof.
  intros Hns Hns'. unfold valuePrefixBytes, valueUserKey. split.
  - intros H%prefix_cons_inv_2%prefix_cons_inv_2. by apply nul_prefix in H as [-> H].
  - intros ->. do 2 apply prefix_cons. apply prefix_app, prefix_cons, prefix_nil.
Qed.

Lemma list_value_noprefix ns k ns' k' : ~ listPrefixBytes ns k `prefix_of` valueUserKey ns' k'.
Proof. rewrite listPrefixBytes_eq. by intros H%prefix_cons_inv_1. Qed.
Lemma listNs_value_noprefix ns ns' k' : ~ listNamespacePrefix ns `prefix_of` valueUserKey ns' k'.
Proof. by intros H%prefix_cons_inv_1. Qed.
Lemma value_list_noprefix ns ns' k' q : ~ valuePrefixBytes ns `prefix_of` listEntryKey ns' k' q.
Proof. by intros H%prefix_cons_inv_1. Qed.

(** Big-endian sequence numbers sort as numbers. *)
Lemma be_enc_add n x q : be_enc n (x + 256 ^ Z.of_nat n * q) = be_enc n x.
Proof.
  revert q. induction n as [|n IH]; intros q; [done|]. cbn [be_enc].
  rewrite Nat2Z.inj_succ, Z.pow_succ_r by lia. f_equal.
  - replace (x + 256 * 256 ^ Z.of_nat n * q) with (x + (q * 256) * 256 ^ Z.of_nat n) by lia.
    rewrite Z.div_add by lia. unfold Zbyte. by rewrite Z.mod_add.
  - rewrite <- (IH (256 * q)). f_equal. lia.
Qed.

Lemma be_enc_mono n x y :
  0 <= x <= y -> y < 256 ^ Z.of_nat n -> bytes_le (be_enc n x) (be_enc n y).
Proof.
  revert x y. induction n as [|n IH]; intros x y Hx Hy; [done|].
  cbn [be_enc]. rewrite Nat2Z.inj_succ, Z.pow_succ_r in Hy by lia.
  set (m := 256 ^ Z.of_nat n) in *. assert (Hm : 0 < m) by (apply Z.pow_pos_nonneg; lia).
  unfold bytes_le. apply bytes_leb_cons. rewrite !byteZ_Zbyte.
  pose proof (Z.div_le_mono x y m Hm ltac:(lia)). pose proof (Z.div_pos x m ltac:(lia) Hm).
  pose proof (Z.div_lt_upper_bound y m 256 Hm ltac:(lia)).
  rewrite !Z.mod_small by lia. destruct (Z.eq_dec (x / m) (y / m)) as [E|]; [right|left; lia].
  rewrite E. split; [done|]. rewrite (Z.div_mod x m), (Z.div_mod y m) by lia.
  rewrite (Z.add_comm (m * _) (x mod m)), (Z.add_comm (m * _) (y mod m)), !be_enc_add.
  pose proof (Z.mod_pos_bound x m Hm). pose proof (Z.mod_pos_bound y m Hm).
  apply IH; [|fold m; lia]. pose proof (Z.div_mod x m). pose proof (Z.div_mod y m). nia.
Qed.

Lemma PutUint64_mono x y : 0 <= x <= y -> y < 2^64 -> bytes_le (PutUint64 x) (PutUint64 y).
Proof.
  intros Hx Hy. unfold PutUint64, wrapU. rewrite !Z.mod_small by lia. apply be_enc_mono; [done|].
  exact Hy.
Qed.

Lemma bytes_leb_app p x y : bytes_leb (p ++ x) (p ++ y) = bytes_leb x y.
Proof. induction p as [|c p IH]; [done|]. simpl. by rewrite Z.ltb_irrefl. Qed.

Lemma listEntryKey_mono ns k x y :
  0 <= x <= y -> y < 2^64 -> bytes_le (listEntryKey ns k x) (listEntryKey ns k y).
Proof.
  intros Hx Hy. unfold bytes_le, listEntryKey.
  assert (E : forall q, listPrefix :: NUL :: ns ++ NUL :: k ++ NUL :: PutUint64 q
    = (listPrefix :: NUL :: ns ++ NUL :: k ++ [NUL]) ++ PutUint64 q)
    by (intros q; simpl; rewrite <- app_assoc; simpl; by rewrite <- app_assoc).
  rewrite !E, bytes_leb_app. by apply PutUint64_mono.
Qed.

(** ** The store *)

(** An ordered key-value store: point reads and writes, range deletion,
    ordered iteration over [lo, hi), checkpoints and reopening one. *)
Class PebbleDB (D : Type) : Type := {
  db_get : bytes -> D -> option bytes;
  db_set : bytes -> bytes -> D -> D;
  db_delete : bytes -> D -> D;
  db_deleteRange : bytes -> bytes -> D -> D;
  db_scan : bytes -> bytes -> D -> list (bytes * bytes);
  db_image : Type;
  db_checkpoint : D -> db_image;
  db_open : db_image -> D;
}.

(** What its documentation promises, over the map it holds: an iterator
    visits the keys of its bounds in byte order, each once. *)
Class PebbleLaws (D : Type) `{PebbleDB D} : Type := {
  db_view : D -> gmap bytes bytes;
  db_get_spec k d : db_get k d = db_view d !! k;
  db_set_spec k v d : db_view (db_set k v d) = <[k := v]> (db_view d);
  db_delete_spec k d : db_view (db_delete k d) = delete k (db_view d);
  db_deleteRange_spec lo hi d k :
    db_view (db_deleteRange lo hi d) !! k = if in_bounds lo hi k then None else db_view d !! k;
  db_scan_sorted lo hi d : StronglySorted bytes_le (db_scan lo hi d).*1;
  db_scan_nodup lo hi d : NoDup (db_scan lo hi d).*1;
  db_scan_spec lo hi d k v :
    (k, v) ∈ db_scan lo hi d <-> db_view d !! k = Some v /\ in_bounds lo hi k = true;
  db_checkpoint_spec d : db_view (db_open (db_checkpoint d)) = db_view d;
}.

Section Backend.
Context {D : Type} `{DB : PebbleDB D}.

(** The live handle, the next sequence number per list, the closed flag. *)
Record PebbleBackend : Type := mkPebble {
  pdb : D; seqs : gmap (bytes * bytes) Z; closed : bool;
}.

Definition OpenPebble (d : D) : PebbleBackend := mkPebble d ∅ false.
Definition Close (p : PebbleBackend) : PebbleBackend := mkPebble (pdb p) (seqs p) true.
Definition CheckpointTo (p : PebbleBackend) : result db_image :=
  if closed p then Err "state/pebble: checkpoint on closed backend" else Ok (db_checkpoint (pdb p)).
Definition RestoreFrom (img : db_image) (p : PebbleBackend) : PebbleBackend :=
  mkPebble (db_open img) ∅ false.

Definition set_db (p : PebbleBackend) (d : D) : PebbleBackend := mkPebble d (seqs p) (closed p).

Definition pebble_get (ns key : bytes) (p : PebbleBackend) : slice :=
  if closed p then None else db_get (valueUserKey ns key) (pdb p).
Definition pebble_set (ns key : bytes) (v : slice) (p : PebbleBackend) : PebbleBackend :=
  if closed p then p else set_db p (db_set (valueUserKey ns key) (str v) (pdb p)).
Definition pebble_clear (ns key : bytes) (p : PebbleBackend) : PebbleBackend :=
  if closed p then p else set_db p (db_delete (valueUserKey ns key) (pdb p)).
Definition value_scan (ns : bytes) (p : PebbleBackend) : list (bytes * bytes) :=
  let prefix := valuePrefixBytes ns in db_scan prefix (prefixUpperBound prefix) (pdb p).
Definition pebble_keys (ns : bytes) (p : PebbleBackend) : list bytes :=
  if closed p then [] else (λ kv, valueUserKeyFromFull ns kv.1) <$> value_scan ns p.
Definition pebble_snapshot (ns : bytes) (p : PebbleBackend) : gmap bytes bytes :=
  if closed p then ∅
  else foldl (λ out kv, <[valueUserKeyFromFull ns kv.1 := kv.2]> out) ∅ (value_scan ns p).
Definition pebble_restore (ns : bytes) (entries : gmap bytes bytes) (p : PebbleBackend)
  : result PebbleBackend :=
  if closed p then Err "state/pebble: restore on closed backend"
  else Ok (set_db p
    (foldl (λ d kv, db_set (valueUserKey ns kv.1) kv.2 d)
      (db_deleteRange (prefixStart ns) (prefixEnd ns) (pdb p)) (map_to_list entries))).

Definition pebble_append (ns key v : bytes) (p : PebbleBackend) : PebbleBackend :=
  if closed p then p else
  let seq := default 0 (seqs p !! (ns, key)) in
  mkPebble (db_set (listEntryKey ns key seq) v (pdb p))
    (<[(ns, key) := wrapU 64 (seq + 1)]> (seqs p)) (closed p).
Definition pebble_getall (ns key : bytes) (p : PebbleBackend) : list bytes :=
  if closed p then [] else
  let prefix := listPrefixBytes ns key in
  (db_scan prefix (prefixUpperBound prefix) (pdb p)).*2.
Definition pebble_lclear (ns key : bytes) (p : PebbleBackend) : PebbleBackend :=
  if closed p then p else
  let start := listPrefixBytes ns key in
  set_db p (db_deleteRange start (prefixUpperBound start) (pdb p)).
Definition pebble_lkeys (ns : bytes) (p : PebbleBackend) : list bytes :=
  if closed p then [] else
  let prefix := listNamespacePrefix ns in
  foldl (λ keys kv,
    let full := kv.1 in
    if decide (length full < length prefix + 9)%nat then keys
    else
      let k := take (length full - 9 - length prefix) (drop (length prefix) full) in
      if decide (k ∈ keys) then keys else keys ++ [k])
    [] (db_scan prefix (prefixUpperBound prefix) (pdb p)).

#[export] Instance pebble_backend : StateBackend PebbleBackend := {
  value_get := pebble_get; value_set := pebble_set; value_clear := pebble_clear;
  value_keys := pebble_keys; value_snapshot := pebble_snapshot; value_restore := pebble_restore;
  list_append := pebble_append; list_getall := pebble_getall; list_clear := pebble_lclear;
  list_keys := pebble_lkeys;
}.
End Backend.
Arguments PebbleBackend D : clear implicits.

(** ** Refinement of the in-memory backend *)

(** The operations that change a backend. *)
Inductive BOp : Type :=
| OSet (ns k : bytes) (v : slice)
| OClear (ns k : bytes)
| ORestoreAll (ns : bytes) (entries : gmap bytes bytes)
| OAppend (ns k v : bytes)
| OListClear (ns k : bytes).

Definition apply_op {B} `{StateBackend B} (s : B) (o : BOp) : B :=
  match o with
  | OSet ns k v => value_set ns k v s
  | OClear ns k => value_clear ns k s
  | ORestoreAll ns e => match value_restore ns e s with Ok s' => s' | Err _ => s end
  | OAppend ns k v => list_append ns k v s
  | OListClear ns k => list_clear ns k s
  end.

(** No NUL byte in a namespace or in the key of a list. *)
Definition op_ok (o : BOp) : Prop :=
  match o with
  | OSet ns _ _ | OClear ns _ | ORestoreAll ns _ => nulfree ns
  | OAppend ns k _ | OListClear ns k => nulfree ns /\ nulfree k
  end.

Lemma NoDup_fst_assoc {A V} (l : list (A * V)) k v v' :
  NoDup l.*1 -> (k, v) ∈ l -> (k, v') ∈ l -> v = v'.
Proof.
  intros Hn H1 H2. induction l as [|[k0 v0] l IH]; [by apply elem_of_nil in H1|].
  cbn in Hn. apply NoDup_cons in Hn as [Hni Hn].
  apply elem_of_cons in H1, H2.
  destruct H1 as [E1|H1], H2 as [E2|H2]; [congruence| | |auto];
    destruct Hni; apply list_elem_of_fmap; simplify_eq;
    match goal with H : _ ∈ l |- _ => by eexists; split; [|exact H] end.
Qed.

Lemma entries_sorted ns k ss :
  StronglySorted Z.lt ss -> Forall (λ q, 0 <= q < 2^64) ss ->
  StronglySorted bytes_le (listEntryKey ns k <$> ss).
Proof.
  induction 1 as [|q ss _ IH Hq]; intros Hr; [constructor|]. apply Forall_cons in Hr as [Hr0 Hr].
  cbn [fmap list_fmap]. constructor; [by apply IH|]. apply Forall_fmap.
  rewrite Forall_forall in *. intros q' Hin. apply listEntryKey_mono; specialize (Hq _ Hin); specialize (Hr _ Hin); cbv beta in *; lia.
Qed.

Lemma entries_nodup ns k ss :
  nulfree ns -> nulfree k -> StronglySorted Z.lt ss -> Forall (λ q, 0 <= q < 2^64) ss ->
  NoDup (listEntryKey ns k <$> ss).
Proof.
  intros Hns Hk. induction 1 as [|q ss _ IH Hq]; intros Hr; [constructor|]. apply Forall_cons in Hr as [Hr0 Hr].
  cbn [fmap list_fmap]. constructor; [|by apply IH]. rewrite list_elem_of_fmap.
  intros (q' & E & Hin). rewrite Forall_forall in *. specialize (Hq _ Hin). specialize (Hr _ Hin).
  apply listEntryKey_inj in E as (_ & _ & ->); [lia|done..].
Qed.

Section Refinement.
Context {D : Type} `{DB : PebbleDB D} `{DL : !PebbleLaws D}.
Implicit Types (p : PebbleBackend D) (m : MemoryBackend) (d : D).

Definition seq_of p (ns k : bytes) : Z := default 0 (seqs p !! (ns, k)).

(** The entries of one list: their sequence numbers [ss], in order, carry
    the list's values and nothing else has the list's prefix. *)
Definition list_sim (view : gmap bytes bytes) (ns k : bytes) (next : Z) (vs : list bytes) : Prop :=
  exists ss, length ss = length vs /\ StronglySorted Z.lt ss /\
    Forall (λ q, 0 <= q < next) ss /\
    forall q v, 0 <= q < 2^64 ->
      view !! listEntryKey ns k q = Some v <-> (q, v) ∈ zip ss vs.

Definition key_shape (key : bytes) : Prop :=
  (exists ns k, nulfree ns /\ key = valueUserKey ns k) \/
  (exists ns k q, nulfree ns /\ nulfree k /\ 0 <= q < 2^64 /\ key = listEntryKey ns k q).

(** [sim n p m]: [p] holds what [m] holds, after at most [n] appends. *)
Record sim (n : Z) p m : Prop := {
  sim_open : closed p = false;
  sim_shape : forall key, is_Some (db_view (pdb p) !! key) -> key_shape key;
  sim_val : forall ns k, nulfree ns ->
    db_view (pdb p) !! valueUserKey ns k = mem_data ns m !! k;
  sim_list : forall ns k, nulfree ns -> nulfree k ->
    list_sim (db_view (pdb p)) ns k (seq_of p ns k) (mem_getall ns k m);
  sim_seq : forall ns k, 0 <= seq_of p ns k <= n;
  sim_mem : mem_ok m;
  sim_live : forall ns k, nulfree ns -> is_Some (mem_ldata ns m !! k) -> nulfree k;
}.

Lemma list_sim_ext (view view' : gmap bytes bytes) ns k next next' vs :
  (forall q, 0 <= q < 2^64 -> view' !! listEntryKey ns k q = view !! listEntryKey ns k q) ->
  next <= next' -> list_sim view ns k next vs -> list_sim view' ns k next' vs.
Proof.
  intros Hv Hn (ss & H1 & H2 & H3 & H4). exists ss. split_and!; [done|done| |].
  - eapply Forall_impl; [exact H3|]. intros q Hq. cbv beta in Hq. lia.
  - intros q v Hq. rewrite Hv by done. by apply H4.
Qed.

(** What a scan of a prefix returns. *)
Lemma prefix_lt_ff c prefix : byteZ c < 0xff -> Exists (λ c, byteZ c < 0xff) (c :: prefix).
Proof. by left. Qed.

Lemma scan_prefix c prefix d k v :
  byteZ c < 0xff ->
  (k, v) ∈ db_scan (c :: prefix) (prefixUpperBound (c :: prefix)) d
  <-> db_view d !! k = Some v /\ (c :: prefix) `prefix_of` k.
Proof.
  intros Hc. rewrite db_scan_spec, in_bounds_prefix by (by left). done.
Qed.

Lemma list_prefix_cons ns k : exists t, listPrefixBytes ns k = listPrefix :: t.
Proof. rewrite listPrefixBytes_eq. eauto. Qed.

Lemma value_scan_spec p ns k v :
  (k, v) ∈ value_scan ns p <-> db_view (pdb p) !! k = Some v /\ valuePrefixBytes ns `prefix_of` k.
Proof. apply scan_prefix. by vm_compute. Qed.

Lemma list_scan_spec p ns key k v :
  (k, v) ∈ db_scan (listPrefixBytes ns key) (prefixUpperBound (listPrefixBytes ns key)) (pdb p)
  <-> db_view (pdb p) !! k = Some v /\ listPrefixBytes ns key `prefix_of` k.
Proof. rewrite listPrefixBytes_eq. apply scan_prefix. by vm_compute. Qed.

Lemma ns_scan_spec p ns k v :
  (k, v) ∈ db_scan (listNamespacePrefix ns) (prefixUpperBound (listNamespacePrefix ns)) (pdb p)
  <-> db_view (pdb p) !! k = Some v /\ listNamespacePrefix ns `prefix_of` k.
Proof. apply scan_prefix. by vm_compute. Qed.

(** Two key-ordered association lists with the same entries are equal. *)
Lemma sorted_assoc_eq (l1 l2 : list (bytes * bytes)) :
  StronglySorted bytes_le l1.*1 -> NoDup l1.*1 -> StronglySorted bytes_le l2.*1 -> NoDup l2.*1 ->
  (forall kv, kv ∈ l1 <-> kv ∈ l2) -> l1 = l2.
Proof.
  intros S1 N1 S2 N2 E. set (R (x y : bytes * bytes) := bytes_le x.1 y.1).
  assert (G : forall l, StronglySorted bytes_le l.*1 -> StronglySorted R l).
  { induction l as [|x l IH]; intros H; [constructor|].
    cbn [fmap list_fmap] in H. apply StronglySorted_cons in H as [H1 H2].
    constructor; [by apply IH|]. by rewrite Forall_fmap in H1. }
  apply (StronglySorted_unique_strong R); [|by apply G|by apply G|].
  - intros [k1 v1] [k2 v2] H1 H2 L1 L2. cbn in L1, L2.
    assert (k1 = k2) as -> by by apply bytes_leb_antisym.
    apply E in H1. f_equal. eapply (NoDup_fst_assoc l2); eauto.
  - apply NoDup_Permutation; [by eapply NoDup_fmap_1|by eapply NoDup_fmap_1|done].
Qed.

(** What [GetAll] returns, from the entries of the list. *)
Lemma getall_entries p ns k (ss : list Z) (vs : list bytes) :
  closed p = false -> nulfree ns -> nulfree k ->
  (forall key, is_Some (db_view (pdb p) !! key) -> key_shape key) ->
  length ss = length vs -> StronglySorted Z.lt ss -> Forall (λ q, 0 <= q < 2^64) ss ->
  (forall q v, 0 <= q < 2^64 -> db_view (pdb p) !! listEntryKey ns k q = Some v <-> (q, v) ∈ zip ss vs) ->
  pebble_getall ns k p = vs.
Proof.
  intros Hc Hns Hk Hshape H1 H2 Hr H4. unfold pebble_getall. rewrite Hc. cbv zeta.
  assert (E : db_scan (listPrefixBytes ns k) (prefixUpperBound (listPrefixBytes ns k)) (pdb p)
    = (λ qv, (listEntryKey ns k qv.1, qv.2)) <$> zip ss vs).
  { assert (Ek : ((λ qv, (listEntryKey ns k qv.1, qv.2)) <$> zip ss vs).*1 = listEntryKey ns k <$> ss).
    { rewrite <- list_fmap_compose. rewrite <- (fst_zip ss vs) at 2 by lia.
      by rewrite <- list_fmap_compose. }
    apply sorted_assoc_eq; [apply db_scan_sorted|apply db_scan_nodup| | |].
    - rewrite Ek. by apply entries_sorted.
    - rewrite Ek. by apply entries_nodup.
    - intros [key v]. rewrite list_scan_spec, list_elem_of_fmap. split.
      + intros [Hv Hp]. destruct (Hshape key) as [(ns' & k' & _ & ->)|(ns' & k' & q & F1 & F2 & F3 & ->)];
          [by rewrite Hv| |].
        { by apply list_value_noprefix in Hp. }
        apply listEntry_prefix in Hp as [<- <-]; [|done..]. exists (q, v). split; [done|]. by apply H4.
      + intros ([q v'] & [= -> ->] & Hin). cbn [fst snd]. split.
        * apply H4; [|done]. rewrite Forall_forall in Hr. apply Hr. by eapply elem_of_zip_l.
        * by apply listEntry_prefix. }
  rewrite E, <- list_fmap_compose.
  change ((snd ∘ (λ qv : Z * bytes, (listEntryKey ns k qv.1, qv.2))) <$> zip ss vs) with (zip ss vs).*2.
  apply snd_zip. lia.
Qed.

Lemma getall_sim n p m ns k :
  sim n p m -> n < 2^64 -> nulfree ns -> nulfree k -> pebble_getall ns k p = mem_getall ns k m.
Proof.
  intros Hs Hn Hns Hk. destruct (sim_list n p m Hs ns k Hns Hk) as (ss & H1 & H2 & H3 & H4).
  pose proof (sim_seq n p m Hs ns k) as Hseq.
  apply (getall_entries p ns k ss); [apply (sim_open n p m Hs)|done|done|apply (sim_shape n p m Hs)|done|done| |done].
  eapply Forall_impl; [exact H3|]. intros q Hq. cbv beta in Hq. lia.
Qed.

Lemma get_sim n p m ns k :
  sim n p m -> nulfree ns -> pebble_get ns k p = mem_get ns k m.
Proof.
  intros Hs Hns. unfold pebble_get. rewrite (sim_open n p m Hs), db_get_spec. by apply (sim_val n p m Hs).
Qed.

Lemma valueUserKey_app ns k : valueUserKey ns k = valuePrefixBytes ns ++ k.
Proof. unfold valuePrefixBytes, valueUserKey. simpl. by rewrite <- app_assoc. Qed.

Lemma userKey_full ns k : valueUserKeyFromFull ns (valueUserKey ns k) = k.
Proof.
  unfold valueUserKeyFromFull. rewrite valueUserKey_app, length_app. cbv zeta.
  case_decide; [by rewrite drop_app_length|]. destruct k; [done|]. simpl in *. lia.
Qed.

(** The scan of a namespace lists exactly its values. *)
Lemma value_scan_sim n p m ns key v :
  sim n p m -> nulfree ns ->
  (key, v) ∈ value_scan ns p <-> exists k, key = valueUserKey ns k /\ mem_data ns m !! k = Some v.
Proof.
  intros Hs Hns. rewrite value_scan_spec. split.
  - intros [Hv Hp]. destruct (sim_shape n p m Hs key) as [(ns' & k & F & ->)|(ns' & k' & q & _ & _ & _ & ->)];
      [by rewrite Hv| |by apply value_list_noprefix in Hp].
    apply value_prefix in Hp as <-; [|done..]. exists k. split; [done|]. by rewrite <- (sim_val n p m Hs).
  - intros (k & -> & Hk). split; [by rewrite (sim_val n p m Hs)|]. by apply value_prefix.
Qed.

Lemma value_keys_sim n p m ns :
  sim n p m -> nulfree ns -> pebble_keys ns p ≡ₚ mem_keys ns m.
Proof.
  intros Hs Hns. unfold pebble_keys. rewrite (sim_open n p m Hs).
  assert (Hf : forall kv, kv ∈ value_scan ns p -> kv.1 = valueUserKey ns (valueUserKeyFromFull ns kv.1)).
  { intros [key v] Hin. apply (value_scan_sim n p m ns key v Hs Hns) in Hin as (k & -> & _).
    cbn. by rewrite userKey_full. }
  apply NoDup_Permutation.
  - pose proof (db_scan_nodup (valuePrefixBytes ns) (prefixUpperBound (valuePrefixBytes ns)) (pdb p)) as Hn.
    fold (value_scan ns p) in Hn. revert Hn Hf. generalize (value_scan ns p) as l. intros l.
    induction l as [|kv l IH]; intros Hn Hf; [constructor|]. cbn [fmap list_fmap] in *.
    apply NoDup_cons in Hn as [Hni Hn]. constructor; [|apply IH; set_solver].
    rewrite list_elem_of_fmap. intros (kv' & E & Hin). apply Hni, list_elem_of_fmap.
    exists kv'. split; [|done]. rewrite (Hf kv), (Hf kv') by set_solver. by rewrite E.
  - apply map_keys_spec.
  - intros k. unfold mem_keys. rewrite (proj2 (map_keys_spec _)), list_elem_of_fmap. split.
    + intros ([key v] & -> & Hin). apply (value_scan_sim n p m ns key v Hs Hns) in Hin as (k & -> & Hk).
      cbn. rewrite userKey_full. eauto.
    + intros [v Hv]. exists (valueUserKey ns k, v). split; [symmetry; apply userKey_full|].
      apply (value_scan_sim n p m); eauto.
Qed.

Lemma snapshot_fold (ns : bytes) (l : list (bytes * bytes)) (acc : gmap bytes bytes) (k : bytes) :
  NoDup l.*1 -> (forall kv, kv ∈ l -> kv.1 = valueUserKey ns (valueUserKeyFromFull ns kv.1)) ->
  foldl (λ out kv, <[valueUserKeyFromFull ns kv.1 := kv.2]> out) acc l !! k
  = match (list_to_map l : gmap bytes bytes) !! valueUserKey ns k with
    | Some v => Some v | None => acc !! k end.
Proof.
  revert acc. induction l as [|[key v] l IH]; intros acc Hn Hf; [done|].
  cbn [foldl fmap list_fmap list_to_map foldr uncurry fst snd] in *. apply NoDup_cons in Hn as [Hni Hn].
  rewrite IH by set_solver. pose proof (Hf (key, v) ltac:(set_solver)) as E. cbn in E.
  destruct (decide (valueUserKeyFromFull ns key = k)) as [Hk|Hk].
  - rewrite Hk in E. subst key. rewrite lookup_insert_eq.
    rewrite not_elem_of_list_to_map_1 by done. by rewrite Hk, lookup_insert_eq.
  - rewrite (lookup_insert_ne acc) by done.
    rewrite lookup_insert_ne; [done|]. intros E'. apply Hk. by rewrite E', userKey_full.
Qed.

Lemma snapshot_sim n p m ns :
  sim n p m -> nulfree ns -> pebble_snapshot ns p = mem_snapshot ns m.
Proof.
  intros Hs Hns. unfold pebble_snapshot, mem_snapshot. rewrite (sim_open n p m Hs).
  pose proof (db_scan_nodup (valuePrefixBytes ns) (prefixUpperBound (valuePrefixBytes ns)) (pdb p)) as Hn.
  fold (value_scan ns p) in Hn. apply map_eq. intros k. rewrite snapshot_fold; [|done|].
  - destruct (mem_data ns m !! k) as [v|] eqn:E.
    + rewrite (elem_of_list_to_map_1 _ (valueUserKey ns k) v); [done|done|].
      apply (value_scan_sim n p m); eauto.
    + destruct (_ !! valueUserKey ns k) as [v|] eqn:E2; [|by rewrite lookup_empty].
      apply elem_of_list_to_map_2 in E2. apply (value_scan_sim n p m _ _ _ Hs Hns) in E2 as (k' & Ek & Hk').
      apply valueUserKey_inj in Ek as [_ <-]; [congruence|done|done].
  - intros [key v] Hin. apply (value_scan_sim n p m ns key v Hs Hns) in Hin as (k' & -> & _).
    cbn. by rewrite userKey_full.
Qed.

(** The list key inside an entry key, as [Keys] cuts it out. *)
Definition cut_key (ns full : bytes) : bytes :=
  take (length full - 9 - length (listNamespacePrefix ns)) (drop (length (listNamespacePrefix ns)) full).

Lemma listEntryKey_app ns k q : listEntryKey ns k q = listNamespacePrefix ns ++ k ++ NUL :: PutUint64 q.
Proof. unfold listEntryKey, listNamespacePrefix. simpl. by rewrite <- app_assoc. Qed.

Lemma cut_key_entry ns k q :
  cut_key ns (listEntryKey ns k q) = k /\
  (length (listNamespacePrefix ns) + 9 <= length (listEntryKey ns k q))%nat.
Proof.
  unfold cut_key. rewrite listEntryKey_app, drop_app_length, !length_app. cbn [length].
  rewrite PutUint64_length. split; [|lia]. rewrite take_app_length'; [done|lia].
Qed.

Definition collect_key (ns : bytes) (keys : list bytes) (kv : bytes * bytes) : list bytes :=
  let full := kv.1 in
  if decide (length full < length (listNamespacePrefix ns) + 9)%nat then keys
  else if decide (cut_key ns full ∈ keys) then keys else keys ++ [cut_key ns full].

Lemma collect_spec ns (l : list (bytes * bytes)) keys :
  NoDup keys -> (forall kv, kv ∈ l -> exists k q, kv.1 = listEntryKey ns k q) ->
  NoDup (foldl (collect_key ns) keys l) /\
  forall k, k ∈ foldl (collect_key ns) keys l <-> k ∈ keys \/ exists q v, (listEntryKey ns k q, v) ∈ l.
Proof.
  revert keys. induction l as [|[full v] l IH]; intros keys Hn Hf; cbn [foldl].
  - split; [done|]. intros k. split; [by left|]. intros [?|(? & ? & H)]; [done|]. by apply elem_of_nil in H.
  - destruct (Hf (full, v)) as (k0 & q0 & E); [set_solver|]. cbn in E. subst full.
    assert (Hc : collect_key ns keys (listEntryKey ns k0 q0, v)
      = if decide (k0 ∈ keys) then keys else keys ++ [k0]).
    { unfold collect_key. cbn [fst]. destruct (cut_key_entry ns k0 q0) as [-> Hlen].
      cbv zeta. by rewrite decide_False by lia. }
    rewrite Hc.
    destruct (IH (if decide (k0 ∈ keys) then keys else keys ++ [k0])) as [H1 H2].
    { case_decide; [done|]. apply NoDup_app. split_and!; [done|set_solver|apply NoDup_singleton]. }
    { set_solver. }
    split; [done|]. intros k. rewrite H2.
    assert (Hk : k ∈ (if decide (k0 ∈ keys) then keys else keys ++ [k0]) <-> k ∈ keys \/ k = k0).
    { case_decide; set_solver. }
    rewrite Hk. split.
    + intros [[? | -> ]|(q & v' & ?)]; [by left|right; exists q0, v; set_solver|right; exists q, v'; set_solver].
    + intros [?|(q & v' & [[= E _]|?]%elem_of_cons)]; [by left; left| |right; eauto].
      left. right. destruct (cut_key_entry ns k q) as [<- _], (cut_key_entry ns k0 q0) as [<- _]. unfold listEntryKey. by rewrite E.
Qed.

Lemma list_sim_nonempty n p m ns k :
  sim n p m -> n < 2^64 -> nulfree ns -> nulfree k ->
  is_Some (mem_ldata ns m !! k) <->
  exists q v, 0 <= q < 2^64 /\ db_view (pdb p) !! listEntryKey ns k q = Some v.
Proof.
  intros Hs Hn Hns Hk. pose proof (sim_seq n p m Hs ns k) as Hq.
  destruct (sim_list n p m Hs ns k Hns Hk) as (ss & H1 & _ & H3 & H4). split.
  - intros [vs Hvs]. unfold mem_getall in *. rewrite Hvs in *. cbn in *.
    destruct vs as [|v vs]; [by apply (sim_mem n p m Hs) in Hvs|]. destruct ss as [|q ss]; [done|].
    apply Forall_cons in H3 as [? _]. exists q, v. split; [lia|]. apply H4; [lia|]. left.
  - intros (q & v & Hr & Hv). apply H4 in Hv; [|done]. unfold mem_getall in Hv.
    destruct (mem_ldata ns m !! k); [done|]. cbn in Hv. destruct ss; by apply elem_of_nil in Hv.
Qed.

Lemma list_keys_sim n p m ns :
  sim n p m -> n < 2^64 -> nulfree ns -> pebble_lkeys ns p ≡ₚ mem_lkeys ns m.
Proof.
  intros Hs Hn Hns. unfold pebble_lkeys. rewrite (sim_open n p m Hs). cbv zeta.
  set (l := db_scan _ _ _).
  assert (Hl : forall key v, (key, v) ∈ l <-> db_view (pdb p) !! key = Some v
    /\ listNamespacePrefix ns `prefix_of` key) by (intros; apply ns_scan_spec).
  assert (Hsh : forall key v, (key, v) ∈ l ->
    exists k q, nulfree k /\ 0 <= q < 2^64 /\ key = listEntryKey ns k q).
  { intros key v [Hv Hp]%Hl. destruct (sim_shape n p m Hs key) as [(ns' & k' & _ & ->)|(ns' & k' & q & F1 & F2 & F3 & ->)];
      [by rewrite Hv|by apply listNs_value_noprefix in Hp|].
    apply listNs_prefix in Hp as <-; eauto. }
  destruct (collect_spec ns l []) as [H1 H2]; [constructor| |].
  { intros [key v] Hin. destruct (Hsh key v Hin) as (k & q & _ & _ & ->). eauto. }
  fold (collect_key ns). apply NoDup_Permutation; [exact H1|apply map_keys_spec|].
  intros k. transitivity (k ∈ foldl (collect_key ns) [] l); [done|]. rewrite H2.
  unfold mem_lkeys. rewrite (proj2 (map_keys_spec _)). split.
  - intros [?%elem_of_nil|(q & v & Hin)]; [done|].
    destruct (Hsh _ _ Hin) as (k' & q' & Hk' & Hq' & E).
    assert (k = k') as -> by (by rewrite <- (proj1 (cut_key_entry ns k q)), E, (proj1 (cut_key_entry ns k' q'))).
    apply (list_sim_nonempty n p m); [done..|]. exists q', v. split; [done|]. rewrite <- E. by apply Hl.
  - intros Hlive. pose proof (sim_live n p m Hs ns k Hns Hlive) as Hk.
    apply (list_sim_nonempty n p m ns k Hs Hn Hns Hk) in Hlive as (q & v & Hq & Hv).
    right. exists q, v. apply Hl. split; [done|]. by apply listNs_prefix.
Qed.

(** ** Every operation preserves the simulation *)

(** A change to the values of one namespace. *)
Lemma sim_values n p m p' m' :
  sim n p m -> closed p' = false -> seqs p' = seqs p -> mlist m' = mlist m ->
  (forall key, is_Some (db_view (pdb p') !! key) -> key_shape key) ->
  (forall ns k, nulfree ns -> db_view (pdb p') !! valueUserKey ns k = mem_data ns m' !! k) ->
  (forall ns k q, db_view (pdb p') !! listEntryKey ns k q = db_view (pdb p) !! listEntryKey ns k q) ->
  sim n p' m'.
Proof.
  intros Hs Hc Hq Hm Hshape Hval Hlist.
  assert (Hl : forall ns, mem_ldata ns m' = mem_ldata ns m) by (intros; unfold mem_ldata; by rewrite Hm).
  split; try done.
  - intros ns k Hns Hk. unfold mem_getall. rewrite Hl. unfold seq_of. rewrite Hq.
    eapply list_sim_ext; [by intros; apply Hlist|done|]. by apply (sim_list n p m Hs).
  - intros ns k. unfold seq_of. rewrite Hq. apply (sim_seq n p m Hs).
  - intros ns k. rewrite Hl. apply (sim_mem n p m Hs).
  - intros ns k Hns. rewrite Hl. by apply (sim_live n p m Hs).
Qed.

Lemma set_sim n p m ns k v :
  sim n p m -> nulfree ns -> sim n (pebble_set ns k v p) (mem_set ns k v m).
Proof.
  intros Hs Hns. unfold pebble_set. rewrite (sim_open n p m Hs).
  apply (sim_values n p m); try done; [apply (sim_open n p m Hs)|..]; cbn [pdb set_db].
  - intros key. rewrite db_set_spec, lookup_insert. case_decide; [|by apply (sim_shape n p m Hs)].
    intros _. left. eauto.
  - intros ns' k' Hns'. rewrite db_set_spec. unfold mem_set. rewrite mem_data_insert.
    destruct (decide (valueUserKey ns k = valueUserKey ns' k')) as [E|Hne].
    + apply valueUserKey_inj in E as [<- <-]; [|done..]. rewrite decide_True by done. by rewrite !lookup_insert_eq.
    + rewrite lookup_insert_ne, (sim_val n p m Hs) by done. case_decide; [subst|done].
      rewrite lookup_insert_ne; [done|]. congruence.
  - intros ns' k' q. rewrite db_set_spec, lookup_insert_ne; [done|apply value_list_ne].
Qed.

Lemma clear_sim n p m ns k :
  sim n p m -> nulfree ns -> sim n (pebble_clear ns k p) (mem_clear ns k m).
Proof.
  intros Hs Hns. unfold pebble_clear. rewrite (sim_open n p m Hs).
  apply (sim_values n p m); try done; [apply (sim_open n p m Hs)| |..]; cbn [pdb set_db].
  - unfold mem_clear. by destruct (value m !! ns).
  - intros key. rewrite db_delete_spec, lookup_delete. case_decide; [by intros [? ?]|]. by apply (sim_shape n p m Hs).
  - intros ns' k' Hns'. rewrite db_delete_spec, mem_clear_data.
    destruct (decide (valueUserKey ns k = valueUserKey ns' k')) as [E|Hne].
    + apply valueUserKey_inj in E as [<- <-]; [|done..]. rewrite decide_True by done. by rewrite !lookup_delete_eq.
    + rewrite lookup_delete_ne, (sim_val n p m Hs) by done. case_decide; [subst|done].
      rewrite lookup_delete_ne; [done|]. congruence.
  - intros ns' k' q. rewrite db_delete_spec, lookup_delete_ne; [done|apply value_list_ne].
Qed.

(** The batch of [RestoreAll] after its range deletion. *)
Lemma restore_fold ns (l : list (bytes * bytes)) d key :
  nulfree ns -> NoDup l.*1 ->
  db_view (foldl (λ d kv, db_set (valueUserKey ns kv.1) kv.2 d) d l) !! key =
  match list_find (λ kv, valueUserKey ns kv.1 = key) l with
  | Some (_, kv) => Some kv.2
  | None => db_view d !! key
  end.
Proof.
  intros Hns. revert d. induction l as [|[k v] l IH]; intros d Hn; [done|].
  cbn [fmap list_fmap fst] in Hn. apply NoDup_cons in Hn as [Hni Hn].
  cbn [foldl list_find fst snd]. rewrite IH, db_set_spec by done.
  destruct (decide (valueUserKey ns k = key)) as [<-|Hne].
  - destruct (list_find _ l) as [[i kv]|] eqn:E.
    + apply list_find_Some in E as (Hi & Hk & _).
      apply valueUserKey_inj in Hk as [_ Hk]; [|done..]. destruct Hni. rewrite <- Hk.
      apply list_elem_of_fmap. exists kv. split; [done|]. by apply list_elem_of_lookup_2 in Hi.
    + by rewrite lookup_insert_eq.
  - rewrite lookup_insert_ne by done. by destruct (list_find _ l) as [[i kv]|].
Qed.

Lemma restore_sim n p m ns e :
  sim n p m -> nulfree ns ->
  exists p' m', pebble_restore ns e p = Ok p' /\ mem_restore ns e m = Ok m' /\ sim n p' m'.
Proof.
  intros Hs Hns. unfold pebble_restore, mem_restore. rewrite (sim_open n p m Hs).
  eexists. eexists. split; [reflexivity|]. split; [reflexivity|].
  set (d := db_deleteRange _ _ _).
  assert (Hd : forall key, db_view d !! key
    = if decide (valuePrefixBytes ns `prefix_of` key) then None else db_view (pdb p) !! key).
  { intros key. unfold d. rewrite db_deleteRange_spec. unfold prefixStart, prefixEnd.
    pose proof (in_bounds_prefix (valueUserKey ns []) key) as Hb.
    destruct (in_bounds _ _ key), (decide (valuePrefixBytes ns `prefix_of` key)) as [|H]; try done.
    - destruct H. apply Hb; [by left|done].
    - exfalso. assert (false = true); [|done]. apply Hb; [by left|done]. }
  pose proof (λ key, restore_fold ns (map_to_list e) d key Hns (NoDup_fst_map_to_list e)) as Hf.
  apply (sim_values n p m); try done; [apply (sim_open n p m Hs)|..]; cbn [pdb set_db].
  - intros key. rewrite Hf. destruct (list_find _ _) as [[i kv]|] eqn:E.
    + apply list_find_Some in E as (_ & <- & _). left. eauto.
    + rewrite Hd. case_decide; [by intros [? ?]|]. by apply (sim_shape n p m Hs).
  - intros ns' k Hns'. rewrite Hf, mem_data_insert. destruct (list_find _ _) as [[i kv]|] eqn:E.
    + apply list_find_Some in E as (Hi & Hk & _). apply valueUserKey_inj in Hk as [-> <-]; [|done..].
      rewrite decide_True by done. symmetry. apply elem_of_map_to_list. destruct kv.
      by apply list_elem_of_lookup_2 in Hi.
    + rewrite Hd. destruct (decide (ns' = ns)) as [->|Hne].
      * rewrite decide_True by (by apply value_prefix). symmetry. apply eq_None_not_Some.
        intros [v Hv]. apply list_find_None in E. rewrite Forall_forall in E.
        apply (E (k, v)); [|done]. by apply elem_of_map_to_list.
      * rewrite decide_False by (intros Hp; apply value_prefix in Hp; [congruence|done|done]).
        by apply (sim_val n p m Hs).
  - intros ns' k q. rewrite Hf. destruct (list_find _ _) as [[i kv]|] eqn:E.
    + by apply list_find_Some in E as (_ & E & _).
    + rewrite Hd. by rewrite decide_False by apply value_list_noprefix.
Qed.

Lemma list_sim_append (view : gmap bytes bytes) ns k next vs v :
  nulfree ns -> nulfree k -> 0 <= next < 2^64 - 1 ->
  list_sim view ns k next vs ->
  list_sim (<[listEntryKey ns k next := v]> view) ns k (next + 1) (vs ++ [v]).
Proof.
  intros Hns Hk Hn (ss & H1 & H2 & H3 & H4). exists (ss ++ [next]). split_and!.
  - rewrite !length_app. cbn. lia.
  - apply StronglySorted_app. split_and!; [|done|repeat constructor].
    intros q q' Hq ->%list_elem_of_singleton. rewrite Forall_forall in H3. apply (H3 q Hq).
  - apply Forall_app. split; [|constructor; [lia|constructor]].
    eapply Forall_impl; [exact H3|]. intros q Hq. cbv beta in Hq. lia.
  - intros q v' Hq. rewrite zip_with_app by done. cbn [zip_with]. rewrite elem_of_app, list_elem_of_singleton.
    destruct (decide (q = next)) as [->|Hne].
    + rewrite lookup_insert_eq. split; [intros [= ->]; by right|]. intros [Hin|[= ->]]; [|done].
      apply elem_of_zip_l in Hin. rewrite Forall_forall in H3. specialize (H3 _ Hin). cbv beta in H3. lia.
    + rewrite lookup_insert_ne, H4 by (done || (intros E; apply listEntryKey_inj in E; [naive_solver|done..|lia|done])).
      split; [by left|]. by intros [?|[= ? _]].
Qed.

Lemma mem_append_ldata ns k v m ns' :
  mem_ldata ns' (mem_append ns k v m)
  = if decide (ns' = ns) then <[k := mem_getall ns k m ++ [v]]> (mem_ldata ns m) else mem_ldata ns' m.
Proof. unfold mem_append. by rewrite mem_ldata_insert. Qed.

Lemma append_sim n p m ns k v :
  sim n p m -> n + 1 < 2^64 -> nulfree ns -> nulfree k ->
  sim (n + 1) (pebble_append ns k v p) (mem_append ns k v m).
Proof.
  intros Hs Hn Hns Hk. unfold pebble_append. rewrite (sim_open n p m Hs). cbv zeta.
  fold (seq_of p ns k). set (seq := seq_of p ns k). pose proof (sim_seq n p m Hs ns k : 0 <= seq <= n) as Hseq.
  assert (Hw : wrapU 64 (seq + 1) = seq + 1) by (unfold wrapU; apply Z.mod_small; lia). rewrite Hw.
  assert (Hq : forall ns' k', seq_of (mkPebble (db_set (listEntryKey ns k seq) v (pdb p))
    (<[(ns, k) := seq + 1]> (seqs p)) false) ns' k'
    = if decide ((ns, k) = (ns', k')) then seq + 1 else seq_of p ns' k').
  { intros ns' k'. unfold seq_of. cbn [seqs]. rewrite lookup_insert. by case_decide. }
  split; [done|..]; cbn [pdb].
  - intros key. rewrite db_set_spec, lookup_insert. case_decide; [|by apply (sim_shape n p m Hs)].
    intros _. right. exists ns, k, seq. split_and!; try done; lia.
  - intros ns' k' Hns'. rewrite db_set_spec, lookup_insert_ne; [by apply (sim_val n p m Hs)|].
    intros E. symmetry in E. by apply value_list_ne in E.
  - intros ns' k' Hns' Hk'. rewrite Hq, db_set_spec. unfold mem_getall at 1. rewrite mem_append_ldata.
    destruct (decide ((ns, k) = (ns', k'))) as [[= <- <-]|Hne].
    + rewrite decide_True, lookup_insert_eq by done. apply list_sim_append; [done|done|lia|].
      by apply (sim_list n p m Hs).
    + replace (default [] _) with (mem_getall ns' k' m).
      * eapply list_sim_ext; [|done|by apply (sim_list n p m Hs)].
        intros q Hr. apply lookup_insert_ne. intros E. apply listEntryKey_inj in E; [naive_solver|done..|lia|done].
      * unfold mem_getall at 1. case_decide; [subst|done]. rewrite lookup_insert_ne by congruence. done.
  - intros ns' k'. rewrite Hq. pose proof (sim_seq n p m Hs ns' k'). case_decide; lia.
  - apply mem_ok_append, (sim_mem n p m Hs).
  - intros ns' k' Hns'. rewrite mem_append_ldata. case_decide; [subst|by apply (sim_live n p m Hs)].
    rewrite lookup_insert. case_decide; [by subst|]. by apply (sim_live n p m Hs).
Qed.

Lemma lclear_sim n p m ns k :
  sim n p m -> nulfree ns -> nulfree k -> sim n (pebble_lclear ns k p) (mem_lclear ns k m).
Proof.
  intros Hs Hns Hk. unfold pebble_lclear. rewrite (sim_open n p m Hs). cbv zeta. set (d := db_deleteRange _ _ _).
  assert (Hd : forall key, db_view d !! key
    = if decide (listPrefixBytes ns k `prefix_of` key) then None else db_view (pdb p) !! key).
  { intros key. unfold d. rewrite db_deleteRange_spec.
    pose proof (in_bounds_prefix (listPrefixBytes ns k) key) as Hb.
    assert (He : Exists (λ c, byteZ c < 255) (listPrefixBytes ns k)) by (rewrite listPrefixBytes_eq; by left).
    specialize (Hb He). destruct (in_bounds _ _ key), (decide (listPrefixBytes ns k `prefix_of` key)); naive_solver. }
  split; [apply (sim_open n p m Hs)|..]; cbn [pdb set_db].
  - intros key. rewrite Hd. case_decide; [by intros [? ?]|]. by apply (sim_shape n p m Hs).
  - intros ns' k' Hns'. rewrite Hd, decide_False by apply list_value_noprefix.
    rewrite (sim_val n p m Hs) by done. unfold mem_lclear. by destruct (mlist m !! ns).
  - intros ns' k' Hns' Hk'. change (seq_of (set_db p d) ns' k') with (seq_of p ns' k').
    unfold mem_getall. rewrite mem_lclear_data. destruct (decide (ns' = ns /\ k' = k)) as [[-> ->]|Hne].
    + rewrite decide_True, lookup_delete_eq by done. exists []. split_and!; [done|constructor|constructor|].
      intros q v Hq. rewrite Hd, decide_True by (by apply listEntry_prefix). split; [done|]. by intros ?%elem_of_nil.
    + replace (default [] _) with (mem_getall ns' k' m).
      * eapply list_sim_ext; [|done|by apply (sim_list n p m Hs)].
        intros q Hr. rewrite Hd, decide_False; [done|]. rewrite listEntry_prefix by done. naive_solver.
      * unfold mem_getall. case_decide; [subst|done]. rewrite lookup_delete_ne by naive_solver. done.
  - apply (sim_seq n p m Hs).
  - apply mem_ok_lclear, (sim_mem n p m Hs).
  - intros ns' k' Hns'. rewrite mem_lclear_data. case_decide; [subst|by apply (sim_live n p m Hs)].
    rewrite lookup_delete. case_decide; [by intros [? ?]|]. by apply (sim_live n p m Hs).
Qed.

Lemma sim_start d : db_view d = ∅ -> sim 0 (OpenPebble d) NewMemoryBackend.
Proof.
  intros Hd. split; cbn [OpenPebble pdb]; rewrite ?Hd; [done|..].
  - intros key [? H]. by rewrite lookup_empty in H.
  - intros ns k _. unfold mem_data. cbn. by rewrite !lookup_empty.
  - intros ns k Hns Hk. exists []. split_and!; [done|constructor|constructor|].
    intros q v _. rewrite lookup_empty. split; [done|]. by intros ?%elem_of_nil.
  - intros ns k. unfold seq_of. cbn. rewrite lookup_empty. cbn. lia.
  - apply mem_ok_new.
  - intros ns k _ [? H]. unfold mem_ldata in H. cbn in H. rewrite !lookup_empty in H. cbn in H. by rewrite lookup_empty in H.
Qed.

Lemma sim_weaken n n' p m : sim n p m -> n <= n' -> sim n' p m.
Proof. intros [? ? ? ? Hq ? ?] Hn. split; try done. intros ns k. specialize (Hq ns k). lia. Qed.

Lemma op_sim n p m o :
  sim n p m -> n + 1 < 2^64 -> op_ok o -> sim (n + 1) (apply_op p o) (apply_op m o).
Proof.
  intros Hs Hn Ho. destruct o as [ns k v|ns k|ns e|ns k v|ns k]; cbn in Ho |- *.
  - eapply sim_weaken; [by apply set_sim|lia].
  - eapply sim_weaken; [by apply clear_sim|lia].
  - destruct (restore_sim n p m ns e Hs Ho) as (p' & m' & E1 & E2 & Hs').
    rewrite E1. injection E2 as <-. eapply sim_weaken; [exact Hs'|lia].
  - destruct Ho. by apply append_sim.
  - destruct Ho. eapply sim_weaken; [by apply lclear_sim|lia].
Qed.

Lemma ops_sim n p m ops :
  sim n p m -> Forall op_ok ops -> n + Z.of_nat (length ops) < 2^64 ->
  sim (n + Z.of_nat (length ops)) (foldl apply_op p ops) (foldl apply_op m ops).
Proof.
  intros Hs Ho. revert n p m Hs. induction Ho as [|o ops Ho _ IH]; intros n p m Hs Hn; cbn [foldl length] in *.
  - by rewrite Z.add_0_r.
  - rewrite Nat2Z.inj_succ in *. replace (n + Z.succ (Z.of_nat (length ops))) with (n + 1 + Z.of_nat (length ops)) by lia.
    apply IH; [|lia]. apply op_sim; [done|lia|done].
Qed.

(** C6: the Pebble backend refines the in-memory one.  After any sequence of
    fewer than 2^64 operations on an empty store, with no NUL byte in a
    namespace or list key, the two backends give the same answer to every
    read: values, lists in append order, snapshots and live keys (as sets;
    neither promises an order). *)
Theorem pebble_refines_memory (d : D) (ops : list BOp) (ns : bytes) :
  db_view d = ∅ -> Forall op_ok ops -> Z.of_nat (length ops) < 2^64 -> nulfree ns ->
  let p := foldl apply_op (OpenPebble d) ops in
  let m := foldl apply_op NewMemoryBackend ops in
  (forall k, value_get ns k p = value_get ns k m) /\
  (forall k, nulfree k -> list_getall ns k p = list_getall ns k m) /\
  value_snapshot ns p = value_snapshot ns m /\
  value_keys ns p ≡ₚ value_keys ns m /\ list_keys ns p ≡ₚ list_keys ns m.
Proof.
  intros Hd Ho Hn Hns p m. pose proof (ops_sim 0 _ _ ops (sim_start d Hd) Ho ltac:(lia)) as Hs.
  fold p m in Hs. rewrite Z.add_0_l in Hs. split_and!.
  - intros k. by eapply get_sim.
  - intros k Hk. by eapply getall_sim.
  - by eapply snapshot_sim.
  - by eapply value_keys_sim.
  - by eapply list_keys_sim.
Qed.

Lemma scan_view lo hi (d d' : D) : db_view d = db_view d' -> db_scan lo hi d = db_scan lo hi d'.
Proof.
  intros E. apply sorted_assoc_eq; try apply db_scan_sorted; try apply db_scan_nodup.
  intros [k v]. by rewrite !db_scan_spec, E.
Qed.

(** A native checkpoint restores every read: a backend rebuilt from the
    checkpoint of an open backend answers every get, list, snapshot and key
    query as the original did. *)
Theorem pebble_checkpoint_reads (p p0 : PebbleBackend D) :
  closed p = false ->
  exists img, CheckpointTo p = Ok img /\
  let q := RestoreFrom img p0 in
  forall ns k, value_get ns k q = value_get ns k p /\ list_getall ns k q = list_getall ns k p /\
    value_snapshot ns q = value_snapshot ns p /\ value_keys ns q = value_keys ns p /\
    list_keys ns q = list_keys ns p.
Proof.
  intros Hc. exists (db_checkpoint (pdb p)). unfold CheckpointTo. rewrite Hc. split; [done|].
  cbv zeta. intros ns k. pose proof (db_checkpoint_spec (pdb p)) as E. cbn.
  unfold pebble_get, pebble_getall, pebble_snapshot, pebble_keys, pebble_lkeys, value_scan, RestoreFrom.
  rewrite Hc. cbn [closed pdb]. rewrite !db_get_spec, E, !(scan_view _ _ _ _ E). done.
Qed.

(** The sequence numbers of lists are not restored with the data.  After
    a native restore the first append to a restored list takes number 0
    again and overwrites its first entry: of two entries and one appended
    after the restore, two remain. *)
Theorem restore_then_append_overwrites (d : D) (ns k v1 v2 v3 : bytes) :
  db_view d = ∅ -> nulfree ns -> nulfree k ->
  let p := list_append ns k v2 (list_append ns k v1 (OpenPebble d)) in
  list_getall ns k p = [v1; v2] /\
  exists img, CheckpointTo p = Ok img /\
    list_getall ns k (list_append ns k v3 (RestoreFrom img p)) = [v3; v2].
Proof.
  intros Hd Hns Hk p.
  assert (Hs : sim (0 + 1 + 1) p (mem_append ns k v2 (mem_append ns k v1 NewMemoryBackend)))
    by (do 2 (apply append_sim; [|lia|done|done]); by apply sim_start).
  split.
  { etransitivity; [apply (getall_sim _ _ _ ns k Hs); done || lia|]. unfold mem_getall at 1.
    rewrite mem_append_ldata, decide_True, lookup_insert_eq by done. cbn [default from_option].
    unfold mem_getall. rewrite mem_append_ldata, decide_True, lookup_insert_eq by done.
    unfold mem_getall, mem_ldata. cbn. by rewrite !lookup_empty. }
  exists (db_checkpoint (pdb p)). unfold CheckpointTo. rewrite (sim_open _ _ _ Hs). split; [done|].
  assert (Ev : db_view (pdb p) = <[listEntryKey ns k 1 := v2]> (<[listEntryKey ns k 0 := v1]> ∅)).
  { cbn. unfold pebble_append. cbn. rewrite !lookup_empty, lookup_insert_eq. cbn.
    rewrite !db_set_spec, Hd. done. }
  clearbody p. change (pebble_getall ns k (pebble_append ns k v3 (RestoreFrom (db_checkpoint (pdb p)) p)) = [v3; v2]).
  assert (Eq : pebble_append ns k v3 (RestoreFrom (db_checkpoint (pdb p)) p)
    = mkPebble (db_set (listEntryKey ns k 0) v3 (db_open (db_checkpoint (pdb p))))
        (<[(ns, k) := wrapU 64 (0 + 1)]> ∅) false)
    by (unfold pebble_append, RestoreFrom; cbn [closed pdb seqs]; by rewrite lookup_empty).
  rewrite Eq. clear Eq. apply (getall_entries _ ns k [0; 1]); cbn [closed pdb]; [done|done|done| |done| | |].
  - intros key. rewrite db_set_spec, db_checkpoint_spec, lookup_insert.
    case_decide; [subst; intros _; right; exists ns, k, 0; split_and!; done|]. apply (sim_shape _ _ _ Hs).
  - repeat constructor.
  - repeat constructor; lia.
  - intros q v Hq. rewrite db_set_spec, db_checkpoint_spec, Ev. cbn [zip_with zip].
    rewrite !elem_of_cons, elem_of_nil.
    assert (Hinj : forall q', 0 <= q' < 2^64 -> listEntryKey ns k q' = listEntryKey ns k q -> q' = q)
      by (intros q' ? E; by apply listEntryKey_inj in E as (_ & _ & ?)).
    destruct (decide (q = 0)) as [->|H0]; [|destruct (decide (q = 1)) as [->|H1]].
    + rewrite lookup_insert_eq. naive_solver.
    + rewrite lookup_insert_ne, lookup_insert_eq by (intros E; apply Hinj in E; lia). naive_solver.
    + rewrite !lookup_insert_ne, lookup_empty by (intros E; apply Hinj in E; lia). naive_solver.
Qed.

(** List keys that contain NUL collide with their own prefixes.  An
    entry appended under k\x00x shows up in the list of k, and clearing k
    deletes it. *)
Theorem nul_keys_collide (d : D) (ns k x v : bytes) :
  db_view d = ∅ ->
  let p := list_append ns (k ++ NUL :: x) v (OpenPebble d) in
  list_getall ns k p = [v] /\ list_getall ns (k ++ NUL :: x) (list_clear ns k p) = [].
Proof.
  intros Hd p. set (e := listEntryKey ns (k ++ NUL :: x) 0).
  assert (Hp : pdb p = db_set e v d /\ closed p = false)
    by (unfold p; cbn; unfold pebble_append; cbn [closed OpenPebble pdb seqs]; by rewrite lookup_empty).
  clearbody p. destruct Hp as [Hp Hc].
  assert (Hpre : listPrefixBytes ns k `prefix_of` e).
  { rewrite listPrefixBytes_eq. unfold e, listEntryKey. rewrite <- (app_assoc k). simpl.
    do 2 apply prefix_cons. apply prefix_app, prefix_cons, prefix_app, prefix_cons, prefix_nil. }
  assert (He : Exists (λ c, byteZ c < 255) (listPrefixBytes ns k)) by (rewrite listPrefixBytes_eq; by left).
  split.
  - cbn. unfold pebble_getall. rewrite Hc. cbv zeta.
    replace (db_scan _ _ _) with [(e, v)]; [done|]. symmetry. apply sorted_assoc_eq;
      [apply db_scan_sorted|apply db_scan_nodup|repeat constructor|apply NoDup_singleton|].
    intros [k' v']. rewrite list_scan_spec, list_elem_of_singleton, Hp, db_set_spec, Hd.
    rewrite lookup_insert, lookup_empty. case_decide; naive_solver.
  - cbn. unfold pebble_lclear, pebble_getall. rewrite Hc. cbn [closed set_db pdb]. rewrite Hc.
    destruct (db_scan _ _ _) as [|[k' v'] l] eqn:E; [done|]. exfalso.
    assert (Hin : (k', v') ∈ (k', v') :: l) by left. rewrite <- E in Hin.
    apply db_scan_spec in Hin as [Hv _]. rewrite db_deleteRange_spec, Hp, db_set_spec, Hd in Hv.
    rewrite lookup_insert, lookup_empty in Hv. destruct (in_bounds _ _ k') eqn:Eb; [done|].
    case_decide; [subst k'|done]. apply (in_bounds_prefix _ e He) in Hpre. congruence.
Qed.
End Refinement.

(** ** A concrete store *)

#[export] Instance gmap_db : PebbleDB (gmap bytes bytes) := {
  db_get k d := d !! k;
  db_set k v d := <[k := v]> d;
  db_delete k d := delete k d;
  db_deleteRange lo hi d := filter (λ kv, in_bounds lo hi kv.1 = false) d;
  db_scan lo hi d := merge_sort (λ x y, bytes_le x.1 y.1)
    (map_to_list (filter (λ kv, in_bounds lo hi kv.1 = true) d));
  db_image := gmap bytes bytes;
  db_checkpoint d := d;
  db_open d := d;
}.

#[export] Instance fst_le_trans : Transitive (λ x y : bytes * bytes, bytes_le x.1 y.1).
Proof. intros x y z. apply bytes_le_trans. Qed.
#[export] Instance fst_le_total : Total (λ x y : bytes * bytes, bytes_le x.1 y.1).
Proof. intros x y. apply bytes_leb_total. Qed.

Lemma sorted_fst (l : list (bytes * bytes)) :
  StronglySorted (λ x y, bytes_le x.1 y.1) l -> StronglySorted bytes_le l.*1.
Proof. induction 1 as [|x l _ IH H]; [constructor|]. cbn. constructor; [done|]. by apply Forall_fmap. Qed.

#[export] Program Instance gmap_db_laws : PebbleLaws (gmap bytes bytes) := { db_view d := d }.
Next Obligation. done. Qed.
Next Obligation. done. Qed.
Next Obligation. done. Qed.
Next Obligation.
  intros lo hi d k. cbn. rewrite map_lookup_filter. destruct (d !! k); cbn; destruct (in_bounds lo hi k) eqn:E;
    try done; by rewrite ?option_guard_False, ?option_guard_True by congruence.
Qed.
Next Obligation.
  intros lo hi d. apply sorted_fst, StronglySorted_merge_sort; apply _.
Qed.
Next Obligation.
  intros lo hi d. cbn. rewrite merge_sort_Permutation. apply NoDup_fst_map_to_list.
Qed.
Next Obligation.
  intros lo hi d k v. cbn. rewrite merge_sort_Permutation, elem_of_map_to_list, map_lookup_filter_Some. done.
Qed.
Next Obligation. done. Qed.

(** ** Witnesses *)

Lemma pebble_refines_memory_witness :
  let ops := [OAppend (b "w") (b "k") (b "1"); OSet (b "r") (b "k") (Some (b "2")); OAppend (b "w") (b "k") (b "3")] in
  list_getall (b "w") (b "k") (foldl apply_op (OpenPebble (∅ : gmap bytes bytes)) ops) = [b "1"; b "3"].
Proof.
  intros ops. refine (eq_trans (proj1 (proj2 (pebble_refines_memory (∅ : gmap bytes bytes) ops (b "w") _ _ _ _)) (b "k") _) _).
  - reflexivity.
  - repeat constructor; apply (bool_decide_unpack _); vm_compute; exact I.
  - vm_compute. reflexivity.
  - apply (bool_decide_unpack _). vm_compute. exact I.
  - apply (bool_decide_unpack _). vm_compute. exact I.
  - vm_compute. reflexivity.
Defined.

Lemma pebble_checkpoint_reads_witness :
  let p := list_append (b "w") (b "k") (b "1") (OpenPebble (∅ : gmap bytes bytes)) in
  exists img, CheckpointTo p = Ok img /\
    list_getall (b "w") (b "k") (RestoreFrom img p) = [b "1"].
Proof.
  intros p. destruct (pebble_checkpoint_reads p p eq_refl) as (img & H1 & H2).
  exists img. split; [exact H1|]. rewrite (proj1 (proj2 (H2 (b "w") (b "k")))). vm_compute. reflexivity.
Defined.

Lemma restore_then_append_overwrites_witness :
  let p := list_append (b "w") (b "k") (b "2")
    (list_append (b "w") (b "k") (b "1") (OpenPebble (∅ : gmap bytes bytes))) in
  list_getall (b "w") (b "k") p = [b "1"; b "2"] /\
  exists img, CheckpointTo p = Ok img /\
    list_getall (b "w") (b "k") (list_append (b "w") (b "k") (b "3") (RestoreFrom img p)) = [b "3"; b "2"].
Proof.
  apply (restore_then_append_overwrites (∅ : gmap bytes bytes) (b "w") (b "k") (b "1") (b "2") (b "3")).
  - reflexivity.
  - apply (bool_decide_unpack _). vm_compute. exact I.
  - apply (bool_decide_unpack _). vm_compute. exact I.
Defined.

Lemma nul_keys_collide_witness :
  let k2 := b "a" ++ NUL :: b "b" in
  let p := list_append (b "w") k2 (b "1") (OpenPebble (∅ : gmap bytes bytes)) in
  list_getall (b "w") (b "a") p = [b "1"] /\ list_getall (b "w") k2 (list_clear (b "w") (b "a") p) = [].
Proof. apply (nul_keys_collide (∅ : gmap bytes bytes) (b "w") (b "a") (b "b") (b "1")). reflexivity. Defined.
