(* ===== verification/Merge.v ===== *)
(** * Package pipeline: the aligned merge

    [alignedMerge] fans the outputs of N workers into one channel and emits a
    broadcast marker (barrier or watermark) once, after all N copies arrived.
    Its goroutines are a step relation over explicit channel contents; the
    specification is an abstract merge that consumes the workers' streams
    directly and may emit a marker only when it heads every stream. *)
From S2P Require Import Prelude Types.

(** ** Specification *)

(** [emits ss out ss']: the abstract merge sends [out] while consuming the
    worker streams from [ss] down to [ss']. *)
Inductive emits : list (list Rec) -> list Rec -> list (list Rec) -> Prop :=
| emits_nil ss : emits ss [] ss
| emits_data ss w r rest out ss' :
    ss !! w = Some (r :: rest) -> is_marker r = false ->
    emits (<[w := rest]> ss) out ss' -> emits ss (r :: out) ss'
| emits_marker ss m rests out ss' :
    is_marker m = true -> ss = cons m <$> rests ->
    emits rests out ss' -> emits ss (m :: out) ss'.

(** ** The goroutines *)

(** A worker's forwarding goroutine: what its output channel still holds,
    whether it waits on its resume channel, and whether that holds a token. *)
Record worker : Type := mkWorker { pending : list Rec; parked : bool; token : bool }.

(** Records in the fan-in channel carry the worker they came from, which no
    step looks at: it only names the sender in the proofs. *)
Record mstate : Type := mkM {
  workers : list worker; fanIn : list (nat * Rec); arrived : nat; mout : list Rec;
}.

Definition grant (wk : worker) : worker := mkWorker (pending wk) (parked wk) true.

(** One iteration of the merge loop, for the record [r] just received. *)
Definition merge_recv (s : mstate) (r : Rec) (q : list (nat * Rec)) : mstate :=
  let n := length (workers s) in
  if is_marker r then
    if (arrived s + 1 <? n)%nat then mkM (workers s) q (arrived s + 1) (mout s)
    else mkM (grant <$> workers s) q 0 (mout s ++ [r])
  else mkM (workers s) q (arrived s) (mout s ++ [r]).

Inductive mstep (s : mstate) : mstate -> Prop :=
| st_forward w wk r rest :     (* a forwarder moves a record into the fan-in *)
    workers s !! w = Some wk -> parked wk = false -> pending wk = r :: rest ->
    mstep s (mkM (<[w := mkWorker rest (is_marker r) (token wk)]> (workers s))
                 (fanIn s ++ [(w, r)]) (arrived s) (mout s))
| st_resume w wk :             (* a parked forwarder takes its resume token *)
    workers s !! w = Some wk -> parked wk = true -> token wk = true ->
    mstep s (mkM (<[w := mkWorker (pending wk) false false]> (workers s))
                 (fanIn s) (arrived s) (mout s))
| st_recv w r q :              (* the merge loop receives from the fan-in *)
    fanIn s = (w, r) :: q -> mstep s (merge_recv s r q).

Definition merge_init (ss : list (list Rec)) : mstate :=
  mkM ((λ l, mkWorker l false false) <$> ss) [] 0 [].

Definition mreach (ss : list (list Rec)) (s : mstate) : Prop := rtc mstep (merge_init ss) s.

(** The streams are aligned: a marker was broadcast to every worker. *)
Definition markers (l : list Rec) : list Rec := List.filter is_marker l.
Definition aligned (ss : list (list Rec)) : Prop := exists ms, Forall (λ l, markers l = ms) ss.

(** ** The simulation *)

(** What worker [w] has in the fan-in. *)
Definition fan (w : nat) (q : list (nat * Rec)) : list Rec :=
  (List.filter (λ x, Nat.eqb x.1 w) q).*2.

Lemma fan_app w q q' : fan w (q ++ q') = fan w q ++ fan w q'.
Proof. unfold fan. by rewrite List.filter_app, fmap_app. Qed.
Lemma fan_snoc w q w' r : fan w (q ++ [(w', r)]) = if decide (w' = w) then fan w q ++ [r] else fan w q.
Proof.
  rewrite fan_app. unfold fan at 2. cbn [List.filter fst]. destruct (Nat.eqb_spec w' w), (decide (w' = w)); try done.
  by rewrite app_nil_r.
Qed.
Lemma fan_cons w w' r q : fan w ((w', r) :: q) = if decide (w' = w) then r :: fan w q else fan w q.
Proof. unfold fan. cbn [List.filter fst]. by destruct (Nat.eqb_spec w' w), (decide (w' = w)). Qed.

Definition is_datas (l : list Rec) : Prop := Forall (λ r, is_marker r = false) l.

(** A worker's place in the protocol, with the rest of its abstract stream:
    running; its marker in the fan-in; its marker counted by the merge
    ([held]); released by a token it has not taken yet. *)
Inductive wst : bool -> worker -> list Rec -> list Rec -> Prop :=
| W_free p f : is_datas f -> wst false (mkWorker p false false) f (f ++ p)
| W_sent p f m : is_datas f -> is_marker m = true ->
    wst false (mkWorker p true false) (f ++ [m]) (f ++ m :: p)
| W_held p m : is_marker m = true -> wst true (mkWorker p true false) [] (m :: p)
| W_released p : wst false (mkWorker p true true) [] p.

Record R (s : mstate) (ss : list (list Rec)) (hs : list nat) : Prop := {
  R_len : length ss = length (workers s);
  R_st : forall w wk l, workers s !! w = Some wk -> ss !! w = Some l ->
    wst (bool_decide (w ∈ hs)) wk (fan w (fanIn s)) l;
  R_held : NoDup hs /\ length hs = arrived s /\ Forall (λ w, (w < length ss)%nat) hs;
  R_room : hs = [] \/ (length hs < length ss)%nat;
  R_tags : Forall (λ x, (x.1 < length ss)%nat) (fanIn s);
  R_aligned : aligned ss;
}.

Lemma markers_app l l' : markers (l ++ l') = markers l ++ markers l'.
Proof. apply List.filter_app. Qed.
Lemma markers_datas l : is_datas l -> markers l = [].
Proof. induction 1 as [|r l Hr _ IH]; [done|]. unfold markers. cbn. by rewrite Hr. Qed.
Lemma markers_cons r l : markers (r :: l) = if is_marker r then r :: markers l else markers l.
Proof. done. Qed.

Lemma R_init ss : aligned ss -> R (merge_init ss) ss [].
Proof.
  intros Ha. split; cbn [merge_init workers fanIn arrived].
  - by rewrite length_fmap.
  - intros w wk l Hw Hl. rewrite list_lookup_fmap, Hl in Hw. injection Hw as <-.
    rewrite bool_decide_false by (by intros ?%elem_of_nil). apply (W_free l []). constructor.
  - split_and!; constructor.
  - by left.
  - constructor.
  - done.
Qed.

Lemma R_forward s ss hs w wk r rest :
  R s ss hs -> workers s !! w = Some wk -> parked wk = false -> pending wk = r :: rest ->
  R (mkM (<[w := mkWorker rest (is_marker r) (token wk)]> (workers s))
         (fanIn s ++ [(w, r)]) (arrived s) (mout s)) ss hs.
Proof.
  intros [H1 H2 H3 Hroom H4 H5] Hw Hp Hr. assert (Hlt : (w < length ss)%nat) by (rewrite H1; by eapply lookup_lt_Some).
  split; cbn [workers fanIn arrived]; [by rewrite length_insert| |done|done| |done].
  - intros w' wk' l Hw' Hl. rewrite fan_snoc. rewrite list_lookup_insert in Hw'. destruct (decide (w = w')) as [<-|Hne].
    + case_decide as Hc; [injection Hw' as <-|].
      * specialize (H2 w wk l Hw Hl). destruct H2 as [p f Hf| | |]; cbn in *; try done. subst p.
        destruct (is_marker r) eqn:E; [by apply (W_sent rest f r)|].
        replace (f ++ r :: rest) with ((f ++ [r]) ++ rest) by (by rewrite <- app_assoc).
        apply (W_free rest (f ++ [r])). apply Forall_app. split; [done|]. by constructor.
      * destruct Hc. split; [done|]. by rewrite <- H1.
    + rewrite decide_False in Hw' by naive_solver. by apply H2.
  - apply Forall_app. split; [done|]. by constructor.
Qed.

Lemma R_resume s ss hs w wk :
  R s ss hs -> workers s !! w = Some wk -> parked wk = true -> token wk = true ->
  R (mkM (<[w := mkWorker (pending wk) false false]> (workers s)) (fanIn s) (arrived s) (mout s)) ss hs.
Proof.
  intros [H1 H2 H3 Hroom H4 H5] Hw Hp Ht.
  split; cbn [workers fanIn arrived]; [by rewrite length_insert| |done|done|done|done].
  intros w' wk' l Hw' Hl. rewrite list_lookup_insert in Hw'. case_decide as Hc; [|by apply H2].
  destruct Hc as [<- _]. injection Hw' as <-. specialize (H2 w wk l Hw Hl).
  destruct H2; cbn in *; try done. apply (W_free p []). constructor.
Qed.

Lemma wst_head h wk r f l :
  wst h wk (r :: f) l -> h = false /\ exists rest, l = r :: rest /\
    (if is_marker r then wk = mkWorker rest true false /\ f = [] else wst false wk f rest).
Proof.
  intros H. remember (r :: f) as f0 eqn:Ef. destruct H as [p f1 Hf|p f1 m Hf Hm|p m Hm|p]; try done.
  - subst f1. apply Forall_cons in Hf as [Hr Hf]. rewrite Hr. split; [done|].
    exists (f ++ p). split; [done|]. by constructor.
  - destruct f1 as [|r1 f1]; injection Ef as -> <-.
    + rewrite Hm. split; [done|]. by exists p.
    + apply Forall_cons in Hf as [Hr Hf]. rewrite Hr. split; [done|].
      exists (f1 ++ m :: p). split; [done|]. by constructor.
Qed.

(** The head of the fan-in heads its worker's abstract stream. *)
Lemma R_head s ss hs w r q :
  R s ss hs -> fanIn s = (w, r) :: q ->
  exists wk rest, workers s !! w = Some wk /\ ss !! w = Some (r :: rest) /\ (w ∉ hs) /\
    (if is_marker r then wk = mkWorker rest true false /\ fan w q = []
     else wst false wk (fan w q) rest).
Proof.
  intros [H1 H2 H3 Hroom H4 H5] Hq. rewrite Hq in *. apply Forall_cons in H4 as [Hlt _]. cbn in Hlt.
  destruct (lookup_lt_is_Some_2 ss w Hlt) as [l Hl].
  destruct (lookup_lt_is_Some_2 (workers s) w) as [wk Hw]; [by rewrite <- H1|].
  specialize (H2 w wk l Hw Hl). rewrite fan_cons, decide_True in H2 by done.
  apply wst_head in H2 as (Hh & rest & -> & Hm). exists wk, rest.
  apply bool_decide_eq_false in Hh. done.
Qed.

Lemma insert_alter_aligned ss w r rest :
  ss !! w = Some (r :: rest) -> is_marker r = false -> aligned ss -> aligned (<[w := rest]> ss).
Proof.
  intros Hw Hr [ms Hms]. exists ms. apply Forall_insert; [done|].
  rewrite Forall_lookup in Hms. specialize (Hms _ _ Hw). rewrite markers_cons, Hr in Hms. done.
Qed.

Lemma R_recv_data s ss hs w r q :
  R s ss hs -> fanIn s = (w, r) :: q -> is_marker r = false ->
  exists rest, ss !! w = Some (r :: rest) /\ R (merge_recv s r q) (<[w := rest]> ss) hs.
Proof.
  intros HR Hq Hr. destruct (R_head s ss hs w r q HR Hq) as (wk & rest & Hw & Hl & Hh & Hwst).
  rewrite Hr in Hwst. exists rest. split; [done|]. unfold merge_recv. rewrite Hr.
  destruct HR as [H1 H2 (H3 & H3' & H3'') Hroom H4 H5]. split; cbn [workers fanIn arrived]; rewrite ?length_insert; try done.
  - intros w' wk' l Hw' Hl'. rewrite list_lookup_insert in Hl'. case_decide as Hc.
    + destruct Hc as [<- _]. injection Hl' as <-. rewrite Hw in Hw'. injection Hw' as <-.
      by rewrite bool_decide_false.
    + specialize (H2 w' wk' l Hw' Hl'). rewrite Hq, fan_cons in H2. rewrite decide_False in H2; [done|].
      intros ->. destruct Hc. split; [done|]. by eapply lookup_lt_Some.
  - rewrite Hq in H4. by apply Forall_cons in H4 as [_ ?].
  - by eapply insert_alter_aligned.
Qed.

Lemma R_recv_hold s ss hs w r q :
  R s ss hs -> fanIn s = (w, r) :: q -> is_marker r = true -> (arrived s + 1 < length (workers s))%nat ->
  R (merge_recv s r q) ss (w :: hs).
Proof.
  intros HR Hq Hr Hn. destruct (R_head s ss hs w r q HR Hq) as (wk & rest & Hw & Hl & Hh & Hwst).
  rewrite Hr in Hwst. destruct Hwst as [-> Hf]. unfold merge_recv. rewrite Hr.
  replace (arrived s + 1 <? length (workers s))%nat with true by (symmetry; by apply Nat.ltb_lt).
  destruct HR as [H1 H2 (H3 & H3' & H3'') Hroom H4 H5].
  rewrite Hq in *. apply Forall_cons in H4 as [Hlt H4]. cbn in Hlt.
  split; cbn [workers fanIn arrived]; try done.
  - intros w' wk' l Hw' Hl'. destruct (decide (w' = w)) as [->|Hne].
    + rewrite bool_decide_true by left. rewrite Hf.
      rewrite Hw in Hw'. rewrite Hl in Hl'. injection Hw' as <-. injection Hl' as <-. by constructor.
    + specialize (H2 w' wk' l Hw' Hl'). rewrite fan_cons, decide_False in H2 by done.
      by rewrite (bool_decide_ext (w' ∈ w :: hs) (w' ∈ hs)) by set_solver.
  - split_and!; [by constructor|cbn; lia|by constructor].
  - right. cbn. lia.
Qed.

Lemma pigeonhole (l : list nat) n i :
  NoDup l -> Forall (λ w, (w < n)%nat) l -> (n <= length l)%nat -> (i < n)%nat -> i ∈ l.
Proof.
  intros Hnd Hlt Hn Hi. apply list_elem_of_In.
  apply (List.NoDup_length_incl (l := l) (l' := List.seq 0 n)).
  - by apply NoDup_ListNoDup.
  - by rewrite List.length_seq.
  - intros x Hx. apply List.in_seq. rewrite Forall_forall in Hlt.
    specialize (Hlt x (proj2 (list_elem_of_In _ _) Hx)). cbn in Hlt. lia.
  - apply List.in_seq. lia.
Qed.

Lemma wst_held wk f l : wst true wk f l -> exists m p, wk = mkWorker p true false /\ f = [] /\ l = m :: p /\ is_marker m = true.
Proof. inversion 1; subst. eauto 6. Qed.

Lemma R_recv_emit s ss hs w r q :
  R s ss hs -> fanIn s = (w, r) :: q -> is_marker r = true -> (length (workers s) <= arrived s + 1)%nat ->
  ss = cons r <$> (pending <$> workers s) /\ R (merge_recv s r q) (pending <$> workers s) [].
Proof.
  intros HR Hq Hr Hn. destruct (R_head s ss hs w r q HR Hq) as (wk & rest & Hw & Hl & Hh & Hwst).
  rewrite Hr in Hwst. destruct Hwst as [-> Hf].
  destruct HR as [H1 H2 (H3 & H3' & H3'') Hroom H4 [ms Hms]]. rewrite Hq in *.
  apply Forall_cons in H4 as [Hlt H4]. cbn in Hlt.
  assert (Hall : forall w' wk' l', workers s !! w' = Some wk' -> ss !! w' = Some l' ->
    l' = r :: pending wk' /\ parked wk' = true /\ fan w' q = []).
  { intros w' wk' l' Hw' Hl'. destruct (decide (w' = w)) as [->|Hne].
    { rewrite Hw in Hw'. rewrite Hl in Hl'. injection Hw' as <-. injection Hl' as <-. done. }
    assert (Hin : w' ∈ hs).
    { assert (Hin : w' ∈ w :: hs); [|by apply elem_of_cons in Hin as [?|?]].
      apply (pigeonhole _ (length ss)); [by constructor|by constructor|cbn; lia|by eapply lookup_lt_Some]. }
    specialize (H2 w' wk' l' Hw' Hl'). rewrite bool_decide_true, fan_cons, decide_False in H2 by done.
    apply wst_held in H2 as (m & p & -> & -> & -> & Hm).
    rewrite Forall_lookup in Hms. pose proof (Hms _ _ Hl) as E1. pose proof (Hms _ _ Hl') as E2.
    rewrite markers_cons, Hr in E1. rewrite markers_cons, Hm in E2. split_and!; [|done|done]. cbn. congruence. }
  assert (Hss : ss = cons r <$> (pending <$> workers s)).
  { apply list_eq. intros i. rewrite !list_lookup_fmap. destruct (workers s !! i) as [wk'|] eqn:Ei; cbn.
    - destruct (lookup_lt_is_Some_2 ss i) as [l' El]; [rewrite H1; by eapply lookup_lt_Some|].
      rewrite El. by destruct (Hall i wk' l' Ei El) as [-> _].
    - apply lookup_ge_None in Ei. apply lookup_ge_None. lia. }
  split; [done|]. unfold merge_recv. rewrite Hr.
  replace (arrived s + 1 <? length (workers s))%nat with false by (symmetry; apply Nat.ltb_ge; lia).
  split; cbn [workers fanIn arrived]; rewrite ?length_fmap; try done.
  - intros w' wk' l' Hw' Hl'. rewrite list_lookup_fmap in Hw'. rewrite list_lookup_fmap in Hl'. destruct (workers s !! w') as [wk0|] eqn:E0; [|done].
    injection Hw' as <-. injection Hl' as <-.
    destruct (lookup_lt_is_Some_2 ss w') as [l0 El]; [rewrite H1; by eapply lookup_lt_Some|].
    destruct (Hall w' wk0 l0 E0 El) as (_ & Hp & Hfan). unfold grant. rewrite Hp, Hfan.
    rewrite bool_decide_false by (by intros ?%elem_of_nil). constructor.
  - split_and!; constructor.
  - by left.
  - by rewrite <- H1.
  - destruct ms as [|m ms].
    + rewrite Forall_lookup in Hms. specialize (Hms _ _ Hl). by rewrite markers_cons, Hr in Hms.
    + exists ms. rewrite Hss, Forall_fmap in Hms. eapply Forall_impl; [exact Hms|].
      intros l' E. unfold compose in E. rewrite markers_cons, Hr in E. by injection E.
Qed.

(** Sending one more record at the end. *)
Lemma emits_trans ss out ss1 out1 ss2 :
  emits ss out ss1 -> emits ss1 out1 ss2 -> emits ss (out ++ out1) ss2.
Proof.
  induction 1 as [ss|ss w r rest out ss' Hw Hr _ IH|ss m rests out ss' Hm Hs _ IH]; intros H2; cbn [app]; [done| |].
  - eapply emits_data; eauto.
  - eapply emits_marker; eauto.
Qed.

Lemma step_sim s s' ss hs :
  R s ss hs -> mstep s s' ->
  exists ss' hs' o, mout s' = mout s ++ o /\ emits ss o ss' /\ R s' ss' hs'.
Proof.
  intros HR Hstep. destruct Hstep as [w wk r rest Hw Hp Hr|w wk Hw Hp Ht|w r q Hq].
  - exists ss, hs, []. rewrite app_nil_r. split_and!; [done|constructor|]. by apply R_forward.
  - exists ss, hs, []. rewrite app_nil_r. split_and!; [done|constructor|]. by apply R_resume.
  - destruct (is_marker r) eqn:Hr.
    + destruct (decide (arrived s + 1 < length (workers s))%nat) as [Hn|Hn].
      * exists ss, (w :: hs), []. rewrite app_nil_r. split_and!; [|constructor|by apply R_recv_hold].
        unfold merge_recv. rewrite Hr. apply Nat.ltb_lt in Hn. by rewrite Hn.
      * destruct (R_recv_emit s ss hs w r q HR Hq Hr ltac:(lia)) as [E HR'].
        exists (pending <$> workers s), [], [r]. split_and!; [|eapply emits_marker; [done|exact E|constructor]|done].
        unfold merge_recv. rewrite Hr. apply Nat.ltb_nlt in Hn. by rewrite Hn.
    + destruct (R_recv_data s ss hs w r q HR Hq Hr) as (rest & Hl & HR').
      exists (<[w := rest]> ss), hs, [r]. split_and!; [|eapply emits_data; [done|done|constructor]|done].
      unfold merge_recv. by rewrite Hr.
Qed.

Lemma reach_sim ss s :
  aligned ss -> mreach ss s -> exists ss' hs, emits ss (mout s) ss' /\ R s ss' hs.
Proof.
  intros Ha Hr. unfold mreach in Hr.
  assert (G : forall s0 s1, rtc mstep s0 s1 -> forall ss0 hs0, R s0 ss0 hs0 ->
    exists ss' hs o, mout s1 = mout s0 ++ o /\ emits ss0 o ss' /\ R s1 ss' hs).
  { induction 1 as [s0|s0 s1 s2 H01 _ IH]; intros ss0 hs0 HR.
    - exists ss0, hs0, []. rewrite app_nil_r. split_and!; [done|constructor|done].
    - destruct (step_sim s0 s1 ss0 hs0 HR H01) as (ss1 & hs1 & o1 & E1 & Em1 & HR1).
      destruct (IH ss1 hs1 HR1) as (ss2 & hs2 & o2 & E2 & Em2 & HR2).
      exists ss2, hs2, (o1 ++ o2). split_and!; [by rewrite E2, E1, app_assoc|by eapply emits_trans|done]. }
  destruct (G _ _ Hr ss [] (R_init ss Ha)) as (ss' & hs & o & E & Em & HR). cbn in E. rewrite E. eauto.
Qed.

(** ** Progress and termination *)

(** Moves left for a worker's goroutine. *)
Definition work (wk : worker) : nat := 3 * length (pending wk) + if parked wk then 1 else 0.
Arguments work : simpl never.
Definition merge_measure (s : mstate) : nat :=
  sum_list_with work (workers s) + length (fanIn s).

Lemma sum_insert ws w wk wk' :
  ws !! w = Some wk -> (sum_list_with work (<[w := wk']> ws) + work wk = sum_list_with work ws + work wk')%nat.
Proof.
  revert w. induction ws as [|x ws IH]; intros [|w] Hw; try done.
  - injection Hw as ->. change (<[0%nat := wk']> (wk :: ws)) with (wk' :: ws). cbn [sum_list_with]. lia.
  - change (<[S w := wk']> (x :: ws)) with (x :: <[w := wk']> ws). cbn [sum_list_with].
    specialize (IH w Hw). lia.
Qed.

Lemma sum_grant ws : sum_list_with work (grant <$> ws) = sum_list_with work ws.
Proof. induction ws as [|wk ws IH]; [done|]. cbn. by rewrite IH. Qed.

Lemma measure_step s s' : mstep s s' -> (merge_measure s' < merge_measure s)%nat.
Proof.
  unfold merge_measure. destruct 1 as [w wk r rest Hw Hp Hr|w wk Hw Hp Ht|w r q Hq]; cbn [workers fanIn].
  - pose proof (sum_insert _ _ _ (mkWorker rest (is_marker r) (token wk)) Hw) as E.
    unfold work at 2 4 in E. rewrite Hp, Hr in E. cbn [pending parked length] in E.
    rewrite length_app. cbn [length]. destruct (is_marker r); lia.
  - pose proof (sum_insert _ _ _ (mkWorker (pending wk) false false) Hw) as E.
    unfold work at 2 4 in E. rewrite Hp in E. cbn [pending parked] in E. lia.
  - rewrite Hq. cbn [length]. unfold merge_recv. repeat case_match; cbn [workers fanIn]; rewrite ?sum_grant; lia.
Qed.

Definition finished (s : mstate) : Prop := forall s', ~ mstep s s'.

Lemma finished_idle s w wk :
  finished s -> workers s !! w = Some wk ->
  fanIn s = [] /\ (parked wk = false -> pending wk = []) /\ (parked wk = true -> token wk = false).
Proof.
  intros Hf Hw. split_and!.
  - destruct (fanIn s) as [|[w' r] q] eqn:E; [done|]. exfalso. eapply Hf. by eapply st_recv.
  - intros Hp. destruct (pending wk) as [|r rest] eqn:E; [done|]. exfalso. eapply Hf. by eapply st_forward.
  - intros Hp. destruct (token wk) eqn:E; [|done]. exfalso. eapply Hf. by eapply st_resume.
Qed.

Lemma finished_drained s ss hs : R s ss hs -> finished s -> Forall (λ l, l = []) ss.
Proof.
  intros HR Hf. pose proof HR as [H1 H2 (H3 & H3' & H3'') Hroom H4 [ms Hms]].
  assert (Hst : forall w l, ss !! w = Some l -> (l = [] /\ (w ∉ hs)) \/ (w ∈ hs /\ markers l <> [])).
  { intros w l Hl. destruct (lookup_lt_is_Some_2 (workers s) w) as [wk Hw]; [rewrite <- H1; by eapply lookup_lt_Some|].
    destruct (finished_idle s w wk Hf Hw) as (Hq & Hp & Ht). specialize (H2 w wk l Hw Hl). rewrite Hq in H2.
    remember (bool_decide (w ∈ hs)) as h eqn:Eh. change (fan w []) with (@nil Rec) in H2. remember [] as f eqn:Ef in H2.
    destruct H2 as [p f Hd|p f m Hd Hm|p m Hm|p]; cbn [parked pending token] in *; subst.
    - left. rewrite (Hp eq_refl). symmetry in Eh. by apply bool_decide_eq_false in Eh.
    - by destruct f.
    - right. symmetry in Eh. apply bool_decide_eq_true in Eh. split; [done|]. by rewrite markers_cons, Hm.
    - by specialize (Ht eq_refl). }
  destruct Hroom as [->|Hroom].
  - apply Forall_lookup. intros w l Hl. destruct (Hst w l Hl) as [[? _]|[?%elem_of_nil _]]; done.
  - apply Forall_lookup. intros w l Hl. destruct (Hst w l Hl) as [[? _]|[_ Hm]]; [done|]. exfalso.
    rewrite Forall_lookup in Hms. rewrite (Hms _ _ Hl) in Hm.
    assert (length ss <= length hs)%nat; [|lia]. rewrite <- (List.length_seq (length ss) 0).
    apply List.NoDup_incl_length; [apply List.seq_NoDup|]. intros i [_ Hi]%List.in_seq. cbn in Hi.
    destruct (lookup_lt_is_Some_2 ss i Hi) as [l' Hl']. apply list_elem_of_In.
    destruct (Hst i l' Hl') as [[-> _]|[? _]]; [|done]. by specialize (Hms _ _ Hl').
Qed.

(** ** What the abstract merge delivers *)

Definition datas (l : list Rec) : list Rec := List.filter (λ r, negb (is_marker r)) l.

Lemma datas_cons r l : datas (r :: l) = if is_marker r then datas l else r :: datas l.
Proof. unfold datas. cbn. by destruct (is_marker r). Qed.

Lemma datas_id l : is_datas l -> datas l = l.
Proof. induction 1 as [|r l Hr _ IH]; [done|]. by rewrite datas_cons, Hr, IH. Qed.

Lemma datas_all l : markers l = [] -> datas l = l.
Proof.
  induction l as [|r l IH]; [done|]. rewrite markers_cons, datas_cons.
  destruct (is_marker r); [done|]. intros H. by rewrite IH.
Qed.

Lemma emits_markers ss out ss' :
  emits ss out ss' -> forall w l l', ss !! w = Some l -> ss' !! w = Some l' -> markers l = markers out ++ markers l'.
Proof.
  induction 1 as [ss|ss v r rest out ss' Hv Hr Hem IH|ss m rests out ss' Hm -> Hem IH]; intros w l l' Hl Hl'.
  - cbn. congruence.
  - rewrite markers_cons, Hr. destruct (decide (v = w)) as [->|Hne].
    + assert (l = r :: rest) as -> by congruence. rewrite markers_cons, Hr. eapply IH; [|done].
      apply list_lookup_insert_eq. by eapply lookup_lt_Some.
    + eapply IH; [|done]. by rewrite list_lookup_insert_ne.
  - rewrite list_lookup_fmap in Hl. destruct (rests !! w) as [l0|] eqn:E; [|done]. injection Hl as <-.
    rewrite !markers_cons, Hm. cbn. f_equal. by eapply IH.
Qed.

Lemma concat_insert {A} (ss : list (list A)) w r rest :
  ss !! w = Some (r :: rest) -> concat ss ≡ₚ r :: concat (<[w := rest]> ss).
Proof.
  revert w. induction ss as [|l ss IH]; intros [|w] Hw; try done.
  - injection Hw as ->. done.
  - change (<[S w := rest]> (l :: ss)) with (l :: <[w := rest]> ss). cbn [concat]. rewrite (IH w Hw).
    by rewrite Permutation_middle.
Qed.

Lemma emits_datas ss out ss' :
  emits ss out ss' -> concat (datas <$> ss) ≡ₚ datas out ++ concat (datas <$> ss').
Proof.
  induction 1 as [ss|ss v r rest out ss' Hv Hr Hem IH|ss m rests out ss' Hm -> Hem IH]; [done| |].
  - rewrite datas_cons, Hr. cbn [app]. rewrite <- IH, list_fmap_insert.
    apply concat_insert. rewrite list_lookup_fmap, Hv. cbn [fmap option_fmap option_map].
    by rewrite datas_cons, Hr.
  - rewrite datas_cons, Hm, <- IH, <- list_fmap_compose.
    rewrite (list_fmap_ext (datas ∘ cons m) datas rests); [done|].
    intros i l _. unfold compose. by rewrite datas_cons, Hm.
Qed.

Lemma merge_drains (ss : list (list Rec)) (s : mstate) :
  aligned ss -> mreach ss s -> finished s ->
  emits ss (mout s) ((λ _, []) <$> ss) /\
  Forall (λ l, markers l = markers (mout s)) ss /\
  concat (datas <$> ss) ≡ₚ datas (mout s).
Proof.
  intros Ha Hr Hf. destruct (reach_sim ss s Ha Hr) as (ss' & hs & Hem & HR).
  pose proof (finished_drained s ss' hs HR Hf) as Hd.
  assert (Hlen : length ss' = length ss).
  { rewrite (R_len _ _ _ HR). clear -Hr. unfold mreach in Hr.
    assert (G : forall a c, rtc mstep a c -> length (workers c) = length (workers a)).
    { induction 1 as [|a c d Hs _ IH]; [done|]. rewrite IH. destruct Hs; cbn; rewrite ?length_insert; try done.
      unfold merge_recv. repeat case_match; cbn; by rewrite ?length_fmap. }
    rewrite (G _ _ Hr). cbn. by rewrite length_fmap. }
  assert (E : ss' = (λ _, []) <$> ss).
  { apply list_eq. intros i. rewrite list_lookup_fmap. destruct (ss !! i) eqn:Ei; cbn.
    - destruct (lookup_lt_is_Some_2 ss' i) as [l' El]; [rewrite Hlen; by eapply lookup_lt_Some|].
      rewrite El. rewrite Forall_lookup in Hd. by rewrite (Hd _ _ El).
    - apply lookup_ge_None in Ei. apply lookup_ge_None. lia. }
  subst ss'. split_and!; [done| |].
  - apply Forall_lookup. intros w l Hl. rewrite (emits_markers _ _ _ Hem w l []); [by rewrite app_nil_r|done|].
    by rewrite list_lookup_fmap, Hl.
  - rewrite (emits_datas _ _ _ Hem). rewrite <- list_fmap_compose.
    replace (concat _) with (@nil Rec); [by rewrite app_nil_r|]. clear. by induction ss.
Qed.

(** ** Properties *)

(** C2: in every interleaving of the forwarders and the merge loop, what has
    been sent so far is a prefix the abstract merge can send: each worker's
    order is kept, a marker leaves once, and no record that follows a marker
    on its worker leaves before it. *)
Theorem merge_refines (ss : list (list Rec)) (s : mstate) :
  aligned ss -> mreach ss s -> exists ss', emits ss (mout s) ss'.
Proof. intros Ha Hr. destruct (reach_sim ss s Ha Hr) as (ss' & hs & Hem & _). eauto. Qed.

(** The merge cannot deadlock or lose records.  A state from which no
    goroutine can move has consumed every worker's stream entirely; its
    output has every broadcast marker exactly once and every data record. *)
Theorem merge_completes (ss : list (list Rec)) (s : mstate) :
  aligned ss -> mreach ss s -> finished s ->
  emits ss (mout s) ((λ _, []) <$> ss) /\
  Forall (λ l, markers l = markers (mout s)) ss /\
  concat (datas <$> ss) ≡ₚ datas (mout s).
Proof. apply merge_drains. Qed.

(** Every run of the merge is finite: each step of any goroutine lowers a
    measure that starts at three moves per buffered record. *)
Theorem merge_terminates (ss : list (list Rec)) (n : nat) (s : mstate) :
  nsteps mstep n (merge_init ss) s -> (n <= 3 * length (concat ss))%nat.
Proof.
  intros H.
  assert (G : forall a c, nsteps mstep n a c -> (n + merge_measure c <= merge_measure a)%nat).
  { clear. induction n as [|n IH]; intros a c H; inversion H; subst; [lia|].
    specialize (IH _ _ H2). apply measure_step in H1. lia. }
  apply G in H. transitivity (merge_measure (merge_init ss)); [lia|]. unfold merge_measure. cbn. clear.
  induction ss as [|l ss IH]; [done|]. cbn [fmap list_fmap sum_list_with concat]. rewrite length_app.
  unfold work at 1. cbn [pending parked]. cbn in IH. lia.
Qed.

(** ** Executable schedules *)

Inductive choice : Type := CForward (w : nat) | CResume (w : nat) | CRecv.

Definition mexec (s : mstate) (c : choice) : option mstate :=
  match c with
  | CForward w =>
      match workers s !! w with
      | Some wk =>
          if parked wk then None else
          match pending wk with
          | r :: rest => Some (mkM (<[w := mkWorker rest (is_marker r) (token wk)]> (workers s))
                                (fanIn s ++ [(w, r)]) (arrived s) (mout s))
          | [] => None
          end
      | None => None
      end
  | CResume w =>
      match workers s !! w with
      | Some wk => if parked wk && token wk
          then Some (mkM (<[w := mkWorker (pending wk) false false]> (workers s)) (fanIn s) (arrived s) (mout s))
          else None
      | None => None
      end
  | CRecv => match fanIn s with (w, r) :: q => Some (merge_recv s r q) | [] => None end
  end.

Definition mrun (s : mstate) (cs : list choice) : option mstate :=
  foldl (λ o c, s ← o; mexec s c) (Some s) cs.

Lemma mexec_sound s c s' : mexec s c = Some s' -> mstep s s'.
Proof.
  destruct c as [w|w|]; cbn [mexec].
  - destruct (workers s !! w) as [wk|] eqn:Hw; [|done]. destruct (parked wk) eqn:Hp; [done|].
    destruct (pending wk) as [|r rest] eqn:Hr; [done|]. intros [= <-]. by eapply st_forward.
  - destruct (workers s !! w) as [wk|] eqn:Hw; [|done]. destruct (parked wk && token wk) eqn:Hp; [|done].
    apply andb_true_iff in Hp as [? ?]. intros [= <-]. by eapply st_resume.
  - destruct (fanIn s) as [|[w r] q] eqn:Hq; [done|]. intros [= <-]. by eapply st_recv.
Qed.

Lemma mrun_sound s cs s' : mrun s cs = Some s' -> nsteps mstep (length cs) s s'.
Proof.
  unfold mrun. revert s. induction cs as [|c cs IH]; intros s; cbn [foldl length].
  - intros [= <-]. constructor.
  - cbn [mbind option_bind]. destruct (mexec s c) as [s1|] eqn:E.
    + intros H. econstructor; [by eapply mexec_sound|by apply IH].
    + intros H. exfalso. clear -H. induction cs as [|c' cs IH]; [done|]. by apply IH.
Qed.

Definition idle (wk : worker) : bool :=
  if parked wk then negb (token wk) else bool_decide (pending wk = []).

Lemma finishedb_sound s : fanIn s = [] -> forallb idle (workers s) = true -> finished s.
Proof.
  intros Hq Hi s' Hs. destruct Hs as [w wk r rest Hw Hp Hr|w wk Hw Hp Ht|w r q Hq'].
  - apply list_elem_of_lookup_2, list_elem_of_In in Hw. apply (proj1 (forallb_forall _ _) Hi) in Hw.
    unfold idle in Hw. rewrite Hp in Hw. apply bool_decide_eq_true in Hw. congruence.
  - apply list_elem_of_lookup_2, list_elem_of_In in Hw. apply (proj1 (forallb_forall _ _) Hi) in Hw.
    unfold idle in Hw. by rewrite Hp, Ht in Hw.
  - congruence.
Qed.

(** A worker whose output closes before its copy of a marker (a window
    worker that idled out) stalls the merge: the marker is held for ever, the
    other worker stays parked, and nothing behind the marker is delivered. *)
Theorem merge_stalls_after_exit (m : Rec) (rest : list Rec) :
  is_marker m = true ->
  exists s, mreach [m :: rest; []] s /\ finished s /\ mout s = [] /\
    workers s = [mkWorker rest true false; mkWorker [] false false].
Proof.
  intros Hm. exists (mkM [mkWorker rest true false; mkWorker [] false false] [] 1 []). split_and!; [| |done|done].
  - eapply rtc_l; [eapply (st_forward _ 0 (mkWorker (m :: rest) false false) m rest); done|].
    cbn. rewrite Hm. eapply rtc_once.
    assert (E : mkM [mkWorker rest true false; mkWorker [] false false] [] 1 []
      = merge_recv (mkM [mkWorker rest true false; mkWorker [] false false] [(0%nat, m)] 0 []) m [])
      by (unfold merge_recv; by rewrite Hm).
    rewrite E. by eapply st_recv.
  - by apply finishedb_sound.
Qed.

(** ** Witnesses *)

Definition two_streams : list (list Rec) :=
  [[NewRecord 1 None None; NewBarrier (b "1"); NewRecord 3 None None]; [NewBarrier (b "1"); NewRecord 2 None None]].

Lemma two_aligned : aligned two_streams.
Proof. exists [NewBarrier (b "1")]. repeat constructor. Qed.

Definition schedule : list choice :=
  [CForward 1; CRecv; CForward 0; CForward 0; CRecv; CRecv; CResume 1; CForward 1; CResume 0; CForward 0; CRecv; CRecv].
Definition final : mstate := default (merge_init []) (mrun (merge_init two_streams) schedule).

Lemma final_reached : nsteps mstep 12 (merge_init two_streams) final.
Proof. change 12%nat with (length schedule). apply mrun_sound. vm_compute. reflexivity. Qed.

Lemma merge_refines_witness : exists ss', emits two_streams (mout final) ss'.
Proof.
  apply (merge_refines two_streams final two_aligned). unfold mreach. apply rtc_nsteps. exists 12%nat. exact final_reached.
Defined.

Lemma merge_completes_witness : Forall (λ l, markers l = markers (mout final)) two_streams.
Proof.
  refine (proj1 (proj2 (merge_completes two_streams final two_aligned _ _))).
  - unfold mreach. apply rtc_nsteps. exists 12%nat. exact final_reached.
  - apply finishedb_sound; vm_compute; reflexivity.
Defined.

Lemma merge_terminates_witness : (12 <= 3 * length (concat two_streams))%nat.
Proof. exact (merge_terminates two_streams 12 final final_reached). Defined.

Lemma merge_stalls_after_exit_witness :
  exists s, mreach [[NewBarrier (b "1")]; []] s /\ finished s /\ mout s = [] /\
    workers s = [mkWorker [] true false; mkWorker [] false false].
Proof. apply (merge_stalls_after_exit (NewBarrier (b "1")) []). reflexivity. Defined.
