(* ===== verification/Stages.v ===== *)
(** * Package pipeline: the stages

    The worker loop of [StatelessStage], the round-robin dispatcher and the
    keyed router that feed parallel workers, their composition with the
    aligned merge, and the sink stage. *)
From S2P Require Import Prelude GoTime Types Json State Operators Reduce Merge.

(** ** StatelessStage.runWorker *)

(** The inner loop: push every record of [cur] through one operator, appending
    to the (truncated) other buffer. *)
Fixpoint proc_all (sp : SingleProcessor) (cur alt : list Rec) (q : dlq) : result (list Rec * dlq) :=
  match cur with
  | [] => Ok (alt, q)
  | rec :: cur => '(o, q) ← ProcessOne sp rec q; proc_all sp cur (alt ++ o) q
  end.

(** The loop over the operators, with the buffers swapped after each one and
    the early exit once a record was dropped. *)
Fixpoint chain_loop (sps : list SingleProcessor) (cur alt : list Rec) (q : dlq)
  : result (list Rec * list Rec * dlq) :=
  match sps with
  | [] => Ok (cur, alt, q)
  | sp :: sps =>
      '(alt', q) ← proc_all sp cur (take 0 alt) q;
      match alt' with
      | [] => Ok (alt', cur, q)
      | _ => chain_loop sps alt' cur q
      end
  end.

(** The execution loop: what was sent, and the dead letters or the panic that
    ended it ([recover] turns the panic into an error). *)
Fixpoint runWorker (sps : list SingleProcessor) (bufA bufB : list Rec) (q : dlq) (inp : list Rec)
  : list Rec * result dlq :=
  match inp with
  | [] => ([], Ok q)
  | r :: inp =>
      if is_marker r then
        let '(out, res) := runWorker sps bufA bufB q inp in (r :: out, res)
      else
        match chain_loop sps (take 0 bufA ++ [r]) bufB q with
        | Ok (cur, alt, q) =>
            let '(out, res) := runWorker sps cur alt q inp in (cur ++ out, res)
        | Err e => ([], Err ("stage: operator panicked: " +:+ e))
        end
  end.

(** ** Reference: one operator after the other *)

(** What an operator sends for one record, dead letters aside. *)
Definition one (sp : SingleProcessor) (r : Rec) : list Rec :=
  match ProcessOne sp r [] with Ok (l, _) => l | Err _ => [] end.
Definition chain_spec (sps : list SingleProcessor) (cur : list Rec) : list Rec :=
  foldl (λ cur sp, cur ≫= one sp) cur sps.
Definition stage_spec (sps : list SingleProcessor) (r : Rec) : list Rec :=
  if is_marker r then [r] else chain_spec sps [r].

Lemma ProcessOne_one sp r q l q' : ProcessOne sp r q = Ok (l, q') -> l = one sp r.
Proof.
  unfold one. destruct sp as [p f|p f|p f|p op]; cbn; try (intros [= <- _]; done).
  destruct (proc_Fn op r) as [res|e]; [by intros [= <- _]|]. unfold handleFailure.
  destruct (FailurePolicy op); cbn; [by intros [= <- _]| |done].
  destruct (hasDLQ op); cbn; by intros [= <- _].
Qed.

Lemma proc_all_spec sp cur alt q l q' :
  proc_all sp cur alt q = Ok (l, q') -> l = alt ++ (cur ≫= one sp).
Proof.
  revert alt q. induction cur as [|r cur IH]; intros alt q; cbn [proc_all].
  - intros [= <- _]. by rewrite app_nil_r.
  - destruct (ProcessOne sp r q) as [[o q1]|e] eqn:E; [|done]. cbn [mbind result_bind].
    intros H. apply IH in H as ->. apply ProcessOne_one in E as ->. by rewrite bind_cons, <- app_assoc.
Qed.

Lemma chain_spec_nil sps : chain_spec sps [] = [].
Proof. unfold chain_spec. induction sps as [|sp sps IH]; [done|]. exact IH. Qed.

Lemma chain_loop_spec sps cur alt q cur' alt' q' :
  chain_loop sps cur alt q = Ok (cur', alt', q') -> cur' = chain_spec sps cur.
Proof.
  revert cur alt q. induction sps as [|sp sps IH]; intros cur alt q; cbn [chain_loop].
  - by intros [= <- _ _].
  - destruct (proc_all sp cur (take 0 alt) q) as [[alt1 q1]|e] eqn:E; [|done].
    cbn [mbind result_bind]. apply proc_all_spec in E. rewrite take_0 in E. cbn [app] in E.
    change (chain_spec (sp :: sps) cur) with (chain_spec sps (cur ≫= one sp)). rewrite <- E.
    destruct alt1 as [|r1 alt1]; [|by apply IH]. intros [= <- _ _]. by rewrite chain_spec_nil.
Qed.

Lemma runWorker_spec sps bufA bufB q inp q' :
  (runWorker sps bufA bufB q inp).2 = Ok q' ->
  (runWorker sps bufA bufB q inp).1 = inp ≫= stage_spec sps.
Proof.
  revert bufA bufB q. induction inp as [|r inp IH]; intros bufA bufB q; [done|].
  cbn [runWorker]. rewrite bind_cons. unfold stage_spec at 1. destruct (is_marker r).
  - specialize (IH bufA bufB q). destruct (runWorker sps bufA bufB q inp) as [out res].
    cbn [fst snd] in *. intros H. by rewrite IH.
  - destruct (chain_loop sps (take 0 bufA ++ [r]) bufB q) as [[[cur alt] q1]|e] eqn:E; [|done].
    apply chain_loop_spec in E. rewrite take_0 in E. cbn [app] in E. specialize (IH cur alt q1).
    destruct (runWorker sps cur alt q1 inp) as [out res]. cbn [fst snd] in *. intros H.
    rewrite IH by done. by rewrite E.
Qed.

(** Operators that send data records for data records: what user functions
    must do for the pipeline's control records to mean anything. *)
Definition keeps_data (sp : SingleProcessor) : Prop :=
  forall r, is_marker r = false -> is_datas (one sp r).

Lemma chain_datas sps cur : Forall keeps_data sps -> is_datas cur -> is_datas (chain_spec sps cur).
Proof.
  intros Hk. revert cur. induction Hk as [|sp sps Hsp _ IH]; intros cur Hc; [done|].
  apply (IH (cur ≫= one sp)). clear IH. unfold is_datas in *. induction Hc as [|r cur Hr _ IHc]; [constructor|].
  rewrite bind_cons. apply Forall_app. split; [by apply Hsp|done].
Qed.

(** The reference execution: one goroutine per operator, each running the
    channel loop [Process] over the whole output of the one before. *)
Fixpoint pipe (sps : list SingleProcessor) (inp : list Rec) : result (list Rec) :=
  match sps with
  | [] => Ok inp
  | sp :: sps => '(out, _) ← Process sp inp []; pipe sps out
  end.

Lemma process_each_one sp inp q out q' :
  process_each sp inp q = Ok (out, q') ->
  out = inp ≫= λ r, if is_marker r then [r] else one sp r.
Proof.
  revert q out q'. induction inp as [|r inp IH]; intros q out q'; cbn [process_each].
  - by intros [= <- _].
  - rewrite bind_cons. destruct (is_marker r).
    + cbn [mbind result_bind]. destruct (process_each sp inp q) as [[tl q2]|] eqn:E; [|done].
      cbn [mbind result_bind]. intros [= <- _]. by rewrite (IH _ _ _ E).
    + destruct (ProcessOne sp r q) as [[hd q1]|] eqn:E1; [|done]. cbn [mbind result_bind].
      destruct (process_each sp inp q1) as [[tl q2]|] eqn:E; [|done]. cbn [mbind result_bind].
      intros [= <- _]. apply ProcessOne_one in E1 as ->. by rewrite (IH _ _ _ E).
Qed.

(** ** Success does not depend on the dead-letter log *)

Definition succeeds (sp : SingleProcessor) (r : Rec) : Prop := is_ok (ProcessOne sp r []) = true.

Lemma ProcessOne_succeeds sp r q : is_ok (ProcessOne sp r q) = is_ok (ProcessOne sp r []).
Proof.
  destruct sp as [p f|p f|p f|p op]; try done. cbn. destruct (proc_Fn op r); [done|]. unfold handleFailure.
  by destruct (FailurePolicy op), (hasDLQ op).
Qed.

(** Every call the chain makes on [cur] succeeds. *)
Fixpoint chain_ok (sps : list SingleProcessor) (cur : list Rec) : Prop :=
  match sps with
  | [] => True
  | sp :: sps => Forall (succeeds sp) cur /\ chain_ok sps (cur ≫= one sp)
  end.

Lemma chain_ok_nil sps : chain_ok sps [].
Proof. induction sps; [done|]. by split. Qed.

Lemma chain_ok_app sps l l' : chain_ok sps (l ++ l') <-> chain_ok sps l /\ chain_ok sps l'.
Proof.
  revert l l'. induction sps as [|sp sps IH]; intros l l'; [done|]. cbn [chain_ok].
  rewrite Forall_app, bind_app, IH. tauto.
Qed.

Lemma proc_all_ok sp cur alt q x : proc_all sp cur alt q = Ok x -> Forall (succeeds sp) cur.
Proof.
  revert alt q. induction cur as [|r cur IH]; intros alt q; cbn [proc_all]; [constructor|].
  destruct (ProcessOne sp r q) as [[o q1]|e] eqn:E; [|done]. cbn [mbind result_bind]. intros H.
  constructor; [|by eapply IH]. unfold succeeds. by rewrite <- (ProcessOne_succeeds sp r q), E.
Qed.

Lemma chain_loop_ok sps cur alt q x : chain_loop sps cur alt q = Ok x -> chain_ok sps cur.
Proof.
  revert cur alt q. induction sps as [|sp sps IH]; intros cur alt q; cbn [chain_loop chain_ok]; [done|].
  destruct (proc_all sp cur (take 0 alt) q) as [[alt1 q1]|e] eqn:E; [|done].
  cbn [mbind result_bind]. pose proof (proc_all_ok _ _ _ _ _ E) as Hs. apply proc_all_spec in E.
  rewrite take_0 in E. cbn [app] in E. rewrite <- E.
  destruct alt1 as [|r1 alt1]; intros H; (split; [done|]); [apply chain_ok_nil|by eapply IH].
Qed.

Definition stream_ok (sps : list SingleProcessor) (inp : list Rec) : Prop :=
  Forall (λ r, is_marker r = false -> chain_ok sps [r]) inp.

Lemma runWorker_ok sps bufA bufB q inp q' :
  (runWorker sps bufA bufB q inp).2 = Ok q' -> stream_ok sps inp.
Proof.
  revert bufA bufB q. induction inp as [|r inp IH]; intros bufA bufB q; [constructor|].
  cbn [runWorker]. destruct (is_marker r) eqn:Er.
  - specialize (IH bufA bufB q). destruct (runWorker sps bufA bufB q inp) as [out res].
    cbn [fst snd] in *. intros H. constructor; [intros ?; congruence|by apply IH].
  - destruct (chain_loop sps (take 0 bufA ++ [r]) bufB q) as [[[cur alt] q1]|e] eqn:E; [|done].
    apply chain_loop_ok in E. rewrite take_0 in E. cbn [app] in E. specialize (IH cur alt q1).
    destruct (runWorker sps cur alt q1 inp) as [out res]. cbn [fst snd] in *. intros H.
    constructor; [done|by apply IH].
Qed.

Lemma process_each_ok sp inp q :
  Forall (λ r, is_marker r = false -> succeeds sp r) inp -> exists x, process_each sp inp q = Ok x.
Proof.
  intros H. revert q. induction H as [|r inp Hr _ IH]; intros q; cbn [process_each]; [eauto|].
  destruct (is_marker r) eqn:Er; cbn [mbind result_bind].
  - destruct (IH q) as [[tl q2] E]. rewrite E. cbn. eauto.
  - specialize (Hr eq_refl). unfold succeeds in Hr. rewrite <- (ProcessOne_succeeds sp r q) in Hr.
    destruct (ProcessOne sp r q) as [[hd q1]|]; [|done]. cbn. destruct (IH q1) as [[tl q2] E]. rewrite E. cbn. eauto.
Qed.

(** One operator over a stream, markers forwarded. *)
Definition step_one (sp : SingleProcessor) (r : Rec) : list Rec :=
  if is_marker r then [r] else one sp r.

Lemma Forall_bind {A C} (f : A -> list C) (P : C -> Prop) l :
  Forall (λ x, Forall P (f x)) l -> Forall P (l ≫= f).
Proof. induction 1 as [|x l Hx _ IH]; [constructor|]. rewrite bind_cons. by apply Forall_app. Qed.

Lemma chain_ok_each sps l : chain_ok sps l -> Forall (λ r, is_marker r = false -> chain_ok sps [r]) l.
Proof.
  induction l as [|r l IH]; [constructor|]. intros H. change (r :: l) with ([r] ++ l) in H.
  apply chain_ok_app in H as [? ?]. constructor; auto.
Qed.

Lemma stream_ok_step sp sps inp :
  stream_ok (sp :: sps) inp ->
  Forall (λ r, is_marker r = false -> succeeds sp r) inp /\ stream_ok sps (inp ≫= step_one sp).
Proof.
  intros H. split.
  - eapply Forall_impl; [exact H|]. intros r Hr Hm. destruct (Hr Hm) as [Hs _]. by inversion Hs.
  - apply Forall_bind. eapply Forall_impl; [exact H|]. intros r Hr. unfold step_one.
    destruct (is_marker r) eqn:Er; [constructor; [intros ?; congruence|constructor]|].
    destruct (Hr Er) as [_ Hc]. cbn [mbind list_bind] in Hc. rewrite app_nil_r in Hc. by apply chain_ok_each.
Qed.

Lemma chain_spec_app sps l l' : chain_spec sps (l ++ l') = chain_spec sps l ++ chain_spec sps l'.
Proof.
  revert l l'. induction sps as [|sp sps IH]; intros l l'; [done|].
  change (chain_spec (sp :: sps) (l ++ l')) with (chain_spec sps ((l ++ l') ≫= one sp)).
  rewrite bind_app. apply IH.
Qed.

Lemma stage_spec_datas sps l : is_datas l -> l ≫= stage_spec sps = chain_spec sps l.
Proof.
  induction 1 as [|r l Hr _ IH]; [by rewrite chain_spec_nil|]. rewrite bind_cons, IH. unfold stage_spec. rewrite Hr.
  by rewrite <- chain_spec_app.
Qed.

Lemma stage_spec_cons sp sps r :
  keeps_data sp -> stage_spec (sp :: sps) r = step_one sp r ≫= stage_spec sps.
Proof.
  intros Hk. unfold stage_spec at 1, step_one. destruct (is_marker r) eqn:Er.
  - cbn [mbind list_bind]. rewrite app_nil_r. unfold stage_spec. by rewrite Er.
  - rewrite stage_spec_datas by (by apply Hk).
    change (chain_spec (sp :: sps) [r]) with (chain_spec sps ([r] ≫= one sp)). cbn [mbind list_bind]. by rewrite app_nil_r.
Qed.

Lemma pipe_spec sps inp :
  Forall keeps_data sps -> stream_ok sps inp -> pipe sps inp = Ok (inp ≫= stage_spec sps).
Proof.
  intros Hk. revert inp. induction Hk as [|sp sps Hsp Hk IH]; intros inp Hs; cbn [pipe].
  - f_equal. induction inp as [|r inp IHi]; [done|]. apply Forall_cons in Hs as [_ Hs].
    rewrite bind_cons, <- IHi by done. unfold stage_spec, chain_spec. by destruct (is_marker r).
  - apply stream_ok_step in Hs as [Hsucc Hs]. rewrite Process_process_each.
    destruct (process_each_ok sp inp [] Hsucc) as [[out q'] E]. rewrite E. cbn [mbind result_bind].
    apply process_each_one in E. fold (step_one sp) in E. change (out = inp ≫= step_one sp) in E.
    rewrite E, IH by done. f_equal. clear -Hsp. induction inp as [|r inp IHi]; [done|].
    by rewrite !bind_cons, bind_app, IHi, stage_spec_cons.
Qed.

(** Fusing a chain of stateless operators into direct calls over two
    reused buffers changes nothing: whenever no operator panics, the worker
    loop sends exactly what the operators' own channel loops, run one after
    the other over the whole stream, would send, whatever the buffers held. *)
Theorem stateless_stage_fused sps bufA bufB q inp q' :
  Forall keeps_data sps -> (runWorker sps bufA bufB q inp).2 = Ok q' ->
  pipe sps inp = Ok (runWorker sps bufA bufB q inp).1.
Proof.
  intros Hk H. rewrite (runWorker_spec _ _ _ _ _ _ H). apply pipe_spec; [done|]. by eapply runWorker_ok.
Qed.

(** ** Feeding parallel workers *)

(** The dispatcher goroutine of [runParallel]: what each of the [n] worker
    channels receives.  Data goes round-robin from worker [next]; markers are
    broadcast. *)
Fixpoint dispatch (n next : nat) (inp : list Rec) : list (list Rec) :=
  match inp with
  | [] => replicate n []
  | r :: inp =>
      if is_marker r then cons r <$> dispatch n next inp
      else alter (cons r) next (dispatch n (Nat.modulo (next + 1) n) inp)
  end.

(** The router goroutine of [KeyedStage.Run]: data goes to the worker of its
    selected key, which becomes the record's key. *)
Fixpoint router (kb : KeyByOperator) (n : nat) (inp : list Rec) : list (list Rec) :=
  match inp with
  | [] => replicate n []
  | r :: inp =>
      if is_marker r then cons r <$> router kb n inp
      else
        let key := SelectKey kb r in
        let r := set_Key r (match str key with [] => None | k => Some k end) in
        alter (cons r) (Z.to_nat (RouteKey kb key)) (router kb n inp)
  end.

(** A stream dealt to [n] workers: markers to all, each data record to one. *)
Inductive dealt (n : nat) : list Rec -> list (list Rec) -> Prop :=
| dealt_nil : dealt n [] (replicate n [])
| dealt_marker m l ss : is_marker m = true -> dealt n l ss -> dealt n (m :: l) (cons m <$> ss)
| dealt_data r l ss w : is_marker r = false -> (w < n)%nat -> dealt n l ss -> dealt n (r :: l) (alter (cons r) w ss).

Lemma dealt_length n l ss : dealt n l ss -> length ss = n.
Proof. induction 1; rewrite ?length_fmap, ?length_alter, ?length_replicate; done. Qed.

Lemma dispatch_dealt n next inp : (next < n)%nat -> dealt n inp (dispatch n next inp).
Proof.
  revert next. induction inp as [|r inp IH]; intros next Hn; cbn [dispatch]; [constructor|].
  destruct (is_marker r) eqn:Er; constructor; auto. apply IH. apply Nat.mod_upper_bound. lia.
Qed.

Lemma dealt_aligned n l ss : dealt n l ss -> Forall (λ s, markers s = markers l) ss.
Proof.
  induction 1 as [|m l ss Hm _ IH|r l ss w Hr Hw _ IH].
  - apply Forall_replicate. done.
  - rewrite Forall_fmap. eapply Forall_impl; [exact IH|]. intros s Hs. unfold compose.
    by rewrite !markers_cons, Hm, Hs.
  - rewrite markers_cons, Hr. apply Forall_alter; [done|]. intros s _ Hs. by rewrite markers_cons, Hr.
Qed.

(** ** Equality up to order between markers *)

Inductive seg_equiv : list Rec -> list Rec -> Prop :=
| seg_end l l' : is_datas l -> l ≡ₚ l' -> seg_equiv l l'
| seg_marker a a' m l l' : is_datas a -> a ≡ₚ a' -> is_marker m = true ->
    seg_equiv l l' -> seg_equiv (a ++ m :: l) (a' ++ m :: l').

(** Every stream is data, or data up to its first marker. *)
Lemma split_marker l : is_datas l \/ exists a m r, l = a ++ m :: r /\ is_datas a /\ is_marker m = true.
Proof.
  induction l as [|x l IH]; [left; constructor|]. destruct (is_marker x) eqn:Ex.
  - right. exists [], x, l. split_and!; [done|constructor|done].
  - destruct IH as [IH|(a & m & r & -> & Ha & Hm)]; [left; by constructor|].
    right. exists (x :: a), m, r. split_and!; [done|by constructor|done].
Qed.

Definition glue (m : Rec) (segs rests : list (list Rec)) : list (list Rec) :=
  zip_with (λ s r, s ++ m :: r) segs rests.

Lemma concat_alter {A} (ss : list (list A)) w r :
  (w < length ss)%nat -> concat (alter (cons r) w ss) ≡ₚ r :: concat ss.
Proof.
  revert w. induction ss as [|l ss IH]; intros [|w] Hw; cbn in *; try lia; [done|].
  rewrite IH by lia. by rewrite Permutation_middle.
Qed.

Lemma glue_alter m segs rests w r :
  alter (cons r) w (glue m segs rests) = glue m (alter (cons r) w segs) rests.
Proof.
  revert rests w. induction segs as [|s segs IH]; intros [|x rests] [|w]; try done. cbn. f_equal. apply IH.
Qed.

(** A dealt stream splits at its first marker. *)
Lemma dealt_split n a m l ss :
  is_datas a -> is_marker m = true -> dealt n (a ++ m :: l) ss ->
  exists segs rests, ss = glue m segs rests /\ length segs = n /\ Forall is_datas segs /\
    concat segs ≡ₚ a /\ dealt n l rests.
Proof.
  intros Ha Hm. revert ss. induction Ha as [|r a Hr _ IH]; intros ss Hd; cbn [app] in Hd.
  - inversion Hd as [|? ? ss0 ? Hd0|]; subst; [|congruence]. exists (replicate n []), ss0.
    apply dealt_length in Hd0 as Hlen. split_and!; [|apply length_replicate| | |done].
    + unfold glue. subst n. clear. induction ss0 as [|x ss0 IH]; [done|]. cbn. by rewrite IH.
    + apply Forall_replicate. constructor.
    + clear. by induction n.
  - inversion Hd as [|? ? ? Hm'|? ? ss0 w ? Hw Hd0]; subst; [congruence|].
    destruct (IH _ Hd0) as (segs & rests & -> & Hlen & Hds & Hp & Hr0).
    exists (alter (cons r) w segs), rests. split_and!; [apply glue_alter|by rewrite length_alter| | |done].
    + apply Forall_alter; [done|]. intros s _ Hs. by constructor.
    + rewrite concat_alter by lia. by rewrite Hp.
Qed.

Lemma dealt_datas n l ss : is_datas l -> dealt n l ss -> Forall is_datas ss /\ concat ss ≡ₚ l.
Proof.
  intros Hl Hd. induction Hd as [|m l ss Hm _ IH|r l ss w Hr Hw Hd IH].
  - split; [apply Forall_replicate; constructor|]. clear. by induction n.
  - apply Forall_cons in Hl as [? _]. congruence.
  - apply Forall_cons in Hl as [_ Hl]. destruct (IH Hl) as [IH1 IH2]. split.
    + apply Forall_alter; [done|]. intros s _ Hs. by constructor.
    + rewrite concat_alter by (by rewrite (dealt_length _ _ _ Hd)). by rewrite IH2.
Qed.

Lemma glue_insert m segs rests w s x :
  segs !! w = Some s -> rests !! w = Some x -> forall s',
  <[w := s' ++ m :: x]> (glue m segs rests) = glue m (<[w := s']> segs) rests.
Proof.
  revert rests w. induction segs as [|s0 segs IH]; intros [|x0 rests] [|w] Hs Hx s'; try done.
  - by injection Hx as ->.
  - cbn in Hs, Hx. change (x0 :: rests) with ([x0] ++ rests). cbn. f_equal. by eapply IH.
Qed.

Lemma glue_heads m m' segs rests rests0 :
  length segs = length rests -> Forall is_datas segs -> is_marker m' = true ->
  glue m segs rests = cons m' <$> rests0 -> segs <> [] ->
  m' = m /\ rests0 = rests /\ concat segs = [].
Proof.
  intros Hlen Hd Hm'. revert rests rests0 Hlen. induction Hd as [|s segs Hs Hd IH]; intros [|x rests] [|x0 rests0] Hlen E Hne; try done.
  cbn in E. injection E as E1 E2. destruct s as [|r s].
  - injection E1 as <- <-. destruct segs as [|s1 segs].
    + destruct rests, rests0; try done.
    + destruct (IH rests rests0) as (_ & -> & Hc); [by injection Hlen|done|done|]. split_and!; [done|done|exact Hc].
  - injection E1 as -> _. apply Forall_cons in Hs as [? _]. congruence.
Qed.

(** The abstract merge cannot pass a marker before every segment before it. *)
Lemma emits_glue ss out ss' m segs rests :
  emits ss out ss' -> Forall (λ l, l = []) ss' -> ss = glue m segs rests ->
  length segs = length rests -> segs <> [] -> Forall is_datas segs -> is_marker m = true ->
  exists o1 o2, out = o1 ++ m :: o2 /\ o1 ≡ₚ concat segs /\ emits rests o2 ss'.
Proof.
  intros Hem Hnil. revert segs. induction Hem as [ss|ss w r rest out ss' Hw Hr Hem IH|ss m' rests0 out ss' Hm' -> Hem IH];
    intros segs Eg Hlen Hne Hd Hm.
  - subst ss. destruct segs as [|s segs], rests as [|x rests]; try done. cbn in Hnil. apply Forall_cons in Hnil as [Hn _]. by destruct s.
  - subst ss. unfold glue in Hw. apply lookup_zip_with_Some in Hw as (s & x & E & Hs & Hx).
    destruct s as [|r0 s]; cbn in E; [injection E as -> ->; congruence|]. injection E as -> ->.
    destruct (IH Hnil (<[w := s]> segs)) as (o1 & o2 & -> & Hp & He).
    + by apply (glue_insert m segs rests w (r0 :: s) x).
    + by rewrite length_insert.
    + destruct segs; [done|]. by destruct w.
    + rewrite Forall_lookup in Hd. pose proof (Hd _ _ Hs) as Hs'. apply Forall_cons in Hs' as [_ Hs'].
      apply Forall_insert; [by apply Forall_lookup|done].
    + done.
    + exists (r0 :: o1), o2. split_and!; [done| |done]. rewrite Hp. symmetry. by apply concat_insert.
  - destruct (glue_heads m m' segs rests rests0) as (-> & -> & Hc); [done|done|done|done|done|].
    exists [], out. rewrite Hc. done.
Qed.

Lemma fmap_glue (F : list Rec -> list Rec) m segs rests :
  (forall a l, F (a ++ m :: l) = F a ++ m :: F l) -> F <$> glue m segs rests = glue m (F <$> segs) (F <$> rests).
Proof. intros HF. revert rests. induction segs as [|s segs IH]; intros [|x rests]; try done.
  change (F (s ++ m :: x) :: (F <$> glue m segs rests) = (F s ++ m :: F x) :: glue m (F <$> segs) (F <$> rests)).
  by rewrite HF, IH.
Qed.

Lemma concat_bind {A C} (f : A -> list C) (ss : list (list A)) : concat ((λ s, s ≫= f) <$> ss) = concat ss ≫= f.
Proof. induction ss as [|s ss IH]; [done|]. cbn. by rewrite IH, bind_app. Qed.

(** A per-record transformation that forwards markers. *)
Section Distribute.
Context (g : Rec -> list Rec).
Hypothesis g_marker : forall m, is_marker m = true -> g m = [m].
Hypothesis g_data : forall r, is_marker r = false -> is_datas (g r).

Lemma g_datas l : is_datas l -> is_datas (l ≫= g).
Proof. intros H. apply Forall_bind. eapply Forall_impl; [exact H|]. intros r Hr. by apply g_data. Qed.

Lemma g_split m a l : is_marker m = true -> (a ++ m :: l) ≫= g = (a ≫= g) ++ m :: (l ≫= g).
Proof. intros Hm. by rewrite bind_app, bind_cons, g_marker. Qed.

Lemma distribute n l ss out :
  (0 < n)%nat -> dealt n l ss -> emits ((λ s, s ≫= g) <$> ss) out ((λ _, []) <$> ss) -> seg_equiv (l ≫= g) out.
Proof.
  intros Hn. remember (length l) as k eqn:Hk. revert l Hk ss out. induction (lt_wf k) as [k _ IH].
  intros l -> ss out Hd Hem. destruct (split_marker l) as [Hl|(a & m & r & -> & Ha & Hm)].
  - destruct (dealt_datas n l ss Hl Hd) as [Hds Hp].
    assert (Hdat : is_datas (l ≫= g)) by (by apply g_datas).
    apply seg_end; [done|]. pose proof (emits_datas _ _ _ Hem) as E.
    assert (Hmk : markers out = []).
    { apply dealt_length in Hd as Hlen. destruct ss as [|s ss]; [cbn in Hlen; lia|].
      pose proof (emits_markers _ _ _ Hem 0%nat (s ≫= g) [] eq_refl eq_refl) as E2.
      apply Forall_cons in Hds as [Hs _]. rewrite (markers_datas (s ≫= g)) in E2 by (by apply g_datas).
      rewrite app_nil_r in E2. by symmetry. }
    rewrite (datas_all out Hmk) in E.
    assert (En : concat (datas <$> ((λ _, []) <$> ss)) = []) by (clear; by induction ss).
    rewrite En, app_nil_r in E. rewrite <- E, <- Hp, <- concat_bind.
    replace (datas <$> ((λ s, s ≫= g) <$> ss)) with ((λ s, s ≫= g) <$> ss); [done|].
    clear -Hds g_data. induction Hds as [|s ss Hs _ IHs]; [done|]. rewrite !fmap_cons, <- IHs.
    by rewrite datas_id by (by apply g_datas).
  - destruct (dealt_split n a m r ss Ha Hm Hd) as (segs & rests & -> & Hlen & Hsd & Hp & Hr).
    assert (Hlr : length rests = n) by (by eapply dealt_length).
    rewrite fmap_glue in Hem by (intros; by apply g_split).
    destruct (emits_glue _ _ _ m ((λ s, s ≫= g) <$> segs) ((λ s, s ≫= g) <$> rests) Hem) as (o1 & o2 & -> & Hp1 & He2).
    + apply Forall_fmap, Forall_true. done.
    + done.
    + rewrite !length_fmap. lia.
    + destruct segs; [cbn in Hlen; lia|done].
    + rewrite Forall_fmap. eapply Forall_impl; [exact Hsd|]. intros s Hs. by apply g_datas.
    + done.
    + rewrite g_split by done. apply seg_marker; [by apply g_datas| |done|].
      * rewrite Hp1, concat_bind. by rewrite Hp.
      * eapply (IH (length r)); [rewrite length_app; cbn; lia|done|exact Hr|].
        replace ((λ _, []) <$> rests) with ((λ _ : list Rec, @nil Rec) <$> glue m segs rests); [done|].
        assert (Hl2 : length segs = length rests) by lia. clear -Hl2. revert rests Hl2.
        induction segs as [|s segs IHs]; intros [|x rests] H1; try done. injection H1 as H1.
        change ([] :: ((λ _ : list Rec, @nil Rec) <$> glue m segs rests) = [] :: ((λ _, []) <$> rests)).
        f_equal. by apply IHs.
Qed.
End Distribute.

(** ** The parallel stage *)

(** The workers of [runParallel] over the dispatched streams. *)
Definition worker_outs (sps : list SingleProcessor) (ss : list (list Rec)) : list (list Rec) :=
  (λ s, (runWorker sps [] [] [] s).1) <$> ss.
Definition workers_ok (sps : list SingleProcessor) (ss : list (list Rec)) : Prop :=
  Forall (λ s, is_ok (runWorker sps [] [] [] s).2 = true) ss.

Lemma worker_outs_spec sps ss :
  workers_ok sps ss -> worker_outs sps ss = (λ s, s ≫= stage_spec sps) <$> ss.
Proof.
  intros H. apply list_fmap_ext. intros i s Hs. unfold workers_ok in H. rewrite Forall_lookup in H. specialize (H i s Hs).
  destruct (runWorker sps [] [] [] s).2 as [q|] eqn:E; [|done]. by apply runWorker_spec in E.
Qed.

Lemma stage_spec_marker sps m : is_marker m = true -> stage_spec sps m = [m].
Proof. intros H. unfold stage_spec. by rewrite H. Qed.
Lemma stage_spec_data sps r : Forall keeps_data sps -> is_marker r = false -> is_datas (stage_spec sps r).
Proof. intros Hk H. unfold stage_spec. rewrite H. apply chain_datas; [done|]. by constructor. Qed.

Lemma dealt_stage_aligned sps n l ss :
  Forall keeps_data sps -> dealt n l ss -> aligned ((λ s, s ≫= stage_spec sps) <$> ss).
Proof.
  intros Hk Hd. exists (markers l). apply Forall_fmap. eapply Forall_impl; [exact (dealt_aligned n l ss Hd)|].
  intros s <-. unfold compose. clear -Hk. induction s as [|r s IH]; [done|].
  rewrite bind_cons, markers_app, IH, markers_cons. destruct (is_marker r) eqn:Er.
  - rewrite stage_spec_marker by done. rewrite markers_cons, Er. done.
  - by rewrite markers_datas by (by apply stage_spec_data).
Qed.

(** A parallel stateless stage is the serial stage up to the order of
    records between markers.  For any number of workers, any interleaving of
    their forwarders and the merge, once everything has been delivered the
    output has the serial output's markers in the same order, and between two
    consecutive markers a permutation of the serial output's records: nothing
    is lost, duplicated or moved across a barrier or watermark. *)
Theorem parallel_stage_equiv sps n inp s q q' :
  (0 < n)%nat -> Forall keeps_data sps ->
  workers_ok sps (dispatch n 0 inp) ->
  mreach (worker_outs sps (dispatch n 0 inp)) s -> finished s ->
  (runWorker sps [] [] q inp).2 = Ok q' ->
  seg_equiv (runWorker sps [] [] q inp).1 (mout s).
Proof.
  intros Hn Hk Hok Hr Hf Hser. rewrite (runWorker_spec _ _ _ _ _ _ Hser).
  rewrite worker_outs_spec in Hr by done. pose proof (dispatch_dealt n 0 inp Hn) as Hd.
  pose proof (dealt_stage_aligned sps n inp _ Hk Hd) as Ha.
  destruct (merge_drains _ _ Ha Hr Hf) as [Hem _]. rewrite <- list_fmap_compose in Hem.
  apply (distribute (stage_spec sps)) with (n := n) (ss := dispatch n 0 inp); [|by intros; apply stage_spec_data|done|done|done].
  intros m. apply stage_spec_marker.
Qed.

(** ** The keyed stage *)

(** A record as the router passes it on. *)
Definition rekeyed (kb : KeyByOperator) (r : Rec) : Rec :=
  if is_marker r then r
  else set_Key r (match str (SelectKey kb r) with [] => None | k => Some k end).

(** What of one input record reaches worker [w]. *)
Definition routed (kb : KeyByOperator) (w : nat) (r : Rec) : list Rec :=
  if is_marker r then [r]
  else if decide (Z.to_nat (Route kb r) = w) then [rekeyed kb r] else [].

Lemma router_spec kb n inp w : (w < n)%nat -> router kb n inp !! w = Some (inp ≫= routed kb w).
Proof.
  intros Hw. induction inp as [|r inp IH]; cbn [router].
  - by apply lookup_replicate_2.
  - rewrite bind_cons. unfold routed at 1, rekeyed. destruct (is_marker r).
    + by rewrite list_lookup_fmap, IH.
    + cbv zeta. unfold Route at 1. destruct (decide (Z.to_nat (RouteKey kb (SelectKey kb r)) = w)) as [E|Hne].
      * subst w. by rewrite list_lookup_alter_eq, IH.
      * by rewrite list_lookup_alter_ne by done.
Qed.

Lemma str_rekeyed kb r : is_marker r = false -> str (Key (rekeyed kb r)) = str (SelectKey kb r).
Proof. intros Hr. unfold rekeyed. rewrite Hr. cbn. by destruct (str (SelectKey kb r)) eqn:E. Qed.

Lemma route_lt kb r : 0 < Partitions kb -> (Z.to_nat (Route kb r) < Z.to_nat (Partitions kb))%nat.
Proof.
  intros Hp. pose proof (RouteKey_range kb (SelectKey kb r) Hp). unfold Route. lia.
Qed.

Lemma plain_StateKey kb r :
  is_marker r = false -> Headers r !! hWindowStart = None -> StateKey (rekeyed kb r) = str (Key (rekeyed kb r)).
Proof. intros Er Hh. unfold StateKey, rekeyed. rewrite Er. cbn [Headers set_Key]. by rewrite Hh. Qed.

Lemma rekeyed_marker kb r : is_marker (rekeyed kb r) = is_marker r.
Proof. unfold rekeyed. by destruct (is_marker r) eqn:E. Qed.

(** Records routed elsewhere have other keys. *)
Lemma key_fold_routed kb Fn r0 init inp :
  is_marker r0 = false ->
  Forall (λ r, is_marker r = false -> Headers r !! hWindowStart = None) inp ->
  key_fold Fn (str (SelectKey kb r0)) init (inp ≫= routed kb (Z.to_nat (Route kb r0)))
  = key_fold Fn (str (SelectKey kb r0)) init (rekeyed kb <$> inp).
Proof.
  intros Hr0 Hin. revert init. unfold key_fold. induction Hin as [|r inp Hr _ IH]; intros init; [done|].
  rewrite bind_cons, foldl_app, fmap_cons. cbn [foldl].
  destruct (is_marker r) eqn:Er.
  - assert (Ert : routed kb (Z.to_nat (Route kb r0)) r = [rekeyed kb r])
      by (unfold routed, rekeyed; by rewrite Er). rewrite Ert. apply IH.
  - destruct (decide (Z.to_nat (Route kb r) = Z.to_nat (Route kb r0))) as [E|Hne].
    + assert (Ert : routed kb (Z.to_nat (Route kb r0)) r = [rekeyed kb r])
        by (unfold routed; rewrite Er; by rewrite decide_True). rewrite Ert. apply IH.
    + assert (Ert : routed kb (Z.to_nat (Route kb r0)) r = [])
        by (unfold routed; rewrite Er; by rewrite decide_False). rewrite Ert. cbn [foldl]. rewrite IH. f_equal.
      rewrite plain_StateKey, str_rekeyed by auto.
      rewrite bool_decide_false; [by rewrite andb_false_r|]. intros E. apply Hne. unfold Route.
      by rewrite (RouteKey_str kb _ _ E).
Qed.

(** The router partitions the stream.  Worker [w] receives, in input
    order, every marker and exactly the data records whose selected key hashes
    to [w], rekeyed; no record goes to two workers or to none. *)
Theorem keyed_router_partitions (kb : KeyByOperator) (inp : list Rec) :
  0 < Partitions kb ->
  let n := Z.to_nat (Partitions kb) in
  length (router kb n inp) = n /\
  (forall w, (w < n)%nat -> router kb n inp !! w = Some (inp ≫= routed kb w)) /\
  dealt n (rekeyed kb <$> inp) (router kb n inp).
Proof.
  intros Hp n.
  assert (Hd : dealt n (rekeyed kb <$> inp) (router kb n inp)).
  { induction inp as [|r inp IH]; cbn [router]; [constructor|]. rewrite fmap_cons. unfold rekeyed at 1.
    destruct (is_marker r) eqn:Er; [by constructor|]. cbv zeta. constructor; [|apply route_lt; done|done].
    exact Er. }
  split_and!; [by eapply dealt_length|by intros; apply router_spec|done].
Qed.


(** ** The sink stage *)

Inductive sinkEv : Type := SDeliver (r : Rec) | SAck (id : bytes).

(** Input not yet read, the pump channel, the pumping flag; and the log of
    what the sink dequeued and which barriers were reported, in order. *)
Record sinkState : Type := mkSink { sin : list Rec; pumped : list Rec; pumping : bool; slog : list sinkEv }.

Section SinkStage.
(** Whether the sink is a CheckpointedSink, and whether OnBarrier is set. *)
Variables coordinated hook : bool.

(** Markers are dropped, barriers kept for a coordinated sink. *)
Definition passes (r : Rec) : bool := negb (IsWatermark r || (IsBarrier r && negb coordinated)).
Definition pump (r : Rec) (q : list Rec) : list Rec := if passes r then q ++ [r] else q.

Inductive sinkStep (s : sinkState) : sinkState -> Prop :=
| sk_pump r rest :           (* a record that triggers no barrier report *)
    sin s = r :: rest -> pumping s = true -> IsBarrier r && hook = false ->
    sinkStep s (mkSink rest (pump r (pumped s)) true (slog s))
| sk_barrier r rest :        (* a barrier, once the pump channel is empty *)
    sin s = r :: rest -> pumping s = true -> IsBarrier r && hook = true -> pumped s = [] ->
    sinkStep s (mkSink rest (pump r []) true (slog s ++ [SAck (CheckpointID r)]))
| sk_dequeue r q :           (* the sink's Write loop takes a record *)
    pumped s = r :: q -> sinkStep s (mkSink (sin s) q (pumping s) (slog s ++ [SDeliver r]))
| sk_abort r rest :          (* hardCtx fires; the record in hand is dropped *)
    sin s = r :: rest -> pumping s = true -> sinkStep s (mkSink rest (pumped s) false (slog s))
| sk_discard r rest :        (* forced shutdown: drain the input *)
    sin s = r :: rest -> pumping s = false -> sinkStep s (mkSink rest (pumped s) false (slog s)).

Definition delivered (l : list sinkEv) : list Rec :=
  l ≫= λ e, match e with SDeliver r => [r] | SAck _ => [] end.

Lemma delivered_app l l' : delivered (l ++ l') = delivered l ++ delivered l'.
Proof. apply bind_app. Qed.

(** Every report in the log had everything ahead of its barrier delivered. *)
Definition acks_ok (inp : list Rec) (l : list sinkEv) : Prop :=
  forall t1 id t2, l = t1 ++ SAck id :: t2 -> exists c1 r c2,
    inp = c1 ++ r :: c2 /\ IsBarrier r = true /\ CheckpointID r = id /\
    delivered t1 = List.filter passes c1.

Definition sink_inv (inp : list Rec) (s : sinkState) : Prop :=
  acks_ok inp (slog s) /\
  exists c, inp = c ++ sin s /\
    if pumping s then delivered (slog s) ++ pumped s = List.filter passes c
    else exists c', c' `prefix_of` c /\ delivered (slog s) ++ pumped s = List.filter passes c'.

Lemma acks_snoc_deliver inp l r : acks_ok inp l -> acks_ok inp (l ++ [SDeliver r]).
Proof.
  intros H t1 id t2 E. destruct t2 as [|e t2] using rev_ind.
  - apply app_inj_tail in E as [_ E]. done.
  - rewrite app_comm_cons, app_assoc in E. apply app_inj_tail in E as [E _]. by apply (H t1 id t2).
Qed.

Lemma acks_snoc_ack inp l r c1 c2 :
  acks_ok inp l -> inp = c1 ++ r :: c2 -> IsBarrier r = true -> delivered l = List.filter passes c1 ->
  acks_ok inp (l ++ [SAck (CheckpointID r)]).
Proof.
  intros H Hi Hb Hd t1 id t2 E. destruct t2 as [|e t2] using rev_ind.
  - apply app_inj_tail in E as [-> [= <-]]. eauto 8.
  - rewrite app_comm_cons, app_assoc in E. apply app_inj_tail in E as [E _]. by apply (H t1 id t2).
Qed.

Lemma filter_pump c r q x :
  x ++ q = List.filter passes c -> x ++ pump r q = List.filter passes (c ++ [r]).
Proof.
  intros H. rewrite List.filter_app, <- H. unfold pump. cbn. destruct (passes r); [by rewrite app_assoc|].
  by rewrite app_nil_r.
Qed.

Lemma sink_step_inv inp s s' : sink_inv inp s -> sinkStep s s' -> sink_inv inp s'.
Proof.
  intros (Ha & c & Hi & Hp) Hs. destruct Hs as [r rest Hin Hpu Hb|r rest Hin Hpu Hb Hq|r q Hq|r rest Hin Hpu|r rest Hin Hpu];
    unfold sink_inv; cbn [slog sin pumped pumping].
  - rewrite Hpu in Hp. split; [done|]. exists (c ++ [r]). rewrite Hi, Hin, <- app_assoc. split; [done|].
    by apply filter_pump.
  - rewrite Hpu in Hp. rewrite Hq, app_nil_r in Hp. apply andb_true_iff in Hb as [Hb _]. split.
    + eapply acks_snoc_ack; [done|by rewrite Hi, Hin|done|done].
    + exists (c ++ [r]). rewrite Hi, Hin, <- app_assoc. split; [done|].
      rewrite delivered_app. cbn [delivered mbind list_bind app]. rewrite app_nil_r. apply filter_pump. by rewrite app_nil_r.
  - split; [by apply acks_snoc_deliver|]. exists c. split; [done|].
    assert (E : delivered (slog s ++ [SDeliver r]) ++ q = delivered (slog s) ++ pumped s).
    { rewrite delivered_app, Hq. cbn. by rewrite <- app_assoc. }
    rewrite E. done.
  - rewrite Hpu in Hp. split; [done|]. exists (c ++ [r]). rewrite Hi, Hin, <- app_assoc. split; [done|].
    exists c. split; [by apply prefix_app_r|done].
  - rewrite Hpu in Hp. destruct Hp as (c' & Hc & Hp). split; [done|]. exists (c ++ [r]).
    rewrite Hi, Hin, <- app_assoc. split; [done|]. exists c'. split; [by apply prefix_app_r|done].
Qed.

Definition sink_init (inp : list Rec) : sinkState := mkSink inp [] true [].

Lemma sink_reach_inv inp s : rtc sinkStep (sink_init inp) s -> sink_inv inp s.
Proof.
  intros H. assert (H0 : sink_inv inp (sink_init inp)).
  { split; [|by exists []]. intros t1 id t2 E. by destruct t1. }
  revert H0. induction H as [s|s1 s2 s3 H12 _ IH]; [done|]. intros H1. apply IH. by eapply sink_step_inv.
Qed.
End SinkStage.

(** A checkpoint is reported at the sink only after the sink has dequeued
    every record ahead of its barrier, in order, under every interleaving of
    the pump, the sink and a forced shutdown; and the sink only ever receives
    a prefix of the input's records, with no watermark and, unless it is a
    coordinated sink, no barrier. *)
Theorem sink_reports_after_drain coordinated hook inp s :
  rtc (sinkStep coordinated hook) (sink_init inp) s ->
  (forall t1 id t2, slog s = t1 ++ SAck id :: t2 -> exists c1 r c2,
     inp = c1 ++ r :: c2 /\ IsBarrier r = true /\ CheckpointID r = id /\
     delivered t1 = List.filter (passes coordinated) c1) /\
  exists c, c `prefix_of` inp /\ delivered (slog s) `prefix_of` List.filter (passes coordinated) c.
Proof.
  intros H. destruct (sink_reach_inv coordinated hook inp s H) as (Ha & c & Hi & Hp). split; [done|].
  destruct (pumping s).
  - exists c. split; [rewrite Hi; by apply prefix_app_r|]. rewrite <- Hp. by apply prefix_app_r.
  - destruct Hp as (c' & Hc & Hp). exists c'. split; [rewrite Hi; by apply prefix_app_r|].
    rewrite <- Hp. by apply prefix_app_r.
Qed.

(** ** Witnesses *)

Definition doubler : SingleProcessor := FlatMapOperator 1 (λ r, [set_Key r None; set_Key r None]).

Lemma doubler_keeps : keeps_data doubler.
Proof. intros r Hr. unfold one. cbn. repeat constructor; exact Hr. Qed.

Definition shortStream : list Rec := [NewRecord 1 None None; NewBarrier (b "1")].

Lemma stateless_stage_fused_witness :
  pipe [doubler] shortStream = Ok (runWorker [doubler] [] [] [] shortStream).1.
Proof.
  apply (stateless_stage_fused [doubler] [] [] [] shortStream []).
  - constructor; [apply doubler_keeps|constructor].
  - reflexivity.
Defined.

Definition shortSchedule : list choice :=
  [CForward 0; CForward 0; CForward 0; CForward 1; CRecv; CRecv; CRecv; CRecv; CResume 0; CResume 1].
Definition shortFinal : mstate :=
  default (merge_init []) (mrun (merge_init (worker_outs [doubler] (dispatch 2 0 shortStream))) shortSchedule).

Lemma parallel_stage_equiv_witness :
  seg_equiv (runWorker [doubler] [] [] [] shortStream).1 (mout shortFinal).
Proof.
  apply (parallel_stage_equiv [doubler] 2 shortStream shortFinal [] []).
  - lia.
  - constructor; [apply doubler_keeps|constructor].
  - repeat constructor.
  - unfold mreach. apply rtc_nsteps. exists (length shortSchedule). apply mrun_sound. vm_compute. reflexivity.
  - apply finishedb_sound; vm_compute; reflexivity.
  - reflexivity.
Defined.

Definition keyedBy : KeyByOperator := WithPartitions 4 (KeyBy Key).
Definition keyedStream : list Rec := [keyed "a" 1; keyed "b" 2; NewBarrier (b "1"); keyed "a" 3].

Lemma keyed_router_partitions_witness :
  router keyedBy 4 keyedStream !! 2%nat = Some (keyedStream ≫= routed keyedBy 2).
Proof.
  apply (keyed_router_partitions keyedBy keyedStream); [reflexivity|]. vm_compute. lia.
Defined.


Lemma sink_reports_after_drain_witness :
  exists c1 r c2, shortStream = c1 ++ r :: c2 /\ IsBarrier r = true /\ CheckpointID r = b "1" /\
    delivered [SDeliver (NewRecord 1 None None)] = List.filter (passes false) c1.
Proof.
  refine (proj1 (sink_reports_after_drain false true shortStream
    (mkSink [] [] true [SDeliver (NewRecord 1 None None); SAck (b "1")]) _) [SDeliver (NewRecord 1 None None)] (b "1") [] eq_refl).
  eapply rtc_l; [eapply sk_pump; reflexivity|].
  eapply rtc_l; [eapply sk_dequeue; reflexivity|].
  eapply rtc_l; [eapply sk_barrier; reflexivity|]. apply rtc_refl.
Defined.
