(* ===== verification/Planner.v ===== *)
(** * Package pipeline: the planner

    [BuildPlan] groups the flat operator list into stages; [DescribePlan]
    describes the stages for the dashboard.  The loop's index and its jump
    over consumed operators are kept; hooks that only register callbacks are
    recorded as the owner each operator instance is wired to. *)
From stdpp Require Import pretty.
From S2P Require Import Prelude Types Operators.

(** [fmt.Sprintf("%d", n)] of a non-negative integer. *)
Definition itoa (n : nat) : string := pretty n.

(** ** Operators as the planner sees them *)

Inductive Operator : Type :=
| OpSingle (sp : SingleProcessor)    (* Map, Filter, FlatMap, Process *)
| OpKeyBy (kb : KeyByOperator)
| OpWindow (id : nat)                (* stateful: Cloneable, StateConfigurable *)
| OpReduce (id : nat)
| OpOther (name : string).           (* any other channel-based operator *)

Definition op_Name (op : Operator) : string :=
  match op with
  | OpSingle (MapOperator _ _) => "Map"
  | OpSingle (FilterOperator _ _) => "Filter"
  | OpSingle (FlatMapOperator _ _) => "FlatMap"
  | OpSingle (ProcOperator _ _) => "Process"
  | OpKeyBy _ => "KeyBy"
  | OpWindow _ => "Window"
  | OpReduce _ => "Reduce"
  | OpOther n => n
  end.

(** The type assertions [op.(operator.Cloneable)], [.(StateConfigurable)]. *)
Definition Cloneable (op : Operator) : bool :=
  match op with OpWindow _ | OpReduce _ => true | _ => false end.
Definition StateConfigurable (op : Operator) : bool := Cloneable op.

(** An operator instance with the owner its state is kept under, if any. *)
Record Instance_ : Type := mkInst { inst_op : Operator; owner : option string }.

(** ** Stages *)

Inductive Stage : Type :=
| SourceStage
| StatelessStage (StageName : string) (Ops : list SingleProcessor) (Labels : list string) (StageParallelism : Z)
| KeyedStage (StageName : string) (kb : KeyByOperator) (kworkers : list (list Instance_))
| ChannelStage (StageName : string) (inst : Instance_) (Label : string)
| SinkStage.

(** ** Hooks *)

(** [StateBackendFor] may fail for an owner; [OnClone] hands out indices from
    a counter when set. *)
Record StageHooks : Type := mkHooks {
  hasOnClone : bool;
  StateBackendFor : option (string -> option string);   (* Some err: it fails *)
}.

Definition assignBackend (h : StageHooks) (op : Operator) (ownerID : string) : result unit :=
  if StateConfigurable op then
    match StateBackendFor h with
    | None => Ok tt
    | Some f =>
        match f ownerID with
        | Some err => Err ("pipeline: state backend for " +:+ ownerID +:+ ": " +:+ err)
        | None => Ok tt
        end
    end
  else Ok tt.

(** One worker's chain of clones; [next] is the OnClone counter. *)
Fixpoint clone_chain (h : StageHooks) (ops : list Operator) (next : nat) : result (list Instance_ * nat) :=
  match ops with
  | [] => Ok ([], next)
  | op :: ops =>
      if hasOnClone h then
        let key := "worker-" +:+ itoa next in
        _ ← assignBackend h op key;
        '(rest, next) ← clone_chain h ops (S next);
        Ok (mkInst op (Some key) :: rest, next)
      else
        '(rest, next) ← clone_chain h ops next;
        Ok (mkInst op None :: rest, next)
  end.

Fixpoint clone_workers (h : StageHooks) (ops : list Operator) (w next : nat)
  : result (list (list Instance_) * nat) :=
  match w with
  | O => Ok ([], next)
  | S w =>
      '(chain, next) ← clone_chain h ops next;
      '(rest, next) ← clone_workers h ops w next;
      Ok (chain :: rest, next)
  end.

Definition NewKeyedStage (h : StageHooks) (kb : KeyByOperator) (ops : list Operator) (name : string) (next : nat)
  : result (Stage * nat) :=
  '(ws, next) ← clone_workers h ops (Z.to_nat (Partitions kb)) next;
  Ok (KeyedStage name kb ws, next).

(** ** BuildPlan *)

Fixpoint takeStateful (ops : list Operator) : list Operator :=
  match ops with
  | op :: ops => if Cloneable op then op :: takeStateful ops else []
  | [] => []
  end.

(** The loop's variables. *)
Record planState : Type := mkPlan {
  stages : list Stage;
  group : list SingleProcessor;
  groupLabels : list string;
  groupPar : Z;
  statelessCount : nat; keyedCount : nat; channelCount : nat;
  workerOps : nat;                       (* clones handed out by OnClone *)
}.

Definition flush (s : planState) : planState :=
  match group s with
  | [] => s
  | _ => mkPlan
      (stages s ++ [StatelessStage ("stateless-" +:+ itoa (statelessCount s)) (group s) (groupLabels s) (groupPar s)])
      [] [] (groupPar s) (S (statelessCount s)) (keyedCount s) (channelCount s) (workerOps s)
  end.

(** Start a new group when the parallelism changes. *)
Definition regroup (par : Z) (s : planState) : planState :=
  if negb (bool_decide (length (group s) = 0%nat)) && negb (par =? groupPar s) then flush s else s.

(** One pass of the loop body for [op] at index [i], [rest] being the
    operators after it: the new state and how many of [rest] to skip. *)
Definition plan_step (h : StageHooks) (i : nat) (op : Operator) (label : string) (rest : list Operator)
    (s : planState) : result (planState * nat) :=
  match op with
  | OpKeyBy kb =>
      if Partitions kb <=? 0 then Err "pipeline: KeyBy partitions must be > 0"
      else
        let s := flush s in
        let stateful := takeStateful rest in
        '(ks, next) ← NewKeyedStage h kb stateful ("keyed-" +:+ itoa (keyedCount s)) (workerOps s);
        Ok (mkPlan (stages s ++ [ks]) (group s) (groupLabels s) (groupPar s)
              (statelessCount s) (S (keyedCount s)) (channelCount s) next, length stateful)
  | OpSingle sp =>
      let par := Parallelism sp in
      let s := regroup par s in
      Ok (mkPlan (stages s) (group s ++ [sp]) (groupLabels s ++ [label]) par
            (statelessCount s) (keyedCount s) (channelCount s) (workerOps s), 0%nat)
  | _ =>
      let s := flush s in
      let key := "op-" +:+ itoa i in
      _ ← assignBackend h op key;
      Ok (mkPlan (stages s ++ [ChannelStage ("op-" +:+ op_Name op +:+ "-" +:+ itoa (channelCount s))
                                 (mkInst op (if StateConfigurable op then Some key else None)) label])
            (group s) (groupLabels s) (groupPar s)
            (statelessCount s) (keyedCount s) (S (channelCount s)) (workerOps s), 0%nat)
  end.

(** [for i := 0; i < len(ops); i++], with [skip] the jumps still to make. *)
Fixpoint plan_loop (h : StageHooks) (i skip : nat) (ops : list (Operator * string)) (s : planState)
  : result planState :=
  match ops with
  | [] => Ok s
  | (op, label) :: ops =>
      match skip with
      | S skip => plan_loop h (S i) skip ops s
      | O =>
          '(s, skip) ← plan_step h i op label (ops.*1) s;
          plan_loop h (S i) skip ops s
      end
  end.

Record PlanConfig : Type := mkPlanCfg {
  hasSource : bool; Operators : list Operator; cfgLabels : list string; hasSink : bool; hooks : StageHooks;
}.

Definition BuildPlan (cfg : PlanConfig) : result (list Stage) :=
  if negb (hasSource cfg) then Err "pipeline: plan has no source"
  else if negb (hasSink cfg) then Err "pipeline: plan has no sink"
  else if negb (bool_decide (length (cfgLabels cfg) = length (Operators cfg))) then Err "pipeline: labels for operators"
  else
    s ← plan_loop (hooks cfg) 0 0 (zip (Operators cfg) (cfgLabels cfg))
          (mkPlan [SourceStage] [] [] 1 0 0 0 0);
    Ok (stages (flush s) ++ [SinkStage]).

(** ** DescribePlan *)

Definition stage_Name (st : Stage) : string :=
  match st with
  | SourceStage => "source"
  | StatelessStage n _ _ _ => n
  | KeyedStage n _ _ => if decide (n = "") then "keyed" else n
  | ChannelStage n inst _ => if decide (n = "") then "op-" +:+ op_Name (inst_op inst) else n
  | SinkStage => "sink"
  end.

Record PlanNode : Type := mkNode {
  node_Name : string; node_Type : string; node_Parallelism : Z; node_Operators : list string;
}.
Record PlanEdge : Type := mkEdge { edge_From : string; edge_To : string; edge_Name : string }.
Record PlanGraph : Type := mkGraph { graph_Stages : list PlanNode; graph_Edges : list PlanEdge }.

Definition planNode (st : Stage) : PlanNode :=
  match st with
  | SourceStage => mkNode "source" "source" 1 []
  | StatelessStage n ops _ p =>
      mkNode n "stateless" (if p <? 1 then 1 else p) ((λ sp, op_Name (OpSingle sp)) <$> ops)
  | KeyedStage n kb ws =>
      mkNode (stage_Name st) "keyed" (Z.of_nat (length ws))
        (op_Name (OpKeyBy kb) :: match ws with w0 :: _ => (λ x, op_Name (inst_op x)) <$> w0 | [] => [] end)
  | ChannelStage _ inst _ => mkNode (stage_Name st) "channel" 1 [op_Name (inst_op inst)]
  | SinkStage => mkNode "sink" "sink" 1 []
  end.

Fixpoint plan_edges (i : nat) (sts : list Stage) : list PlanEdge :=
  match sts with
  | a :: ((c :: _) as rest) => mkEdge (stage_Name a) (stage_Name c) ("edge-" +:+ itoa i) :: plan_edges (S i) rest
  | _ => []
  end.

Definition DescribePlan (sts : list Stage) : PlanGraph := mkGraph (planNode <$> sts) (plan_edges 0 sts).

(** ** The plan covers the operators, in order *)

Definition stage_ops (st : Stage) : list Operator :=
  match st with
  | StatelessStage _ ops _ _ => OpSingle <$> ops
  | KeyedStage _ kb ws => OpKeyBy kb :: (inst_op <$> default [] (head ws))
  | ChannelStage _ inst _ => [inst_op inst]
  | SourceStage | SinkStage => []
  end.

Definition stage_wf (st : Stage) : Prop :=
  match st with
  | StatelessStage _ ops ls p =>
      ops <> [] /\ length ls = length ops /\ Forall (λ sp, Parallelism sp = p) ops
  | KeyedStage _ kb ws =>
      0 < Partitions kb /\ Z.of_nat (length ws) = Partitions kb /\
      exists ops, Forall (λ op, Cloneable op = true) ops /\ Forall (λ w, inst_op <$> w = ops) ws
  | ChannelStage _ inst _ =>
      match inst_op inst with OpSingle _ | OpKeyBy _ => False | _ => True end
  | SourceStage | SinkStage => False
  end.

Record plan_inv (s : planState) (done : list Operator) : Prop := {
  pi_mid : exists mid, stages s = SourceStage :: mid /\ Forall stage_wf mid /\
    (mid ≫= stage_ops) ++ (OpSingle <$> group s) = done;
  pi_par : Forall (λ sp, Parallelism sp = groupPar s) (group s);
  pi_lab : length (groupLabels s) = length (group s);
}.

Lemma flush_inv s done : plan_inv s done -> plan_inv (flush s) done /\ group (flush s) = [].
Proof.
  intros [(mid & Hs & Hw & Hd) Hp Hl]. unfold flush. destruct (group s) as [|g gs] eqn:Eg.
  - split; [|done]. split; [exists mid; rewrite Eg in *; done|by rewrite Eg|by rewrite Eg].
  - split; [|done]. split; cbn [stages group groupLabels]; [|constructor|done].
    exists (mid ++ [StatelessStage ("stateless-" +:+ itoa (statelessCount s)) (g :: gs) (groupLabels s) (groupPar s)]).
    rewrite Hs. split_and!; [done| |].
    + apply Forall_app. split; [done|]. constructor; [|constructor]. done.
    + rewrite bind_app. cbn [mbind list_bind stage_ops app]. rewrite !app_nil_r. done.
Qed.

Lemma clone_chain_ops h ops next ch next' :
  clone_chain h ops next = Ok (ch, next') -> inst_op <$> ch = ops.
Proof.
  revert next ch next'. induction ops as [|op ops IH]; intros next ch next'; cbn [clone_chain].
  - by intros [= <- _].
  - destruct (hasOnClone h).
    + cbv zeta. destruct (assignBackend h op _); [|done]. cbn [mbind result_bind].
      destruct (clone_chain h ops (S next)) as [[rest n1]|] eqn:E; [|done]. cbn. intros [= <- _]. cbn. by rewrite (IH _ _ _ E).
    + destruct (clone_chain h ops next) as [[rest n1]|] eqn:E; [|done]. cbn. intros [= <- _]. cbn. by rewrite (IH _ _ _ E).
Qed.

Lemma clone_workers_ops h ops w next ws next' :
  clone_workers h ops w next = Ok (ws, next') -> length ws = w /\ Forall (λ ch, inst_op <$> ch = ops) ws.
Proof.
  revert next ws next'. induction w as [|w IH]; intros next ws next'; cbn [clone_workers].
  - by intros [= <- _].
  - destruct (clone_chain h ops next) as [[ch n1]|] eqn:E1; [|done]. cbn [mbind result_bind].
    destruct (clone_workers h ops w n1) as [[rest n2]|] eqn:E2; [|done]. cbn. intros [= <- _].
    destruct (IH _ _ _ E2) as [<- ?]. split; [done|]. constructor; [by eapply clone_chain_ops|done].
Qed.

Lemma takeStateful_spec ops :
  Forall (λ op, Cloneable op = true) (takeStateful ops) /\
  ops = takeStateful ops ++ drop (length (takeStateful ops)) ops.
Proof.
  induction ops as [|op ops [IH1 IH2]]; [split; [constructor|done]|]. cbn [takeStateful].
  destruct (Cloneable op) eqn:E; [|split; [constructor|done]]. split; [by constructor|].
  cbn [length drop app]. by f_equal.
Qed.

Lemma channel_inv h i op label s done s' skip :
  plan_inv s done -> match op with OpSingle _ | OpKeyBy _ => False | _ => True end ->
  plan_step h i op label [] s = Ok (s', skip) ->
  skip = 0%nat /\ plan_inv s' (done ++ [op]).
Proof.
  intros Hi Hop. destruct (flush_inv s done Hi) as [[(mid & Hs & Hw & Hd) Hp Hl] Hg].
  assert (G : forall x, plan_inv (mkPlan (stages (flush s) ++ [ChannelStage x (mkInst op
      (if StateConfigurable op then Some ("op-" +:+ itoa i) else None)) label])
      (group (flush s)) (groupLabels (flush s)) (groupPar (flush s)) (statelessCount (flush s))
      (keyedCount (flush s)) (S (channelCount (flush s))) (workerOps (flush s))) (done ++ [op])).
  { intros x. rewrite Hg in *. cbn [fmap list_fmap] in Hd. rewrite app_nil_r in Hd.
    split; cbn [stages group groupLabels groupPar]; [|done|done].
    eexists (mid ++ [ChannelStage x _ label]). rewrite Hs. split_and!; [done| |].
    - apply Forall_app. split; [done|]. constructor; [exact Hop|constructor].
    - rewrite bind_app, Hd. cbn. by rewrite app_nil_r. }
  destruct op; try done; cbn [plan_step]; cbv zeta;
    (destruct (assignBackend h _ _); [|done]); cbn [mbind result_bind]; intros [= <- <-]; (split; [done|apply G]).
Qed.

Lemma plan_step_inv h i op label rest s done s' skip :
  plan_inv s done -> plan_step h i op label rest s = Ok (s', skip) ->
  skip = length (takeStateful rest) /\ plan_inv s' (done ++ op :: takeStateful rest)
  \/ skip = 0%nat /\ plan_inv s' (done ++ [op]).
Proof.
  intros Hi. destruct op as [sp|kb|id|id|nm]; cbn [plan_step].
  - intros [= <- <-]. right. split; [done|].
    set (s0 := regroup (Parallelism sp) s).
    assert (H0 : plan_inv s0 done /\ Forall (λ x, Parallelism x = Parallelism sp) (group s0)).
    { unfold s0, regroup. destruct (negb _ && _) eqn:E.
      - destruct (flush_inv s done Hi) as [? ->]. split; [done|constructor].
      - split; [done|]. apply andb_false_iff in E as [E|E]; apply negb_false_iff in E.
        + apply bool_decide_eq_true, nil_length_inv in E. rewrite E. constructor.
        + apply Z.eqb_eq in E. rewrite E. apply Hi. }
    destruct H0 as [[(mid & Hs & Hw & Hd) Hp Hl] Hg].
    split; cbn [stages group groupLabels groupPar].
    + exists mid. split_and!; [done|done|]. rewrite fmap_app. cbn. by rewrite app_assoc, Hd.
    + apply Forall_app. split; [done|]. by constructor.
    + by rewrite !length_app, Hl.
  - destruct (Z.leb_spec (Partitions kb) 0); [done|]. cbv zeta. unfold NewKeyedStage.
    destruct (flush_inv s done Hi) as [[(mid & Hs & Hw & Hd) Hp Hl] Hg]. rewrite Hg in *.
    destruct (clone_workers h (takeStateful rest) _ _) as [[ws n1]|] eqn:E; [|done]. cbn [mbind result_bind].
    intros [= <- <-]. left. split; [done|]. destruct (clone_workers_ops _ _ _ _ _ _ E) as [Hlen Hops].
    cbn [fmap list_fmap] in Hd. rewrite app_nil_r in Hd.
    split; cbn [stages group groupLabels groupPar]; [|done|done].
    eexists (mid ++ [KeyedStage _ kb ws]). rewrite Hs. split_and!; [done| |].
    + apply Forall_app. split; [done|]. constructor; [|constructor]. split_and!; [lia|lia|].
      exists (takeStateful rest). split; [apply takeStateful_spec|done].
    + rewrite bind_app, Hd. cbn [mbind list_bind stage_ops fmap list_fmap]. rewrite !app_nil_r. do 2 f_equal.
      destruct ws as [|w0 ws]; [cbn in Hlen; lia|]. apply Forall_cons in Hops as [Hw0 _]. exact Hw0.
  - intros H. right. by apply (channel_inv h i (OpWindow id) label s done s' skip Hi I H).
  - intros H. right. by apply (channel_inv h i (OpReduce id) label s done s' skip Hi I H).
  - intros H. right. by apply (channel_inv h i (OpOther nm) label s done s' skip Hi I H).
Qed.

Lemma plan_loop_inv h i skip (ops : list (Operator * string)) s done s' :
  plan_inv s done -> (skip <= length ops)%nat -> plan_loop h i skip ops s = Ok s' ->
  plan_inv s' (done ++ drop skip ops.*1).
Proof.
  revert i skip s done. induction ops as [|[op label] ops IH]; intros i skip s done Hi Hskip; cbn [plan_loop].
  - intros [= <-]. cbn in Hskip. assert (skip = 0%nat) as -> by lia. cbn. by rewrite app_nil_r.
  - destruct skip as [|skip]; cbn [length] in Hskip; [|apply IH; [done|lia]].
    destruct (plan_step h i op label ops.*1 s) as [[s1 skip1]|] eqn:E; [|done]. cbn [mbind result_bind].
    intros Hl. rewrite drop_0. cbn [fmap list_fmap fst]. destruct (takeStateful_spec ops.*1) as [_ Hrest].
    destruct (plan_step_inv _ _ _ _ _ _ _ _ _ Hi E) as [[-> H1]|[-> H1]].
    + rewrite Hrest at 1. rewrite app_comm_cons, app_assoc. eapply IH; [done| |done].
      rewrite <- (length_fmap fst ops). rewrite Hrest at 2. rewrite length_app. lia.
    + change (op :: ops.*1) with ([op] ++ ops.*1). rewrite app_assoc. rewrite <- (drop_0 ops.*1). eapply IH; [done|lia|done].
Qed.

(** C8: a plan covers the program.  Every plan the planner returns starts with
    the source and ends with the sink; the operators of the stages between,
    read in order, are exactly the configured operators; each stateless stage
    is a non-empty group of one parallelism with a label per operator, each
    keyed stage has one worker per partition, all with the same stateful
    chain, and only non-fusable operators run alone. *)
Theorem plan_covers_operators (cfg : PlanConfig) (sts : list Stage) :
  BuildPlan cfg = Ok sts ->
  exists mid, sts = SourceStage :: mid ++ [SinkStage] /\
    mid ≫= stage_ops = Operators cfg /\ Forall stage_wf mid.
Proof.
  unfold BuildPlan. destruct (hasSource cfg); [|done]. destruct (hasSink cfg); [|done]. cbn [negb].
  destruct (bool_decide _) eqn:El; [|done]. apply bool_decide_eq_true in El. cbn [negb].
  destruct (plan_loop _ _ _ _ _) as [s|] eqn:E; [|done]. cbn [mbind result_bind]. intros [= <-].
  assert (H0 : plan_inv (mkPlan [SourceStage] [] [] 1 0 0 0 0) []).
  { split; [|constructor|done]. exists []. split_and!; [done|constructor|done]. }
  pose proof (plan_loop_inv _ _ _ _ _ _ _ H0 (Nat.le_0_l _) E) as H1.
  rewrite drop_0, fst_zip in H1 by lia. destruct (flush_inv _ _ H1) as [[(mid & Hs & Hw & Hd) _ _] Hg].
  exists mid. rewrite Hs. split_and!; [done| |done]. rewrite Hg in Hd. cbn in Hd. by rewrite app_nil_r in Hd.
Qed.

(** ** State owners *)

Definition instances (st : Stage) : list Instance_ :=
  match st with
  | KeyedStage _ _ ws => concat ws
  | ChannelStage _ inst _ => [inst]
  | _ => []
  end.
Definition owners (sts : list Stage) : list string := omap owner (sts ≫= instances).

Lemma owners_app l l' : owners (l ++ l') = owners l ++ owners l'.
Proof. unfold owners. by rewrite bind_app, omap_app. Qed.

Definition workerID (k : nat) : string := "worker-" +:+ itoa k.
Definition opID (k : nat) : string := "op-" +:+ itoa k.

Lemma itoa_inj i j : itoa i = itoa j -> i = j.
Proof. unfold itoa. apply (inj pretty). Qed.
Lemma workerID_inj i j : workerID i = workerID j -> i = j.
Proof. intros [= E]. by apply itoa_inj. Qed.
Lemma opID_inj i j : opID i = opID j -> i = j.
Proof. intros [= E]. by apply itoa_inj. Qed.
Lemma workerID_opID i j : workerID i <> opID j.
Proof. by intros [=]. Qed.

Lemma clone_chain_owners h ops next ch next' :
  clone_chain h ops next = Ok (ch, next') ->
  (next <= next')%nat /\
  omap owner ch = if hasOnClone h then workerID <$> List.seq next (next' - next) else [].
Proof.
  revert next ch next'. induction ops as [|op ops IH]; intros next ch next'; cbn [clone_chain].
  - intros [= <- <-]. split; [done|]. rewrite Nat.sub_diag. by destruct (hasOnClone h).
  - destruct (hasOnClone h) eqn:Eh.
    + cbv zeta. destruct (assignBackend h op _); [|done]. cbn [mbind result_bind].
      destruct (clone_chain h ops (S next)) as [[rest n1]|] eqn:E; [|done]. cbn [mbind result_bind].
      intros [= <- <-]. destruct (IH _ _ _ E) as [Hle Ho]. split; [lia|].
      replace (n1 - next)%nat with (S (n1 - S next)) by lia. cbn [List.seq omap list_omap owner fmap list_fmap].
      by rewrite <- Ho.
    + destruct (clone_chain h ops next) as [[rest n1]|] eqn:E; [|done]. cbn [mbind result_bind].
      intros [= <- <-]. destruct (IH _ _ _ E) as [Hle Ho]. split; [lia|]. exact Ho.
Qed.

Lemma clone_workers_owners h ops w next ws next' :
  clone_workers h ops w next = Ok (ws, next') ->
  (next <= next')%nat /\
  omap owner (concat ws) = if hasOnClone h then workerID <$> List.seq next (next' - next) else [].
Proof.
  revert next ws next'. induction w as [|w IH]; intros next ws next'; cbn [clone_workers].
  - intros [= <- <-]. split; [done|]. rewrite Nat.sub_diag. by destruct (hasOnClone h).
  - destruct (clone_chain h ops next) as [[ch n1]|] eqn:E1; [|done]. cbn [mbind result_bind].
    destruct (clone_workers h ops w n1) as [[rest n2]|] eqn:E2; [|done]. cbn [mbind result_bind]. intros [= <- <-].
    destruct (clone_chain_owners _ _ _ _ _ E1) as [Hle1 Ho1], (IH _ _ _ E2) as [Hle2 Ho2]. split; [lia|].
    cbn [concat]. rewrite omap_app, Ho1, Ho2. destruct (hasOnClone h); [|done].
    replace (n2 - next)%nat with ((n1 - next) + (n2 - n1))%nat by lia. rewrite List.seq_app, fmap_app.
    by replace (next + (n1 - next))%nat with n1 by lia.
Qed.

(** The owners handed out so far: at most one per clone counter value and per
    operator index. *)
Definition owners_inv (i : nat) (s : planState) : Prop :=
  NoDup (owners (stages s)) /\
  Forall (λ o, (exists k, (k < workerOps s)%nat /\ o = workerID k) \/ (exists j, (j < i)%nat /\ o = opID j))
    (owners (stages s)).

Lemma owners_mono i i' s s' :
  owners (stages s') = owners (stages s) -> (i <= i')%nat -> (workerOps s <= workerOps s')%nat ->
  owners_inv i s -> owners_inv i' s'.
Proof.
  intros E Hi Hw [H1 H2]. split; rewrite E; [done|]. eapply Forall_impl; [exact H2|].
  intros o [(k & ? & ->)|(j & ? & ->)]; [left; exists k|right; exists j]; split; (done || lia).
Qed.

Lemma flush_owners s : owners (stages (flush s)) = owners (stages s) /\ workerOps (flush s) = workerOps s.
Proof.
  unfold flush. destruct (group s); [done|]. cbn [stages workerOps]. rewrite owners_app. split; [|done].
  unfold owners at 2. cbn. by rewrite app_nil_r.
Qed.

Lemma seq_workers_nodup a n : NoDup (workerID <$> List.seq a n).
Proof.
  apply NoDup_fmap_2_strong; [intros ? ? _ _; apply workerID_inj|]. apply NoDup_ListNoDup, List.seq_NoDup.
Qed.

Lemma plan_step_owners h i op label rest s s' skip :
  owners_inv i s -> plan_step h i op label rest s = Ok (s', skip) -> owners_inv (S i) s'.
Proof.
  intros Hi. destruct (flush_owners s) as [Hfo Hfw].
  assert (Hfl : owners_inv i (flush s)) by (apply (owners_mono i i s); [exact Hfo|lia|lia|done]).
  assert (Hch : forall x sp,
    match sp with OpSingle _ | OpKeyBy _ => False | _ => True end ->
    owners_inv (S i) (mkPlan (stages (flush s) ++ [ChannelStage x (mkInst sp
      (if StateConfigurable sp then Some (opID i) else None)) label])
      (group (flush s)) (groupLabels (flush s)) (groupPar (flush s)) (statelessCount (flush s))
      (keyedCount (flush s)) (S (channelCount (flush s))) (workerOps (flush s)))).
  { intros x sp _. destruct Hfl as [H1 H2].
    assert (Ho : owners [ChannelStage x (mkInst sp (if StateConfigurable sp then Some (opID i) else None)) label]
      = if StateConfigurable sp then [opID i] else []) by (unfold owners; cbn; by destruct (StateConfigurable sp)).
    split; cbn [stages workerOps]; rewrite owners_app, Ho.
    - destruct (StateConfigurable sp); [|by rewrite app_nil_r]. apply NoDup_app. split_and!; [done| |apply NoDup_singleton].
      intros o Hin ->%list_elem_of_singleton. rewrite Forall_forall in H2.
      destruct (H2 _ Hin) as [(k & _ & E)|(j & Hj & E)]; [by apply eq_sym, workerID_opID in E|]. apply opID_inj in E. lia.
    - apply Forall_app. split.
      + eapply Forall_impl; [exact H2|]. intros o [?|(j & ? & ->)]; [by left|right; exists j; split; [lia|done]].
      + destruct (StateConfigurable sp); [|constructor]. constructor; [|constructor]. right. exists i. split; [lia|done]. }
  destruct op as [sp|kb|id|id|nm]; cbn [plan_step].
  - intros [= <- _]. unfold regroup.
    destruct (negb _ && _); (apply (owners_mono i (S i) s); [| | |exact Hi]); cbn [stages workerOps]; (done || lia).
  - destruct (_ <=? 0); [done|]. cbv zeta. unfold NewKeyedStage.
    destruct (clone_workers h (takeStateful rest) _ _) as [[ws n1]|] eqn:E; [|done]. cbn [mbind result_bind].
    intros [= <- _]. destruct (clone_workers_owners _ _ _ _ _ _ E) as [Hle Ho]. destruct Hfl as [H1 H2].
    assert (Hk : forall nm, owners [KeyedStage nm kb ws]
      = if hasOnClone h then workerID <$> List.seq (workerOps (flush s)) (n1 - workerOps (flush s)) else [])
      by (intros nm; unfold owners; cbn [mbind list_bind instances]; rewrite app_nil_r; exact Ho).
    split; cbn [stages workerOps]; rewrite owners_app, Hk.
    + destruct (hasOnClone h); [|by rewrite app_nil_r]. apply NoDup_app. split_and!; [done| |apply seq_workers_nodup].
      intros o Hin (k & -> & Hk')%list_elem_of_fmap. apply list_elem_of_In, List.in_seq in Hk'.
      rewrite Forall_forall in H2. destruct (H2 _ Hin) as [(k' & Hlt & E')|(j & _ & E')].
      * apply workerID_inj in E'. lia.
      * by apply workerID_opID in E'.
    + apply Forall_app. split.
      * eapply Forall_impl; [exact H2|]. intros o [(k & ? & ->)|(j & ? & ->)]; [left; exists k|right; exists j]; split; (done || lia).
      * destruct (hasOnClone h); [|constructor]. apply Forall_forall. intros o (k & -> & Hk')%list_elem_of_fmap.
        apply list_elem_of_In, List.in_seq in Hk'. left. exists k. split; [lia|done].
  - cbv zeta. destruct (assignBackend h _ _); [|done]. cbn [mbind result_bind]. intros [= <- _]. by apply (Hch _ (OpWindow id)).
  - cbv zeta. destruct (assignBackend h _ _); [|done]. cbn [mbind result_bind]. intros [= <- _]. by apply (Hch _ (OpReduce id)).
  - cbv zeta. destruct (assignBackend h _ _); [|done]. cbn [mbind result_bind]. intros [= <- _]. by apply (Hch _ (OpOther nm)).
Qed.

Lemma plan_loop_owners h i skip ops s s' :
  owners_inv i s -> plan_loop h i skip ops s = Ok s' -> owners_inv (i + length ops) s'.
Proof.
  revert i skip s. induction ops as [|[op label] ops IH]; intros i skip s Hi; cbn [plan_loop length].
  - intros [= <-]. by rewrite Nat.add_0_r.
  - rewrite Nat.add_succ_r, <- Nat.add_succ_l. destruct skip as [|skip].
    + destruct (plan_step h i op label ops.*1 s) as [[s1 skip1]|] eqn:E; [|done]. cbn [mbind result_bind].
      apply IH. by eapply plan_step_owners.
    + apply IH. apply (owners_mono i (S i) s); (done || lia).
Qed.

(** No two operator instances of a plan share a state owner: the
    worker-<n> and op-<n> identifiers that name state backends, checkpoint
    entries and native state directories are pairwise distinct. *)
Theorem plan_owners_unique (cfg : PlanConfig) (sts : list Stage) :
  BuildPlan cfg = Ok sts -> NoDup (owners sts).
Proof.
  unfold BuildPlan. destruct (hasSource cfg); [|done]. destruct (hasSink cfg); [|done]. cbn [negb].
  destruct (bool_decide _); [|done]. cbn [negb].
  destruct (plan_loop _ _ _ _ _) as [s|] eqn:E; [|done]. cbn [mbind result_bind]. intros [= <-].
  assert (H0 : owners_inv 0 (mkPlan [SourceStage] [] [] 1 0 0 0 0)) by (split; constructor).
  pose proof (plan_loop_owners _ _ _ _ _ _ H0 E) as [H1 _].
  rewrite owners_app, (proj1 (flush_owners s)). cbn. by rewrite app_nil_r.
Qed.

(** ** When planning succeeds *)

Definition keyby_ok (op : Operator) : bool :=
  match op with OpKeyBy kb => 0 <? Partitions kb | _ => true end.

(** Opening a state backend never fails. *)
Definition hooks_total (h : StageHooks) : Prop := forall f o, StateBackendFor h = Some f -> f o = None.
Lemma assignBackend_total h op o : hooks_total h -> assignBackend h op o = Ok tt.
Proof.
  intros Hh. unfold assignBackend. destruct (StateConfigurable op); [|done].
  destruct (StateBackendFor h) as [f|] eqn:E; [|done]. by rewrite (Hh f o E).
Qed.

Lemma clone_chain_total h ops next :
  hooks_total h -> exists x, clone_chain h ops next = Ok x.
Proof.
  intros Hb. revert next. induction ops as [|op ops IH]; intros next; cbn [clone_chain]; [eauto|].
  destruct (hasOnClone h).
  - cbv zeta. rewrite assignBackend_total by done. destruct (IH (S next)) as [[r n] ->]. cbn; eauto.
  - destruct (IH next) as [[r n] ->]. cbn. eauto.
Qed.

Lemma clone_workers_total h ops w next :
  hooks_total h -> exists x, clone_workers h ops w next = Ok x.
Proof.
  intros Hb. revert next. induction w as [|w IH]; intros next; cbn [clone_workers]; [eauto|].
  destruct (clone_chain_total h ops next Hb) as [[ch n] ->]. cbn [mbind result_bind].
  destruct (IH n) as [[r n2] ->]. cbn. eauto.
Qed.

Lemma takeStateful_take ops : take (length (takeStateful ops)) ops = takeStateful ops.
Proof.
  induction ops as [|op ops IH]; [done|]. cbn [takeStateful]. destruct (Cloneable op); [|done]. cbn. by rewrite IH.
Qed.

Lemma plan_step_total h i op label rest s :
  hooks_total h -> is_ok (plan_step h i op label rest s) = keyby_ok op.
Proof.
  intros Hb. destruct op as [sp|kb|id|id|nm]; cbn [plan_step keyby_ok]; try done.
  - destruct (Z.leb_spec (Partitions kb) 0), (Z.ltb_spec 0 (Partitions kb)); try lia; [done|]. cbv zeta.
    unfold NewKeyedStage. destruct (clone_workers_total h (takeStateful rest) (Z.to_nat (Partitions kb)) (workerOps (flush s)) Hb) as [[ws n] ->].
    done.
  - cbv zeta. by rewrite assignBackend_total.
  - cbv zeta. by rewrite assignBackend_total.
Qed.

Lemma plan_loop_total h i skip ops s :
  hooks_total h -> Forall (λ op, Cloneable op = true) (take skip ops.*1) ->
  is_ok (plan_loop h i skip ops s) = forallb keyby_ok ops.*1.
Proof.
  intros Hb. revert i skip s. induction ops as [|[op label] ops IH]; intros i skip s Hc; cbn [plan_loop]; [done|].
  rewrite fmap_cons. cbn [fst forallb]. destruct skip as [|skip].
  - pose proof (plan_step_total h i op label ops.*1 s Hb) as Ht.
    destruct (plan_step h i op label ops.*1 s) as [[s1 skip1]|] eqn:E; cbn [is_ok] in Ht; rewrite <- Ht; [|done].
    cbn [mbind result_bind andb]. apply IH. destruct (takeStateful_spec ops.*1) as [Hst Hrest].
    destruct op as [sp|kb|id|id|nm]; cbn [plan_step] in E; cbv zeta in E.
    + injection E as _ <-. constructor.
    + destruct (_ <=? 0); [done|]. destruct (NewKeyedStage _ _ _ _ _) as [[? ?]|]; [|done]. cbn in E. injection E as _ <-.
      by rewrite takeStateful_take.
    + destruct (assignBackend _ _ _); [|done]. cbn in E. injection E as _ <-. constructor.
    + destruct (assignBackend _ _ _); [|done]. cbn in E. injection E as _ <-. constructor.
    + destruct (assignBackend _ _ _); [|done]. cbn in E. injection E as _ <-. constructor.
  - cbn [fmap list_fmap fst take] in Hc. apply Forall_cons in Hc as [Ho Hc]. rewrite IH by done.
    by destruct op.
Qed.

(** When opening state backends does not fail, planning fails exactly when it
    should: no source, no sink, a label count that differs from the operator
    count, or a KeyBy whose partition count is not positive. *)
Lemma plan_fails_exactly (cfg : PlanConfig) :
  hooks_total (hooks cfg) ->
  is_ok (BuildPlan cfg) = hasSource cfg && hasSink cfg
    && bool_decide (length (cfgLabels cfg) = length (Operators cfg)) && forallb keyby_ok (Operators cfg).
Proof.
  intros Hb. unfold BuildPlan. destruct (hasSource cfg); [|done]. destruct (hasSink cfg); [|done]. cbn [negb andb].
  destruct (bool_decide _) eqn:El; [|done]. apply bool_decide_eq_true in El. cbn [negb andb].
  pose proof (plan_loop_total (hooks cfg) 0 0 (zip (Operators cfg) (cfgLabels cfg))
    (mkPlan [SourceStage] [] [] 1 0 0 0 0) Hb (Forall_nil_2 _)) as H.
  rewrite fst_zip in H by lia. rewrite <- H. by destruct (plan_loop _ _ _ _ _).
Qed.

(** ** Witnesses *)

Definition demoPlan : PlanConfig :=
  mkPlanCfg true
    [OpSingle (MapOperator 1 id); OpSingle (FilterOperator 4 (λ _, true)); OpKeyBy (WithPartitions 2 (KeyBy Key));
     OpWindow 0; OpReduce 0; OpSingle (MapOperator 1 id); OpReduce 1]
    ["a"; "b"; "c"; "d"; "e"; "f"; "g"] true (mkHooks true None).

Lemma plan_covers_operators_witness :
  exists mid, default [] (match BuildPlan demoPlan with Ok sts => Some sts | Err _ => None end)
    = SourceStage :: mid ++ [SinkStage] /\ mid ≫= stage_ops = Operators demoPlan /\ Forall stage_wf mid.
Proof. apply (plan_covers_operators demoPlan). vm_compute. reflexivity. Defined.

Lemma plan_owners_unique_witness :
  NoDup (owners (default [] (match BuildPlan demoPlan with Ok sts => Some sts | Err _ => None end))).
Proof. apply (plan_owners_unique demoPlan). vm_compute. reflexivity. Defined.

Lemma plan_fails_exactly_witness : is_ok (BuildPlan demoPlan) = true.
Proof. rewrite (plan_fails_exactly demoPlan); [reflexivity|]. intros f o [=]. Defined.
