(* ===== verification/Storage.v ===== *)
(** * Package checkpoint: checkpoint records and FileStorage

    A directory is its files by name and its state directories.  Each file
    write is atomic and durable (temp file, fsync, rename), so a save that
    stops half-way, by an error or a crash, is a prefix of its writes: the
    argument [k] of the saving operations is how many of them happen. *)
From S2P Require Import Prelude GoTime Json.

(** ** Checkpoint records *)

Definition StatusPrepared : bytes := b "prepared".
Definition StatusCompleted : bytes := b "completed".

Record CheckpointData : Type := mkCD {
  cd_ID : bytes; cd_Timestamp : Z;
  cd_Operators : gmap bytes slice; cd_Source : gmap bytes slice;
  cd_Status : bytes; cd_TxnID : bytes; cd_StateDirs : gmap bytes bytes;
}.

Definition Completed (d : CheckpointData) : bool :=
  bool_decide (cd_Status d = StatusCompleted) || bool_decide (cd_Status d = []).
Definition set_Status (st : bytes) (d : CheckpointData) : CheckpointData :=
  mkCD (cd_ID d) (cd_Timestamp d) (cd_Operators d) (cd_Source d) st (cd_TxnID d) (cd_StateDirs d).

(** The JSON form, with the struct tags' [omitempty]. *)
Definition enc_str (s : bytes) : json := JStr (utf8_coerce s).
Definition dec_str (j : json) : bytes := match j with JStr s => s | _ => [] end.
Definition omit_str (name s : bytes) : list (bytes * json) :=
  match s with [] => [] | _ => [(name, enc_str s)] end.
Definition omit_map (name : bytes) (m : gmap bytes bytes) : list (bytes * json) :=
  if decide (m = ∅) then [] else [(name, marshal_map enc_str m)].

Definition tree_of_checkpoint (d : CheckpointData) : json :=
  JObj ([(b "id", enc_str (cd_ID d)); (b "timestamp", JStr (Format (cd_Timestamp d)));
         (b "operators", marshal_map enc_slice (cd_Operators d));
         (b "source", marshal_map enc_slice (cd_Source d))]
    ++ omit_str (b "status") (cd_Status d) ++ omit_str (b "txn_id") (cd_TxnID d)
    ++ omit_map (b "state_dirs") (cd_StateDirs d)).
Definition checkpoint_of_tree (j : json) : option CheckpointData :=
  ts ← Parse (dec_str (jfield (b "timestamp") j));
  Some (mkCD (dec_str (jfield (b "id") j)) ts
    (unmarshal_map dec_slice (jfield (b "operators") j)) (unmarshal_map dec_slice (jfield (b "source") j))
    (dec_str (jfield (b "status") j)) (dec_str (jfield (b "txn_id") j))
    (unmarshal_map dec_str (jfield (b "state_dirs") j))).

(** What the JSON form carries faithfully. *)
Record cd_ok (d : CheckpointData) : Prop := {
  ok_id : utf8_valid (cd_ID d);
  ok_ts : int64 (cd_Timestamp d);
  ok_ops : forall k, is_Some (cd_Operators d !! k) -> utf8_valid k;
  ok_src : forall k, is_Some (cd_Source d !! k) -> utf8_valid k;
  ok_status : utf8_valid (cd_Status d);
  ok_txn : utf8_valid (cd_TxnID d);
  ok_dirs : forall k v, cd_StateDirs d !! k = Some v -> utf8_valid k /\ utf8_valid v;
}.

Lemma jfield_omit_str n m s fs :
  jfield n (JObj (omit_str m s ++ fs))
  = if decide (n = m) then match s with [] => jfield n (JObj fs) | _ => enc_str s end else jfield n (JObj fs).
Proof.
  destruct (decide (n = m)) as [->|]; destruct s as [|c s]; cbn [omit_str app];
    rewrite ?jfield_here, ?jfield_skip by done; done.
Qed.

Lemma jfield_omit_map n m :
  jfield n (JObj (omit_map (b "state_dirs") m))
  = if decide (n = b "state_dirs") then (if decide (m = ∅) then JNull else marshal_map enc_str m) else JNull.
Proof.
  unfold omit_map. destruct (decide (m = ∅)); [by destruct (decide _)|].
  destruct (decide (n = b "state_dirs")) as [->|]; [apply jfield_here|].
  by rewrite jfield_skip by done.
Qed.

(** Strings inside a map, when all of them are valid UTF-8. *)
Lemma unmarshal_marshal_str (m : gmap bytes bytes) :
  (forall k v, m !! k = Some v -> utf8_valid k /\ utf8_valid v) ->
  unmarshal_map dec_str (marshal_map enc_str m) = m.
Proof.
  intros Hv. transitivity (unmarshal_map dec_str (marshal_map JStr m)).
  - unfold marshal_map. f_equal. f_equal. apply list_fmap_ext. intros i [k v] Hi.
    apply list_elem_of_lookup_2 in Hi. rewrite merge_sort_Permutation in Hi. apply elem_of_map_to_list in Hi.
    unfold enc_str. cbn. f_equal. f_equal. by apply (Hv k v).
  - apply unmarshal_marshal_map; [done|]. intros k [v Hk]. by apply (Hv k v).
Qed.

Lemma checkpoint_tree_roundtrip d :
  cd_ok d -> checkpoint_of_tree (tree_of_checkpoint d) = Some d.
Proof.
  intros [H1 H2 H3 H4 H5 H6 H7]. destruct d as [id ts ops src st txn dirs]. cbn in *.
  unfold checkpoint_of_tree, tree_of_checkpoint. cbn [cd_ID cd_Timestamp cd_Operators cd_Source cd_Status cd_TxnID cd_StateDirs app].
  repeat first [rewrite jfield_here | rewrite jfield_skip by done].
  cbn [dec_str]. rewrite Parse_Format by done. cbn [mbind option_bind]. do 2 f_equal.
  - exact H1.
  - apply unmarshal_marshal_map; [apply dec_enc_slice|done].
  - apply unmarshal_marshal_map; [apply dec_enc_slice|done].
  - rewrite jfield_omit_str, decide_True by done. destruct st; [|exact H5].
    rewrite jfield_omit_str, decide_False, jfield_omit_map, decide_False by done. done.
  - rewrite jfield_omit_str, decide_False, jfield_omit_str, decide_True by done. destruct txn; [|exact H6].
    by rewrite jfield_omit_map, decide_False by done.
  - rewrite jfield_omit_str, decide_False, jfield_omit_str, decide_False, jfield_omit_map, decide_True by done.
    destruct (decide (dirs = ∅)); [by subst|]. by apply unmarshal_marshal_str.
Qed.

(** ** FileStorage *)

(** The files of the directory by name, and the state roots by name: owner
    directory -> relative file name -> contents. *)
Record FileStorage : Type := mkFS {
  files : gmap bytes bytes;
  dirs : gmap bytes (gmap bytes (gmap bytes bytes));
}.
Definition emptyFS : FileStorage := mkFS ∅ ∅.

(** The names inside the directory, as [filepath.Join] gives them for ids without
    separators or dots, which are those the engine makes ([mkID]). *)
Definition checkpointFile (id : bytes) : bytes := b "checkpoint-" ++ id ++ b ".json".
Definition latestFile : bytes := b "latest.json".
Definition latestCompletedFile : bytes := b "latest-completed.json".
Definition StateDir (id : bytes) : bytes := b "checkpoint-" ++ id ++ b ".state".

Lemma checkpointFile_inj i j : checkpointFile i = checkpointFile j -> i = j.
Proof. unfold checkpointFile. intros E. by simplify_list_eq. Qed.
Lemma checkpointFile_latest i : checkpointFile i <> latestFile /\ checkpointFile i <> latestCompletedFile.
Proof. split; by intros [=]. Qed.

Section FileStorage.
Context `{JT : JSONText}.
Implicit Types (fs : FileStorage) (d : CheckpointData).

Definition write_file fs (w : bytes * bytes) : FileStorage := mkFS (<[w.1 := w.2]> (files fs)) (dirs fs).

(** The file writes of one save, in order. *)
Definition save_writes d : list (bytes * bytes) :=
  [(checkpointFile (cd_ID d), json_print (tree_of_checkpoint d)); (latestFile, cd_ID d)]
  ++ (if bool_decide (cd_Status d = StatusCompleted) then [(latestCompletedFile, cd_ID d)] else []).

Definition saveLocked (k : nat) d fs : FileStorage * result unit :=
  let d := if bool_decide (cd_Status d = []) then set_Status StatusCompleted d else d in
  let owned := default ∅ (dirs fs !! StateDir (cd_ID d)) in
  if forallb (λ kv : bytes * bytes, bool_decide (is_Some (owned !! kv.2))) (map_to_list (cd_StateDirs d)) then
    let ws := save_writes d in
    (foldl write_file fs (take k ws),
     if (length ws <=? k)%nat then Ok tt else Err "checkpoint: write")
  else (fs, Err "checkpoint: sync state dir").
Definition Save (k : nat) d fs : FileStorage * result unit := saveLocked k d fs.

Definition loadSpecificLocked (id : bytes) fs : result (option CheckpointData) :=
  match files fs !! checkpointFile id with
  | None => Ok None
  | Some raw =>
      match json_parse raw ≫= checkpoint_of_tree with
      | Some d => Ok (Some d)
      | None => Err "checkpoint: unmarshal"
      end
  end.
Definition LoadSpecific := loadSpecificLocked.

Definition loadLatestLocked fs : result (option CheckpointData) :=
  match files fs !! latestFile with
  | None => Ok None
  | Some id => loadSpecificLocked id fs
  end.
Definition Load := loadLatestLocked.

Definition LoadLatestCompleted fs : result (option CheckpointData) :=
  match files fs !! latestCompletedFile with
  | None =>
      match loadLatestLocked fs with
      | Err e => Err e
      | Ok None => Ok None
      | Ok (Some d) => if Completed d then Ok (Some d) else Ok None
      end
  | Some id => loadSpecificLocked id fs
  end.

Definition UpdateStatus (k : nat) (id status : bytes) fs : FileStorage * result unit :=
  match loadSpecificLocked id fs with
  | Err e => (fs, Err e)
  | Ok None => (fs, Err "checkpoint: update status: not found")
  | Ok (Some d) => saveLocked k (set_Status status d) fs
  end.

Definition DeleteStateDirs (id : bytes) fs : FileStorage := mkFS (files fs) (delete (StateDir id) (dirs fs)).

(** [strings.HasSuffix]/[TrimSuffix] on the directory entries. *)
Definition trimSuffix (s suf : bytes) : option bytes :=
  let n := (length s - length suf)%nat in
  if decide (length suf <= length s)%nat then if decide (drop n s = suf) then Some (take n s) else None else None.
Definition orphan fs (name : bytes) : bool :=
  match trimSuffix name (b ".state") with
  | Some id => bool_decide (files fs !! (id ++ b ".json") = None)
  | None => false
  end.
Definition SweepOrphans fs : FileStorage :=
  mkFS (files fs) (filter (λ kv, orphan fs kv.1 = false) (dirs fs)).

(** ** Loading what was saved *)

Lemma load_written id fs d :
  cd_ok d -> files fs !! checkpointFile id = Some (json_print (tree_of_checkpoint d)) ->
  loadSpecificLocked id fs = Ok (Some d).
Proof.
  intros Hd Hf. unfold loadSpecificLocked. rewrite Hf, json_parse_print. cbn [mbind option_bind].
  by rewrite checkpoint_tree_roundtrip.
Qed.

(** A save of a record that has its state directories, cut after [k] writes. *)
Definition has_dirs fs d : Prop :=
  forall k v, cd_StateDirs d !! k = Some v -> is_Some (default ∅ (dirs fs !! StateDir (cd_ID d)) !! v).

Lemma saveLocked_eq k d fs :
  cd_Status d <> [] -> has_dirs fs d ->
  saveLocked k d fs = (foldl write_file fs (take k (save_writes d)),
    if (length (save_writes d) <=? k)%nat then Ok tt else Err "checkpoint: write").
Proof.
  intros Hs Hd. unfold saveLocked. rewrite bool_decide_false by done. cbv zeta.
  replace (forallb _ _) with true; [done|]. symmetry. apply forallb_forall. intros [o v] Hin.
  apply list_elem_of_In, elem_of_map_to_list in Hin. apply bool_decide_eq_true. by apply (Hd o).
Qed.

Definition agree_except id fs fs' : Prop :=
  forall f, f <> checkpointFile id -> f <> latestFile -> f <> latestCompletedFile -> files fs' !! f = files fs !! f.

(** The directory after [k] writes of a save. *)
Lemma save_files k d fs f :
  files (foldl write_file fs (take k (save_writes d))) !! f =
  if decide (f = checkpointFile (cd_ID d)) then
    (if (0 <? k)%nat then Some (json_print (tree_of_checkpoint d)) else files fs !! f)
  else if decide (f = latestFile) then (if (1 <? k)%nat then Some (cd_ID d) else files fs !! f)
  else if decide (f = latestCompletedFile) then
    (if (2 <? k)%nat && bool_decide (cd_Status d = StatusCompleted) then Some (cd_ID d) else files fs !! f)
  else files fs !! f.
Proof.
  destruct (checkpointFile_latest (cd_ID d)) as [N1 N2].
  assert (N3 : latestFile <> latestCompletedFile) by done.
  unfold save_writes. generalize (json_print (tree_of_checkpoint d)) as raw. intros raw.
  destruct (decide (f = checkpointFile (cd_ID d))) as [->|H1];
    [|destruct (decide (f = latestFile)) as [->|H2]; [|destruct (decide (f = latestCompletedFile)) as [->|H3]]];
    destruct k as [|[|[|k]]]; destruct (bool_decide _); cbn [take app foldl write_file files fst snd Nat.ltb Nat.leb andb];
    rewrite ?take_nil; cbn [foldl write_file files fst snd];
    rewrite ?lookup_insert_ne, ?lookup_insert_eq, ?lookup_insert_ne by congruence; try done.
Qed.

Lemma writes_dirs ws fs : dirs (foldl write_file fs ws) = dirs fs.
Proof. revert fs. induction ws as [|x ws IH]; intros fs; [done|]. cbn. by rewrite IH. Qed.
Lemma Save_dirs k d fs : dirs (Save k d fs).1 = dirs fs.
Proof. unfold Save, saveLocked. cbv zeta. destruct (forallb _ _); [apply writes_dirs|done]. Qed.
Lemma Save_loads d fs k :
  cd_ok d -> has_dirs fs d -> cd_Status d = StatusCompleted -> (3 <= k)%nat ->
  let '(fs', r) := Save k d fs in
  r = Ok tt /\ Load fs' = Ok (Some d) /\ LoadLatestCompleted fs' = Ok (Some d) /\
  LoadSpecific (cd_ID d) fs' = Ok (Some d) /\
  forall id, id <> cd_ID d -> LoadSpecific id fs' = LoadSpecific id fs.
Proof.
  intros Hd Hdirs Hs Hk. unfold Save. rewrite saveLocked_eq by (rewrite ?Hs; done).
  destruct (checkpointFile_latest (cd_ID d)) as [N1 N2]. assert (N3 : latestFile <> latestCompletedFile) by done.
  set (fs' := foldl _ _ _). pose proof (λ f, save_files k d fs f) as Hf. fold fs' in Hf.
  assert (Hload : LoadSpecific (cd_ID d) fs' = Ok (Some d)).
  { apply load_written; [done|]. rewrite Hf, decide_True by done. by replace (0 <? k)%nat with true by (symmetry; apply Nat.ltb_lt; lia). }
  split_and!.
  - unfold save_writes. rewrite bool_decide_true by done. cbn [length app].
    by replace (3 <=? k)%nat with true by (symmetry; by apply Nat.leb_le).
  - unfold Load, loadLatestLocked. rewrite Hf, decide_False, decide_True by done.
    replace (1 <? k)%nat with true by (symmetry; apply Nat.ltb_lt; lia). exact Hload.
  - unfold LoadLatestCompleted. rewrite Hf, decide_False, decide_False, decide_True, bool_decide_true by done.
    replace (2 <? k)%nat with true by (symmetry; apply Nat.ltb_lt; lia). exact Hload.
  - exact Hload.
  - intros id Hne. unfold LoadSpecific, loadSpecificLocked. rewrite Hf, decide_False.
    + destruct (checkpointFile_latest id). by rewrite !decide_False by done.
    + intros E. by apply checkpointFile_inj in E.
Qed.

(** C36: what is saved is loaded.  After a successful save of a completed
    checkpoint, the latest, the latest completed and the named checkpoint
    are all that record, field for field; other checkpoints keep theirs. *)
Theorem save_then_load d fs k :
  cd_ok d -> has_dirs fs d -> cd_Status d = StatusCompleted -> (3 <= k)%nat ->
  let '(fs', r) := Save k d fs in
  r = Ok tt /\ Load fs' = Ok (Some d) /\ LoadLatestCompleted fs' = Ok (Some d) /\
  LoadSpecific (cd_ID d) fs' = Ok (Some d) /\
  forall id, id <> cd_ID d -> LoadSpecific id fs' = LoadSpecific id fs.
Proof. apply Save_loads. Qed.

(** The startup sweep removes exactly the state directories without a
    checkpoint file: the state of every recorded checkpoint, prepared or
    completed, survives, and no file changes. *)
Theorem sweep_keeps_recorded fs id :
  files (SweepOrphans fs) = files fs /\
  dirs (SweepOrphans fs) !! StateDir id
  = if decide (is_Some (files fs !! checkpointFile id)) then dirs fs !! StateDir id else None.
Proof.
  split; [done|]. unfold SweepOrphans. cbn [dirs]. rewrite map_lookup_filter.
  assert (Ho : orphan fs (StateDir id) = bool_decide (files fs !! checkpointFile id = None)).
  { unfold orphan, trimSuffix, StateDir, checkpointFile.
    rewrite !app_assoc. rewrite decide_True by (rewrite length_app; lia).
    assert (En : (length ((b "checkpoint-" ++ id) ++ b ".state") - length (b ".state")
      = length (b "checkpoint-" ++ id))%nat) by (rewrite length_app; lia).
    rewrite En, drop_app_length, decide_True, take_app_length by done. done. }
  destruct (dirs fs !! StateDir id) as [x|]; cbn [mbind option_bind fst]; [|by case_decide].
  rewrite Ho. destruct (files fs !! checkpointFile id) as [c|].
  - rewrite (bool_decide_false (Some c = None)), option_guard_True by done. by rewrite decide_True by (by eexists).
  - rewrite (bool_decide_true (None = None)), option_guard_False by done. by rewrite decide_False by (by intros [? ?]).
Qed.
End FileStorage.

(** A record with operator state, one of them in a state directory. *)
Definition sampleCheckpoint : CheckpointData :=
  mkCD (b "cp-1") 1700000000 {[ b "op-0" := Some (b "x") ]} {[ b "offset" := Some (b "7") ]}
    StatusCompleted [] {[ b "worker-0" := b "worker-0" ]}.
Definition sampleFS : FileStorage := mkFS ∅ {[ StateDir (b "cp-1") := {[ b "worker-0" := ∅ ]} ]}.

Lemma sample_ok : cd_ok sampleCheckpoint.
Proof.
  split; [done|vm_compute; done| | |done|done|].
  - intros k [? H]. cbn [cd_Operators sampleCheckpoint] in H. apply lookup_singleton_Some in H as [<- _]. vm_compute. done.
  - intros k [? H]. cbn [cd_Source sampleCheckpoint] in H. apply lookup_singleton_Some in H as [<- _]. vm_compute. done.
  - intros k v H. cbn [cd_StateDirs sampleCheckpoint] in H. apply lookup_singleton_Some in H as [<- <-]. vm_compute. done.
Qed.
Lemma sample_dirs : has_dirs sampleFS sampleCheckpoint.
Proof.
  intros k v H. cbn [cd_StateDirs sampleCheckpoint] in H. apply lookup_singleton_Some in H as [<- <-]. vm_compute. eauto.
Qed.

Lemma save_then_load_witness :
  let '(fs', r) := Save 3 sampleCheckpoint sampleFS in
  r = Ok tt /\ Load fs' = Ok (Some sampleCheckpoint) /\ LoadLatestCompleted fs' = Ok (Some sampleCheckpoint).
Proof.
  pose proof (save_then_load sampleCheckpoint sampleFS 3 sample_ok sample_dirs eq_refl (le_n 3)) as H.
  destruct (Save 3 sampleCheckpoint sampleFS) as [fs' r]. destruct H as (H1 & H2 & H3 & _).
  split; [exact H1|]. split; [exact H2|exact H3].
Defined.
