(* ===== verification/Coordinator.v ===== *)
(** * Package checkpoint and the engine: coordinated checkpoints and recovery

    The two-phase protocol of [Coordinator.finalize] and the recovery decision
    table of [resolveCoordinatedRecovery].  The transactional sink is seen
    through its log of committed transactions; every external call may fail,
    and a save may stop after any of its file writes. *)
From S2P Require Import Prelude GoTime Json Storage.

(** ** The coordinator *)

Inductive Step : Type := StepPersistPrepared | StepSinkCommitted | StepPersistCompleted | StepOffsetsCommitted.
Inductive HookAction : Type := HookContinue | HookFail | HookHalt.

Record pendingCheckpoint : Type := mkPending {
  offsets : slice; pstate : gmap bytes slice; pstateDirs : gmap bytes bytes;
  prepared : bool; sinkErr : option string;
}.
Definition emptyPending : pendingCheckpoint := mkPending None ∅ ∅ false None.

(** Storage, the ids whose sink transaction committed (oldest first) or was
    aborted, the fatal channel (capacity one), what was reported. *)
Record World : Type := mkW {
  w_fs : FileStorage; committed : list bytes; aborted : list bytes;
  fatal : option string; notified : list bytes; advisory : list slice;
}.

Record Coordinator : Type := mkCoord {
  TxnID : bytes; pending_ : gmap bytes pendingCheckpoint; halted : bool; events : list bytes;
}.
Definition NewCoordinator (txn : bytes) : Coordinator := mkCoord txn ∅ false [].

Definition ensure (id : bytes) (c : Coordinator) : pendingCheckpoint := default emptyPending (pending_ c !! id).
Definition set_pending (id : bytes) (p : pendingCheckpoint) (c : Coordinator) : Coordinator :=
  mkCoord (TxnID c) (<[id := p]> (pending_ c)) (halted c) (events c).

Definition OnBarrierInjected (id : bytes) (offs : slice) (c : Coordinator) : Coordinator :=
  let p := ensure id c in
  set_pending id (mkPending offs (pstate p) (pstateDirs p) (prepared p) (sinkErr p)) c.
Definition OnStateSnapshot (id : bytes) (st : gmap bytes slice) (sd : gmap bytes bytes) (c : Coordinator) : Coordinator :=
  let p := ensure id c in
  set_pending id (mkPending (offsets p) st sd (prepared p) (sinkErr p)) c.
Definition OnSinkPrepared (id : bytes) (err : option string) (c : Coordinator) : Coordinator :=
  let p := ensure id c in
  let c := set_pending id (mkPending (offsets p) (pstate p) (pstateDirs p) true err) c in
  if halted c then c else mkCoord (TxnID c) (pending_ c) (halted c) (events c ++ [id]).

(** How the external calls of one finalization go: the writes each save gets
    through, whether the sink's Commit returns an error and whether it took
    effect, the test hook, and the clock. *)
Record Faults : Type := mkFaults {
  f_save : nat; f_commitErr : bool; f_commitTook : bool; f_update : nat;
  f_hook : Step -> HookAction; f_now : Z;
}.

Section Coordinator.
Context `{JT : JSONText}.

Definition set_fs (fs : FileStorage) (w : World) : World :=
  mkW fs (committed w) (aborted w) (fatal w) (notified w) (advisory w).
Definition reportFatal (e : string) (w : World) : World :=
  mkW (w_fs w) (committed w) (aborted w) (match fatal w with None => Some e | x => x end) (notified w) (advisory w).
Definition abortFatal (id : bytes) (e : string) (w : World) : World :=
  reportFatal e (mkW (DeleteStateDirs id (w_fs w)) (committed w) (aborted w ++ [id]) (fatal w) (notified w) (advisory w)).

(** [step]: [None] when finalization must stop. *)
Definition fire_hook (fl : Faults) (s : Step) (id : bytes) (w : World) (c : Coordinator) : World * Coordinator * bool :=
  match f_hook fl s with
  | HookContinue => (w, c, true)
  | HookFail => (abortFatal id "checkpoint: injected failure" w, c, false)
  | HookHalt => (w, mkCoord (TxnID c) (pending_ c) true (events c), false)
  end.

Definition prepared_data (fl : Faults) (txn id : bytes) (p : pendingCheckpoint) : CheckpointData :=
  mkCD id (f_now fl) (pstate p)
    (match offsets p with Some o => {[ b "offset" := Some o ]} | None => ∅ end)
    StatusPrepared txn (pstateDirs p).

(** After the sink committed: promote, notify, advisory offsets. *)
Definition promote (fl : Faults) (id : bytes) (p : pendingCheckpoint) (w : World) (c : Coordinator) : World * Coordinator :=
  let '(fs, r) := UpdateStatus (f_update fl) id StatusCompleted (w_fs w) in
  let w := set_fs fs w in
  match r with
  | Err e => (reportFatal ("persist completed: " +:+ e) w, c)
  | Ok _ =>
      let w := mkW (w_fs w) (committed w) (aborted w) (fatal w) (notified w ++ [id]) (advisory w) in
      let '(w, c, go) := fire_hook fl StepPersistCompleted id w c in
      if go then
        let w := match offsets p with
                 | Some o => mkW (w_fs w) (committed w) (aborted w) (fatal w) (notified w) (advisory w ++ [Some o])
                 | None => w
                 end in
        let '(w, c, _) := fire_hook fl StepOffsetsCommitted id w c in (w, c)
      else (w, c)
  end.

Definition commit_phase (fl : Faults) (id : bytes) (p : pendingCheckpoint) (w : World) (c : Coordinator) : World * Coordinator :=
  let w := mkW (w_fs w) (if f_commitTook fl then committed w ++ [id] else committed w)
             (aborted w) (fatal w) (notified w) (advisory w) in
  if f_commitErr fl then (reportFatal "sink commit" w, c)
  else
    let '(w, c, go) := fire_hook fl StepSinkCommitted id w c in
    if go then promote fl id p w c else (w, c).

Definition finalize (fl : Faults) (id : bytes) (w : World) (c : Coordinator) : World * Coordinator :=
  if halted c then (w, c) else
  match pending_ c !! id with
  | None => (w, c)
  | Some p =>
      let c := mkCoord (TxnID c) (delete id (pending_ c)) (halted c) (events c) in
      match sinkErr p with
      | Some e => (abortFatal id ("sink prepare failed: " +:+ e) w, c)
      | None =>
          let '(fs, r) := Save (f_save fl) (prepared_data fl (TxnID c) id p) (w_fs w) in
          let w := set_fs fs w in
          match r with
          | Err e => (abortFatal id ("persist prepared: " +:+ e) w, c)
          | Ok _ =>
              let '(w, c, go) := fire_hook fl StepPersistPrepared id w c in
              if go then commit_phase fl id p w c else (w, c)
          end
      end
  end.

(** ** Recovery *)

(** [resolveCoordinatedRecovery]: [probe] is the sink's WasCommitted (an
    error when the marker cannot be read), [k] the writes of the promotion. *)
Definition resolveCoordinatedRecovery (probe : bytes -> result bool) (k : nat) (w : World)
  : World * result (option CheckpointData) :=
  match Load (w_fs w) with
  | Err e => (w, Err ("load latest checkpoint: " +:+ e))
  | Ok None => (w, Ok None)
  | Ok (Some latest) =>
      if Completed latest then (w, Ok (Some latest))
      else
        match probe (cd_ID latest) with
        | Err e => (w, Err ("cannot resolve prepared checkpoint: " +:+ e))
        | Ok true =>
            let '(fs, r) := UpdateStatus k (cd_ID latest) StatusCompleted (w_fs w) in
            let w := set_fs fs w in
            match r with
            | Err e => (w, Err ("promote checkpoint: " +:+ e))
            | Ok _ => (w, Ok (Some (set_Status StatusCompleted latest)))
            end
        | Ok false =>
            let w := mkW (w_fs w) (committed w) (aborted w ++ [cd_ID latest]) (fatal w) (notified w) (advisory w) in
            (w, LoadLatestCompleted (w_fs w))
        end
  end.

(** A marker probe that reads the sink's log. *)
Definition probe_of (w : World) (id : bytes) : result bool := Ok (bool_decide (id ∈ committed w)).

(** ** Consistency of the directory with the sink's log *)

(** Checkpoint [id] is on disk as [d]. *)
Definition stored (fs : FileStorage) (id : bytes) (d : CheckpointData) : Prop :=
  cd_ok d /\ cd_ID d = id /\ files fs !! checkpointFile id = Some (json_print (tree_of_checkpoint d)).

(** Nothing to resolve: the completed pointer is the last committed
    transaction's checkpoint, and the latest one is that or a prepared one
    whose transaction did not commit. *)
Definition settled (fs : FileStorage) (cs : list bytes) : Prop :=
  files fs !! latestCompletedFile = last cs /\
  (forall c, last cs = Some c -> exists d, stored fs c d /\ cd_Status d = StatusCompleted) /\
  (files fs !! latestFile = last cs \/
   exists p d, files fs !! latestFile = Some p /\ stored fs p d /\ cd_Status d = StatusPrepared /\ p ∉ cs).

(** The last committed transaction's checkpoint is the latest one, in either
    status: committed but perhaps not promoted. *)
Definition torn (fs : FileStorage) (cs : list bytes) : Prop :=
  exists c d, last cs = Some c /\ files fs !! latestFile = Some c /\ stored fs c d /\ has_dirs fs d /\
    (cd_Status d = StatusPrepared \/ cd_Status d = StatusCompleted).

(** The promoted record whose completed pointer was not written. *)
Definition pointer_gap (fs : FileStorage) (cs : list bytes) : Prop :=
  exists c d, last cs = Some c /\ stored fs c d /\ cd_Status d = StatusCompleted /\
    files fs !! latestCompletedFile <> Some c.

Lemma stored_load fs id d : stored fs id d -> loadSpecificLocked id fs = Ok (Some d).
Proof. intros (Hd & _ & Hf). by apply load_written. Qed.

Lemma stored_write fs k d id d0 :
  id <> cd_ID d -> stored fs id d0 -> stored (foldl write_file fs (take k (save_writes d))) id d0.
Proof.
  intros Hne (H1 & H2 & H3). split_and!; [done|done|]. rewrite save_files.
  destruct (checkpointFile_latest id). rewrite !decide_False by (done || (intros E; by apply checkpointFile_inj in E)). done.
Qed.

Lemma stored_own fs k d :
  cd_ok d -> (0 < k)%nat -> stored (foldl write_file fs (take k (save_writes d))) (cd_ID d) d.
Proof.
  intros Hd Hk. split_and!; [done|done|]. rewrite save_files, decide_True by done.
  by replace (0 <? k)%nat with true by (symmetry; by apply Nat.ltb_lt).
Qed.

Lemma pointers_after fs k d :
  files (foldl write_file fs (take k (save_writes d))) !! latestFile
    = (if (1 <? k)%nat then Some (cd_ID d) else files fs !! latestFile) /\
  files (foldl write_file fs (take k (save_writes d))) !! latestCompletedFile
    = (if (2 <? k)%nat && bool_decide (cd_Status d = StatusCompleted) then Some (cd_ID d)
       else files fs !! latestCompletedFile).
Proof.
  destruct (checkpointFile_latest (cd_ID d)) as [N1 N2].
  rewrite !save_files. by rewrite !decide_False, !decide_True by done.
Qed.

(** A prepared save of a fresh checkpoint, cut anywhere, keeps the directory
    settled. *)
Lemma prepared_settled fs cs k d :
  settled fs cs -> cd_ok d -> cd_Status d = StatusPrepared -> cd_ID d ∉ cs ->
  files fs !! checkpointFile (cd_ID d) = None ->
  settled (foldl write_file fs (take k (save_writes d))) cs.
Proof.
  intros (H1 & H2 & H3) Hd Hs Hni Hfresh. destruct (pointers_after fs k d) as [Hl Hc].
  rewrite Hs, bool_decide_false, andb_false_r in Hc by done.
  assert (Hother : forall id d0, stored fs id d0 -> stored (foldl write_file fs (take k (save_writes d))) id d0).
  { intros id d0 Hst. apply stored_write; [|done]. intros ->. destruct Hst as (_ & _ & Hf). congruence. }
  split_and!; [by rewrite Hc|intros c Hc'; destruct (H2 c Hc') as (d0 & ? & ?); eauto|].
  rewrite Hl. destruct (1 <? k)%nat eqn:Ek.
  - right. exists (cd_ID d), d. split_and!; [done| |done|done]. apply stored_own; [done|].
    apply Nat.ltb_lt in Ek. lia.
  - destruct H3 as [H3|(p & d0 & H3 & H4 & H5 & H6)]; [by left|]. right. exists p, d0. eauto.
Qed.

Lemma settled_dirs fs cs ds : settled fs cs -> settled (mkFS (files fs) ds) cs.
Proof. done. Qed.

Lemma has_dirs_files fs fs' d : dirs fs' = dirs fs -> has_dirs fs d -> has_dirs fs' d.
Proof. unfold has_dirs. by intros ->. Qed.


(** ** One finalization, with any faults *)

(** The finalization of a fresh checkpoint: the sink's Commit succeeds only
    when it took effect, and the failure hook is not used after the commit
    point. *)
Record fin_ok (fl : Faults) (id : bytes) (w : World) (c : Coordinator) : Prop := {
  fo_honest : f_commitErr fl = false -> f_commitTook fl = true;
  fo_hook1 : f_hook fl StepSinkCommitted <> HookFail;
  fo_hook2 : f_hook fl StepPersistCompleted <> HookFail;
  fo_hook3 : f_hook fl StepOffsetsCommitted <> HookFail;
  fo_new : id ∉ committed w;
  fo_fresh : files (w_fs w) !! checkpointFile id = None;
  fo_data : forall p, pending_ c !! id = Some p ->
    cd_ok (prepared_data fl (TxnID c) id p) /\ has_dirs (w_fs w) (prepared_data fl (TxnID c) id p);
}.

Lemma set_Status_ok st d : utf8_valid st -> cd_ok d -> cd_ok (set_Status st d).
Proof. intros Hst [? ? ? ? ? ? ?]. by split. Qed.

Lemma completed_valid : utf8_valid StatusCompleted.
Proof. by vm_compute. Qed.

(** Promotion of the latest stored checkpoint, cut anywhere. *)
Lemma update_torn fs cs k c d :
  last cs = Some c -> files fs !! latestFile = Some c -> stored fs c d -> has_dirs fs d ->
  (cd_Status d = StatusPrepared \/ cd_Status d = StatusCompleted) ->
  torn (UpdateStatus k c StatusCompleted fs).1 cs /\
  ((3 <= k)%nat -> (UpdateStatus k c StatusCompleted fs).2 = Ok tt /\
    settled (UpdateStatus k c StatusCompleted fs).1 cs).
Proof.
  intros Hc Hl Hst Hd Hs. unfold UpdateStatus. rewrite (stored_load _ _ _ Hst).
  rewrite saveLocked_eq by (done || exact Hd). cbn [fst snd].
  pose proof Hst as (Hok & Hid & _). set (d' := set_Status StatusCompleted d).
  assert (Hok' : cd_ok d') by (apply set_Status_ok; [apply completed_valid|done]).
  assert (Hid' : cd_ID d' = c) by done. destruct (pointers_after fs k d') as [Hpl Hpc].
  rewrite Hid' in Hpl, Hpc. rewrite bool_decide_true, andb_true_r in Hpc by done.
  assert (Hlat : files (foldl write_file fs (take k (save_writes d'))) !! latestFile = Some c)
    by (rewrite Hpl; by destruct (1 <? k)%nat).
  split.
  - exists c. destruct k as [|k].
    + exists d. done.
    + exists d'. split_and!; [done|done| | |by right].
      * rewrite <- Hid'. apply stored_own; [done|lia].
      * apply (has_dirs_files fs); [apply writes_dirs|exact Hd].
  - intros Hk. replace (length (save_writes d') <=? k)%nat with true
      by (symmetry; apply Nat.leb_le; unfold save_writes; rewrite bool_decide_true by done; cbn; lia).
    split; [done|]. replace (2 <? k)%nat with true in Hpc by (symmetry; apply Nat.ltb_lt; lia).
    split_and!; [by rewrite Hpc| |by left; rewrite Hlat].
    intros c' Hc'. assert (c' = c) as -> by congruence. exists d'. split; [|done].
    rewrite <- Hid'. apply stored_own; [done|lia].
Qed.

Lemma fire_hook_world fl s id w c : f_hook fl s <> HookFail -> (fire_hook fl s id w c).1.1 = w.
Proof. unfold fire_hook. by destruct (f_hook fl s). Qed.

Lemma promote_torn fl id p w c d :
  f_hook fl StepPersistCompleted <> HookFail -> f_hook fl StepOffsetsCommitted <> HookFail ->
  last (committed w) = Some id -> files (w_fs w) !! latestFile = Some id -> stored (w_fs w) id d ->
  has_dirs (w_fs w) d -> cd_Status d = StatusPrepared ->
  committed (promote fl id p w c).1 = committed w /\ torn (w_fs (promote fl id p w c).1) (committed w).
Proof.
  intros Hh2 Hh3 Hc Hl Hst Hd Hs. unfold promote.
  destruct (update_torn (w_fs w) (committed w) (f_update fl) id d Hc Hl Hst Hd (or_introl Hs)) as [Ht _].
  destruct (UpdateStatus _ _ _ _) as [fs r]. cbn [fst] in Ht. destruct r as [u|e]; [|done].
  set (w1 := mkW _ _ _ _ _ _). pose proof (fire_hook_world fl StepPersistCompleted id w1 c Hh2) as E1.
  destruct (fire_hook fl StepPersistCompleted id w1 c) as [[w2 c2] go]. cbn [fst] in E1. subst w2.
  destruct go; [|done]. set (w3 := match offsets p with Some _ => _ | None => _ end).
  pose proof (fire_hook_world fl StepOffsetsCommitted id w3 c2 Hh3) as E2.
  destruct (fire_hook fl StepOffsetsCommitted id w3 c2) as [[w4 c4] go2]. cbn [fst] in E2. subst w4.
  cbn [fst]. unfold w3. by destruct (offsets p).
Qed.

Lemma finalize_outcome fl id w c :
  settled (w_fs w) (committed w) -> fin_ok fl id w c ->
  let w' := (finalize fl id w c).1 in
  (committed w' = committed w /\ settled (w_fs w') (committed w')) \/
  (committed w' = committed w ++ [id] /\ torn (w_fs w') (committed w')).
Proof.
  intros Hset [Hhon Hh1 Hh2 Hh3 Hnew Hfresh Hdata]. unfold finalize.
  destruct (halted c); [left; split; [reflexivity|exact Hset]|].
  destruct (pending_ c !! id) as [p|] eqn:Ep; [|left; split; [reflexivity|exact Hset]].
  destruct (Hdata p eq_refl) as [Hok Hdirs]. destruct (sinkErr p); [left; split; [reflexivity|exact Hset]|]. cbv zeta. cbn [TxnID].
  set (d := prepared_data fl (TxnID c) id p) in *. unfold Save. rewrite saveLocked_eq by done.
  set (fs1 := foldl write_file (w_fs w) (take (f_save fl) (save_writes d))).
  assert (Hset1 : settled fs1 (committed w)) by (by apply prepared_settled).
  destruct (length (save_writes d) <=? f_save fl)%nat eqn:Ek; [|left; split; [reflexivity|exact Hset1]].
  assert (Hk : (1 <? f_save fl)%nat = true).
  { apply Nat.leb_le in Ek. apply Nat.ltb_lt. unfold save_writes in Ek. rewrite bool_decide_false in Ek by done. cbn in Ek. lia. }
  destruct (pointers_after (w_fs w) (f_save fl) d) as [Hl _]. fold fs1 in Hl. rewrite Hk in Hl.
  assert (Hst : stored fs1 id d) by (apply (stored_own (w_fs w) (f_save fl) d Hok); apply Nat.ltb_lt in Hk; lia).
  assert (Hdirs1 : has_dirs fs1 d) by (apply (has_dirs_files (w_fs w)); [apply writes_dirs|done]).
  set (c1 := mkCoord _ _ _ _). set (w1 := set_fs fs1 w). 
  destruct (fire_hook fl StepPersistPrepared id w1 c1) as [[w1' c1'] go1] eqn:Eh. unfold fire_hook in Eh.
  destruct (f_hook fl StepPersistPrepared); injection Eh as <- <- <-; [|left; split; [reflexivity|exact Hset1]..].
  unfold commit_phase. destruct (f_commitTook fl) eqn:Ect.
  - set (w2 := mkW _ _ _ _ _ _). right. destruct (f_commitErr fl).
    { split; [done|]. exists id, d. cbn. rewrite last_snoc. split_and!; try done. by left. }
    pose proof (fire_hook_world fl StepSinkCommitted id w2 c1 Hh1) as E.
    destruct (fire_hook fl StepSinkCommitted id w2 c1) as [[w3 c3] go]. cbn [fst] in E. subst w3.
    destruct go.
    + destruct (promote_torn fl id p w2 c3 d Hh2 Hh3) as [E1 E2]; try done; [apply last_snoc|].
      rewrite E1. split; [done|exact E2].
    + cbn [fst]. split; [done|]. exists id, d. cbn. rewrite last_snoc. split_and!; try done. by left.
  - destruct (f_commitErr fl); [|by specialize (Hhon eq_refl)].
    left. split; [reflexivity|exact Hset1].
Qed.

(** ** Recovery *)

Lemma completed_true d : cd_Status d = StatusCompleted -> Completed d = true.
Proof. intros E. unfold Completed. by rewrite bool_decide_true. Qed.
Lemma prepared_false d : cd_Status d = StatusPrepared -> Completed d = false.
Proof. intros E. unfold Completed. by rewrite E. Qed.

(** What recovery must return: the checkpoint of the last transaction whose
    output is visible. *)
Definition recovers (cs : list bytes) (r : result (option CheckpointData)) : Prop :=
  exists rd, r = Ok rd /\ cd_ID <$> rd = last cs /\ (forall d, rd = Some d -> Completed d = true).

Lemma recovers_some cs c d : last cs = Some c -> cd_ID d = c -> Completed d = true -> recovers cs (Ok (Some d)).
Proof. intros Hl Hid Hc. exists (Some d). split_and!; [done|by rewrite Hl; cbn; rewrite Hid|]. by intros ? [= <-]. Qed.
Lemma recovers_none cs : last cs = None -> recovers cs (Ok None).
Proof. intros Hl. exists None. by rewrite Hl. Qed.

Lemma recover_settled w k :
  settled (w_fs w) (committed w) ->
  let res := resolveCoordinatedRecovery (probe_of w) k w in
  recovers (committed w) res.2 /\ committed res.1 = committed w /\ settled (w_fs res.1) (committed w).
Proof.
  intros Hset. pose proof Hset as (H1 & H2 & H3). unfold resolveCoordinatedRecovery, Load, loadLatestLocked.
  destruct H3 as [H3|(p & d & H3 & Hst & Hs & Hni)]; rewrite H3.
  - destruct (last (committed w)) as [c|] eqn:El.
    + destruct (H2 c eq_refl) as (d & Hst & Hs). rewrite (stored_load _ _ _ Hst), (completed_true _ Hs).
      split_and!; [|done|done]. destruct Hst as (_ & Hid & _). apply (recovers_some _ c); [done|done|by apply completed_true].
    + split_and!; [by apply recovers_none|done|done].
  - rewrite (stored_load _ _ _ Hst), (prepared_false _ Hs). pose proof Hst as (_ & Hid & _). rewrite Hid.
    unfold probe_of at 1. cbn [committed]. unfold probe_of. rewrite (bool_decide_false (p ∈ committed w)) by done. cbn [fst snd committed w_fs].
    split_and!; [|done|done]. unfold LoadLatestCompleted. rewrite H1.
    destruct (last (committed w)) as [c|] eqn:El.
    + destruct (H2 c eq_refl) as (d' & Hst' & Hs'). rewrite (stored_load _ _ _ Hst').
      destruct Hst' as (_ & Hid' & _). apply (recovers_some _ c); [done|done|by apply completed_true].
    + unfold loadLatestLocked. rewrite H3, (stored_load _ _ _ Hst), (prepared_false _ Hs). by apply recovers_none.
Qed.

Lemma recover_torn w k :
  torn (w_fs w) (committed w) -> (3 <= k)%nat ->
  let res := resolveCoordinatedRecovery (probe_of w) k w in
  recovers (committed w) res.2 /\ committed res.1 = committed w /\
  (~ pointer_gap (w_fs w) (committed w) -> settled (w_fs res.1) (committed w)).
Proof.
  intros (c & d & Hc & Hl & Hst & Hd & Hs) Hk. unfold resolveCoordinatedRecovery, Load, loadLatestLocked.
  rewrite Hl, (stored_load _ _ _ Hst). pose proof Hst as (_ & Hid & _). destruct Hs as [Hs|Hs].
  - rewrite (prepared_false _ Hs), Hid. unfold probe_of at 1 2 3.
    rewrite (bool_decide_true (c ∈ committed w)) by (by apply last_Some_elem_of).
    destruct (update_torn (w_fs w) (committed w) k c d Hc Hl Hst Hd (or_introl Hs)) as [_ Hu].
    destruct (Hu Hk) as [Hr Hset]. destruct (UpdateStatus k c StatusCompleted (w_fs w)) as [fs r]. cbn [fst snd] in *.
    subst r. split_and!; [|done|done]. apply (recovers_some _ c); [done|exact Hid|by apply completed_true].
  - rewrite (completed_true _ Hs). split_and!; [|done|].
    + apply (recovers_some _ c); [done|done|by apply completed_true].
    + intros Hgap. assert (Hp : files (w_fs w) !! latestCompletedFile = Some c).
      { destruct (decide (files (w_fs w) !! latestCompletedFile = Some c)); [done|].
        destruct Hgap. by exists c, d. }
      cbn [fst]. split_and!; [by rewrite Hp| |by left; rewrite Hl].
      intros c' Hc'. assert (c' = c) as -> by congruence. eauto.
Qed.

(** ** Runs of several finalizations *)

(** A finalization that reports no fatal error and does not halt leaves a
    settled directory. *)
Lemma reportFatal_some e w : fatal (reportFatal e w) <> None.
Proof. unfold reportFatal. cbn. by destruct (fatal w). Qed.

Lemma hook_quiet fl s id w c :
  let r := fire_hook fl s id w c in
  r.2 = true /\ r.1.1 = w /\ r.1.2 = c \/ fatal r.1.1 <> None \/ halted r.1.2 = true.
Proof.
  unfold fire_hook. destruct (f_hook fl s); [by left| |by right; right].
  right; left. apply reportFatal_some.
Qed.

Lemma promote_quiet fl id p w c d :
  last (committed w) = Some id -> files (w_fs w) !! latestFile = Some id -> stored (w_fs w) id d ->
  has_dirs (w_fs w) d -> cd_Status d = StatusPrepared ->
  let r := promote fl id p w c in
  fatal r.1 = None -> halted r.2 = false ->
  f_hook fl StepPersistCompleted <> HookFail -> f_hook fl StepOffsetsCommitted <> HookFail ->
  settled (w_fs r.1) (committed r.1).
Proof.
  intros Hc Hl Hst Hd Hs. unfold promote.
  destruct (update_torn (w_fs w) (committed w) (f_update fl) id d Hc Hl Hst Hd (or_introl Hs)) as [_ Hu].
  assert (Hok : (UpdateStatus (f_update fl) id StatusCompleted (w_fs w)).2 = Ok tt -> (3 <= f_update fl)%nat).
  { unfold UpdateStatus. rewrite (stored_load _ _ _ Hst), saveLocked_eq by (done || exact Hd). cbn [snd].
    destruct (_ <=? _)%nat eqn:E; [intros _|done]. apply Nat.leb_le in E.
    unfold save_writes in E. rewrite bool_decide_true in E by done. cbn in E. lia. }
  destruct (UpdateStatus _ _ _ _) as [fs [[]|e]]; cbn [fst snd] in *.
  2: { intros Hf. by destruct (reportFatal_some ("persist completed: " +:+ e) (set_fs fs w)). }
  destruct (Hu (Hok eq_refl)) as [_ Hset]. intros Hf Hh H2 H3. clear Hf Hh.
  set (w1 := mkW _ _ _ _ _ _). pose proof (fire_hook_world fl StepPersistCompleted id w1 c H2) as E1.
  destruct (fire_hook fl StepPersistCompleted id w1 c) as [[w2 c2] go]. cbn [fst] in E1. subst w2.
  destruct go; [|exact Hset]. set (w3 := match offsets p with Some _ => _ | None => _ end).
  pose proof (fire_hook_world fl StepOffsetsCommitted id w3 c2 H3) as E2.
  destruct (fire_hook fl StepOffsetsCommitted id w3 c2) as [[w4 c4] go2]. cbn [fst] in E2. subst w4.
  cbn [fst]. unfold w3. by destruct (offsets p).
Qed.

Lemma finalize_quiet fl id w c :
  settled (w_fs w) (committed w) -> fin_ok fl id w c ->
  let r := finalize fl id w c in
  fatal r.1 = None -> halted r.2 = false -> settled (w_fs r.1) (committed r.1).
Proof.
  intros Hset [Hhon Hh1 Hh2 Hh3 Hnew Hfresh Hdata]. unfold finalize.
  destruct (halted c) eqn:Ehalt; [by intros; exact Hset|].
  destruct (pending_ c !! id) as [p|] eqn:Ep; [|by intros; exact Hset].
  destruct (Hdata p eq_refl) as [Hok Hdirs]. destruct (sinkErr p); [by intros; exact Hset|]. cbv zeta. cbn [TxnID].
  set (d := prepared_data fl (TxnID c) id p) in *. unfold Save. rewrite saveLocked_eq by done.
  set (fs1 := foldl write_file (w_fs w) (take (f_save fl) (save_writes d))).
  assert (Hset1 : settled fs1 (committed w)) by (by apply prepared_settled).
  destruct (length (save_writes d) <=? f_save fl)%nat eqn:Ek; [|by intros; exact Hset1].
  assert (Hk : (1 <? f_save fl)%nat = true).
  { apply Nat.leb_le in Ek. apply Nat.ltb_lt. unfold save_writes in Ek. rewrite bool_decide_false in Ek by done. cbn in Ek. lia. }
  destruct (pointers_after (w_fs w) (f_save fl) d) as [Hl _]. fold fs1 in Hl. rewrite Hk in Hl.
  assert (Hst : stored fs1 id d) by (apply (stored_own (w_fs w) (f_save fl) d Hok); apply Nat.ltb_lt in Hk; lia).
  assert (Hdirs1 : has_dirs fs1 d) by (apply (has_dirs_files (w_fs w)); [apply writes_dirs|done]).
  set (c1 := mkCoord _ _ _ _). set (w1 := set_fs fs1 w).
  destruct (fire_hook fl StepPersistPrepared id w1 c1) as [[w1' c1'] go1] eqn:Eh. unfold fire_hook in Eh.
  destruct (f_hook fl StepPersistPrepared); injection Eh as <- <- <-; [|by intros; exact Hset1..].
  unfold commit_phase. destruct (f_commitErr fl) eqn:Ece.
  { intros Hf. exfalso. revert Hf. apply reportFatal_some. }
  rewrite (Hhon eq_refl). set (w2 := mkW _ _ _ _ _ _).
  pose proof (fire_hook_world fl StepSinkCommitted id w2 c1 Hh1) as E.
  pose proof (hook_quiet fl StepSinkCommitted id w2 c1) as Hq. cbv zeta in Hq.
  destruct (fire_hook fl StepSinkCommitted id w2 c1) as [[w3 c3] go]. cbn [fst snd] in E, Hq. subst w3.
  destruct go.
  - intros Hf Hh. apply (promote_quiet fl id p w2 c3 d); try done. apply last_snoc.
  - cbn [fst snd]. intros Hf Hh. destruct Hq as [(? & _)|[?|?]]; [done|done|congruence].
Qed.

(** The finalizations of one process, in the order the coordinator makes
    them, each with the coordinator's state at that moment. *)
Definition Finalization : Type := Faults * bytes * Coordinator.

Fixpoint finalize_all (w : World) (fins : list Finalization) : World :=
  match fins with
  | [] => w
  | (fl, id, c) :: fins => finalize_all (finalize fl id w c).1 fins
  end.

(** Every finalization but the last ends without a fatal error and without
    halting; the last may fail in any way [fin_ok] allows. *)
Fixpoint process_ok (w : World) (fins : list Finalization) : Prop :=
  match fins with
  | [] => True
  | (fl, id, c) :: fins =>
      fin_ok fl id w c /\
      (fins <> [] -> fatal (finalize fl id w c).1 = None /\ halted (finalize fl id w c).2 = false) /\
      process_ok (finalize fl id w c).1 fins
  end.

Lemma finalize_all_outcome w fins :
  settled (w_fs w) (committed w) -> process_ok w fins ->
  settled (w_fs (finalize_all w fins)) (committed (finalize_all w fins)) \/
  torn (w_fs (finalize_all w fins)) (committed (finalize_all w fins)).
Proof.
  revert w. induction fins as [|[[fl id] c] fins IH]; intros w Hset; [by left|].
  cbn [process_ok finalize_all]. intros (Hf & Hq & Hr). destruct fins as [|f fins].
  - cbn. destruct (finalize_outcome fl id w c Hset Hf) as [[_ Hs]|[_ Ht]]; [by left|by right].
  - destruct (Hq ltac:(done)) as [Hfat Hhalt]. apply IH; [|done]. by apply finalize_quiet.
Qed.

(** C1: exactly-once recovery of one process.  Start from a settled directory
    (for instance an empty one) and finalize any number of fresh checkpoints,
    of which only the last may fail: a save cut after any file write, the
    sink's Commit failing with or without effect, a halt at any protocol step,
    a failed promotion (the test-only failure hook is not used after the
    commit point, and a Commit that returns nil took effect).  Recovery, whose
    own promotion gets through, succeeds and restores exactly the checkpoint
    of the last transaction whose output became visible, so nothing visible is
    replayed and nothing invisible is skipped.  [finalize_after_fatal_replays]
    shows that the restriction to the last finalization is needed. *)
Theorem recovery_is_exactly_once w fins k :
  settled (w_fs w) (committed w) -> process_ok w fins -> (3 <= k)%nat ->
  let w' := finalize_all w fins in
  recovers (committed w') (resolveCoordinatedRecovery (probe_of w') k w').2.
Proof.
  intros Hset Hp Hk. cbv zeta. destruct (finalize_all_outcome w fins Hset Hp) as [Hs|Ht].
  - by apply recover_settled.
  - by apply recover_torn.
Qed.

(** A history of processes: each finalizes its checkpoints, stops, and the
    next one recovers with a fresh fatal channel. *)
Definition restart (w : World) : World :=
  mkW (w_fs w) (committed w) (aborted w) None (notified w) (advisory w).
Definition run_once (k : nat) (w : World) (fins : list Finalization) : World * result (option CheckpointData) :=
  let w' := finalize_all w fins in
  let res := resolveCoordinatedRecovery (probe_of w') k w' in (restart res.1, res.2).

(** No process but the last stops between writing the promoted record and
    moving the completed pointer. *)
Fixpoint runs_ok (k : nat) (w : World) (runs : list (list Finalization)) : Prop :=
  match runs with
  | [] => True
  | fins :: runs =>
      process_ok w fins /\
      (runs <> [] -> ~ pointer_gap (w_fs (finalize_all w fins)) (committed (finalize_all w fins))) /\
      runs_ok k (run_once k w fins).1 runs
  end.

Fixpoint all_recover (k : nat) (w : World) (runs : list (list Finalization)) : Prop :=
  match runs with
  | [] => True
  | fins :: runs =>
      recovers (committed (finalize_all w fins)) (run_once k w fins).2 /\
      committed (run_once k w fins).1 = committed (finalize_all w fins) /\
      all_recover k (run_once k w fins).1 runs
  end.

(** C28: over any number of processes from an empty directory, each stopped
    by a failure of its last finalization and followed by a recovery that gets
    through, every recovery restores the checkpoint of the last visible
    transaction and commits nothing itself, provided no process that is
    followed by another stops between writing the promoted record and moving
    the completed pointer ([pointer_gap_replays] shows the replay otherwise). *)
Theorem recovery_over_runs k runs :
  (3 <= k)%nat -> let w0 := mkW emptyFS [] [] None [] [] in
  runs_ok k w0 runs -> all_recover k w0 runs.
Proof.
  intros Hk w0. assert (H0 : settled (w_fs w0) (committed w0)).
  { split_and!; [done|by intros ? [=]|by left]. }
  clearbody w0. revert w0 H0. induction runs as [|fins runs IH]; intros w Hset; [done|].
  cbn [runs_ok all_recover]. intros (Hf & Hgap & Hr). destruct runs as [|r runs].
  - cbn [run_once fst snd restart committed]. cbv zeta. cbn [fst snd committed].
    destruct (finalize_all_outcome w fins Hset Hf) as [Hs|Ht].
    + by destruct (recover_settled _ k Hs) as (R1 & R2 & _).
    + by destruct (recover_torn _ k Ht Hk) as (R1 & R2 & _).
  - assert (G : let res := run_once k w fins in
      recovers (committed (finalize_all w fins)) res.2 /\ committed res.1 = committed (finalize_all w fins) /\
      settled (w_fs res.1) (committed res.1)).
    { unfold run_once. cbv zeta. cbn [fst snd restart committed w_fs].
      destruct (finalize_all_outcome w fins Hset Hf) as [Hs|Ht].
      - destruct (recover_settled _ k Hs) as (R1 & R2 & R3). by rewrite R2.
      - destruct (recover_torn _ k Ht Hk) as (R1 & R2 & R3). rewrite R2. split_and!; [done|done|].
        by apply R3, Hgap. }
    destruct G as (G1 & G2 & G3). split_and!; [done|done|]. apply IH; [exact G3|exact Hr].
Qed.
End Coordinator.

(** ** Concrete runs *)

Definition startWorld : World := mkW emptyFS [] [] None [] [].
Definition readyCoord (id : string) : Coordinator :=
  OnSinkPrepared (b id) None (OnStateSnapshot (b id) ∅ ∅
    (OnBarrierInjected (b id) (Some (b "{}")) (NewCoordinator (b "txn")))).
(** Faults: all well; promotion cut after its second write; commit refused. *)
Definition allWell : Faults := mkFaults 3 false true 3 (λ _, HookContinue) 0.
Definition cutPromotion : Faults := mkFaults 3 false true 2 (λ _, HookContinue) 0.
Definition commitRefused : Faults := mkFaults 3 true false 3 (λ _, HookContinue) 0.

(** The completed pointer is not repaired.  When a run stops after the
    promoted record and the latest pointer are written but before the
    completed pointer is, the next recovery still finds the checkpoint; but if
    that run in turn stops between preparing and committing its first
    checkpoint, recovery falls back past the committed transaction: here it
    restarts from nothing although cp-1's output is visible. *)
Theorem pointer_gap_replays :
  let w1 := (run_once 3 startWorld [(cutPromotion, b "cp-1", readyCoord "cp-1")]) in
  let w2 := (run_once 3 w1.1 [(commitRefused, b "cp-2", readyCoord "cp-2")]) in
  recovers (committed w1.1) w1.2 /\
  committed w2.1 = [b "cp-1"] /\ w2.2 = Ok None.
Proof.
  split; [|vm_compute; done]. eexists. split; [vm_compute; reflexivity|]. split; [vm_compute; reflexivity|].
  intros d [= <-]. vm_compute. reflexivity.
Qed.

(** Finalize two queued checkpoints one after the other, then recover. *)
Definition finalize_two (fl1 fl2 : Faults) (id1 id2 : bytes) (w : World) (c : Coordinator) : World :=
  let '(w, c) := finalize fl1 id1 w c in (finalize fl2 id2 w c).1.
Definition twoPending : Coordinator :=
  OnSinkPrepared (b "cp-2") None (OnBarrierInjected (b "cp-2") (Some (b "{}")) (readyCoord "cp-1")).
Definition promotionFails : Faults := mkFaults 3 false true 0 (λ _, HookContinue) 0.

(** A fatal error does not stop the coordinator.  If promoting cp-1 fails
    after its transaction committed, the queued cp-2 is still finalized; its
    prepared record replaces cp-1 as the latest, and when its commit is then
    refused, recovery restarts from nothing although cp-1's output is
    visible. *)
Theorem finalize_after_fatal_replays :
  let w := finalize_two promotionFails commitRefused (b "cp-1") (b "cp-2") startWorld twoPending in
  fatal w <> None /\ committed w = [b "cp-1"] /\
  (resolveCoordinatedRecovery (probe_of w) 3 w).2 = Ok None.
Proof. vm_compute. done. Qed.

(** ** Witnesses *)

Lemma start_settled : settled (w_fs startWorld) (committed startWorld).
Proof. split_and!; [done|by intros ? [=]|by left]. Qed.

(** The conditions of [fin_ok] that depend on the id alone are decided. *)
Lemma ready_fin_ok fl id w :
  (f_commitErr fl = false -> f_commitTook fl = true) -> (forall s, f_hook fl s = HookContinue) ->
  f_now fl = 0 -> utf8_valid (b id) -> b id ∉ committed w -> files (w_fs w) !! checkpointFile (b id) = None ->
  fin_ok fl (b id) w (readyCoord id).
Proof.
  intros H Hh Hn Hid Hnew Hfresh. split; try (rewrite Hh; done); [done|done|done|].
  intros p Hp. assert (E : p = mkPending (Some (b "{}")) ∅ ∅ true None).
  { unfold readyCoord, OnSinkPrepared, OnStateSnapshot, OnBarrierInjected, set_pending, ensure in Hp.
    cbn [halted NewCoordinator pending_ TxnID events] in Hp. simplify_map_eq. reflexivity. }
  subst p. split.
  - unfold prepared_data. rewrite Hn. split; cbn [cd_ID cd_Timestamp cd_Operators cd_Source cd_Status cd_TxnID cd_StateDirs pstate pstateDirs offsets].
    + exact Hid.
    + unfold int64. lia.
    + intros k [? Hk]. by rewrite lookup_empty in Hk.
    + intros k [? Hk]. apply lookup_singleton_Some in Hk as [<- _]. vm_compute. reflexivity.
    + vm_compute. reflexivity.
    + vm_compute. reflexivity.
    + intros k v Hk. by rewrite lookup_empty in Hk.
  - intros k v Hk. cbn [prepared_data cd_StateDirs pstateDirs] in Hk. by rewrite lookup_empty in Hk.
Qed.

(** A process that completes cp-1, then commits cp-2 without promoting it. *)
Definition process1 : list Finalization :=
  [(allWell, b "cp-1", readyCoord "cp-1"); (promotionFails, b "cp-2", readyCoord "cp-2")].
(** One whose only commit is refused, and one that stops after cutting the
    prepared record short. *)
Definition process2 : list Finalization := [(commitRefused, b "cp-3", readyCoord "cp-3")].
Definition cutPrepare : Faults := mkFaults 1 false true 3 (λ _, HookContinue) 0.
Definition process3 : list Finalization :=
  [(allWell, b "cp-4", readyCoord "cp-4"); (cutPrepare, b "cp-5", readyCoord "cp-5")].

Ltac ready :=
  apply ready_fin_ok;
  [done|done|done|by vm_compute|match goal with |- ?P => apply (@bool_decide_unpack P _); vm_compute; exact I end|vm_compute; reflexivity].

Lemma recovery_is_exactly_once_witness :
  let w' := finalize_all startWorld process1 in
  committed w' = [b "cp-1"; b "cp-2"] /\ fatal w' <> None /\
  recovers (committed w') (resolveCoordinatedRecovery (probe_of w') 3 w').2.
Proof.
  split; [vm_compute; reflexivity|]. split; [by vm_compute|].
  apply (recovery_is_exactly_once startWorld process1 3); [exact start_settled| |lia].
  split; [ready|]. split; [by vm_compute|]. split; [ready|]. by split.
Defined.

(** No gap when the completed pointer is the last commit, or its record is
    still the prepared one. *)
Lemma no_gap fs cs :
  (exists c, last cs = Some c /\ (files fs !! latestCompletedFile = Some c \/
     exists d, loadSpecificLocked c fs = Ok (Some d) /\ bool_decide (cd_Status d = StatusCompleted) = false)) ->
  ~ pointer_gap fs cs.
Proof.
  intros (c & Hc & H) (c' & d' & Hc' & Hst & Hs & Hp). assert (c' = c) as -> by congruence.
  destruct H as [H|(d & Hl & Hd)]; [done|]. rewrite (stored_load _ _ _ Hst) in Hl. injection Hl as ->.
  by rewrite bool_decide_true in Hd.
Qed.

Lemma recovery_over_runs_witness :
  all_recover 3 startWorld [process1; process2; process3] /\
  committed (run_once 3 (run_once 3 (run_once 3 startWorld process1).1 process2).1 process3).1
    = [b "cp-1"; b "cp-2"; b "cp-4"].
Proof.
  split; [|vm_compute; reflexivity].
  apply (recovery_over_runs 3 [process1; process2; process3]); [lia|].
  split; [split; [ready|]; split; [by vm_compute|]; split; [ready|]; by split|].
  split. { intros _. apply no_gap. exists (b "cp-2"). split; [vm_compute; reflexivity|]. right.
           eexists. split; [vm_compute; reflexivity|]. by vm_compute. }
  split; [split; [ready|]; by split|].
  split. { intros _. apply no_gap. exists (b "cp-2"). split; [vm_compute; reflexivity|]. left. by vm_compute. }
  split; [split; [ready|]; split; [by vm_compute|]; split; [ready|]; by split|]. by split.
Defined.
