(* ===== verification/CoordinatorRun.v ===== *)
(** * Package checkpoint: the coordinator's goroutines

    [Start], [Stop] and the calls of a running pipeline, as steps of their
    goroutines.  [Coordinator.v] gives each call its effect; here the calls
    interleave: a sink's [OnSinkPrepared] leaves its critical section and then
    sends on a channel of sixteen ids, the finalize worker takes ids from it,
    and any number of callers may be inside [Stop].  A send on a closed channel,
    a second close and a wait group below zero panic in Go; here they set a
    flag. *)
From S2P Require Import Prelude GoTime Json Storage Coordinator.

(** The worker goroutine.  While it finalizes, it holds the effects of the
    finalization it began: the world it leaves and whether the hook halts. *)
Inductive worker_pc : Type :=
| WNone | WIdle
| WBusy (id : bytes) (began : Faults * Coordinator) (after : World) (halts : bool)
| WDone.

(** The body of [stopOnce.Do]. *)
Inductive once_pc : Type := OFresh | OEntered | OHalted | OClosed.

(** [lv_log] lists the ids the worker is through with, with the faults and the
    coordinator of those it finalized and [None] for those it skipped;
    [events] of the coordinator lists the accepted ids. *)
Record Live : Type := mkLive {
  lv_c : Coordinator; lv_w : World;
  lv_senders : list bytes; lv_sendWg : Z; lv_chan : list bytes; lv_closed : bool;
  lv_worker : worker_pc; lv_once : once_pc; lv_waiting : nat; lv_returned : nat;
  lv_log : list (bytes * option (Faults * Coordinator)); lv_panic : bool;
}.

(** Capacity of [events]. *)
Definition eventsCap : nat := 16.

Definition new_live (txn : bytes) (w : World) : Live :=
  mkLive (NewCoordinator txn) w [] 0 [] false WNone OFresh 0 0 [] false.
Definition coord_Start (s : Live) : Live :=
  mkLive (lv_c s) (lv_w s) (lv_senders s) (lv_sendWg s) (lv_chan s) (lv_closed s) WIdle (lv_once s) (lv_waiting s) (lv_returned s) (lv_log s) (lv_panic s).

Definition set_c (c : Coordinator) (s : Live) : Live :=
  mkLive c (lv_w s) (lv_senders s) (lv_sendWg s) (lv_chan s) (lv_closed s) (lv_worker s) (lv_once s) (lv_waiting s) (lv_returned s) (lv_log s) (lv_panic s).
Definition halt (h : bool) (c : Coordinator) : Coordinator := mkCoord (TxnID c) (pending_ c) (halted c || h) (events c).

(** The critical section of [OnSinkPrepared]; the send is still to come. *)
Definition prepared_call (id : bytes) (err : option string) (s : Live) : Live :=
  let s' := set_c (OnSinkPrepared id err (lv_c s)) s in
  if halted (lv_c s) then s'
  else mkLive (lv_c s') (lv_w s) (lv_senders s ++ [id]) (lv_sendWg s + 1) (lv_chan s) (lv_closed s) (lv_worker s) (lv_once s) (lv_waiting s) (lv_returned s)
         (lv_log s) (lv_panic s).

(** The send of sender [i], and [sendWg.Done]. *)
Definition send_event (i : nat) (id : bytes) (s : Live) : Live :=
  mkLive (lv_c s) (lv_w s) (delete i (lv_senders s)) (lv_sendWg s - 1) (if lv_closed s then lv_chan s else lv_chan s ++ [id]) (lv_closed s) (lv_worker s)
    (lv_once s) (lv_waiting s) (lv_returned s) (lv_log s) (lv_panic s || lv_closed s || (lv_sendWg s - 1 <? 0)).

(** Entering [Stop]; the steps of [stopOnce.Do]; returning once the worker is
    gone. *)
Definition stop_call (s : Live) : Live :=
  mkLive (lv_c s) (lv_w s) (lv_senders s) (lv_sendWg s) (lv_chan s) (lv_closed s) (lv_worker s)
    (match lv_once s with OFresh => OEntered | o => o end) (S (lv_waiting s)) (lv_returned s) (lv_log s) (lv_panic s).
Definition stop_halt (s : Live) : Live :=
  mkLive (halt true (lv_c s)) (lv_w s) (lv_senders s) (lv_sendWg s) (lv_chan s) (lv_closed s) (lv_worker s) OHalted (lv_waiting s) (lv_returned s) (lv_log s) (lv_panic s).
Definition stop_close (s : Live) : Live :=
  mkLive (lv_c s) (lv_w s) (lv_senders s) (lv_sendWg s) (lv_chan s) true (lv_worker s) OClosed (lv_waiting s) (lv_returned s) (lv_log s) (lv_panic s || lv_closed s).
Definition stop_return (n : nat) (s : Live) : Live :=
  mkLive (lv_c s) (lv_w s) (lv_senders s) (lv_sendWg s) (lv_chan s) (lv_closed s) (lv_worker s) (lv_once s) n (S (lv_returned s)) (lv_log s) (lv_panic s).

Section Lifecycle.
Context `{JT : JSONText}.

(** The worker takes an id.  [finalize] reads [halted] and removes the pending
    entry under the lock; the rest of it runs while others go on. *)
Definition begin_finalize (fl : Faults) (id : bytes) (rest : list bytes) (s : Live) : Live :=
  let c := lv_c s in
  if halted c then
    mkLive c (lv_w s) (lv_senders s) (lv_sendWg s) rest (lv_closed s) WIdle (lv_once s) (lv_waiting s) (lv_returned s) (lv_log s ++ [(id, None)]) (lv_panic s)
  else
    let '(w', c') := finalize fl id (lv_w s) c in
    mkLive (mkCoord (TxnID c) (delete id (pending_ c)) false (events c)) (lv_w s) (lv_senders s) (lv_sendWg s) rest (lv_closed s)
      (WBusy id (fl, c) w' (halted c')) (lv_once s) (lv_waiting s) (lv_returned s) (lv_log s) (lv_panic s).
Definition end_finalize (id : bytes) (began : Faults * Coordinator) (after : World) (halts : bool) (s : Live) : Live :=
  mkLive (halt halts (lv_c s)) after (lv_senders s) (lv_sendWg s) (lv_chan s) (lv_closed s) WIdle (lv_once s) (lv_waiting s) (lv_returned s)
    (lv_log s ++ [(id, Some began)]) (lv_panic s).
Definition worker_exit (s : Live) : Live :=
  mkLive (lv_c s) (lv_w s) (lv_senders s) (lv_sendWg s) (lv_chan s) (lv_closed s) WDone (lv_once s) (lv_waiting s) (lv_returned s) (lv_log s) (lv_panic s).

(** The worker's wait group is at zero. *)
Definition wg_zero (s : Live) : bool := match lv_worker s with WNone | WDone => true | WIdle | WBusy _ _ _ _ => false end.

(** What the engine, its sink and whoever stops it may call. *)
Inductive call : Live -> Live -> Prop :=
| Call_injected id offs s : call s (set_c (OnBarrierInjected id offs (lv_c s)) s)
| Call_snapshot id st sd s : call s (set_c (OnStateSnapshot id st sd (lv_c s)) s)
| Call_prepared id err s : call s (prepared_call id err s)
| Call_stop s : call s (stop_call s).

(** What the goroutines inside the coordinator do. *)
Inductive act : Live -> Live -> Prop :=
| Act_send i id s : lv_senders s !! i = Some id -> (lv_closed s = false -> (length (lv_chan s) < eventsCap)%nat) -> act s (send_event i id s)
| Act_take fl id rest s : lv_worker s = WIdle -> lv_chan s = id :: rest -> act s (begin_finalize fl id rest s)
| Act_end id began after halts s : lv_worker s = WBusy id began after halts -> act s (end_finalize id began after halts s)
| Act_exit s : lv_worker s = WIdle -> lv_chan s = [] -> lv_closed s = true -> act s (worker_exit s)
| Act_halt s : lv_once s = OEntered -> act s (stop_halt s)
| Act_close s : lv_once s = OHalted -> lv_sendWg s = 0 -> act s (stop_close s)
| Act_return n s : lv_once s = OClosed -> wg_zero s = true -> lv_waiting s = S n -> act s (stop_return n s).

Definition live_step (s s' : Live) : Prop := call s s' \/ act s s'.

(** Between its two critical sections a finalization leaves the coordinator
    alone: its effect on it is the removed entry and the hook's halt. *)
Definition leaves (c c' : Coordinator) : Prop := c' = halt (halted c') c.
Lemma leaves_refl c : leaves c c.
Proof. by destruct c as [? ? [] ?]. Qed.
Lemma leaves_trans c c1 c2 : leaves c c1 -> leaves c1 c2 -> leaves c c2.
Proof.
  unfold leaves, halt. destruct c as [t0 p0 h0 e0], c1 as [t1 p1 h1 e1], c2 as [t2 p2 h2 e2]. cbn.
  intros [= -> -> E1 ->] [= -> -> E2 ->]. f_equal. by destruct h0, h1, h2.
Qed.
Lemma fire_hook_leaves fl st id w c : leaves c (fire_hook fl st id w c).1.2.
Proof. unfold fire_hook. destruct (f_hook fl st); try apply leaves_refl. by destruct c as [? ? [] ?]. Qed.
Lemma promote_leaves fl id p w c : leaves c (promote fl id p w c).2.
Proof.
  unfold promote. destruct UpdateStatus as [fs [[]|e]]; [|apply leaves_refl]. destruct fire_hook as [[w1 c1] go] eqn:E1.
  assert (H1 : leaves c c1) by (change c1 with (w1, c1, go).1.2; rewrite <-E1; apply fire_hook_leaves). destruct go; [|done].
  destruct (fire_hook _ _ _ (match offsets p with Some _ => _ | None => _ end) c1) as [[w2 c2] ?] eqn:E2.
  eapply leaves_trans; [done|]. change (leaves c1 (w2, c2, b).1.2). rewrite <-E2. apply fire_hook_leaves.
Qed.
Lemma commit_phase_leaves fl id p w c : leaves c (commit_phase fl id p w c).2.
Proof.
  unfold commit_phase. destruct (f_commitErr fl); [apply leaves_refl|]. destruct fire_hook as [[w1 c1] go] eqn:E1.
  assert (H1 : leaves c c1) by (change c1 with (w1, c1, go).1.2; rewrite <-E1; apply fire_hook_leaves).
  destruct go; [|done]. eapply leaves_trans; [done|apply promote_leaves].
Qed.
Lemma finalize_leaves fl id w c : halted c = false -> leaves (mkCoord (TxnID c) (delete id (pending_ c)) false (events c)) (finalize fl id w c).2.
Proof.
  intros Hh. unfold finalize. rewrite Hh. destruct (pending_ c !! id) as [p|] eqn:Ep.
  2:{ rewrite (delete_id _ _ Ep), <-Hh. destruct c. apply leaves_refl. }
  destruct (sinkErr p); [apply leaves_refl|]. destruct Save as [fs [[]|e]]; [|apply leaves_refl]. destruct fire_hook as [[w1 c1] go] eqn:E1.
  match type of E1 with fire_hook _ _ _ _ ?c0 = _ => assert (H1 : leaves c0 c1) by (change c1 with (w1, c1, go).1.2; rewrite <-E1; apply fire_hook_leaves) end.
  destruct go; [|done]. eapply leaves_trans; [done|apply commit_phase_leaves].
Qed.

(** ** The invariant *)

Definition busy (s : Live) : list bytes := match lv_worker s with WBusy id _ _ _ => [id] | _ => [] end.
Definition ran (e : bytes * (Faults * Coordinator)) : bytes * option (Faults * Coordinator) := (e.1, Some e.2).
Definition skipped (id : bytes) : bytes * option (Faults * Coordinator) := (id, None).

(** The finalizations of a log, one after the other. *)
Definition replay (w : World) (l : list (bytes * option (Faults * Coordinator))) : World :=
  foldl (λ w e, match e.2 with Some (fl, c) => (finalize fl e.1 w c).1 | None => w end) w l.

Record live_ok (w0 : World) (s : Live) : Prop := {
  lo_panic : lv_panic s = false;
  lo_wg : lv_sendWg s = Z.of_nat (length (lv_senders s));
  lo_closed : lv_closed s = true <-> lv_once s = OClosed;
  lo_halted : lv_once s = OHalted \/ lv_once s = OClosed -> halted (lv_c s) = true;
  lo_senders : lv_closed s = true -> lv_senders s = [];
  lo_worker : lv_worker s <> WNone;
  lo_done : lv_worker s = WDone -> lv_closed s = true /\ lv_chan s = [];
  lo_fresh : lv_once s = OFresh -> lv_waiting s = 0%nat;
  lo_returned : (0 < lv_returned s)%nat -> lv_worker s = WDone;
  lo_account : events (lv_c s) ≡ₚ (lv_log s).*1 ++ busy s ++ lv_chan s ++ lv_senders s;
  lo_world : lv_w s = replay w0 (lv_log s);
  lo_busy : forall id fl c w' h, lv_worker s = WBusy id (fl, c) w' h -> halted c = false /\ w' = (finalize fl id (lv_w s) c).1;
  lo_order : exists rs ks, lv_log s = (ran <$> rs) ++ (skipped <$> ks) /\ Forall (λ e, halted e.2.2 = false) rs /\
    (ks = [] \/ halted (lv_c s) = true /\ busy s = []);
}.

Lemma start_ok txn w : live_ok w (coord_Start (new_live txn w)).
Proof. split; try done; [by intros [?|?]|cbn; lia|]. exists [], []. by split_and!; [|constructor|left]. Qed.

(** Calls that touch only the pending entries. *)
Lemma set_c_ok w0 s c : halted c = halted (lv_c s) -> events c = events (lv_c s) -> live_ok w0 s -> live_ok w0 (set_c c s).
Proof. intros Hh He []. split; cbn; rewrite ?Hh, ?He; done. Qed.

Lemma prepared_ok w0 s id err : live_ok w0 s -> live_ok w0 (prepared_call id err s).
Proof.
  intros H. unfold prepared_call, OnSinkPrepared, set_pending. cbn [halted]. destruct (halted (lv_c s)) eqn:Eh.
  { by apply set_c_ok. }
  destruct H. assert (Hc : lv_closed s = false).
  { destruct (lv_closed s); [|done]. specialize (lo_halted0 (or_intror (proj1 lo_closed0 eq_refl))). congruence. }
  split; cbn; rewrite ?Eh; try done.
  - rewrite length_app. cbn. lia.
  - intros Ho. specialize (lo_halted0 Ho). congruence.
  - intros ?. congruence.
  - change (events (lv_c s) ++ [id] ≡ₚ (lv_log s).*1 ++ busy s ++ lv_chan s ++ lv_senders s ++ [id]).
    rewrite lo_account0. by rewrite <-!(assoc_L (++)).
  - by rewrite Eh in lo_order0.
Qed.
Lemma call_ok w0 s s' : live_ok w0 s -> call s s' -> live_ok w0 s'.
Proof.
  intros H Hc. destruct Hc; [by apply set_c_ok..|by apply prepared_ok|]. destruct H. split; cbn; try done.
  - rewrite lo_closed0. by destruct (lv_once s).
  - intros [E|E]; apply lo_halted0; destruct (lv_once s); auto; done.
  - by destruct (lv_once s).
Qed.

Lemma sender_gone (l : list bytes) i id : l !! i = Some id -> (length (delete i l) + 1 = length l)%nat.
Proof. intros Hi. rewrite (delete_Permutation l i id Hi) at 2. cbn. lia. Qed.
Lemma send_event_ok w0 s i id : lv_senders s !! i = Some id -> live_ok w0 s -> live_ok w0 (send_event i id s).
Proof.
  intros Hi []. assert (Hc : lv_closed s = false) by (destruct (lv_closed s); [by rewrite lo_senders0 in Hi|done]).
  pose proof (sender_gone _ _ _ Hi) as Hn.
  rewrite Hc in *. split; cbn; rewrite ?Hc; try done; [|lia| |].
  - rewrite lo_panic0. cbn. apply Z.ltb_ge. lia.
  - intros ?. destruct (lo_done0 ltac:(done)). congruence.
  - rewrite lo_account0, (delete_Permutation (lv_senders s) i id Hi) at 1. by rewrite <-!(assoc_L (++)).
Qed.

Lemma begin_ok w0 s fl id rest : lv_worker s = WIdle -> lv_chan s = id :: rest -> live_ok w0 s -> live_ok w0 (begin_finalize fl id rest s).
Proof.
  intros Hw Hq []. unfold begin_finalize. unfold busy in *. rewrite Hw in *. cbn in *. destruct lo_order0 as (rs & ks & El & Hr & Hk).
  destruct (halted (lv_c s)) eqn:Eh.
  - split; cbn; rewrite ?Eh; try done.
    + rewrite lo_account0, Hq, fmap_app. cbn. by rewrite <-!(assoc_L (++)).
    + unfold replay. by rewrite foldl_app.
    + exists rs, (ks ++ [id]). split_and!; [|done|by right]. by rewrite El, fmap_app, (assoc_L (++)).
  - assert (ks = []) as -> by (destruct Hk as [|[? _]]; done). destruct (finalize fl id (lv_w s) (lv_c s)) as [w' c'] eqn:Ef.
    split; cbn; try done.
    + intros Hn. by specialize (lo_returned0 Hn).
    + rewrite lo_account0, Hq. done.
    + intros ? ? ? ? ? [= <- <- <- <- <-]. by rewrite Ef.
    + exists rs, []. split_and!; [done|done|by left].
Qed.
Lemma end_ok w0 s id began after halts : lv_worker s = WBusy id began after halts -> live_ok w0 s -> live_ok w0 (end_finalize id began after halts s).
Proof.
  intros Hw []. unfold busy in *. rewrite Hw in *. destruct began as [fl c]. destruct (lo_busy0 _ _ _ _ _ eq_refl) as [Hc Ha].
  destruct lo_order0 as (rs & ks & El & Hr & Hk). assert (ks = []) as -> by (destruct Hk as [|[_ ?]]; done).
  split; cbn; try done.
  - intros Ho. by rewrite (lo_halted0 Ho).
  - intros Hn. by specialize (lo_returned0 Hn).
  - rewrite lo_account0, fmap_app. cbn. by rewrite <-!(assoc_L (++)).
  - unfold replay. rewrite foldl_app. cbn. fold (replay w0 (lv_log s)). by rewrite Ha, lo_world0.
  - exists (rs ++ [(id, (fl, c))]), []. split_and!; [|apply Forall_app_2; [done|by repeat constructor]|by left].
    by rewrite El, !app_nil_r, fmap_app.
Qed.
Lemma act_ok w0 s s' : live_ok w0 s -> act s s' -> live_ok w0 s'.
Proof.
  intros H Ha. destruct Ha as [i id s Hi _|fl id rest s Hw Hq|id began after halts s Hw|s Hw Hq Hcl|s Ho|s Ho Hz|n s Ho Hz Hn];
    [by apply send_event_ok|by apply begin_ok|by apply end_ok|..]; destruct H; unfold busy in *; cbn.
  - rewrite Hw in *. by split; cbn.
  - split; cbn; try done; [by rewrite lo_closed0, Ho|by rewrite orb_true_r|].
    destruct lo_order0 as (rs & ks & ? & ? & Hk). exists rs, ks. rewrite orb_true_r. split_and!; [done..|]. destruct Hk as [|[_ ?]]; auto.
  - rewrite Ho in *. assert (Hc : lv_closed s = false) by (destruct (lv_closed s); [by destruct lo_closed0 as [H _]; specialize (H eq_refl)|done]).
    assert (Hs : lv_senders s = []) by (apply length_zero_iff_nil; lia).
    split; cbn; rewrite ?Hc, ?orb_false_r, ?Hs in *; try done.
    + intros _. apply lo_halted0. by left.
    + intros Hd. by destruct (lo_done0 Hd).
  - assert (Hd : lv_worker s = WDone) by (unfold wg_zero in Hz; by destruct (lv_worker s)). rewrite Ho in *. split; cbn; rewrite ?Ho; done.
Qed.

Lemma reach_ok txn w0 s : rtc live_step (coord_Start (new_live txn w0)) s -> live_ok w0 s.
Proof.
  intros Hr. pose proof (start_ok txn w0) as H0. revert H0. induction Hr as [|s0 s1 s2 Hs _ IH]; [done|]. intros H. apply IH.
  destruct Hs; [by eapply call_ok|by eapply act_ok].
Qed.

(** ** Progress and termination *)

Definition quiet (s : Live) : Prop := lv_senders s = [] /\ lv_waiting s = 0%nat.
Definition some_faults : Faults := mkFaults 0 false false 0 (λ _, HookContinue) 0.
Lemma worker_moves w0 s : live_ok w0 s -> lv_chan s <> [] -> exists s', act s s'.
Proof.
  intros [] Hq. destruct (lv_worker s) as [| |id [fl c] w' h|] eqn:Hw; [done| | |].
  - destruct (lv_chan s) as [|id rest] eqn:E; [done|]. eexists. by apply (Act_take some_faults id rest).
  - eexists. by eapply Act_end.
  - by destruct (lo_done0 eq_refl).
Qed.
Lemma live_progress w0 s : live_ok w0 s -> quiet s \/ exists s', act s s'.
Proof.
  intros Hok. destruct (decide (lv_chan s = [])) as [Hq|Hq]; [|right; by eapply worker_moves]. pose proof Hok as [].
  destruct (lv_senders s) as [|id sd] eqn:Es.
  2:{ right. eexists. apply (Act_send 0 id); [by rewrite Es|]. intros _. rewrite Hq. cbn. unfold eventsCap. lia. }
  destruct (lv_waiting s) as [|n] eqn:En; [by left|right]. destruct (lv_once s) eqn:Eo.
  - by specialize (lo_fresh0 eq_refl).
  - eexists. by apply Act_halt.
  - eexists. by apply Act_close.
  - destruct lo_closed0 as [_ Hcl]. specialize (Hcl eq_refl). destruct (lv_worker s) as [| |id [fl c] w' h|] eqn:Hw; [done|..]; eexists.
    + by apply Act_exit.
    + by eapply Act_end.
    + eapply Act_return; [done|by unfold wg_zero; rewrite Hw|done].
Qed.

(** Work left inside the coordinator. *)
Definition work (s : Live) : nat :=
  3 * length (lv_senders s) + 2 * length (lv_chan s) +
  match lv_worker s with WNone | WDone => 0 | WIdle => 1 | WBusy _ _ _ _ => 2 end +
  match lv_once s with OFresh => 3 | OEntered => 2 | OHalted => 1 | OClosed => 0 end + lv_waiting s.
Lemma act_decreases s s' : act s s' -> (work s' < work s)%nat.
Proof.
  intros Ha. unfold work. destruct Ha as [i id s Hi _|fl id rest s Hw Hq|id began after halts s Hw|s Hw Hq Hcl|s Ho|s Ho Hz|n s Ho Hz Hn]; cbn.
  - pose proof (sender_gone _ _ _ Hi). destruct (lv_closed s); rewrite ?length_app; cbn; lia.
  - unfold begin_finalize. rewrite Hw, Hq. destruct (halted (lv_c s)); [cbn; lia|]. destruct finalize. cbn. lia.
  - rewrite Hw. lia.
  - rewrite Hw. lia.
  - rewrite Ho. lia.
  - rewrite Ho. lia.
  - rewrite Hn. lia.
Qed.
Lemma acts_end s : Acc (flip act) s.
Proof.
  remember (work s) as n eqn:E. revert s E. induction (lt_wf n) as [n _ IH]. intros s ->. constructor. intros s' Hs.
  eapply IH; [by apply act_decreases|done].
Qed.

(** ** After [Stop] *)

Lemma frozen w0 s s' : live_ok w0 s -> (0 < lv_returned s)%nat -> live_step s s' -> lv_w s' = lv_w s /\ lv_log s' = lv_log s /\ (0 < lv_returned s')%nat.
Proof.
  intros Hok Hr. pose proof Hok as []. specialize (lo_returned0 Hr). intros [Hs|Hs].
  - destruct Hs; try done. unfold prepared_call. by destruct (halted (lv_c s)).
  - destruct Hs; try done; try congruence. split_and!; cbn; [done..|lia].
Qed.
Lemma frozen_steps w0 s s' : live_ok w0 s -> (0 < lv_returned s)%nat -> rtc live_step s s' -> lv_w s' = lv_w s /\ lv_log s' = lv_log s.
Proof.
  intros Hok Hr Hs. induction Hs as [|s0 s1 s2 H1 _ IH]; [done|]. destruct (frozen w0 s0 s1 Hok Hr H1) as (Ew & El & Hr1).
  destruct IH as [-> ->]; [by destruct H1; [eapply call_ok|eapply act_ok]|done|]. by split.
Qed.
End Lifecycle.

(** C29: the coordinator shuts down cleanly.  Whatever the order of the engine's
    calls, the sinks' sends, the worker and any number of callers of [Stop]:
    nothing is sent on the closed channel, it is closed once and no wait group
    goes negative; the goroutines inside the coordinator always have a step to
    take until no send and no [Stop] is pending, and take finitely many; storage
    and sink have seen the finalizations one after the other, none after the
    coordinator was halted; and when [Stop] returns, every accepted checkpoint
    was finalized or skipped, once, and nothing is finalized any more. *)
Theorem coordinator_stops_cleanly `{JT : JSONText} (txn : bytes) (w0 : World) (s : Live) : rtc live_step (coord_Start (new_live txn w0)) s ->
  lv_panic s = false /\
  Acc (flip act) s /\ (quiet s \/ exists s', act s s') /\
  (exists rs ks, lv_log s = (ran <$> rs) ++ (skipped <$> ks) /\ lv_w s = replay w0 (lv_log s) /\
     Forall (λ e, halted e.2.2 = false) rs /\ (ks = [] \/ halted (lv_c s) = true)) /\
  ((0 < lv_returned s)%nat -> lv_senders s = [] /\ lv_chan s = [] /\ events (lv_c s) ≡ₚ (lv_log s).*1 /\
     forall s', rtc live_step s s' -> lv_w s' = lv_w s /\ lv_log s' = lv_log s).
Proof.
  intros Hr. pose proof (reach_ok txn w0 s Hr) as Hok. pose proof Hok as []. split_and!; [done|apply acts_end|by eapply live_progress| |].
  - destruct lo_order0 as (rs & ks & ? & ? & Hk). exists rs, ks. split_and!; [done..|]. destruct Hk as [|[? _]]; auto.
  - intros Hn. specialize (lo_returned0 Hn). destruct (lo_done0 lo_returned0) as [Hcl Hq]. unfold busy in *.
    rewrite lo_returned0, Hq, (lo_senders0 Hcl) in lo_account0. cbn in lo_account0. rewrite app_nil_r in lo_account0.
    split_and!; [by apply lo_senders0|done|done|]. intros s' Hs. by eapply frozen_steps.
Qed.

(** ** A run: [Stop] arrives while a checkpoint is being finalized *)

Definition prepare_cp (id : string) (s : Live) : Live := prepared_call (b id) None (set_c (OnBarrierInjected (b id) (Some (b "{}")) (lv_c s)) s).
Definition started : Live := coord_Start (new_live (b "job") startWorld).
Definition two_sent : Live := send_event 0 (b "cp-2") (send_event 0 (b "cp-1") (prepare_cp "cp-2" (prepare_cp "cp-1" started))).
Definition stopping : Live := stop_close (stop_halt (stop_call (begin_finalize allWell (b "cp-1") [b "cp-2"] two_sent))).
Definition ended (s : Live) : Live := match lv_worker s with WBusy id began after halts => end_finalize id began after halts s | _ => s end.
Definition stopped : Live := stop_return 0 (worker_exit (begin_finalize allWell (b "cp-2") [] (ended stopping))).

Lemma live_then `{JT : JSONText} s s' s'' : rtc live_step s s' -> live_step s' s'' -> rtc live_step s s''.
Proof. intros H1 H2. by eapply rtc_r. Qed.
Lemma stopped_reached : rtc live_step started stopped.
Proof.
  unfold stopped. eapply live_then; [|right; by apply Act_return].
  eapply live_then; [|right; by apply Act_exit]. eapply live_then; [|right; by apply Act_take].
  unfold ended. destruct (lv_worker stopping) as [| |id began after halts|] eqn:E; try (vm_compute in E; discriminate E).
  eapply live_then; [|right; by apply Act_end]. clear E.
  unfold stopping. eapply live_then; [|right; by apply Act_close]. eapply live_then; [|right; by apply Act_halt].
  eapply live_then; [|left; by apply Call_stop]. eapply live_then; [|right; by apply Act_take].
  unfold two_sent, prepare_cp. eapply live_then; [|right; apply Act_send; [done|intros _; cbn; unfold eventsCap; lia]].
  eapply live_then; [|right; apply Act_send; [done|intros _; cbn; unfold eventsCap; lia]].
  eapply live_then; [|left; apply Call_prepared]. eapply live_then; [|left; apply Call_injected].
  eapply live_then; [|left; apply Call_prepared]. eapply live_then; [|left; apply Call_injected]. apply rtc_refl.
Qed.

Lemma coordinator_stops_cleanly_witness :
  lv_returned stopped = 1%nat /\ committed (lv_w stopped) = [b "cp-1"] /\ (lv_log stopped).*1 = [b "cp-1"; b "cp-2"] /\
  events (lv_c stopped) ≡ₚ (lv_log stopped).*1 /\ forall s', rtc live_step stopped s' -> lv_w s' = lv_w stopped.
Proof.
  split_and!; [by vm_compute..| |]; destruct (coordinator_stops_cleanly (b "job") startWorld stopped stopped_reached) as (_ & _ & _ & _ & H);
    destruct (H ltac:(vm_compute; lia)) as (_ & _ & Hp & Hf); [exact Hp|]. intros s' Hs. by apply Hf.
Defined.
