(* ===== verification/Engine.v ===== *)
(** * The engine (mailer.go): barrier injection

    [injectBarriers] is a step function over what its select can take; it
    registers, for each barrier, the offsets of the records before it. *)
From stdpp Require Import pretty.
From S2P Require Import Prelude GoTime Strconv Types Json Storage.

(** ** Barrier injection *)

(** What the select of the injector can take. *)
Inductive injEvent : Type :=
| InjRecord (r : Rec)    (* a record from the source *)
| InjTick                (* the checkpoint interval elapsed *)
| InjCancel              (* the run context was cancelled *)
| InjClosed              (* the source channel is closed *)
| InjCut (e : injEvent). (* [e], but the hard context ends before its send is taken *)

Inductive injMode : Type := Running | Draining | Stopped.

Record injState : Type := mkInj {
  inj_offsets : gmap Z Z;                       (* next offset per partition *)
  checkpointID : nat;
  inj_out : list Rec;                           (* what was forwarded *)
  registered : list (bytes * gmap Z Z);         (* offsets registered per id *)
  mode : injMode;
}.

Definition mkID (nonce : Z) (n : nat) (suffix : string) : bytes :=
  b "cp-" ++ dec_ nonce ++ b "-" ++ b (pretty n) ++ b suffix.

(** The offset map after forwarding one record. *)
Definition track (m : gmap Z Z) (r : Rec) : gmap Z Z :=
  if is_data r then <[Partition r := wrap64 (Offset r + 1)]> m else m.

Definition inj_forward (r : Rec) (s : injState) : injState :=
  mkInj (track (inj_offsets s) r) (checkpointID s) (inj_out s ++ [r]) (registered s) (mode s).
(** [checkpointID++; barrier(mkID(suffix))]. *)
Definition inj_barrier (nonce : Z) (suffix : string) (m : injMode) (s : injState) : injState :=
  let n := S (checkpointID s) in
  let id := mkID nonce n suffix in
  mkInj (inj_offsets s) n (inj_out s ++ [NewBarrier id]) (registered s ++ [(id, inj_offsets s)]) m.

(** [forward] gives up: the record was tracked and is lost. *)
Definition inj_forward_cut (r : Rec) (s : injState) : injState :=
  mkInj (track (inj_offsets s) r) (checkpointID s) (inj_out s) (registered s) Stopped.
(** [barrier] gives up: the offsets were registered and the barrier is lost. *)
Definition inj_barrier_cut (nonce : Z) (suffix : string) (s : injState) : injState :=
  let n := S (checkpointID s) in
  mkInj (inj_offsets s) n (inj_out s) (registered s ++ [(mkID nonce n suffix, inj_offsets s)]) Stopped.

Definition inj_step (nonce : Z) (s : injState) (e : injEvent) : injState :=
  match mode s, e with
  | Running, InjRecord r => inj_forward r s
  | Running, InjTick => inj_barrier nonce "" Running s
  | Running, InjCancel => inj_barrier nonce "-shutdown" Draining s
  | Running, InjClosed => inj_barrier nonce "-final" Stopped s
  | Draining, InjRecord r => inj_forward r s
  | Draining, InjClosed => mkInj (inj_offsets s) (checkpointID s) (inj_out s) (registered s) Stopped
  | Running, InjCut (InjRecord r) | Draining, InjCut (InjRecord r) => inj_forward_cut r s
  | Running, InjCut InjTick => inj_barrier_cut nonce "" s
  | Running, InjCut InjCancel => inj_barrier_cut nonce "-shutdown" s
  | Running, InjCut InjClosed => inj_barrier_cut nonce "-final" s
  | _, _ => s
  end.

Definition inj_init : injState := mkInj ∅ 0 [] [] Running.
Definition injectBarriers (nonce : Z) (evs : list injEvent) : injState := foldl (inj_step nonce) inj_init evs.

(** [registerAlignedOffsets]: the JSON snapshot of the offsets. *)
Definition offsets_json `{JSONText} (m : gmap Z Z) : bytes :=
  json_print (marshal_map JNum (kmap dec_ m : gmap bytes Z)).

(** ** Alignment *)

(** Where a partition is to be resumed after a stream: one past the offset of
    its last data record, if it has one. *)
Definition of_partition (p : Z) (r : Rec) : bool :=
  negb (IsWatermark r) && negb (IsBarrier r) && (Partition r =? p).
Definition resume_at (l : list Rec) (p : Z) : option Z :=
  (λ r, wrap64 (Offset r + 1)) <$> last (List.filter (of_partition p) l).

Lemma resume_at_snoc l r p :
  resume_at (l ++ [r]) p = if of_partition p r then Some (wrap64 (Offset r + 1)) else resume_at l p.
Proof.
  unfold resume_at. rewrite List.filter_app. cbn. destruct (of_partition p r); [by rewrite last_snoc|by rewrite app_nil_r].
Qed.
Lemma track_lookup m r p : track m r !! p = if of_partition p r then Some (wrap64 (Offset r + 1)) else m !! p.
Proof.
  unfold track, is_data, is_marker, of_partition. destruct (IsWatermark r), (IsBarrier r); cbn; try done.
  destruct (Z.eqb_spec (Partition r) p) as [->|Hne]; [by rewrite lookup_insert_eq|by rewrite lookup_insert_ne].
Qed.

(** Barriers the source itself would send are not the injector's. *)
Definition src_event (e : injEvent) : Prop :=
  match e with InjRecord r | InjCut (InjRecord r) => IsBarrier r = false | _ => True end.
(** The source's records among the events, in order. *)
Definition taken_record (e : injEvent) : option Rec :=
  match e with InjRecord r | InjCut (InjRecord r) => Some r | _ => None end.

Definition barrier_ids (l : list Rec) : list bytes := CheckpointID <$> List.filter IsBarrier l.
(** What was forwarded of the source's own records. *)
Definition passed_on (l : list Rec) : list Rec := List.filter (λ r, negb (IsBarrier r)) l.

(** [m] holds, for each partition, where to resume after [l]. *)
Definition covers (m : gmap Z Z) (l : list Rec) : Prop := forall p, m !! p = resume_at l p.

Record inj_inv (nonce : Z) (evs : list injEvent) (s : injState) : Prop := {
  ii_now : mode s <> Stopped -> covers (inj_offsets s) (inj_out s) /\ (registered s).*1 = barrier_ids (inj_out s) /\
    passed_on (inj_out s) = omap taken_record evs;
  ii_reg : forall id m, (id, m) ∈ registered s ->
    (exists pre post, inj_out s = pre ++ NewBarrier id :: post /\ covers m pre) \/
    (mode s = Stopped /\ last (registered s) = Some (id, m) /\ covers m (inj_out s));
  ii_ids : exists lost, (registered s).*1 = barrier_ids (inj_out s) ++ lost /\ (length lost <= 1)%nat;
  ii_pass : passed_on (inj_out s) `prefix_of` omap taken_record evs;
  ii_fresh : forall id, id ∈ (registered s).*1 ->
    exists n suf, (n <= checkpointID s)%nat /\ In suf [""; "-shutdown"; "-final"]%string /\ id = mkID nonce n suf;
  ii_nodup : NoDup (registered s).*1;
}.

Definition dash : ascii := "-"%char.

Lemma pretty_go_no_dash x s : dash ∉ b s -> dash ∉ b (pretty_N_go x s).
Proof.
  revert s. induction (N.lt_wf_0 x) as [x _ IH]; intros s Hs.
  destruct (decide (x = 0)%N) as [->|Hx]; [by rewrite pretty_N_go_0|].
  rewrite pretty_N_go_step by lia. apply IH; [apply N.div_lt; lia|]. cbn [b].
  rewrite not_elem_of_cons. split; [|done]. unfold pretty_N_char. by repeat case_match.
Qed.

Lemma pretty_no_dash (n : nat) : dash ∉ b (pretty n).
Proof.
  unfold pretty, pretty_nat, pretty, pretty_N. case_decide.
  - cbn. rewrite list_elem_of_singleton. done.
  - apply pretty_go_no_dash. cbn. by intros ?%elem_of_nil.
Qed.

(** Text before an optional "-" suffix is determined. *)
Definition dash_start (s : bytes) : Prop := s = [] \/ exists s', s = dash :: s'.
Lemma before_dash x y s t :
  dash ∉ x -> dash ∉ y -> dash_start s -> dash_start t -> x ++ s = y ++ t -> x = y.
Proof.
  revert y. induction x as [|c x IH]; intros [|d y] Hx Hy Hs Ht E; cbn in E.
  - done.
  - destruct Hs as [->|[s' ->]]; [done|]. injection E as <- _. destruct Hy. left.
  - destruct Ht as [->|[t' ->]]; [done|]. injection E as -> _. destruct Hx. left.
  - injection E as -> E. f_equal. apply IH; try done; set_solver.
Qed.

Lemma suffix_dash suf : In suf [""; "-shutdown"; "-final"]%string -> dash_start (b suf).
Proof. intros [<-|[<-|[<-|[]]]]; [by left|right; eauto..]. Qed.

Lemma mkID_inj nonce n n' suf suf' :
  In suf [""; "-shutdown"; "-final"]%string -> In suf' [""; "-shutdown"; "-final"]%string ->
  mkID nonce n suf = mkID nonce n' suf' -> n = n'.
Proof.
  intros Hs Hs' E. unfold mkID in E. apply app_inv_head in E. apply app_inv_head in E. apply app_inv_head in E.
  apply before_dash in E; [|apply pretty_no_dash|apply pretty_no_dash|by apply suffix_dash|by apply suffix_dash].
  apply b_inj in E. by apply (inj pretty) in E.
Qed.

Lemma barrier_ids_snoc l r : barrier_ids (l ++ [r]) = barrier_ids l ++ if IsBarrier r then [CheckpointID r] else [].
Proof. unfold barrier_ids. rewrite List.filter_app, fmap_app. cbn. by destruct (IsBarrier r). Qed.

Lemma passed_on_snoc l r : passed_on (l ++ [r]) = passed_on l ++ if IsBarrier r then [] else [r].
Proof. unfold passed_on. rewrite List.filter_app. cbn. by destruct (IsBarrier r). Qed.

(** Registered offsets stay right when the stream grows. *)
Lemma reg_grow (rs : list (bytes * gmap Z Z)) out r md :
  (forall id m, (id, m) ∈ rs -> exists pre post, out = pre ++ NewBarrier id :: post /\ covers m pre) ->
  forall id m, (id, m) ∈ rs ->
    (exists pre post, out ++ [r] = pre ++ NewBarrier id :: post /\ covers m pre) \/
    (md = Stopped /\ last rs = Some (id, m) /\ covers m (out ++ [r])).
Proof.
  intros H id m Hin. left. destruct (H id m Hin) as (pre & post & -> & Hc). exists pre, (post ++ [r]).
  by rewrite <- app_assoc.
Qed.

Lemma reg_sent nonce evs s : inj_inv nonce evs s -> mode s <> Stopped ->
  forall id m, (id, m) ∈ registered s -> exists pre post, inj_out s = pre ++ NewBarrier id :: post /\ covers m pre.
Proof. intros Hi Hm id m Hin. by destruct (ii_reg _ _ _ Hi id m Hin) as [?|(? & _)]. Qed.

Lemma fresh_id nonce evs suf s : inj_inv nonce evs s -> In suf [""; "-shutdown"; "-final"]%string ->
  let id := mkID nonce (S (checkpointID s)) suf in
  (forall id', id' ∈ (registered s).*1 ++ [id] ->
     exists n suf, (n <= S (checkpointID s))%nat /\ In suf [""; "-shutdown"; "-final"]%string /\ id' = mkID nonce n suf) /\
  NoDup ((registered s).*1 ++ [id]).
Proof.
  intros [_ _ _ _ H4 H5] Hsuf id. split.
  - intros id' [Hin|Hin%list_elem_of_singleton]%elem_of_app.
    + destruct (H4 id' Hin) as (n & su & Hn & Hs & ->). exists n, su. split_and!; [lia|done|done].
    + subst id'. exists (S (checkpointID s)), suf. done.
  - apply NoDup_app. split_and!; [done| |apply NoDup_singleton].
    intros id' Hin ->%list_elem_of_singleton. destruct (H4 _ Hin) as (n & su & Hn & Hs & E). apply mkID_inj in E; [lia|done|done].
Qed.

Lemma prefix_snoc {A} (l k : list A) x : l `prefix_of` k -> l `prefix_of` k ++ [x].
Proof. intros [t ->]. exists (t ++ [x]). by rewrite app_assoc. Qed.

Lemma forward_inv nonce evs r s : IsBarrier r = false -> mode s <> Stopped ->
  inj_inv nonce evs s -> inj_inv nonce (evs ++ [InjRecord r]) (inj_forward r s).
Proof.
  intros Hr Hm Hi. destruct (ii_now _ _ _ Hi Hm) as (N1 & N2 & N3). pose proof Hi as [_ _ _ _ H4 H5].
  assert (Ep : passed_on (inj_out s ++ [r]) = omap taken_record (evs ++ [InjRecord r]))
    by (rewrite passed_on_snoc, Hr, omap_app, N3; done).
  assert (Eb : (registered s).*1 = barrier_ids (inj_out s ++ [r])) by (by rewrite barrier_ids_snoc, Hr, app_nil_r).
  split; cbn [inj_forward inj_offsets inj_out registered checkpointID mode]; try done.
  - intros _. split_and!; [|done|done]. intros p. by rewrite track_lookup, resume_at_snoc, N1.
  - apply reg_grow, (reg_sent nonce evs s Hi Hm).
  - exists []. rewrite app_nil_r. split; [done|cbn; lia].
  - by rewrite Ep.
Qed.

Lemma forward_cut_inv nonce evs r s : mode s <> Stopped ->
  inj_inv nonce evs s -> inj_inv nonce (evs ++ [InjCut (InjRecord r)]) (inj_forward_cut r s).
Proof.
  intros Hm Hi. pose proof Hi as [_ _ H3 H4' H4 H5].
  split; cbn [inj_forward_cut inj_offsets inj_out registered checkpointID mode]; try done.
  - intros id m Hin. left. by apply (reg_sent nonce evs s Hi Hm).
  - rewrite omap_app. cbn. by apply prefix_snoc.
Qed.

Lemma idle_omap evs e : taken_record e = None -> omap taken_record (evs ++ [e]) = omap taken_record evs.
Proof. intros He. rewrite omap_app. cbn. by rewrite He, app_nil_r. Qed.

Lemma barrier_inv nonce evs e suf md s : taken_record e = None -> mode s <> Stopped ->
  In suf [""; "-shutdown"; "-final"]%string -> inj_inv nonce evs s -> inj_inv nonce (evs ++ [e]) (inj_barrier nonce suf md s).
Proof.
  intros He Hm Hsuf Hi. destruct (ii_now _ _ _ Hi Hm) as (N1 & N2 & N3). destruct (fresh_id nonce evs suf s Hi Hsuf) as [F1 F2].
  unfold inj_barrier. cbv zeta. set (id := mkID nonce (S (checkpointID s)) suf) in *.
  assert (Ep : passed_on (inj_out s ++ [NewBarrier id]) = omap taken_record (evs ++ [e]))
    by (rewrite passed_on_snoc, idle_omap by done; cbn; by rewrite app_nil_r).
  assert (Eb : (registered s ++ [(id, inj_offsets s)]).*1 = barrier_ids (inj_out s ++ [NewBarrier id]))
    by (rewrite barrier_ids_snoc, fmap_app, N2; done).
  assert (E1 : (registered s ++ [(id, inj_offsets s)]).*1 = (registered s).*1 ++ [id]) by (by rewrite fmap_app).
  split; cbn [inj_offsets inj_out registered checkpointID mode].
  - intros _. split_and!; [|done|done]. intros p. rewrite resume_at_snoc. cbn. apply N1.
  - intros id' m [Hin|Hin%list_elem_of_singleton]%elem_of_app.
    + left. destruct (reg_sent nonce evs s Hi Hm id' m Hin) as (pre & post & -> & Hc). exists pre, (post ++ [NewBarrier id]).
      by rewrite <- app_assoc.
    + injection Hin as -> ->. left. by exists (inj_out s), [].
  - exists []. rewrite app_nil_r. split; [done|cbn; lia].
  - by rewrite Ep.
  - intros id' Hin. rewrite E1 in Hin. by apply F1.
  - by rewrite E1.
Qed.

Lemma barrier_cut_inv nonce evs e suf s : taken_record e = None -> mode s <> Stopped ->
  In suf [""; "-shutdown"; "-final"]%string -> inj_inv nonce evs s -> inj_inv nonce (evs ++ [e]) (inj_barrier_cut nonce suf s).
Proof.
  intros He Hm Hsuf Hi. destruct (ii_now _ _ _ Hi Hm) as (N1 & N2 & N3). destruct (fresh_id nonce evs suf s Hi Hsuf) as [F1 F2].
  unfold inj_barrier_cut. cbv zeta. set (id := mkID nonce (S (checkpointID s)) suf) in *.
  assert (E1 : (registered s ++ [(id, inj_offsets s)]).*1 = (registered s).*1 ++ [id]) by (by rewrite fmap_app).
  split; cbn [inj_offsets inj_out registered checkpointID mode].
  - done.
  - intros id' m [Hin|Hin%list_elem_of_singleton]%elem_of_app.
    + left. by apply (reg_sent nonce evs s Hi Hm).
    + injection Hin as -> ->. right. by rewrite last_snoc.
  - exists [id]. rewrite E1, N2. split; [done|cbn; lia].
  - rewrite idle_omap by done. apply (ii_pass _ _ _ Hi).
  - intros id' Hin. rewrite E1 in Hin. by apply F1.
  - by rewrite E1.
Qed.

(** Events that change nothing, or only end the run. *)
Lemma idle_inv nonce evs e s s' :
  inj_inv nonce evs s -> (mode s <> Stopped -> taken_record e = None) ->
  (inj_offsets s', checkpointID s', inj_out s', registered s') = (inj_offsets s, checkpointID s, inj_out s, registered s) ->
  (mode s' <> Stopped -> mode s <> Stopped) -> inj_inv nonce (evs ++ [e]) s'.
Proof.
  intros [H1 H2 H3 H4 H5 H6] He [= E1 E2 E3 E4] Hm. split; rewrite ?E1, ?E2, ?E3, ?E4; try done.
  - intros Hs. rewrite idle_omap by auto. auto.
  - intros id m Hin. destruct (H2 id m Hin) as [?|(Hs & ?)]; [by left|]. right. split; [|done].
    destruct (mode s') eqn:Em; [by destruct (Hm ltac:(congruence))..|done].
  - destruct (taken_record e) as [r|] eqn:Er; [|by rewrite idle_omap]. rewrite omap_app. cbn. rewrite Er. by apply prefix_snoc.
Qed.

Lemma inj_step_inv nonce evs e s : src_event e -> inj_inv nonce evs s -> inj_inv nonce (evs ++ [e]) (inj_step nonce s e).
Proof.
  intros He Hi. unfold inj_step.
  destruct (mode s) eqn:Em; destruct e as [r| | | |e]; try (destruct e); cbn in He |- *;
    try (apply forward_inv; [done|congruence|done]);
    try (apply forward_cut_inv; [congruence|done]);
    try (apply barrier_inv; [done|congruence|cbn; tauto|done]);
    try (apply barrier_cut_inv; [done|congruence|cbn; tauto|done]);
    (eapply idle_inv; [exact Hi|intros; try done; congruence|done|cbn; congruence]).
Qed.

Lemma inject_inv nonce evs : Forall src_event evs -> inj_inv nonce evs (injectBarriers nonce evs).
Proof.
  intros He. unfold injectBarriers. induction evs as [|e evs IH] using rev_ind.
  - split; cbn; try done; [by intros ? ? ?%elem_of_nil|exists []; split; [done|cbn; lia]|by intros ? ?%elem_of_nil|by constructor].
  - apply Forall_app in He as [H1 H2]. rewrite foldl_app. cbn [foldl]. apply inj_step_inv; [by inversion H2|exact (IH H1)].
Qed.

(** C33: barrier-aligned offsets.  Whatever the order of records, ticks,
    cancellation, close and a hard stop in the middle of a send: what is
    forwarded of the source's records is a prefix of those taken; the ids
    registered are, in order, those of the barriers forwarded, plus at most
    one more whose barrier was lost to the hard stop, and are pairwise
    distinct; and the offsets registered for an id say for every partition
    where to resume after the records forwarded before its barrier (before the
    end of the stream, when the barrier was lost): one past the last data
    record of the partition, and nothing for a partition without one. *)
Theorem barrier_offsets_aligned (nonce : Z) (evs : list injEvent) :
  Forall src_event evs ->
  let s := injectBarriers nonce evs in
  passed_on (inj_out s) `prefix_of` omap taken_record evs /\
  (exists lost, (registered s).*1 = barrier_ids (inj_out s) ++ lost /\ (length lost <= 1)%nat) /\
  NoDup (registered s).*1 /\
  (forall id m, (id, m) ∈ registered s ->
     (exists pre post, inj_out s = pre ++ NewBarrier id :: post /\ forall p, m !! p = resume_at pre p) \/
     (mode s = Stopped /\ last (registered s) = Some (id, m) /\ forall p, m !! p = resume_at (inj_out s) p)).
Proof. intros He s. destruct (inject_inv nonce evs He) as [_ H2 H3 H4 _ H6]. done. Qed.

Definition at_offset (p o : Z) : Rec := mkRec None None 0 o p ∅ AnyNil false false [].
Definition aWatermark : Rec := NewWatermark 0.

(** Two partitions and a watermark; the last barrier is lost. *)
Lemma barrier_offsets_aligned_witness :
  let evs := [InjRecord (at_offset 0 7); InjTick; InjRecord (at_offset 1 3); InjRecord aWatermark; InjRecord (at_offset 0 8);
              InjTick; InjRecord (at_offset 0 9); InjCut InjTick] in
  let s := injectBarriers 42 evs in
  (registered s).*1 = [b "cp-42-1"; b "cp-42-2"; b "cp-42-3"] /\ barrier_ids (inj_out s) = [b "cp-42-1"; b "cp-42-2"] /\
  (registered s).*2 = [{[0 := 8]}; {[0 := 9; 1 := 4]}; {[0 := 10; 1 := 4]}] /\
  forall p, ({[0 := 9; 1 := 4]} : gmap Z Z) !! p
    = resume_at [at_offset 0 7; NewBarrier (b "cp-42-1"); at_offset 1 3; aWatermark; at_offset 0 8] p.
Proof.
  intros evs s. split; [vm_compute; reflexivity|]. split; [vm_compute; reflexivity|]. split; [vm_compute; reflexivity|].
  destruct (barrier_offsets_aligned 42 evs) as (_ & _ & _ & H); [repeat constructor|].
  destruct (H (b "cp-42-2") {[0 := 9; 1 := 4]}) as [(pre & post & E & Hc)|(_ & E & _)].
  - vm_compute. right. left.
  - assert (Hl : length pre = 5%nat).
    { assert (Hn : forall i, (inj_out s !! i = Some (NewBarrier (b "cp-42-2"))) -> i = 5%nat).
      { intros i Hi. do 9 (destruct i as [|i]; [by vm_compute in Hi|]). by vm_compute in Hi. }
      apply Hn. fold s in E. rewrite E, lookup_app_r, Nat.sub_diag; done. }
    assert (Ep : pre = take 5 (inj_out s)) by (fold s in E; by rewrite E, <- Hl, take_app_length).
    rewrite Ep in Hc. exact Hc.
  - vm_compute in E. discriminate E.
Defined.
