(* ===== verification/Wiring.v ===== *)
(** * The engine (mailer.go): stages over bounded edges

    What [Execute] runs between its start and its end: the stages of a plan as
    goroutines over bounded edges (pipeline/edge.go), the barrier injector and
    detector between them, and the two-phase shutdown in which the run context
    stops the source and the hard context unwinds what is stuck.

    A stage is a process that takes a record, sends what comes of it, and takes
    the next; when its input is closed it sends what is left and closes its
    output.  A stage may also leave: end without an error although its input
    goes on, as a channel stage does when its window's idle timeout fires and a
    sink stage when [Write] returns nil early.  What comes of a record depends on
    the process's state and may depend on chance (a ticker), so it is a relation.  Parallel stages are one
    process here: [Merge] and [Stages] are about their inside. *)
From S2P Require Import Prelude Paths GoTime Strconv Types Json State Operators Reduce Merge Stages Engine.

(** ** Processes *)

Record Proc : Type := mkProcLeaving {
  ps : Type;
  ps_init : ps;
  on_rec : ps -> Rec -> ps -> result (list Rec) -> Prop;      (* what is sent for a record, or the failure *)
  on_close : ps -> ps -> result (list Rec) -> Prop;
  on_leave : ps -> ps -> list Rec -> Prop;                    (* what is sent before leaving early *)
  on_rec_total : forall s r, exists s' o, on_rec s r s' o;
  on_close_total : forall s, exists s' o, on_close s s' o;
}.

(** A process that takes its input to the end. *)
Definition mkProc (S : Type) (init : S) (rec : S -> Rec -> S -> result (list Rec) -> Prop) (close : S -> S -> result (list Rec) -> Prop)
    (rec_total : forall s r, exists s' o, rec s r s' o) (close_total : forall s, exists s' o, close s s' o) : Proc :=
  mkProcLeaving S init rec close (λ _ _ _, False) rec_total close_total.
Definition stays (P : Proc) : Prop := forall s s' o, ~ on_leave P s s' o.
Lemma mkProc_stays S init rec close t1 t2 : stays (mkProc S init rec close t1 t2).
Proof. by intros s s' o []. Qed.

(** What a process may send for its input so far, and in all. *)
Inductive sends (P : Proc) : list Rec -> ps P -> list Rec -> Prop :=
| sends_nil : sends P [] (ps_init P) []
| sends_rec h s o r s' o' : sends P h s o -> on_rec P s r s' (Ok o') -> sends P (h ++ [r]) s' (o ++ o').
Definition sends_all (P : Proc) (h o : list Rec) : Prop :=
  exists s s' o1 o2, sends P h s o1 /\ on_close P s s' (Ok o2) /\ o = o1 ++ o2.
(** A pipeline relates what the source produced to what left its last stage. *)
Fixpoint pipeline_sends (Ps : list Proc) (inp out : list Rec) : Prop :=
  match Ps with
  | [] => out = inp
  | P :: Ps => exists mid, sends_all P inp mid /\ pipeline_sends Ps mid out
  end.

(** ** Nodes *)

Inductive nstat : Type := Open | Closing | Finished (r : result unit).
(** A stage at run time: its input channel, what it has taken from it, what it
    has yet to send of the last record, and what it has sent. *)
Record node : Type := mkNode {
  nd_proc : Proc; nd_cap : nat; nd_st : ps nd_proc; nd_buf : list Rec; nd_in : list Rec; nd_pend : list Rec; nd_out : list Rec; nd_stat : nstat;
}.
Definition fresh_node (P : Proc) (cap : nat) (buf : list Rec) : node := mkNode P cap (ps_init P) buf [] [] [] Open.
Definition is_finished (n : node) : bool := match nd_stat n with Finished _ => true | _ => false end.
Definition took (n : node) (r : Rec) (s : ps (nd_proc n)) (o : list Rec) : node :=
  mkNode (nd_proc n) (nd_cap n) s (tail (nd_buf n)) (nd_in n ++ [r]) o (nd_out n) Open.
Definition closing (n : node) (s : ps (nd_proc n)) (o : list Rec) : node :=
  mkNode (nd_proc n) (nd_cap n) s (nd_buf n) (nd_in n) o (nd_out n) Closing.
Definition ended (r : result unit) (n : node) : node :=
  mkNode (nd_proc n) (nd_cap n) (nd_st n) (nd_buf n) (nd_in n) (nd_pend n) (nd_out n) (Finished r).
Definition sent_one (r : Rec) (n : node) : node :=
  mkNode (nd_proc n) (nd_cap n) (nd_st n) (nd_buf n) (nd_in n) (tail (nd_pend n)) (nd_out n ++ [r]) (nd_stat n).
Definition with_buf (buf : list Rec) (n : node) : node :=
  mkNode (nd_proc n) (nd_cap n) (nd_st n) buf (nd_in n) (nd_pend n) (nd_out n) (nd_stat n).
Definition put (r : Rec) (n : node) : node := with_buf (nd_buf n ++ [r]) n.
Definition keep_input (k : nat) (n : node) : node := with_buf (take k (nd_buf n)) n.

(** ** The net *)

(** The nodes from the source on.  The buffer of the first holds what the source
    has yet to produce.  [ctx] and [hard] say that the run context and the hard
    context have ended. *)
Record net : Type := mkNet { nodes : list node; ctx : bool; hard : bool }.
(** Nothing more is written to the input of node [i]. *)
Definition input_closed (ns : list node) (i : nat) : Prop :=
  match i with 0%nat => True | S j => exists n, ns !! j = Some n /\ is_finished n = true end.
(** A send has somewhere to go: room on the next edge, or no next edge. *)
Definition has_room (ns : list node) (i : nat) : Prop := forall n, ns !! S i = Some n -> (length (nd_buf n) < nd_cap n)%nat.
Definition deliver (i : nat) (r : Rec) (n : node) (ns : list node) : list node := alter (put r) (S i) (<[i := sent_one r n]> ns).

Inductive net_step (N : net) : net -> Prop :=
| Take i n r s o : nodes N !! i = Some n -> nd_stat n = Open -> nd_pend n = [] -> head (nd_buf n) = Some r ->
    on_rec (nd_proc n) (nd_st n) r s (Ok o) -> net_step N (mkNet (<[i := took n r s o]> (nodes N)) (ctx N) (hard N))
| TakeFails i n r s e : nodes N !! i = Some n -> nd_stat n = Open -> nd_pend n = [] -> head (nd_buf n) = Some r ->
    on_rec (nd_proc n) (nd_st n) r s (Err e) ->
    net_step N (mkNet (<[i := ended (Err e) (with_buf (tail (nd_buf n)) n)]> (nodes N)) (ctx N) true)
| SeeClose i n s o : nodes N !! i = Some n -> nd_stat n = Open -> nd_pend n = [] -> nd_buf n = [] -> input_closed (nodes N) i ->
    on_close (nd_proc n) (nd_st n) s (Ok o) -> net_step N (mkNet (<[i := closing n s o]> (nodes N)) (ctx N) (hard N))
| CloseFails i n s e : nodes N !! i = Some n -> nd_stat n = Open -> nd_pend n = [] -> nd_buf n = [] -> input_closed (nodes N) i ->
    on_close (nd_proc n) (nd_st n) s (Err e) -> net_step N (mkNet (<[i := ended (Err e) n]> (nodes N)) (ctx N) true)
| Leave i n s o : nodes N !! i = Some n -> nd_stat n = Open -> nd_pend n = [] -> on_leave (nd_proc n) (nd_st n) s o ->
    net_step N (mkNet (<[i := closing n s o]> (nodes N)) (ctx N) (hard N))      (* its input is read no more *)
| Send i n r : nodes N !! i = Some n -> is_finished n = false -> head (nd_pend n) = Some r -> has_room (nodes N) i ->
    net_step N (mkNet (deliver i r n (nodes N)) (ctx N) (hard N))
| Finish i n : nodes N !! i = Some n -> nd_stat n = Closing -> nd_pend n = [] ->
    net_step N (mkNet (<[i := ended (Ok tt) n]> (nodes N)) (ctx N) (hard N))
| GiveUp i n : nodes N !! i = Some n -> is_finished n = false -> hard N = true ->      (* a receive or send sees the hard context *)
    net_step N (mkNet (<[i := ended (Err "context canceled") n]> (nodes N)) (ctx N) (hard N))
| CancelRun k : ctx N = false -> net_step N (mkNet (alter (keep_input k) 0%nat (nodes N)) true (hard N))      (* the source stops *)
| Timeout_ : ctx N = true -> hard N = false -> net_step N (mkNet (nodes N) (ctx N) true).

(** The wiring of a plan: the first stage after the source reads through the
    injector when checkpoints are on, the sink through the detector when they
    are coordinated.  A node's capacity is that of its input: an edge, or a
    channel of 256 behind the source, the injector and the detector. *)
Definition wire (checkpoints coordinated : bool) (inject detect : Proc) (cap : nat) (src : Proc) (mid : list Proc) (snk : Proc) : list (Proc * nat) :=
  let first := if checkpoints then 256%nat else cap in
  let last_in := match mid with [] => first | _ => cap end in
  [(src, 256%nat)] ++ (if checkpoints then [(inject, cap)] else []) ++
  (match mid with [] => [] | P :: mid => (P, first) :: ((λ P, (P, cap)) <$> mid) end) ++
  (if coordinated then [(detect, last_in); (snk, 256%nat)] else [(snk, last_in)]).
Definition net_launch (stages : list (Proc * nat)) (produced : list Rec) : net :=
  mkNet (match stages with
         | [] => []
         | (P, c) :: stages => fresh_node P c produced :: ((λ s, fresh_node s.1 s.2 []) <$> stages)
         end) false false.

Inductive net_reach (stages : list (Proc * nat)) (produced : list Rec) : net -> Prop :=
| Launched : net_reach stages produced (net_launch stages produced)
| Stepped N N' : net_reach stages produced N -> net_step N N' -> net_reach stages produced N'.

(** ** Every run ends *)

(** The work left: what a step takes it takes from an earlier entry than any it
    adds to. *)
Definition stat_rank (st : nstat) : nat := match st with Open => 2 | Closing => 1 | Finished _ => 0 end.
Definition node_work (n : node) : list nat := [stat_rank (nd_stat n); length (nd_buf n); length (nd_pend n)].
Definition flag (x : bool) : nat := if x then 0 else 1.
Definition work (N : net) : list nat := [flag (ctx N); flag (hard N)] ++ (nodes N ≫= node_work).
Fixpoint lex (l l' : list nat) : Prop :=
  match l, l' with
  | x :: l, y :: l' => (x < y)%nat /\ length l = length l' \/ x = y /\ lex l l'
  | _, _ => False
  end.

Lemma lex_acc k : forall l, length l = k -> Acc lex l.
Proof.
  induction k as [|k IH]; intros l Hl.
  - destruct l; [|done]. constructor. by intros [].
  - assert (G : forall x l, length l = k -> Acc lex (x :: l)).
    { intros x. induction (lt_wf x) as [x _ IHx]. intros l0 Hl0. pose proof (IH l0 Hl0) as Ha. revert Hl0.
      induction Ha as [l0 _ IHl]. intros Hl0. constructor. intros [|y l'] Hlt; [done|]. cbn in Hlt. destruct Hlt as [[Hlt Hlen]|[-> Hlt]].
      - apply IHx; [done|congruence].
      - apply IHl; [done|]. clear -Hlt Hl0. revert l0 k Hlt Hl0. induction l' as [|z l' IH']; intros [|z0 l0] k Hlt Hl0; try done.
        cbn in *. destruct k as [|k]; [done|]. injection Hl0 as Hl0. f_equal. destruct Hlt as [[_ ->]|[_ Hlt]]; [done|by eapply IH']. }
    destruct l as [|x l]; [done|]. apply G. by injection Hl.
Qed.
Lemma lex_prefix p l l' : lex l l' -> lex (p ++ l) (p ++ l').
Proof. intros H. induction p as [|x p IH]; [done|]. cbn. by right. Qed.
Lemma lex_suffix l l' t t' : lex l l' -> length t = length t' -> lex (l ++ t) (l' ++ t').
Proof.
  intros H Ht. revert l' H. induction l as [|x l IH]; intros [|y l'] H; try done. cbn in *.
  destruct H as [[H1 H2]|[-> H]]; [left|right; auto]. split; [done|]. rewrite !length_app. lia.
Qed.
Lemma work_length ns : length (ns ≫= node_work) = (3 * length ns)%nat.
Proof. induction ns as [|n ns IH]; [done|]. rewrite bind_cons, length_app, IH. cbn. lia. Qed.
(** A step at node [i] that leaves the nodes before it alone. *)
Lemma nodes_decrease (ns ns' : list node) i n n' :
  ns !! i = Some n -> ns' !! i = Some n' -> take i ns' = take i ns -> length ns' = length ns ->
  lex (node_work n') (node_work n) -> lex (ns' ≫= node_work) (ns ≫= node_work).
Proof.
  intros Hn Hn' Ht Hlen Hlex. rewrite <- (take_drop_middle ns i n Hn), <- (take_drop_middle ns' i n' Hn'), Ht.
  rewrite !bind_app, !bind_cons. apply lex_prefix, lex_suffix; [done|]. rewrite !work_length, !length_drop. lia.
Qed.
Lemma insert_decrease (ns : list node) i n n' : ns !! i = Some n -> lex (node_work n') (node_work n) -> lex (<[i := n']> ns ≫= node_work) (ns ≫= node_work).
Proof.
  intros Hn Hl. eapply nodes_decrease; [done|apply list_lookup_insert_eq; by eapply lookup_lt_Some| |by rewrite length_insert|done].
  by rewrite take_insert_ge.
Qed.
Lemma head_tail {A} (l : list A) x : head l = Some x -> l = x :: tail l.
Proof. by destruct l; intros [= ->]. Qed.
Lemma head_length {A} (l : list A) x : head l = Some x -> length l = S (length (tail l)).
Proof. by destruct l. Qed.
Lemma open_rank n : is_finished n = false -> (0 < stat_rank (nd_stat n))%nat.
Proof. unfold is_finished. destruct (nd_stat n); cbn; [lia|lia|done]. Qed.
Lemma flags_lex a a' c c' l l' : (flag a <= flag a')%nat -> (flag c <= flag c')%nat -> length l = length l' ->
  (flag a < flag a')%nat \/ (flag c < flag c')%nat \/ lex l l' -> lex ([flag a; flag c] ++ l) ([flag a'; flag c'] ++ l').
Proof.
  intros H1 H2 H3 H. cbn. destruct (decide (flag a < flag a')%nat); [by left; rewrite H3|]. right. split; [lia|].
  destruct (decide (flag c < flag c')%nat); [by left|]. right. split; [lia|]. destruct H as [?|[?|?]]; [lia|lia|done].
Qed.
Lemma flag_true x : (flag true <= flag x)%nat.
Proof. destruct x; cbn; lia. Qed.
Lemma step_decreases N N' : net_step N N' -> lex (work N') (work N).
Proof.
  assert (Hi : forall i n n', nodes N !! i = Some n -> lex (node_work n') (node_work n) ->
    forall a c, (flag a <= flag (ctx N))%nat -> (flag c <= flag (hard N))%nat -> lex (work (mkNet (<[i := n']> (nodes N)) a c)) (work N)).
  { intros i n n' Hn Hl a c Ha Hc. apply flags_lex; [done|done|by rewrite !work_length; cbn; rewrite length_insert|].
    right; right. cbn [nodes]. by eapply insert_decrease. }
  intros [i n r s o Hn Hst Hp Hb _|i n r s e Hn Hst Hp Hb _|i n s o Hn Hst Hp Hb _ _|i n s e Hn Hst Hp Hb _ _|i n s o Hn Hst Hp _|i n r Hn Hf Hp _|i n Hn Hst Hp|i n Hn Hf _|k Hc|Hc Hh].
  - apply (Hi _ _ _ Hn); [|done..]. unfold node_work. rewrite Hst, (head_length _ _ Hb). cbn. right. split; [done|left]. split; [lia|done].
  - apply (Hi _ _ _ Hn); [|done|apply flag_true]. cbn. rewrite Hst. left. cbn. split; [lia|done].
  - apply (Hi _ _ _ Hn); [|done..]. cbn. rewrite Hst. left. cbn. split; [lia|done].
  - apply (Hi _ _ _ Hn); [|done|apply flag_true]. cbn. rewrite Hst. left. cbn. split; [lia|done].
  - apply (Hi _ _ _ Hn); [|done..]. cbn. rewrite Hst. left. cbn. split; [lia|done].
  - apply flags_lex; [done|done|unfold deliver; by rewrite !work_length; cbn; rewrite length_alter, length_insert|]. right; right. cbn [nodes]. unfold deliver.
    eapply nodes_decrease; [done| | |by rewrite length_alter, length_insert|].
    + rewrite list_lookup_alter_ne by lia. apply list_lookup_insert_eq. by eapply lookup_lt_Some.
    + apply list_eq. intros j. destruct (decide (j < i)%nat); [|rewrite !lookup_take_ge by lia; done].
      rewrite !lookup_take_lt by lia. rewrite list_lookup_alter_ne, list_lookup_insert_ne by lia. done.
    + unfold node_work. rewrite (head_length _ _ Hp). cbn. right. split; [done|]. right. split; [done|]. left. split; [lia|done].
  - apply (Hi _ _ _ Hn); [|done..]. cbn. rewrite Hst. left. cbn. split; [lia|done].
  - apply (Hi _ _ _ Hn); [|done..]. cbn. left. split; [by apply open_rank|done].
  - apply flags_lex; [apply flag_true|done|by rewrite !work_length; cbn; rewrite length_alter|]. left. cbn. rewrite Hc. cbn. lia.
  - apply flags_lex; [done|apply flag_true|done|]. right; left. cbn. rewrite Hh. cbn. lia.
Qed.
Lemma steps_end N : Acc (flip net_step) N.
Proof.
  remember (work N) as w eqn:E. revert N E. induction (lex_acc (length w) w eq_refl) as [w _ IH]. intros N ->. constructor.
  intros N' Hs. apply (IH (work N')); [by apply step_decreases|done].
Qed.

(** ** What holds at every point of a run *)

(** Between two neighbours nothing is lost, doubled or reordered. *)
Definition edge_ok (h : bool) (n n' : node) : Prop :=
  nd_in n' `prefix_of` nd_out n /\ (h && is_finished n' = false -> nd_out n = nd_in n' ++ nd_buf n').
Definition edges_ok (h : bool) (ns : list node) : Prop := forall i n n', ns !! i = Some n -> ns !! S i = Some n' -> edge_ok h n n'.
(** What a node has sent and has yet to send is what its process sends. *)
Definition node_ok (n : node) : Prop :=
  match nd_stat n with
  | Open => sends (nd_proc n) (nd_in n) (nd_st n) (nd_out n ++ nd_pend n)
  | Closing => sends_all (nd_proc n) (nd_in n) (nd_out n ++ nd_pend n)
  | Finished (Ok _) => nd_pend n = [] /\ sends_all (nd_proc n) (nd_in n) (nd_out n)
  | Finished (Err _) => exists o, nd_out n `prefix_of` o /\ ((exists s, sends (nd_proc n) (nd_in n) s o) \/ sends_all (nd_proc n) (nd_in n) o)
  end.
(** Until the hard context ends, a stage is done only when those before it are. *)
Definition closed_ok (h : bool) (ns : list node) : Prop :=
  h = false -> forall i n, ns !! i = Some n -> nd_stat n <> Open ->
    nd_buf n = [] /\ input_closed ns i /\ (forall r, nd_stat n = Finished r -> r = Ok tt).
Definition source_ok (produced : list Rec) (N : net) : Prop := forall n, nodes N !! 0%nat = Some n ->
  nd_in n `prefix_of` produced /\
  (hard N && is_finished n = false -> nd_in n ++ nd_buf n `prefix_of` produced /\ (ctx N = false -> nd_in n ++ nd_buf n = produced)).
Record net_inv (stages : list (Proc * nat)) (produced : list Rec) (N : net) : Prop := {
  ni_stages : (λ n, (nd_proc n, nd_cap n)) <$> nodes N = stages;
  ni_edges : edges_ok (hard N) (nodes N);
  ni_nodes : Forall node_ok (nodes N);
  ni_closed : closed_ok (hard N) (nodes N);
  ni_source : source_ok produced N;
  ni_caps : forall i n, nodes N !! S i = Some n -> (length (nd_buf n) <= nd_cap n)%nat;
}.

Lemma edge_ok_weaken h n n' : edge_ok h n n' -> edge_ok true n n'.
Proof. intros [H H']. split; [done|]. cbn. intros E. apply H'. rewrite E. apply andb_false_r. Qed.
Lemma edges_insert h h' ns i n0 n1 :
  edges_ok h ns -> ns !! i = Some n0 -> (h' = h \/ h' = true) ->
  (forall m, edge_ok h' m n0 -> edge_ok h' m n1) -> (forall m, edge_ok h' n0 m -> edge_ok h' n1 m) -> edges_ok h' (<[i := n1]> ns).
Proof.
  intros He Hi Hh H1 H2 j n n' Hj Hj'.
  assert (Hw : forall j n n', ns !! j = Some n -> ns !! S j = Some n' -> edge_ok h' n n').
  { intros j0 m m' Hm Hm'. specialize (He _ _ _ Hm Hm'). destruct Hh as [->| ->]; [done|by eapply edge_ok_weaken]. }
  destruct (decide (j = i)) as [->|Hne].
  - rewrite list_lookup_insert_eq in Hj by (by eapply lookup_lt_Some). injection Hj as <-. rewrite list_lookup_insert_ne in Hj' by lia. by apply H2, (Hw i).
  - rewrite list_lookup_insert_ne in Hj by done. destruct (decide (S j = i)) as [<-|Hne'].
    + rewrite list_lookup_insert_eq in Hj' by (by eapply lookup_lt_Some). injection Hj' as <-. by apply H1, (Hw j).
    + rewrite list_lookup_insert_ne in Hj' by done. by apply (Hw j).
Qed.
(** Finished nodes stay finished, so closed inputs stay closed. *)
Lemma closed_mono ns ns' i : (forall j n, ns !! j = Some n -> is_finished n = true -> exists n', ns' !! j = Some n' /\ is_finished n' = true) ->
  input_closed ns i -> input_closed ns' i.
Proof. intros H. destruct i as [|i]; [done|]. cbn. intros (n & Hn & Hf). eauto. Qed.
Lemma insert_keeps_finished (ns : list node) i n0 n1 : ns !! i = Some n0 -> (is_finished n0 = true -> is_finished n1 = true) ->
  forall j n, ns !! j = Some n -> is_finished n = true -> exists n', <[i := n1]> ns !! j = Some n' /\ is_finished n' = true.
Proof.
  intros Hi Hf j n Hj Hn. destruct (decide (j = i)) as [->|Hne].
  - exists n1. rewrite list_lookup_insert_eq by (by eapply lookup_lt_Some). split; [done|]. apply Hf. congruence.
  - exists n. by rewrite list_lookup_insert_ne.
Qed.
Lemma closed_insert h ns i n0 n1 : closed_ok h ns -> ns !! i = Some n0 -> (is_finished n0 = true -> is_finished n1 = true) ->
  (h = false -> nd_stat n1 <> Open -> nd_buf n1 = [] /\ input_closed ns i /\ (forall r, nd_stat n1 = Finished r -> r = Ok tt)) -> closed_ok h (<[i := n1]> ns).
Proof.
  intros Hc Hi Hf H1 Hh j n Hj Hst. pose proof (insert_keeps_finished ns i n0 n1 Hi Hf) as Hm. destruct (decide (j = i)) as [->|Hne].
  - rewrite list_lookup_insert_eq in Hj by (by eapply lookup_lt_Some). injection Hj as <-. destruct (H1 Hh Hst) as (? & ? & ?). split_and!; [done|by eapply closed_mono|done].
  - rewrite list_lookup_insert_ne in Hj by done. destruct (Hc Hh j n Hj Hst) as (? & ? & ?). split_and!; [done|by eapply closed_mono|done].
Qed.
Lemma closed_hard ns : closed_ok true ns.
Proof. done. Qed.

(** A step that replaces one node. *)
Lemma inv_insert stages produced N i n0 n1 h' :
  net_inv stages produced N -> nodes N !! i = Some n0 -> (h' = hard N \/ h' = true) -> is_finished n0 = false ->
  (nd_proc n1, nd_cap n1) = (nd_proc n0, nd_cap n0) -> node_ok n1 -> nd_out n1 = nd_out n0 ->
  nd_in n0 `prefix_of` nd_in n1 -> nd_in n1 `prefix_of` nd_in n0 ++ nd_buf n0 ->
  (h' && is_finished n1 = false -> nd_in n1 ++ nd_buf n1 = nd_in n0 ++ nd_buf n0) -> (length (nd_buf n1) <= length (nd_buf n0))%nat ->
  (h' = false -> nd_stat n1 <> Open -> nd_buf n1 = [] /\ input_closed (nodes N) i /\ (forall r, nd_stat n1 = Finished r -> r = Ok tt)) ->
  net_inv stages produced (mkNet (<[i := n1]> (nodes N)) (ctx N) h').
Proof.
  intros [Hs He Hn Hc Hso Hca] Hi Hh Hf Hpc Hok Hout Hin Hin' Heq Hlen Hcl.
  assert (Hx : h' && is_finished n0 = false) by (rewrite Hf; apply andb_false_r). split; cbn [nodes ctx hard].
  - rewrite list_fmap_insert, Hpc, list_insert_id; [done|]. by rewrite list_lookup_fmap, Hi.
  - eapply edges_insert; [done..| |].
    + intros m [E1 E2]. specialize (E2 Hx). split; [by rewrite E2|]. intros E. by rewrite Heq.
    + intros m. unfold edge_ok. by rewrite Hout.
  - by apply Forall_insert.
  - destruct Hh as [->| ->]; [|apply closed_hard]. eapply closed_insert; [done..|by rewrite Hf|done].
  - intros n Hn0. cbn [nodes] in Hn0. destruct i as [|i].
    + rewrite list_lookup_insert_eq in Hn0 by (by eapply lookup_lt_Some). injection Hn0 as <-. destruct (Hso _ Hi) as [S1 S2].
      destruct S2 as [S2 S3]; [by rewrite Hf, andb_false_r|]. split; [by etrans|]. cbn [hard ctx]. intros E. rewrite (Heq E). done.
    + rewrite list_lookup_insert_ne in Hn0 by done. destruct (Hso _ Hn0) as [S1 S2]. split; [done|]. cbn [hard ctx]. intros E. apply S2.
      destruct Hh as [->| ->]; [done|]. cbn in E. rewrite E. apply andb_false_r.
  - intros j n Hj. destruct (decide (S j = i)) as [<-|Hne].
    + rewrite list_lookup_insert_eq in Hj by (by eapply lookup_lt_Some). injection Hj as <-. specialize (Hca _ _ Hi). injection Hpc as _ ->. lia.
    + rewrite list_lookup_insert_ne in Hj by done. by apply (Hca j).
Qed.

Lemma node_ok_prefix n : node_ok n -> exists o, nd_out n `prefix_of` o /\ ((exists s, sends (nd_proc n) (nd_in n) s o) \/ sends_all (nd_proc n) (nd_in n) o).
Proof.
  unfold node_ok. destruct (nd_stat n) as [| |[]]; [intros H; exists (nd_out n ++ nd_pend n)..|intros [_ H]; exists (nd_out n)|done]; split; eauto using prefix_app_r.
Qed.
(** Giving up or failing keeps what was sent. *)
Lemma inv_ended stages produced N i n buf e h' :
  net_inv stages produced N -> nodes N !! i = Some n -> is_finished n = false -> h' = true -> (length buf <= length (nd_buf n))%nat ->
  net_inv stages produced (mkNet (<[i := ended (Err e) (with_buf buf n)]> (nodes N)) (ctx N) h').
Proof.
  intros Hinv Hi Hf -> Hb. eapply inv_insert; [done|done|by right|done|done| |done|done| | |done|done].
  - red. cbn. apply node_ok_prefix. pose proof (ni_nodes _ _ _ Hinv) as Hall. rewrite Forall_lookup in Hall. by eapply Hall.
  - cbn. by apply prefix_app_r.
  - done.
Qed.

Lemma inv_send stages produced N i n r :
  net_inv stages produced N -> nodes N !! i = Some n -> is_finished n = false -> head (nd_pend n) = Some r -> has_room (nodes N) i ->
  net_inv stages produced (mkNet (deliver i r n (nodes N)) (ctx N) (hard N)).
Proof.
  intros [Hs He Hn Hc Hso Hca] Hi Hf Hp Hroom. unfold deliver. set (ns1 := <[i := sent_one r n]> (nodes N)).
  assert (Hlt : (i < length (nodes N))%nat) by (by eapply lookup_lt_Some).
  assert (L1 : alter (put r) (S i) ns1 !! i = Some (sent_one r n)) by (rewrite list_lookup_alter_ne by lia; by apply list_lookup_insert_eq).
  assert (L2 : alter (put r) (S i) ns1 !! S i = put r <$> nodes N !! S i).
  { rewrite list_lookup_alter_eq. subst ns1. by rewrite list_lookup_insert_ne by lia. }
  assert (L3 : forall j, j <> i -> j <> S i -> alter (put r) (S i) ns1 !! j = nodes N !! j).
  { intros j H1 H2. rewrite list_lookup_alter_ne by done. subst ns1. by rewrite list_lookup_insert_ne by done. }
  assert (Hfin : forall j m, nodes N !! j = Some m -> is_finished m = true -> exists m', alter (put r) (S i) ns1 !! j = Some m' /\ is_finished m' = true).
  { intros j m Hj Hm. destruct (decide (j = i)) as [->|]; [congruence|]. destruct (decide (j = S i)) as [->|]; [|rewrite L3 by done; eauto].
    rewrite L2, Hj. cbn. eauto. }
  split; cbn [nodes ctx hard].
  - rewrite <- Hs. apply list_eq. intros j. rewrite !list_lookup_fmap. destruct (decide (j = i)) as [->|]; [by rewrite L1, Hi|].
    destruct (decide (j = S i)) as [->|]; [rewrite L2; by destruct (nodes N !! S i)|by rewrite L3].
  - intros j m m' Hj Hj'. destruct (decide (j = i)) as [->|H1].
    + rewrite L1 in Hj. injection Hj as <-. rewrite L2 in Hj'. apply fmap_Some in Hj' as (m0 & Hm0 & ->).
      destruct (He _ _ _ Hi Hm0) as [E1 E2]. split; cbn; [by apply prefix_app_r|]. intros E. rewrite E2 by done. by rewrite app_assoc.
    + destruct (decide (S j = i)) as [<-|H2].
      * rewrite L3 in Hj by lia. rewrite L1 in Hj'. injection Hj' as <-. destruct (He _ _ _ Hj Hi). by split.
      * destruct (decide (j = S i)) as [->|H3].
        -- rewrite L2 in Hj. apply fmap_Some in Hj as (m0 & Hm0 & ->). rewrite L3 in Hj' by lia. destruct (He _ _ _ Hm0 Hj'). by split.
        -- rewrite L3 in Hj by lia. rewrite L3 in Hj' by lia. by apply (He j).
  - apply Forall_lookup. rewrite Forall_lookup in Hn. intros j m Hj. destruct (decide (j = i)) as [->|H1].
    + rewrite L1 in Hj. injection Hj as <-. specialize (Hn _ _ Hi). unfold node_ok, is_finished in *. cbn.
      rewrite (head_tail _ _ Hp) in Hn. destruct (nd_stat n); [..|done]; by rewrite <- app_assoc.
    + destruct (decide (j = S i)) as [->|H2]; [|rewrite L3 in Hj by done; by apply (Hn j)].
      rewrite L2 in Hj. apply fmap_Some in Hj as (m0 & Hm0 & ->). exact (Hn _ _ Hm0).
  - intros Hh j m Hj Hst. destruct (decide (j = i)) as [->|H1].
    + rewrite L1 in Hj. injection Hj as <-. destruct (Hc Hh _ _ Hi Hst) as (? & ? & ?). split_and!; [done|by eapply closed_mono|done].
    + destruct (decide (j = S i)) as [->|H2].
      * rewrite L2 in Hj. apply fmap_Some in Hj as (m0 & Hm0 & ->). destruct (Hc Hh _ _ Hm0 Hst) as (_ & (m' & Hm' & Hf') & _). congruence.
      * rewrite L3 in Hj by done. destruct (Hc Hh _ _ Hj Hst) as (? & ? & ?). split_and!; [done|by eapply closed_mono|done].
  - intros m Hm. cbn [nodes] in Hm. destruct i as [|i]; [|rewrite L3 in Hm by lia; by apply Hso]. rewrite L1 in Hm. injection Hm as <-. exact (Hso _ Hi).
  - intros j m Hj. destruct (decide (S j = i)) as [<-|H1]; [rewrite L1 in Hj; injection Hj as <-; exact (Hca j n Hi)|].
    destruct (decide (j = i)) as [->|H2]; [|rewrite L3 in Hj by lia; by apply (Hca j)].
    rewrite L2 in Hj. apply fmap_Some in Hj as (m0 & Hm0 & ->). cbn. rewrite length_app. cbn. specialize (Hroom _ Hm0). lia.
Qed.

Lemma inv_cancel stages produced N k : net_inv stages produced N -> net_inv stages produced (mkNet (alter (keep_input k) 0%nat (nodes N)) true (hard N)).
Proof.
  intros [Hs He Hn Hc Hso Hca]. destruct N as [[|n ns] cx hd]; [by split|]. cbn [nodes ctx hard] in *. change (alter (keep_input k) 0%nat (n :: ns)) with (keep_input k n :: ns).
  split; cbn [nodes ctx hard].
  - exact Hs.
  - intros [|j] m m' Hj Hj'; [|by apply (He (S j))]. injection Hj as <-. exact (He 0%nat _ _ eq_refl Hj').
  - inversion Hn; subst. by constructor.
  - intros Hh [|j] m Hj Hst.
    + injection Hj as <-. destruct (Hc Hh 0%nat n eq_refl Hst) as (E & ? & ?). split_and!; [cbn; by rewrite E, take_nil|done|done].
    + destruct (Hc Hh (S j) m Hj Hst) as (? & (m' & Hm' & ?) & ?). split_and!; [done| |done]. destruct j as [|j]; [|by exists m'].
      injection Hm' as <-. by exists (keep_input k n).
  - intros m [= <-]. destruct (Hso n eq_refl) as [S1 S2]. split; [done|]. cbn. intros E. split; [|done]. destruct (S2 E) as [S3 _].
    etrans; [|exact S3]. apply prefix_app. eexists. by rewrite take_drop.
  - intros j m Hj. by apply (Hca j).
Qed.
Lemma inv_hard stages produced N : net_inv stages produced N -> net_inv stages produced (mkNet (nodes N) (ctx N) true).
Proof.
  intros [Hs He Hn Hc Hso Hca]. split; cbn [nodes ctx hard]; try done.
  - intros j m m' Hj Hj'. eapply edge_ok_weaken. by apply (He j).
  - intros m Hm. destruct (Hso _ Hm) as [S1 S2]. split; [done|]. cbn. intros E. apply S2. rewrite E. apply andb_false_r.
Qed.
Lemma open_not_finished n : nd_stat n = Open -> is_finished n = false.
Proof. unfold is_finished. by intros ->. Qed.
(** All stages take their input to the end. *)
Definition all_stay (stages : list (Proc * nat)) : Prop := Forall (λ s, stays s.1) stages.
Lemma inv_step stages produced N N' : all_stay stages -> net_inv stages produced N -> net_step N N' -> net_inv stages produced N'.
Proof.
  intros Hstay Hinv Hstep. pose proof (ni_nodes _ _ _ Hinv) as Hall. rewrite Forall_lookup in Hall.
  destruct Hstep as [i n r s o Hn Hst Hp Hb Ho|i n r s e Hn Hst Hp Hb _|i n s o Hn Hst Hp Hb Hc Ho|i n s e Hn Hst Hp Hb Hc _|i n s o Hn Hst Hp Hl|i n r Hn Hf Hp Hr|i n Hn Hst Hp|i n Hn Hf Hh|k Hc|Hc Hh].
  - specialize (Hall _ _ Hn). unfold node_ok in Hall. rewrite Hst, Hp, app_nil_r in Hall. pose proof (head_tail _ _ Hb) as Eb.
    eapply inv_insert; [done|done|by left|by apply open_not_finished|done| |done| | | | |done].
    + red. cbn. by econstructor.
    + cbn. by apply prefix_app_r.
    + cbn. rewrite Eb at 1. apply prefix_app. exists (tail (nd_buf n)). done.
    + cbn. intros _. rewrite Eb at 2. by rewrite <- app_assoc.
    + cbn. rewrite (head_length _ _ Hb). lia.
  - apply inv_ended; [done|done|by apply open_not_finished|done|]. rewrite (head_length _ _ Hb). lia.
  - specialize (Hall _ _ Hn). unfold node_ok in Hall. rewrite Hst, Hp, app_nil_r in Hall.
    eapply inv_insert; [done|done|by left|by apply open_not_finished|done| |done|done|by apply prefix_app_r|done|done|].
    + red. cbn. unfold sends_all. eauto 10.
    + intros _ _. by split_and!.
  - apply (inv_ended _ _ _ _ _ (nd_buf n)); [done|done|by apply open_not_finished|done|done].
  - exfalso. unfold all_stay in Hstay. rewrite <- (ni_stages _ _ _ Hinv) in Hstay. rewrite Forall_fmap, Forall_lookup in Hstay.
    exact (Hstay _ _ Hn _ _ _ Hl).
  - by apply inv_send.
  - specialize (Hall _ _ Hn). unfold node_ok in Hall. rewrite Hst, Hp, app_nil_r in Hall.
    eapply inv_insert; [done|done|by left|unfold is_finished; by rewrite Hst|done| |done|done|by apply prefix_app_r|done|done|].
    + red. cbn. by rewrite Hp.
    + intros Hh _. destruct (ni_closed _ _ _ Hinv Hh i n Hn) as (? & ? & _); [by rewrite Hst|]. split_and!; [done..|by intros r [= <-]].
  - apply (inv_ended _ _ _ _ _ (nd_buf n)); [done..|lia].
  - by apply inv_cancel.
  - by apply inv_hard.
Qed.
Lemma fresh_lookup (stages : list (Proc * nat)) j n : ((λ s, fresh_node s.1 s.2 []) <$> stages) !! j = Some n -> exists P c, n = fresh_node P c [].
Proof. rewrite list_lookup_fmap. intros ([P c] & _ & ->)%fmap_Some. eauto. Qed.
Lemma inv_launch stages produced : net_inv stages produced (net_launch stages produced).
Proof.
  destruct stages as [|[P c] stages]; [by split|]. split; cbn [net_launch nodes ctx hard].
  - cbn. f_equal. rewrite <- list_fmap_compose. rewrite <- (list_fmap_id stages) at 2. apply list_fmap_ext. by intros _ [] _.
  - intros [|j] m m' Hj Hj'; apply fresh_lookup in Hj' as (P' & c' & ->); [injection Hj as <-; by split|].
    apply fresh_lookup in Hj as (? & ? & ->). by split.
  - constructor; [apply sends_nil|]. apply Forall_lookup. intros j n (P' & c' & ->)%fresh_lookup. apply sends_nil.
  - intros _ [|j] n Hj Hst; [by injection Hj as <-|]. apply fresh_lookup in Hj as (? & ? & ->). done.
  - intros n [= <-]. cbn. split; [by exists produced|done].
  - intros j n Hj. apply fresh_lookup in Hj as (? & ? & ->). cbn. lia.
Qed.
Lemma inv_reach stages produced N : all_stay stages -> net_reach stages produced N -> net_inv stages produced N.
Proof. intros Hs. induction 1; [apply inv_launch|by eapply inv_step]. Qed.

(** ** No run gets stuck *)

Lemma process_step N i n r : nodes N !! i = Some n -> nd_stat n = Open -> nd_pend n = [] -> head (nd_buf n) = Some r -> exists N', net_step N N'.
Proof.
  intros Hn Hst Hp Hb. destruct (on_rec_total (nd_proc n) (nd_st n) r) as (s & [o|e] & Ho); eexists; [by eapply Take|by eapply TakeFails].
Qed.
(** A stage that has something to send can send it, or a stage after it can go on. *)
Lemma pending_steps stages produced N k : Forall (λ s : Proc * nat, (0 < s.2)%nat) stages -> net_inv stages produced N -> hard N = false ->
  forall i n, (length (nodes N) - i <= k)%nat -> nodes N !! i = Some n -> is_finished n = false -> nd_pend n <> [] -> exists N', net_step N N'.
Proof.
  intros Hcap Hinv Hh. induction k as [|k IH]; intros i n Hk Hn Hf Hp; [apply lookup_lt_Some in Hn; lia|].
  destruct (nd_pend n) as [|r p] eqn:Ep; [done|]. assert (Hr : head (nd_pend n) = Some r) by (by rewrite Ep).
  destruct (nodes N !! S i) as [n'|] eqn:En'; [|eexists; apply (Send N i n r Hn Hf Hr); intros m Hm; congruence].
  destruct (decide (length (nd_buf n') < nd_cap n')%nat) as [Hl|Hl]; [eexists; apply (Send N i n r Hn Hf Hr); intros m Hm; congruence|].
  assert (Hc' : (0 < nd_cap n')%nat).
  { rewrite <- (ni_stages _ _ _ Hinv) in Hcap. rewrite Forall_fmap, Forall_lookup in Hcap. exact (Hcap _ _ En'). }
  destruct (nd_buf n') as [|r' buf] eqn:Eb; [cbn in Hl; lia|].
  destruct (nd_stat n') eqn:Est.
  2,3: destruct (ni_closed _ _ _ Hinv Hh (S i) n' En') as (E & _); [by rewrite Est|congruence].
  destruct (nd_pend n') as [|r2 p2] eqn:Ep'.
  - eapply (process_step N (S i) n' r'); [done..|by rewrite Eb].
  - apply (IH (S i) n'); [lia|done|by apply open_not_finished|by rewrite Ep'].
Qed.
Lemma first_open (ns : list node) : Forall (λ n, is_finished n = true) ns \/
  exists j n, ns !! j = Some n /\ is_finished n = false /\ input_closed ns j.
Proof.
  induction ns as [|n ns [IH|(j & m & Hm & Hf & Hc)]]; [by left|..].
  - destruct (is_finished n) eqn:E; [left; by constructor|]. right. by exists 0%nat, n.
  - right. destruct (is_finished n) eqn:E; [|by exists 0%nat, n]. exists (S j), m. split_and!; [done..|]. destruct j as [|j]; [by exists n|exact Hc].
Qed.
Lemma net_progress stages produced N : Forall (λ s : Proc * nat, (0 < s.2)%nat) stages -> net_inv stages produced N ->
  Forall (λ n, is_finished n = true) (nodes N) \/ exists N', net_step N N'.
Proof.
  intros Hcap Hinv. destruct (first_open (nodes N)) as [H|(j & n & Hn & Hf & Hc)]; [by left|]. right.
  destruct (hard N) eqn:Hh; [eexists; by eapply GiveUp|].
  destruct (nd_pend n) as [|r p] eqn:Ep; [|eapply (pending_steps _ _ _ _ Hcap Hinv Hh j n (le_n _)); by rewrite ?Ep].
  destruct (nd_stat n) eqn:Est.
  - destruct (nd_buf n) as [|r buf] eqn:Eb; [|eapply (process_step N j n r); [done..|by rewrite Eb]].
    destruct (on_close_total (nd_proc n) (nd_st n)) as (s & [o|e] & Ho); eexists; [by eapply SeeClose|by eapply CloseFails].
  - eexists. by eapply Finish.
  - unfold is_finished in Hf. by rewrite Est in Hf.
Qed.

(** ** What a completed run has done *)

Lemma chain_sends ns n0 : (forall i n n', ns !! i = Some n -> ns !! S i = Some n' -> nd_out n = nd_in n') ->
  Forall (λ n, sends_all (nd_proc n) (nd_in n) (nd_out n)) ns -> head ns = Some n0 ->
  exists nl, last ns = Some nl /\ pipeline_sends (nd_proc <$> ns) (nd_in n0) (nd_out nl).
Proof.
  revert n0. induction ns as [|n ns IH]; intros n0 He Hall Hh; [done|]. injection Hh as <-. inversion Hall as [|? ? H1 H2]; subst.
  destruct ns as [|n' ns]; [exists n; split; [done|]; by exists (nd_out n)|].
  destruct (IH n' (λ i, He (S i)) H2 eq_refl) as (nl & Hl & Hp). exists nl. split; [by rewrite last_cons_cons|].
  exists (nd_out n). split; [done|]. by rewrite (He 0%nat n n' eq_refl eq_refl).
Qed.

(** From one stage to a later one. *)
Lemma chain_between ns A M P C ni : (forall i n n', ns !! i = Some n -> ns !! S i = Some n' -> nd_out n = nd_in n') ->
  Forall (λ n, sends_all (nd_proc n) (nd_in n) (nd_out n)) ns -> nd_proc <$> ns = A ++ M ++ P :: C -> ns !! length A = Some ni ->
  exists nj, ns !! (length A + length M)%nat = Some nj /\ pipeline_sends M (nd_in ni) (nd_in nj) /\ sends_all P (nd_in nj) (nd_out nj).
Proof.
  intros He Hall. rewrite Forall_lookup in Hall. revert A ni. induction M as [|Q M IH]; intros A ni Hp Hi.
  - exists ni. rewrite Nat.add_0_r. split_and!; [done|done|]. assert (E : nd_proc ni = P).
    { assert (H : (nd_proc <$> ns) !! length A = Some P) by (rewrite Hp, lookup_app_r, Nat.sub_diag; done). rewrite list_lookup_fmap, Hi in H. by injection H. }
    rewrite <- E. by apply (Hall (length A)).
  - assert (E : nd_proc ni = Q).
    { assert (H : (nd_proc <$> ns) !! length A = Some Q) by (rewrite Hp, lookup_app_r, Nat.sub_diag; done). rewrite list_lookup_fmap, Hi in H. by injection H. }
    destruct (ns !! S (length A)) as [n'|] eqn:En.
    2: { apply lookup_ge_None in En. assert (length (nd_proc <$> ns) = length ns) as Hl by apply length_fmap.
         rewrite Hp in Hl. rewrite length_app in Hl. cbn in Hl. rewrite length_app in Hl. cbn in Hl. lia. }
    destruct (IH (A ++ [Q]) n') as (nj & Hj & Hm & Hs); [by rewrite <- app_assoc|by rewrite length_app, Nat.add_1_r|].
    exists nj. split_and!; [|exists (nd_out ni)|done].
    + rewrite <- Hj, length_app. f_equal. cbn. lia.
    + rewrite <- E. split; [by apply (Hall (length A))|]. by rewrite (He _ _ _ Hi En).
Qed.

(** Every stage of a completed run made what its process makes of its input,
    and nothing was left on the edges. *)
Lemma completed_chain stages produced N : all_stay stages -> net_reach stages produced N ->
  Forall (λ n, is_finished n = true) (nodes N) -> hard N = false ->
  (forall i n n', nodes N !! i = Some n -> nodes N !! S i = Some n' -> nd_out n = nd_in n') /\
  Forall (λ n, sends_all (nd_proc n) (nd_in n) (nd_out n)) (nodes N) /\ nd_proc <$> nodes N = stages.*1 /\
  (forall n, nodes N !! 0%nat = Some n -> nd_in n `prefix_of` produced /\ (ctx N = false -> nd_in n = produced)).
Proof.
  intros Hst Hr Hf Hh. pose proof (inv_reach _ _ _ Hst Hr) as Hinv. pose proof Hinv as [Hs He Hn Hc Hso _].
  rewrite Forall_lookup in Hf, Hn.
  assert (Hdone : forall i n, nodes N !! i = Some n -> nd_buf n = [] /\ sends_all (nd_proc n) (nd_in n) (nd_out n)).
  { intros i n Hi. pose proof (Hf _ _ Hi) as Hfi. pose proof (Hn _ _ Hi) as Hni. unfold is_finished, node_ok in *. destruct (nd_stat n) as [| |r] eqn:Est; [done..|].
    destruct (Hc Hh i n Hi) as (Hb & _ & Hok); [by rewrite Est|]. rewrite (Hok r Est) in Hni. split; [done|apply Hni]. }
  split_and!.
  - intros i n n' Hi Hi'. destruct (He _ _ _ Hi Hi') as [_ E]. rewrite E by (by rewrite Hh). by rewrite (proj1 (Hdone _ _ Hi')), app_nil_r.
  - apply Forall_lookup. intros i n Hi. apply (Hdone _ _ Hi).
  - rewrite <- Hs, <- list_fmap_compose. done.
  - intros n H0. destruct (Hso _ H0) as [S1 S2]. destruct S2 as [_ S3]; [by rewrite Hh|]. split; [done|].
    intros Hx. specialize (S3 Hx). by rewrite (proj1 (Hdone _ _ H0)), app_nil_r in S3.
Qed.

Lemma completed_sends stages produced N : all_stay stages -> net_reach stages produced N ->
  Forall (λ n, is_finished n = true) (nodes N) -> hard N = false -> stages <> [] -> exists inp out,
    inp `prefix_of` produced /\ (ctx N = false -> inp = produced) /\ nd_out <$> last (nodes N) = Some out /\ pipeline_sends stages.*1 inp out.
Proof.
  intros Hst Hr Hf Hh Hne. destruct (completed_chain _ _ _ Hst Hr Hf Hh) as (He & Hall & Hs & H0).
  destruct (nodes N) as [|n0 ns] eqn:En; [destruct stages; [done|by inversion Hs]|].
  destruct (chain_sends (n0 :: ns) n0 He Hall eq_refl) as (nl & Hl & Hp). rewrite Hs in Hp.
  destruct (H0 n0 eq_refl) as [Hpre Heq]. exists (nd_in n0), (nd_out nl). by rewrite Hl.
Qed.

(** C11: the stages of a plan run to completion over their bounded edges.  For
    any plan, any edges with room for a record, any interleaving of the stages,
    any failures and a cancellation at any time: only finitely many steps
    follow; and provided every stage takes its input to the end unless it fails,
    some step is possible until every stage has returned, and when all have
    returned without the hard context ending, the last stage has sent exactly
    what the stages in sequence make of what the source produced, all of it
    unless the run was cancelled.  [early_leaver_blocks] shows the stall that a
    stage which leaves early causes. *)
Theorem execution_completes (stages : list (Proc * nat)) (produced : list Rec) (N : net) :
  Forall (λ s, (0 < s.2)%nat) stages -> net_reach stages produced N ->
  Acc (flip net_step) N /\
  (Forall (λ s, stays s.1) stages ->
   (Forall (λ n, is_finished n = true) (nodes N) \/ exists N', net_step N N') /\
   (Forall (λ n, is_finished n = true) (nodes N) -> hard N = false -> stages <> [] -> exists inp out,
      inp `prefix_of` produced /\ (ctx N = false -> inp = produced) /\
      nd_out <$> last (nodes N) = Some out /\ pipeline_sends stages.*1 inp out)).
Proof.
  intros Hcap Hr. split; [apply steps_end|]. intros Hst. pose proof (inv_reach _ _ _ Hst Hr) as Hinv.
  split; [by eapply net_progress|by apply completed_sends].
Qed.

(** A forced shutdown loses records but invents and reorders none: what a stage
    took is a prefix of what the one before it sent, what it sent is a prefix of
    what its process sends for that, and no edge holds more than its capacity. *)
Theorem forced_shutdown_keeps_order (stages : list (Proc * nat)) (produced : list Rec) (N : net) :
  Forall (λ s, stays s.1) stages -> net_reach stages produced N -> forall i n, nodes N !! i = Some n ->
  (exists o, nd_out n `prefix_of` o /\ ((exists s, sends (nd_proc n) (nd_in n) s o) \/ sends_all (nd_proc n) (nd_in n) o)) /\
  (i = 0%nat -> nd_in n `prefix_of` produced) /\
  (forall n', nodes N !! S i = Some n' -> nd_in n' `prefix_of` nd_out n /\ (length (nd_buf n') <= nd_cap n')%nat).
Proof.
  intros Hst Hr i n Hi. destruct (inv_reach _ _ _ Hst Hr) as [_ He Hn _ Hso Hca]. rewrite Forall_lookup in Hn. split_and!.
  - by eapply node_ok_prefix, Hn.
  - intros ->. by destruct (Hso _ Hi).
  - intros n' Hn'. split; [by destruct (He _ _ _ Hi Hn')|by apply (Hca i)].
Qed.

(** ** The processes of a checkpointed pipeline *)

(** The source stage and the barrier detector pass records on. *)
Definition forwardProc : Proc.
Proof. refine (mkProc unit tt (λ _ r _ o, o = Ok [r]) (λ _ _ o, o = Ok []) _ _); eauto. Defined.

(** The sink stage hands records to the sink's [Write], markers dropped:
    watermarks always, barriers unless the sink is a CheckpointedSink.  [early]:
    [Write] may return nil before its input ends, and the stage leaves. *)
Definition sinkProc (checkpointed early : bool) : Proc.
Proof.
  refine (mkProcLeaving unit tt (λ _ r _ o, o = Ok (if passes checkpointed r then [r] else [])) (λ _ _ o, o = Ok [])
            (λ _ _ o, early = true /\ o = []) _ _); eauto.
Defined.
Lemma sink_stays checkpointed : stays (sinkProc checkpointed false).
Proof. by intros s s' o [? _]. Qed.

(** The injector: ticks and the end of the run context come in at any time
    between records. *)
Definition idle_event (e : injEvent) : bool := match e with InjTick | InjCancel => true | _ => false end.
Definition inj_moves (nonce : Z) (s : injState) (last : injEvent) (s' : injState) (o : result (list Rec)) : Prop :=
  exists evs sent, forallb idle_event evs = true /\ s' = foldl (inj_step nonce) s (evs ++ [last]) /\
    inj_out s' = inj_out s ++ sent /\ o = Ok sent.
Lemma inj_total nonce s last : exists s' o, inj_moves nonce s last s' o.
Proof.
  assert (H : exists sent, inj_out (inj_step nonce s last) = inj_out s ++ sent).
  { unfold inj_step. destruct (mode s), last as [| | | |[]]; cbn; eauto; exists []; by rewrite app_nil_r. }
  destruct H as [sent H]. exists (inj_step nonce s last), (Ok sent), [], sent. done.
Qed.
Definition injectProc (nonce : Z) : Proc :=
  mkProc injState inj_init (λ s r, inj_moves nonce s (InjRecord r)) (λ s, inj_moves nonce s InjClosed)
    (λ s r, inj_total nonce s (InjRecord r)) (λ s, inj_total nonce s InjClosed).

(** A stateless stage with one worker: its two buffers and the dead letters. *)
Definition worker_step (sps : list SingleProcessor) (s : list Rec * list Rec * dlq) (r : Rec) : (list Rec * list Rec * dlq) * result (list Rec) :=
  if is_marker r then (s, Ok [r])
  else match chain_loop sps (take 0 s.1.1 ++ [r]) s.1.2 s.2 with
       | Ok (cur, alt, q) => ((cur, alt, q), Ok cur)
       | Err e => (s, Err ("stage: operator panicked: " +:+ e))
       end.
Definition workerProc (sps : list SingleProcessor) : Proc.
Proof.
  refine (mkProc (list Rec * list Rec * dlq) ([], [], []) (λ s r s' o, worker_step sps s r = (s', o)) (λ s s' o, s' = s /\ o = Ok []) _ _).
  - intros s r. destruct (worker_step sps s r). eauto.
  - eauto.
Defined.

Lemma forward_all h o : sends_all forwardProc h o -> o = h.
Proof.
  intros (s & s' & o1 & o2 & Hs & Hc & ->). cbn in Hc. injection Hc as ->. rewrite app_nil_r.
  induction Hs as [|h s o1 r s1 o' _ IH Ho]; [done|]. cbn in Ho. injection Ho as ->. by rewrite IH.
Qed.
Definition ev_record (e : injEvent) : option Rec := match e with InjRecord r => Some r | _ => None end.
Lemma idle_records evs : forallb idle_event evs = true -> omap ev_record evs = [].
Proof. induction evs as [|[] evs IH]; cbn; try done. Qed.
(** [o] is what the injector makes of the records [h] in a run to the end:
    ticks and at most a cancellation among the records, then the close. *)
Definition injected (nonce : Z) (h o : list Rec) : Prop := exists evs,
  forallb (λ e, idle_event e || match e with InjRecord _ => true | _ => false end) evs = true /\
  omap ev_record evs = h /\ o = inj_out (injectBarriers nonce (evs ++ [InjClosed])).
Lemma idle_before evs : forallb idle_event evs = true ->
  forallb (λ e, idle_event e || match e with InjRecord _ => true | _ => false end) evs = true.
Proof. induction evs as [|e evs IH]; [done|]. cbn. intros [-> H]%andb_prop. cbn. by apply IH. Qed.
Lemma inject_all nonce h o : sends_all (injectProc nonce) h o -> injected nonce h o.
Proof.
  intros (s & s' & o1 & o2 & Hs & Hc & ->).
  assert (H : exists evs, s = foldl (inj_step nonce) inj_init evs /\ o1 = inj_out s /\ omap ev_record evs = h /\
    forallb (λ e, idle_event e || match e with InjRecord _ => true | _ => false end) evs = true).
  { clear Hc. induction Hs as [|h s o1 r s1 o' _ IH Ho]; [by exists []|]. destruct (IH) as (evs & -> & -> & <- & Hl).
    destruct Ho as (evs' & sent & Hi & -> & Hout & [= ->]). exists (evs ++ evs' ++ [InjRecord r]). rewrite (foldl_app _ evs).
    split_and!; [done|by rewrite Hout|by rewrite !omap_app, (idle_records _ Hi)|].
    rewrite !forallb_app, Hl, (idle_before _ Hi). done. }
  destruct H as (evs & -> & -> & <- & Hl). destruct Hc as (evs' & sent & Hi & -> & Hout & [= ->]).
  exists (evs ++ evs'). split_and!.
  - by rewrite forallb_app, Hl, (idle_before _ Hi).
  - by rewrite omap_app, (idle_records _ Hi), app_nil_r.
  - rewrite <- app_assoc. unfold injectBarriers. rewrite (foldl_app _ evs). by rewrite Hout.
Qed.
(** So every record is passed on, in order, and nothing else but barriers. *)
Lemma injected_passes nonce h o : Forall (λ r, IsBarrier r = false) h -> injected nonce h o -> passed_on o = h.
Proof.
  intros Hb (evs & Hl & <- & ->). unfold injectBarriers. rewrite foldl_app. cbn [foldl].
  assert (G : mode (foldl (inj_step nonce) inj_init evs) <> Stopped /\
              passed_on (inj_out (foldl (inj_step nonce) inj_init evs)) = omap ev_record evs).
  { induction evs as [|e evs IH] using rev_ind; [done|]. rewrite forallb_app in Hl. apply andb_prop in Hl as [Hl He].
    rewrite omap_app, Forall_app in Hb. destruct Hb as [Hb Hr]. destruct (IH Hb Hl) as [M P].
    rewrite foldl_app, omap_app, <- P. cbn [foldl]. set (s := foldl (inj_step nonce) inj_init evs) in *. unfold inj_step.
    destruct e as [r| | | |e]; [|cbn in He; try discriminate He..]; destruct (mode s) eqn:Em; try done; cbn;
      rewrite ?Em, ?passed_on_snoc; cbn; rewrite ?app_nil_r; try (by split).
    all: inversion Hr as [|? ? Hr0]; subst; by rewrite Hr0. }
  destruct G as [M P]. rewrite <- P. unfold inj_step. destruct (mode _); [|done|done]. cbn [inj_out inj_barrier].
  rewrite passed_on_snoc. cbn. by rewrite app_nil_r.
Qed.
Lemma sink_all checkpointed early h o : sends_all (sinkProc checkpointed early) h o -> o = List.filter (passes checkpointed) h.
Proof.
  intros (s & s' & o1 & o2 & Hs & Hc & ->). cbn in Hc. injection Hc as ->. rewrite app_nil_r.
  induction Hs as [|h s o1 r s1 o' _ IH Ho]; [done|]. cbn in Ho. injection Ho as ->. rewrite List.filter_app, IH. cbn.
  by destruct (passes checkpointed r).
Qed.
Lemma worker_all sps h o : sends_all (workerProc sps) h o -> o = h ≫= stage_spec sps.
Proof.
  intros (s & s' & o1 & o2 & Hs & [_ [= ->]] & ->). rewrite app_nil_r.
  induction Hs as [|h s o1 r s1 o' _ IH Ho]; [done|]. rewrite bind_app, IH. f_equal. cbn in Ho. rewrite bind_cons. cbn [mbind list_bind]. rewrite app_nil_r.
  unfold worker_step in Ho. unfold stage_spec. destruct (is_marker r); [by injection Ho as _ <-|].
  destruct (chain_loop sps _ _ _) as [[[cur alt] q]|e] eqn:E; [|done]. injection Ho as _ <-. apply chain_loop_spec in E. by rewrite take_0 in E.
Qed.

(** A wiring of processes that stay. *)
Lemma wire_stays ck co inject detect cap src mid snk :
  stays inject -> stays detect -> stays src -> Forall stays mid -> stays snk -> all_stay (wire ck co inject detect cap src mid snk).
Proof.
  intros Hi Hd Hs Hm Hk. unfold all_stay, wire. repeat apply Forall_app_2.
  - by repeat constructor.
  - destruct ck; by repeat constructor.
  - destruct mid as [|P mid]; [constructor|]. apply Forall_cons in Hm as [HP Hm]. constructor; [done|]. by rewrite Forall_fmap.
  - destruct co; by repeat constructor.
Qed.
Lemma forward_stays : stays forwardProc.
Proof. apply mkProc_stays. Qed.
Lemma inject_stays nonce : stays (injectProc nonce).
Proof. apply mkProc_stays. Qed.
Lemma worker_stays sps : stays (workerProc sps).
Proof. apply mkProc_stays. Qed.
Create HintDb stays.
#[export] Hint Resolve forward_stays inject_stays worker_stays sink_stays mkProc_stays wire_stays : stays.

(** A checkpointed pipeline of stateless operators, wired as [Execute] wires it:
    what a completed run hands to the sink is the operators' output over the
    source's records with the injector's barriers among them, less the markers
    the sink stage drops. *)
Theorem checkpointed_pipeline nonce sps cap checkpointed produced N :
  (0 < cap)%nat ->
  net_reach (wire true false (injectProc nonce) forwardProc cap forwardProc [workerProc sps] (sinkProc checkpointed false)) produced N ->
  Forall (λ n, is_finished n = true) (nodes N) -> hard N = false -> ctx N = false ->
  exists fed, injected nonce produced fed /\
    nd_out <$> last (nodes N) = Some (List.filter (passes checkpointed) (fed ≫= stage_spec sps)).
Proof.
  intros Hcap Hr Hf Hh Hc.
  eapply completed_sends in Hr as (inp & out & _ & Hi & Ho & Hp); [|by auto with stays|done|done|done].
  rewrite (Hi Hc) in Hp. cbn in Hp.
  destruct Hp as (m1 & H1 & m2 & H2 & m3 & H3 & m4 & H4 & ->). apply forward_all in H1 as ->. apply sink_all in H4 as ->.
  apply worker_all in H3 as ->. apply inject_all in H2. by exists m2.
Qed.

(** ** A complete run *)

Definition twoStages : list (Proc * nat) := [(forwardProc, 1%nat); (forwardProc, 1%nat)].
Definition oneRecord : list Rec := [NewRecord 1 None None].
Definition fwdNode (buf inp out : list Rec) : node := mkNode forwardProc 1 tt buf inp [] out Open.
Ltac go H tac :=
  match type of H with net_reach _ _ ?N =>
    let Hs := fresh in eassert (net_step N _) as Hs; [tac|apply (Stepped _ _ _ _ H) in Hs; clear H; rename Hs into H; cbn in H]
  end.
Lemma two_stages_complete : exists N, net_reach twoStages oneRecord N /\ Forall (λ n, is_finished n = true) (nodes N) /\ hard N = false /\ ctx N = false.
Proof.
  set (r := NewRecord 1 None None). pose proof (Launched twoStages oneRecord) as H.
  go H ltac:(apply (Take _ 0%nat (fwdNode [r] [] []) r tt [r]); reflexivity).
  go H ltac:(eapply (Send _ 0%nat _ r); [reflexivity..|intros n [= <-]; cbn; lia]).
  go H ltac:(apply (SeeClose _ 0%nat (fwdNode [] [r] [r]) tt []); first [reflexivity|exact I]).
  go H ltac:(eapply (Finish _ 0%nat); reflexivity).
  go H ltac:(apply (Take _ 1%nat (fwdNode [r] [] []) r tt [r]); reflexivity).
  go H ltac:(eapply (Send _ 1%nat _ r); [reflexivity..|intros n [=]]).
  go H ltac:(apply (SeeClose _ 1%nat (fwdNode [] [r] [r]) tt []); first [reflexivity|eexists; split; reflexivity]).
  go H ltac:(eapply (Finish _ 1%nat); reflexivity).
  eexists. split; [exact H|]. split; [repeat constructor|]. split; reflexivity.
Qed.
Lemma execution_completes_witness :
  exists N, net_reach twoStages oneRecord N /\ Acc (flip net_step) N /\ nd_out <$> last (nodes N) = Some oneRecord.
Proof.
  destruct two_stages_complete as (N & Hr & Hf & Hh & Hc). exists N. split; [exact Hr|].
  destruct (execution_completes twoStages oneRecord N) as (HA & HB); [repeat constructor|exact Hr|]. split; [exact HA|].
  destruct HB as [_ HS]; [repeat constructor; apply mkProc_stays|].
  destruct (HS Hf Hh) as (inp & out & _ & Hi & Ho & m & Hm & m' & Hm' & ->); [discriminate|].
  rewrite Ho. f_equal. apply forward_all in Hm. apply forward_all in Hm'. rewrite Hm', Hm. exact (Hi Hc).
Defined.

(** ** A stage that leaves *)

(** A source and a sink whose [Write] returns nil at once, over an edge of one:
    with two records to send, the run comes to a state in which the source still
    has a record to send, the sink has returned without an error, and nothing
    can happen until somebody cancels the run. *)
Definition quittingSink : list (Proc * nat) := [(forwardProc, 1%nat); (sinkProc false true, 1%nat)].
Definition twoRecords : list Rec := [NewRecord 1 None None; NewRecord 2 None None].
Definition sinkNode (buf inp pend out : list Rec) (st : nstat) : node := mkNode (sinkProc false true) 1 tt buf inp pend out st.
Theorem early_leaver_blocks : exists N, net_reach quittingSink twoRecords N /\
  (exists n, nodes N !! 0%nat = Some n /\ is_finished n = false) /\
  (exists n, nodes N !! 1%nat = Some n /\ nd_stat n = Finished (Ok tt)) /\
  ctx N = false /\ hard N = false /\ (forall N', net_step N N' -> ctx N' = true).
Proof.
  set (r1 := NewRecord 1 None None). set (r2 := NewRecord 2 None None). pose proof (Launched quittingSink twoRecords) as H.
  go H ltac:(apply (Leave _ 1%nat (sinkNode [] [] [] [] Open) tt []); first [reflexivity|by split]).
  go H ltac:(apply (Finish _ 1%nat (sinkNode [] [] [] [] Closing)); reflexivity).
  go H ltac:(apply (Take _ 0%nat (fwdNode [r1; r2] [] []) r1 tt [r1]); reflexivity).
  go H ltac:(eapply (Send _ 0%nat _ r1); [reflexivity..|intros n [= <-]; cbn; lia]).
  go H ltac:(apply (Take _ 0%nat (fwdNode [r2] [r1] [r1]) r2 tt [r2]); reflexivity).
  eexists. split; [exact H|]. split; [eexists; split; reflexivity|]. split; [eexists; split; reflexivity|].
  split; [reflexivity|]. split; [reflexivity|]. clear H.
  intros N' Hs. inversion Hs as [i n r s o Hn Hst Hp Hb _|i n r s e Hn Hst Hp Hb _|i n s o Hn Hst Hp Hb _ _|i n s e Hn Hst Hp Hb _ _|i n s o Hn Hst Hp _|i n r Hn Hf Hp Hroom|i n Hn Hst Hp|i n Hn Hf Hh|k Hc|Hc Hh]; subst; cbn in *;
    try done; destruct i as [|[|i]]; cbn in Hn; try done; injection Hn as <-; try done.
  specialize (Hroom _ eq_refl). cbn in Hroom. lia.
Qed.
