(* ===== verification/Dataflow.v ===== *)
(** * Parallel stages on the net

    [Wiring] runs a plan's stages as processes over bounded edges; [Merge] and
    [Stages] are about the inside of a parallel stage.  Here a parallel
    stateless stage is such a process: the dispatcher, the workers and the
    aligned merge of [StatelessStage.runParallel] as one state, fed record by
    record.  A whole pipeline of stateless stages then refines the operators
    applied one after the other. *)
From S2P Require Import Prelude Paths GoTime Strconv Types Json State Operators Reduce Merge Stages Engine Wiring.

(** ** Streams that grow *)

(** [feed f m]: worker [w] has [f w] more to forward. *)
Definition push (e : list Rec) (wk : worker) : worker := mkWorker (pending wk ++ e) (parked wk) (token wk).
Definition feed (f : nat -> list Rec) (m : mstate) : mstate := mkM (imap (λ w, push (f w)) (workers m)) (fanIn m) (arrived m) (mout m).
Definition grow (f : nat -> list Rec) (ss : list (list Rec)) : list (list Rec) := imap (λ w l, l ++ f w) ss.

Lemma imap_insert {A C} (f : nat -> A -> C) (l : list A) i x : imap f (<[i := x]> l) = <[i := f i x]> (imap f l).
Proof.
  apply list_eq. intros j. rewrite list_lookup_imap. destruct (decide (i = j)) as [->|Hne].
  - destruct (decide (j < length l)%nat) as [Hl|Hl].
    + rewrite !list_lookup_insert_eq; [done|by rewrite length_imap|done].
    + rewrite (list_insert_ge l) by lia. rewrite list_insert_ge by (rewrite length_imap; lia). by rewrite list_lookup_imap.
  - by rewrite !list_lookup_insert_ne, list_lookup_imap.
Qed.
Lemma feed_init f ss : feed f (merge_init ss) = merge_init (grow f ss).
Proof. unfold feed, merge_init, grow. cbn. f_equal. by rewrite imap_fmap, fmap_imap. Qed.
Lemma feed_grant f (ws : list worker) : imap (λ w, push (f w)) (grant <$> ws) = grant <$> imap (λ w, push (f w)) ws.
Proof. by rewrite imap_fmap, fmap_imap. Qed.
Lemma feed_recv f m r q : feed f (merge_recv m r q) = merge_recv (feed f m) r q.
Proof.
  unfold merge_recv, feed. cbn [workers arrived mout]. rewrite length_imap.
  destruct (is_marker r); [|done]. destruct (_ <? _)%nat; [done|]. cbn. by rewrite feed_grant.
Qed.
(** More input does not take a move away. *)
Lemma feed_step f m m' : mstep m m' -> mstep (feed f m) (feed f m').
Proof.
  assert (Hw : forall w wk, workers m !! w = Some wk -> workers (feed f m) !! w = Some (push (f w) wk)).
  { intros w wk H. cbn. by rewrite list_lookup_imap, H. }
  destruct 1 as [w wk r rest H Hp Hr|w wk H Hp Ht|w r q Hq].
  - unfold feed at 2. cbn [workers fanIn arrived mout]. rewrite imap_insert.
    apply (st_forward (feed f m) w (push (f w) wk) r (rest ++ f w)); [by apply Hw|done|]. cbn. by rewrite Hr.
  - unfold feed at 2. cbn [workers fanIn arrived mout]. rewrite imap_insert. apply (st_resume (feed f m) w (push (f w) wk)); [by apply Hw|done|done].
  - rewrite feed_recv. by apply (st_recv (feed f m) w).
Qed.
Lemma feed_reach f ss m : mreach ss m -> mreach (grow f ss) (feed f m).
Proof. unfold mreach. rewrite <- feed_init. induction 1 as [|a c d H _ IH]; [apply rtc_refl|]. eapply rtc_l; [by apply feed_step|done]. Qed.

Lemma mstep_extends m m' : mstep m m' -> exists o, mout m' = mout m ++ o.
Proof.
  destruct 1; cbn; [exists []; by rewrite app_nil_r..|]. unfold merge_recv.
  destruct (is_marker r); [destruct (_ <? _)%nat|]; cbn; [exists []; by rewrite app_nil_r|eauto..].
Qed.
Lemma msteps_extend m m' : rtc mstep m m' -> exists o, mout m' = mout m ++ o.
Proof.
  induction 1 as [m|a c d H _ [o IH]]; [exists []; by rewrite app_nil_r|]. destruct (mstep_extends _ _ H) as [o' E]. exists (o' ++ o). by rewrite IH, E, app_assoc.
Qed.
(** The merge runs until no goroutine can move. *)
Definition moves (m : mstate) : list choice :=
  CRecv :: ((λ w, CForward w) <$> seq 0 (length (workers m))) ++ ((λ w, CResume w) <$> seq 0 (length (workers m))).
Definition mmove (m : mstate) : option mstate := head (omap (mexec m) (moves m)).
Lemma mmove_step m m' : mmove m = Some m' -> mstep m m'.
Proof.
  unfold mmove. intros H. destruct (omap _ _) as [|x l] eqn:E; [done|]. injection H as ->.
  assert (Hin : m' ∈ omap (mexec m) (moves m)) by (rewrite E; left).
  apply list_elem_of_omap in Hin as (c & _ & Hc). by eapply mexec_sound.
Qed.
Lemma mexec_complete m m' : mstep m m' -> exists c, c ∈ moves m /\ mexec m c = Some m'.
Proof.
  assert (Hs : forall w wk, workers m !! w = Some wk -> w ∈ seq 0 (length (workers m))).
  { intros w wk H%lookup_lt_Some. apply elem_of_seq. lia. }
  destruct 1 as [w wk r rest H Hp Hr|w wk H Hp Ht|w r q Hq].
  - exists (CForward w). split; [right; apply elem_of_app; left; by eapply list_elem_of_fmap_2, Hs|]. cbn. by rewrite H, Hp, Hr.
  - exists (CResume w). split; [right; apply elem_of_app; right; by eapply list_elem_of_fmap_2, Hs|]. cbn. by rewrite H, Hp, Ht.
  - exists CRecv. split; [left|]. cbn. by rewrite Hq.
Qed.
Lemma mmove_none m : mmove m = None -> finished m.
Proof.
  unfold mmove. intros H m' Hs. destruct (mexec_complete _ _ Hs) as (c & Hc & E). destruct (omap _ _) eqn:Eo; [|done].
  assert (Hin : m' ∈ omap (mexec m) (moves m)) by (apply list_elem_of_omap; eauto).
  rewrite Eo in Hin. by apply elem_of_nil in Hin.
Qed.
Lemma merge_can_finish m : exists m', rtc mstep m m' /\ finished m'.
Proof.
  remember (merge_measure m) as k eqn:E. revert m E. induction (lt_wf k) as [k _ IH]. intros m ->. destruct (mmove m) as [m1|] eqn:Em.
  - apply mmove_step in Em. destruct (IH (merge_measure m1)) with (m := m1) as (m' & Hr & Hf); [by apply measure_step|done|].
    exists m'. split; [by eapply rtc_l|done].
  - exists m. split; [apply rtc_refl|by apply mmove_none].
Qed.

(** ** The stage as a process *)

(** The worker the dispatcher turns to next, the workers' buffers and dead
    letters, and the merge with what the workers have sent so far. *)
Record parState : Type := mkPar { pr_next : nat; pr_bufs : list (list Rec * list Rec * dlq); pr_merge : mstate }.
Definition par_init (n : nat) : parState := mkPar 0 (replicate n ([], [], [])) (merge_init (replicate n [])).
(** One record through the dispatcher and the worker it goes to. *)
Definition par_feed (n : nat) (sps : list SingleProcessor) (s : parState) (r : Rec) : parState * result unit :=
  if is_marker r then (mkPar (pr_next s) (pr_bufs s) (feed (λ _, [r]) (pr_merge s)), Ok tt)
  else
    match worker_step sps (default ([], [], []) (pr_bufs s !! pr_next s)) r with
    | (b', Ok o) => (mkPar (Nat.modulo (pr_next s + 1) n) (<[pr_next s := b']> (pr_bufs s))
                       (feed (λ w, if decide (w = pr_next s) then o else []) (pr_merge s)), Ok tt)
    | (_, Err e) => (s, Err e)
    end.
(** The forwarders and the merge loop move any number of times. *)
Definition merges (s s' : parState) (o : list Rec) : Prop :=
  pr_next s' = pr_next s /\ pr_bufs s' = pr_bufs s /\ rtc mstep (pr_merge s) (pr_merge s') /\ mout (pr_merge s') = mout (pr_merge s) ++ o.
Lemma merges_some s m : rtc mstep (pr_merge s) m -> exists s' o, merges s s' o /\ pr_merge s' = m.
Proof. intros Hr. destruct (msteps_extend _ _ Hr) as [o E]. by exists (mkPar (pr_next s) (pr_bufs s) m), o. Qed.
Definition par_rec (n : nat) (sps : list SingleProcessor) (s : parState) (r : Rec) (s' : parState) (o : result (list Rec)) : Prop :=
  match par_feed n sps s r with
  | (s1, Ok _) => exists sent, merges s1 s' sent /\ o = Ok sent
  | (s1, Err e) => s' = s1 /\ o = Err e
  end.
Definition par_close (s s' : parState) (o : result (list Rec)) : Prop := exists sent, merges s s' sent /\ finished (pr_merge s') /\ o = Ok sent.
Definition parallelProc (n : nat) (sps : list SingleProcessor) : Proc.
Proof.
  refine (mkProc parState (par_init n) (par_rec n sps) par_close _ _).
  - intros s r. unfold par_rec. destruct (par_feed n sps s r) as [s1 [[]|e]]; [|eauto].
    destruct (merges_some s1 (pr_merge s1)) as (s' & o & H & _); [apply rtc_refl|]. eauto.
  - intros s. destruct (merge_can_finish (pr_merge s)) as (m & Hr & Hf). destruct (merges_some s m Hr) as (s' & o & H & <-).
    exists s', (Ok o), o. done.
Defined.
(** [StatelessStage.Run]. *)
Definition stageProc (par : nat) (sps : list SingleProcessor) : Proc := if (par <=? 1)%nat then workerProc sps else parallelProc par sps.

(** ** What the dispatcher hands out *)

Definition advance (n : nat) (k : nat) (r : Rec) : nat := if is_marker r then k else Nat.modulo (k + 1) n.
Definition handed (k : nat) (r : Rec) (w : nat) : list Rec := if is_marker r then [r] else if decide (w = k) then [r] else [].

Lemma grow_lookup f ss w : grow f ss !! w = (λ l, l ++ f w) <$> ss !! w.
Proof. apply list_lookup_imap. Qed.
Lemma grow_cons f x ss : cons x <$> grow f ss = grow f (cons x <$> ss).
Proof. apply list_eq. intros w. rewrite list_lookup_fmap, !grow_lookup, list_lookup_fmap. by destruct (ss !! w). Qed.
Lemma grow_alter f x k ss : alter (cons x) k (grow f ss) = grow f (alter (cons x) k ss).
Proof.
  apply list_eq. intros w. rewrite grow_lookup. destruct (decide (k = w)) as [->|Hne].
  - rewrite !list_lookup_alter_eq, grow_lookup. by destruct (ss !! w).
  - by rewrite !list_lookup_alter_ne, grow_lookup.
Qed.
Lemma grow_bind (g : Rec -> list Rec) f ss : (λ s, s ≫= g) <$> grow f ss = grow (λ w, f w ≫= g) ((λ s, s ≫= g) <$> ss).
Proof. apply list_eq. intros w. rewrite list_lookup_fmap, !grow_lookup, list_lookup_fmap. destruct (ss !! w); [|done]. cbn. by rewrite bind_app. Qed.
Lemma dispatch_snoc n h r : forall k, dispatch n k (h ++ [r]) = grow (handed (foldl (advance n) k h) r) (dispatch n k h).
Proof.
  induction h as [|x h IH]; intros k; cbn [app dispatch foldl].
  - apply list_eq. intros w. unfold handed. rewrite grow_lookup. destruct (is_marker r).
    + rewrite list_lookup_fmap. by destruct (replicate n [] !! w) as [l|] eqn:E; [apply lookup_replicate in E as [-> _]|].
    + destruct (decide (w = k)) as [->|Hne].
      * rewrite list_lookup_alter_eq. by destruct (replicate n [] !! k) as [l|] eqn:E; [apply lookup_replicate in E as [-> _]|].
      * rewrite list_lookup_alter_ne by done. by destruct (replicate n [] !! w) as [l|] eqn:E; [apply lookup_replicate in E as [-> _]|].
  - unfold advance at 2. destruct (is_marker x); rewrite IH; [apply grow_cons|apply grow_alter].
Qed.

Lemma feed_ext f f' m : (forall w, f w = f' w) -> feed f m = feed f' m.
Proof. intros H. unfold feed. f_equal. apply imap_ext. intros w wk _. by rewrite H. Qed.
Lemma worker_step_spec sps b0 r b' o : is_marker r = false -> worker_step sps b0 r = (b', Ok o) -> o = stage_spec sps r.
Proof.
  unfold worker_step, stage_spec. intros ->. destruct (chain_loop sps _ _ _) as [[[cur alt] q]|e] eqn:E; [|done]. intros [= _ <-].
  apply chain_loop_spec in E. by rewrite take_0 in E.
Qed.
(** Along any run the workers' streams are those of the dispatched input. *)
Lemma parallel_streams n sps h s o : sends (parallelProc n sps) h s o ->
  pr_next s = foldl (advance n) 0%nat h /\ mreach ((λ l, l ≫= stage_spec sps) <$> dispatch n 0 h) (pr_merge s) /\ mout (pr_merge s) = o.
Proof.
  induction 1 as [|h s o r s' o' _ (IH1 & IH2 & IH3) Hr].
  - split_and!; [done| |done]. cbn. rewrite fmap_replicate. apply rtc_refl.
  - change (par_rec n sps s r s' (Ok o')) in Hr. unfold par_rec in Hr. destruct (par_feed n sps s r) as [s1 [u|e]] eqn:Ef; [|by destruct Hr].
    destruct Hr as (sent & (E1 & _ & Hm & Eo) & [= ->]). rewrite foldl_app. cbn [foldl].
    assert (H1 : pr_next s1 = advance n (pr_next s) r /\ pr_merge s1 = feed (λ w, handed (pr_next s) r w ≫= stage_spec sps) (pr_merge s)).
    { unfold par_feed, advance, handed in *. destruct (is_marker r) eqn:Em.
      - injection Ef as <-. split; [done|]. apply feed_ext. intros w. cbn. by rewrite stage_spec_marker.
      - destruct (worker_step sps _ r) as [b' [x|e]] eqn:Ew; [|done]. injection Ef as <-. split; [done|]. apply feed_ext. intros w.
        rewrite (worker_step_spec _ _ _ _ _ Em Ew). destruct (decide _); cbn; [by rewrite app_nil_r|done]. }
    destruct H1 as [Hn Hf]. split_and!.
    + by rewrite E1, Hn, IH1.
    + rewrite dispatch_snoc, <- IH1, grow_bind. unfold mreach in *. etrans; [|exact Hm]. rewrite Hf.
      apply (feed_reach (λ w, handed (pr_next s) r w ≫= stage_spec sps)). exact IH2.
    + by rewrite Eo, Hf, <- IH3.
Qed.
Lemma parallel_all n sps h o : (0 < n)%nat -> Forall keeps_data sps -> sends_all (parallelProc n sps) h o -> seg_equiv (h ≫= stage_spec sps) o.
Proof.
  intros Hn Hk (s & s' & o1 & o2 & Hs & Hc & ->). destruct (parallel_streams n sps h s o1 Hs) as (_ & Hr & <-).
  destruct Hc as (sent & (_ & _ & Hm & Eo) & Hf & [= ->]). rewrite <- Eo. clear Eo. assert (Hr' : mreach ((λ l, l ≫= stage_spec sps) <$> dispatch n 0 h) (pr_merge s')) by (unfold mreach in *; by etrans).
  pose proof (dispatch_dealt n 0 h Hn) as Hd. destruct (merge_drains _ _ (dealt_stage_aligned sps n h _ Hk Hd) Hr' Hf) as [Hem _].
  rewrite <- list_fmap_compose in Hem.
  apply (distribute (stage_spec sps)) with (n := n) (ss := dispatch n 0 h); [|by intros; apply stage_spec_data|done|done|done]. intros m. apply stage_spec_marker.
Qed.

(** ** Streams up to order between markers *)

Lemma seg_datas l : forall l', is_datas l -> l ≡ₚ l' -> is_datas l'.
Proof. intros l' H E. unfold is_datas in *. by rewrite <- E. Qed.
Lemma seg_equiv_refl l : seg_equiv l l.
Proof.
  remember (length l) as k eqn:Hk. revert l Hk. induction (lt_wf k) as [k _ IH]. intros l ->.
  destruct (split_marker l) as [Hl|(a & m & r & -> & Ha & Hm)]; [by apply seg_end|].
  apply seg_marker; [done..|]. eapply IH; [|done]. rewrite length_app. cbn. lia.
Qed.
(** Where a stream splits at its first marker, in two ways. *)
Lemma first_marker_unique a a' m m' (l l' : list Rec) : is_datas a -> is_datas a' -> is_marker m = true -> is_marker m' = true ->
  a ++ m :: l = a' ++ m' :: l' -> a = a' /\ m = m' /\ l = l'.
Proof.
  intros Ha. revert a'. induction Ha as [|x a Hx _ IH]; intros [|x' a'] Ha' Hm Hm' E; cbn in E.
  - by injection E as -> ->.
  - injection E as -> _. apply Forall_cons in Ha' as [? _]. congruence.
  - injection E as -> _. congruence.
  - injection E as -> E. apply Forall_cons in Ha' as [_ Ha']. destruct (IH a' Ha' Hm Hm' E) as (-> & -> & ->). done.
Qed.
Lemma datas_no_marker a m (l : list Rec) : is_datas (a ++ m :: l) -> is_marker m = true -> False.
Proof. intros [_ [H _]%Forall_cons]%Forall_app. congruence. Qed.
Lemma seg_equiv_trans l1 l2 l3 : seg_equiv l1 l2 -> seg_equiv l2 l3 -> seg_equiv l1 l3.
Proof.
  intros H. revert l3. induction H as [l l' Hd Hp|a a' m l l' Hd Hp Hm _ IH]; intros l3 H2.
  - pose proof (seg_datas _ _ Hd Hp) as Hd'. inversion H2 as [? ? _ Hp2|? ? ? ? ? _ _ Hm2]; subst; [apply seg_end; [done|by etrans]|].
    by destruct (datas_no_marker _ _ _ Hd' Hm2).
  - pose proof (seg_datas _ _ Hd Hp) as Hd'. inversion H2 as [? ? Hd2 Hp2 E|b b' m2 k k' Hdb Hpb Hm2 Hk E]; subst.
    + by destruct (datas_no_marker _ _ _ Hd2 Hm).
    + apply first_marker_unique in E as (-> & -> & ->); [|done..]. apply seg_marker; [done|by etrans|done|by apply IH].
Qed.
#[export] Instance seg_equiv_preorder : PreOrder seg_equiv.
Proof. split; [exact seg_equiv_refl|exact seg_equiv_trans]. Qed.
(** A stateless operator does not see the order. *)
Lemma seg_equiv_stage sps l l' : Forall keeps_data sps -> seg_equiv l l' -> seg_equiv (l ≫= stage_spec sps) (l' ≫= stage_spec sps).
Proof.
  intros Hk. assert (Hg : forall a, is_datas a -> is_datas (a ≫= stage_spec sps)).
  { intros a Ha. apply Forall_bind. eapply Forall_impl; [exact Ha|]. intros r Hr. by apply stage_spec_data. }
  induction 1 as [l l' Hd Hp|a a' m l l' Hd Hp Hm _ IH].
  - apply seg_end; [by apply Hg|by rewrite Hp].
  - rewrite !bind_app, !bind_cons, !stage_spec_marker by done. apply seg_marker; [by apply Hg|by rewrite Hp|done|done].
Qed.
#[export] Instance seg_equiv_bind sps : Forall keeps_data sps -> Proper (seg_equiv ==> seg_equiv) (λ l, l ≫= stage_spec sps).
Proof. intros Hk l l'. by apply seg_equiv_stage. Qed.
Lemma stage_spec_nil : forall l, l ≫= stage_spec [] = l.
Proof. induction l as [|r l IH]; [done|]. rewrite bind_cons, IH. unfold stage_spec, chain_spec. by destruct (is_marker r). Qed.
Lemma stage_spec_app sps sps' l : Forall keeps_data sps -> l ≫= stage_spec (sps ++ sps') = (l ≫= stage_spec sps) ≫= stage_spec sps'.
Proof.
  intros Hk. revert l. induction Hk as [|sp sps Hsp _ IH]; intros l; [by rewrite stage_spec_nil|]. cbn [app].
  assert (E : forall sps0, l ≫= stage_spec (sp :: sps0) = (l ≫= step_one sp) ≫= stage_spec sps0).
  { intros sps0. clear IH. induction l as [|r l IHl]; [done|]. by rewrite !bind_cons, bind_app, IHl, stage_spec_cons. }
  by rewrite !E, IH.
Qed.

(** ** A whole pipeline of stateless stages *)

Lemma sink_passes checkpointed h o : sends_all (sinkProc checkpointed false) h o ->
  o = List.filter (λ r, negb (IsWatermark r) && (negb (IsBarrier r) || checkpointed)) h.
Proof.
  intros ->%sink_all. apply List.filter_ext. intros r. unfold passes. by destruct (IsWatermark r), (IsBarrier r), checkpointed.
Qed.

(** The stateless stages of a plan: their parallelism and operators. *)
Definition stages_of (plan : list (nat * list SingleProcessor)) : list Proc := (λ st, stageProc st.1 st.2) <$> plan.
Lemma stage_all par sps h o : Forall keeps_data sps -> sends_all (stageProc par sps) h o -> seg_equiv (h ≫= stage_spec sps) o.
Proof.
  intros Hk. unfold stageProc. destruct (Nat.leb_spec par 1); [intros ->%worker_all; apply seg_equiv_refl|apply parallel_all; [lia|done]].
Qed.
Lemma pipeline_app Ps Qs inp out : pipeline_sends (Ps ++ Qs) inp out <-> exists mid, pipeline_sends Ps inp mid /\ pipeline_sends Qs mid out.
Proof.
  revert inp. induction Ps as [|P Ps IH]; intros inp; cbn.
  - split; [by exists inp|by intros (mid & -> & H)].
  - split; [intros (m & Hm & (mid & H1 & H2)%IH); eauto|intros (mid & (m & Hm & H1) & H2); exists m; split; [done|]; apply IH; eauto].
Qed.
Definition data_plan (plan : list (nat * list SingleProcessor)) : Prop := Forall (λ st, Forall keeps_data st.2) plan.
Lemma stages_all plan inp out : data_plan plan -> pipeline_sends (stages_of plan) inp out -> seg_equiv (inp ≫= stage_spec (plan ≫= snd)) out.
Proof.
  revert inp. induction plan as [|[par sps] plan IH]; intros inp Hk; cbn [stages_of fmap list_fmap pipeline_sends fst snd].
  - intros ->. cbn. rewrite stage_spec_nil. apply seg_equiv_refl.
  - apply Forall_cons in Hk as [Hs Hk]. intros (mid & Hm & Hp). cbn [mbind list_bind]. rewrite stage_spec_app by done. apply stage_all in Hm; [|done].
    etrans; [apply seg_equiv_stage; [by apply Forall_bind|exact Hm]|]. by apply IH.
Qed.
(** The stages of [wire] in order, without their capacities. *)
Lemma wire_procs ck co inject detect cap src mid snk : (wire ck co inject detect cap src mid snk).*1 =
  [src] ++ (if ck then [inject] else []) ++ mid ++ (if co then [detect] else []) ++ [snk].
Proof.
  unfold wire. rewrite !fmap_app. f_equal. f_equal; [by destruct ck|]. f_equal; [|by destruct co].
  destruct mid as [|P mid]; [done|]. cbn. f_equal. rewrite <- list_fmap_compose. apply list_fmap_id.
Qed.
Lemma wire_room ck co inject detect cap src mid snk : (0 < cap)%nat -> Forall (λ s : Proc * nat, (0 < s.2)%nat) (wire ck co inject detect cap src mid snk).
Proof.
  intros Hc. assert (Hf : (0 < (if ck then 256 else cap))%nat) by (destruct ck; lia).
  assert (Hl : (0 < match mid with [] => if ck then 256 else cap | _ => cap end)%nat) by (by destruct mid). unfold wire. cbv zeta.
  repeat apply Forall_app_2; [by repeat constructor; cbn; lia|by destruct ck; repeat constructor| |destruct co; repeat constructor; cbn; lia].
  destruct mid as [|P mid]; constructor; [done|]. by apply Forall_fmap, Forall_true.
Qed.

Lemma stage_stays par sps : stays (stageProc par sps).
Proof. unfold stageProc. destruct (par <=? 1)%nat; [apply worker_stays|apply mkProc_stays]. Qed.
Lemma stages_stay plan : Forall stays (stages_of plan).
Proof. apply Forall_fmap, Forall_true. intros st. apply stage_stays. Qed.
#[export] Hint Resolve stages_stay stage_stays : stays.

(** What the first stage after the source reads. *)
Definition fed_by_source (nonce : Z) (checkpoints : bool) (produced fed : list Rec) : Prop :=
  if checkpoints then injected nonce produced fed else fed = produced.

(** A run of the wired stages that was not cut short: what the source produced,
    with the injected barriers, reaches the first of the stages [mid ++ P :: rest]
    and goes through [mid] to [P]. *)
Lemma wired_upto nonce (checkpoints coordinated : bool) cap mid P rest snk produced N :
  let stages := wire checkpoints coordinated (injectProc nonce) forwardProc cap forwardProc (mid ++ P :: rest) snk in
  all_stay stages -> net_reach stages produced N ->
  Forall (λ n, is_finished n = true) (nodes N) -> hard N = false -> ctx N = false -> exists fed n,
    fed_by_source nonce checkpoints produced fed /\
    nodes N !! (S ((if checkpoints then 1 else 0) + length mid))%nat = Some n /\
    pipeline_sends mid fed (nd_in n) /\ sends_all P (nd_in n) (nd_out n).
Proof.
  intros stages Hst Hr Hf Hh Hc. destruct (completed_chain _ _ _ Hst Hr Hf Hh) as (He & Hall & Hs & H0).
  unfold stages in Hs. rewrite wire_procs in Hs.
  destruct (nodes N) as [|n0 ns] eqn:En; [by inversion Hs|]. destruct (H0 n0 eq_refl) as [_ Heq]. specialize (Heq Hc).
  destruct (chain_between (n0 :: ns) [] ([forwardProc] ++ (if checkpoints then [injectProc nonce] else []) ++ mid) P
    (rest ++ (if coordinated then [forwardProc] else []) ++ [snk]) n0 He Hall) as (n & Hn & Hp & Hs'); [|done|].
  { rewrite Hs. by rewrite <- !app_assoc. }
  rewrite Heq in Hp. apply pipeline_app in Hp as (m1 & (? & ->%forward_all & ->) & (m2 & H2 & H3)%pipeline_app).
  exists m2, n. split_and!; [| |done|done].
  - unfold fed_by_source. destruct checkpoints; [|by cbn in H2]. destruct H2 as (? & H2 & ->). by apply inject_all.
  - rewrite <- Hn. f_equal. cbn. rewrite length_app. by destruct checkpoints.
Qed.
(** ... and what a stage sent goes through the stages [rest] after it to the sink. *)
Lemma wired_from nonce (checkpoints coordinated : bool) cap mid P rest snk produced N n :
  let stages := wire checkpoints coordinated (injectProc nonce) forwardProc cap forwardProc (mid ++ P :: rest) snk in
  all_stay stages -> net_reach stages produced N ->
  Forall (λ n, is_finished n = true) (nodes N) -> hard N = false ->
  nodes N !! (S ((if checkpoints then 1 else 0) + length mid))%nat = Some n -> exists sink,
    last (nodes N) = Some sink /\ pipeline_sends rest (nd_out n) (nd_in sink) /\ sends_all snk (nd_in sink) (nd_out sink).
Proof.
  intros stages Hst Hr Hf Hh Hn. destruct (completed_chain _ _ _ Hst Hr Hf Hh) as (He & Hall & Hs & _).
  unfold stages in Hs. rewrite wire_procs in Hs.
  set (A := [forwardProc] ++ (if checkpoints then [injectProc nonce] else []) ++ mid ++ [P]).
  set (M := rest ++ (if coordinated then [forwardProc] else [])).
  assert (Hs' : nd_proc <$> nodes N = A ++ M ++ [snk]) by (rewrite Hs; unfold A, M; by rewrite <- !app_assoc).
  assert (HA : length A = S (S ((if checkpoints then 1 else 0) + length mid))).
  { unfold A. rewrite !length_app. destruct checkpoints; cbn; lia. }
  assert (Hl : length (nodes N) = (length A + length M + 1)%nat)
    by (rewrite <- (length_fmap nd_proc), Hs', !length_app; cbn; lia).
  destruct (nodes N !! length A) as [n'|] eqn:En; [|apply lookup_ge_None in En; lia].
  destruct (chain_between _ A M snk [] n' He Hall Hs' En) as (sink & Hk & Hp & Hsk). exists sink. split_and!; [| |done].
  - rewrite last_lookup, Hl, <- Hk. f_equal. lia.
  - rewrite HA in En. rewrite (He _ _ _ Hn En). unfold M in Hp. apply pipeline_app in Hp as (m & Hm & Hd).
    destruct coordinated; [destruct Hd as (? & ->%forward_all & ->)|cbn in Hd; subst m]; done.
Qed.
(** Without a stage singled out. *)
Lemma wired_run nonce (checkpoints coordinated : bool) cap mid snk produced N :
  let stages := wire checkpoints coordinated (injectProc nonce) forwardProc cap forwardProc mid snk in
  all_stay stages -> net_reach stages produced N ->
  Forall (λ n, is_finished n = true) (nodes N) -> hard N = false -> ctx N = false -> exists fed sink,
    fed_by_source nonce checkpoints produced fed /\ last (nodes N) = Some sink /\
    pipeline_sends mid fed (nd_in sink) /\ sends_all snk (nd_in sink) (nd_out sink).
Proof.
  intros stages Hst Hr Hf Hh Hc. destruct (completed_chain _ _ _ Hst Hr Hf Hh) as (He & Hall & Hs & H0).
  unfold stages in Hs. rewrite wire_procs in Hs.
  destruct (nodes N) as [|n0 ns] eqn:En; [by inversion Hs|]. destruct (H0 n0 eq_refl) as [_ Heq]. specialize (Heq Hc).
  set (M := [forwardProc] ++ (if checkpoints then [injectProc nonce] else []) ++ mid ++ (if coordinated then [forwardProc] else [])).
  destruct (chain_between (n0 :: ns) [] M snk [] n0 He Hall) as (n & Hn & Hp & Hs'); [|done|].
  { rewrite Hs. unfold M. by rewrite <- !app_assoc. }
  assert (Hl : length (n0 :: ns) = (length M + 1)%nat).
  { rewrite <- (length_fmap nd_proc), Hs. unfold M. rewrite !length_app. destruct checkpoints, coordinated; cbn; lia. }
  rewrite Heq in Hp. unfold M in Hp. apply pipeline_app in Hp as (m1 & (? & ->%forward_all & ->) & (m2 & H2 & (m3 & H3 & H4)%pipeline_app)%pipeline_app).
  exists m2, n. split_and!; [| | |done].
  - unfold fed_by_source. destruct checkpoints; [|by cbn in H2]. destruct H2 as (? & H2 & ->). by apply inject_all.
  - rewrite last_lookup, Hl, <- Hn. f_equal. cbn. lia.
  - destruct coordinated; [destruct H4 as (? & ->%forward_all & ->)|cbn in H4; subst m3]; done.
Qed.

(** C12: a pipeline of stateless stages does what its operators do.  Any stages,
    each with any number of workers, wired as [Execute] wires them over edges of
    any capacity, with or without checkpoints, ending in a sink whose [Write]
    reads its input to the end: every run ends, none gets stuck, and in a run
    that was neither cut short nor failed the sink stage receives the source's
    records, with the injector's barriers among them, taken through all operators
    one after the other; only the order of records between two markers is open,
    and nothing crosses a barrier or watermark.  The sink's [Write] is handed
    what the stage received, in order, without the watermarks and, unless it is a
    CheckpointedSink, without the barriers. *)
Theorem stateless_dataflow (nonce : Z) (checkpoints coordinated checkpointed : bool) (cap : nat)
    (plan : list (nat * list SingleProcessor)) (produced : list Rec) (N : net) :
  (0 < cap)%nat -> data_plan plan ->
  net_reach (wire checkpoints coordinated (injectProc nonce) forwardProc cap forwardProc (stages_of plan) (sinkProc checkpointed false)) produced N ->
  Acc (flip net_step) N /\
  (Forall (λ n, is_finished n = true) (nodes N) \/ exists N', net_step N N') /\
  (Forall (λ n, is_finished n = true) (nodes N) -> hard N = false -> ctx N = false -> exists fed sink,
     fed_by_source nonce checkpoints produced fed /\ last (nodes N) = Some sink /\
     seg_equiv (fed ≫= stage_spec (plan ≫= snd)) (nd_in sink) /\
     nd_out sink = List.filter (λ r, negb (IsWatermark r) && (negb (IsBarrier r) || checkpointed)) (nd_in sink)).
Proof.
  intros Hcap Hk Hr.
  assert (Hst : all_stay (wire checkpoints coordinated (injectProc nonce) forwardProc cap forwardProc (stages_of plan) (sinkProc checkpointed false)))
    by auto with stays.
  pose proof (inv_reach _ _ _ Hst Hr) as Hinv.
  split_and!; [apply steps_end|eapply net_progress; [by apply wire_room|exact Hinv]|]. intros Hf Hh Hc.
  destruct (wired_run _ _ _ _ _ _ _ _ Hst Hr Hf Hh Hc) as (fed & sink & He & Hl & Hp & Hs). exists fed, sink.
  split_and!; [done|done|by apply stages_all|by apply sink_passes].
Qed.

(** ** A run with two workers *)

Definition twoWorkers : list (nat * list SingleProcessor) := [(2%nat, [doubler])].
Definition dataflow_net : list (Proc * nat) := wire false false (injectProc 0) forwardProc 2 forwardProc (stages_of twoWorkers) (sinkProc false false).
Definition fedState : parState := (par_feed 2 [doubler] (par_init 2) (NewRecord 1 None None)).1.
Definition drainedState : parState :=
  mkPar (pr_next fedState) (pr_bufs fedState) (default (merge_init []) (mrun (pr_merge fedState) [CForward 0; CForward 0; CRecv; CRecv])).
Lemma fed_ok : par_rec 2 [doubler] (par_init 2) (NewRecord 1 None None) fedState (Ok []).
Proof. exists []. split; [|reflexivity]. unfold merges. split_and!; [reflexivity..|apply rtc_refl|by rewrite app_nil_r]. Qed.
Lemma drained_ok : par_close fedState drainedState (Ok [NewRecord 1 None None; NewRecord 1 None None]).
Proof.
  exists [NewRecord 1 None None; NewRecord 1 None None]. split; [|split; [apply finishedb_sound; vm_compute; reflexivity|reflexivity]].
  unfold merges. split_and!; [reflexivity..| |vm_compute; reflexivity].
  apply rtc_nsteps. exists 4%nat. apply (mrun_sound _ [CForward 0; CForward 0; CRecv; CRecv]). vm_compute. reflexivity.
Qed.
Definition fwdAt (cap : nat) (buf inp out : list Rec) : node := mkNode forwardProc cap tt buf inp [] out Open.
Definition sinkAt (cap : nat) (buf inp out : list Rec) : node := mkNode (sinkProc false false) cap tt buf inp [] out Open.
Definition parAt (st : parState) (buf inp : list Rec) : node := mkNode (parallelProc 2 [doubler]) 2 st buf inp [] [] Open.
Lemma dataflow_run : exists N, net_reach dataflow_net oneRecord N /\ Forall (λ n, is_finished n = true) (nodes N) /\ hard N = false /\ ctx N = false /\
  nd_out <$> last (nodes N) = Some [NewRecord 1 None None; NewRecord 1 None None].
Proof.
  pose proof (Launched dataflow_net oneRecord) as H. unfold net_launch, dataflow_net, wire, fresh_node in H. cbn [app fmap list_fmap stages_of twoWorkers fst snd] in H.
  change (stageProc _ _) with (parallelProc 2 [doubler]) in *. set (r := NewRecord 1 None None) in *. change oneRecord with [r] in *.
  go H ltac:(apply (Take _ 0%nat (fwdAt 256 [r] [] []) r tt [r]); reflexivity).
  go H ltac:(eapply (Send _ 0%nat _ r); [reflexivity..|intros n [= <-]; cbn; lia]).
  go H ltac:(apply (SeeClose _ 0%nat (fwdAt 256 [] [r] [r]) tt []); first [reflexivity|exact I]).
  go H ltac:(eapply (Finish _ 0%nat); reflexivity).
  go H ltac:(apply (Take _ 1%nat (parAt (par_init 2) [r] []) r fedState []); [reflexivity..|exact fed_ok]).
  go H ltac:(apply (SeeClose _ 1%nat (parAt fedState [] [r]) drainedState [r; r]); [reflexivity..|eexists; split; reflexivity|exact drained_ok]).
  go H ltac:(eapply (Send _ 1%nat _ r); [reflexivity..|intros n [= <-]; cbn; lia]).
  go H ltac:(eapply (Send _ 1%nat _ r); [reflexivity..|intros n [= <-]; cbn; lia]).
  go H ltac:(eapply (Finish _ 1%nat); reflexivity).
  go H ltac:(apply (Take _ 2%nat (sinkAt 2 [r; r] [] []) r tt [r]); reflexivity).
  go H ltac:(eapply (Send _ 2%nat _ r); [reflexivity..|intros n [=]]).
  go H ltac:(apply (Take _ 2%nat (sinkAt 2 [r] [r] [r]) r tt [r]); reflexivity).
  go H ltac:(eapply (Send _ 2%nat _ r); [reflexivity..|intros n [=]]).
  go H ltac:(apply (SeeClose _ 2%nat (sinkAt 2 [] [r; r] [r; r]) tt []); [reflexivity..|eexists; split; reflexivity|reflexivity]).
  go H ltac:(eapply (Finish _ 2%nat); reflexivity).
  eexists. split; [exact H|]. split; [repeat constructor|]. repeat split.
Qed.
Lemma stateless_dataflow_witness : exists N sink, net_reach dataflow_net oneRecord N /\ last (nodes N) = Some sink /\
  seg_equiv (oneRecord ≫= stage_spec [doubler]) (nd_in sink) /\ nd_out sink = [NewRecord 1 None None; NewRecord 1 None None].
Proof.
  destruct dataflow_run as (N & Hr & Hf & Hh & Hc & Ho).
  destruct (stateless_dataflow 0 false false false 2 twoWorkers oneRecord N) as (_ & _ & H).
  - lia.
  - constructor; [constructor; [exact doubler_keeps|constructor]|constructor].
  - exact Hr.
  - destruct (H Hf Hh Hc) as (fed & sink & -> & Hl & Hs & _). exists N, sink. split; [exact Hr|]. split; [exact Hl|]. split; [exact Hs|].
    rewrite Hl in Ho. by injection Ho.
Defined.
