(* ===== verification/KeyedFlow.v ===== *)
(** * Keyed stages on the net

    A keyed stage as a process of [Wiring]: the router, one worker process per
    partition and the aligned merge of [KeyedStage.Run].  A worker runs its clone
    of the operator chain; with [Reduce] in the workers, a whole pipeline hands
    the sink, for every key, exactly what a single [Reduce] over the stream would
    send for that key. *)
From S2P Require Import Prelude Paths GoTime Strconv Types Json State Operators Reduce Merge Stages Engine Wiring Dataflow.

(** ** Running a process over several records *)

Inductive feeds (P : Proc) : ps P -> list Rec -> ps P -> list Rec -> Prop :=
| feeds_nil s : feeds P s [] s []
| feeds_cons s r s1 o1 l s2 o2 : on_rec P s r s1 (Ok o1) -> feeds P s1 l s2 o2 -> feeds P s (r :: l) s2 (o1 ++ o2).
Definition fails (P : Proc) (s : ps P) (l : list Rec) (e : string) : Prop :=
  exists l1 r l2 s1 o s2, l = l1 ++ r :: l2 /\ feeds P s l1 s1 o /\ on_rec P s1 r s2 (Err e).
Lemma feeds_or_fails P l : forall s, (exists s' o, feeds P s l s' o) \/ exists e, fails P s l e.
Proof.
  induction l as [|r l IH]; intros s; [left; exists s, []; constructor|]. destruct (on_rec_total P s r) as (s1 & [o|e] & H).
  - destruct (IH s1) as [(s2 & o2 & H2)|(e & l1 & r' & l2 & s' & o' & s2 & -> & Hf & He)].
    + left. exists s2, (o ++ o2). by econstructor.
    + right. exists e, (r :: l1), r', l2, s', (o ++ o'), s2. split_and!; [done|by econstructor|done].
  - right. exists e, [], r, l, s, [], s1. split_and!; [done|constructor|done].
Qed.
Lemma sends_feeds P h s o l s' o' : sends P h s o -> feeds P s l s' o' -> sends P (h ++ l) s' (o ++ o').
Proof.
  intros Hs Hf. revert h o Hs. induction Hf as [|s r s1 o1 l s2 o2 Hr _ IH]; intros h o Hs; [by rewrite !app_nil_r|].
  rewrite (assoc_L (++) o), (cons_middle r h l), (assoc_L (++) h). apply IH. by econstructor.
Qed.
(** The same process from another state: a clone. *)
Definition procAt (P : Proc) (s0 : ps P) : Proc := mkProc (ps P) s0 (on_rec P) (on_close P) (on_rec_total P) (on_close_total P).
Lemma feeds_at P s0 s l s' o : feeds P s l s' o -> feeds (procAt P s0) s l s' o.
Proof. induction 1; [constructor|by econstructor]. Qed.

(** ** The stage *)

Section Keyed.
Variables (kb : KeyByOperator) (W : Proc) (init : nat -> ps W).
Definition width : nat := Z.to_nat (Partitions kb).
Record keyState : Type := mkKey { ky_workers : list (ps W); ky_merge : mstate }.
Definition keyed_init : keyState := mkKey (imap (λ w _, init w) (replicate width ())) (merge_init (replicate width [])).

(** Every worker is through with what the router gave it, [g w], sending [os]. *)
Definition all_fed (g : nat -> list Rec) (ws ws' : list (ps W)) (os : list (list Rec)) : Prop :=
  length ws' = length ws /\ length os = length ws /\
  forall w s, ws !! w = Some s -> exists s' o, ws' !! w = Some s' /\ os !! w = Some o /\ feeds W s (g w) s' o.
(** The merge gets the workers' new output and moves any number of times. *)
Definition merged (os : list (list Rec)) (m m' : mstate) (sent : list Rec) : Prop :=
  rtc mstep (feed (λ w, default [] (os !! w)) m) m' /\ mout m' = mout m ++ sent.
Definition keyed_rec (s : keyState) (r : Rec) (s' : keyState) (res : result (list Rec)) : Prop :=
  (exists os sent, all_fed (λ w, routed kb w r) (ky_workers s) (ky_workers s') os /\ merged os (ky_merge s) (ky_merge s') sent /\ res = Ok sent) \/
  (exists w sw e, ky_workers s !! w = Some sw /\ fails W sw (routed kb w r) e /\ s' = s /\ res = Err e).
Definition all_closed (ws ws' : list (ps W)) (os : list (list Rec)) : Prop :=
  length ws' = length ws /\ length os = length ws /\
  forall w s, ws !! w = Some s -> exists s' o, ws' !! w = Some s' /\ os !! w = Some o /\ on_close W s s' (Ok o).
Definition keyed_close (s s' : keyState) (res : result (list Rec)) : Prop :=
  (exists os sent, all_closed (ky_workers s) (ky_workers s') os /\ merged os (ky_merge s) (ky_merge s') sent /\ finished (ky_merge s') /\ res = Ok sent) \/
  (exists w sw sw' e, ky_workers s !! w = Some sw /\ on_close W sw sw' (Err e) /\ s' = s /\ res = Err e).

(** Either all workers manage or one does not. *)
Lemma each_or_one {X : Type} (ok : nat -> X -> X -> list Rec -> Prop) (bad : nat -> X -> Prop) (ws : list X) :
  (forall w s, (exists s' o, ok w s s' o) \/ bad w s) ->
  (exists ws' os, length ws' = length ws /\ length os = length ws /\
     forall w s, ws !! w = Some s -> exists s' o, ws' !! w = Some s' /\ os !! w = Some o /\ ok w s s' o) \/
  (exists w s, ws !! w = Some s /\ bad w s).
Proof.
  revert ok bad. induction ws as [|s ws IH]; intros ok bad H; [left; by exists [], []|].
  destruct (H 0%nat s) as [(s' & o & Ho)|Hb]; [|right; by exists 0%nat, s].
  destruct (IH (λ w, ok (S w)) (λ w, bad (S w))) as [(ws' & os & H1 & H2 & H3)|(w & s1 & Hw & Hb)]; [intros w; apply H| |right; by exists (S w), s1].
  left. exists (s' :: ws'), (o :: os). cbn. split_and!; [lia|lia|]. intros [|w] x Hx; [injection Hx as <-; by exists s', o|by apply H3].
Qed.
Lemma merged_some os m : exists m' sent, merged os m m' sent /\ finished m'.
Proof.
  destruct (merge_can_finish (feed (λ w, default [] (os !! w)) m)) as (m' & Hr & Hf). destruct (msteps_extend _ _ Hr) as [o E]. by exists m', o.
Qed.
Definition keyedProc : Proc.
Proof.
  refine (mkProc keyState keyed_init keyed_rec keyed_close _ _).
  - intros s r. destruct (each_or_one (λ w s s' o, feeds W s (routed kb w r) s' o) (λ w s, exists e, fails W s (routed kb w r) e) (ky_workers s))
      as [(ws' & os & H)|(w & sw & Hw & e & He)]; [intros; apply feeds_or_fails| |exists s, (Err e); right; by exists w, sw, e].
    destruct (merged_some os (ky_merge s)) as (m' & sent & Hm & _). exists (mkKey ws' m'), (Ok sent). left. by exists os, sent.
  - intros s. destruct (each_or_one (λ _ s s' o, on_close W s s' (Ok o)) (λ _ s, exists s' e, on_close W s s' (Err e)) (ky_workers s))
      as [(ws' & os & H)|(w & sw & Hw & sw' & e & He)]; [| |exists s, (Err e); right; by exists w, sw, sw', e].
    + intros _ sw. destruct (on_close_total W sw) as (s' & [o|e] & Hc); eauto.
    + destruct (merged_some os (ky_merge s)) as (m' & sent & Hm & Hf). exists (mkKey ws' m'), (Ok sent). left. by exists os, sent.
Defined.

(** ** The workers' streams *)

Lemma init_lookup w : (w < width)%nat -> ky_workers keyed_init !! w = Some (init w).
Proof. intros Hw. unfold keyed_init. cbn [ky_workers]. by rewrite list_lookup_imap, lookup_replicate_2. Qed.
Lemma init_length : length (ky_workers keyed_init) = width.
Proof. unfold keyed_init. cbn [ky_workers]. by rewrite length_imap, length_replicate. Qed.
(** Along a run, worker [w] has sent [outs !! w] for its share of the input,
    and the merge has taken its output from these. *)
Definition streams (h : list Rec) (s : keyState) (outs : list (list Rec)) : Prop :=
  length (ky_workers s) = width /\ length outs = width /\ mreach outs (ky_merge s) /\
  forall w sw, ky_workers s !! w = Some sw -> exists ow, outs !! w = Some ow /\ sends (procAt W (init w)) (h ≫= routed kb w) sw ow.
Lemma merged_streams os outs m m' sent : mreach outs m -> merged os m m' sent -> mreach (grow (λ w, default [] (os !! w)) outs) m'.
Proof. intros Hr [Hm _]. unfold mreach in *. etrans; [|exact Hm]. by apply feed_reach. Qed.
Lemma keyed_streams h s o : sends keyedProc h s o -> mout (ky_merge s) = o /\ exists outs, streams h s outs.
Proof.
  induction 1 as [|h s o r s' o' _ [IHo (outs & H1 & H2 & H3 & H4)] Hr].
  - split; [done|]. exists (replicate width []). change (ps_init keyedProc) with keyed_init.
    split_and!; [apply init_length|by rewrite length_replicate|apply rtc_refl|].
    intros w sw Hw. assert (Hlt : (w < width)%nat) by (rewrite <-init_length; by eapply lookup_lt_Some).
    rewrite init_lookup in Hw by done. injection Hw as <-. exists []. rewrite lookup_replicate_2 by done. split; [done|constructor].
  - destruct Hr as [(os & sent & (Hl1 & Hl2 & Hf) & Hm & [= ->])|(? & ? & ? & _ & _ & _ & ?)]; [|done].
    split; [destruct Hm as [_ ->]; by rewrite IHo|]. exists (grow (λ w, default [] (os !! w)) outs).
    split_and!; [congruence|unfold grow; by rewrite length_imap|by eapply merged_streams|]. intros w sw' Hw.
    assert (Hin : is_Some (ky_workers s !! w)) by (apply lookup_lt_is_Some; rewrite <-Hl1; by eapply lookup_lt_Some). destruct Hin as [sw Es].
    destruct (Hf w sw Es) as (s1 & o1 & E1 & E2 & Hfeed). pose proof (eq_trans (eq_sym E1) Hw) as Ew. injection Ew as <-. destruct (H4 w sw Es) as (ow & Eo & Hs).
    exists (ow ++ o1). rewrite grow_lookup, Eo, E2. split; [done|]. rewrite bind_app. cbn. rewrite app_nil_r.
    eapply sends_feeds; [exact Hs|by apply feeds_at].
Qed.
Lemma keyed_all h o : sends_all keyedProc h o -> exists outs m, length outs = width /\ mreach outs m /\ finished m /\ mout m = o /\
  forall w, (w < width)%nat -> exists ow, outs !! w = Some ow /\ sends_all (procAt W (init w)) (h ≫= routed kb w) ow.
Proof.
  intros (s & s' & o1 & o2 & Hs & Hc & ->). destruct (keyed_streams h s o1 Hs) as [Ho (outs & H1 & H2 & H3 & H4)].
  destruct Hc as [(os & sent & (Hl1 & Hl2 & Hf) & Hm & Hfin & [= ->])|(? & ? & ? & ? & _ & _ & _ & ?)]; [|done].
  exists (grow (λ w, default [] (os !! w)) outs), (ky_merge s'). split_and!; [unfold grow; by rewrite length_imap|by eapply merged_streams|done| |].
  - destruct Hm as [_ ->]. by rewrite Ho.
  - intros w Hw. assert (Hin : is_Some (ky_workers s !! w)) by (apply lookup_lt_is_Some; by rewrite H1). destruct Hin as [sw Es].
    destruct (Hf w sw Es) as (s1 & oc & _ & E2 & Hclose). destruct (H4 w sw Es) as (ow & Eo & Hsw).
    exists (ow ++ oc). rewrite grow_lookup, Eo, E2. split; [done|]. by exists sw, s1, ow, oc.
Qed.
End Keyed.

(** ** One worker's records in the merged stream *)

Definition concerns (p : Rec -> bool) (r : Rec) : bool := is_marker r || p r.
(** When only worker [w] sends records of a kind, the merged stream has them,
    and the markers, as that worker sent them. *)
Lemma emits_projects (p : Rec -> bool) w ss out ss' : emits ss out ss' -> forall l l', ss !! w = Some l -> ss' !! w = Some l' ->
  (forall w' x, w' <> w -> ss !! w' = Some x -> Forall (λ r, is_marker r = false -> p r = false) x) ->
  List.filter (concerns p) l = List.filter (concerns p) out ++ List.filter (concerns p) l'.
Proof.
  induction 1 as [ss|ss w' r rest out ss' Hw Hr _ IH|ss m rests out ss' Hm -> _ IH]; intros l l' Hl Hl' Hp.
  - rewrite Hl in Hl'. by injection Hl' as <-.
  - assert (Hlt : (w' < length ss)%nat) by (by eapply lookup_lt_Some). destruct (decide (w' = w)) as [->|Hne].
    + rewrite Hw in Hl. injection Hl as <-. cbn [List.filter]. rewrite (IH rest l'); [by destruct (concerns p r)|by rewrite list_lookup_insert_eq|done|].
      intros w' x Hne Hx. rewrite list_lookup_insert_ne in Hx by done. by apply (Hp w').
    + pose proof (Hp w' _ Hne Hw) as Hf. apply Forall_cons in Hf as [Hpr Hf]. cbn [List.filter].
      assert (Ec : concerns p r = false) by (unfold concerns; by rewrite Hr, (Hpr Hr)). rewrite Ec.
      apply IH; [by rewrite list_lookup_insert_ne|done|]. intros w2 x Hne2 Hx. destruct (decide (w' = w2)) as [->|Hn2].
      * rewrite list_lookup_insert_eq in Hx by done. by injection Hx as <-.
      * rewrite list_lookup_insert_ne in Hx by done. by apply (Hp w2).
  - rewrite list_lookup_fmap in Hl. destruct (rests !! w) as [l0|] eqn:E; [|done]. injection Hl as <-. cbn [List.filter].
    assert (Ec : concerns p m = true) by (unfold concerns; by rewrite Hm). rewrite Ec. cbn. f_equal. apply IH; [done|done|]. intros w' x Hne Hx. assert (Hx' : (cons m <$> rests) !! w' = Some (m :: x)) by (by rewrite list_lookup_fmap, Hx).
    apply Hp in Hx'; [|done]. by apply Forall_cons in Hx' as [_ ?].
Qed.

(** ** Reduce in the workers *)

Section ReduceFlow.
Context `{JT : JSONText} {B : Type} `{SB : StateBackend B} `{SL : !StateLaws B}.
Variables (Fn : slice -> Rec -> slice) (bs : bool) (ns : option (bytes -> B -> result bytes)).

Definition reduceProc (s0 : ReduceState B) : Proc.
Proof.
  refine (mkProc (ReduceState B) s0 (λ s r s' o, s' = (reduce_step Fn bs ns s r).1.1 /\ o = Ok (reduce_step Fn bs ns s r).1.2)
    (λ s s' o, s' = s /\ o = Ok []) _ _); eauto.
Defined.
Lemma reduce_snoc s h r : (reduce_process Fn bs ns s (h ++ [r])).1 =
  let '(s1, o1) := (reduce_process Fn bs ns s h).1 in ((reduce_step Fn bs ns s1 r).1.1, o1 ++ (reduce_step Fn bs ns s1 r).1.2).
Proof.
  revert s. induction h as [|x h IH]; intros s; cbn [reduce_process app].
  - cbn [fst]. destruct (reduce_step Fn bs ns s r) as [[s1 o1] n1]. cbn. by rewrite app_nil_r.
  - destruct (reduce_step Fn bs ns s x) as [[s1 o1] n1]. specialize (IH s1). destruct (reduce_process Fn bs ns s1 (h ++ [r])) as [[s2 o2] n2].
    destruct (reduce_process Fn bs ns s1 h) as [[s3 o3] n3]. cbn in *. injection IH as -> ->. by rewrite (assoc_L (++)).
Qed.
Lemma reduce_sends s0 s1 h s o : sends (procAt (reduceProc s1) s0) h s o -> (reduce_process Fn bs ns s0 h).1 = (s, o).
Proof. induction 1 as [|h s o r s' o' _ IH [-> [= ->]]]; [done|]. by rewrite reduce_snoc, IH. Qed.
Lemma reduce_all s0 s1 h o : sends_all (procAt (reduceProc s1) s0) h o -> o = (reduce_process Fn bs ns s0 h).1.2.
Proof. intros (s & s' & o1 & o2 & Hs & [_ [= ->]] & ->). by rewrite (reduce_sends _ _ _ _ _ Hs), app_nil_r. Qed.

(** What [Reduce] sends for a record, and what it sends for one key: with
    every record of the key the fold so far. *)
Definition red_out (r : Rec) (a : slice) : Rec := mkRec (Key r) a (Timestamp r) (Offset r) 0 (Headers r) AnyNil false false [].
Definition has_key (k : bytes) (r : Rec) : bool := bool_decide (str (Key r) = k).
Fixpoint running (k : bytes) (acc : slice) (l : list Rec) : list Rec :=
  match l with
  | [] => []
  | r :: l =>
      if is_marker r then r :: running k acc l
      else if has_key k r then red_out r (Fn acc r) :: running k (Some (str (Fn acc r))) l
      else running k acc l
  end.
(** Records that no window operator has stamped, with keys the backend takes. *)
Definition plain (r : Rec) : Prop := is_marker r = false -> Headers r !! hWindowStart = None /\ Headers r !! hWindowEnd = None /\ good reduceNS (str (Key r)).

Lemma step_marker s r : is_marker r = true -> (reduce_step Fn bs ns s r).1 = (s, [r]).
Proof. unfold is_marker, reduce_step. destruct (IsWatermark r); [done|]. destruct (IsBarrier r); done. Qed.
Lemma step_plain s r : red_ok s -> plain r -> is_marker r = false -> let k := str (Key r) in
  (reduce_step Fn bs ns s r).1.2 = [red_out r (Fn (red_view s !! k) r)] /\ red_ok (reduce_step Fn bs ns s r).1.1 /\
  forall k', red_view (reduce_step Fn bs ns s r).1.1 !! k' = if decide (k' = k) then Some (str (Fn (red_view s !! k) r)) else red_view s !! k'.
Proof.
  intros Hok Hp Hm k. destruct (Hp Hm) as (Hws & Hwe & Hg).
  assert (Hk : StateKey r = k) by (unfold StateKey; by rewrite Hws). assert (Hd : is_data r = true) by (unfold is_data; by rewrite Hm).
  destruct (reduce_step_spec Fn bs ns s r Hok) as (H1 & H2 & H3); [by rewrite Hk|done|].
  assert (Hf : windowFrontier (reduce_step Fn bs ns s r).1.1 = windowFrontier s).
  { unfold reduce_step, advanceWindowFrontier. rewrite Hwe. by repeat case_match. }
  split_and!; [|done|].
  - unfold is_marker in Hm. apply orb_false_iff in Hm as [Hb Hw]. unfold reduce_step. rewrite Hb, Hw. cbv zeta. cbn [fst snd]. unfold red_out.
    destruct Hok as [Hok Hn]. unfold vs_Get, red_view. cbn [vs_SetKey vs_backend vs_name vs_key]. by rewrite Hn, Hk, get_view.
  - intros k'. rewrite H3, Hf, Hk. rewrite bool_decide_false by lia. cbn. destruct (decide (k' = k)) as [->|]; done.
Qed.
Lemma reduce_running k l : forall s, red_ok s -> Forall plain l ->
  List.filter (concerns (has_key k)) (reduce_process Fn bs ns s l).1.2 = running k (red_view s !! k) l.
Proof.
  induction l as [|r l IH]; intros s Hok Hp; [done|]. apply Forall_cons in Hp as [Hr Hp]. cbn [reduce_process running].
  destruct (is_marker r) eqn:Em.
  - pose proof (step_marker s r Em) as E. destruct (reduce_step Fn bs ns s r) as [[s1 o1] n1]. cbn in E. injection E as -> ->.
    specialize (IH s Hok Hp). destruct (reduce_process Fn bs ns s l) as [[s2 o2] n2].
    cbn [fst snd app List.filter] in *. unfold concerns at 1. by rewrite Em, IH.
  - destruct (step_plain s r Hok Hr Em) as (Eo & Hok1 & Hv). destruct (reduce_step Fn bs ns s r) as [[s1 o1] n1]. cbn in Eo, Hok1, Hv. subst o1.
    specialize (IH s1 Hok1 Hp). rewrite Hv in IH. destruct (reduce_process Fn bs ns s1 l) as [[s2 o2] n2]. cbn [fst snd app List.filter] in *. rewrite IH.
    change (concerns (has_key k) (red_out r (Fn (red_view s !! str (Key r)) r))) with (has_key k r). unfold has_key.
    destruct (decide (k = str (Key r))) as [->|Hne]; [by rewrite bool_decide_true|by rewrite bool_decide_false].
Qed.
(** Markers pass, and a record leaves under its key. *)
Lemma reduce_markers l : forall s, markers (reduce_process Fn bs ns s l).1.2 = markers l.
Proof.
  induction l as [|r l IH]; intros s; [done|]. cbn [reduce_process]. destruct (is_marker r) eqn:Em.
  - pose proof (step_marker s r Em) as E. destruct (reduce_step Fn bs ns s r) as [[s1 o1] n1]. cbn in E. injection E as -> ->.
    specialize (IH s). destruct (reduce_process Fn bs ns s l) as [[s2 o2] n2]. cbn [fst snd app] in *. by rewrite !markers_cons, Em, IH.
  - unfold reduce_step. unfold is_marker in Em. apply orb_false_iff in Em as [Hb Hw]. rewrite Hb, Hw. cbv zeta.
    match goal with |- context [reduce_process _ _ _ ?s1 l] => specialize (IH s1); destruct (reduce_process Fn bs ns s1 l) as [[s2 o2] n2] end.
    cbn [fst snd app] in *. rewrite !markers_cons. unfold is_marker. cbn [IsBarrier IsWatermark]. by rewrite Hb, Hw.
Qed.
Lemma reduce_keys (P : slice -> Prop) l : Forall (λ r, is_marker r = false -> P (Key r)) l ->
  forall s, Forall (λ r, is_marker r = false -> P (Key r)) (reduce_process Fn bs ns s l).1.2.
Proof.
  induction 1 as [|r l Hr _ IH]; intros s; [constructor|]. cbn [reduce_process]. destruct (is_marker r) eqn:Em.
  - pose proof (step_marker s r Em) as E. destruct (reduce_step Fn bs ns s r) as [[s1 o1] n1]. cbn in E. injection E as -> ->.
    specialize (IH s). destruct (reduce_process Fn bs ns s l) as [[s2 o2] n2]. constructor; [by rewrite Em|done].
  - unfold reduce_step. pose proof Em as Em'. unfold is_marker in Em. apply orb_false_iff in Em as [Hb Hw]. rewrite Hb, Hw. cbv zeta.
    match goal with |- context [reduce_process _ _ _ ?s1 l] => specialize (IH s1); destruct (reduce_process Fn bs ns s1 l) as [[s2 o2] n2] end.
    cbn in *. constructor; [|done]. cbn. intros _. by apply Hr.
Qed.

(** ** The keyed stage with [Reduce] *)

Variables (kb : KeyByOperator) (init : nat -> ReduceState B).
Definition reduceStage : Proc := keyedProc kb (reduceProc (init 0)) init.
Definition worker_of (k : bytes) : nat := Z.to_nat (RouteKey kb (Some k)).
Definition routes_plain (l : list Rec) : Prop :=
  Forall (λ r, is_marker r = false -> Headers r !! hWindowStart = None /\ Headers r !! hWindowEnd = None /\ good reduceNS (str (SelectKey kb r))) l.

Lemma routed_key w r x : x ∈ routed kb w r -> is_marker x = false -> x = rekeyed kb r /\ is_marker r = false /\ worker_of (str (Key x)) = w.
Proof.
  unfold routed. destruct (is_marker r) eqn:Em; [intros ->%list_elem_of_singleton; by rewrite Em|]. destruct (decide _) as [E|]; [|by intros ?%elem_of_nil].
  intros ->%list_elem_of_singleton _. split_and!; [done|done|]. rewrite str_rekeyed by done. rewrite <- E. unfold worker_of, Route. by f_equal; apply RouteKey_str.
Qed.
Lemma share_plain w l : routes_plain l -> Forall plain (l ≫= routed kb w).
Proof.
  intros Hp. apply Forall_bind. eapply Forall_impl; [exact Hp|]. intros r Hr. apply Forall_forall. intros x Hx Hm.
  destruct (routed_key w r x Hx Hm) as (-> & Em & _). rewrite str_rekeyed by done. unfold rekeyed. rewrite Em. cbn. by apply Hr.
Qed.
Lemma share_keys w l : Forall (λ x, is_marker x = false -> worker_of (str (Key x)) = w) (l ≫= routed kb w).
Proof. apply Forall_bind, Forall_forall. intros r _. apply Forall_forall. intros x Hx Hm. by destruct (routed_key w r x Hx Hm) as (_ & _ & ?). Qed.
Lemma share_markers w l : markers (l ≫= routed kb w) = markers l.
Proof.
  induction l as [|r l IH]; [done|]. rewrite bind_cons, markers_app, markers_cons, IH. unfold routed. destruct (is_marker r) eqn:Em.
  - by rewrite markers_cons, Em.
  - destruct (decide _); [|done]. by rewrite markers_cons, rekeyed_marker, Em.
Qed.
(** The worker of a key sees the key's records as the whole stream has them. *)
Lemma running_share k l : forall acc, running k acc (l ≫= routed kb (worker_of k)) = running k acc (rekeyed kb <$> l).
Proof.
  induction l as [|r l IH]; intros acc; [done|]. rewrite bind_cons, fmap_cons. cbn [running]. rewrite rekeyed_marker.
  unfold routed at 1. destruct (is_marker r) eqn:Em.
  - cbn [app running]. rewrite Em, IH. unfold rekeyed. by rewrite Em.
  - destruct (decide _) as [E|Hne].
    + cbn [app running]. rewrite rekeyed_marker, Em. by destruct (has_key k (rekeyed kb r)); rewrite IH.
    + cbn [app]. rewrite IH. unfold has_key. rewrite str_rekeyed by done. rewrite bool_decide_false; [done|]. intros Ek. apply Hne.
      unfold worker_of, Route. f_equal. by apply RouteKey_str.
Qed.

Lemma reduce_stage_all h o : 0 < Partitions kb -> (forall w, red_ok (init w)) -> routes_plain h -> sends_all reduceStage h o ->
  forall k, List.filter (concerns (has_key k)) o = running k (red_view (init (worker_of k)) !! k) (rekeyed kb <$> h).
Proof.
  intros Hp Hok Hpl Hall k. destruct (keyed_all _ _ _ _ _ Hall) as (outs & m & Hlen & Hr & Hf & <- & Hw).
  assert (Hout : forall w ow, outs !! w = Some ow -> ow = (reduce_process Fn bs ns (init w) (h ≫= routed kb w)).1.2).
  { intros w ow Ho. assert (Hlt : (w < width kb)%nat) by (rewrite <-Hlen; by eapply lookup_lt_Some).
    destruct (Hw w Hlt) as (ow' & Eo & Hs). rewrite Ho in Eo. injection Eo as <-. by eapply reduce_all. }
  assert (Hal : aligned outs).
  { exists (markers h). apply Forall_lookup. intros w ow Ho. by rewrite (Hout w ow Ho), reduce_markers, share_markers. }
  destruct (merge_drains outs m Hal Hr Hf) as (Hem & _).
  assert (Hlt : (worker_of k < width kb)%nat).
  { unfold worker_of, width. pose proof (RouteKey_range kb (Some k) Hp). lia. }
  destruct (Hw _ Hlt) as (ow & Eo & _).
  pose proof (emits_projects (has_key k) (worker_of k) _ _ _ Hem ow [] Eo) as H. cbn [List.filter] in H. rewrite app_nil_r in H. rewrite <-H.
  - rewrite (Hout _ _ Eo), reduce_running; [apply running_share|apply Hok|by apply share_plain].
  - by rewrite list_lookup_fmap, Eo.
  - intros w' x Hne Hx. rewrite (Hout w' x Hx). eapply Forall_impl; [apply (reduce_keys (λ key, worker_of (str key) = w')), share_keys|].
    cbn. intros r Hr' Hm. unfold has_key. apply bool_decide_eq_false. intros <-. by apply Hne, eq_sym, Hr'.
Qed.
End ReduceFlow.

(** ** A pipeline with a keyed stage *)

Lemma seg_Forall (P : Rec -> Prop) l l' : seg_equiv l l' -> Forall P l -> Forall P l'.
Proof.
  induction 1 as [l l' _ E|a a' m l l' _ E _ _ IH]; [by rewrite E|]. rewrite !Forall_app, !Forall_cons. intros (Ha & Hm & Hl).
  split_and!; [by rewrite <-E|done|by apply IH].
Qed.
(** The injector adds only barriers. *)
Lemma injected_records nonce evs : Forall (λ r, is_marker r = false -> r ∈ omap ev_record evs) (inj_out (injectBarriers nonce evs)).
Proof.
  unfold injectBarriers. induction evs as [|e evs IH] using rev_ind; [constructor|]. rewrite foldl_app, omap_app. cbn [foldl].
  set (s := foldl (inj_step nonce) inj_init evs) in *.
  assert (Hold : Forall (λ r, is_marker r = false -> r ∈ omap ev_record evs ++ omap ev_record [e]) (inj_out s))
    by (eapply Forall_impl; [exact IH|]; cbn; intros r Hr Hm; apply elem_of_app; left; by apply Hr).
  unfold inj_step. destruct (mode s), e as [| | | |[]]; cbn [inj_out inj_forward inj_barrier inj_forward_cut inj_barrier_cut]; try done; apply Forall_app; (split; [done|]); repeat constructor; try done.
  all: intros _; apply elem_of_app; right; by left.
Qed.
Lemma injected_Forall (P : Rec -> Prop) sps nonce h o : injected nonce h o -> (forall r, is_marker r = true -> P r) -> Forall P (h ≫= stage_spec sps) ->
  Forall P (o ≫= stage_spec sps).
Proof.
  intros (evs & _ & <- & ->) Hmk H. apply Forall_bind. eapply Forall_impl; [apply injected_records|]. cbn. intros r Hr. destruct (is_marker r) eqn:Em.
  - rewrite stage_spec_marker by done. constructor; [by apply Hmk|constructor].
  - rewrite Forall_forall in H |- *. intros y Hy. apply H, list_elem_of_bind. exists r. split; [done|].
    specialize (Hr eq_refl). rewrite omap_app in Hr. cbn in Hr. by rewrite app_nil_r in Hr.
Qed.
Lemma reduce_stays `{JT : JSONText} {B : Type} `{SB : StateBackend B} `{SL : !StateLaws B} Fn bs ns kb (init : nat -> ReduceState B) : stays (reduceStage Fn bs ns kb init).
Proof. apply mkProc_stays. Qed.

(** C13: a pipeline with a keyed [Reduce] does what a single [Reduce] would.
    Stateless stages with any number of workers before and after a keyed stage
    with any number of partitions, wired as [Execute] wires them, with or without
    checkpoints, ending in a sink whose [Write] reads its input to the end: every
    run ends, none gets stuck, and in a run that was neither cut short nor failed
    the keyed stage received the source's records taken through the first
    operators (in an order that differs between two markers only), sent for
    every key, between the same markers, the running fold of exactly that key's
    records in the order received, the last operators took what it sent to the
    sink stage, and the sink's [Write] is handed that without the watermarks and,
    unless it is a CheckpointedSink, without the barriers. *)
Theorem keyed_dataflow `{JT : JSONText} {B : Type} `{SB : StateBackend B} `{SL : !StateLaws B}
    (nonce : Z) (checkpoints coordinated checkpointed : bool) (cap : nat) (before after : list (nat * list SingleProcessor))
    (Fn : slice -> Rec -> slice) (bs : bool) (ns : option (bytes -> B -> result bytes)) (kb : KeyByOperator) (init : nat -> ReduceState B)
    (produced : list Rec) (N : net) :
  (0 < cap)%nat -> data_plan before -> data_plan after -> 0 < Partitions kb -> (forall w, red_ok (init w)) ->
  routes_plain kb (produced ≫= stage_spec (before ≫= snd)) ->
  net_reach (wire checkpoints coordinated (injectProc nonce) forwardProc cap forwardProc
    (stages_of before ++ reduceStage Fn bs ns kb init :: stages_of after) (sinkProc checkpointed false)) produced N ->
  Acc (flip net_step) N /\
  (Forall (λ n, is_finished n = true) (nodes N) \/ exists N', net_step N N') /\
  (Forall (λ n, is_finished n = true) (nodes N) -> hard N = false -> ctx N = false -> exists fed keyed sink,
     fed_by_source nonce checkpoints produced fed /\
     nodes N !! (S ((if checkpoints then 1 else 0) + length before))%nat = Some keyed /\ last (nodes N) = Some sink /\
     seg_equiv (fed ≫= stage_spec (before ≫= snd)) (nd_in keyed) /\
     (forall k, List.filter (concerns (has_key k)) (nd_out keyed)
        = running Fn k (red_view (init (worker_of kb k)) !! k) (rekeyed kb <$> nd_in keyed)) /\
     seg_equiv (nd_out keyed ≫= stage_spec (after ≫= snd)) (nd_in sink) /\
     nd_out sink = List.filter (λ r, negb (IsWatermark r) && (negb (IsBarrier r) || checkpointed)) (nd_in sink)).
Proof.
  intros Hcap Hk1 Hk2 Hp Hok Hpl Hr.
  assert (Hst : all_stay (wire checkpoints coordinated (injectProc nonce) forwardProc cap forwardProc
    (stages_of before ++ reduceStage Fn bs ns kb init :: stages_of after) (sinkProc checkpointed false))).
  { apply wire_stays; auto with stays. apply Forall_app. split; [apply stages_stay|]. constructor; [apply reduce_stays|apply stages_stay]. }
  pose proof (inv_reach _ _ _ Hst Hr) as Hinv.
  split_and!; [apply steps_end|eapply net_progress; [by apply wire_room|exact Hinv]|]. intros Hf Hh Hc.
  destruct (wired_upto _ _ _ _ _ _ _ _ _ _ Hst Hr Hf Hh Hc) as (fed & keyed & He & Hn & H1 & H2).
  destruct (wired_from _ _ _ _ _ _ _ _ _ _ _ Hst Hr Hf Hh Hn) as (sink & Hl & H3 & H4).
  apply stages_all in H1; [|done]. exists fed, keyed, sink. split_and!; [done| |done|done| |by apply stages_all|by apply sink_passes].
  - rewrite <- Hn. unfold stages_of. by rewrite length_fmap.
  - apply (reduce_stage_all Fn bs ns kb init (nd_in keyed) (nd_out keyed)); [done|done| |done]. eapply seg_Forall; [exact H1|].
    unfold fed_by_source in He. destruct checkpoints; [|by subst fed]. eapply injected_Forall; [exact He|intros r Hm Hd; congruence|done].
Qed.

(** ** A run: one record through a keyed stage of four partitions *)

Lemma feeds_reduce `{JT : JSONText} {B : Type} `{SB : StateBackend B} `{SL : !StateLaws B} Fn bs ns (s0 : ReduceState B) l : forall s,
  feeds (reduceProc Fn bs ns s0) s l (reduce_process Fn bs ns s l).1.1 (reduce_process Fn bs ns s l).1.2.
Proof.
  induction l as [|r l IH]; intros s; [constructor|]. cbn [reduce_process]. specialize (IH (reduce_step Fn bs ns s r).1.1).
  assert (H1 : on_rec (reduceProc Fn bs ns s0) s r (reduce_step Fn bs ns s r).1.1 (Ok (reduce_step Fn bs ns s r).1.2)) by done.
  destruct (reduce_step Fn bs ns s r) as [[s1 o1] n1]. cbn [fst snd] in *.
  destruct (reduce_process Fn bs ns s1 l) as [[s2 o2] n2]. cbn [fst snd] in *. by econstructor.
Qed.

Definition memInit (_ : nat) : ReduceState MemoryBackend := reduce_open NewMemoryBackend.
Definition sumWorker : Proc := reduceProc unary false None (memInit 0).
Definition sumStage : Proc := reduceStage unary false None keyedBy memInit.
Definition oneKeyed : list Rec := [keyed "a" 1].
Definition keyedNet : list (Proc * nat) := wire false false (injectProc 0) forwardProc 2 forwardProc (stages_of [] ++ sumStage :: stages_of []) (sinkProc false false).

Definition fed_by (r : Rec) (ws : list (ReduceState MemoryBackend)) : list (ReduceState MemoryBackend * list Rec) :=
  imap (λ w s, (reduce_process unary false None s (routed keyedBy w r)).1) ws.
Definition kStart : keyState sumWorker := keyed_init keyedBy sumWorker memInit.
Definition kFed : keyState sumWorker :=
  mkKey sumWorker (fed_by (keyed "a" 1) (ky_workers sumWorker kStart)).*1
    (feed (λ w, default [] ((fed_by (keyed "a" 1) (ky_workers sumWorker kStart)).*2 !! w)) (ky_merge sumWorker kStart)).
Lemma k_fed : keyed_rec keyedBy sumWorker kStart (keyed "a" 1) kFed (Ok []).
Proof.
  left. exists (fed_by (keyed "a" 1) (ky_workers sumWorker kStart)).*2, []. split_and!; [|split; [apply rtc_refl|by rewrite app_nil_r]|done].
  unfold all_fed. split_and!; [reflexivity..|]. intros w s Hs.
  exists (reduce_process unary false None s (routed keyedBy w (keyed "a" 1))).1.1, (reduce_process unary false None s (routed keyedBy w (keyed "a" 1))).1.2.
  split_and!; [| |apply feeds_reduce]; do 4 (destruct w as [|w]; [injection Hs as <-; reflexivity|]); by destruct w.
Qed.

Definition kMoves : list choice := [CForward (worker_of keyedBy (b "a")); CRecv].
Definition kDone : keyState sumWorker := mkKey sumWorker (ky_workers sumWorker kFed) (default (merge_init []) (mrun (ky_merge sumWorker kFed) kMoves)).
Definition summed : Rec := red_out (keyed "a" 1) (Some (b "x")).
Lemma k_done : keyed_close sumWorker kFed kDone (Ok [summed]).
Proof.
  left. exists (replicate 4 []), [summed]. split_and!; [| |apply finishedb_sound; vm_compute; reflexivity|done].
  - unfold all_closed. split_and!; [reflexivity..|]. intros w s Hs. exists s, []. split_and!; [exact Hs| |done].
    do 4 (destruct w as [|w]; [reflexivity|]); by destruct w.
  - split; [|vm_compute; reflexivity]. apply rtc_nsteps. exists 2%nat. apply (mrun_sound _ kMoves). vm_compute. reflexivity.
Qed.

Definition keyAt (st : keyState sumWorker) (buf inp : list Rec) : node := mkNode sumStage 2 st buf inp [] [] Open.
Lemma keyed_run : exists N, net_reach keyedNet oneKeyed N /\ Forall (λ n, is_finished n = true) (nodes N) /\ hard N = false /\ ctx N = false /\
  nd_out <$> last (nodes N) = Some [summed].
Proof.
  pose proof (Launched keyedNet oneKeyed) as H. unfold net_launch, keyedNet, wire, fresh_node in H. cbn [app fmap list_fmap stages_of fst snd] in H.
  set (r := keyed "a" 1) in *. change oneKeyed with [r] in *.
  go H ltac:(apply (Take _ 0%nat (fwdAt 256 [r] [] []) r tt [r]); reflexivity).
  go H ltac:(eapply (Send _ 0%nat _ r); [reflexivity..|intros n [= <-]; cbn; lia]).
  go H ltac:(apply (SeeClose _ 0%nat (fwdAt 256 [] [r] [r]) tt []); first [reflexivity|exact I]).
  go H ltac:(eapply (Finish _ 0%nat); reflexivity).
  go H ltac:(apply (Take _ 1%nat (keyAt kStart [r] []) r kFed []); [reflexivity..|exact k_fed]).
  go H ltac:(apply (SeeClose _ 1%nat (keyAt kFed [] [r]) kDone [summed]); [reflexivity..|eexists; split; reflexivity|exact k_done]).
  go H ltac:(eapply (Send _ 1%nat _ summed); [reflexivity..|intros n [= <-]; cbn; lia]).
  go H ltac:(eapply (Finish _ 1%nat); reflexivity).
  go H ltac:(apply (Take _ 2%nat (sinkAt 2 [summed] [] []) summed tt [summed]); reflexivity).
  go H ltac:(eapply (Send _ 2%nat _ summed); [reflexivity..|intros n [=]]).
  go H ltac:(apply (SeeClose _ 2%nat (sinkAt 2 [] [summed] [summed]) tt []); [reflexivity..|eexists; split; reflexivity|reflexivity]).
  go H ltac:(eapply (Finish _ 2%nat); reflexivity).
  eexists. split; [exact H|]. split; [repeat constructor|]. repeat split.
Qed.
Lemma keyed_dataflow_witness : exists N keyed sink, net_reach keyedNet oneKeyed N /\ nodes N !! 1%nat = Some keyed /\ last (nodes N) = Some sink /\
  nd_out sink = [summed] /\ seg_equiv (oneKeyed ≫= stage_spec []) (nd_in keyed) /\
  List.filter (concerns (has_key (b "a"))) (nd_out keyed) = running unary (b "a") None (rekeyed keyedBy <$> nd_in keyed).
Proof.
  destruct keyed_run as (N & Hr & Hf & Hh & Hc & Ho).
  destruct (keyed_dataflow 0 false false false 2 [] [] unary false None keyedBy memInit oneKeyed N) as (_ & _ & H);
    [lia|constructor|constructor|reflexivity|intros w; apply red_ok_open, mem_ok_new| |exact Hr|].
  { repeat constructor. }
  destruct (H Hf Hh Hc) as (fed & keyed & sink & -> & Hn & Hl & Hs & Hk & _ & _). exists N, keyed, sink.
  split_and!; [exact Hr|exact Hn|exact Hl| |exact Hs|exact (Hk (b "a"))]. rewrite Hl in Ho. by injection Ho.
Defined.
