(* ===== verification/Gauges.v ===== *)
(** * Package pipeline: counters, timers and gauges

    What a stage counts and times (metrics.go, the latency batcher of
    markers.go, the counted and timed reads of keyed_stage.go), the goroutines
    of a channel stage (stage.go), and the edge sampler.  The wrappers are
    processes on the net of [Wiring]: they pass records on and keep a state of
    their own.  Clock readings are any integers. *)
From S2P Require Import Prelude Paths GoTime Strconv Types Json State Operators Reduce Merge Stages Engine Wiring.

(** ** The latency batcher *)

(** Records since the last observation, when that was, and the observations:
    elapsed time and records, whose quotient is what is observed. *)
Record latencyBatcher : Type := mkLat { lb_n : Z; lb_start : Z; lb_observed : list (Z * Z) }.
Definition newLatencyBatcher (now : Z) : latencyBatcher := mkLat 0 now [].
Definition tick (now restart : Z) (l : latencyBatcher) : latencyBatcher :=
  let n := lb_n l + 1 in
  if 100 <=? n then mkLat 0 restart (lb_observed l ++ [(now - lb_start l, n)]) else mkLat n (lb_start l) (lb_observed l).
Definition flush (now : Z) (l : latencyBatcher) : latencyBatcher :=
  if 0 <? lb_n l then mkLat 0 (lb_start l) (lb_observed l ++ [(now - lb_start l, lb_n l)]) else l.

(** Full batches, and the records not yet observed. *)
Definition lat_ok (ticks : Z) (l : latencyBatcher) : Prop :=
  0 <= lb_n l < 100 /\ Forall (λ o : Z * Z, o.2 = 100) (lb_observed l) /\ ticks = 100 * Z.of_nat (length (lb_observed l)) + lb_n l.
Lemma tick_ok k now restart l : lat_ok k l -> lat_ok (k + 1) (tick now restart l).
Proof.
  intros (Hn & Hf & ->). unfold tick. cbv zeta. destruct (Z.leb_spec 100 (lb_n l + 1)); unfold lat_ok; cbn [lb_n lb_observed].
  - rewrite length_app, Forall_app. cbn [length]. split_and!; [lia|lia|done| |lia]. repeat constructor. cbn. lia.
  - split_and!; [lia|lia|done|lia].
Qed.
(** Every record is in exactly one observation once the batcher was flushed. *)
Lemma flush_accounts k now l : lat_ok k l ->
  Forall (λ o : Z * Z, 0 < o.2 <= 100) (lb_observed (flush now l)) /\ foldr (λ (o : Z * Z) a, o.2 + a) 0 (lb_observed (flush now l)) = k.
Proof.
  intros (Hn & Hf & ->). assert (Hs : forall obs, Forall (λ o : Z * Z, o.2 = 100) obs ->
    Forall (λ o : Z * Z, 0 < o.2 <= 100) obs /\ forall a, foldr (λ (o : Z * Z) a, o.2 + a) a obs = 100 * Z.of_nat (length obs) + a).
  { clear. induction 1 as [|o obs Ho _ [IH1 IH2]]; [by split|]. split; [constructor; [lia|done]|]. intros a. cbn [foldr length]. rewrite IH2. lia. }
  destruct (Hs _ Hf) as [H1 H2]. unfold flush. destruct (Z.ltb_spec 0 (lb_n l)); cbn [lb_observed].
  - rewrite Forall_app, foldr_app, H2. cbn. split; [split; [done|repeat constructor; cbn; lia]|lia].
  - rewrite H2. split; [done|lia].
Qed.

(** ** Counting and timing reads *)

Definition data_count (l : list Rec) : Z := Z.of_nat (length (datas l)).
Lemma data_count_snoc l r : data_count (l ++ [r]) = data_count l + (if is_marker r then 0 else 1).
Proof. unfold data_count, datas. rewrite List.filter_app, length_app. cbn. destruct (is_marker r); cbn; lia. Qed.

(** [stageMetrics.countIn] in front of a reader. *)
Definition countIn (r : Rec) (n : Z) : Z := if negb (IsBarrier r) && negb (IsWatermark r) then n + 1 else n.
Lemma countIn_marker r n : countIn r n = n + (if is_marker r then 0 else 1).
Proof. unfold countIn, is_marker. destruct (IsBarrier r), (IsWatermark r); cbn; lia. Qed.
Definition countedProc : Proc.
Proof. refine (mkProc Z 0 (λ n r n' o, n' = countIn r n /\ o = Ok [r]) (λ n n' o, n' = n /\ o = Ok []) _ _); eauto. Defined.
(** [workerCountedRead]: every record, markers included. *)
Definition workerCountedRead : Proc.
Proof. refine (mkProc Z 0 (λ n r n' o, n' = n + 1 /\ o = Ok [r]) (λ n n' o, n' = n /\ o = Ok []) _ _); eauto. Defined.
(** [workerTimedRead]. *)
Definition workerTimedRead (start : Z) : Proc.
Proof.
  refine (mkProc latencyBatcher (newLatencyBatcher start) (λ l r l' o, exists now restart, l' = tick now restart l /\ o = Ok [r])
    (λ l l' o, exists now, l' = flush now l /\ o = Ok []) _ _).
  - intros l r. exists (tick 0 0 l), (Ok [r]), 0, 0. done.
  - intros l. exists (flush 0 l), (Ok []), 0. done.
Defined.

(** What a process has done when it has seen the end of its input. *)
Definition ends_in (P : Proc) (h : list Rec) (s : ps P) (o : list Rec) : Prop :=
  exists s0 o1 o2, sends P h s0 o1 /\ on_close P s0 s (Ok o2) /\ o = o1 ++ o2.
Lemma ends_all P h s o : ends_in P h s o -> sends_all P h o.
Proof. intros (s0 & o1 & o2 & H1 & H2 & ->). by exists s0, s, o1, o2. Qed.

Lemma counted_sends h n o : sends countedProc h n o -> o = h /\ n = data_count h.
Proof. induction 1 as [|h n o r n' o' _ [-> ->] [-> [= ->]]]; [done|]. by rewrite countIn_marker, data_count_snoc. Qed.
Lemma counted_ends h n o : ends_in countedProc h n o -> o = h /\ n = data_count h.
Proof. intros (s0 & o1 & o2 & [-> ->]%counted_sends & [-> [= ->]] & ->). by rewrite app_nil_r. Qed.
Lemma workerCounted_ends h n o : ends_in workerCountedRead h n o -> o = h /\ n = Z.of_nat (length h).
Proof.
  intros (s0 & o1 & o2 & Hs & [-> [= ->]] & ->). rewrite app_nil_r.
  induction Hs as [|h n0 o r n' o' _ [-> ->] [-> [= ->]]]; [done|]. rewrite length_app. cbn. split; [done|lia].
Qed.
Lemma timed_sends start h l o : sends (workerTimedRead start) h l o -> o = h /\ lat_ok (Z.of_nat (length h)) l.
Proof.
  induction 1 as [|h l o r l' o' _ [-> IH] (now & restart & -> & [= ->])].
  - split; [done|]. unfold lat_ok. cbn. split_and!; [lia|lia|constructor|lia].
  - split; [done|]. rewrite length_app. cbn [length]. replace (Z.of_nat (length h + 1)) with (Z.of_nat (length h) + 1) by lia. by apply tick_ok.
Qed.
(** The wrapped reads of a keyed worker change nothing and account for every
    record: the counter is the number of records read, and each record is in
    exactly one latency observation of at most a hundred. *)
Theorem wrapped_reads_transparent (start : Z) (h mid out : list Rec) (n : Z) (l : latencyBatcher) :
  ends_in workerCountedRead h n mid -> ends_in (workerTimedRead start) mid l out ->
  out = h /\ n = Z.of_nat (length h) /\ Forall (λ o : Z * Z, 0 < o.2 <= 100) (lb_observed l) /\
  foldr (λ (o : Z * Z) a, o.2 + a) 0 (lb_observed l) = n.
Proof.
  intros [-> ->]%workerCounted_ends (l0 & o1 & o2 & [-> Hl]%timed_sends & (now & -> & [= ->]) & ->). rewrite app_nil_r.
  destruct (flush_accounts _ now l0 Hl) as [H1 H2]. by split_and!.
Qed.

(** ** The channel stage *)

(** What its sending loop keeps: [RecordsProcessedTotal], the batcher, and the
    stage's records out and time blocked. *)
Record emitState : Type := mkEmit { em_processed : Z; em_lat : latencyBatcher; em_out : Z; em_blocked : Z }.
(** [stageMetrics.send]: into a free slot at once, or after waiting [blocked]. *)
Definition sm_send (r : Rec) (blocked : option Z) (s : emitState) : emitState :=
  mkEmit (em_processed s) (em_lat s) (countIn r (em_out s)) (em_blocked s + default 0 blocked).
Definition emit_one (r : Rec) (now restart : Z) (blocked : option Z) (s : emitState) : emitState :=
  sm_send r blocked (mkEmit (em_processed s + 1) (tick now restart (em_lat s)) (em_out s) (em_blocked s)).
Definition emitProc (start : Z) : Proc.
Proof.
  refine (mkProc emitState (mkEmit 0 (newLatencyBatcher start) 0 0)
    (λ s r s' o, exists now restart blocked, (forall d, blocked = Some d -> 0 <= d) /\ s' = emit_one r now restart blocked s /\ o = Ok [r])
    (λ s s' o, exists now, s' = mkEmit (em_processed s) (flush now (em_lat s)) (em_out s) (em_blocked s) /\ o = Ok []) _ _).
  - intros s r. exists (emit_one r 0 0 None s), (Ok [r]), 0, 0, None. split_and!; done.
  - intros s. eexists _, (Ok []), 0. done.
Defined.
(** [ChannelStage.Run]: three goroutines over two channels of [internalBuf]. *)
Definition internalBuf : nat := 256.
Definition channelStage (op : Proc) (start : Z) (cap : nat) : list (Proc * nat) := [(countedProc, cap); (op, internalBuf); (emitProc start, internalBuf)].

Lemma emit_sends start h s o : sends (emitProc start) h s o ->
  o = h /\ em_processed s = Z.of_nat (length h) /\ em_out s = data_count h /\ 0 <= em_blocked s /\ lat_ok (Z.of_nat (length h)) (em_lat s).
Proof.
  induction 1 as [|h s o r s' o' _ (-> & IH1 & IH2 & IH3 & IH4) (now & restart & bl & Hb & -> & [= ->])].
  - cbn. split_and!; [done..|]. unfold lat_ok. cbn. split_and!; [lia|lia|constructor|lia].
  - unfold emit_one, sm_send. cbn. rewrite IH1, IH2, countIn_marker, data_count_snoc, length_app. cbn [length].
    replace (Z.of_nat (length h + 1)) with (Z.of_nat (length h) + 1) by lia. split_and!; [done..| |by apply tick_ok].
    destruct bl as [d|]; cbn; [specialize (Hb d eq_refl)|]; lia.
Qed.
(** A channel stage is its operator.  A completed run of the three goroutines
    sends exactly what the operator makes of the input; the stage counted the
    data records in and out, every record processed, and observed each once. *)
Theorem channel_stage_is_operator (op : Proc) (start : Z) (cap : nat) (h mid res out : list Rec) (n : Z) (s : ps op) (e : emitState) :
  ends_in countedProc h n mid -> ends_in op mid s res -> ends_in (emitProc start) res e out ->
  ends_in op h s out /\ pipeline_sends (channelStage op start cap).*1 h out /\
  n = data_count h /\ em_out e = data_count out /\ em_processed e = Z.of_nat (length out) /\
  foldr (λ (o : Z * Z) a, o.2 + a) 0 (lb_observed (em_lat e)) = em_processed e.
Proof.
  intros H1 H2 H3. pose proof (counted_ends _ _ _ H1) as [-> ->]. pose proof H3 as (s0 & o1 & o2 & (-> & E1 & E2 & _ & El)%emit_sends & (now & -> & [= ->]) & ->).
  rewrite app_nil_r in *. cbn. split_and!; [done| |done|done|done|].
  - exists h. split; [by eapply ends_all|]. exists res. split; [by eapply ends_all|]. exists res. split; [by eapply ends_all|done].
  - destruct (flush_accounts _ now _ El) as [_ ->]. by rewrite E1.
Qed.

(** ** The edge sampler *)

(** The gauges a tick sets: the queue of every edge, and its capacity. *)
Definition sampleEdges (N : net) : list (nat * nat) := (λ n, (length (nd_buf n), nd_cap n)) <$> tail (nodes N).
(** A sampled queue is within its capacity, and pinned at the capacity exactly
    when the stage before it cannot send. *)
Theorem sample_finds_backpressure (stages : list (Proc * nat)) (produced : list Rec) (N : net) (i size cap : nat) :
  Forall (λ s, stays s.1) stages -> net_reach stages produced N -> sampleEdges N !! i = Some (size, cap) -> (size <= cap)%nat /\ (size = cap <-> ~ has_room (nodes N) i).
Proof.
  intros Hst Hr Hs. unfold sampleEdges in Hs. rewrite list_lookup_fmap in Hs. apply fmap_Some in Hs as (n & Hn & [= -> ->]).
  assert (Hn' : nodes N !! S i = Some n) by (by destruct (nodes N)).
  pose proof (ni_caps _ _ _ (inv_reach _ _ _ Hst Hr) i n Hn') as Hc. split; [done|]. unfold has_room. split.
  - intros E H. specialize (H n Hn'). lia.
  - intros H. destruct (decide (length (nd_buf n) < nd_cap n)%nat); [|lia]. destruct H. intros m Hm. by simplify_eq.
Qed.
