(* ===== verification/EngineState.v ===== *)
(** * The engine (mailer.go): assembling and restoring checkpoints

    Operators deliver a snapshot when a barrier passes them, as bytes or as a
    reference to a native state directory; at the end of the pipeline the
    engine completes the set, saves it with the aligned offsets, and restores
    every operator from it after a restart. *)
From S2P Require Import Prelude GoTime Strconv Types Json Storage.

(** ** Operators as the engine sees them *)

(** The type assertions of the engine and the calls behind them.  A native
    checkpoint is the files it puts into its directory. *)
Class EngineOp (O : Type) : Type := {
  is_reduce : O -> bool;                                        (* *operator.ReduceOperator *)
  checkpointable : O -> bool;                                   (* Backend() is state.Checkpointable *)
  snapshotable : O -> bool;                                     (* operator.Snapshotable *)
  op_Snapshot : O -> result slice;
  op_Restore : bytes -> O -> O * option string;
  CheckpointImg : O -> result (gmap bytes bytes);               (* CheckpointTo *)
  RestoreImg : option (gmap bytes bytes) -> O -> O * option string;  (* RestoreFrom; None: no such directory *)
}.

(** ** State references *)

(** base64.StdEncoding, the text of a byte slice in JSON. *)
Definition b64char (n : Z) : ascii :=
  Zbyte (if n <? 26 then 65 + n else if n <? 52 then 71 + n else if n <? 62 then n - 4 else if n =? 62 then 43 else 47).
Fixpoint base64 (v : bytes) : bytes :=
  let eq := "="%char in
  match v with
  | [] => []
  | [x] => let n := byteZ x in [b64char (n / 4); b64char (n mod 4 * 16); eq; eq]
  | [x; y] => let n := byteZ x * 256 + byteZ y in [b64char (n / 1024); b64char (n / 16 mod 64); b64char (n mod 16 * 4); eq]
  | x :: y :: z :: v =>
      let n := (byteZ x * 256 + byteZ y) * 256 + byteZ z in
      b64char (n / 262144) :: b64char (n / 4096 mod 64) :: b64char (n / 64 mod 64) :: b64char (n mod 64) :: base64 v
  end.
Definition lower (s : bytes) : bytes :=
  (λ c, if (65 <=? byteZ c) && (byteZ c <=? 90) then Zbyte (byteZ c + 32) else c) <$> s.
(** Unmarshalling into a struct with the one field state_ref: names match
    without regard to case, the last one counts, another type is an error. *)
Fixpoint ref_field (acc : bytes) (fs : list (bytes * json)) : option bytes :=
  match fs with
  | [] => Some acc
  | (k, v) :: fs =>
      if decide (lower k = b "state_ref") then
        match v with
        | JStr s => ref_field s fs
        | JB64 v => ref_field (base64 v) fs
        | JNull => ref_field acc fs
        | _ => None
        end
      else ref_field acc fs
  end.

Section Engine.
Context `{JT : JSONText} {O : Type} `{EO : EngineOp O}.

(** The non-empty state reference in a snapshot. *)
Definition state_ref (v : slice) : option bytes :=
  match json_parse (str v) with
  | Some (JObj fs) => match ref_field [] fs with Some [] | None => None | Some r => Some r end
  | _ => None
  end.
Definition ref_marker (ownerID : bytes) : slice := Some (json_print (JObj [(b "state_ref", enc_str ownerID)])).

(** ** Environment *)

Record Env : Type := mkEnv_ {
  pendingOffsets : gmap bytes bytes;
  barrierSnaps : gmap bytes (gmap bytes slice);
  env_fs : FileStorage;
  notified_ : list bytes;                      (* notifyCheckpoint *)
}.

Definition takeAlignedOffsets (id : bytes) (env : Env) : option bytes * Env :=
  (pendingOffsets env !! id, mkEnv_ (delete id (pendingOffsets env)) (barrierSnaps env) (env_fs env) (notified_ env)).

(** [stale] is the entry a range over the map meets first. *)
Definition addBarrierSnapshot (stale checkpointID key : bytes) (snapshot : slice) (env : Env) : Env :=
  let snaps := barrierSnaps env in
  let snaps :=
    match snaps !! checkpointID with
    | Some _ => snaps
    | None =>
        let snaps := if (8 <? size snaps)%nat && bool_decide (stale <> checkpointID) then delete stale snaps else snaps in
        <[checkpointID := ∅]> snaps
    end in
  mkEnv_ (pendingOffsets env) (alter (<[key := snapshot]>) checkpointID snaps) (env_fs env) (notified_ env).

Definition put_state (id owner : bytes) (img : gmap bytes bytes) (fs : FileStorage) : FileStorage :=
  mkFS (files fs) (<[StateDir id := <[owner := img]> (default ∅ (dirs fs !! StateDir id))]> (dirs fs)).
Definition get_state (id owner : bytes) (fs : FileStorage) : option (gmap bytes bytes) :=
  dirs fs !! StateDir id ≫= (λ owned, owned !! owner).

(** The native snapshot an operator takes at a barrier ([wireNativeSnapshot]). *)
Definition nativeSnapshot (id owner : bytes) (o : O) (fs : FileStorage) : slice * FileStorage :=
  match CheckpointImg o with
  | Err _ => (None, fs)
  | Ok img => (ref_marker owner, put_state id owner img fs)
  end.
Definition snapshotOrCheckpoint (id owner : bytes) (o : O) (fs : FileStorage) : slice * FileStorage :=
  if is_reduce o && checkpointable o then nativeSnapshot id owner o fs
  else if snapshotable o then (match op_Snapshot o with Ok s => s | Err _ => None end, fs)
  else (None, fs).

(** The operators under their owner ids. *)
Definition op_key (i : nat) : bytes := b "op-" ++ dec_ (Z.of_nat i).
Definition worker_key (i : nat) : bytes := b "worker-" ++ dec_ (Z.of_nat i).
Definition owned_ops (operators workerOps : list O) : list (bytes * O) :=
  imap (λ i o, (op_key i, o)) operators ++ imap (λ i o, (worker_key i, o)) workerOps.

Definition collect_one (id : bytes) (acc : gmap bytes slice * FileStorage) (ko : bytes * O) : gmap bytes slice * FileStorage :=
  match acc.1 !! ko.1 with
  | Some _ => acc
  | None => let '(s, fs) := snapshotOrCheckpoint id ko.1 ko.2 acc.2 in (<[ko.1 := s]> acc.1, fs)
  end.
(** The range over [snaps] takes some order: the one of [map_to_list].  It
    matters only when two snapshots carry the same reference. *)
Definition add_ref (m : gmap bytes bytes) (kv : bytes * slice) : gmap bytes bytes :=
  match state_ref kv.2 with Some r => <[r := kv.1]> m | None => m end.
Definition extractStateDirs (snaps : gmap bytes slice) : gmap bytes slice * gmap bytes bytes :=
  ((λ v, match state_ref v with Some _ => None | None => v end) <$> snaps,
   foldl add_ref ∅ (map_to_list snaps)).
Definition collectSnapshots (id : bytes) (ops : list (bytes * O)) (env : Env) : gmap bytes slice * gmap bytes bytes * Env :=
  let '(snaps, fs) := foldl (collect_one id) (default ∅ (barrierSnaps env !! id), env_fs env) ops in
  let '(snaps, sdirs) := extractStateDirs snaps in
  (snaps, sdirs, mkEnv_ (pendingOffsets env) (delete id (barrierSnaps env)) fs (notified_ env)).

(** [live]: what CheckpointOffset answers, when the source is a
    CheckpointSource; [k]: how many writes of the save happen. *)
Definition saveCheckpoint (k : nat) (now : Z) (live : option (result bytes)) (id : bytes) (ops : list (bytes * O)) (env : Env) : Env :=
  let '(snaps, sdirs, env) := collectSnapshots id ops env in
  let '(src, env) :=
    match live with
    | None => (∅, env)
    | Some off =>
        let '(aligned, env) := takeAlignedOffsets id env in
        (match aligned, off with
         | Some a, _ => {[b "offset" := Some a]}
         | None, Ok o => {[b "offset" := Some o]}
         | None, Err _ => ∅
         end, env)
    end in
  let data := mkCD id now snaps src StatusCompleted [] sdirs in
  let '(fs, r) := Save k data (env_fs env) in
  mkEnv_ (pendingOffsets env) (barrierSnaps env) fs
    (match r with Ok _ => notified_ env ++ [id] | Err _ => notified_ env end).

(** ** Restore *)

Definition restoreOperatorState (fs : FileStorage) (data : CheckpointData) (key : bytes) (o : O) : O :=
  let inline :=
    if snapshotable o then
      match cd_Operators data !! key with
      | Some s => match str s with [] => o | t => (op_Restore t o).1 end
      | None => o
      end
    else o in
  match cd_StateDirs data !! key with
  | Some stateDir =>
      if checkpointable o then (RestoreImg (get_state (cd_ID data) stateDir fs) o).1 else inline
  | None => inline
  end.
Definition restoreWorkersFromCheckpoint (fs : FileStorage) (data : option CheckpointData) (ops : list (bytes * O)) : list (bytes * O) :=
  match data with
  | None => ops
  | Some data => (λ ko, (ko.1, restoreOperatorState fs data ko.1 ko.2)) <$> ops
  end.
Definition restoreSourceOffset (data : option CheckpointData) : option slice :=
  data ≫= λ d, cd_Source d !! b "offset".

(** ** What operators promise *)

(** [carried o]: the snapshot format can carry the state of [o]; [fresh f o]:
    [f] is a newly built instance of the operator [o]; [resumes f o]: [f] goes on
    from the state of [o].  [EngineOps] proves the laws of the stateful operators. *)
Class EngineOpLaws : Type := {
  carried : O -> Prop;
  fresh : O -> O -> Prop;
  resumes : O -> O -> Prop;
  fresh_caps f o : fresh f o -> checkpointable f = checkpointable o /\ snapshotable f = snapshotable o;
  inline_law f o s : carried o -> fresh f o -> snapshotable o = true -> op_Snapshot o = Ok s ->
    resumes (match str s with [] => f | t => (op_Restore t f).1 end) o;
  native_law f o img : carried o -> fresh f o -> checkpointable o = true -> CheckpointImg o = Ok img -> resumes (RestoreImg (Some img) f).1 o;
  stateless_law f o : fresh f o -> checkpointable o = false -> snapshotable o = false -> resumes f o;
}.

(** A snapshot that holds the state of [o]. *)
Definition delivers (fs : FileStorage) (id key : bytes) (s : slice) (o : O) : Prop :=
  match state_ref s with
  | Some r => r = key /\ checkpointable o = true /\ exists img, get_state id key fs = Some img /\ CheckpointImg o = Ok img
  | None => (snapshotable o = true /\ op_Snapshot o = Ok s) \/ (snapshotable o = false /\ checkpointable o = false /\ s = None)
  end.
(** Taking a snapshot of [o] now works, and its bytes are not mistaken for a
    reference. *)
Definition snapshots (o : O) : Prop :=
  if is_reduce o && checkpointable o then is_ok (CheckpointImg o) = true
  else if snapshotable o then exists s, op_Snapshot o = Ok s /\ state_ref s = None
  else checkpointable o = false.

Lemma state_ref_marker key : utf8_valid key -> key <> [] -> state_ref (ref_marker key) = Some key.
Proof.
  intros Hu Hk. unfold state_ref, ref_marker. change (str (Some ?x)) with x. rewrite json_parse_print. cbn [ref_field].
  rewrite decide_True by (vm_compute; reflexivity). unfold enc_str. rewrite Hu. by destruct key.
Qed.
Lemma get_put_eq id k img fs : get_state id k (put_state id k img fs) = Some img.
Proof. unfold get_state, put_state. cbn. rewrite lookup_insert_eq. cbn. by rewrite lookup_insert_eq. Qed.
Lemma get_put_ne id k k' img fs : k <> k' -> get_state id k' (put_state id k img fs) = get_state id k' fs.
Proof.
  intros Hk. unfold get_state, put_state. cbn [dirs]. rewrite lookup_insert_eq. cbn [mbind option_bind].
  rewrite lookup_insert_ne by done. destruct (dirs fs !! StateDir id); [done|exact (lookup_empty k')].
Qed.
Lemma delivers_kept fs fs' id k s o : get_state id k fs' = get_state id k fs -> delivers fs id k s o -> delivers fs' id k s o.
Proof. unfold delivers. by intros ->. Qed.

(** The documented answer of [json.Unmarshal] on no input. *)
Hypothesis parse_empty : json_parse [] = None.
Lemma state_ref_nil : state_ref None = None.
Proof. unfold state_ref. change (str None) with (@nil ascii). by rewrite parse_empty. Qed.

(** ** Completing the set of snapshots *)

(** Nothing under the owner [k] changes. *)
Definition kept (id k : bytes) (acc acc' : gmap bytes slice * FileStorage) : Prop :=
  acc'.1 !! k = acc.1 !! k /\ get_state id k acc'.2 = get_state id k acc.2.

Lemma snapshotOrCheckpoint_other id k k' o fs :
  k <> k' -> get_state id k' (snapshotOrCheckpoint id k o fs).2 = get_state id k' fs.
Proof.
  intros Hk. unfold snapshotOrCheckpoint, nativeSnapshot.
  destruct (is_reduce o && checkpointable o); [|by destruct (snapshotable o)].
  destruct (CheckpointImg o); cbn [snd]; [by rewrite get_put_ne|done].
Qed.
Lemma collect_one_other id acc ko k : k <> ko.1 -> kept id k acc (collect_one id acc ko).
Proof.
  intros Hk. unfold kept, collect_one. destruct (acc.1 !! ko.1); [done|].
  pose proof (snapshotOrCheckpoint_other id ko.1 k ko.2 acc.2 (not_eq_sym Hk)) as H.
  destruct (snapshotOrCheckpoint id ko.1 ko.2 acc.2) as [s fs]. cbn in *. by rewrite lookup_insert_ne.
Qed.
Lemma collect_other id l acc k : k ∉ l.*1 -> kept id k acc (foldl (collect_one id) acc l).
Proof.
  revert acc. induction l as [|ko l IH]; intros acc; [done|]. cbn [fmap list_fmap foldl]. intros [H1 H2]%not_elem_of_cons.
  destruct (IH (collect_one id acc ko) H2) as [E1 E2]. destruct (collect_one_other id acc ko k H1) as [E3 E4].
  split; congruence.
Qed.
Lemma snapshotOrCheckpoint_delivers id k o fs :
  utf8_valid k -> k <> [] -> snapshots o ->
  delivers (snapshotOrCheckpoint id k o fs).2 id k (snapshotOrCheckpoint id k o fs).1 o.
Proof.
  intros Hu Hk. unfold snapshots, snapshotOrCheckpoint, nativeSnapshot, delivers.
  destruct (is_reduce o && checkpointable o) eqn:E.
  - apply andb_true_iff in E as [_ Ec]. destruct (CheckpointImg o) as [img|]; [intros _|done]. cbn [fst snd].
    rewrite state_ref_marker by done. split_and!; [done|done|]. exists img. by rewrite get_put_eq.
  - destruct (snapshotable o) eqn:Es; cbn [fst snd].
    + intros (s & -> & ->). by left.
    + intros Hc. rewrite state_ref_nil. by right.
Qed.

(** What each operator contributes: the snapshot its barrier delivered, or
    else one taken now. *)
Lemma collect_delivers id l acc k o at_ :
  NoDup l.*1 -> (k, o) ∈ l -> utf8_valid k -> k <> [] ->
  match acc.1 !! k with Some s => delivers acc.2 id k s at_ | None => at_ = o /\ snapshots o end ->
  exists s, (foldl (collect_one id) acc l).1 !! k = Some s /\ delivers (foldl (collect_one id) acc l).2 id k s at_.
Proof.
  intros Hn (l1 & l2 & ->)%list_elem_of_split Hu Hk Hd. rewrite fmap_app, fmap_cons in Hn. cbn [fst] in Hn.
  apply NoDup_app in Hn as (_ & Hn1 & [Hn2 _]%NoDup_cons).
  assert (H1 : k ∉ l1.*1) by (intros Hin; apply (Hn1 k Hin), list_elem_of_here).
  rewrite foldl_app. cbn [foldl]. destruct (collect_other id l1 acc k H1) as [E1 E2].
  set (acc1 := foldl (collect_one id) acc l1) in *.
  destruct (collect_other id l2 (collect_one id acc1 (k, o)) k Hn2) as [E3 E4]. rewrite E3.
  assert (Hd' : match acc1.1 !! k with Some s => delivers acc1.2 id k s at_ | None => at_ = o /\ snapshots o end).
  { rewrite E1. destruct (acc.1 !! k); [by eapply delivers_kept|done]. }
  assert (exists s, (collect_one id acc1 (k, o)).1 !! k = Some s /\ delivers (collect_one id acc1 (k, o)).2 id k s at_)
    as (s & -> & Hs).
  { clearbody acc1. clear -Hd' Hu Hk parse_empty. unfold collect_one. cbn [fst snd]. destruct (acc1.1 !! k) as [s|] eqn:Es; [by exists s|].
    destruct Hd' as [-> Hs]. pose proof (snapshotOrCheckpoint_delivers id k o acc1.2 Hu Hk Hs) as H.
    destruct (snapshotOrCheckpoint id k o acc1.2) as [s fs]. cbn [fst snd] in *. rewrite lookup_insert_eq. by exists s. }
  exists s. split; [done|]. by eapply delivers_kept.
Qed.

(** ** State directories of a set of snapshots *)

Definition own_refs (l : list (bytes * slice)) : Prop := forall k s r, (k, s) ∈ l -> state_ref s = Some r -> r = k.
Lemma add_refs l m k v :
  own_refs l -> (forall k v, m !! k = Some v -> v = k) ->
  foldl add_ref m l !! k = Some v <-> v = k /\ (is_Some (m !! k) \/ exists s, (k, s) ∈ l /\ state_ref s = Some k).
Proof.
  revert m. induction l as [|[k0 s0] l IH]; intros m Hl Hm; cbn [foldl].
  - split; [intros E; split; [by apply Hm|eauto]|]. intros (-> & [[w Hw]|(s & Hin & _)]); [|by apply elem_of_nil in Hin].
    by rewrite Hw, (Hm _ _ Hw) at 1.
  - assert (Hl' : own_refs l) by (intros ? ? ? Hin; apply (Hl _ _ _), list_elem_of_further, Hin).
    unfold add_ref at 2. cbn [fst snd]. destruct (state_ref s0) as [r|] eqn:Er.
    + assert (r = k0) as -> by (apply (Hl _ _ _ (list_elem_of_here _ _) Er)).
      rewrite IH; [|done|intros a w [[<- <-]|[_ ?]]%lookup_insert_Some; [done|by apply Hm]].
      setoid_rewrite elem_of_cons. destruct (decide (k0 = k)) as [<-|Hne].
      * rewrite lookup_insert_eq. split; intros [-> _]; (split; [done|]); [right; exists s0; by split; [left|]|left; by eexists].
      * rewrite lookup_insert_ne by done. split; intros (-> & [?|(s & Hin & E)]); (split; [done|]); [by left|right; eauto|by left|].
        destruct Hin as [[=]|Hin]; [congruence|right; eauto].
    + rewrite IH by done. setoid_rewrite elem_of_cons.
      split; intros (-> & [?|(s & Hin & E)]); (split; [done|]); [by left|right; eauto|by left|].
      destruct Hin as [[= <- <-]|Hin]; [congruence|right; eauto].
Qed.
Lemma state_dirs_spec snaps k v :
  own_refs (map_to_list snaps) ->
  (extractStateDirs snaps).2 !! k = Some v <-> v = k /\ exists s, snaps !! k = Some s /\ state_ref s = Some k.
Proof.
  intros Ho. unfold extractStateDirs. cbn [snd]. rewrite add_refs by (try done; intros ? ? E; by rewrite lookup_empty in E).
  setoid_rewrite elem_of_map_to_list. rewrite lookup_empty. split; intros [-> H]; (split; [done|]); [|by right].
  destruct H as [[? [=]]|H]; exact H.
Qed.

(** Owner ids are distinct texts. *)
Lemma op_key_ok i : utf8_valid (op_key i) /\ op_key i <> [].
Proof. split; [|done]. apply coerce_ascii. unfold op_key. apply Forall_app. split; [|apply dec_ascii]; by repeat (apply Forall_nil_2 || apply Forall_cons_2). Qed.
Lemma worker_key_ok i : utf8_valid (worker_key i) /\ worker_key i <> [].
Proof. split; [|done]. apply coerce_ascii. unfold worker_key. apply Forall_app. split; [|apply dec_ascii]; by repeat (apply Forall_nil_2 || apply Forall_cons_2). Qed.
Lemma owned_key ops wops k o : (k, o) ∈ owned_ops ops wops -> utf8_valid k /\ k <> [].
Proof.
  unfold owned_ops. intros [H|H]%elem_of_app; apply elem_of_lookup_imap in H as (i & x & [= -> _] & _);
    [apply op_key_ok|apply worker_key_ok].
Qed.
Lemma NoDup_imap_key (f : nat -> bytes) (l : list O) : Inj (=) (=) f -> NoDup (imap (λ i o, (f i, o)) l).*1.
Proof.
  intros Hf. rewrite fmap_imap. apply NoDup_alt. intros i j x.
  rewrite !list_lookup_imap. intros (? & _ & E)%fmap_Some (? & _ & E')%fmap_Some. cbn in *. apply Hf. congruence.
Qed.
Lemma owned_NoDup ops wops : NoDup (owned_ops ops wops).*1.
Proof.
  unfold owned_ops. rewrite fmap_app. apply NoDup_app. split_and!.
  - apply NoDup_imap_key. intros i j. unfold op_key. intros [=E]. apply (inj dec_) in E. lia.
  - intros k (x & -> & H)%list_elem_of_fmap (y & E & H')%list_elem_of_fmap.
    apply elem_of_lookup_imap in H as (? & ? & -> & _). apply elem_of_lookup_imap in H' as (? & ? & -> & _). by inversion E.
  - apply NoDup_imap_key. intros i j. unfold worker_key. intros [=E]. apply (inj dec_) in E. lia.
Qed.

(** ** From a barrier to a restart *)

(** Each operator's state at the barrier reaches the engine: delivered as the
    barrier passed, or still there to be taken. *)
Definition at_barrier (env : Env) (id : bytes) (ko : bytes * O) (at_ : O) : Prop :=
  match default ∅ (barrierSnaps env !! id) !! ko.1 with
  | Some s => delivers (env_fs env) id ko.1 s at_
  | None => at_ = ko.2 /\ snapshots ko.2
  end.
Definition only_owners (env : Env) (id : bytes) (ops : list (bytes * O)) : Prop :=
  forall k, is_Some (default ∅ (barrierSnaps env !! id) !! k) -> k ∈ ops.*1.

Section Barrier.
Context (id : bytes) (operators workerOps ats : list O) (env : Env).
Let ops := owned_ops operators workerOps.
Let acc' := foldl (collect_one id) (default ∅ (barrierSnaps env !! id), env_fs env) ops.
Hypothesis (Howners : only_owners env id ops) (Hats : Forall2 (at_barrier env id) ops ats).

Lemma collected i k o at_ :
  ops !! i = Some (k, o) -> ats !! i = Some at_ ->
  utf8_valid k /\ exists s, acc'.1 !! k = Some s /\ delivers acc'.2 id k s at_.
Proof using Howners Hats parse_empty.
  intros Ho Ha. assert (Hin : (k, o) ∈ ops) by by eapply list_elem_of_lookup_2.
  destruct (owned_key _ _ _ _ Hin) as [Hu Hk]. split; [done|].
  apply (collect_delivers _ _ _ _ o); try done; [apply owned_NoDup|].
  exact (Forall2_lookup_lr _ _ _ _ _ _ Hats Ho Ha).
Qed.
Lemma collected_inv k s :
  acc'.1 !! k = Some s -> exists i o at_, ops !! i = Some (k, o) /\ ats !! i = Some at_ /\ utf8_valid k /\ delivers acc'.2 id k s at_.
Proof using Howners Hats parse_empty.
  intros Hs. destruct (decide (k ∈ ops.*1)) as [([k' o] & -> & [i Hi]%list_elem_of_lookup)%list_elem_of_fmap|Hn].
  - destruct (Forall2_lookup_l _ _ _ _ _ Hats Hi) as (at_ & Ha & _).
    destruct (collected i k' o at_ Hi Ha) as (Hu & s' & E & Hd). cbn [fst] in Hs |- *.
    assert (s' = s) as -> by congruence. by exists i, o, at_.
  - destruct (collect_other id ops (default ∅ (barrierSnaps env !! id), env_fs env) k Hn) as [E _]. fold acc' in E.
    rewrite E in Hs. destruct Hn. apply Howners. cbn [fst] in Hs. rewrite Hs. by eexists.
Qed.
Lemma collected_refs : own_refs (map_to_list acc'.1).
Proof using Howners Hats parse_empty.
  intros k s r Hin%elem_of_map_to_list Er. destruct (collected_inv k s Hin) as (_ & _ & at_ & _ & _ & _ & Hd).
  unfold delivers in Hd. rewrite Er in Hd. by destruct Hd.
Qed.

(** The record assembled from the collected snapshots. *)
Definition assembled (now : Z) (src : gmap bytes slice) : CheckpointData :=
  mkCD id now (extractStateDirs acc'.1).1 src StatusCompleted [] (extractStateDirs acc'.1).2.
Lemma assembled_ok now src :
  utf8_valid id -> int64 now -> (forall k, is_Some (src !! k) -> k = b "offset") -> cd_ok (assembled now src).
Proof using Howners Hats parse_empty.
  intros Hid Hnow Hsrc. split; cbn [assembled cd_ID cd_Timestamp cd_Operators cd_Source cd_Status cd_TxnID cd_StateDirs]; try done.
  - intros k [s Hs]. unfold extractStateDirs in Hs. cbn [fst] in Hs. rewrite lookup_fmap in Hs. apply fmap_Some in Hs as (s' & Hs & _).
    by destruct (collected_inv k s' Hs) as (_ & _ & _ & _ & _ & Hu & _).
  - intros k Hk. by rewrite (Hsrc k Hk).
  - intros k v (-> & s & Hs & _)%state_dirs_spec; [|apply collected_refs].
    by destruct (collected_inv k s Hs) as (_ & _ & _ & _ & _ & Hu & _).
Qed.
Lemma assembled_dirs now src : has_dirs acc'.2 (assembled now src).
Proof using Howners Hats parse_empty.
  intros k v (-> & s & Hs & Er)%state_dirs_spec; [|apply collected_refs].
  destruct (collected_inv k s Hs) as (_ & _ & at_ & _ & _ & _ & Hd). unfold delivers in Hd. rewrite Er in Hd.
  destruct Hd as (_ & _ & img & Hg & _). unfold get_state in Hg. cbn [assembled cd_ID].
  destruct (dirs acc'.2 !! StateDir id); [by eexists|done].
Qed.

Context `{EL : !EngineOpLaws}.
Lemma assembled_restores now src fs' i k o at_ f :
  (forall key, get_state id key fs' = get_state id key acc'.2) ->
  ops !! i = Some (k, o) -> ats !! i = Some at_ -> carried at_ -> fresh f at_ ->
  resumes (restoreOperatorState fs' (assembled now src) k f) at_.
Proof using Howners Hats parse_empty.
  intros Hfs Ho Ha Hw Hf. destruct (collected i k o at_ Ho Ha) as (Hu & s & Hs & Hd). destruct (fresh_caps f at_ Hf) as [Ec Es].
  unfold restoreOperatorState. cbn [assembled cd_ID cd_Operators cd_StateDirs]. rewrite Ec, Es.
  assert (Eo : (extractStateDirs acc'.1).1 !! k = Some (match state_ref s with Some _ => None | None => s end)).
  { unfold extractStateDirs. cbn [fst]. rewrite lookup_fmap. by rewrite Hs. }
  rewrite Eo. destruct ((extractStateDirs acc'.1).2 !! k) as [v|] eqn:Ed.
  - apply state_dirs_spec in Ed as (-> & s' & Hs' & Er); [|apply collected_refs]. simplify_eq.
    unfold delivers in Hd. rewrite Er in Hd. destruct Hd as (_ & Hc & img & Hg & Hi). rewrite Hc, Hfs, Hg. by apply native_law.
  - unfold delivers in Hd. destruct (state_ref s) as [r|] eqn:Er.
    { destruct Hd as (-> & _). assert (E : (extractStateDirs acc'.1).2 !! k = Some k) by (apply state_dirs_spec; [apply collected_refs|eauto]). congruence. }
    destruct Hd as [[H1 H2]|(H1 & H2 & ->)]; rewrite H1; [by apply inline_law|by apply stateless_law].
Qed.
End Barrier.

(** The offsets a checkpoint records, and the ones still pending after it. *)
Definition source_part (live : option (result bytes)) (id : bytes) (env : Env) : gmap bytes slice :=
  match live with
  | None => ∅
  | Some off =>
      match pendingOffsets env !! id, off with
      | Some a, _ => {[b "offset" := Some a]}
      | None, Ok o => {[b "offset" := Some o]}
      | None, Err _ => ∅
      end
  end.
Lemma source_part_key live id env k : is_Some (source_part live id env !! k) -> k = b "offset".
Proof.
  unfold source_part. destruct live as [[o|]|]; [| |by rewrite lookup_empty; intros [? [=]]];
    destruct (pendingOffsets env !! id); try (by rewrite lookup_empty; intros [? [=]]);
    by intros [? [<- _]%lookup_singleton_Some].
Qed.

Lemma saveCheckpoint_eq k now live id operators workerOps env :
  let ops := owned_ops operators workerOps in
  let acc := foldl (collect_one id) (default ∅ (barrierSnaps env !! id), env_fs env) ops in
  let res := Save k (assembled id operators workerOps env now (source_part live id env)) acc.2 in
  saveCheckpoint k now live id ops env
  = mkEnv_ (match live with Some _ => delete id (pendingOffsets env) | None => pendingOffsets env end)
      (delete id (barrierSnaps env)) res.1 (match res.2 with Ok _ => notified_ env ++ [id] | Err _ => notified_ env end).
Proof.
  intros ops acc res. unfold saveCheckpoint, collectSnapshots, takeAlignedOffsets, res, assembled, source_part.
  fold ops. fold acc. destruct acc as [snaps fs]. cbn [fst snd]. destruct (extractStateDirs snaps) as [sn sd]. cbn [fst snd].
  destruct live as [off|]; cbn [pendingOffsets barrierSnaps env_fs notified_]; by destruct (Save _ _ fs).
Qed.

Lemma saved_checkpoint_restores `{EL : !EngineOpLaws} k now live id operators workerOps ats env :
  let ops := owned_ops operators workerOps in
  utf8_valid id -> int64 now -> (3 <= k)%nat -> only_owners env id ops -> Forall2 (at_barrier env id) ops ats -> Forall carried ats ->
  let env' := saveCheckpoint k now live id ops env in
  notified_ env' = notified_ env ++ [id] /\ barrierSnaps env' !! id = None /\
  exists data, Load (env_fs env') = Ok (Some data) /\ LoadLatestCompleted (env_fs env') = Ok (Some data) /\ cd_ID data = id /\
    (forall off, is_Some live -> pendingOffsets env !! id = Some off ->
       restoreSourceOffset (Some data) = Some (Some off) /\ pendingOffsets env' !! id = None) /\
    forall built, built.*1 = ops.*1 -> Forall2 (λ ko at_, fresh ko.2 at_) built ats ->
      Forall2 (λ ko at_, resumes ko.2 at_) (restoreWorkersFromCheckpoint (env_fs env') (Some data) built) ats.
Proof using parse_empty.
  intros ops Hid Hnow Hk Ho Ha Hw env'. subst env'.
  pose proof (saveCheckpoint_eq k now live id operators workerOps env) as E. cbv zeta in E. fold ops in E. rewrite E. clear E.
  set (acc := foldl _ _ ops). set (d := assembled _ _ _ _ _ _).
  assert (Hok : cd_ok d) by (eapply assembled_ok; try done; apply source_part_key).
  assert (Hd : has_dirs acc.2 d) by by eapply assembled_dirs.
  pose proof (Save_loads d acc.2 k Hok Hd eq_refl Hk) as HS. pose proof (Save_dirs k d acc.2) as HD.
  destruct (Save k d acc.2) as [fs' r]. destruct HS as (-> & HL & HC & _). cbn [fst snd notified_ barrierSnaps pendingOffsets env_fs] in *.
  split; [done|]. split; [apply lookup_delete_eq|]. exists d. split_and!; try done.
  - intros off [l ->] Hp. rewrite lookup_delete_eq. split; [|done]. unfold restoreSourceOffset. cbn [mbind option_bind d assembled cd_Source].
    unfold source_part. rewrite Hp. apply lookup_singleton_eq.
  - intros built Hb Hf. unfold restoreWorkersFromCheckpoint. apply Forall2_fmap_l. apply Forall2_same_length_lookup.
    split; [by eapply Forall2_length|]. intros i [key f] at_ Hi Hat. cbn [fst snd].
    assert (exists o, ops !! i = Some (key, o)) as [o Hops].
    { assert (E : ops.*1 !! i = Some key) by by rewrite <- Hb, list_lookup_fmap, Hi.
      rewrite list_lookup_fmap in E. apply fmap_Some in E as ([? o] & E & ->). by exists o. }
    eapply (assembled_restores id operators workerOps ats env); try done.
    + intros k'. unfold get_state. by rewrite HD.
    + rewrite Forall_lookup in Hw. by apply (Hw i).
    + exact (Forall2_lookup_lr _ _ _ _ _ _ Hf Hi Hat).
Qed.

(** A checkpoint restores the state at its barrier.  When every operator's
    state at the barrier was delivered as the barrier passed (inline bytes or
    a reference to a native state directory), or can still be taken when the
    barrier reaches the end, saveCheckpoint records a completed checkpoint
    that recovery loads; newly built operators restored from it see the
    state of the barrier, operator by operator; the source offset restored is
    the one aligned with the barrier; and nothing stays pending for it. *)
Theorem checkpoint_restores `{EL : !EngineOpLaws} k now live id operators workerOps ats env :
  let ops := owned_ops operators workerOps in
  utf8_valid id -> int64 now -> (3 <= k)%nat -> only_owners env id ops -> Forall2 (at_barrier env id) ops ats -> Forall carried ats ->
  let env' := saveCheckpoint k now live id ops env in
  notified_ env' = notified_ env ++ [id] /\ barrierSnaps env' !! id = None /\
  exists data, Load (env_fs env') = Ok (Some data) /\ LoadLatestCompleted (env_fs env') = Ok (Some data) /\ cd_ID data = id /\
    (forall off, is_Some live -> pendingOffsets env !! id = Some off ->
       restoreSourceOffset (Some data) = Some (Some off) /\ pendingOffsets env' !! id = None) /\
    forall built, built.*1 = ops.*1 -> Forall2 (λ ko at_, fresh ko.2 at_) built ats ->
      Forall2 (λ ko at_, resumes ko.2 at_) (restoreWorkersFromCheckpoint (env_fs env') (Some data) built) ats.
Proof using parse_empty. by apply saved_checkpoint_restores. Qed.
End Engine.

(** ** Snapshots the engine drops *)

Section Losses.
Context `{JT : JSONText} {O : Type} `{EO : EngineOp O}.

(** A snapshot that fails is only logged: the checkpoint is completed without
    the operator's state, and notified. *)
Theorem failed_snapshot_is_completed now (o : O) e :
  (if is_reduce o && checkpointable o then CheckpointImg o = Err e else snapshotable o = true /\ op_Snapshot o = Err e) ->
  json_parse [] = None ->
  forall env, barrierSnaps env = ∅ -> env_fs env = emptyFS ->
  let env' := saveCheckpoint 3 now None (b "c") [(b "op-0", o)] env in
  notified_ env' = notified_ env ++ [b "c"] /\
  files (env_fs env') !! checkpointFile (b "c")
  = Some (json_print (tree_of_checkpoint (mkCD (b "c") now {[ b "op-0" := None ]} ∅ StatusCompleted [] ∅))).
Proof.
  intros Hs Hp env Hb Hf. unfold saveCheckpoint, collectSnapshots. rewrite Hb, Hf, lookup_empty. cbn [default foldl].
  assert (E : collect_one (b "c") (∅, emptyFS) (b "op-0", o) = ({[ b "op-0" := None ]}, emptyFS)).
  { unfold collect_one, snapshotOrCheckpoint, nativeSnapshot. cbn [fst snd]. rewrite lookup_empty.
    destruct (is_reduce o && checkpointable o); [by rewrite Hs|]. destruct Hs as [-> ->]. by rewrite insert_empty. }
  change (default ∅ None) with (∅ : gmap bytes slice). rewrite E. unfold extractStateDirs.
  rewrite map_to_list_singleton, map_fmap_singleton. cbn [foldl]. unfold add_ref. cbn [fst snd].
  rewrite (state_ref_nil Hp). cbn [env_fs pendingOffsets barrierSnaps notified_].
  unfold Save. rewrite saveLocked_eq by (try done; intros ? ? H; cbn in H; by rewrite lookup_empty in H).
  unfold save_writes. rewrite bool_decide_true by done. cbn [cd_ID app take length Nat.leb foldl].
  split; [done|]. unfold write_file. cbn [env_fs files fst snd].
  destruct (checkpointFile_latest (b "c")) as [N1 N2]. rewrite !lookup_insert_ne by done. apply lookup_insert_eq.
Qed.
End Losses.

(** ** A concrete pipeline *)

(** Operators that hold one text, natively or inline. *)
Record TextOp : Type := mkTO { t_native : bool; t_text : bytes }.
#[export] Instance text_op : EngineOp TextOp := {
  is_reduce _ := true;
  checkpointable := t_native;
  snapshotable o := negb (t_native o);
  op_Snapshot o := Ok (Some (t_text o));
  op_Restore t o := (mkTO (t_native o) t, None);
  CheckpointImg o := Ok {[ b "data" := t_text o ]};
  RestoreImg img o := (mkTO (t_native o) (default [] (img ≫= (λ m, m !! b "data"))), None);
}.
#[export] Program Instance text_op_laws : EngineOpLaws := {
  carried _ := True;
  resumes f o := t_text f = t_text o;
  fresh f o := t_native f = t_native o /\ t_text f = [];
}.
Next Obligation. intros f o [E _]. cbn. by rewrite E. Qed.
Next Obligation. intros f o s _ [_ E] _ [= <-]. change (str (Some (t_text o))) with (t_text o). destruct (t_text o) eqn:Et; done. Qed.
Next Obligation. intros f o img _ _ _ [= <-]. cbn [RestoreImg text_op fst t_text mbind option_bind]. by rewrite lookup_singleton_eq. Qed.
Next Obligation. intros f o _ H1 H2. cbn in *. by rewrite H1 in H2. Qed.

(** A native operator whose barrier snapshot is already there, an inline one
    not reached yet, and one worker. *)
Definition textOps : list TextOp := [mkTO true (b "later"); mkTO false (b "xyz")].
Definition textWorkers : list TextOp := [mkTO true (b "w")].
Definition textAts : list TextOp := [mkTO true (b "abc"); mkTO false (b "xyz"); mkTO true (b "w")].
Definition textEnv : Env :=
  addBarrierSnapshot [] (b "cp-1") (op_key 0) (ref_marker (op_key 0))
    (mkEnv_ {[ b "cp-1" := b "off7" ]} ∅ (put_state (b "cp-1") (op_key 0) {[ b "data" := b "abc" ]} emptyFS) []).
Definition textEnv' : Env := saveCheckpoint 3 1700000000 (Some (Ok (b "off9"))) (b "cp-1") (owned_ops textOps textWorkers) textEnv.

Lemma text_snaps : default ∅ (barrierSnaps textEnv !! b "cp-1") = ({[ op_key 0 := ref_marker (op_key 0) ]} : gmap bytes slice).
Proof.
  unfold textEnv, addBarrierSnapshot. cbn [barrierSnaps]. rewrite lookup_empty.
  replace (8 <? size ∅)%nat with false by done. cbn [andb]. rewrite lookup_alter_eq, lookup_insert_eq.
  exact (insert_empty _ _).
Qed.
Lemma text_barrier : Forall2 (at_barrier textEnv (b "cp-1")) (owned_ops textOps textWorkers) textAts.
Proof.
  change (owned_ops textOps textWorkers) with [(op_key 0, mkTO true (b "later")); (op_key 1, mkTO false (b "xyz")); (worker_key 0, mkTO true (b "w"))].
  repeat apply Forall2_cons_2; try apply Forall2_nil_2; unfold at_barrier; rewrite text_snaps; cbn [fst snd].
  - rewrite lookup_singleton_eq. unfold delivers. rewrite state_ref_marker by (vm_compute; done).
    split_and!; [done|done|]. eexists. split; [exact (get_put_eq _ _ _ _)|done].
  - rewrite lookup_singleton_ne by done. split; [done|]. eexists. split; [done|]. vm_compute. reflexivity.
  - rewrite lookup_singleton_ne by done. by split.
Qed.
Lemma text_owners : only_owners textEnv (b "cp-1") (owned_ops textOps textWorkers).
Proof. intros k [s Hs]. rewrite text_snaps in Hs. apply lookup_singleton_Some in Hs as [<- _]. left. Qed.
Lemma parse_empty_coded : json_parse [] = None.
Proof. vm_compute. reflexivity. Qed.
Lemma checkpoint_restores_witness :
  exists data, Load (env_fs textEnv') = Ok (Some data) /\ restoreSourceOffset (Some data) = Some (Some (b "off7")) /\
    (λ ko : bytes * TextOp, t_text ko.2) <$> restoreWorkersFromCheckpoint (env_fs textEnv') (Some data)
      [(op_key 0, mkTO true []); (op_key 1, mkTO false []); (worker_key 0, mkTO true [])] = [b "abc"; b "xyz"; b "w"].
Proof.
  destruct (checkpoint_restores parse_empty_coded 3 1700000000 (Some (Ok (b "off9"))) (b "cp-1") textOps textWorkers textAts textEnv)
    as (_ & _ & data & HL & _ & _ & Hoff & Hr).
  - vm_compute. reflexivity.
  - vm_compute. done.
  - lia.
  - exact text_owners.
  - exact text_barrier.
  - repeat constructor.
  - exists data. split; [exact HL|]. split; [apply Hoff; [eauto|vm_compute; reflexivity]|].
    pose proof (Hr [(op_key 0, mkTO true []); (op_key 1, mkTO false []); (worker_key 0, mkTO true [])] eq_refl
      ltac:(repeat constructor)) as H.
    unfold restoreWorkersFromCheckpoint in *. cbn [fmap list_fmap fst snd] in *.
    repeat match goal with H : Forall2 _ (_ :: _) _ |- _ => apply Forall2_cons in H as [? H] end.
    cbn [fst snd resumes text_op_laws] in *. by repeat f_equal.
Defined.
