(* ===== verification/EngineOps.v ===== *)
(** * The stateful operators as the engine sees them

    [ReduceOperator] and [WindowOperator] over the in-memory state backend, and
    the operators without state, as operators of [EngineState]: their snapshots
    and what restoring one gives back. *)
From S2P Require Import Prelude GoTime Strconv Types Window Json State Operators Reduce WindowOp WindowProofs WindowClaims Storage EngineState.

(** The operator with its state; the in-memory backend is not Checkpointable. *)
Inductive PipeOp : Type :=
| OpReduce (s : ReduceState MemoryBackend)
| OpWindow (s : WinState MemoryBackend)
| OpStateless.

Section PipeOps.
Context `{JT : JSONText}.

Definition no_native : string := "backend is not checkpointable".

#[export] Instance pipe_op : EngineOp PipeOp := {
  is_reduce o := match o with OpReduce _ => true | _ => false end;
  checkpointable _ := false;
  snapshotable o := match o with OpStateless => false | _ => true end;
  op_Snapshot o :=
    match o with
    | OpReduce s => d ← red_Snapshot (vs_backend (red_vs s)); Ok (Some d)
    | OpWindow s => d ← win_Snapshot s; Ok (Some d)
    | OpStateless => Err "not snapshotable"
    end;
  op_Restore t o :=
    match o with
    | OpReduce s =>
        match red_Restore t (vs_backend (red_vs s)) with
        | Ok backend => (OpReduce (reduce_open backend), None)
        | Err e => (o, Some e)
        end
    | OpWindow s =>
        match win_Restore t s with
        | Ok s => (OpWindow s, None)
        | Err e => (o, Some e)
        end
    | OpStateless => (o, None)
    end;
  CheckpointImg _ := Err no_native;
  RestoreImg _ o := (o, Some no_native);
}.

(** A newly built instance. *)
Definition newOp (o : PipeOp) : PipeOp :=
  match o with
  | OpReduce _ => OpReduce (reduce_open NewMemoryBackend)
  | OpWindow _ => OpWindow (win_open NewMemoryBackend)
  | OpStateless => OpStateless
  end.

(** What the JSON snapshots can carry: keys that are valid UTF-8, a watermark
    within int64 nanoseconds, buffered records as the operator encodes them. *)
Definition op_carried (o : PipeOp) : Prop :=
  match o with
  | OpReduce s => ok (vs_backend (red_vs s)) /\ forall k, is_Some (vview reduceNS (vs_backend (red_vs s)) !! k) -> utf8_valid k
  | OpWindow s => win_ok s /\ int64 (currentWatermark s) /\
      forall k es, buffer s !! k = Some es -> utf8_valid k /\ own_entries es
  | OpStateless => True
  end.

(** [f] goes on where [o] was: the same accumulators, or the same watermark and
    buffered windows once [Process] has opened the backend. *)
Definition op_resumes (f o : PipeOp) : Prop :=
  match f, o with
  | OpReduce f, OpReduce o => vview reduceNS (vs_backend (red_vs f)) = vview reduceNS (vs_backend (red_vs o))
  | OpWindow f, OpWindow o =>
      let opened := win_open (ls_backend (recState f)) in
      currentWatermark opened = currentWatermark o /\ buffer opened = buffer o
  | OpStateless, OpStateless => True
  | _, _ => False
  end.

(** ** The watermark of a restored window *)

Lemma clears_vview ks (ls : ListState MemoryBackend) ns :
  vview ns (ls_backend (foldl (λ ls k, ls_Clear (ls_SetKey k ls)) ls ks)) = vview ns (ls_backend ls).
Proof. revert ls. induction ks as [|k ks IH]; intros ls; [done|]. cbn [foldl]. rewrite IH. cbn. unfold mem_lclear. by destruct (mlist _ !! _). Qed.
Lemma appends_vview {A} (f : A -> bytes) (rs : list A) (ls : ListState MemoryBackend) ns :
  vview ns (ls_backend (foldl (λ ls r, ls_Append (f r) ls) ls rs)) = vview ns (ls_backend ls).
Proof. revert ls. induction rs as [|r rs IH]; intros ls; [done|]. cbn [foldl]. by rewrite IH. Qed.
Lemma restores_vview (ws : list (bytes * json)) (ls : ListState MemoryBackend) ns :
  vview ns (ls_backend (foldl (λ ls (kw : bytes * json),
    foldl (λ ls r, ls_Append (encodeRecordJSON r) ls) (ls_SetKey kw.1 ls) (records_of_tree kw.2)) ls ws)) = vview ns (ls_backend ls).
Proof. revert ls. induction ws as [|kw ws IH]; intros ls; [done|]. cbn [foldl]. by rewrite IH, appends_vview. Qed.

Lemma restored_watermark data s0 s' : win_ok s0 -> win_Restore data s0 = Ok s' -> win_ok s' -> int64 (currentWatermark s') ->
  loadWatermark (ls_backend (recState s')) = currentWatermark s'.
Proof.
  intros Hok0 E Hok' H64. rewrite (load_put _ (currentWatermark s')); [by apply wrap64_id|apply Hok'|exact mem_wm_good|].
  unfold win_Restore in E. destruct (json_parse data) as [j|]; [|done]. injection E as <-. cbn [recState currentWatermark].
  rewrite restores_vview, clears_vview. exact (store_load (mkWinState (recState s0) (Unix0 (jint (jfield (b "current_watermark") j)))) mem_wm_good Hok0).
Qed.
Lemma win_name s : win_ok s -> buffer (win_open (ls_backend (recState s))) = buffer s.
Proof. done. Qed.

(** ** The laws *)

Hypothesis parse_empty : json_parse [] = None.
Lemma printed_nonempty j : json_print j <> [].
Proof using parse_empty. intros E. pose proof (json_parse_print j) as H. rewrite E, parse_empty in H. done. Qed.

Lemma inline_resumes o s : op_carried o -> snapshotable o = true -> op_Snapshot o = Ok s ->
  op_resumes (match str s with [] => newOp o | t => (op_Restore t (newOp o)).1 end) o.
Proof using parse_empty.
  destruct o as [st|st|]; [| |done]; cbn [op_Snapshot pipe_op newOp op_carried]; intros Hc _ Hs.
  - destruct Hc as [Hok Hu]. destruct (reduce_snapshot_roundtrip (vs_backend (red_vs st)) NewMemoryBackend Hok mem_ok_new Hu)
      as (data & restored & E1 & E2 & E3). rewrite E1 in Hs. cbn in Hs. injection Hs as <-. change (str (Some data)) with data.
    assert (Hne : data <> []) by (unfold red_Snapshot in E1; injection E1 as <-; apply printed_nonempty).
    destruct data as [|c data]; [done|]. cbn [op_Restore pipe_op]. unfold reduce_open. cbn [red_vs vs_backend]. rewrite E2. exact E3.
  - destruct Hc as (Hok & H64 & Hown).
    destruct (window_snapshot_roundtrip st (win_open NewMemoryBackend) mem_wm_good Hok open_ok H64 Hown)
      as (data & s' & E1 & E2 & E3 & E4 & E5). rewrite E1 in Hs. cbn in Hs. injection Hs as <-. change (str (Some data)) with data.
    assert (Hne : data <> []) by (unfold win_Snapshot in E1; injection E1 as <-; apply printed_nonempty).
    destruct data as [|c data]; [done|]. cbn [op_Restore pipe_op]. rewrite E2. cbn [fst op_resumes]. cbv zeta. split.
    + cbn [win_open currentWatermark]. rewrite (restored_watermark _ _ _ open_ok E2 E3); [done|by rewrite E4].
    + by rewrite win_name.
Qed.

Definition pipe_laws : EngineOpLaws (O := PipeOp).
Proof using parse_empty.
  refine {| carried := op_carried; fresh f o := f = newOp o; resumes := op_resumes |}.
  - intros f o ->. by destruct o.
  - intros f o s Hc -> Hs. by apply inline_resumes.
  - done.
  - intros f o -> _. by destruct o.
Defined.

(** An operator's own snapshot is not taken for a state reference. *)
Lemma own_snapshot_no_ref o s : op_Snapshot o = Ok s -> state_ref s = None.
Proof.
  destruct o as [st|st|]; [| |done]; cbn [op_Snapshot pipe_op]; intros E.
  - unfold red_Snapshot in E. cbn in E. injection E as <-. unfold state_ref. change (str (Some ?x)) with x. rewrite json_parse_print.
    cbn [ref_field]. by rewrite decide_False by (vm_compute; done).
  - unfold win_Snapshot in E. cbn in E. injection E as <-. unfold state_ref. change (str (Some ?x)) with x. rewrite json_parse_print.
    cbn [ref_field]. by rewrite !decide_False by (vm_compute; done).
Qed.

(** The state of an operator at the barrier: the one whose snapshot was reported
    as the barrier passed, or, when none was, the one it is still in. *)
Definition taken_at (env : Env) (id : bytes) (ko : bytes * PipeOp) (at_ : PipeOp) : Prop :=
  match default ∅ (barrierSnaps env !! id) !! ko.1 with
  | Some s => op_Snapshot at_ = Ok s
  | None => at_ = ko.2
  end.
Lemma taken_barrier env id ko at_ : taken_at env id ko at_ -> at_barrier env id ko at_.
Proof.
  unfold taken_at, at_barrier. destruct (default ∅ _ !! ko.1) as [s|].
  - intros E. unfold delivers. rewrite (own_snapshot_no_ref _ _ E). left. by destruct at_.
  - intros ->. split; [done|]. unfold snapshots. cbn [checkpointable pipe_op]. rewrite andb_false_r.
    destruct (snapshotable ko.2) eqn:Es; [|done]. destruct (op_Snapshot ko.2) as [s|e] eqn:E.
    + exists s. split; [done|by eapply own_snapshot_no_ref].
    + by destruct ko.2.
Qed.
End PipeOps.
