(* ===== verification/Execute.v ===== *)
(** * The engine (mailer.go): starting and ending a run

    [Execute] up to the start of the stages: guards, recovery of the source
    offset, building the plan, restoring every operator; and the result it
    makes of the stages' errors.  Building the plan is an argument: the
    operators as it leaves them and the clones it registers, in order. *)
From S2P Require Import Prelude GoTime Strconv Types Window Json State Reduce WindowOp WindowProofs WindowClaims Storage Coordinator EngineState EngineOps.

Section Execute.
Context `{JT : JSONText} {O : Type} `{EO : EngineOp O}.

Record ExecEnv : Type := mkX {
  x_source : bool; x_checkpointSource : bool;      (* set; implements CheckpointSource *)
  x_sink : bool; x_coordinated : bool;             (* set; is a CheckpointedSink *)
  x_storage : bool; x_interval : Z;                (* checkpointStorage is set *)
  x_operators : list O; x_workerOps : list O;
}.
(** What the stages start from. *)
Record Started : Type := mkStarted {
  st_saved : option CheckpointData; st_offset : option slice; st_ops : list (bytes * O);
}.

Variable build : list O -> result (list O * list O).
Variables (probe : bytes -> result bool) (k : nat).

Definition guards (env : ExecEnv) : option string :=
  if negb (x_source env) then Some "weibo: no source configured, use FromSource()"%string
  else if negb (x_sink env) then Some "weibo: no sink configured, use ToSink()"%string
  else if x_coordinated env && (negb (x_storage env) || (x_interval env <=? 0)) then Some "weibo: a CheckpointedSink requires WithCheckpointing(interval, storage)"%string
  else if x_coordinated env && negb (x_checkpointSource env) then Some "weibo: exactly-once requires a source that supports offset checkpointing (source.CheckpointSource)"%string
  else None.
(** Phase A: the checkpoint to resume from.  Without coordination a load
    that fails means a fresh start. *)
Definition phaseA (env : ExecEnv) (w : World) : World * result (option CheckpointData) :=
  if negb (x_storage env) then (w, Ok None)
  else if x_coordinated env then resolveCoordinatedRecovery probe k w
  else (w, Ok (match Load (w_fs w) with Ok d => d | Err _ => None end)).
(** The clones the plan registers follow those of earlier runs. *)
Definition OnClone (env : ExecEnv) (ops clones : list O) : ExecEnv :=
  mkX (x_source env) (x_checkpointSource env) (x_sink env) (x_coordinated env) (x_storage env) (x_interval env) ops (x_workerOps env ++ clones).
Definition execute_start (env : ExecEnv) (w : World) : World * result (ExecEnv * Started) :=
  match guards env with
  | Some e => (w, Err e)
  | None =>
      match phaseA env w with
      | (w, Err e) => (w, Err ("weibo: recovery: " +:+ e))
      | (w, Ok saved) =>
          match build (x_operators env) with
          | Err e => (w, Err e)
          | Ok (ops, clones) =>
              let env := OnClone env ops clones in
              let offset := if x_checkpointSource env then restoreSourceOffset saved else None in
              (w, Ok (env, mkStarted saved offset
                (restoreWorkersFromCheckpoint (w_fs w) saved (owned_ops (x_operators env) (x_workerOps env)))))
          end
      end
  end.

(** ** The result of a run *)

(** Errors with whether they are context.Canceled; the last stage is the sink. *)
Abbreviation stage_err := (option (string * bool)).
Fixpoint first_error (ctxDone : bool) (errs : list stage_err) : option string :=
  match errs with
  | [] => None
  | None :: errs | Some (_, true) :: errs => first_error ctxDone errs
  | [Some (e, false)] => if ctxDone then None else Some e
  | Some (e, false) :: _ => Some e
  end.
Definition execute_result (ctxDone coordinated : bool) (coordErr : stage_err) (errs : list stage_err) : option string :=
  match coordinated, coordErr with
  | true, Some (e, canceled) => if canceled && ctxDone then first_error ctxDone errs else Some e
  | _, _ => first_error ctxDone errs
  end.

Lemma first_error_None ctxDone errs :
  first_error ctxDone errs = None <->
  forall i e, errs !! i = Some (Some (e, false)) -> ctxDone = true /\ i = (length errs - 1)%nat.
Proof.
  induction errs as [|x errs IH]; cbn [first_error]; [split; [intros _ i e [=]|done]|].
  assert (Hskip : (forall e, x <> Some (e, false)) ->
    (forall i e, errs !! i = Some (Some (e, false)) -> ctxDone = true /\ i = (length errs - 1)%nat) <->
    (forall i e, (x :: errs) !! i = Some (Some (e, false)) -> ctxDone = true /\ i = (length (x :: errs) - 1)%nat)).
  { intros Hx. split; intros H [|i] e Hi.
    - injection Hi as ->. by destruct (Hx e).
    - destruct (H i e Hi) as [? ->]. split; [done|]. destruct errs; [done|]. cbn. lia.
    - destruct (H 1%nat e Hi) as [? E]. split; [done|]. cbn in *. lia.
    - destruct (H (S (S i)) e Hi) as [? E]. split; [done|]. cbn in *. lia. }
  destruct x as [[e []]|]; [by rewrite IH, Hskip| |by rewrite IH, Hskip].
  destruct errs as [|y errs]; [destruct ctxDone|].
  - split; [|done]. by intros _ [|[|i]] e' Hi.
  - split; [done|]. intros H. by destruct (H 0%nat e eq_refl).
  - split; [done|]. intros H. by destruct (H 0%nat e eq_refl).
Qed.
End Execute.
Arguments ExecEnv : clear implicits. Arguments Started : clear implicits.

Section Claims.
Context `{JT : JSONText} {O : Type} `{EO : EngineOp O} `{EL : !EngineOpLaws}.

(** Execute reports a failed stage.  The result is nil exactly when no
    stage failed for another reason than cancellation, apart from the sink
    while the run is being cancelled, and, in coordinated mode, the coordinator
    did not fail either. *)
Theorem execute_reports ctxDone coordinated coordErr errs :
  execute_result ctxDone coordinated coordErr errs = None <->
  (coordinated = true -> forall e canceled, coordErr = Some (e, canceled) -> canceled = true /\ ctxDone = true) /\
  forall i e, errs !! i = Some (Some (e, false)) -> ctxDone = true /\ i = (length errs - 1)%nat.
Proof.
  rewrite <- first_error_None. unfold execute_result. destruct coordinated; [|naive_solver].
  destruct coordErr as [[e c]|]; [|naive_solver]. destruct (c && ctxDone) eqn:E.
  - apply andb_prop in E. naive_solver.
  - split; [done|]. intros [H _]. destruct (H eq_refl e c eq_refl) as [-> ->]. done.
Qed.

Lemma owned_keys (ops ops' wops wops' : list O) :
  length ops = length ops' -> length wops = length wops' -> (owned_ops ops wops).*1 = (owned_ops ops' wops').*1.
Proof.
  assert (H : forall (f : nat -> bytes) (l l' : list O), length l = length l' -> (imap (λ i o, (f i, o)) l).*1 = (imap (λ i o, (f i, o)) l').*1).
  { intros f l l' Hl. rewrite !fmap_imap. apply list_eq. intros i. rewrite !list_lookup_imap.
    destruct (l !! i) eqn:E1, (l' !! i) eqn:E2; cbn; try done; exfalso.
    - apply lookup_lt_Some in E1. apply lookup_ge_None in E2. lia.
    - apply lookup_ge_None in E1. apply lookup_lt_Some in E2. lia. }
  intros H1 H2. unfold owned_ops. rewrite !fmap_app. f_equal; by apply H.
Qed.
Lemma owned_snd (ops wops : list O) : (owned_ops ops wops).*2 = ops ++ wops.
Proof.
  assert (H : forall (f : nat -> bytes) (l : list O), (imap (λ i o, (f i, o)) l).*2 = l).
  { intros f l. rewrite fmap_imap. apply list_eq. intros i. rewrite list_lookup_imap. by destruct (l !! i). }
  unfold owned_ops. by rewrite fmap_app, !H.
Qed.

(** How a run without coordination starts on a stored checkpoint. *)
Lemma execute_loaded build probe k xenv w data fops fclones :
  x_source xenv = true -> x_checkpointSource xenv = true -> x_sink xenv = true -> x_coordinated xenv = false ->
  x_storage xenv = true -> Load (w_fs w) = Ok (Some data) -> build (x_operators xenv) = Ok (fops, fclones) ->
  execute_start build probe k xenv w =
    (w, Ok (OnClone xenv fops fclones,
      mkStarted (Some data) (restoreSourceOffset (Some data))
        (restoreWorkersFromCheckpoint (w_fs w) (Some data) (owned_ops fops (x_workerOps xenv ++ fclones))))).
Proof.
  intros H1 H2 H3 H4 H5 HL Hb. unfold execute_start, guards, phaseA. rewrite H1, H2, H3, H4, H5, HL. cbn [negb andb].
  rewrite Hb. unfold OnClone. cbn [x_checkpointSource x_operators x_workerOps]. by rewrite H2.
Qed.

(** From a saved checkpoint to the operators a new environment starts with, for
    operators whose snapshots satisfy [EngineOpLaws]. *)
Lemma start_resumes build probe k k' now live id operators workerOps ats env off xenv fops fclones notes :
  json_parse [] = None ->
  utf8_valid id -> int64 now -> (3 <= k)%nat ->
  only_owners env id (owned_ops operators workerOps) ->
  Forall2 (at_barrier env id) (owned_ops operators workerOps) ats -> Forall carried ats ->
  is_Some live -> pendingOffsets env !! id = Some off ->
  x_source xenv = true -> x_checkpointSource xenv = true -> x_sink xenv = true -> x_coordinated xenv = false ->
  x_storage xenv = true -> x_workerOps xenv = [] ->
  build (x_operators xenv) = Ok (fops, fclones) -> length fops = length operators -> length fclones = length workerOps ->
  Forall2 fresh (fops ++ fclones) ats ->
  let saved := saveCheckpoint k now live id (owned_ops operators workerOps) env in
  let w := mkW (env_fs saved) [] [] None notes [] in
  exists xenv' st, execute_start build probe k' xenv w = (w, Ok (xenv', st)) /\
    st_offset st = Some (Some off) /\ (cd_ID <$> st_saved st) = Some id /\
    Forall2 (λ ko at_, resumes ko.2 at_) (st_ops st) ats.
Proof.
  intros Hp Hid Hnow Hk Ho Ha Hw Hlive Hoff H1 H2 H3 H4 H5 H6 Hb Hl1 Hl2 Hf saved w.
  destruct (saved_checkpoint_restores Hp k now live id operators workerOps ats env Hid Hnow Hk Ho Ha Hw)
    as (_ & _ & data & HL & _ & Hdid & Hsrc & Hr). fold saved in HL, Hr.
  destruct (Hsrc off Hlive Hoff) as [Hs _]. rewrite (execute_loaded _ _ _ _ w data fops fclones); try done. rewrite H6.
  eexists _, _. split; [reflexivity|]. cbn [st_offset st_saved st_ops app]. split; [done|]. split; [cbn; by rewrite Hdid|].
  apply Hr; [by apply owned_keys|]. apply (Forall2_fmap_l snd fresh). by rewrite owned_snd.
Qed.

(** A second run of the same environment keeps the clones of the first: the
    new clones are numbered after them, the checkpoint has nothing under their
    ids, and they start as built while the source resumes. *)
Theorem second_execute_loses_state build probe k' xenv w data fops fclones j f :
  x_source xenv = true -> x_checkpointSource xenv = true -> x_sink xenv = true -> x_coordinated xenv = false ->
  x_storage xenv = true -> Load (w_fs w) = Ok (Some data) ->
  build (x_operators xenv) = Ok (fops, fclones) -> fclones !! j = Some f ->
  (forall i, (length (x_workerOps xenv) <= i)%nat -> cd_Operators data !! worker_key i = None /\ cd_StateDirs data !! worker_key i = None) ->
  exists xenv' st, execute_start build probe k' xenv w = (w, Ok (xenv', st)) /\
    st_offset st = restoreSourceOffset (Some data) /\
    (worker_key (length (x_workerOps xenv) + j), f) ∈ st_ops st.
Proof.
  intros H1 H2 H3 H4 H5 HL Hb Hj Hno. rewrite (execute_loaded _ _ _ _ w data fops fclones) by done.
  eexists _, _. split; [reflexivity|]. cbn [st_offset st_ops]. split; [done|].
  unfold restoreWorkersFromCheckpoint. apply list_elem_of_fmap. exists (worker_key (length (x_workerOps xenv) + j), f). split.
  - cbn [fst snd]. f_equal. unfold restoreOperatorState. destruct (Hno (length (x_workerOps xenv) + j)%nat ltac:(lia)) as [-> ->].
    by destruct (snapshotable f).
  - unfold owned_ops. apply elem_of_app. right. apply elem_of_lookup_imap. exists (length (x_workerOps xenv) + j)%nat, f. split; [done|].
    rewrite lookup_app_r by lia. by replace (length (x_workerOps xenv) + j - length (x_workerOps xenv))%nat with j by lia.
Qed.
End Claims.

(** C14: a restart resumes at the barrier.  In a job without a CheckpointedSink
    (uncoordinated checkpoints), with Reduce and Window operators over the
    in-memory state backend and any stateless ones: a checkpoint is saved as its
    barrier reaches the sink, all its file writes getting through, then the
    process dies; a new environment of the same shape starts on the directory.
    Execute's source resumes at the offset aligned with the barrier, every Reduce
    it built, top-level or worker, has the accumulators it had at the barrier, and
    every Window opens with the watermark and the buffered records it had there,
    provided the state keys are valid UTF-8 and the watermark fits int64
    nanoseconds ([reduce_snapshot_merges_keys] and [max_watermark_wraps] show the
    losses otherwise). *)
Theorem execute_resumes `{JT : JSONText} build probe k k' now live id (operators workerOps ats : list PipeOp) env off
    (xenv : ExecEnv PipeOp) fops fclones notes :
  json_parse [] = None ->
  utf8_valid id -> int64 now -> (3 <= k)%nat ->
  only_owners env id (owned_ops operators workerOps) ->
  Forall2 (taken_at env id) (owned_ops operators workerOps) ats -> Forall op_carried ats ->
  is_Some live -> pendingOffsets env !! id = Some off ->
  x_source xenv = true -> x_checkpointSource xenv = true -> x_sink xenv = true -> x_coordinated xenv = false ->
  x_storage xenv = true -> x_workerOps xenv = [] ->
  build (x_operators xenv) = Ok (fops, fclones) -> length fops = length operators -> fops ++ fclones = newOp <$> ats ->
  let saved := saveCheckpoint k now live id (owned_ops operators workerOps) env in
  let w := mkW (env_fs saved) [] [] None notes [] in
  exists xenv' st, execute_start build probe k' xenv w = (w, Ok (xenv', st)) /\
    st_offset st = Some (Some off) /\ (cd_ID <$> st_saved st) = Some id /\
    Forall2 (λ ko at_, op_resumes ko.2 at_) (st_ops st) ats.
Proof.
  intros Hp Hid Hnow Hk Ho Ha Hw Hlive Hoff H1 H2 H3 H4 H5 H6 Hb Hl1 Hf.
  assert (Hl2 : length fclones = length workerOps).
  { apply (f_equal length) in Hf. rewrite length_fmap, <- (Forall2_length _ _ _ Ha), length_app in Hf.
    unfold owned_ops in Hf. rewrite length_app, !length_imap in Hf. lia. }
  apply (start_resumes (EL := pipe_laws Hp)) with fops fclones; try done.
  - eapply Forall2_impl; [exact Ha|]. apply taken_barrier.
  - rewrite Hf. apply Forall2_fmap_l. cbn. clear. induction ats; by constructor.
Qed.

(** An error of the sink while the run is being cancelled is dropped, whatever
    it lost: the run counts as finished. *)
Theorem sink_error_at_shutdown_is_success e : execute_result true false None [None; None; Some (e, false)] = None.
Proof. done. Qed.

(** A window whose barrier snapshot was reported before it took one more record,
    a stateless operator, and a Reduce worker the barrier has not reached yet. *)
Definition summing : ReduceState MemoryBackend :=
  (reduce_process unary false None (reduce_open NewMemoryBackend) [keyed "a" 1; keyed "b" 2; keyed "a" 3]).1.1.
Definition atWindow : PipeOp := OpWindow oneState.
Definition laterWindow : PipeOp := OpWindow (win_open NewMemoryBackend).
Definition pipeOps : list PipeOp := [laterWindow; OpStateless].
Definition pipeWorkers : list PipeOp := [OpReduce summing].
Definition pipeAts : list PipeOp := [atWindow; OpStateless; OpReduce summing].
Definition windowSnap : slice := match op_Snapshot atWindow with Ok s => s | Err _ => None end.
Definition pipeEnv : Env :=
  mkEnv_ {[ b "cp-1" := b "off7" ]} {[ b "cp-1" := {[ op_key 0 := windowSnap ]} ]} emptyFS [].
Definition pipeX : ExecEnv PipeOp := mkX true true true false true 5 pipeOps [].
Definition pipeBuild : list PipeOp -> result (list PipeOp * list PipeOp) :=
  λ _, Ok ([OpWindow (win_open NewMemoryBackend); OpStateless], [OpReduce (reduce_open NewMemoryBackend)]).

Lemma pipe_snaps : default ∅ (barrierSnaps pipeEnv !! b "cp-1") = ({[ op_key 0 := windowSnap ]} : gmap bytes slice).
Proof. unfold pipeEnv. cbn [barrierSnaps]. by rewrite lookup_singleton_eq. Qed.
Lemma pipe_taken : Forall2 (taken_at pipeEnv (b "cp-1")) (owned_ops pipeOps pipeWorkers) pipeAts.
Proof.
  change (owned_ops pipeOps pipeWorkers) with [(op_key 0, laterWindow); (op_key 1, OpStateless); (worker_key 0, OpReduce summing)].
  repeat apply Forall2_cons_2; try apply Forall2_nil_2; unfold taken_at; rewrite pipe_snaps; cbn [fst snd].
  - rewrite lookup_singleton_eq. reflexivity.
  - by rewrite lookup_singleton_ne.
  - by rewrite lookup_singleton_ne.
Qed.
Lemma summing_view : vview reduceNS (vs_backend (red_vs summing)) = {[ b "a" := b "xx"; b "b" := b "x" ]}.
Proof. vm_compute. reflexivity. Qed.
Lemma pipe_carried : Forall op_carried pipeAts.
Proof.
  repeat apply Forall_cons_2; [| | |constructor].
  - split; [apply oneState_spec|]. split; [unfold int64; simpl; lia|].
    intros k es H. rewrite (proj2 oneState_spec) in H. apply lookup_singleton_Some in H as [<- <-].
    split; [vm_compute; reflexivity|]. exists [keyed "a" 1]. split; [reflexivity|]. constructor; [apply keyed_utf8|constructor].
  - exact I.
  - split; [intros ns k H; vm_compute in H; by destruct ns|]. intros k. rewrite summing_view. intros [v Hv].
    apply lookup_insert_Some in Hv as [[<- _]|[_ Hv]]; [by vm_compute|]. apply lookup_singleton_Some in Hv as [<- _]. by vm_compute.
Qed.
Lemma execute_resumes_witness :
  let w := mkW (env_fs (saveCheckpoint 3 1700000000 (Some (Ok (b "off9"))) (b "cp-1") (owned_ops pipeOps pipeWorkers) pipeEnv)) [] [] None [] [] in
  exists xenv' st, execute_start pipeBuild (λ _, Ok false) 3 pipeX w = (w, Ok (xenv', st)) /\
    st_offset st = Some (Some (b "off7")) /\
    exists win red, (st_ops st).*2 = [OpWindow win; OpStateless; OpReduce red] /\
      currentWatermark (win_open (ls_backend (recState win))) = currentWatermark oneState /\ buffer win = buffer oneState /\
      vview reduceNS (vs_backend (red_vs red)) = {[ b "a" := b "xx"; b "b" := b "x" ]}.
Proof.
  destruct (execute_resumes pipeBuild (λ _, Ok false) 3 3 1700000000 (Some (Ok (b "off9"))) (b "cp-1") pipeOps pipeWorkers pipeAts pipeEnv
    (b "off7") pipeX [OpWindow (win_open NewMemoryBackend); OpStateless] [OpReduce (reduce_open NewMemoryBackend)] []) as (xenv' & st & HE & Hoff & _ & Hv).
  - exact parse_empty_coded.
  - vm_compute. reflexivity.
  - vm_compute. done.
  - lia.
  - intros k [s Hs]. rewrite pipe_snaps in Hs. apply lookup_singleton_Some in Hs as [<- _]. left.
  - exact pipe_taken.
  - exact pipe_carried.
  - eauto.
  - vm_compute. reflexivity.
  - reflexivity.
  - reflexivity.
  - reflexivity.
  - reflexivity.
  - reflexivity.
  - reflexivity.
  - reflexivity.
  - reflexivity.
  - reflexivity.
  - exists xenv', st. split; [exact HE|]. split; [exact Hoff|]. clear HE Hoff. unfold pipeAts, atWindow in Hv.
    inversion Hv as [|[k1 o1] ? l1 ? R1 V1]; subst. inversion V1 as [|[k2 o2] ? l2 ? R2 V2]; subst.
    inversion V2 as [|[k3 o3] ? l3 ? R3 V3]; subst. inversion V3; subst.
    destruct o1 as [|win|]; [destruct R1| |destruct R1]. destruct o2; [destruct R2|destruct R2|]. destruct o3 as [red| |]; [|destruct R3|destruct R3].
    exists win, red. destruct R1 as [Rw Rb]. split; [reflexivity|]. split; [exact Rw|]. split; [exact Rb|].
    etransitivity; [exact R3|exact summing_view].
Defined.
