(* ===== verification/Owners.v ===== *)
(** * Package state: the backend factories

    [InMemory] and [Pebble] (state/factory.go): one backend per owner, the
    owners being those the engine names.  The directories of a Pebble factory
    are kept from one run to the next. *)
From S2P Require Import Prelude Paths GoTime Strconv Types Json Duration State Operators Reduce Pebble Storage Coordinator EngineState Execute.

(** ** The factories *)

Definition InMemory (ownerID : bytes) : result MemoryBackend := Ok NewMemoryBackend.

Section Factory.
Context {D : Type} `{DB : PebbleDB D}.
(** What opening a new directory makes. *)
Variable new_db : D.

Definition ownerDir (dir ownerID : bytes) : bytes := path_Join [dir; ownerID].
(** [mkdirErr] and [openErr]: what creating and opening the directory return;
    [disk] holds the databases by directory. *)
Definition Pebble (dir : bytes) (mkdirErr openErr : option string) (ownerID : bytes) (disk : gmap bytes D) : result (PebbleBackend D) :=
  match mkdirErr with
  | Some e => Err ("state/pebble: mkdir: " +:+ e)
  | None =>
      match openErr with
      | Some e => Err ("pebble open: " +:+ e)
      | None => Ok (OpenPebble (default new_db (disk !! ownerDir dir ownerID)))
      end
  end.
(** The disk once an owner's backend has been used and its process is gone. *)
Definition left_by (dir ownerID : bytes) (p : PebbleBackend D) (disk : gmap bytes D) : gmap bytes D := <[ownerDir dir ownerID := pdb p]> disk.

(** ** Isolation *)

Lemma ownerDir_inj dir o o' : ordinary o -> ordinary o' -> ownerDir dir o = ownerDir dir o' -> o = o'.
Proof.
  intros Ho Ho' E. destruct (path_Join_clean dir o Ho) as (r & l & H). destruct (path_Join_clean dir o' Ho') as (r' & l' & H').
  unfold ownerDir in E. rewrite E in H. apply clean_elems in H, H'. rewrite H in H'. by apply app_inj_tail in H' as [_ ?].
Qed.
(** The owners of the engine: top-level operators and worker clones. *)
Inductive owner : bytes -> Prop :=
| owner_op i : owner (op_key i)
| owner_worker i : owner (worker_key i).
Lemma dec_no_slash n : 0 <= n -> slash ∉ dec_ n.
Proof.
  intros Hn Hin. destruct (dec_nonneg n Hn) as (Hd & _). rewrite forallb_forall in Hd. apply list_elem_of_In, Hd in Hin. by vm_compute in Hin.
Qed.
Lemma prefixed_ordinary (p : string) n : (2 < length (b p))%nat -> slash ∉ b p -> 0 <= n -> ordinary (b p ++ dec_ n).
Proof.
  intros Hl Hs Hn. split; [|rewrite not_elem_of_app; split; [done|by apply dec_no_slash]]. unfold dotty, isE, eqs.
  assert (H : (2 < length (b p ++ dec_ n))%nat) by (rewrite length_app; lia).
  rewrite !bool_decide_false; [done|..]; intros E; rewrite E in H; cbn in H; lia.
Qed.
Lemma owner_ordinary o : owner o -> ordinary o.
Proof. destruct 1; apply prefixed_ordinary; try (cbn; lia); rewrite list_elem_of_In; cbn; intuition discriminate. Qed.
(** Operators do not share state.  What the backend of one owner of the engine
    did, to the end of its life, is nothing to the backend any other owner gets:
    the owners' directories differ. *)
Theorem owners_isolated dir o o' mkdirErr openErr (p : PebbleBackend D) disk : owner o -> owner o' -> o <> o' ->
  Pebble dir mkdirErr openErr o' (left_by dir o p disk) = Pebble dir mkdirErr openErr o' disk.
Proof.
  intros Ho Ho' Hne. unfold Pebble, left_by. rewrite lookup_insert_ne; [done|]. intros E. apply Hne.
  by apply (ownerDir_inj dir); [apply owner_ordinary..|].
Qed.

(** ** A restart without a checkpoint *)

(** The directory is not emptied when it is opened: what an owner's backend
    held when its process ended is there for the next. *)
Lemma reopened dir o (p : PebbleBackend D) disk : Pebble dir None None o (left_by dir o p disk) = Ok (OpenPebble (pdb p)).
Proof. unfold Pebble, left_by. by rewrite lookup_insert_eq. Qed.
End Factory.

(** Without a checkpoint to resume from, [Execute] starts the source from its
    beginning and leaves every operator as the plan built it. *)
Lemma starts_without_checkpoint `{JT : JSONText} {O : Type} `{EO : EngineOp O} (build : list O -> result (list O * list O)) probe k xenv w fops fclones :
  guards xenv = None -> x_storage xenv = true -> x_coordinated xenv = false -> Load (w_fs w) = Ok None -> build (x_operators xenv) = Ok (fops, fclones) ->
  exists xenv' st, execute_start build probe k xenv w = (w, Ok (xenv', st)) /\ st_offset st = None /\ st_ops st = owned_ops fops (x_workerOps xenv ++ fclones).
Proof.
  intros Hg Hs Hc Hl Hb. unfold execute_start, phaseA. rewrite Hg, Hs, Hc. cbn [negb]. rewrite Hl. rewrite Hb.
  eexists _, _. split; [reflexivity|]. cbn. by destruct (x_checkpointSource xenv).
Qed.

(** State outlives the run it belongs to.  The working database is documented as
    disposable, with recovery always from a checkpoint; but a run that ends
    before its first checkpoint leaves it behind, the next run opens it and
    restores nothing, and the records read again are folded on top of
    themselves: the total for one record is the total for two. *)
Theorem state_survives_without_checkpoint (dir : bytes) (i : nat) :
  let fresh := (∅ : gmap bytes bytes) in
  let totals := λ p, (reduce_process unary false None (reduce_open p) [keyed "a" 1]).1 in
  exists p1 p2, Pebble fresh dir None None (worker_key i) ∅ = Ok p1 /\
    Pebble fresh dir None None (worker_key i) (left_by dir (worker_key i) (vs_backend (red_vs (totals p1).1)) ∅) = Ok p2 /\
    (Value <$> (totals p1).2) = [Some (b "x")] /\ (Value <$> (totals p2).2) = [Some (b "xx")].
Proof.
  intros fresh totals. exists (OpenPebble ∅). eexists. split; [unfold Pebble; by rewrite lookup_empty|]. split; [apply reopened|].
  split; vm_compute; reflexivity.
Qed.
