(* ===== verification/Savepoint.v ===== *)
(** * Package checkpoint: blob store, archives and savepoints

    A savepoint is the latest completed checkpoint, archived with its state
    directories and stored under a label (checkpoint/archive.go, blob.go,
    savepoint.go).  Paths are texts, so what an archive or a key can reach is
    part of the model. *)
From S2P Require Import Prelude Paths GoTime Strconv Types Json Storage EngineState.

(** ** The file blob store *)

(** The files and directories on disk, by cleaned path. *)
Record Disk : Type := mkDisk { d_files : gmap bytes bytes; d_dirs : gset bytes }.
(** The directories above a path, as [os.MkdirAll] makes them. *)
Definition ancestors (p : bytes) : list bytes :=
  (λ n, render (rooted p) (take n (elems p))) <$> seq 0 (length (elems p)).
Definition is_file (d : Disk) (p : bytes) : bool := bool_decide (is_Some (d_files d !! p)).
(** A path below a regular file: the kernel answers ENOTDIR. *)
Definition not_dir (d : Disk) (p : bytes) : bool := existsb (is_file d) (ancestors p).

Section Blob.
Variable root : bytes.

(** [FileBlobstore.path]. *)
Definition blob_path (key : bytes) : result bytes :=
  if isE key then Err "checkpoint: empty blob key"
  else if existsb (λ s, eqs s "..") (split_on slash key) then Err "checkpoint: invalid blob key"
  else
    let p := path_Join [root; Clean (slash :: key)] in
    match Rel root p with
    | Some rel => if eqs rel ".." || HasPrefix rel (b "../") then Err "checkpoint: invalid blob key" else Ok p
    | None => Err "checkpoint: invalid blob key"
    end.

(** [r]: what the reader yields, its contents or an error on the way. *)
Definition Put (key : bytes) (r : result bytes) (d : Disk) : Disk * result unit :=
  match blob_path key with
  | Err e => (d, Err e)
  | Ok p =>
      if not_dir d p then (d, Err "mkdir: not a directory")
      else
        let d := mkDisk (d_files d) (list_to_set (ancestors p) ∪ d_dirs d) in
        match r with
        | Err e => (d, Err e)
        | Ok v =>
            if decide (p ∈ d_dirs d) then (d, Err "rename: file exists")
            else (mkDisk (<[p := v]> (d_files d)) (d_dirs d), Ok tt)
        end
  end.
(** Opening and reading to the end. *)
Definition Get (key : bytes) (d : Disk) : result bytes :=
  p ← blob_path key;
  match d_files d !! p with
  | Some v => Ok v
  | None => if not_dir d p then Err "open: not a directory"
            else if decide (p ∈ d_dirs d) then Err "read: is a directory" else Err "checkpoint: blob not found"
  end.
Definition Exists (key : bytes) (d : Disk) : result bool :=
  p ← blob_path key;
  if not_dir d p then Err "stat: not a directory" else Ok (is_file d p || bool_decide (p ∈ d_dirs d)).
(** The walk takes the files in some order. *)
Definition List_ (prefix : bytes) (d : Disk) : list bytes :=
  omap (λ kv : bytes * bytes, key ← Rel root kv.1; if HasPrefix key prefix then Some key else None) (map_to_list (d_files d)).
Definition has_child (d : Disk) (p : bytes) : bool :=
  existsb (λ q, bool_decide (p ∈ ancestors q)) (elements (dom (d_files d) ∪ d_dirs d)).
Definition Delete (key : bytes) (d : Disk) : Disk * result unit :=
  match blob_path key with
  | Err e => (d, Err e)
  | Ok p =>
      if is_file d p then (mkDisk (delete p (d_files d)) (d_dirs d), Ok tt)
      else if not_dir d p then (d, Err "remove: not a directory")
      else if decide (p ∈ d_dirs d) then
        if has_child d p then (d, Err "remove: directory not empty") else (mkDisk (d_files d) (d_dirs d ∖ {[p]}), Ok tt)
      else (d, Ok tt)
  end.
End Blob.

(** ** Archives *)

Definition archiveMetaName : bytes := b "checkpoint.json".
Definition archiveStateRoot : bytes := b "state".
Abbreviation entry := (bytes * bytes)%type.

(** archive/tar: what is written is read back, for non-empty names that are
    not directories'. *)
Definition tar_name (n : bytes) : Prop := n <> [] /\ last n <> Some slash /\ Ascii.zero ∉ n.
Class TarText : Type := {
  tar_write : list entry -> bytes;
  tar_read : bytes -> list entry * option string;   (* the entries before the end or an error *)
  tar_read_write l : Forall (λ e, tar_name e.1) l -> tar_read (tar_write l) = (l, None);
}.

(** A destination: the storage of [dir] and whatever else a path can reach. *)
Record Dest : Type := mkDest { x_fs : FileStorage; x_other : gmap bytes bytes }.

Section Archive.
Context `{JT : JSONText} `{TT : TarText}.

(** The files below one state directory, named from the state root.  A file
    in place of the directory has the empty relative name. *)
Definition state_name (rel f : bytes) : bytes := archiveStateRoot ++ slash :: rel ++ (if isE f then [] else slash :: f).
Definition walkIntoTar (fs : FileStorage) (id rel : bytes) : list entry :=
  (λ kv, (state_name rel kv.1, kv.2)) <$> map_to_list (default ∅ (get_state id rel fs)).
Definition ArchiveCheckpoint (fs : FileStorage) (id : bytes) : result (list entry) :=
  match LoadSpecific id fs with
  | Err e => Err e
  | Ok None => Err "checkpoint: archive: no checkpoint"
  | Ok (Some data) =>
      Ok ((archiveMetaName, json_print (tree_of_checkpoint data))
        :: concat ((λ kv, walkIntoTar fs id kv.2) <$> map_to_list (cd_StateDirs data)))
  end.

(** [FileStorage.StateDir] in full, and where an entry goes below it. *)
Definition StateDirPath (dir id : bytes) : bytes := path_Join [dir; StateDir id].
Definition extract_dest (dir id name : bytes) : result bytes :=
  let rel := TrimPrefix name (archiveStateRoot ++ [slash]) in
  let stateDir := StateDirPath dir id in
  let dest := path_Join [stateDir; rel] in
  if HasPrefix (Clean dest) (Clean stateDir ++ [slash]) then Ok dest else Err "checkpoint: extract: unsafe path".

(** A file where a directory is needed, or the other way round. *)
Definition clash (f g : bytes) : bool :=
  bool_decide (f <> g) && (isE f || isE g || HasPrefix f (g ++ [slash]) || HasPrefix g (f ++ [slash])).
Definition put_file (id owner f v : bytes) (fs : FileStorage) : result FileStorage :=
  let img := default ∅ (get_state id owner fs) in
  if existsb (clash f) (elements (dom img)) then Err "open: not a file or directory" else Ok (put_state id owner (<[f := v]> img) fs).
(** [writeFileFromTar].  The storage's own state directory is one element
    below [dir]; an id with separators leads elsewhere. *)
Definition writeFileFromTar (dir id dest v : bytes) (x : Dest) : result Dest :=
  if bool_decide (slash ∈ id) then Ok (mkDest (x_fs x) (<[Clean dest := v]> (x_other x)))
  else
    match split_on slash (drop (S (length (StateDirPath dir id))) (Clean dest)) with
    | owner :: rest => fs ← put_file id owner (join [slash] rest) v (x_fs x); Ok (mkDest fs (x_other x))
    | [] => Ok x
    end.

(** One archive member, as the loop of [ExtractCheckpoint] handles it. *)
Definition extract_step (dir : bytes) (e : entry) (st : option CheckpointData * Dest) : result (option CheckpointData * Dest) :=
  if bool_decide (e.1 = archiveMetaName) then
    match json_parse e.2 ≫= checkpoint_of_tree with
    | Some data => Ok (Some data, st.2)
    | None => Err "checkpoint: extract meta"
    end
  else if HasPrefix e.1 (archiveStateRoot ++ [slash]) then
    match st.1 with
    | None => Err "checkpoint: extract: state file before checkpoint.json"
    | Some data =>
        dest ← extract_dest dir (cd_ID data) e.1;
        x ← writeFileFromTar dir (cd_ID data) dest e.2 st.2;
        Ok (Some data, x)
    end
  else Ok st.
(** The loop keeps what it has written when it stops; [io]: how many members
    can be read and written before an I/O error. *)
Fixpoint extract_loop (io : nat) (dir : bytes) (es : list entry) (st : option CheckpointData * Dest)
  : (option CheckpointData * Dest) * option string :=
  match es, io with
  | [], _ => (st, None)
  | _, O => (st, Some "i/o error"%string)
  | e :: es, S io =>
      match extract_step dir e st with
      | Err m => (st, Some m)
      | Ok st => extract_loop io dir es st
      end
  end.
Definition ExtractCheckpoint (io k : nat) (dir : bytes) (raw : bytes) (x : Dest) : Dest * result bytes :=
  let '(es, bad) := tar_read raw in
  let '((data, x), stop) := extract_loop io dir es (None, x) in
  match stop, bad, data with
  | Some m, _, _ | None, Some m, _ => (x, Err m)
  | None, None, None => (x, Err "checkpoint: extract: archive missing checkpoint.json")
  | None, None, Some data =>
      let '(fs, r) := Save k (set_Status StatusCompleted data) (x_fs x) in
      (mkDest fs (x_other x), match r with Ok _ => Ok (cd_ID data) | Err m => Err m end)
  end.

(** ** Savepoints *)

Definition SavepointPrefix : bytes := b "savepoints/".
Definition SavepointKey (label : bytes) : bytes := SavepointPrefix ++ label.

Definition CreateSavepoint (root label : bytes) (fs : FileStorage) (d : Disk) : Disk * result bytes :=
  match LoadLatestCompleted fs with
  | Err e => (d, Err e)
  | Ok None => (d, Err "checkpoint: savepoint: no completed checkpoint to promote")
  | Ok (Some data) =>
      let '(d, r) := Put root (SavepointKey label) (tar_write <$> ArchiveCheckpoint fs (cd_ID data)) d in
      (d, match r with Ok _ => Ok (cd_ID data) | Err e => Err e end)
  end.
Definition RestoreSavepoint (io k : nat) (root label dir : bytes) (d : Disk) (x : Dest) : Dest * result bytes :=
  match Get root (SavepointKey label) d with
  | Err e => (x, Err e)
  | Ok raw => ExtractCheckpoint io k dir raw x
  end.
(** [path.Base] of a cleaned key. *)
Definition Base (p : bytes) : bytes := default p (last (split_on slash p)).
Definition ListSavepoints (root : bytes) (d : Disk) : list bytes := Base <$> List_ root SavepointPrefix d.
End Archive.

(** ** Keys stay below the root *)

Lemma blob_elems root key :
  root <> [] -> existsb (λ s, eqs s "..") (split_on slash key) = false ->
  let p := path_Join [root; Clean (slash :: key)] in
  let segs := List.filter plain_elem (split_on slash key) in
  elems p = elems root ++ segs /\ rooted p = rooted root /\ Clean p = p.
Proof.
  intros Hr Hk p segs. set (q := slash :: key).
  assert (Eq : elems q = segs).
  { unfold elems. change (split_on slash q) with ([] :: split_on slash key). cbn [foldl].
    change (clean_step (rooted q) [] []) with (@nil bytes). by rewrite fold_no_parent, app_nil_r, reverse_involutive. }
  assert (Hq : Clean q = slash :: join [slash] segs).
  { unfold Clean. rewrite Eq. done. }
  assert (Hp : p = Clean (root ++ slash :: slash :: join [slash] segs)).
  { unfold p, path_Join. fold q. rewrite Hq. cbn [List.filter]. unfold isE at 1. by rewrite bool_decide_false by done. }
  assert (Ep : elems (root ++ slash :: slash :: join [slash] segs) = elems root ++ segs).
  { rewrite elems_app by done. change (split_on slash (slash :: ?x)) with ([] :: split_on slash x). cbn [foldl].
    change (clean_step ?r ?o []) with o. pose proof (plain_ordinary key Hk) as Ho. fold segs in Ho.
    destruct (decide (segs = [])) as [->|Hs]; [by rewrite app_nil_r; apply reverse_involutive|].
    rewrite split_on_join; [|done|eapply Forall_impl; [done|by intros ? [_ ?]]].
    by rewrite fold_ordinary, reverse_app, !reverse_involutive. }
  rewrite Hp. destruct (elems_Clean (root ++ slash :: slash :: join [slash] segs)) as [E1 E2].
  rewrite E1, E2, Ep. split; [done|]. split; [by destruct root|].
  unfold Clean at 1. rewrite E1, E2. done.
Qed.

Lemma join_parent segs : segs <> [] -> Forall ordinary segs -> eqs (join [slash] segs) ".." || HasPrefix (join [slash] segs) (b "../") = false.
Proof.
  intros Hs Hf. pose proof (split_on_join slash segs Hs ltac:(eapply Forall_impl; [done|by intros ? [_ ?]])) as E.
  destruct Hf as [|s segs [Hd _] Hf]; [done|]. apply orb_false_iff. split; apply bool_decide_eq_false; intros H.
  - rewrite H in E. change (split_on slash (b "..")) with [b ".."] in E. injection E as <- _. done.
  - rewrite <- (take_drop (length (b "../")) (join [slash] (s :: segs))), H in E.
    change (b "../" ++ ?x) with (b ".." ++ slash :: x) in E. rewrite split_on_app in E. injection E as <- _. done.
Qed.

(** Blob keys stay below the store.  A key is accepted exactly when it is
    not empty and has no ".." element; the file it names is the store's root
    followed by the key's own elements, none of them a parent step. *)
Theorem blob_keys_inside root key :
  root <> [] ->
  (is_ok (blob_path root key) = true <-> key <> [] /\ b ".." ∉ split_on slash key) /\
  forall p, blob_path root key = Ok p ->
    exists segs, elems p = elems root ++ segs /\ rooted p = rooted root /\ Forall ordinary segs /\
      segs = List.filter plain_elem (split_on slash key).
Proof.
  intros Hr. unfold blob_path. destruct (isE key) eqn:He; [apply bool_decide_eq_true in He|apply bool_decide_eq_false in He].
  { split; [|intros ? [=]]. split; [intros [=]|by intros []]. }
  destruct (existsb (λ s, eqs s "..") (split_on slash key)) eqn:Ed.
  { split; [|intros ? [=]]. split; [intros [=]|]. intros [_ []]. apply existsb_exists in Ed as (s & Hin & Hs).
    apply bool_decide_eq_true in Hs as ->. by apply list_elem_of_In. }
  assert (Hnd : b ".." ∉ split_on slash key).
  { intros Hin. assert (E : existsb (λ s, eqs s "..") (split_on slash key) = true); [|congruence].
    apply existsb_exists. exists (b ".."). split; [by apply list_elem_of_In|done]. }
  destruct (blob_elems root key Hr Ed) as (E1 & E2 & _). pose proof (plain_ordinary key Ed) as Ho.
  set (p := path_Join [root; Clean (slash :: key)]) in *. set (segs := List.filter plain_elem (split_on slash key)) in *.
  assert (HR : exists rel, Rel root p = Some rel /\ eqs rel ".." || HasPrefix rel (b "../") = false).
  { destruct (decide (segs = [])) as [Hs|Hs]; [|exists (join [slash] segs); split; [by apply Rel_below|by apply join_parent]].
    exists (b "."). split; [|done]. unfold Rel, Clean. by rewrite E1, E2, Hs, app_nil_r, decide_True. }
  destruct HR as (rel & -> & ->). split; [done|]. intros ? [= <-]. by exists segs.
Qed.

Lemma blob_keys_inside_witness :
  is_ok (blob_path (b "/savepoints") (b "savepoints/v1")) = true /\ is_ok (blob_path (b "/savepoints") (b "savepoints/../x")) = false.
Proof.
  destruct (blob_keys_inside (b "/savepoints") (b "savepoints/v1") ltac:(done)) as [[_ H] _]. split; [|vm_compute; reflexivity].
  apply H. split; [done|]. rewrite list_elem_of_In. cbn. intros [[=]|[[=]|[]]].
Defined.

(** ** A savepoint restores the checkpoint *)

(** Relative file names as the operating system gives them. *)
Definition file_name (f : bytes) : Prop :=
  (Ascii.zero ∉ f) /\ exists segs, segs <> [] /\ Forall ordinary segs /\ f = join [slash] segs.
Record image_ok (img : gmap bytes bytes) : Prop := {
  im_ne : img <> ∅;
  im_names : forall f, is_Some (img !! f) -> file_name f;
  im_clash : forall f g, is_Some (img !! f) -> is_Some (img !! g) -> clash f g = false;
}.
Record archivable (fs : FileStorage) (d : CheckpointData) : Prop := {
  ar_ok : cd_ok d;
  ar_id : slash ∉ cd_ID d;
  ar_dirs : forall k rel, cd_StateDirs d !! k = Some rel ->
    ordinary rel /\ (Ascii.zero ∉ rel) /\ exists img, get_state (cd_ID d) rel fs = Some img /\ image_ok img;
}.

Lemma file_name_last f : file_name f -> f <> [] /\ last f <> Some slash.
Proof.
  intros (_ & segs & Hs & Ho & ->). destruct segs as [|s l _] using rev_ind; [done|]. apply Forall_app in Ho as [_ Ho].
  apply Forall_singleton in Ho as [Hd Hsl]. rewrite join_snoc.
  destruct s as [|c s _] using rev_ind; [done|]. rewrite app_assoc, last_snoc. split; [intros E; by apply app_nil in E as [_ ?]|].
  intros [= ->]. apply Hsl, elem_of_app. right. by apply list_elem_of_singleton.
Qed.
Lemma state_name_tar rel f : ordinary rel -> Ascii.zero ∉ rel -> file_name f -> tar_name (state_name rel f).
Proof.
  intros Ho Hz Hf. destruct (file_name_last f Hf) as [H1 H2]. destruct Hf as [H3 _]. unfold state_name, isE.
  rewrite bool_decide_false by done. split_and!; [done| |].
  - rewrite !app_comm_cons, !app_assoc. change (slash :: f) with ([slash] ++ f). rewrite app_assoc.
    rewrite last_app. by destruct (last f) eqn:E; [|apply last_None in E].
  - rewrite elem_of_app, elem_of_cons, elem_of_app, elem_of_cons. intros [H|[H|[H|[H|H]]]]; try done.
    rewrite list_elem_of_In in H. cbn in H. intuition discriminate.
Qed.

Lemma drop_below (p q : bytes) c : drop (S (length p)) (p ++ c :: q) = q.
Proof. by induction p. Qed.

(** Where the entry of a state file goes. *)
Lemma extract_dest_below dir id rel f :
  slash ∉ id -> ordinary rel -> file_name f ->
  extract_dest dir id (state_name rel f) = Ok (StateDirPath dir id ++ slash :: rel ++ slash :: f) /\
  Clean (StateDirPath dir id ++ slash :: rel ++ slash :: f) = StateDirPath dir id ++ slash :: rel ++ slash :: f.
Proof.
  intros Hid Hr Hf. pose proof (file_name_last f Hf) as [Hf0 _]. destruct Hf as (_ & segs & Hs & Ho & Ef).
  assert (Hsd : ordinary (StateDir id)).
  { split; [by unfold dotty, isE, eqs, StateDir|]. unfold StateDir. rewrite !elem_of_app. intros [H|[H|H]]; try done;
      rewrite list_elem_of_In in H; cbn in H; intuition discriminate. }
  destruct (path_Join_clean dir (StateDir id) Hsd) as (r & l & Hc). fold (StateDirPath dir id) in Hc. set (sd := StateDirPath dir id) in *.
  assert (Hc' : clean_path (sd ++ slash :: rel ++ slash :: f) r ((l ++ [StateDir id]) ++ rel :: segs)).
  { replace (rel ++ slash :: f) with (join [slash] (rel :: segs)); [|subst f; by destruct segs].
    apply clean_path_app; [done|done|by constructor]. }
  pose proof (clean_path_fix _ _ _ Hc') as Ec. split; [|exact Ec].
  assert (Hne : sd <> []) by (intros E; pose proof (cp_text _ _ _ Hc) as Et; rewrite E in Et; symmetry in Et;
    apply app_nil in Et as [_ Et]; rewrite join_snoc in Et; by apply app_nil in Et as [_ ?]).
  replace (state_name rel f) with (archiveStateRoot ++ slash :: rel ++ slash :: f)
    by (unfold state_name, isE; by rewrite bool_decide_false by done).
  unfold extract_dest. cbv zeta. fold sd.
  assert (Et : TrimPrefix (archiveStateRoot ++ slash :: rel ++ slash :: f) (archiveStateRoot ++ [slash]) = rel ++ slash :: f).
  { change (archiveStateRoot ++ slash :: rel ++ slash :: f) with ((archiveStateRoot ++ [slash]) ++ rel ++ slash :: f).
    unfold TrimPrefix, HasPrefix. by rewrite take_app_length, bool_decide_true, drop_app_length. }
  rewrite Et. assert (Ej : path_Join [sd; rel ++ slash :: f] = sd ++ slash :: rel ++ slash :: f).
  { unfold path_Join. cbn [List.filter]. unfold isE. rewrite !bool_decide_false by (try done; by destruct rel). cbn [negb join]. exact Ec. }
  rewrite Ej, Ec, (clean_path_fix _ _ _ Hc). unfold HasPrefix.
  replace (sd ++ slash :: rel ++ slash :: f) with ((sd ++ [slash]) ++ rel ++ slash :: f) by by rewrite <- app_assoc.
  rewrite take_app_length. rewrite bool_decide_true by done. done.
Qed.

(** Extraction of the state files of one checkpoint, in any order: what is on
    disk is always part of the archived state. *)
Section Extract.
Context `{JT : JSONText} (dir : bytes) (fs : FileStorage) (d : CheckpointData).
Hypothesis Har : archivable fs d.
Let id := cd_ID d.
Let owned (rel : bytes) : Prop := exists k, cd_StateDirs d !! k = Some rel.
Let image (x : FileStorage) (rel : bytes) : gmap bytes bytes := default ∅ (get_state id rel x).
Definition part_of (x : FileStorage) : Prop := forall rel, image x rel ⊆ image fs rel.

Lemma owned_image rel : owned rel ->
  ordinary rel /\ (Ascii.zero ∉ rel) /\ get_state id rel fs = Some (image fs rel) /\ image_ok (image fs rel).
Proof using Har.
  intros [k Hk]. destruct (ar_dirs _ _ Har k rel Hk) as (H1 & H2 & img & H3 & H4). unfold image, id. rewrite H3. done.
Qed.
Lemma image_put x rel rel' f v m :
  m = <[f := v]> (image x rel) ->
  image (put_state id rel m x) rel' = if decide (rel' = rel) then <[f := v]> (image x rel) else image x rel'.
Proof.
  intros ->. unfold image at 1. case_decide as E; [subst rel'; by rewrite get_put_eq|]. by rewrite get_put_ne.
Qed.

(** One state file of the archive. *)
Lemma extract_file x rel f v :
  owned rel -> image fs rel !! f = Some v -> part_of (x_fs x) ->
  exists fs', extract_step dir (state_name rel f, v) (Some d, x) = Ok (Some d, mkDest fs' (x_other x)) /\
    files fs' = files (x_fs x) /\ part_of fs' /\ image fs' rel !! f = Some v /\
    forall rel' f' v', image (x_fs x) rel' !! f' = Some v' -> image fs' rel' !! f' = Some v'.
Proof using Har.
  intros Ho Hf Hp. destruct (owned_image rel Ho) as (Hr & _ & _ & [_ Hn Hc]).
  pose proof (Hn f ltac:(eauto)) as Hfn. pose proof (file_name_last f Hfn) as [Hf0 _].
  destruct (extract_dest_below dir id rel f (ar_id _ _ Har) Hr Hfn) as [E1 E2].
  exists (put_state id rel (<[f := v]> (image (x_fs x) rel)) (x_fs x)). split_and!.
  - unfold extract_step. cbn [fst snd]. rewrite bool_decide_false by (unfold state_name; by intros [=]).
    replace (HasPrefix (state_name rel f) (archiveStateRoot ++ [slash])) with true by done.
    fold id. rewrite E1. cbn [mbind result_bind]. unfold writeFileFromTar. rewrite bool_decide_false by apply (ar_id _ _ Har).
    rewrite E2, drop_below.
    rewrite split_on_app, (split_on_plain _ rel) by (by destruct Hr). cbn [app].
    destruct Hfn as (_ & segs & Hs & Hos & Ef).
    rewrite Ef, split_on_join by first [done|eapply Forall_impl; [done|by intros ? [_ ?]]]. rewrite <- Ef.
    unfold put_file. fold (image (x_fs x) rel).
    replace (existsb _ _) with false; [done|]. symmetry. apply not_true_iff_false. intros (g & Hin & Hg)%existsb_exists.
    apply list_elem_of_In, elem_of_elements, elem_of_dom in Hin as [w Hw].
    rewrite (Hc f g) in Hg; [done|eauto|]. eexists. exact (lookup_weaken _ _ _ _ Hw (Hp rel)).
  - done.
  - intros rel'. rewrite (image_put _ _ _ f v) by done. case_decide as E; [subst rel'|apply Hp].
    apply insert_subseteq_l; [done|apply Hp].
  - rewrite (image_put _ _ _ f v) by done. rewrite decide_True by done. apply lookup_insert_eq.
  - intros rel' f' v' Hx. rewrite (image_put _ _ _ f v) by done. case_decide as E; [subst rel'|done].
    destruct (decide (f = f')) as [<-|]; [|by rewrite lookup_insert_ne]. rewrite lookup_insert_eq.
    pose proof (lookup_weaken _ _ _ _ Hx (Hp rel)). congruence.
Qed.

(** All of them: [ts] lists (directory, file, contents). *)
Lemma extract_files io ts x :
  Forall (λ t : bytes * bytes * bytes, owned t.1.1 /\ image fs t.1.1 !! t.1.2 = Some t.2) ts -> (length ts <= io)%nat -> part_of (x_fs x) ->
  exists fs', extract_loop io dir ((λ t, (state_name t.1.1 t.1.2, t.2)) <$> ts) (Some d, x) = ((Some d, mkDest fs' (x_other x)), None) /\
    files fs' = files (x_fs x) /\ part_of fs' /\
    (forall rel f v, image (x_fs x) rel !! f = Some v -> image fs' rel !! f = Some v) /\
    Forall (λ t, image fs' t.1.1 !! t.1.2 = Some t.2) ts.
Proof using Har.
  intros Hts. revert io x. induction Hts as [|[[rel f] v] ts [Ho Hf] Hts IH]; intros io x Hio Hp.
  - exists (x_fs x). destruct io; destruct x; by split_and!.
  - destruct io as [|io]; [cbn in Hio; lia|]. cbn [fmap list_fmap extract_loop fst snd length] in *.
    destruct (extract_file x rel f v Ho Hf Hp) as (fs1 & -> & E1 & Hp1 & Hv & Hk).
    destruct (IH io (mkDest fs1 (x_other x)) ltac:(lia) Hp1) as (fs2 & -> & E2 & Hp2 & Hk2 & Hall). cbn [x_fs x_other] in *.
    exists fs2. split_and!; [done|congruence|done|by auto|]. constructor; [by apply Hk2|done].
Qed.

(** The archive's members, as triples. *)
Definition members : list (bytes * bytes * bytes) :=
  concat ((λ kv : bytes * bytes, (λ fv, (kv.2, fv.1, fv.2)) <$> map_to_list (image fs kv.2)) <$> map_to_list (cd_StateDirs d)).
Lemma members_entries :
  concat ((λ kv, walkIntoTar fs id kv.2) <$> map_to_list (cd_StateDirs d)) = (λ t, (state_name t.1.1 t.1.2, t.2)) <$> members.
Proof.
  unfold members. induction (map_to_list (cd_StateDirs d)) as [|kv l IH]; [done|]. cbn [fmap list_fmap concat].
  rewrite fmap_app, IH. f_equal. unfold walkIntoTar. fold (image fs kv.2). rewrite <- list_fmap_compose. done.
Qed.
Lemma elem_members rel f v : (rel, f, v) ∈ members <-> owned rel /\ image fs rel !! f = Some v.
Proof.
  unfold members. rewrite list_elem_of_In, in_concat. split.
  - intros (l & Hl & Hin). apply list_elem_of_In, list_elem_of_fmap in Hl as ([k r] & -> & Hk). apply elem_of_map_to_list in Hk.
    apply list_elem_of_In, list_elem_of_fmap in Hin as ([f' v'] & [= -> -> ->] & Hf). apply elem_of_map_to_list in Hf. split; [by exists k|done].
  - intros [[k Hk] Hf]. eexists. split; [apply list_elem_of_In, list_elem_of_fmap; exists (k, rel); split; [done|by apply elem_of_map_to_list]|].
    apply list_elem_of_In, list_elem_of_fmap. exists (f, v). split; [done|]. by apply elem_of_map_to_list.
Qed.
Lemma members_tar : Forall (λ e : entry, tar_name e.1) ((λ t, (state_name t.1.1 t.1.2, t.2)) <$> members).
Proof using Har.
  apply Forall_fmap, Forall_forall. intros [[rel f] v] [Ho Hf]%elem_members. cbn.
  destruct (owned_image rel Ho) as (H1 & H2 & _ & [_ Hn _]). apply state_name_tar; eauto.
Qed.

(** After all members the directories are the archived ones. *)
Lemma members_complete x rel :
  part_of x -> Forall (λ t, image x t.1.1 !! t.1.2 = Some t.2) members -> owned rel -> get_state id rel x = get_state id rel fs.
Proof using Har.
  intros Hp Hall Ho. destruct (owned_image rel Ho) as (_ & _ & E & [Hne _ _]). rewrite E.
  assert (Ei : image x rel = image fs rel).
  { apply map_subseteq_po; [apply Hp|]. apply map_subseteq_spec. intros f v Hf. rewrite Forall_forall in Hall.
    apply (Hall (rel, f, v)), elem_members. done. }
  unfold image in Ei at 1. destruct (get_state id rel x) as [m|]; [by f_equal|]. by destruct Hne.
Qed.
End Extract.

Section Savepoint.
Context `{JT : JSONText} `{TT : TarText}.

Definition blob_writable (root key : bytes) (d : Disk) : bool :=
  match blob_path root key with Ok p => negb (not_dir d p) && bool_decide (p ∉ d_dirs d) | Err _ => false end.
Lemma Put_Get root key v d :
  root <> [] -> blob_writable root key d = true ->
  exists d', Put root key (Ok v) d = (d', Ok tt) /\ Get root key d' = Ok v.
Proof.
  intros Hr. unfold blob_writable, Put, Get. destruct (blob_path root key) as [p|] eqn:Ep; [|done].
  intros [H1%negb_true_iff H2%bool_decide_eq_true]%andb_prop. rewrite H1. cbn [d_dirs d_files mbind result_bind].
  assert (Hc : Clean p = p).
  { unfold blob_path in Ep. destruct (isE key); [done|]. destruct (existsb (λ s, eqs s "..") _) eqn:Ed; [done|].
    destruct (blob_elems root key Hr Ed) as (_ & _ & Hc). destruct (Rel _ _); [|done]. destruct (_ || _); by simplify_eq. }
  rewrite decide_False; [eexists; split; [done|]; cbn; by rewrite lookup_insert_eq|].
  rewrite elem_of_union, elem_of_list_to_set. intros [Hin|?]; [|done]. unfold ancestors in Hin.
  apply list_elem_of_fmap in Hin as (n & E & Hn%elem_of_seq). rewrite <- Hc in E at 1. symmetry in E. revert E. apply prefix_differs. lia.
Qed.

Lemma savepoint_transfers root label dir fs data d x io k :
  root <> [] -> blob_writable root (SavepointKey label) d = true ->
  LoadLatestCompleted fs = Ok (Some data) -> LoadSpecific (cd_ID data) fs = Ok (Some data) -> archivable fs data ->
  dirs (x_fs x) !! StateDir (cd_ID data) = None -> (length (members fs data) < io)%nat -> (3 <= k)%nat ->
  exists d', CreateSavepoint root label fs d = (d', Ok (cd_ID data)) /\
  exists x', RestoreSavepoint io k root label dir d' x = (x', Ok (cd_ID data)) /\
    LoadLatestCompleted (x_fs x') = Ok (Some (set_Status StatusCompleted data)) /\
    Load (x_fs x') = Ok (Some (set_Status StatusCompleted data)) /\ x_other x' = x_other x /\
    forall owner rel, cd_StateDirs data !! owner = Some rel ->
      get_state (cd_ID data) rel (x_fs x') = get_state (cd_ID data) rel fs.
Proof.
  intros Hroot Hw HL HS Har Hx Hio Hk. unfold CreateSavepoint. rewrite HL. unfold ArchiveCheckpoint. rewrite HS. cbn [fmap result_fmap].
  rewrite members_entries. set (es := _ :: _).
  destruct (Put_Get root (SavepointKey label) (tar_write es) d Hroot Hw) as (d' & -> & HG). exists d'. split; [done|].
  unfold RestoreSavepoint. rewrite HG. unfold ExtractCheckpoint.
  rewrite tar_read_write by (constructor; [by split_and!; vm_compute; [..|intros H%list_elem_of_In; cbn in H; intuition discriminate]|by apply members_tar]).
  unfold es. destruct io as [|io]; [lia|]. cbn [extract_loop]. unfold extract_step at 1. cbn [fst snd].
  rewrite bool_decide_true, json_parse_print by done. cbn [mbind option_bind].
  rewrite checkpoint_tree_roundtrip by apply (ar_ok _ _ Har).
  assert (Hp0 : part_of fs data (x_fs x)).
  { intros rel. unfold get_state. rewrite Hx. apply map_empty_subseteq. }
  destruct (extract_files dir fs data Har io (members fs data) x) as (fs' & -> & Ef & Hp & _ & Hall); [|lia|done|].
  { apply Forall_forall. intros [[rel f] v] Hin. by apply elem_members. }
  set (data' := set_Status StatusCompleted data).
  assert (Hok : cd_ok data') by (destruct (ar_ok _ _ Har); by split).
  assert (Hget : forall owner rel, cd_StateDirs data !! owner = Some rel -> get_state (cd_ID data) rel fs' = get_state (cd_ID data) rel fs)
    by (intros owner rel Ho; eapply members_complete; eauto).
  assert (Hd : has_dirs fs' data').
  { intros owner rel Ho. change (cd_StateDirs data') with (cd_StateDirs data) in Ho. destruct (ar_dirs _ _ Har owner rel Ho) as (_ & _ & img & Hi & _).
    pose proof (Hget owner rel Ho) as E. rewrite Hi in E. unfold get_state in E. change (cd_ID data') with (cd_ID data).
    destruct (dirs fs' !! StateDir (cd_ID data)); [by exists img|done]. }
  cbn [x_fs x_other]. pose proof (Save_loads data' fs' k Hok Hd eq_refl Hk) as HSv. pose proof (Save_dirs k data' fs') as HD.
  destruct (Save k data' fs') as [fs2 r]. destruct HSv as (-> & H1 & H2 & _). eexists. split; [done|]. cbn [x_fs x_other fst] in *.
  split_and!; try done. intros owner rel Ho. rewrite <- (Hget owner rel Ho). unfold get_state. by rewrite HD.
Qed.

(** C15: a savepoint brings a job's state to another place.  Promoting the
    latest completed checkpoint under a label and restoring that label into
    a storage without state of that id succeeds: the restored storage's latest
    completed checkpoint is the promoted record, and every state directory it
    names holds the same files with the same contents. *)
Theorem savepoint_roundtrip root label dir fs data d x io k :
  root <> [] -> blob_writable root (SavepointKey label) d = true ->
  LoadLatestCompleted fs = Ok (Some data) -> LoadSpecific (cd_ID data) fs = Ok (Some data) -> archivable fs data ->
  dirs (x_fs x) !! StateDir (cd_ID data) = None -> (length (members fs data) < io)%nat -> (3 <= k)%nat ->
  exists d', CreateSavepoint root label fs d = (d', Ok (cd_ID data)) /\
  exists x', RestoreSavepoint io k root label dir d' x = (x', Ok (cd_ID data)) /\
    LoadLatestCompleted (x_fs x') = Ok (Some (set_Status StatusCompleted data)) /\
    Load (x_fs x') = Ok (Some (set_Status StatusCompleted data)) /\ x_other x' = x_other x /\
    forall owner rel, cd_StateDirs data !! owner = Some rel ->
      get_state (cd_ID data) rel (x_fs x') = get_state (cd_ID data) rel fs.
Proof. apply savepoint_transfers. Qed.
End Savepoint.

(** ** Concrete archives *)

#[export] Program Instance tar_coded : TarText := {
  tar_write l := pos_bytes (encode l);
  tar_read raw := match decode (bytes_pos raw) with Some l => (l, None) | None => ([], Some "archive/tar: invalid tar header"%string) end;
}.
Next Obligation. intros l _. cbv beta. by rewrite bytes_pos_bytes, decode_encode. Qed.

Definition spData : CheckpointData :=
  mkCD (b "c1") 7 {[ b "op-0" := None ]} {[ b "offset" := Some (b "{}") ]} StatusCompleted [] {[ b "op-0" := b "op-0" ]}.
Definition spFS : FileStorage :=
  (Save 3 spData (put_state (b "c1") (b "op-0") {[ b "db/1.sst" := b "data" ]} emptyFS)).1.
Definition emptyDisk : Disk := mkDisk ∅ ∅.

Lemma sp_ordinary s : dotty s = false -> slash ∉ s -> ordinary s.
Proof. by split. Qed.
Definition spImg : gmap bytes bytes := {[ b "db/1.sst" := b "data" ]}.
Lemma sp_state : get_state (b "c1") (b "op-0") spFS = Some spImg.
Proof. unfold get_state, spFS. rewrite Save_dirs. apply (get_put_eq (b "c1") (b "op-0") spImg emptyFS). Qed.
Lemma sp_archivable : archivable spFS spData.
Proof.
  split; cbn [spData cd_ID cd_StateDirs].
  - split; cbn [spData cd_ID cd_Timestamp cd_Operators cd_Source cd_Status cd_TxnID cd_StateDirs];
      [vm_compute; done|vm_compute; done| | |vm_compute; done|vm_compute; done|].
    + intros k [? [<- _]%lookup_singleton_Some]. vm_compute. done.
    + intros k [? [<- _]%lookup_singleton_Some]. vm_compute. done.
    + intros k v [<- <-]%lookup_singleton_Some. vm_compute. done.
  - rewrite list_elem_of_In. cbn. intuition discriminate.
  - intros k rel [<- <-]%lookup_singleton_Some.
    assert (Hn : forall f, is_Some (({[ b "db/1.sst" := b "data" ]} : gmap bytes bytes) !! f) -> f = b "db/1.sst")
      by (intros f [? [<- _]%lookup_singleton_Some]; done).
    split; [apply sp_ordinary; [done|rewrite list_elem_of_In; cbn; intuition discriminate]|].
    split; [rewrite list_elem_of_In; cbn; intuition discriminate|].
    exists {[ b "db/1.sst" := b "data" ]}. split; [exact sp_state|]. split; [done| |].
    + intros f ->%Hn. split; [rewrite list_elem_of_In; cbn; intuition discriminate|]. exists [b "db"; b "1.sst"]. split_and!; [done| |done].
      repeat constructor; rewrite list_elem_of_In; cbn; intuition discriminate.
    + intros f g ->%Hn ->%Hn. done.
Qed.
Lemma sp_loads : LoadLatestCompleted spFS = Ok (Some spData) /\ LoadSpecific (b "c1") spFS = Ok (Some spData).
Proof.
  assert (Hd : has_dirs (put_state (b "c1") (b "op-0") spImg emptyFS) spData).
  { intros k v Hk. cbn [spData cd_StateDirs] in Hk. apply lookup_singleton_Some in Hk as [<- <-].
    pose proof (get_put_eq (b "c1") (b "op-0") spImg emptyFS) as E. unfold get_state in E. change (cd_ID spData) with (b "c1").
    destruct (dirs _ !! _); [by eexists|done]. }
  pose proof (Save_loads spData _ 3 (ar_ok _ _ sp_archivable) Hd eq_refl (le_n 3)) as HS.
  unfold spFS. fold spImg. destruct (Save 3 spData (put_state (b "c1") (b "op-0") spImg emptyFS)) as [fs r].
  destruct HS as (_ & _ & HL & HSp & _). by split.
Qed.
Lemma sp_members : (length (members spFS spData) < 9)%nat.
Proof.
  unfold members. cbn [spData cd_StateDirs]. rewrite map_to_list_singleton. cbn [fmap list_fmap concat snd fst cd_ID].
  change (cd_ID spData) with (b "c1"). rewrite sp_state. change (default ∅ (Some spImg)) with spImg.
  unfold spImg. rewrite map_to_list_singleton. cbn. lia.
Qed.
Lemma savepoint_roundtrip_witness :
  exists d', CreateSavepoint (b "/savepoints") (b "v1") spFS emptyDisk = (d', Ok (b "c1")) /\
  exists x', RestoreSavepoint 9 3 (b "/savepoints") (b "v1") (b "/data/cp") d' (mkDest emptyFS ∅) = (x', Ok (b "c1")) /\
    LoadLatestCompleted (x_fs x') = Ok (Some spData) /\ get_state (b "c1") (b "op-0") (x_fs x') = Some spImg.
Proof.
  destruct (savepoint_roundtrip (b "/savepoints") (b "v1") (b "/data/cp") spFS spData emptyDisk (mkDest emptyFS ∅) 9 3)
    as (d' & HC & x' & HR & HL' & _ & _ & Hg).
  - discriminate.
  - vm_compute. reflexivity.
  - exact (proj1 sp_loads).
  - exact (proj2 sp_loads).
  - exact sp_archivable.
  - reflexivity.
  - exact sp_members.
  - lia.
  - exists d'. split; [exact HC|]. exists x'. split; [exact HR|]. split; [exact HL'|]. transitivity (get_state (b "c1") (b "op-0") spFS); [|exact sp_state].
    apply (Hg (b "op-0")). cbn [spData cd_StateDirs]. apply lookup_singleton_eq.
Defined.

(** The guard against unsafe paths trusts the id inside the archive: a
    crafted id moves the state directory itself, and a file is written outside
    the checkpoint directory. *)
Definition evilData : CheckpointData := mkCD (b "x/../../evil") 7 ∅ ∅ StatusCompleted [] ∅.
Theorem archive_id_escapes :
  let es := [(archiveMetaName, json_print (tree_of_checkpoint evilData)); (b "state/f", b "owned")] in
  let '(x, r) := ExtractCheckpoint 9 3 (b "/data/cp") (tar_write es) (mkDest emptyFS ∅) in
  is_ok r = true /\ x_other x !! b "/data/evil.state/f" = Some (b "owned").
Proof. vm_compute. done. Qed.

(** A savepoint labelled "." becomes a file in place of the savepoints
    directory, and every later savepoint fails. *)
Theorem dot_label_blocks :
  let '(d, r) := CreateSavepoint (b "/savepoints") (b ".") spFS emptyDisk in
  is_ok r = true /\ is_ok (CreateSavepoint (b "/savepoints") (b "v1") spFS d).2 = false.
Proof. vm_compute. done. Qed.
