(* ===== verification/JobAgent.v ===== *)
(** * Package jobagent and the sdk lifecycle

    The agent supervises one run: its handlers take its mutex, so they are
    atomic steps that interleave with the run's own two (jobagent/agent.go).
    [Serve] is the lifecycle around a run, with savepoint restore before it and
    promotion after it (sdk/sdk.go). *)
From S2P Require Import Prelude Paths GoTime Strconv Types Json Storage EngineState Savepoint.

(** ** The agent *)

Inductive AgentPhase : Type := PhaseStarting | PhaseRunning | PhaseCancelling | PhaseFinished | PhaseFailed.
#[export] Instance AgentPhase_eq : EqDecision AgentPhase.
Proof. solve_decision. Defined.
Definition agent_Terminal (p : AgentPhase) : bool := bool_decide (p = PhaseFinished) || bool_decide (p = PhaseFailed).

Record AgentCheckpoint : Type := mkACP { acp_ID : bytes; acp_CompletedAt : Z }.
Record Agent : Type := mkAgent {
  ag_Phase : AgentPhase; ag_StartedAt : Z; ag_LastError : string;
  ag_CurrentCheckpointID : bytes; ag_LastCheckpointAt : option Z; ag_Checkpoints : list AgentCheckpoint;
  ag_cancel : bool;                    (* the cancel function is set *)
  ag_cancelled : bool;                 (* the run's context is cancelled *)
  ag_savepointReq : bool; ag_savepointLabel : bytes;
}.
Definition agent_New : Agent := mkAgent PhaseStarting 0 "" [] None [] false false false [].

(** [Run] up to Execute, and what it does with Execute's error. *)
Definition run_begin (now : Z) (a : Agent) : Agent :=
  mkAgent PhaseRunning now (ag_LastError a) (ag_CurrentCheckpointID a) (ag_LastCheckpointAt a) (ag_Checkpoints a)
    true (ag_cancelled a) (ag_savepointReq a) (ag_savepointLabel a).
(** [err]: Execute's error and whether it is context.Canceled. *)
Definition run_end (err : option (string * bool)) (a : Agent) : Agent :=
  let '(ph, msg) := match err with
    | Some (e, false) => (PhaseFailed, e)
    | _ => (PhaseFinished, ag_LastError a)
    end in
  mkAgent ph (ag_StartedAt a) msg (ag_CurrentCheckpointID a) (ag_LastCheckpointAt a) (ag_Checkpoints a)
    (ag_cancel a) true (ag_savepointReq a) (ag_savepointLabel a).
Definition agent_Cancel (a : Agent) : Agent :=
  if negb (ag_cancel a) || agent_Terminal (ag_Phase a) then a
  else mkAgent PhaseCancelling (ag_StartedAt a) (ag_LastError a) (ag_CurrentCheckpointID a) (ag_LastCheckpointAt a) (ag_Checkpoints a)
    (ag_cancel a) true (ag_savepointReq a) (ag_savepointLabel a).
(** The locked part of [RequestSavepoint]; [Cancel] follows when it accepts. *)
Definition RequestSavepoint (label : bytes) (a : Agent) : Agent * bool :=
  if negb (ag_cancel a) || agent_Terminal (ag_Phase a) then (a, false)
  else (mkAgent (ag_Phase a) (ag_StartedAt a) (ag_LastError a) (ag_CurrentCheckpointID a) (ag_LastCheckpointAt a) (ag_Checkpoints a)
    (ag_cancel a) (ag_cancelled a) true label, true).
Definition SavepointRequest (a : Agent) : bytes * bool := (ag_savepointLabel a, ag_savepointReq a).
Definition maxCheckpoints : nat := 10.
Definition onCheckpoint (now : Z) (id : bytes) (a : Agent) : Agent :=
  mkAgent (ag_Phase a) (ag_StartedAt a) (ag_LastError a) id (Some now) (take maxCheckpoints (mkACP id now :: ag_Checkpoints a))
    (ag_cancel a) (ag_cancelled a) (ag_savepointReq a) (ag_savepointLabel a).

(** ** One run with its handlers *)

Inductive ag_event : Type :=
| ARunBegin (now : Z)
| ARunEnd (err : option (string * bool))
| ACancel
| ASavepoint (label : bytes)
| ACheckpoint (now : Z) (id : bytes).

(** What was answered so far: accepted labels and completed checkpoints. *)
Record ag_world : Type := mkAW { aw_agent : Agent; aw_accepted : list bytes; aw_completed : list AgentCheckpoint; aw_done : bool }.
Inductive ag_step : ag_world -> ag_event -> ag_world -> Prop :=
| step_begin w now :   (* Run is called once *)
    ag_cancel (aw_agent w) = false -> ag_step w (ARunBegin now) (mkAW (run_begin now (aw_agent w)) (aw_accepted w) (aw_completed w) false)
| step_end w err :
    ag_cancel (aw_agent w) = true -> aw_done w = false ->
    ag_step w (ARunEnd err) (mkAW (run_end err (aw_agent w)) (aw_accepted w) (aw_completed w) true)
| step_cancel w : ag_step w ACancel (mkAW (agent_Cancel (aw_agent w)) (aw_accepted w) (aw_completed w) (aw_done w))
| step_savepoint w label :
    ag_step w (ASavepoint label)
      (let '(a, ok) := RequestSavepoint label (aw_agent w) in
       mkAW a (if ok then aw_accepted w ++ [label] else aw_accepted w) (aw_completed w) (aw_done w))
| step_checkpoint w now id :
    ag_step w (ACheckpoint now id)
      (mkAW (onCheckpoint now id (aw_agent w)) (aw_accepted w) (mkACP id now :: aw_completed w) (aw_done w)).

Inductive ag_reach : ag_world -> Prop :=
| reach_init : ag_reach (mkAW agent_New [] [] false)
| reach_step w e w' : ag_reach w -> ag_step w e w' -> ag_reach w'.

Definition phase_rank (p : AgentPhase) : nat :=
  match p with PhaseStarting => 0 | PhaseRunning => 1 | PhaseCancelling => 2 | PhaseFinished | PhaseFailed => 3 end%nat.

(** What every handler sees of a run. *)
Record ag_inv (w : ag_world) : Prop := {
  ai_start : ag_cancel (aw_agent w) = false <-> ag_Phase (aw_agent w) = PhaseStarting;
  ai_done : aw_done w = agent_Terminal (ag_Phase (aw_agent w));
  ai_cancelling : ag_Phase (aw_agent w) = PhaseCancelling -> ag_cancelled (aw_agent w) = true;
  ai_history : ag_Checkpoints (aw_agent w) = take maxCheckpoints (aw_completed w);
  ai_savepoint : SavepointRequest (aw_agent w) = match last (aw_accepted w) with Some l => (l, true) | None => ([], false) end;
}.

Lemma ag_inv_step w e w' : ag_inv w -> ag_step w e w' -> ag_inv w'.
Proof.
  intros [H1 H2 H3 H4 H5] Hs. destruct Hs as [w now Hc|w err Hc Hd|w|w label|w now id]; cbn [aw_agent aw_accepted aw_completed aw_done] in *.
  - by split.
  - destruct err as [[e []]|]; split; cbn; try done; split; try done; by rewrite Hc.
  - unfold agent_Cancel. destruct (negb (ag_cancel (aw_agent w)) || agent_Terminal (ag_Phase (aw_agent w))) eqn:E; [by split|].
    apply orb_false_iff in E as [E1%negb_false_iff E2]. split; cbn; try done; [by rewrite E1|]. by rewrite H2, E2.
  - unfold RequestSavepoint. destruct (negb (ag_cancel (aw_agent w)) || agent_Terminal (ag_Phase (aw_agent w))) eqn:E; [by split|].
    split; cbn; try done. by rewrite last_snoc.
  - split; cbn -[take]; try done. unfold onCheckpoint. cbn [ag_Checkpoints]. rewrite H4. unfold maxCheckpoints. cbn [take]. by rewrite take_take.
Qed.

Lemma ag_reach_inv w : ag_reach w -> ag_inv w.
Proof. induction 1; [by split|by eapply ag_inv_step]. Qed.

(** C38: an agent's run moves forward and answers truthfully.  In every
    interleaving of the run with cancel, savepoint and checkpoint handlers: no
    step moves the phase back and a terminal phase is final; the phase is
    terminal exactly when Execute has returned; the history is the latest ten
    completed checkpoints, newest first; and the savepoint the runner will
    promote is the last one accepted, with requests accepted exactly while the
    run is in progress. *)
Theorem agent_moves_forward w e w' :
  ag_reach w -> ag_step w e w' ->
  (phase_rank (ag_Phase (aw_agent w)) <= phase_rank (ag_Phase (aw_agent w')))%nat /\
  (agent_Terminal (ag_Phase (aw_agent w)) = true -> ag_Phase (aw_agent w') = ag_Phase (aw_agent w)) /\
  (agent_Terminal (ag_Phase (aw_agent w')) = aw_done w') /\
  ag_Checkpoints (aw_agent w') = take maxCheckpoints (aw_completed w') /\
  SavepointRequest (aw_agent w') = match last (aw_accepted w') with Some l => (l, true) | None => ([], false) end /\
  (forall label, (RequestSavepoint label (aw_agent w)).2 = true <->
     ag_Phase (aw_agent w) = PhaseRunning \/ ag_Phase (aw_agent w) = PhaseCancelling).
Proof.
  intros Hr%ag_reach_inv Hs. pose proof (ag_inv_step _ _ _ Hr Hs) as [_ Hd _ Hh Hsp]. destruct Hr as [H1 H2 _ _ _].
  assert (Hreq : forall label, (RequestSavepoint label (aw_agent w)).2 = true <->
     ag_Phase (aw_agent w) = PhaseRunning \/ ag_Phase (aw_agent w) = PhaseCancelling).
  { intros label. unfold RequestSavepoint. destruct (ag_cancel (aw_agent w)) eqn:Ec, (ag_Phase (aw_agent w)) eqn:Ep; cbn; naive_solver. }
  split; [|split; [|by split_and!]].
  - destruct Hs as [w now Hc|w err Hc Hdn|w|w label|w now id]; cbn [aw_agent aw_done] in *; unfold agent_Cancel, RequestSavepoint; cbn.
    + apply H1 in Hc. rewrite Hc. cbn. lia.
    + destruct err as [[? []]|]; cbn; destruct (ag_Phase (aw_agent w)); cbn; lia.
    + destruct (negb _ || _) eqn:E; [done|]. apply orb_false_iff in E as [_ E]. destruct (ag_Phase (aw_agent w)); cbn in *; done || lia.
    + by destruct (negb _ || _).
    + done.
  - intros Ht. destruct Hs as [w now Hc|w err Hc Hdn|w|w label|w now id]; cbn [aw_agent aw_done] in *; unfold agent_Cancel, RequestSavepoint.
    + apply H1 in Hc. by rewrite Hc in Ht.
    + congruence.
    + by rewrite Ht, orb_true_r.
    + by rewrite Ht, orb_true_r.
    + done.
Qed.

Definition ag_running : ag_world := mkAW (run_begin 5 agent_New) [] [] false.
Lemma agent_moves_forward_witness : (RequestSavepoint (b "v1") (aw_agent ag_running)).2 = true.
Proof.
  assert (Hr : ag_reach ag_running) by (eapply reach_step; [exact reach_init|apply (step_begin (mkAW agent_New [] [] false) 5); reflexivity]).
  apply (agent_moves_forward ag_running ACancel _ Hr (step_cancel ag_running)). left. reflexivity.
Defined.

(** ** The lifecycle around a run *)

Record ServeOptions : Type := mkSO { so_CheckpointDir : bytes; so_SavepointDir : bytes; so_RestoreSavepoint : bytes }.
Definition defaultSavepointDir : bytes := b "/savepoints".
Definition orDefault (v def : bytes) : bytes := if isE v then def else v.

Section Serve.
Context `{JT : JSONText} `{TT : TarText}.
(** What the job does to the checkpoint storage, with the agent it leaves. *)
Variable run : Dest -> Dest * Agent * option (string * bool).
Variables (io k : nat).

Definition savepoint_root (o : ServeOptions) : bytes := orDefault (so_SavepointDir o) defaultSavepointDir.
Definition before_run (o : ServeOptions) (d : Disk) (x : Dest) : Dest * option string :=
  if isE (so_RestoreSavepoint o) then (x, None)
  else if isE (so_CheckpointDir o) then (x, Some "sdk: RESTORE_SAVEPOINT set but checkpointing is disabled"%string)
  else let '(x, r) := RestoreSavepoint io k (savepoint_root o) (so_RestoreSavepoint o) (so_CheckpointDir o) d x in
       (x, match r with Ok _ => None | Err e => Some e end).
Definition after_run (o : ServeOptions) (a : Agent) (x : Dest) (d : Disk) : Disk :=
  let '(label, requested) := SavepointRequest a in
  if requested then
    if isE (so_CheckpointDir o) then d else (CreateSavepoint (savepoint_root o) label (x_fs x) d).1
  else d.
(** [sdk.Serve]: exit code, savepoints and checkpoint storage. *)
Definition Serve (o : ServeOptions) (d : Disk) (x : Dest) : Z * Disk * Dest :=
  match before_run o d x with
  | (x, Some _) => (1, d, x)
  | (x, None) =>
      let '(x, a, err) := run x in
      let d := after_run o a x d in
      (match err with None | Some (_, true) => 0 | Some (_, false) => 1 end, d, x)
  end.
End Serve.

(** C16: stop with savepoint, then resume.  A job asked for a savepoint that
    stops with a completed checkpoint leaves it in the savepoint store; a job
    started from that label, on a storage without state of that id, begins its
    run with the same latest completed checkpoint and the same state
    directories, and both exit as their runs do. *)
Theorem stop_and_resume `{JT : JSONText} `{TT : TarText} run io k oA oB d xA xA' aA errA data label xB :
  so_RestoreSavepoint oA = [] -> so_CheckpointDir oA <> [] ->
  run xA = (xA', aA, errA) -> SavepointRequest aA = (label, true) -> label <> [] ->
  blob_writable (savepoint_root oA) (SavepointKey label) d = true ->
  LoadLatestCompleted (x_fs xA') = Ok (Some data) -> LoadSpecific (cd_ID data) (x_fs xA') = Ok (Some data) ->
  archivable (x_fs xA') data ->
  so_RestoreSavepoint oB = label -> so_CheckpointDir oB <> [] -> so_SavepointDir oB = so_SavepointDir oA ->
  dirs (x_fs xB) !! StateDir (cd_ID data) = None ->
  (length (members (x_fs xA') data) < io)%nat -> (3 <= k)%nat ->
  exists code d', Serve run io k oA d xA = (code, d', xA') /\ (code = 0 <-> errA = None \/ exists e, errA = Some (e, true)) /\
  exists xB', (forall runB, Serve runB io k oB d' xB =
      let '(x, a, err) := runB xB' in
      (match err with None | Some (_, true) => 0 | Some (_, false) => 1 end, after_run oB a x d', x)) /\
    LoadLatestCompleted (x_fs xB') = Ok (Some (set_Status StatusCompleted data)) /\
    forall owner rel, cd_StateDirs data !! owner = Some rel -> get_state (cd_ID data) rel (x_fs xB') = get_state (cd_ID data) rel (x_fs xA').
Proof.
  intros HoA HcA Hrun Hreq Hl Hw HL HS Har HoB HcB Hsd Hx Hio Hk.
  assert (Hroot : savepoint_root oA <> []) by (unfold savepoint_root, orDefault, isE; by case_bool_decide).
  destruct (savepoint_transfers (savepoint_root oA) label (so_CheckpointDir oB) (x_fs xA') data d xB io k)
    as (d' & HC & xB' & HR & HB & _ & _ & Hg); try done.
  assert (HA : Serve run io k oA d xA = (match errA with None | Some (_, true) => 0 | Some (_, false) => 1 end, d', xA')).
  { unfold Serve, before_run, after_run. rewrite HoA. cbn [isE]. unfold isE. rewrite bool_decide_true by done.
    rewrite Hrun, Hreq, bool_decide_false by done. by rewrite HC. }
  eexists _, d'. split; [exact HA|]. split.
  { destruct errA as [[e []]|]; split; try (intros; exfalso; done); naive_solver. }
  exists xB'. split; [|done]. intros runB. unfold Serve, before_run. rewrite HoB. unfold isE. rewrite !bool_decide_false by done.
  replace (savepoint_root oB) with (savepoint_root oA) by (unfold savepoint_root; by rewrite Hsd). rewrite HR.
  by destruct (runB xB') as [[x a] err].
Qed.

(** A run that leaves the sample checkpoint and was asked for a savepoint. *)
Definition optsA : ServeOptions := mkSO (b "/data/cp") [] [].
Definition optsB : ServeOptions := mkSO (b "/other/cp") [] (b "v1").
Definition askedAgent : Agent := run_end None (agent_Cancel (RequestSavepoint (b "v1") (run_begin 5 agent_New)).1).
Definition sampleRun : Dest -> Dest * Agent * option (string * bool) := λ x, (mkDest spFS ∅, askedAgent, None).

Lemma stop_and_resume_witness :
  exists d', Serve sampleRun 9 3 optsA emptyDisk (mkDest emptyFS ∅) = (0, d', mkDest spFS ∅) /\
  exists xB', Serve sampleRun 9 3 optsB d' (mkDest emptyFS ∅) = (0, after_run optsB askedAgent (mkDest spFS ∅) d', mkDest spFS ∅) /\
    LoadLatestCompleted (x_fs xB') = Ok (Some spData).
Proof.
  destruct (stop_and_resume sampleRun 9 3 optsA optsB emptyDisk (mkDest emptyFS ∅) (mkDest spFS ∅) askedAgent None spData (b "v1") (mkDest emptyFS ∅))
    as (code & d' & HA & Hcode & xB' & HB & HL & _).
  - reflexivity.
  - discriminate.
  - reflexivity.
  - reflexivity.
  - discriminate.
  - vm_compute. reflexivity.
  - exact (proj1 sp_loads).
  - exact (proj2 sp_loads).
  - exact sp_archivable.
  - reflexivity.
  - discriminate.
  - reflexivity.
  - reflexivity.
  - exact sp_members.
  - lia.
  - exists d'. rewrite HA. rewrite (proj2 Hcode (or_introl eq_refl)). split; [reflexivity|]. exists xB'. split; [|exact HL]. rewrite (HB sampleRun). reflexivity.
Defined.

(** A savepoint that cannot be written is only printed: the process exits 0
    although the accepted request produced nothing. *)
Theorem lost_savepoint_exits_zero `{JT : JSONText} `{TT : TarText} run io k o d x x' a label e :
  so_RestoreSavepoint o = [] -> run x = (x', a, None) -> SavepointRequest a = (label, true) ->
  CreateSavepoint (savepoint_root o) label (x_fs x') d = (d, Err e) ->
  Serve run io k o d x = (0, d, x').
Proof.
  intros Ho Hr Hs Hc. unfold Serve, before_run, after_run. rewrite Ho. change (isE []) with true. cbv iota. rewrite Hr, Hs.
  destruct (isE _); [done|]. by rewrite Hc.
Qed.
