(* ===== verification/Lifecycle.v ===== *)
(** * Package control/lifecycle: phases, legal edges, restart policy *)
From S2P Require Import Prelude GoTime.

Inductive Phase : Type := Submitted | Starting | Running | Cancelling | Cancelled | Finished | Failed.
#[export] Instance Phase_eq_dec : EqDecision Phase.
Proof. solve_decision. Defined.

(** The string constants of the phases: what the store and the agent carry. *)
Definition phase_string (p : Phase) : bytes :=
  match p with
  | Submitted => b "submitted" | Starting => b "starting" | Running => b "running"
  | Cancelling => b "cancelling" | Cancelled => b "cancelled" | Finished => b "finished"
  | Failed => b "failed"
  end.

Definition Terminal (p : Phase) : bool :=
  match p with Cancelled | Finished | Failed => true | _ => false end.

(** The table [valid]; phases without an entry have no successors. *)
Definition valid (p : Phase) : list Phase :=
  match p with
  | Submitted => [Starting; Failed; Cancelled]
  | Starting => [Running; Failed; Cancelling]
  | Running => [Cancelling; Cancelled; Finished; Failed]
  | Cancelling => [Cancelled; Finished; Failed]
  | _ => []
  end.
Definition CanTransition (from to : Phase) : bool := bool_decide (to ∈ valid from).

Definition FromAgent (agentPhase : bytes) : Phase :=
  if decide (agentPhase = phase_string Starting) then Starting
  else if decide (agentPhase = phase_string Running) then Running
  else if decide (agentPhase = phase_string Cancelling) then Cancelling
  else if decide (agentPhase = phase_string Finished) then Finished
  else if decide (agentPhase = phase_string Failed) then Failed
  else Failed.

Record RestartPolicy : Type := mkPolicy { MaxAttempts : Z; BaseBackoff : Z; MaxBackoff : Z }.
#[export] Instance RestartPolicy_eq_dec : EqDecision RestartPolicy.
Proof. solve_decision. Defined.

Definition DefaultRestartPolicy : RestartPolicy := mkPolicy 5 (2 * Second) Minute.

Definition ShouldRestart (p : RestartPolicy) (phase : Phase) (attempt : Z) : bool :=
  if MaxAttempts p <=? 0 then false else bool_decide (phase = Failed) && (attempt <? MaxAttempts p).

(** The doubling loop of [Backoff]: [n] iterations remain. *)
Fixpoint backoff_loop (p : RestartPolicy) (n : nat) (d : Z) : Z :=
  match n with
  | O => d
  | S n =>
      let d := wrap64 (d * 2) in
      if (0 <? MaxBackoff p) && (MaxBackoff p <=? d) then MaxBackoff p else backoff_loop p n d
  end.
Definition Backoff (p : RestartPolicy) (attempt : Z) : Z :=
  let attempt := if attempt <? 1 then 1 else attempt in
  backoff_loop p (Z.to_nat (attempt - 1)) (BaseBackoff p).

(** ** The transition graph *)

(** Steps along legal edges. *)
Definition edge (p q : Phase) : Prop := CanTransition p q = true.

Lemma phase_string_inj p q : phase_string p = phase_string q -> p = q.
Proof. by destruct p, q. Qed.

Lemma terminal_no_edge p q : Terminal p = true -> CanTransition p q = false.
Proof. by destruct p, q. Qed.

Lemma nonterminal_edge p : Terminal p = false -> edge p Failed.
Proof. by destruct p. Qed.

(** Phases only move forward, apart from the dwell in [Cancelling]. *)
Definition weight (p : Phase) : nat :=
  match p with Submitted => 4 | Starting => 3 | Running => 2 | Cancelling => 1 | _ => 0 end.
Lemma edge_weight p q : edge p q -> (weight q < weight p)%nat.
Proof. destruct p, q; cbn; intros H; try discriminate H; lia. Qed.

Lemma nsteps_weight n p q : nsteps edge n p q -> (n + weight q <= weight p)%nat.
Proof.
  revert p. induction n as [|n IH]; intros p H; inversion H as [|? ? r ? H1 H2]; subst; [lia|].
  apply edge_weight in H1. apply IH in H2. lia.
Qed.

(** Lifecycle shape.  A run takes at most four legal steps, never leaves a
    terminal phase, and while it is not terminal it can still fail. *)
Theorem lifecycle_bounded (n : nat) (p q : Phase) :
  nsteps edge n p q ->
  (n <= 4)%nat /\ (Terminal p = true -> n = O /\ p = q) /\ (Terminal q = false -> CanTransition q Failed = true).
Proof.
  intros H. pose proof (nsteps_weight _ _ _ H). split; [destruct p; cbn in *; lia|]. split.
  - intros Ht. assert (n = O) as -> by (destruct p; try discriminate Ht; cbn in *; lia). by inversion H.
  - apply nonterminal_edge.
Qed.
Lemma lifecycle_bounded_witness : (4 <= 4)%nat.
Proof.
  assert (H : nsteps edge 4 Submitted Cancelled).
  { econstructor; [|econstructor; [|econstructor; [|econstructor; [|constructor]]]].
    - instantiate (1 := Starting). done.
    - instantiate (1 := Running). done.
    - instantiate (1 := Cancelling). done.
    - done. }
  exact (proj1 (lifecycle_bounded 4 Submitted Cancelled H)).
Defined.

(** ** The backoff schedule *)

Lemma backoff_loop_eq p n d :
  0 < d <= MaxBackoff p -> MaxBackoff p < 2 ^ 62 ->
  backoff_loop p n d = Z.min (d * 2 ^ Z.of_nat n) (MaxBackoff p).
Proof.
  intros Hd Hm. revert d Hd. induction n as [|n IH]; intros d Hd; cbn [backoff_loop].
  - change (2 ^ Z.of_nat 0) with 1. lia.
  - rewrite wrap64_id by (unfold int64; lia). rewrite Nat2Z.inj_succ, Z.pow_succ_r by lia.
    assert (0 < 2 ^ Z.of_nat n) by (apply Z.pow_pos_nonneg; lia).
    replace (0 <? MaxBackoff p) with true by lia. cbn [andb].
    destruct (Z.leb_spec (MaxBackoff p) (d * 2)); [nia|]. rewrite IH by lia. f_equal. lia.
Qed.

(** The backoff before attempt [n] is [BaseBackoff * 2^(n-1)] capped at
    [MaxBackoff], with no overflow, however large [n] is; attempts below 1
    count as the first. *)
Theorem backoff_exact (p : RestartPolicy) (attempt : Z) :
  0 < BaseBackoff p <= MaxBackoff p -> MaxBackoff p < 2 ^ 62 ->
  Backoff p attempt = Z.min (BaseBackoff p * 2 ^ (Z.max attempt 1 - 1)) (MaxBackoff p).
Proof.
  intros Hb Hm. unfold Backoff. cbv zeta. rewrite backoff_loop_eq by done.
  destruct (Z.ltb_spec attempt 1).
  - rewrite Z.max_r by lia. done.
  - rewrite Z.max_l by lia. by rewrite Z2Nat.id by lia.
Qed.
Lemma backoff_exact_witness : Backoff DefaultRestartPolicy 4 = 16 * Second.
Proof.
  transitivity (Z.min (BaseBackoff DefaultRestartPolicy * 2 ^ (Z.max 4 1 - 1)) (MaxBackoff DefaultRestartPolicy)).
  - apply backoff_exact; [split; vm_compute; done|vm_compute; done].
  - vm_compute. reflexivity.
Defined.

(** Without a cap the doubling wraps around: a policy of one second reaches a
    negative wait at its 35th attempt, which the caller takes as none. *)
Example backoff_uncapped_wraps : Backoff (mkPolicy 100 Second 0) 35 < 0.
Proof. vm_compute. reflexivity. Qed.
(** The first attempt is not capped. *)
Example backoff_first_uncapped : Backoff (mkPolicy 3 Minute Second) 1 = Minute.
Proof. reflexivity. Qed.
