(* ===== verification/JobStore.v ===== *)
(** * Package control/store: the SQLite job store

    A table is the list of its rows in insertion order; the columns hold the
    texts the statements bind, times included ([Format]/[Parse] of RFC 3339
    with nanoseconds).  Primary keys are enforced; foreign keys are not (the
    driver's default). *)
From S2P Require Import Prelude GoTime Json.

Definition DesiredRunning : bytes := b "running".
Definition DesiredStopped : bytes := b "stopped".
Definition KindYAML : bytes := b "yaml".
Definition KindSDK : bytes := b "sdk".

(** [Graph] is the JSON value of the pipeline graph. *)
Record Job : Type := mkJob {
  j_ID : bytes; j_Name : bytes; j_Kind : bytes; j_Spec : bytes; j_Image : bytes;
  j_Delivery : bytes; j_Graph : json; j_Desired : bytes; j_Created : Z; j_Updated : Z;
}.
Record Run : Type := mkRun {
  r_ID : bytes; r_JobID : bytes; r_ContainerID : bytes; r_HostPort : Z; r_Phase : bytes;
  r_Attempt : Z; r_Error : bytes; r_Started : Z; r_Stopped : option Z;
}.
Record Transition : Type := mkTransition {
  t_ID : Z; t_JobID : bytes; t_RunID : bytes; t_From : bytes; t_To : bytes; t_Reason : bytes; t_At : Z;
}.

(** ** Rows *)

Record jobRow : Type := mkJobRow {
  jr_id : bytes; jr_name : bytes; jr_kind : bytes; jr_image : bytes; jr_spec : bytes;
  jr_delivery : bytes; jr_graph : bytes; jr_desired : bytes; jr_created : bytes; jr_updated : bytes;
}.
Record runRow : Type := mkRunRow {
  rr_id : bytes; rr_job : bytes; rr_container : bytes; rr_port : Z; rr_phase : bytes;
  rr_attempt : Z; rr_error : bytes; rr_started : bytes; rr_stopped : option bytes;
}.
Record transRow : Type := mkTransRow {
  tr_id : Z; tr_job : bytes; tr_run : bytes; tr_from : bytes; tr_to : bytes; tr_reason : bytes; tr_at : bytes;
}.

Record SQLite : Type := mkSQL {
  jobs : list jobRow; runs : list runRow; transitions : list transRow;
  trans_seq : Z;    (* the AUTOINCREMENT counter *)
}.
Definition emptySQL : SQLite := mkSQL [] [] [] 0.
Definition set_runs (rs : list runRow) (s : SQLite) : SQLite := mkSQL (jobs s) rs (transitions s) (trans_seq s).
Definition set_jobs (js : list jobRow) (s : SQLite) : SQLite := mkSQL js (runs s) (transitions s) (trans_seq s).

Definition nullTime (t : option Z) : option bytes := Format <$> t.
(** [t, _ := time.Parse(rfc, s)]: the zero time on failure. *)
Definition parseTime (s : bytes) : Z := default zeroTime (Parse s).

Definition scanRun (row : runRow) : Run :=
  mkRun (rr_id row) (rr_job row) (rr_container row) (rr_port row) (rr_phase row) (rr_attempt row)
    (rr_error row) (parseTime (rr_started row)) (parseTime <$> rr_stopped row).
Definition collectRuns (rows : list runRow) : list Run := scanRun <$> rows.

(** [mustAffect]: an UPDATE or DELETE that matched no row is an error. *)
Definition mustAffect (n : nat) (what : string) : result unit :=
  if (n =? 0)%nat then Err ("store: " +:+ what +:+ " not found") else Ok tt.

(** ORDER BY started_at DESC, on the column's text. *)
Definition started_desc (x y : runRow) : Prop := bytes_le (rr_started y) (rr_started x).
#[export] Instance started_desc_dec x y : Decision (started_desc x y).
Proof. unfold started_desc. apply _. Defined.
#[export] Instance started_desc_total : Total started_desc.
Proof. intros x y. destruct (bytes_leb_total (rr_started x) (rr_started y)); [by right|by left]. Qed.
#[export] Instance started_desc_trans : Transitive started_desc.
Proof. intros x y z H1 H2. unfold started_desc in *. by etransitivity. Qed.

Definition created_desc (x y : jobRow) : Prop := bytes_le (jr_created y) (jr_created x).
#[export] Instance created_desc_dec x y : Decision (created_desc x y).
Proof. unfold created_desc. apply _. Defined.

Section Store.
Context `{JT : JSONText}.
Implicit Types (s : SQLite).

Definition CreateJob (j : Job) s : SQLite * result unit :=
  let graph := json_print (j_Graph j) in
  let kind := if bool_decide (j_Kind j = []) then KindYAML else j_Kind j in
  if bool_decide (j_ID j ∈ jr_id <$> jobs s) then (s, Err "UNIQUE constraint failed: jobs.id")
  else (set_jobs (jobs s ++ [mkJobRow (j_ID j) (j_Name j) kind (j_Image j) (j_Spec j) (j_Delivery j) graph
          (j_Desired j) (Format (j_Created j)) (Format (j_Updated j))]) s, Ok tt).

Definition scanJob (row : jobRow) : result Job :=
  match json_parse (jr_graph row) with
  | None => Err "invalid JSON"
  | Some g => Ok (mkJob (jr_id row) (jr_name row) (jr_kind row) (jr_spec row) (jr_image row)
      (jr_delivery row) g (jr_desired row) (parseTime (jr_created row)) (parseTime (jr_updated row)))
  end.

Definition GetJob (id : bytes) s : result Job :=
  match List.find (λ row, bool_decide (jr_id row = id)) (jobs s) with
  | Some row => scanJob row
  | None => Err "sql: no rows in result set"
  end.

Definition ListJobs s : result (list Job) :=
  foldr (λ row acc, j ← scanJob row; l ← acc; Ok (j :: l)) (Ok []) (merge_sort created_desc (jobs s)).

Definition SetDesired (jobID d : bytes) (now : Z) s : SQLite * result unit :=
  let hit := λ row : jobRow, bool_decide (jr_id row = jobID) in
  (set_jobs ((λ row, if hit row then
      mkJobRow (jr_id row) (jr_name row) (jr_kind row) (jr_image row) (jr_spec row) (jr_delivery row)
        (jr_graph row) d (jr_created row) (Format now) else row) <$> jobs s) s,
   mustAffect (length (List.filter hit (jobs s))) "job").

Definition DeleteJob (id : bytes) s : SQLite * result unit :=
  (mkSQL (List.filter (λ row : jobRow, negb (bool_decide (jr_id row = id))) (jobs s))
     (List.filter (λ row : runRow, negb (bool_decide (rr_job row = id))) (runs s))
     (List.filter (λ row : transRow, negb (bool_decide (tr_job row = id))) (transitions s)) (trans_seq s),
   mustAffect (length (List.filter (λ row : jobRow, bool_decide (jr_id row = id)) (jobs s))) "job").

Definition CreateRun (r : Run) s : SQLite * result unit :=
  if bool_decide (r_ID r ∈ rr_id <$> runs s) then (s, Err "UNIQUE constraint failed: runs.id")
  else (set_runs (runs s ++ [mkRunRow (r_ID r) (r_JobID r) (r_ContainerID r) (r_HostPort r) (r_Phase r)
          (r_Attempt r) (r_Error r) (Format (r_Started r)) (nullTime (r_Stopped r))]) s, Ok tt).

Definition upd_row (r : Run) (row : runRow) : runRow :=
  if bool_decide (rr_id row = r_ID r) then
    mkRunRow (rr_id row) (rr_job row) (r_ContainerID r) (r_HostPort r) (r_Phase r) (r_Attempt r)
      (r_Error r) (rr_started row) (nullTime (r_Stopped r))
  else row.
Definition UpdateRun (r : Run) s : SQLite * result unit :=
  (set_runs (upd_row r <$> runs s) s,
   mustAffect (length (List.filter (λ row : runRow, bool_decide (rr_id row = r_ID r)) (runs s))) "run").

Definition GetRun (id : bytes) s : result Run :=
  match List.find (λ row, bool_decide (rr_id row = id)) (runs s) with
  | Some row => Ok (scanRun row)
  | None => Err "sql: no rows in result set"
  end.

Definition runs_of (jobID : bytes) s : list runRow :=
  merge_sort started_desc (List.filter (λ row : runRow, bool_decide (rr_job row = jobID)) (runs s)).
Definition ListRuns (jobID : bytes) s : list Run := collectRuns (runs_of jobID s).
Definition LatestRun (jobID : bytes) s : option Run := scanRun <$> head (runs_of jobID s).

Definition ActiveRuns s : list Run :=
  collectRuns (List.filter (λ row : runRow, bool_decide (rr_stopped row = None)) (runs s)).

Definition AppendTransition (t : Transition) s : SQLite :=
  let id := trans_seq s + 1 in
  mkSQL (jobs s) (runs s) (transitions s ++ [mkTransRow id (t_JobID t) (t_RunID t) (t_From t) (t_To t)
    (t_Reason t) (Format (t_At t))]) id.

(** Rows are appended with growing ids, so they are in id order. *)
Definition ListTransitions (jobID : bytes) s : list Transition :=
  (λ row, mkTransition (tr_id row) (tr_job row) (tr_run row) (tr_from row) (tr_to row) (tr_reason row)
     (parseTime (tr_at row)))
  <$> List.filter (λ row : transRow, bool_decide (tr_job row = jobID)) (transitions s).

(** ** Facts *)

Lemma parseTime_Format t : int64 t -> parseTime (Format t) = t.
Proof. intros. unfold parseTime. by rewrite Parse_Format. Qed.

Lemma find_absent {A} (f : A -> bytes) id l rest :
  id ∉ f <$> l -> List.find (λ x, bool_decide (f x = id)) (l ++ rest) = List.find (λ x, bool_decide (f x = id)) rest.
Proof.
  induction l as [|x l IH]; [done|]. cbn. intros [Hx Hl]%not_elem_of_cons.
  rewrite bool_decide_false by congruence. by apply IH.
Qed.

(** The head of the descending order is a row with the greatest text. *)
Lemma runs_of_elem jobID s row : row ∈ runs_of jobID s <-> row ∈ runs s /\ rr_job row = jobID.
Proof.
  unfold runs_of. rewrite merge_sort_Permutation, !list_elem_of_In, filter_In.
  by rewrite bool_decide_eq_true.
Qed.
Lemma runs_of_head jobID s row :
  head (runs_of jobID s) = Some row ->
  row ∈ runs s /\ rr_job row = jobID /\
  forall row', row' ∈ runs s -> rr_job row' = jobID -> bytes_le (rr_started row') (rr_started row).
Proof.
  intros H. assert (Hs : StronglySorted started_desc (runs_of jobID s)) by (unfold runs_of; apply (StronglySorted_merge_sort started_desc)).
  assert (Hin : row ∈ runs_of jobID s) by (apply head_Some_elem_of in H; exact H).
  split; [by apply (runs_of_elem jobID)|]. split; [by apply (runs_of_elem jobID s)|]. intros row' H1 H2.
  assert (H' : row' ∈ runs_of jobID s) by by apply runs_of_elem.
  destruct (runs_of jobID s) as [|x l]; [done|]. cbn in H. injection H as ->.
  apply elem_of_cons in H' as [->|H']; [apply bytes_leb_refl|].
  apply StronglySorted_inv in Hs as [_ Hall]. rewrite Forall_forall in Hall. by apply Hall.
Qed.
End Store.
