(* ===== verification/Backend.v ===== *)
(** * Package control/backend: the container backend interface and the fake

    [ContainerBackend] is what the controller calls; [BackendLaws] is what the
    interface's comments promise, stated on [live]: which containers run, and
    for which job.  The in-memory fake (fake.go) is the instance here; Docker
    and Kubernetes are services behind the same interface. *)
From stdpp Require Import pretty.
From S2P Require Import Prelude GoTime.

Inductive BPhase : Type := PhaseRunning | PhaseExited | PhaseGone.
#[export] Instance BPhase_eq_dec : EqDecision BPhase.
Proof. solve_decision. Defined.

Record ResourceLimits : Type := mkLimits { rl_CPU : bytes; rl_Memory : bytes }.
Record LaunchSpec : Type := mkSpec {
  ls_JobID : bytes; ls_Name : bytes; ls_Image : bytes; ls_WorkflowDoc : slice;
  ls_Env : gmap bytes bytes; ls_ControlPort : Z; ls_RestoreSavepoint : bytes;
  ls_PullPolicy : bytes; ls_Resources : option ResourceLimits;
}.
Definition PullIfNotPresent : bytes := b "ifnotpresent".

Record Status : Type := mkStatus { s_Phase : BPhase; s_ExitCode : Z; s_HostPort : Z; s_Address : bytes }.

Class ContainerBackend (B : Type) : Type := {
  Launch : LaunchSpec -> B -> B * result bytes;
  Stop : bytes -> B -> B * result unit;
  StatusOf : bytes -> B -> result Status;
  (** the containers whose process is up, with their job *)
  live : B -> bytes -> option bytes;
}.

Class BackendLaws (B : Type) `{ContainerBackend B} : Prop := {
  launch_ok spec s s' id : Launch spec s = (s', Ok id) ->
    forall i, live s' i = if decide (i = id) then Some (ls_JobID spec) else live s i;
  launch_err spec s s' e : Launch spec s = (s', Err e) -> forall i, live s' i = live s i;
  stop_ok id s s' : Stop id s = (s', Ok tt) ->
    forall i, live s' i = if decide (i = id) then None else live s i;
  (** a stop that failed starts nothing *)
  stop_err id s s' e : Stop id s = (s', Err e) ->
    forall i job, live s' i = Some job -> live s i = Some job;
  status_ok id s st : StatusOf id s = Ok st -> (s_Phase st = PhaseRunning <-> is_Some (live s id));
}.

(** ** The fake *)

Record fakeContainer : Type := mkFC { fc_spec : LaunchSpec; fc_status : Status; fc_removed : bool }.
Record Fake : Type := mkFake {
  seq_ : Z; containers : gmap bytes fakeContainer; LaunchErr : option string;
}.
Definition NewFake : Fake := mkFake 0 ∅ None.

Definition fake_id (job : bytes) (n : Z) : bytes := b "fake-" ++ job ++ b "-" ++ b (pretty n).

Definition fake_Launch (spec : LaunchSpec) (f : Fake) : Fake * result bytes :=
  match LaunchErr f with
  | Some e => (mkFake (seq_ f) (containers f) None, Err e)
  | None =>
      let n := seq_ f + 1 in
      let id := fake_id (ls_JobID spec) n in
      let st := mkStatus PhaseRunning 0 (30000 + n) (b "127.0.0.1:" ++ b (pretty (30000 + n))) in
      (mkFake n (<[id := mkFC spec st false]> (containers f)) None, Ok id)
  end.

Definition set_phase (p : BPhase) (code : Z) (c : fakeContainer) : fakeContainer :=
  mkFC (fc_spec c) (mkStatus p code (s_HostPort (fc_status c)) (s_Address (fc_status c))) (fc_removed c).
Definition fake_Stop (id : bytes) (f : Fake) : Fake * result unit :=
  (mkFake (seq_ f) (alter (set_phase PhaseExited 0) id (containers f)) (LaunchErr f), Ok tt).

Definition fake_Status (id : bytes) (f : Fake) : result Status :=
  match containers f !! id with
  | None => Ok (mkStatus PhaseGone 0 0 [])
  | Some c => if fc_removed c then Ok (mkStatus PhaseGone 0 0 []) else Ok (fc_status c)
  end.

Definition fake_Remove (id : bytes) (f : Fake) : Fake :=
  mkFake (seq_ f) (alter (λ c, mkFC (fc_spec c) (fc_status c) true) id (containers f)) (LaunchErr f).
(** The test control that simulates an exit or a crash. *)
Definition SetPhase (id : bytes) (p : BPhase) (code : Z) (f : Fake) : Fake :=
  mkFake (seq_ f) (alter (set_phase p code) id (containers f)) (LaunchErr f).

Definition fc_live (c : fakeContainer) : option bytes :=
  if fc_removed c then None else if decide (s_Phase (fc_status c) = PhaseRunning) then Some (ls_JobID (fc_spec c)) else None.

#[export] Instance fake_backend : ContainerBackend Fake := {
  Launch := fake_Launch; Stop := fake_Stop; StatusOf := fake_Status;
  live f i := containers f !! i ≫= fc_live;
}.

#[export] Instance fake_laws : BackendLaws Fake.
Proof.
  split; cbn [Launch Stop StatusOf live fake_backend].
  - intros spec s s' id E i. unfold fake_Launch in E. destruct (LaunchErr s); [done|]. cbv zeta in E.
    injection E as <- <-. cbn [containers]. case_decide as Hi.
    + subst i. rewrite lookup_insert_eq. done.
    + by rewrite lookup_insert_ne.
  - intros spec s s' e E i. unfold fake_Launch in E. destruct (LaunchErr s); [|done]. by injection E as <- <-.
  - intros id s s' E i. injection E as <-. cbn [containers]. case_decide as Hi.
    + subst i. rewrite lookup_alter_eq. destruct (containers s !! id) as [c|]; [|done]. cbn. unfold fc_live. cbn.
      by destruct (fc_removed c).
    + by rewrite lookup_alter_ne by done.
  - intros id s s' e E. discriminate E.
  - intros id s st E. unfold fake_Status in E. destruct (containers s !! id) as [c|]; cbn [mbind option_bind].
    + unfold fc_live. destruct (fc_removed c); injection E as <-; cbn.
      * split; [done|by intros [? ?]].
      * case_decide; split; try done; by intros [? ?].
    + injection E as <-. split; [done|by intros [? ?]].
Qed.

(** ** Recording failed stops

    The controller drops the error of [Stop].  [Logged] wraps a backend and
    remembers the containers whose stop failed, so that theorems can speak of
    them; the controller cannot tell the difference. *)
Record Logged (B : Type) : Type := mkLogged { inner : B; failedStops : list bytes }.
Arguments mkLogged {B}.
Arguments inner {B}.
Arguments failedStops {B}.

Section Logged.
Context {B : Type} `{CB : ContainerBackend B} `{BL : !BackendLaws B}.

#[export] Instance logged_backend : ContainerBackend (Logged B) := {
  Launch spec s := let '(s', r) := Launch spec (inner s) in (mkLogged s' (failedStops s), r);
  Stop id s :=
    let '(s', r) := Stop id (inner s) in
    (mkLogged s' (match r with Ok _ => failedStops s | Err _ => id :: failedStops s end), r);
  StatusOf id s := StatusOf id (inner s);
  live s := live (inner s);
}.

#[export] Instance logged_laws : BackendLaws (Logged B).
Proof.
  split; cbn [Launch Stop StatusOf live logged_backend].
  - intros spec s s' id E. destruct (Launch spec (inner s)) as [t r] eqn:El. injection E as <- ->. by apply launch_ok.
  - intros spec s s' e E. destruct (Launch spec (inner s)) as [t r] eqn:El. injection E as <- ->. by eapply launch_err.
  - intros id s s' E. destruct (Stop id (inner s)) as [t r] eqn:Es. injection E as <- ->. by apply stop_ok.
  - intros id s s' e E. destruct (Stop id (inner s)) as [t r] eqn:Es. injection E as <- ->. by eapply stop_err.
  - intros id s st. apply status_ok.
Qed.

(** Running, and no stop of it has failed. *)
Definition up (s : Logged B) (i job : bytes) : Prop := live s i = Some job /\ i ∉ failedStops s.

Lemma up_launch_ok spec s s' id i job :
  Launch spec s = (s', Ok id) -> up s' i job -> (i = id /\ job = ls_JobID spec) \/ up s i job.
Proof.
  intros E [Hl Hf]. rewrite (launch_ok _ _ _ _ E) in Hl. cbn in E.
  destruct (Launch spec (inner s)) as [t r]. injection E as <- ->. cbn in Hf.
  case_decide; [left; split; congruence|by right].
Qed.
Lemma up_launch_err spec s s' e i job : Launch spec s = (s', Err e) -> up s' i job -> up s i job.
Proof.
  intros E [Hl Hf]. rewrite (launch_err _ _ _ _ E) in Hl. cbn in E.
  destruct (Launch spec (inner s)) as [t r]. by injection E as <- ->.
Qed.
(** After a stop the container is not up, whether the stop succeeded or not. *)
Lemma up_stop id s s' r i job : Stop id s = (s', r) -> up s' i job -> i <> id /\ up s i job.
Proof.
  intros E [Hl Hf]. destruct r as [[]|e].
  - rewrite (stop_ok _ _ _ E) in Hl. cbn in E. destruct (Stop id (inner s)) as [t r]. injection E as <- ->. cbn in Hf.
    case_decide; [done|]. done.
  - apply (stop_err _ _ _ _ E) in Hl. cbn in E. destruct (Stop id (inner s)) as [t r]. injection E as <- ->. cbn in Hf.
    apply not_elem_of_cons in Hf as [? ?]. done.
Qed.
End Logged.
