(* ===== verification/Control.v ===== *)
(** * Package control: the controller (controller.go, reconcile.go)

    Operations are written in a state monad over [World]: the store, the
    backend, the in-memory secrets, and how often the clock and the id source
    were read.  The source reads the clock with [time.Now] and ids with
    [newID]; both are functions of how often they were asked.  Parsing YAML,
    compiling a workflow, parsing a resource quantity and the agent's HTTP
    reply are arguments. *)
From S2P Require Import Prelude GoTime Json Lifecycle JobStore Backend.

Abbreviation env_map := (gmap bytes bytes).

(** ** SDK manifests *)

Record resourceSpec : Type := mkRes { res_CPU : bytes; res_Memory : bytes }.
Record sdkManifest : Type := mkManifest {
  m_Kind : bytes; m_Name : bytes; m_Image : bytes; m_Env : env_map; m_Resources : option resourceSpec;
}.

(** Simple case folding of one rune towards ASCII lower case: the letters, and
    the two other runes that fold to one (U+017F to s, U+212A to k). *)
Fixpoint fold_ascii (s : bytes) : bytes :=
  match s with
  | [] => []
  | c :: s' =>
      match s' with
      | c2 :: s2 =>
          if (byteZ c =? 0xc5) && (byteZ c2 =? 0xbf) then b "s" ++ fold_ascii s2
          else match s2 with
               | c3 :: s3 =>
                   if (byteZ c =? 0xe2) && (byteZ c2 =? 0x84) && (byteZ c3 =? 0xaa) then b "k" ++ fold_ascii s3
                   else (if (65 <=? byteZ c) && (byteZ c <=? 90) then Zbyte (byteZ c + 32) else c) :: fold_ascii s'
               | [] => (if (65 <=? byteZ c) && (byteZ c <=? 90) then Zbyte (byteZ c + 32) else c) :: fold_ascii s'
               end
      | [] => [if (65 <=? byteZ c) && (byteZ c <=? 90) then Zbyte (byteZ c + 32) else c]
      end
  end.
(** [strings.EqualFold(s, t)] for a lower-case ASCII literal [t]. *)
Definition EqualFold (s t : bytes) : bool := bool_decide (fold_ascii s = t).

Definition toLimits (r : option resourceSpec) : option ResourceLimits :=
  match r with
  | None => None
  | Some r => if bool_decide (res_CPU r = []) && bool_decide (res_Memory r = []) then None
              else Some (mkLimits (res_CPU r) (res_Memory r))
  end.

(** [override] on top of [base]. *)
Definition mergeEnv (base override : env_map) : env_map :=
  if decide (base = ∅) then override else override ∪ base.

(** ** The controller *)

Record Options : Type := mkOptions { o_Image : bytes; o_ControlPort : Z; o_Restart : RestartPolicy }.

Record World {B : Type} : Type := mkWorld {
  w_store : SQLite; w_backend : B; w_secrets : gmap bytes env_map;
  w_ticks : nat; w_ids : nat;
}.
Arguments World : clear implicits.

Definition M (B A : Type) : Type := World B -> A * World B.
#[export] Instance M_ret {B} : MRet (M B) := λ A a w, (a, w).
#[export] Instance M_bind {B} : MBind (M B) := λ A C f m w, let '(a, w') := m w in f a w'.

Section Controller.
Context `{JT : JSONText} {B : Type} `{CB : ContainerBackend B}.
Variable (clock : nat -> Z) (idSource : nat -> bytes).
Variable opts : Options.
(** yaml.Unmarshal into the manifest; [None] on a YAML error *)
Variable yaml_manifest : bytes -> option sdkManifest.
Variable ParseQuantity : bytes -> bool.
(** [Controller.validate]: name, delivery guarantee and graph, or an error *)
Variable validate : bytes -> env_map -> result (bytes * bytes * json).
(** POST /savepoint on the agent at an address: the HTTP status *)
Variable agent : bytes -> bytes -> result Z.

(** *** Construction: the defaults of [New] *)
Definition c_image : bytes := o_Image opts.
Definition c_port : Z := if o_ControlPort opts =? 0 then 8080 else o_ControlPort opts.
Definition c_restart : RestartPolicy :=
  if decide (o_Restart opts = mkPolicy 0 0 0) then DefaultRestartPolicy else o_Restart opts.

Definition parseSDKManifest (doc : bytes) : option sdkManifest :=
  match yaml_manifest doc with
  | Some m => if EqualFold (m_Kind m) KindSDK then Some m else None
  | None => None
  end.
Definition validateResources (r : option resourceSpec) : result unit :=
  match r with
  | None => Ok tt
  | Some r =>
      if negb (bool_decide (res_CPU r = [])) && negb (ParseQuantity (res_CPU r)) then Err "invalid resources.cpu"
      else if negb (bool_decide (res_Memory r = [])) && negb (ParseQuantity (res_Memory r)) then Err "invalid resources.memory"
      else Ok tt
  end.

(** *** Effects *)
Definition now : M B Z := λ w,
  (clock (w_ticks w), mkWorld _ (w_store w) (w_backend w) (w_secrets w) (S (w_ticks w)) (w_ids w)).
Definition newID : M B bytes := λ w,
  (idSource (w_ids w), mkWorld _ (w_store w) (w_backend w) (w_secrets w) (w_ticks w) (S (w_ids w))).
Definition on_store {A} (f : SQLite -> SQLite * A) : M B A := λ w,
  let '(s, a) := f (w_store w) in (a, mkWorld _ s (w_backend w) (w_secrets w) (w_ticks w) (w_ids w)).
Definition read_store {A} (f : SQLite -> A) : M B A := λ w, (f (w_store w), w).
Definition on_backend {A} (f : B -> B * A) : M B A := λ w,
  let '(s, a) := f (w_backend w) in (a, mkWorld _ (w_store w) s (w_secrets w) (w_ticks w) (w_ids w)).
Definition read_backend {A} (f : B -> A) : M B A := λ w, (f (w_backend w), w).

(** *** Internals *)
Definition transition (jobID runID from to reason : bytes) : M B unit :=
  at_ ← now; on_store (λ s, (AppendTransition (mkTransition 0 jobID runID from to reason at_) s, tt)).

Definition setSecrets (jobID : bytes) (env : env_map) : M B unit := λ w,
  if decide (env = ∅) then (tt, w)
  else (tt, mkWorld _ (w_store w) (w_backend w) (<[jobID := env]> (w_secrets w)) (w_ticks w) (w_ids w)).
Definition launchEnv (jobID : bytes) (w : World B) : env_map :=
  default ∅ (w_secrets w !! jobID) ∪ {[ b "WEIBO_JOB_ID" := jobID ]}.

Definition set_stopped (to : Phase) (t : Z) (r : Run) : Run :=
  mkRun (r_ID r) (r_JobID r) (r_ContainerID r) (r_HostPort r) (phase_string to) (r_Attempt r) (r_Error r)
    (r_Started r) (Some t).
Definition finishRun (run : Run) (from to : Phase) (reason : bytes) : M B unit :=
  t ← now;
  _ ← on_store (UpdateRun (set_stopped to t run));
  transition (r_JobID run) (r_ID run) (phase_string from) (phase_string to) reason.

(** The fence of [launch]: an active latest run refuses the launch. *)
Definition fenced (jobID : bytes) (s : SQLite) : bool :=
  match LatestRun jobID s with
  | Some prev => bool_decide (r_Stopped prev = None)
  | None => false
  end.

(** What [launch] hands to the backend. *)
Definition launchSpec (job : Job) (restore : bytes) (w : World B) : LaunchSpec :=
  let env := launchEnv (j_ID job) w in
  let '(img, doc, env, resources) :=
    if decide (j_Kind job = KindSDK) then
      match parseSDKManifest (j_Spec job) with
      | Some m => (j_Image job, None, mergeEnv (m_Env m) env, toLimits (m_Resources m))
      | None => (j_Image job, None, env, None)
      end
    else (c_image, Some (j_Spec job), env, None) in
  mkSpec (j_ID job) (j_Name job) img doc env c_port restore PullIfNotPresent resources.

(** [launch] past its fence. *)
Definition launch_start (job : Job) (attempt : Z) (restore : bytes) : M B (result unit) :=
  t ← now;
  id ← newID;
  spec ← (λ w, (launchSpec job restore w, w)) : M B LaunchSpec;
  launched ← on_backend (Launch spec);
  match launched with
  | Err e =>
      _ ← on_store (CreateRun (mkRun id (j_ID job) [] 0 (phase_string Failed) attempt (b e) t (Some t)));
      _ ← transition (j_ID job) id (phase_string Starting) (phase_string Failed) (b e);
      mret (Err e)
  | Ok cid =>
      st ← read_backend (StatusOf cid);
      let port := match st with Ok st => s_HostPort st | Err _ => 0 end in
      created ← on_store (CreateRun (mkRun id (j_ID job) cid port (phase_string Running) attempt [] t None));
      match created with
      | Err e => mret (Err e)
      | Ok _ =>
          _ ← transition (j_ID job) id (phase_string Submitted) (phase_string Running) (b "launched");
          mret (Ok tt)
      end
  end.

Definition launch (job : Job) (attempt : Z) (restore : bytes) : M B (result unit) :=
  f ← read_store (fenced (j_ID job));
  if f : bool then mret (Err "already has an active run") else launch_start job attempt restore.

(** *** Submission *)

(** What Go returns as (job, err): a job that is recorded comes back even when
    its launch failed. *)
Abbreviation job_err := (option Job * option string)%type.
Definition submit_job (mk : bytes -> Z -> Job) (env : env_map) (reason : bytes) : M B job_err :=
  t ← now;
  id ← newID;
  let job := mk id t in
  created ← on_store (CreateJob job);
  match created with
  | Err e => mret (None, Some e)
  | Ok _ =>
      _ ← setSecrets id env;
      _ ← transition id [] [] (phase_string Submitted) reason;
      r ← launch job 1 [];
      match r with
      | Err e => mret (Some job, Some ("submit: launch: " +:+ e)%string)
      | Ok _ => mret (Some job, None)
      end
  end.

(** The JSON of the zero [PipelineGraph]. *)
Definition zeroGraph : json := JObj [(b "source", JStr []); (b "operators", JNull); (b "sink", JStr [])].

Definition submitSDK (doc : bytes) (m : sdkManifest) (env : env_map) : M B job_err :=
  if bool_decide (m_Name m = []) then mret (None, Some "submit: sdk manifest missing 'name'"%string)
  else if bool_decide (m_Image m = []) then mret (None, Some "submit: sdk manifest missing 'image'"%string)
  else match validateResources (m_Resources m) with
  | Err e => mret (None, Some ("submit: " +:+ e)%string)
  | Ok _ => submit_job (λ id t, mkJob id (m_Name m) KindSDK doc (m_Image m) [] zeroGraph DesiredRunning t t)
              env (b "submitted (sdk)")
  end.

Definition Submit (doc : bytes) (env : env_map) : M B job_err :=
  match parseSDKManifest doc with
  | Some m => submitSDK doc m env
  | None =>
      match validate doc env with
      | Err e => mret (None, Some ("submit: invalid workflow: " +:+ e)%string)
      | Ok (name, delivery, graph) =>
          submit_job (λ id t, mkJob id name KindYAML doc [] delivery graph DesiredRunning t t) env (b "submitted")
      end
  end.

(** *** Stopping and restarting *)
Definition set_desired (jobID d : bytes) : M B (result unit) :=
  t ← now; on_store (SetDesired jobID d t).

Definition stop_run (run : Run) (reason : bytes) : M B unit :=
  _ ← on_backend (Stop (r_ContainerID run));
  finishRun run Running Cancelled reason.

Definition Cancel (jobID : bytes) : M B (result unit) :=
  g ← read_store (GetJob jobID);
  match g with
  | Err e => mret (Err e)
  | Ok _ =>
      d ← set_desired jobID DesiredStopped;
      match d with
      | Err e => mret (Err e)
      | Ok _ =>
          run ← read_store (LatestRun jobID);
          match run with
          | Some run =>
              if bool_decide (r_Stopped run = None) then _ ← stop_run run (b "user cancel"); mret (Ok tt)
              else mret (Ok tt)
          | None => mret (Ok tt)
          end
      end
  end.

Definition doRestart (jobID restore : bytes) : M B job_err :=
  g ← read_store (GetJob jobID);
  match g with
  | Err e => mret (None, Some e)
  | Ok job =>
      run ← read_store (LatestRun jobID);
      _ ← match run with
          | Some run => if bool_decide (r_Stopped run = None) then stop_run run (b "restart") else mret tt
          | None => mret tt
          end;
      d ← set_desired jobID DesiredRunning;
      match d with
      | Err e => mret (None, Some e)
      | Ok _ =>
          r ← launch job 1 restore;
          match r with
          | Err e => mret (Some job, Some ("restart: launch: " +:+ e)%string)
          | Ok _ => mret (Some job, None)
          end
      end
  end.
Definition Restart (jobID : bytes) : M B job_err := doRestart jobID [].
Definition RestartFromSavepoint (jobID label : bytes) : M B job_err :=
  if bool_decide (label = []) then mret (None, Some "restart: empty savepoint label"%string) else doRestart jobID label.

Definition ControlAddress (jobID : bytes) : M B (result bytes) :=
  run ← read_store (LatestRun jobID);
  match run with
  | Some run =>
      if bool_decide (r_ContainerID run = []) || negb (bool_decide (r_Stopped run = None)) then mret (Ok [])
      else
        st ← read_backend (StatusOf (r_ContainerID run));
        match st with Err e => mret (Err e) | Ok st => mret (Ok (s_Address st)) end
  | None => mret (Ok [])
  end.

Definition Savepoint (jobID label : bytes) : M B (result unit) :=
  if bool_decide (label = []) then mret (Err "savepoint: empty label")
  else
    a ← ControlAddress jobID;
    match a with
    | Err e => mret (Err e)
    | Ok [] => mret (Err "savepoint: no running control surface")
    | Ok addr =>
        match agent addr label with
        | Err e => mret (Err ("savepoint: contact agent: " +:+ e))
        | Ok code =>
            if code =? 202 then
              d ← set_desired jobID DesiredStopped;
              match d with
              | Err e => mret (Err e)
              | Ok _ =>
                  _ ← transition jobID [] (phase_string Running) (phase_string Cancelling) (b "savepoint: " ++ label);
                  mret (Ok tt)
              end
            else mret (Err "savepoint: agent returned")
        end
    end.

(** *** Reconciliation *)

(** Whether the context ends while a restart waits out its backoff, by run. *)
Variable interrupted : bytes -> bool.

Definition maybeRestart (job : Job) (run : Run) : M B unit :=
  if negb (bool_decide (j_Desired job = DesiredRunning)) then mret tt
  else if negb (ShouldRestart c_restart Failed (r_Attempt run)) then mret tt
  else if (0 <? Backoff c_restart (r_Attempt run)) && interrupted (r_ID run) then mret tt
  else _ ← launch job (r_Attempt run + 1) []; mret tt.

Definition handleExit (job : Job) (run : Run) (exitCode : Z) : M B unit :=
  let '(to, reason) :=
    if bool_decide (j_Desired job = DesiredStopped) then (Cancelled, b "stopped by request")
    else if exitCode =? 0 then (Finished, b "container exited")
    else (Failed, b "nonzero exit") in
  _ ← finishRun run Running to reason;
  if bool_decide (to = Failed) then maybeRestart job run else mret tt.

Definition set_live (port : Z) (r : Run) : Run :=
  mkRun (r_ID r) (r_JobID r) (r_ContainerID r) (if port =? 0 then r_HostPort r else port) (phase_string Running)
    (r_Attempt r) (r_Error r) (r_Started r) (r_Stopped r).

Definition reconcileRun (job : Job) (run : Run) (st : Status) : M B unit :=
  match s_Phase st with
  | PhaseRunning =>
      if bool_decide (j_Desired job = DesiredStopped) then stop_run run (b "desired stopped")
      else if negb (bool_decide (r_Phase run = phase_string Running))
           || (negb (s_HostPort st =? 0) && negb (r_HostPort run =? s_HostPort st)) then
        _ ← on_store (UpdateRun (set_live (s_HostPort st) run)); mret tt
      else mret tt
  | PhaseExited => handleExit job run (s_ExitCode st)
  | PhaseGone =>
      if bool_decide (j_Desired job = DesiredStopped) then
        finishRun run Running Cancelled (b "container gone; desired stopped")
      else
        _ ← finishRun run Running Failed (b "container gone");
        maybeRestart job run
  end.

Definition reconcile_one (run : Run) : M B unit :=
  g ← read_store (GetJob (r_JobID run));
  match g with
  | Err _ => mret tt
  | Ok job =>
      st ← read_backend (StatusOf (r_ContainerID run));
      match st with
      | Err _ => mret tt
      | Ok st => reconcileRun job run st
      end
  end.

Fixpoint reconcile_all (active : list Run) : M B unit :=
  match active with
  | [] => mret tt
  | run :: rest => _ ← reconcile_one run; reconcile_all rest
  end.
Definition Reconcile : M B unit := active ← read_store ActiveRuns; reconcile_all active.
End Controller.

(** The environment of a launch.  A variable comes from the secrets given
    at submission; else, for [WEIBO_JOB_ID], it is the job's id; else it comes
    from an SDK manifest.  YAML jobs run the controller's image with their
    document, SDK jobs their own image without one. *)
Theorem launch_environment {B : Type} (opts : Options) (yaml_manifest : bytes -> option sdkManifest)
    (job : Job) (restore : bytes) (w : World B) (k : bytes) :
  let spec := launchSpec opts yaml_manifest job restore w in
  let sdk := bool_decide (j_Kind job = KindSDK) in
  ls_Env spec !! k =
    match default ∅ (w_secrets w !! j_ID job) !! k with
    | Some v => Some v
    | None => if decide (k = b "WEIBO_JOB_ID") then Some (j_ID job)
              else if sdk then parseSDKManifest yaml_manifest (j_Spec job) ≫= λ m, m_Env m !! k else None
    end
  /\ ls_Image spec = (if sdk then j_Image job else o_Image opts)
  /\ ls_WorkflowDoc spec = (if sdk then None else Some (j_Spec job)).
Proof.
  assert (He : launchEnv (j_ID job) w !! k = match default ∅ (w_secrets w !! j_ID job) !! k with
    | Some v => Some v | None => if decide (k = b "WEIBO_JOB_ID") then Some (j_ID job) else None end).
  { unfold launchEnv. rewrite lookup_union. destruct (default ∅ (w_secrets w !! j_ID job) !! k) as [v|].
    - by rewrite union_Some_l.
    - rewrite (left_id None union). case_decide as Hk; [subst; by rewrite lookup_singleton_eq|by rewrite lookup_singleton_ne]. }
  cbv zeta. unfold launchSpec. destruct (decide (j_Kind job = KindSDK)) as [Hk|Hk];
    [rewrite (bool_decide_true _ Hk)|rewrite (bool_decide_false _ Hk)].
  - destruct (parseSDKManifest yaml_manifest (j_Spec job)) as [m|]; cbn [ls_Env ls_Image ls_WorkflowDoc mbind option_bind];
      (split; [|done]).
    + unfold mergeEnv. destruct (decide (m_Env m = ∅)) as [E|_].
      * rewrite E, lookup_empty. exact He.
      * rewrite lookup_union, He. destruct (default ∅ (w_secrets w !! j_ID job) !! k) as [v|]; [by rewrite union_Some_l|].
        case_decide; [by rewrite union_Some_l|]. by rewrite (left_id None union).
    + exact He.
  - done.
Qed.
