(* ===== verification/ControlProofs.v ===== *)
(** * The control plane: one live container per job

    The invariant of the store and the backend, that every operation of the
    controller keeps it, and what follows. *)
From S2P Require Import Prelude GoTime Json Lifecycle JobStore Backend Control.

(** ** Hoare triples for the state monad *)

Definition triple {B A} (P : World B -> Prop) (m : M B A) (Q : A -> World B -> Prop) : Prop :=
  forall w, P w -> let '(a, w') := m w in Q a w'.

Lemma triple_ret {B A} (P : A -> World B -> Prop) (a : A) : triple (P a) (mret a) P.
Proof. by intros w H. Qed.
Lemma triple_bind {B A C} P (m : M B A) (Q : A -> World B -> Prop) (f : A -> M B C) R :
  triple P m Q -> (forall a, triple (Q a) (f a) R) -> triple P (m ≫= f) R.
Proof.
  intros Hm Hf w Hw. unfold mbind, M_bind. specialize (Hm w Hw). destruct (m w) as [a w']. exact (Hf a w' Hm).
Qed.
Lemma triple_conseq {B A} (P P' : World B -> Prop) (m : M B A) (Q Q' : A -> World B -> Prop) :
  triple P m Q -> (forall w, P' w -> P w) -> (forall a w, Q a w -> Q' a w) -> triple P' m Q'.
Proof. intros H HP HQ w Hw. specialize (H w (HP w Hw)). destruct (m w) as [a w']. by apply HQ. Qed.
Lemma triple_if {B A} (c : bool) P (m1 m2 : M B A) Q : triple P m1 Q -> triple P m2 Q -> triple P (if c then m1 else m2) Q.
Proof. by destruct c. Qed.

(** ** Steps of the control plane *)

Section Steps.
Context `{JT : JSONText} {B : Type} `{CB : ContainerBackend B}.
Variable (clock : nat -> Z) (idSource : nat -> bytes).
Variable opts : Options.
Variable yaml_manifest : bytes -> option sdkManifest.
Variable ParseQuantity : bytes -> bool.
Variable validate : bytes -> env_map -> result (bytes * bytes * json).
Variable agent : bytes -> bytes -> result Z.
Variable interrupted : bytes -> bool.

(** The controller's operations: the API calls and a reconciler pass, each
    taken as one step ([fence_race] and [cancel_during_backoff] show what
    their interleaving can do). *)
Inductive ctl_step : World B -> World B -> Prop :=
| DoSubmit doc env w : ctl_step w (Submit clock idSource opts yaml_manifest ParseQuantity validate doc env w).2
| DoCancel jobID w : ctl_step w (Cancel clock jobID w).2
| DoRestart jobID w : ctl_step w (Restart clock idSource opts yaml_manifest jobID w).2
| DoRestore jobID label w : ctl_step w (RestartFromSavepoint clock idSource opts yaml_manifest jobID label w).2
| DoSavepoint jobID label w : ctl_step w (Savepoint clock agent jobID label w).2
| DoReconcile w : ctl_step w (Reconcile clock idSource opts yaml_manifest interrupted w).2.

(** The system: the controller's operations, and containers that stop by
    themselves ([exits] says how the backend may change then). *)
Inductive plane_step (exits : B -> B -> Prop) : World B -> World B -> Prop :=
| Operates w w' : ctl_step w w' -> plane_step exits w w'
| Exits w s' : exits (w_backend w) s' ->
    plane_step exits w (mkWorld _ (w_store w) s' (w_secrets w) (w_ticks w) (w_ids w)).

Definition only_down (s s' : B) : Prop := forall i job, live s' i = Some job -> live s i = Some job.

Definition fresh_world (s : B) : World B := mkWorld _ emptySQL s ∅ 0 0.
End Steps.

(** Exits leave the record of failed stops alone. *)
Definition logged_down {B} `{ContainerBackend B} (s s' : Logged B) : Prop :=
  only_down s s' /\ failedStops s' = failedStops s.

Section Invariant.
Context `{JT : JSONText} {B : Type} `{CB : ContainerBackend B} `{BL : !BackendLaws B}.
Variable (clock : nat -> Z) (idSource : nat -> bytes).

(** The first [N] readings of the clock have increasing texts. *)
Variable N : nat.
Hypothesis clock_text : forall i j, (i < j < N)%nat -> bytes_lt (Format (clock i)) (Format (clock j)).
Hypothesis ids_fresh : forall i j, idSource i = idSource j -> i = j.

Variable opts : Options.
Variable yaml_manifest : bytes -> option sdkManifest.
Variable ParseQuantity : bytes -> bool.
Variable validate : bytes -> env_map -> result (bytes * bytes * json).
Variable agent : bytes -> bytes -> result Z.
Variable interrupted : bytes -> bool.

Implicit Types (w : World (Logged B)).

Definition active (row : runRow) : Prop := rr_stopped row = None.

(** Attempts the restart policy allows. *)
Definition attempt_ok (n : Z) : Prop := n <= Z.max 1 (MaxAttempts (c_restart opts)).

Record inv w : Prop := {
  inv_ids : forall row, row ∈ runs (w_store w) -> exists i, (i < w_ids w)%nat /\ rr_id row = idSource i;
  inv_nodup : NoDup (rr_id <$> runs (w_store w));
  inv_started : forall row, row ∈ runs (w_store w) ->
    exists i, (i < w_ticks w)%nat /\ rr_started row = Format (clock i);
  inv_last : forall row row', row ∈ runs (w_store w) -> row' ∈ runs (w_store w) -> active row ->
    rr_job row' = rr_job row -> row' = row \/ bytes_lt (rr_started row') (rr_started row);
  inv_live : forall id job, up (w_backend w) id job ->
    exists row, row ∈ runs (w_store w) /\ rr_container row = id /\ rr_job row = job /\ active row;
  inv_attempt : forall row, row ∈ runs (w_store w) -> attempt_ok (rr_attempt row);
}.

(** ** Consequences *)

Lemma bytes_lt_irrefl x : ~ bytes_lt x x.
Proof. unfold bytes_lt. by rewrite bytes_leb_refl. Qed.
Lemma bytes_lt_not_le x y : bytes_lt x y -> ~ bytes_le y x.
Proof. unfold bytes_lt, bytes_le. congruence. Qed.

Lemma active_unique w row row' :
  inv w -> row ∈ runs (w_store w) -> row' ∈ runs (w_store w) -> active row -> active row' ->
  rr_job row = rr_job row' -> row = row'.
Proof.
  intros Hi H1 H2 A1 A2 E. destruct (inv_last w Hi row row' H1 H2 A1) as [->|L]; [done|done|].
  destruct (inv_last w Hi row' row H2 H1 A2) as [->|L']; [done|done|].
  unfold bytes_lt in *. destruct (bytes_leb_total (rr_started row) (rr_started row')); congruence.
Qed.

(** The fence of [launch] is exact: it refuses iff the job has an active run. *)
Lemma fence_exact w jobID : inv w ->
  fenced jobID (w_store w) = true <-> exists row, row ∈ runs (w_store w) /\ rr_job row = jobID /\ active row.
Proof.
  intros Hi. unfold fenced, LatestRun. destruct (head (runs_of jobID (w_store w))) as [row|] eqn:E; cbn [fmap option_fmap option_map].
  - destruct (runs_of_head _ _ _ E) as (H1 & H2 & Hmax). rewrite bool_decide_eq_true. cbn [r_Stopped scanRun].
    rewrite fmap_None. split; [by intros; exists row|]. intros (row' & R1 & R2 & R3).
    destruct (inv_last w Hi row' row R1 H1 R3) as [->|L]; [congruence|done|].
    exfalso. eapply bytes_lt_not_le; [exact L|]. by apply Hmax.
  - split; [done|]. intros (row & H1 & H2 & _). assert (Hin : row ∈ runs_of jobID (w_store w)) by by apply runs_of_elem.
    destruct (runs_of jobID (w_store w)); [by apply elem_of_nil in Hin|done].
Qed.

(** ** Elementary changes *)

(** Anything that leaves the runs and the live containers alone. *)
Lemma inv_frame w w' : inv w ->
  runs (w_store w') = runs (w_store w) ->
  (forall i job, up (w_backend w') i job -> up (w_backend w) i job) ->
  (w_ticks w <= w_ticks w')%nat -> (w_ids w <= w_ids w')%nat -> inv w'.
Proof.
  intros [H1 H2 H3 H4 H5 H6] Er El Ht Hd. split; rewrite Er; try done.
  - intros row Hr. destruct (H1 row Hr) as (i & ? & ?). exists i. split; [lia|done].
  - intros row Hr. destruct (H3 row Hr) as (i & ? & ?). exists i. split; [lia|done].
  - intros id job Hl. by apply H5, El.
Qed.

(** A new run of a job without an active one. *)
Lemma inv_append w w' row : inv w -> (w_ticks w < N)%nat ->
  (forall r, r ∈ runs (w_store w) -> rr_job r = rr_job row -> ~ active r) ->
  rr_id row = idSource (w_ids w) -> rr_started row = Format (clock (w_ticks w)) -> attempt_ok (rr_attempt row) ->
  runs (w_store w') = runs (w_store w) ++ [row] ->
  (forall i job, up (w_backend w') i job ->
     up (w_backend w) i job \/ (rr_container row = i /\ rr_job row = job /\ active row)) ->
  (w_ticks w < w_ticks w')%nat -> (w_ids w < w_ids w')%nat -> inv w'.
Proof.
  intros [H1 H2 H3 H4 H5 H6] HN Hno Hid Hst Hat Er El Ht Hd.
  assert (Hlt : forall r, r ∈ runs (w_store w) -> bytes_lt (rr_started r) (rr_started row)).
  { intros r Hr. destruct (H3 r Hr) as (i & Hi & ->). rewrite Hst. apply clock_text. lia. }
  split; rewrite Er.
  - intros r [Hr|Hr%list_elem_of_singleton]%elem_of_app; [|subst r; exists (w_ids w); split; [lia|done]].
    destruct (H1 r Hr) as (i & ? & ?). exists i. split; [lia|done].
  - rewrite fmap_app. apply NoDup_app. split_and!; [done| |apply NoDup_singleton].
    intros x Hx Hx'. cbn in Hx'. apply list_elem_of_singleton in Hx' as ->. apply list_elem_of_fmap in Hx as (r & E & Hr).
    destruct (H1 r Hr) as (i & Hi & Ei). rewrite Hid, Ei in E. apply ids_fresh in E. lia.
  - intros r [Hr|Hr%list_elem_of_singleton]%elem_of_app; [|subst r; exists (w_ticks w); split; [lia|done]].
    destruct (H3 r Hr) as (i & ? & ?). exists i. split; [lia|done].
  - intros r r' [Hr|Hr%list_elem_of_singleton]%elem_of_app [Hr'|Hr'%list_elem_of_singleton]%elem_of_app Ha Ej; subst.
    + by apply H4.
    + by destruct (Hno r Hr).
    + right. by apply Hlt.
    + by left.
  - intros id job Hl. destruct (El id job Hl) as [Hl'|(? & ? & ?)].
    + destruct (H5 id job Hl') as (r & ? & ? & ? & ?). exists r. split_and!; try done. apply elem_of_app. by left.
    + exists row. split_and!; try done. apply elem_of_app. right. by apply list_elem_of_singleton.
  - intros r [Hr|Hr%list_elem_of_singleton]%elem_of_app; [by apply H6|by subst].
Qed.

(** Rewriting one run: finishing it, or refreshing an active one. *)
Lemma upd_row_other r row : rr_id row <> r_ID r -> upd_row r row = row.
Proof. intros H. unfold upd_row. by rewrite bool_decide_false by done. Qed.
Lemma upd_row_keeps r row : rr_id (upd_row r row) = rr_id row /\ rr_job (upd_row r row) = rr_job row /\
  rr_started (upd_row r row) = rr_started row.
Proof. unfold upd_row. by case_bool_decide. Qed.

Lemma same_id w row row' : inv w -> row ∈ runs (w_store w) -> row' ∈ runs (w_store w) -> rr_id row = rr_id row' -> row = row'.
Proof.
  intros Hi [i H1]%list_elem_of_lookup_1 [j H2]%list_elem_of_lookup_1 E.
  assert (i = j) as ->; [|congruence].
  apply (NoDup_lookup (rr_id <$> runs (w_store w)) i j (rr_id row) (inv_nodup w Hi)); rewrite list_lookup_fmap.
  - by rewrite H1.
  - by rewrite H2, E.
Qed.

Lemma inv_update w w' r row0 : inv w -> row0 ∈ runs (w_store w) ->
  r_ID r = rr_id row0 -> r_ContainerID r = rr_container row0 -> r_Attempt r = rr_attempt row0 -> (r_Stopped r = None -> active row0) ->
  runs (w_store w') = upd_row r <$> runs (w_store w) ->
  (forall i job, up (w_backend w') i job ->
     up (w_backend w) i job /\ (i = rr_container row0 -> r_Stopped r = None)) ->
  (w_ticks w <= w_ticks w')%nat -> (w_ids w <= w_ids w')%nat -> inv w'.
Proof.
  intros Hi Hrow Eid Ec Ea Hact Er El Ht Hd. pose proof Hi as [H1 H2 H3 H4 H5 H6].
  assert (Hback : forall row, row ∈ upd_row r <$> runs (w_store w) -> active row ->
    exists row1, row1 ∈ runs (w_store w) /\ row = upd_row r row1 /\ active row1).
  { intros row (row1 & -> & Hin)%list_elem_of_fmap Ha. exists row1. split_and!; [done|done|].
    destruct (decide (rr_id row1 = r_ID r)) as [E|E]; [|by rewrite upd_row_other in Ha].
    assert (row1 = row0) as -> by (apply (same_id w); [done..|congruence]).
    apply Hact. unfold active, upd_row in Ha. rewrite bool_decide_true in Ha by done. cbn in Ha. by apply fmap_None in Ha. }
  split; rewrite Er.
  - intros row (row1 & -> & Hin)%list_elem_of_fmap. destruct (H1 row1 Hin) as (i & ? & ?). exists i.
    destruct (upd_row_keeps r row1) as (-> & _). split; [lia|done].
  - rewrite <- list_fmap_compose. rewrite (list_fmap_ext (rr_id ∘ upd_row r) rr_id (runs (w_store w))); [done|].
    intros i x _. apply upd_row_keeps.
  - intros row (row1 & -> & Hin)%list_elem_of_fmap. destruct (H3 row1 Hin) as (i & ? & ?). exists i.
    destruct (upd_row_keeps r row1) as (_ & _ & ->). split; [lia|done].
  - intros row row' Hr (row1' & -> & Hr')%list_elem_of_fmap Ha Ej.
    destruct (Hback row Hr Ha) as (row1 & Hr1 & -> & Ha1).
    destruct (upd_row_keeps r row1) as (_ & Ej1 & Es1), (upd_row_keeps r row1') as (_ & Ej2 & Es2).
    rewrite Es1, Es2. rewrite Ej1, Ej2 in Ej. destruct (H4 row1 row1' Hr1 Hr' Ha1 Ej) as [->|?]; [by left|by right].
  - intros id job Hl. destruct (El id job Hl) as (Hl' & Hs). destruct (H5 id job Hl') as (row1 & Hr1 & Ec1 & Ej1 & Ha1).
    exists (upd_row r row1). destruct (upd_row_keeps r row1) as (_ & Ej & _). split_and!.
    + by apply list_elem_of_fmap_2.
    + unfold upd_row. case_bool_decide as E; [|done]. cbn [rr_container].
      assert (row1 = row0) as -> by (apply (same_id w); [done..|congruence]). congruence.
    + by rewrite Ej.
    + unfold upd_row. case_bool_decide as E; [|done].
      assert (row1 = row0) as -> by (apply (same_id w); [done..|congruence]).
      unfold active. cbn. rewrite Hs by done. done.
  - intros row (row1 & -> & Hin)%list_elem_of_fmap. unfold upd_row. case_bool_decide; cbn; [rewrite Ea|]; by apply H6.
Qed.

(** ** Operations

    [ok H w]: while the clock is within its first [N] readings the invariant
    holds, and the runs [H] the reconciler still holds are as in the store. *)
Definition held w (run : Run) : Prop :=
  exists row, row ∈ runs (w_store w) /\ run = scanRun row /\ active row.
Definition ok (H : list Run) w : Prop :=
  (w_ticks w <= N)%nat -> inv w /\ Forall (held w) H /\ NoDup (r_ID <$> H).

Lemma held_mono w w' run :
  (forall row, row ∈ runs (w_store w) -> row ∈ runs (w_store w')) -> held w run -> held w' run.
Proof. intros Hm (row & Hr & E & Ha). exists row. split; [by apply Hm|done]. Qed.

Lemma ok_frame H w w' :
  ok H w -> runs (w_store w') = runs (w_store w) ->
  (forall i job, up (w_backend w') i job -> up (w_backend w) i job) ->
  (w_ticks w <= w_ticks w')%nat -> (w_ids w <= w_ids w')%nat -> ok H w'.
Proof.
  intros Hok Er El Ht Hd HN. destruct Hok as (Hi & Hh & Hnd); [lia|]. split_and!; [by eapply inv_frame| |done].
  eapply Forall_impl; [exact Hh|]. intros run. apply held_mono. by rewrite Er.
Qed.

Lemma triple_now H : triple (ok H) (now clock) (λ _, ok H).
Proof. intros w Hw. cbn. eapply ok_frame; [exact Hw|done|done|cbn; lia|done]. Qed.
Lemma triple_newID H : triple (ok H) (newID idSource) (λ _, ok H).
Proof. intros w Hw. cbn. eapply ok_frame; [exact Hw|done|done|done|cbn; lia]. Qed.
Lemma triple_read_store {A} P (f : SQLite -> A) : triple P (read_store f) (λ a w, P w /\ a = f (w_store w)).
Proof. by intros w Hw. Qed.
Lemma triple_read_backend {A} P (f : Logged B -> A) : triple P (read_backend f) (λ a w, P w /\ a = f (w_backend w)).
Proof. by intros w Hw. Qed.
(** Store operations that do not touch the runs. *)
Lemma triple_on_store {A} H (f : SQLite -> SQLite * A) :
  (forall s, runs (f s).1 = runs s) -> triple (ok H) (on_store f) (λ _, ok H).
Proof.
  intros Hf w Hw. unfold on_store. specialize (Hf (w_store w)). destruct (f (w_store w)) as [s a]. cbn in Hf.
  by eapply ok_frame.
Qed.
Lemma triple_transition H jobID runID from to reason :
  triple (ok H) (transition clock jobID runID from to reason) (λ _, ok H).
Proof. eapply triple_bind; [apply triple_now|]. intros t. by apply triple_on_store. Qed.

Lemma set_desired_runs jobID d t s : runs (SetDesired jobID d t s).1 = runs s.
Proof. done. Qed.
Lemma triple_set_desired H jobID d : triple (ok H) (set_desired clock jobID d) (λ _, ok H).
Proof. eapply triple_bind; [apply triple_now|]. intros t. by apply triple_on_store. Qed.
Lemma triple_setSecrets H jobID env : triple (ok H) (setSecrets jobID env) (λ _, ok H).
Proof.
  intros w Hw. unfold setSecrets. destruct (decide _); [done|]. by eapply ok_frame.
Qed.

(** Finishing a run that the caller holds and whose container is down. *)
Lemma triple_finish H run from to reason :
  triple (λ w, ok (run :: H) w /\ forall job, ~ up (w_backend w) (r_ContainerID run) job)
    (finishRun clock run from to reason) (λ _, ok H).
Proof.
  intros w (Hw & Hl). unfold finishRun.
  cbv [mbind M_bind now on_store UpdateRun]. cbv beta iota zeta.
  set (r := set_stopped to (clock (w_ticks w)) run).
  match goal with |- context [transition clock _ _ _ _ _ ?w1] => set (w' := w1) end.
  refine (triple_transition H _ _ _ _ _ w' _). intros HN. destruct Hw as (Hi & Hh & Hn); [cbn in HN; lia|].
  inversion Hh as [|? ? (row & Hr & E & Ha) Hh']; subst. apply NoDup_cons in Hn as [Hnd Hn']. split_and!; [| |done].
  - apply (inv_update w w' r row); try done; cbn; [|lia].
    intros i job Hli. split; [done|]. intros ->. by destruct (Hl job).
  - apply Forall_forall. intros run' Hin. rewrite Forall_forall in Hh'.
    destruct (Hh' run' Hin) as (row' & Hr' & -> & Ha'). exists row'. split_and!; [|done|done].
    cbn. apply list_elem_of_fmap. exists row'. split; [|done]. rewrite upd_row_other; [done|].
    cbn. intros E. apply Hnd. cbn [r_ID scanRun]. rewrite <- E. change (rr_id row') with (r_ID (scanRun row')). by apply list_elem_of_fmap_2.
Qed.

Lemma triple_stop_run H run reason :
  triple (ok (run :: H)) (stop_run clock run reason) (λ _, ok H).
Proof.
  eapply triple_bind; [|intros a; apply triple_finish].
  intros w Hw. unfold on_backend. destruct (Stop (r_ContainerID run) (w_backend w)) as [s' r] eqn:E. split.
  - eapply ok_frame; [exact Hw|done| |done|done]. intros i job Hu. by destruct (up_stop _ _ _ _ _ _ E Hu).
  - intros job Hu. by destruct (up_stop _ _ _ _ _ _ E Hu).
Qed.

Lemma attempt_first : attempt_ok 1.
Proof. unfold attempt_ok. lia. Qed.

Definition idle (jobID : bytes) w : Prop :=
  (w_ticks w <= N)%nat -> forall r, r ∈ runs (w_store w) -> rr_job r = jobID -> ~ active r.

(** Recording the run of a launch: the row is appended. *)
Lemma create_fresh w r : inv w -> r_ID r = idSource (w_ids w) ->
  CreateRun r (w_store w) = (set_runs (runs (w_store w) ++ [mkRunRow (r_ID r) (r_JobID r) (r_ContainerID r) (r_HostPort r)
    (r_Phase r) (r_Attempt r) (r_Error r) (Format (r_Started r)) (nullTime (r_Stopped r))]) (w_store w), Ok tt).
Proof.
  intros Hi E. unfold CreateRun. rewrite bool_decide_false; [done|].
  intros (row & Er & Hr)%list_elem_of_fmap. destruct (inv_ids w Hi row Hr) as (i & Hlt & Ei).
  rewrite E, Ei in Er. apply ids_fresh in Er. lia.
Qed.

Lemma ok_append H w w' row : ok H w -> idle (rr_job row) w ->
  rr_id row = idSource (w_ids w) -> rr_started row = Format (clock (w_ticks w)) -> attempt_ok (rr_attempt row) ->
  ((w_ticks w <= N)%nat -> inv w -> runs (w_store w') = runs (w_store w) ++ [row]) ->
  (forall i job, up (w_backend w') i job ->
     up (w_backend w) i job \/ (rr_container row = i /\ rr_job row = job /\ active row)) ->
  (w_ticks w < w_ticks w')%nat -> (w_ids w < w_ids w')%nat -> ok H w'.
Proof.
  intros Hw Hidle Hid Hst Hat Er El Ht Hd HN. destruct Hw as (Hi & Hh & Hn); [lia|]. specialize (Er ltac:(lia) Hi). split_and!; [| |done].
  - eapply (inv_append w w' row); try done; [lia|]. intros r. by apply Hidle; lia.
  - eapply Forall_impl; [exact Hh|]. intros run. apply held_mono. rewrite Er. intros r Hr. apply elem_of_app. by left.
Qed.

Lemma triple_launch_start H job attempt restore : attempt_ok attempt ->
  triple (λ w, ok H w /\ idle (j_ID job) w)
    (launch_start clock idSource opts yaml_manifest job attempt restore) (λ _, ok H).
Proof.
  intros Hat w (Hw & Hidle). unfold launch_start.
  cbv [mbind M_bind now newID on_backend read_backend]. cbv beta iota zeta. cbn [w_ticks w_ids w_backend w_store w_secrets].
  match goal with |- context [Launch ?sp _] => set (spec := sp) end.
  assert (Hjob : ls_JobID spec = j_ID job) by (subst spec; unfold launchSpec; by repeat case_match).
  destruct (Launch spec (w_backend w)) as [s' [cid|e]] eqn:EL.
  - pose proof (λ i j, up_launch_ok _ _ _ _ i j EL) as Hl. unfold on_store.
    match goal with |- context [CreateRun ?r _] => set (run := r) end. cbn [w_store w_ticks w_ids w_secrets w_backend].
    destruct (CreateRun run (w_store w)) as [s1 cr] eqn:EC.
    assert (Hok : ok H (mkWorld _ s1 s' (w_secrets w) (S (w_ticks w)) (S (w_ids w)))).
    { eapply (ok_append H w _ (mkRunRow (idSource (w_ids w)) (j_ID job) cid (r_HostPort run) (phase_string Running) attempt []
        (Format (clock (w_ticks w))) None)); try done; cbn; [| |lia|lia].
      - intros HN Hi. rewrite (create_fresh w run Hi) in EC by done. by injection EC as <- <-.
      - intros i j [[-> ->]|Hu]%Hl; [|by left]. right. by rewrite Hjob. }
    destruct cr as [?|e]; [|exact Hok].
    match goal with |- context [transition clock ?a1 ?a2 ?a3 ?a4 ?a5 ?a6] =>
      pose proof (triple_transition H a1 a2 a3 a4 a5 a6 Hok) as Ht; destruct (transition clock a1 a2 a3 a4 a5 a6); exact Ht end.
  - pose proof (λ i j, up_launch_err _ _ _ _ i j EL) as Hl. unfold on_store.
    match goal with |- context [CreateRun ?r _] => set (run := r) end. cbn [w_store w_ticks w_ids w_secrets w_backend].
    destruct (CreateRun run (w_store w)) as [s1 cr] eqn:EC.
    assert (Hok : ok H (mkWorld _ s1 s' (w_secrets w) (S (w_ticks w)) (S (w_ids w)))).
    { eapply (ok_append H w _ (mkRunRow (idSource (w_ids w)) (j_ID job) [] 0 (phase_string Failed) attempt (b e)
        (Format (clock (w_ticks w))) (Some (Format (clock (w_ticks w)))))); try done; cbn; [| |lia|lia].
      - intros HN Hi. rewrite (create_fresh w run Hi) in EC by done. by injection EC as <- <-.
      - intros i j Hu%Hl. by left. }
    match goal with |- context [transition clock ?a1 ?a2 ?a3 ?a4 ?a5 ?a6] =>
      pose proof (triple_transition H a1 a2 a3 a4 a5 a6 Hok) as Ht; destruct (transition clock a1 a2 a3 a4 a5 a6); exact Ht end.
Qed.

Lemma triple_launch H job attempt restore : attempt_ok attempt ->
  triple (ok H) (launch clock idSource opts yaml_manifest job attempt restore) (λ _, ok H).
Proof.
  intros Hat. eapply triple_bind; [apply triple_read_store|]. intros f w (Hw & ->).
  destruct (fenced (j_ID job) (w_store w)) eqn:E; [exact Hw|].
  refine (triple_launch_start H job attempt restore Hat w _). split; [exact Hw|].
  intros HN r Hr Hj Ha. destruct Hw as [Hi _]; [done|].
  assert (fenced (j_ID job) (w_store w) = true) by (apply fence_exact; [done|by exists r]). congruence.
Qed.

Lemma latest_held w jobID run :
  ok [] w -> LatestRun jobID (w_store w) = Some run -> r_Stopped run = None -> ok [run] w.
Proof.
  intros Hw E Hs HN. destruct Hw as [Hi _]; [done|]. unfold LatestRun in E.
  destruct (head _) as [row|] eqn:Eh; [|done]. injection E as <-. destruct (runs_of_head _ _ _ Eh) as (Hr & _).
  split_and!; [done| |apply NoDup_singleton]. constructor; [|constructor]. exists row. split_and!; [done|done|].
  cbn in Hs. by apply fmap_None in Hs.
Qed.

Lemma triple_submit_job mk env reason :
  (forall id t, j_ID (mk id t) = id) ->
  triple (ok []) (submit_job clock idSource opts yaml_manifest mk env reason) (λ _, ok []).
Proof.
  intros Hmk. eapply triple_bind; [apply triple_now|]. intros t. eapply triple_bind; [apply triple_newID|]. intros id.
  cbv zeta. eapply triple_bind.
  { apply triple_on_store. intros s. unfold CreateJob. cbv zeta. by case_bool_decide. }
  intros [?|e]; [|apply (triple_ret (λ _, ok []))].
  eapply triple_bind; [apply triple_setSecrets|]. intros ?. eapply triple_bind; [apply triple_transition|]. intros ?.
  eapply triple_bind; [apply triple_launch, attempt_first|]. intros [?|e]; apply (triple_ret (λ _, ok [])).
Qed.

Lemma triple_Submit doc env :
  triple (ok []) (Submit clock idSource opts yaml_manifest ParseQuantity validate doc env) (λ _, ok []).
Proof.
  unfold Submit. destruct (parseSDKManifest _ doc) as [m|].
  - unfold submitSDK. apply triple_if; [apply (triple_ret (λ _, ok []))|].
    apply triple_if; [apply (triple_ret (λ _, ok []))|]. destruct (validateResources _ _).
    + by apply triple_submit_job.
    + apply (triple_ret (λ _, ok [])).
  - destruct (validate doc env) as [[[name del] g]|e]; [by apply triple_submit_job|apply (triple_ret (λ _, ok []))].
Qed.

(** Stop the job's latest run when it is active. *)
Lemma triple_stop_latest jobID reason :
  triple (ok []) (run ← read_store (LatestRun jobID);
    match run with
    | Some run => if bool_decide (r_Stopped run = None) then stop_run clock run reason else mret tt
    | None => mret tt
    end) (λ _, ok []).
Proof.
  eapply triple_bind; [apply triple_read_store|]. intros run w (Hw & Er). destruct run as [run|]; [|exact Hw].
  case_bool_decide as Hs; [|exact Hw]. apply (triple_stop_run [] run reason w). by eapply latest_held.
Qed.

Lemma triple_Cancel jobID : triple (ok []) (Cancel clock jobID) (λ _, ok []).
Proof.
  eapply triple_bind; [apply triple_read_store|]. intros [j|e]; [|by intros w [Hw _]].
  eapply triple_bind; [eapply triple_conseq; [apply triple_set_desired|by intros ? [? _]|done]|].
  intros [?|e]; [|apply (triple_ret (λ _, ok []))].
  eapply triple_bind; [apply triple_read_store|]. intros [run|] w (Hw & Er); [|exact Hw].
  case_bool_decide as Hs; [|exact Hw].
  refine (triple_bind (ok [run]) _ (λ _, ok []) _ _ (triple_stop_run [] run _) _ w _); [|by eapply latest_held].
  intros ?. apply (triple_ret (λ _, ok [])).
Qed.

Lemma triple_doRestart jobID restore :
  triple (ok []) (doRestart clock idSource opts yaml_manifest jobID restore) (λ _, ok []).
Proof.
  eapply triple_bind; [apply triple_read_store|]. intros [job|e]; [|by intros w [Hw _]].
  eapply triple_bind; [apply triple_read_store|]. intros run.
  eapply (triple_bind _ _ (λ _, ok [])).
  { intros w ((Hw & _) & ->). exact (triple_stop_latest jobID (b "restart") w Hw). }
  intros ?. eapply triple_bind; [apply triple_set_desired|]. intros [?|e]; [|apply (triple_ret (λ _, ok []))].
  eapply triple_bind; [apply triple_launch, attempt_first|]. intros [?|e]; apply (triple_ret (λ _, ok [])).
Qed.

Lemma triple_Savepoint jobID label : triple (ok []) (Savepoint clock agent jobID label) (λ _, ok []).
Proof.
  unfold Savepoint. apply triple_if; [apply (triple_ret (λ _, ok []))|].
  eapply triple_bind with (Q := λ _, ok []).
  { intros w Hw. unfold ControlAddress, read_store, read_backend. cbv [mbind M_bind]. cbv beta iota zeta.
    repeat case_match; cbv [mret M_ret] in *; simplify_eq; exact Hw. }
  intros [[|c addr]|e]; try apply (triple_ret (λ _, ok [])).
  destruct (agent _ label) as [code|e]; [|apply (triple_ret (λ _, ok []))].
  apply triple_if; [|apply (triple_ret (λ _, ok []))].
  eapply triple_bind; [apply triple_set_desired|]. intros [?|e]; [|apply (triple_ret (λ _, ok []))].
  eapply triple_bind; [apply triple_transition|]. intros ?. apply (triple_ret (λ _, ok [])).
Qed.

(** ** Reconciliation *)

Lemma attempt_next n : ShouldRestart (c_restart opts) Failed n = true -> attempt_ok (n + 1).
Proof.
  unfold ShouldRestart, attempt_ok. destruct (Z.leb_spec (MaxAttempts (c_restart opts)) 0); [done|].
  intros [_ ?%Z.ltb_lt]%andb_prop. lia.
Qed.

Lemma triple_maybeRestart H job run :
  triple (ok H) (maybeRestart clock idSource opts yaml_manifest interrupted job run) (λ _, ok H).
Proof.
  unfold maybeRestart. apply triple_if; [apply (triple_ret (λ _, ok H))|].
  destruct (ShouldRestart (c_restart opts) Failed (r_Attempt run)) eqn:Es; [|apply (triple_ret (λ _, ok H))].
  cbn [negb]. apply triple_if; [apply (triple_ret (λ _, ok H))|].
  eapply triple_bind; [apply triple_launch; by apply attempt_next|]. intros ?. apply (triple_ret (λ _, ok H)).
Qed.

(** Refreshing a held run. *)
Lemma triple_refresh H run port :
  triple (ok (run :: H)) (_ ← on_store (UpdateRun (set_live port run)); mret tt) (λ _, ok H).
Proof.
  intros w Hw. cbv [mbind M_bind on_store UpdateRun mret M_ret]. cbv beta iota zeta.
  intros HN. destruct Hw as (Hi & Hh & Hn); [done|].
  inversion Hh as [|? ? (row & Hr & E & Ha) Hh']; subst. apply NoDup_cons in Hn as [Hnd Hn']. split_and!; [| |done].
  - eapply (inv_update w _ (set_live port (scanRun row)) row); try done.
    intros i job Hl. split; [done|]. intros _. cbn. by rewrite Ha.
  - apply Forall_forall. intros run' Hin. rewrite Forall_forall in Hh'.
    destruct (Hh' run' Hin) as (row' & Hr' & -> & Ha'). exists row'. split_and!; [|done|done].
    cbn. apply list_elem_of_fmap. exists row'. split; [|done]. rewrite upd_row_other; [done|].
    cbn. intros E. apply Hnd. cbn [r_ID scanRun]. rewrite <- E. change (rr_id row') with (r_ID (scanRun row')). by apply list_elem_of_fmap_2.
Qed.

Lemma ok_drop run H w : ok (run :: H) w -> ok H w.
Proof.
  intros Hw HN. destruct Hw as (Hi & Hh & Hn); [done|]. inversion Hh. apply NoDup_cons in Hn as [_ Hn]. done.
Qed.

Lemma triple_handleExit H job run code :
  triple (λ w, ok (run :: H) w /\ forall job, ~ up (w_backend w) (r_ContainerID run) job)
    (handleExit clock idSource opts yaml_manifest interrupted job run code) (λ _, ok H).
Proof.
  unfold handleExit. destruct (bool_decide (j_Desired job = DesiredStopped)); [|destruct (code =? 0)];
    (eapply triple_bind; [apply triple_finish|]); intros ?; apply triple_if;
    try apply (triple_ret (λ _, ok H)); apply triple_maybeRestart.
Qed.

Lemma triple_reconcile_one H run :
  triple (ok (run :: H)) (reconcile_one clock idSource opts yaml_manifest interrupted run) (λ _, ok H).
Proof.
  eapply triple_bind; [apply triple_read_store|]. intros [job|e]; [|intros w [Hw _]; by eapply ok_drop].
  eapply triple_bind; [apply triple_read_backend|]. intros [st|e]; [|intros w [[Hw _] _]; by eapply ok_drop].
  intros w [[Hw _] Est]. symmetry in Est. pose proof (status_ok _ _ _ Est) as Hst. unfold reconcileRun.
  assert (Hdown : s_Phase st <> PhaseRunning -> forall job, ~ up (w_backend w) (r_ContainerID run) job).
  { intros Hp j [El _]. destruct Hp. apply Hst. by eexists. }
  destruct (s_Phase st) eqn:Ep.
  - case_bool_decide; [by apply (triple_stop_run H run _ w)|]. destruct (_ || _); [by apply (triple_refresh H run _ w)|].
    by eapply ok_drop.
  - apply (triple_handleExit H job run _ w). split; [exact Hw|by apply Hdown].
  - case_bool_decide; [by apply (triple_finish H run _ _ _ w); split; [exact Hw|apply Hdown]|].
    eapply (triple_bind _ _ (λ _, ok H)); [apply triple_finish| |by split; [exact Hw|apply Hdown]].
    intros ?. apply triple_maybeRestart.
Qed.

Lemma triple_reconcile_all H :
  triple (ok H) (reconcile_all clock idSource opts yaml_manifest interrupted H) (λ _, ok []).
Proof.
  induction H as [|run H IH]; [apply (triple_ret (λ _, ok []))|]. cbn [reconcile_all].
  eapply triple_bind; [apply triple_reconcile_one|]. intros ?. exact IH.
Qed.

Lemma triple_Reconcile :
  triple (ok []) (Reconcile clock idSource opts yaml_manifest interrupted) (λ _, ok []).
Proof.
  eapply triple_bind; [apply triple_read_store|]. intros act w (Hw & ->).
  apply (triple_reconcile_all _ w). intros HN. destruct Hw as [Hi _]; [done|]. unfold ActiveRuns, collectRuns. split_and!; [done| |].
  - apply Forall_forall. intros run (row & -> & Hin)%list_elem_of_fmap. exists row.
    rewrite list_elem_of_In, filter_In, bool_decide_eq_true in Hin. rewrite list_elem_of_In. destruct Hin. done.
  - rewrite <- list_fmap_compose. change (r_ID ∘ scanRun) with rr_id.
    assert (Hs : List.filter (λ row, bool_decide (rr_stopped row = None)) (runs (w_store w)) `sublist_of` runs (w_store w)).
    { induction (runs (w_store w)) as [|x l IH]; [constructor|]. cbn. case_bool_decide; by constructor. }
    eapply sublist_NoDup; [apply (inv_nodup w Hi)|by apply fmap_sublist].
Qed.

(** ** Runs of the control plane *)

Abbreviation lctl_step := (ctl_step (B := Logged B) clock idSource opts yaml_manifest ParseQuantity validate agent interrupted).
Abbreviation lplane_step :=
  (plane_step (B := Logged B) clock idSource opts yaml_manifest ParseQuantity validate agent interrupted logged_down).

Lemma triple_snd {A} (m : M (Logged B) A) w : triple (ok []) m (λ _, ok []) -> ok [] w -> ok [] (m w).2.
Proof. intros Hm Hw. specialize (Hm w Hw). by destruct (m w). Qed.

Lemma ctl_step_ok w w' : lctl_step w w' -> ok [] w -> ok [] w'.
Proof.
  intros [] Hw; try (apply triple_snd; [|exact Hw]).
  - apply triple_Submit.
  - apply triple_Cancel.
  - apply triple_doRestart.
  - unfold RestartFromSavepoint. apply triple_if; [apply (triple_ret (λ _, ok []))|apply triple_doRestart].
  - apply triple_Savepoint.
  - apply triple_Reconcile.
Qed.

Lemma plane_step_ok w w' : lplane_step w w' -> ok [] w -> ok [] w'.
Proof.
  intros [w1 w1' H|w1 s' [Hd Hf]] Hw; [by eapply ctl_step_ok|]. eapply ok_frame; [exact Hw|done| |done|done].
  intros i job [Hl Hn]. cbn [w_backend] in *. split; [by apply Hd|by rewrite <- Hf].
Qed.

Lemma reachable_ok s w : (forall i, live s i = None) -> rtc lplane_step (fresh_world s) w -> ok [] w.
Proof.
  intros Hs Hr. assert (H0 : ok [] (fresh_world s)).
  { intros _. split_and!; [|constructor|constructor]. split; cbn; try (by intros ? ?%elem_of_nil); [constructor| |].
    - by intros ? ? ?%elem_of_nil.
    - intros id job [Hl _]. by rewrite Hs in Hl. }
  revert H0. induction Hr as [|? ? ? H1 _ IH]; [done|]. intros H0. by apply IH, (plane_step_ok _ _ H1).
Qed.

(** Reachable worlds have one live container per job. *)
Lemma reachable_exclusive s w :
  (forall i, live s i = None) -> rtc lplane_step (fresh_world s) w -> (w_ticks w <= N)%nat ->
  (forall i j job, up (w_backend w) i job -> up (w_backend w) j job -> i = j) /\
  (forall i job, up (w_backend w) i job ->
     exists run, run ∈ ActiveRuns (w_store w) /\ r_ContainerID run = i /\ r_JobID run = job) /\
  (forall r1 r2, r1 ∈ ActiveRuns (w_store w) -> r2 ∈ ActiveRuns (w_store w) -> r_JobID r1 = r_JobID r2 -> r1 = r2).
Proof.
  intros Hs Hr HN. destruct (reachable_ok s w Hs Hr HN) as [Hi _].
  assert (Hact : forall run, run ∈ ActiveRuns (w_store w) <-> held w run).
  { intros run. unfold ActiveRuns, collectRuns, held. rewrite list_elem_of_fmap.
    setoid_rewrite list_elem_of_In. setoid_rewrite filter_In. setoid_rewrite bool_decide_eq_true.
    split; intros (row & H1 & H2); exists row; naive_solver. }
  split_and!.
  - intros i j job Hli Hlj. destruct (inv_live w Hi i job Hli) as (r1 & R1 & C1 & J1 & A1).
    destruct (inv_live w Hi j job Hlj) as (r2 & R2 & C2 & J2 & A2).
    assert (r1 = r2) by (apply (active_unique w); congruence). congruence.
  - intros i job Hl. destruct (inv_live w Hi i job Hl) as (row & R & C & J & A). exists (scanRun row).
    split_and!; [|done|done]. apply Hact. by exists row.
  - intros r1 r2 (x & X & -> & AX)%Hact (y & Y & -> & AY)%Hact E. f_equal. by apply (active_unique w).
Qed.

(** Automatic restarts are bounded.  Whatever happens, no run is ever
    recorded with an attempt number above the policy's maximum (or 1, when
    the policy allows none). *)
Theorem restart_attempts_bounded s w run :
  (forall i, live s i = None) -> rtc lplane_step (fresh_world s) w -> (w_ticks w <= N)%nat ->
  GetRun (r_ID run) (w_store w) = Ok run -> r_Attempt run <= Z.max 1 (MaxAttempts (c_restart opts)).
Proof.
  intros Hs Hr HN. destruct (reachable_ok s w Hs Hr HN) as [Hi _]. unfold GetRun.
  destruct (List.find _ _) as [row|] eqn:E; [|done]. intros [= <-]. apply find_some in E as [E _].
  cbn. by apply (inv_attempt w Hi), list_elem_of_In.
Qed.

(** ** Stopped jobs

    What a step does to job [j]: the job rows stay, and no container of [j]
    comes up. *)
Definition quiet (j : bytes) w w' : Prop :=
  jobs (w_store w') = jobs (w_store w) /\
  forall i, up (w_backend w') i j -> up (w_backend w) i j.

Lemma quiet_trans j w1 w2 w3 : quiet j w1 w2 -> quiet j w2 w3 -> quiet j w1 w3.
Proof. intros [E1 L1] [E2 L2]. split; [congruence|auto]. Qed.

Definition quietly {A} j (m : M (Logged B) A) : Prop := forall w, quiet j w (m w).2.
Lemma quietly_bind {A C} j (m : M (Logged B) A) (f : A -> M (Logged B) C) :
  quietly j m -> (forall a, quietly j (f a)) -> quietly j (m ≫= f).
Proof.
  intros Hm Hf w. unfold mbind, M_bind. specialize (Hm w). destruct (m w) as [a w']. eapply quiet_trans; [exact Hm|apply Hf].
Qed.
Lemma quietly_ret {A} j (a : A) : quietly j (mret a).
Proof. by intros w. Qed.
Lemma quietly_now j : quietly j (now clock).
Proof. by intros w. Qed.
Lemma quietly_store {A} j (f : SQLite -> SQLite * A) :
  (forall s, jobs (f s).1 = jobs s) -> quietly j (on_store f).
Proof. intros Hf w. unfold on_store. specialize (Hf (w_store w)). by destruct (f (w_store w)). Qed.
Lemma quietly_transition j a1 a2 a3 a4 a5 : quietly j (transition clock a1 a2 a3 a4 a5).
Proof. apply quietly_bind; [apply quietly_now|]. intros t. by apply quietly_store. Qed.
Lemma quietly_finish j run from to reason : quietly j (finishRun clock run from to reason).
Proof.
  apply quietly_bind; [apply quietly_now|]. intros t. apply quietly_bind; [by apply quietly_store|].
  intros ?. apply quietly_transition.
Qed.
Lemma quietly_stop j run reason : quietly j (stop_run clock run reason).
Proof.
  apply quietly_bind; [|intros ?; apply quietly_finish]. intros w. unfold on_backend.
  destruct (Stop (r_ContainerID run) (w_backend w)) as [s' r] eqn:E. split; [done|].
  intros i Hu. by destruct (up_stop _ _ _ _ _ _ E Hu).
Qed.
Lemma quietly_backend_launch j spec : ls_JobID spec <> j -> quietly j (on_backend (Launch spec)).
Proof.
  intros Hne w. unfold on_backend. destruct (Launch spec (w_backend w)) as [s' [id|e]] eqn:E; split; try done; intros i Hu.
  - destruct (up_launch_ok _ _ _ _ _ _ E Hu) as [[_ ?]|?]; [congruence|done].
  - by apply (up_launch_err _ _ _ _ _ _ E).
Qed.
Lemma quietly_launch j job attempt restore :
  j_ID job <> j -> quietly j (launch clock idSource opts yaml_manifest job attempt restore).
Proof.
  intros Hne. apply quietly_bind; [by intros w|]. intros []; [apply quietly_ret|]. unfold launch_start.
  apply quietly_bind; [apply quietly_now|]. intros t. apply quietly_bind; [by intros w|]. intros id.
  assert (Hsp : forall w, ls_JobID (launchSpec opts yaml_manifest job restore w) = j_ID job)
    by (intros w; unfold launchSpec; by repeat case_match).
  intros w. unfold mbind at 1, M_bind at 1. cbv beta iota zeta.
  apply (quietly_bind j (on_backend (Launch (launchSpec opts yaml_manifest job restore w)))); [by apply quietly_backend_launch; rewrite Hsp|].
  assert (Hc : forall r s, jobs (CreateRun r s).1 = jobs s) by (intros r s; unfold CreateRun; by case_bool_decide).
  intros [cid|e].
  - apply quietly_bind; [by intros ?|]. intros st. cbv zeta. apply quietly_bind; [by apply quietly_store|]. intros [?|e]; [|apply quietly_ret].
    apply quietly_bind; [apply quietly_transition|]. intros ?. apply quietly_ret.
  - apply quietly_bind; [by apply quietly_store|]. intros ?. apply quietly_bind; [apply quietly_transition|].
    intros ?. apply quietly_ret.
Qed.

Lemma quietly_maybeRestart j job run :
  j_ID job <> j -> quietly j (maybeRestart clock idSource opts yaml_manifest interrupted job run).
Proof.
  intros Hne. unfold maybeRestart. repeat (case_match; [apply quietly_ret|]).
  apply quietly_bind; [by apply quietly_launch|]. intros ?. apply quietly_ret.
Qed.
Lemma stopped_no_restart j job run w :
  j_Desired job = DesiredStopped ->
  quiet j w (maybeRestart clock idSource opts yaml_manifest interrupted job run w).2.
Proof. intros E. unfold maybeRestart. rewrite E. by rewrite bool_decide_false by done. Qed.

Lemma GetJob_id id s job : GetJob id s = Ok job -> j_ID job = id.
Proof.
  unfold GetJob. destruct (List.find _ _) as [row|] eqn:E; [|done]. apply find_some in E as [_ E%bool_decide_eq_true].
  unfold scanJob. destruct (json_parse _); [|done]. by intros [= <-].
Qed.

(** Job [j] is stopped, and each of its containers has a run still to visit. *)
Definition winding (j : bytes) (L : list Run) w : Prop :=
  (exists job, GetJob j (w_store w) = Ok job /\ j_Desired job = DesiredStopped) /\
  forall i, up (w_backend w) i j -> exists run, run ∈ L /\ r_ContainerID run = i /\ r_JobID run = j.

Lemma winding_quiet j L w w' : winding j L w -> quiet j w w' -> winding j L w'.
Proof.
  intros [Hj Hl] [Ej Hq]. split; [|by intros i Hi; apply Hl, Hq]. unfold GetJob in *. by rewrite Ej.
Qed.
(** A visited run is either of another job, or its container is down. *)
Lemma winding_drop j run L w :
  winding j (run :: L) w -> (r_JobID run = j -> ~ up (w_backend w) (r_ContainerID run) j) -> winding j L w.
Proof.
  intros [Hj Hl] Hd. split; [done|]. intros i Hi. destruct (Hl i Hi) as (run' & Hin & Hc & Hjb).
  apply elem_of_cons in Hin as [->|Hin]; [|eauto]. subst i. by destruct (Hd Hjb).
Qed.

Lemma stop_run_down run reason w job :
  ~ up (w_backend (stop_run clock run reason w).2) (r_ContainerID run) job.
Proof.
  unfold stop_run, on_backend. unfold mbind at 1, M_bind at 1.
  destruct (Stop (r_ContainerID run) (w_backend w)) as [s' r0] eqn:E. cbv beta iota zeta.
  match goal with |- context [finishRun clock ?r ?f ?t ?x ?w1] => assert (H : w_backend (finishRun clock r f t x w1).2 = w_backend w1) by done; rewrite H end.
  intros Hu. by destruct (up_stop _ _ _ _ _ _ E Hu).
Qed.

Lemma reconcile_one_winding j run L w :
  (forall id (t : Logged B), live t id = Some j -> is_ok (StatusOf id t) = true) ->
  winding j (run :: L) w ->
  winding j L (reconcile_one clock idSource opts yaml_manifest interrupted run w).2.
Proof.
  intros Hst Hw. unfold reconcile_one, read_store, read_backend. unfold mbind, M_bind. cbv beta iota zeta.
  destruct (decide (r_JobID run = j)) as [Ej|Ne].
  - destruct Hw as [(job & Eg & Ed) Hl] eqn:Ew. rewrite Ej, Eg.
    specialize (Hst (r_ContainerID run) (w_backend w)).
    destruct (StatusOf (r_ContainerID run) (w_backend w)) as [st|e] eqn:Es.
    2: { eapply winding_drop; [exact Hw|]. intros _ [El _]. by specialize (Hst El). }
    pose proof (status_ok _ _ _ Es) as Hlive. unfold reconcileRun.
    assert (Hdown : s_Phase st <> PhaseRunning -> ~ up (w_backend w) (r_ContainerID run) j)
      by (intros Hp [E _]; apply Hp, Hlive; by eexists).
    destruct (s_Phase st) eqn:Ep.
    + rewrite bool_decide_true by done. eapply winding_drop; [eapply winding_quiet; [exact Hw|apply quietly_stop]|].
      intros _. apply stop_run_down.
    + eapply winding_quiet; [eapply winding_drop; [exact Hw|intros _; by apply Hdown]|].
      unfold handleExit. rewrite bool_decide_true by done.
      apply quietly_bind; [apply quietly_finish|]. intros ?. apply quietly_ret.
    + rewrite bool_decide_true by done.
      eapply winding_quiet; [eapply winding_drop; [exact Hw|intros _; by apply Hdown]|apply quietly_finish].
  - eapply winding_quiet; [eapply winding_drop; [exact Hw|done]|].
    destruct (GetJob (r_JobID run) (w_store w)) as [job|e] eqn:Eg; [|done]. apply GetJob_id in Eg.
    destruct (StatusOf _ _) as [st|e]; [|done].
    assert (Hm : quietly j (maybeRestart clock idSource opts yaml_manifest interrupted job run))
      by (apply quietly_maybeRestart; congruence).
    unfold reconcileRun. destruct (s_Phase st).
    + case_bool_decide; [apply quietly_stop|]. destruct (_ || _); [|done].
      apply quietly_bind; [by apply quietly_store|]. intros ?. apply quietly_ret.
    + unfold handleExit. destruct (bool_decide _); [|destruct (_ =? _)];
        (apply quietly_bind; [apply quietly_finish|]); intros ?; case_match; first [apply quietly_ret|exact Hm].
    + case_bool_decide; [apply quietly_finish|]. apply quietly_bind; [apply quietly_finish|]. intros ?. exact Hm.
Qed.

Lemma reconcile_all_winding j L w :
  (forall id (t : Logged B), live t id = Some j -> is_ok (StatusOf id t) = true) ->
  winding j L w -> winding j [] (reconcile_all clock idSource opts yaml_manifest interrupted L w).2.
Proof.
  intros Hst. revert w. induction L as [|run L IH]; intros w Hw; [exact Hw|]. cbn [reconcile_all].
  unfold mbind, M_bind. pose proof (reconcile_one_winding j run L w Hst Hw) as H1.
  destruct (reconcile_one _ _ _ _ _ run w) as [[] w']. by apply IH.
Qed.

Lemma reconcile_brings_down s w j :
  (forall i, live s i = None) -> rtc lplane_step (fresh_world s) w -> (w_ticks w <= N)%nat ->
  (forall id (t : Logged B), live t id = Some j -> is_ok (StatusOf id t) = true) ->
  (exists job, GetJob j (w_store w) = Ok job /\ j_Desired job = DesiredStopped) ->
  winding j [] (Reconcile clock idSource opts yaml_manifest interrupted w).2.
Proof.
  intros Hs Hr HN Hst Hj. destruct (reachable_ok s w Hs Hr HN) as [Hi _].
  apply (reconcile_all_winding j (ActiveRuns (w_store w)) w Hst). split; [done|]. intros i Hl.
  destruct (inv_live w Hi i j Hl) as (row & R & C & J & A). exists (scanRun row). split_and!; [|done|done].
  unfold ActiveRuns, collectRuns. apply list_elem_of_fmap_2. rewrite list_elem_of_In, filter_In, <- list_elem_of_In.
  by rewrite bool_decide_eq_true.
Qed.
End Invariant.

(** The texts of the start times taken so far sort in time order, and run
    ids do not repeat. *)
Definition clock_sorted (clock : nat -> Z) (n : nat) : Prop :=
  forall i j, (i < j < n)%nat -> bytes_lt (Format (clock i)) (Format (clock j)).
Definition ids_distinct (ids : nat -> bytes) : Prop := forall i j, ids i = ids j -> i = j.



(** ** A concrete control plane: the fake backend, a clock of whole seconds *)

Definition sec_clock (i : nat) : Z := (1700000000 + Z.of_nat i) * Second.
Definition num_id (i : nat) : bytes := replicate i "x"%char.
Definition demo_opts : Options := mkOptions (b "weibo-runner:dev") 0 (mkPolicy 0 0 0).
Definition demo_validate (doc : bytes) (env : env_map) : result (bytes * bytes * json) := Ok (b "orders", b "at-least-once", JNull).
Definition demo_agent (addr label : bytes) : result Z := Ok 202.
Definition no_manifest (doc : bytes) : option sdkManifest := None.
Definition no_interrupt (id : bytes) : bool := false.
Definition any_quantity (q : bytes) : bool := true.

Lemma num_id_inj i j : num_id i = num_id j -> i = j.
Proof. intros E. apply (f_equal length) in E. unfold num_id in E. by rewrite !length_replicate in E. Qed.

(** Texts of the first [n] seconds, compared pairwise. *)
Definition texts_increase (clock : nat -> Z) (n : nat) : bool :=
  let ts := (λ i, Format (clock i)) <$> seq 0 n in
  forallb (λ i, negb (bytes_leb (default [] (ts !! S i)) (default [] (ts !! i)))) (seq 0 (n - 1)).

Lemma bytes_lt_trans x y z : bytes_lt x y -> bytes_lt y z -> bytes_lt x z.
Proof.
  unfold bytes_lt. intros H1 H2. destruct (bytes_leb z x) eqn:E; [|done].
  destruct (bytes_leb_total x y) as [H|H]; [|congruence].
  rewrite (bytes_leb_trans z x y E H) in H2. done.
Qed.

Lemma texts_increase_spec clock n : texts_increase clock n = true ->
  forall i j, (i < j < n)%nat -> bytes_lt (Format (clock i)) (Format (clock j)).
Proof.
  intros Ht i j Hij. unfold texts_increase in Ht. rewrite forallb_forall in Ht.
  assert (Hs : forall k, (S k < n)%nat -> bytes_lt (Format (clock k)) (Format (clock (S k)))).
  { intros k Hk. specialize (Ht k). rewrite !list_lookup_fmap in Ht. rewrite !lookup_seq_lt in Ht by lia.
    cbn in Ht. unfold bytes_lt. apply negb_true_iff, Ht, in_seq. lia. }
  destruct Hij as [Hlt Hn]. induction Hlt as [|j Hlt IH]; [by apply Hs|].
  eapply bytes_lt_trans; [apply IH; lia|by apply Hs].
Qed.

Definition demo_submit := Submit (B := Fake) sec_clock num_id demo_opts no_manifest any_quantity demo_validate (b "spec") ∅.
Definition demo_restart (job : bytes) := Restart (B := Fake) sec_clock num_id demo_opts no_manifest job.
Definition demo_reconcile := Reconcile (B := Fake) sec_clock num_id demo_opts no_manifest no_interrupt.

(** A backend whose [Stop] fails, as one with an unreachable daemon does. *)
Record Stuck : Type := mkStuck { fake : Fake }.
#[export] Instance stuck_backend : ContainerBackend Stuck := {|
  Launch spec s := let '(f, r) := fake_Launch spec (fake s) in (mkStuck f, r);
  Stop id s := (s, Err "cannot connect to the daemon");
  StatusOf id s := fake_Status id (fake s);
  live s := live (fake s);
|}.
#[export] Instance stuck_laws : BackendLaws Stuck.
Proof.
  split; cbn [Launch Stop StatusOf live stuck_backend].
  - intros spec s s' id E. destruct (fake_Launch spec (fake s)) as [f r] eqn:El. injection E as <- ->. by apply (launch_ok (B := Fake)).
  - intros spec s s' e E. destruct (fake_Launch spec (fake s)) as [f r] eqn:El. injection E as <- ->. by eapply (launch_err (B := Fake)).
  - done.
  - intros id s s' e [= <- _]. done.
  - intros id s st. exact (status_ok (B := Fake) id (fake s) st).
Qed.

Abbreviation witness_step :=
  (plane_step sec_clock num_id demo_opts no_manifest any_quantity demo_validate demo_agent no_interrupt logged_down).
Definition logged_submit {B} `{ContainerBackend B} :=
  Submit (B := Logged B) sec_clock num_id demo_opts no_manifest any_quantity demo_validate (b "spec") ∅.
Definition logged_restart {B} `{ContainerBackend B} :=
  Restart (B := Logged B) sec_clock num_id demo_opts no_manifest (num_id 0).
Lemma sec_sorted w : (w <= 20)%nat -> clock_sorted sec_clock w.
Proof. intros Hw i j Hij. apply (texts_increase_spec sec_clock 20); [vm_compute; reflexivity|lia]. Qed.

Lemma fake_empty i : live NewFake i = None.
Proof. reflexivity. Qed.
Lemma stuck_empty i : live (mkStuck NewFake) i = None.
Proof. reflexivity. Qed.

