(* ===== verification/ControlClaims.v ===== *)
(** * The control plane on concrete runs

    Witnesses of the control-plane theorems on the fake backend, and the runs
    that show what their assumptions exclude. *)
From S2P Require Import Prelude GoTime Json Lifecycle JobStore Backend Control ControlProofs.

Abbreviation demo_world := (World Fake).

(** The job's container crashes, and the reconciler restarts it. *)
Definition crash (id : bytes) (w : demo_world) : demo_world :=
  mkWorld _ (w_store w) (SetPhase id PhaseExited 1 (w_backend w)) (w_secrets w) (w_ticks w) (w_ids w).
Definition submitted : demo_world := (demo_submit (fresh_world NewFake)).2.
Definition restarted : demo_world := (demo_reconcile (crash (fake_id (num_id 0) 1) submitted)).2.

(** The same runs over the recording backend. *)
Abbreviation logged_world := (World (Logged Fake)).
Definition l_crash (id : bytes) (w : logged_world) : logged_world :=
  mkWorld _ (w_store w) (mkLogged (SetPhase id PhaseExited 1 (inner (w_backend w))) (failedStops (w_backend w)))
    (w_secrets w) (w_ticks w) (w_ids w).
Definition l_submitted : logged_world := (logged_submit (fresh_world (mkLogged NewFake []))).2.
Definition l_restarted : logged_world :=
  (Reconcile sec_clock num_id demo_opts no_manifest no_interrupt (l_crash (fake_id (num_id 0) 1) l_submitted)).2.
(** A savepoint marks the job stopped while its container still runs. *)
Definition l_savepointed : logged_world := (Savepoint sec_clock demo_agent (num_id 0) (b "v1") l_submitted).2.

Lemma crash_exits id (w : logged_world) : logged_down (w_backend w) (w_backend (l_crash id w)).
Proof.
  split; [|done]. intros i job H. cbn in *. destruct (decide (id = i)) as [->|Hn]; [|by rewrite lookup_alter_ne in H].
  rewrite lookup_alter_eq in H. destruct (containers (inner (w_backend w)) !! i) as [c|]; [|done]. cbn in *. unfold fc_live in *.
  cbn in H. by destruct (fc_removed c).
Qed.

Lemma submitted_reachable : rtc witness_step (fresh_world (mkLogged NewFake [])) l_submitted.
Proof. eapply rtc_r; [apply rtc_refl|apply Operates, DoSubmit]. Qed.
Lemma restarted_reachable : rtc witness_step (fresh_world (mkLogged NewFake [])) l_restarted.
Proof.
  eapply rtc_r; [|apply Operates, DoReconcile].
  eapply rtc_r; [apply submitted_reachable|]. apply (Exits _ _ _ _ _ _ _ _ logged_down l_submitted), crash_exits.
Qed.
Lemma savepointed_reachable : rtc witness_step (fresh_world (mkLogged NewFake [])) l_savepointed.
Proof. eapply rtc_r; [apply submitted_reachable|apply Operates, DoSavepoint]. Qed.

Lemma restart_attempts_bounded_witness : exists run,
  GetRun (num_id 2) (w_store l_restarted) = Ok run /\ r_Attempt run = 2 /\ r_Attempt run <= 5.
Proof.
  eexists. split; [vm_compute; reflexivity|]. split; [reflexivity|].
  eapply (restart_attempts_bounded (B := Fake) sec_clock num_id 20
    (sec_sorted 20 (le_n _)) num_id_inj demo_opts no_manifest any_quantity demo_validate demo_agent no_interrupt
    (mkLogged NewFake []) l_restarted).
  - reflexivity.
  - exact restarted_reachable.
  - vm_compute. lia.
  - vm_compute. reflexivity.
Defined.


(** ** What the fence does not exclude *)

(** A clock that advances a tenth of a second per reading; the third reading
    falls on a whole second. *)
Definition tenth_clock (i : nat) : Z := 1700000000 * Second + (Z.of_nat i - 2) * (Second / 10).
Definition tenth_submit := Submit (B := Fake) tenth_clock num_id demo_opts no_manifest any_quantity demo_validate (b "spec") ∅.
Definition tenth_restart := Restart (B := Fake) tenth_clock num_id demo_opts no_manifest (num_id 0).

(** The latest run is chosen by the text of its start time, and RFC 3339
    texts with trimmed fractions do not sort in time order ("…20Z" sorts after
    "…20.5Z").  A job whose first run started on a whole second and that is
    restarted twice within that second has two containers running at once:
    the second restart sees the first, stopped run as the latest. *)
Theorem text_order_breaks_fence :
  let w := (tenth_restart (tenth_restart (tenth_submit (fresh_world NewFake)).2).2).2 in
  live (w_backend w) (fake_id (num_id 0) 2) = Some (num_id 0) /\
  live (w_backend w) (fake_id (num_id 0) 3) = Some (num_id 0) /\
  (r_ContainerID <$> ActiveRuns (w_store w)) = [fake_id (num_id 0) 2; fake_id (num_id 0) 3] /\
  (r_ContainerID <$> LatestRun (num_id 0) (w_store w)) = Some (fake_id (num_id 0) 1).
Proof. vm_compute. repeat split. Qed.

(** On the backend whose [Stop] fails. *)
Definition stuck_submit := Submit (CB := stuck_backend) sec_clock num_id demo_opts no_manifest any_quantity demo_validate (b "spec") ∅.
Definition stuck_restart := Restart (CB := stuck_backend) sec_clock num_id demo_opts no_manifest (num_id 0).

(** The error of [Stop] is dropped, so a restart whose stop failed records
    the old run as cancelled and launches a second container beside it. *)
Theorem failed_stop_breaks_fence :
  let '(r, w) := stuck_restart (stuck_submit (fresh_world (mkStuck NewFake))).2 in
  r.2 = None /\
  live (ContainerBackend := stuck_backend) (w_backend w) (fake_id (num_id 0) 1) = Some (num_id 0) /\
  live (ContainerBackend := stuck_backend) (w_backend w) (fake_id (num_id 0) 2) = Some (num_id 0) /\
  (r_ContainerID <$> ActiveRuns (w_store w)) = [fake_id (num_id 0) 2].
Proof. vm_compute. repeat split. Qed.

(** The fence and the launch are not one step.  Two launches that both
    pass the fence before either records its run (a user's restart during a
    reconciler restart) leave two containers of one job running. *)
Theorem fence_race :
  let w := (demo_reconcile (crash (fake_id (num_id 0) 1) (Cancel sec_clock (num_id 0) submitted).2)).2 in
  exists job, GetJob (num_id 0) (w_store w) = Ok job /\ fenced (num_id 0) (w_store w) = false /\
  let w' := (launch_start sec_clock num_id demo_opts no_manifest job 1 [] 
               (launch_start sec_clock num_id demo_opts no_manifest job 2 [] w).2).2 in
  live (w_backend w') (fake_id (num_id 0) 2) = Some (num_id 0) /\
  live (w_backend w') (fake_id (num_id 0) 3) = Some (num_id 0).
Proof. eexists. split; [vm_compute; reflexivity|]. vm_compute. repeat split. Qed.

(** A cancel during the backoff of a restart is overridden: the restart
    goes by the job as read before the wait, so the container comes up
    although the job is stopped (the next reconciler pass stops it). *)
Theorem cancel_during_backoff :
  let w := crash (fake_id (num_id 0) 1) submitted in
  exists job run, GetJob (num_id 0) (w_store w) = Ok job /\ LatestRun (num_id 0) (w_store w) = Some run /\
  let w1 := (Cancel sec_clock (num_id 0) (finishRun sec_clock run Running Failed (b "nonzero exit") w).2).2 in
  let w2 := (maybeRestart sec_clock num_id demo_opts no_manifest no_interrupt job run w1).2 in
  (j_Desired <$> GetJob (num_id 0) (w_store w2)) = Ok DesiredStopped /\
  live (w_backend w2) (fake_id (num_id 0) 2) = Some (num_id 0) /\
  live (w_backend (demo_reconcile w2).2) (fake_id (num_id 0) 2) = None.
Proof. do 2 eexists. split; [vm_compute; reflexivity|]. split; [vm_compute; reflexivity|]. vm_compute. repeat split. Qed.

(** Every launch is recorded along an edge the lifecycle table does not
    have: the audit log goes from submitted to running. *)
Theorem launch_edge_not_in_table :
  (λ t, (t_From t, t_To t)) <$> ListTransitions (num_id 0) (w_store submitted)
  = [([], phase_string Submitted); (phase_string Submitted, phase_string Running)]
  /\ CanTransition Submitted Running = false.
Proof. vm_compute. repeat split. Qed.
