(* ===== verification/Docker.v ===== *)
(** * Package control/backend: the Docker backend (docker.go)

    [Docker] implements the container backend over the Docker daemon.  The
    daemon is a class: its calls, and [DaemonLaws], what its API documents of
    them on [container]: which containers exist, how they were configured and
    whether they run.  Every call may fail.  The statistics a capacity
    snapshot carries for display (host load, per-container usage) are left out. *)
From S2P Require Import Prelude GoTime Strconv Savepoint Backend.

(** ** The daemon *)

Inductive reply (A : Type) : Type := Reply (a : A) | NotFound | Failed (e : string).
Arguments Reply {A} a. Arguments NotFound {A}. Arguments Failed {A} e.
(** The error of a reply, as [err.Error()]. *)
Definition reply_err {A} (r : reply A) : option string :=
  match r with Reply _ => None | NotFound => Some "not found"%string | Failed e => Some e end.

Record ContainerConfig : Type := mkCC {
  cc_Image : bytes; cc_Env : list bytes; cc_Port : bytes; cc_Labels : gmap bytes bytes;
  cc_Binds : list bytes; cc_NanoCPUs : Z; cc_Memory : Z;
}.
Inductive CState : Type := Created | Up | Down (exitCode : Z).
Definition is_up (c : CState) : bool := match c with Up => true | _ => false end.

(** The fields of an inspection the backend reads.  Port bindings are in the
    order the map of ports is walked. *)
Record Inspect : Type := mkInspect {
  in_State : option (bool * Z);                    (* Running, ExitCode *)
  in_Ports : list (list (bytes * bytes));          (* HostIP, HostPort *)
  in_HostConfig : option (Z * Z);                  (* NanoCPUs, Memory *)
}.
(** One line of the container list: id, labels, state. *)
Record Summary : Type := mkSummary { su_ID : bytes; su_Labels : gmap bytes bytes; su_State : bytes }.

Class DockerDaemon (D : Type) : Type := {
  ImageList : bytes -> D -> reply nat;             (* how many images match *)
  ImagePull : bytes -> bytes -> D -> D * reply unit;
  VolumeCreate : bytes -> D -> D * reply unit;
  ContainerCreate : ContainerConfig -> bytes -> D -> D * reply bytes;
  CopyToContainer : bytes -> bytes -> D -> D * reply unit;
  ContainerStart : bytes -> D -> D * reply unit;
  ContainerStop : bytes -> Z -> D -> D * reply unit;
  ContainerRemove : bytes -> D -> D * reply unit;
  ContainerInspect : bytes -> D -> reply Inspect;
  ContainerList : D -> reply (list Summary);
  ContainerStats : bytes -> D -> reply unit;
  Info : D -> reply (Z * Z);                       (* NCPU, MemTotal *)
  container : D -> bytes -> option (ContainerConfig * CState);
}.

(** The daemon's contract.  A call that returns an error is taken to have had no
    effect on the containers; a daemon that acts and then fails to answer is
    outside it. *)
Class DaemonLaws (D : Type) `{DockerDaemon D} : Prop := {
  pull_keeps ref auth d i : container (ImagePull ref auth d).1 i = container d i;
  volume_keeps v d i : container (VolumeCreate v d).1 i = container d i;
  copy_keeps id a d i : container (CopyToContainer id a d).1 i = container d i;
  create_law cfg name d : match ContainerCreate cfg name d with
    | (d', Reply id) => container d id = None /\ forall i, container d' i = if decide (i = id) then Some (cfg, Created) else container d i
    | (d', _) => forall i, container d' i = container d i end;
  start_law id d : match ContainerStart id d with
    | (d', Reply _) => exists cfg st, container d id = Some (cfg, st) /\ forall i, container d' i = if decide (i = id) then Some (cfg, Up) else container d i
    | (d', _) => forall i, container d' i = container d i end;
  stop_law id secs d : match ContainerStop id secs d with
    | (d', Reply _) => exists cfg st code, container d id = Some (cfg, st) /\ forall i, container d' i = if decide (i = id) then Some (cfg, Down code) else container d i
    | (d', NotFound) => container d id = None /\ forall i, container d' i = container d i
    | (d', Failed _) => forall i, container d' i = container d i end;
  remove_law id d i : container (ContainerRemove id d).1 i = container d i \/ (i = id /\ container (ContainerRemove id d).1 i = None);
  inspect_law id d : match ContainerInspect id d with
    | Reply info => exists cfg st, container d id = Some (cfg, st) /\ is_up st = default false (fst <$> in_State info)
    | NotFound => container d id = None
    | Failed _ => True end;
}.

(** ** Resources *)

(** [resource.ParseQuantity]: the quantity's milli-value and value. *)
Class Quantities : Type := ParseQuantityOf : bytes -> result (Z * Z).

Definition PullNever : bytes := b "never".
Definition PullAlways : bytes := b "always".
Definition orString (v def : bytes) : bytes := if bool_decide (v = []) then def else v.
Definition containerWorkflowPath : bytes := b "/wf/workflow.yaml".
Definition containerDataDir : bytes := b "/data".
Definition containerSavepointDir : bytes := b "/savepoints".
Definition sharedSavepointVolume : bytes := b "weibo-savepoints".

Section Quantity.
Context `{Q : Quantities}.
Definition cpuToMilli (s : bytes) : result Z := fst <$> ParseQuantityOf s.
Definition memoryToBytes (s : bytes) : result Z := snd <$> ParseQuantityOf s.
Definition cpuToNanoCPUs (s : bytes) : result Z := (λ q : Z * Z, wrap64 (q.1 * 1000000)) <$> ParseQuantityOf s.
(** The two limits of the host configuration; zero is unlimited. *)
Definition applyResources (r : option ResourceLimits) : result (Z * Z) :=
  match r with
  | None => Ok (0, 0)
  | Some r =>
      match (if bool_decide (rl_CPU r = []) then Ok 0 else cpuToNanoCPUs (rl_CPU r)) with
      | Err e => Err ("cpu: " +:+ e)
      | Ok nano =>
          match (if bool_decide (rl_Memory r = []) then Ok 0 else memoryToBytes (rl_Memory r)) with
          | Err e => Err ("memory: " +:+ e)
          | Ok mem => Ok (nano, mem)
          end
      end
  end.
End Quantity.

(** ** Registry credentials *)

Record AuthConfig : Type := mkAuth {
  a_Username : bytes; a_Password : bytes; a_Auth : bytes; a_ServerAddress : bytes; a_IdentityToken : bytes; a_RegistryToken : bytes;
}.
Section Auth.
(** The domain of a normalized reference, the host's Docker configuration and
    the header's encoding are library calls. *)
Variables (domain : bytes -> option bytes) (GetAuthConfig : bytes -> option AuthConfig) (EncodeAuthConfig : AuthConfig -> option bytes).
Definition resolveRegistryAuth (ref : bytes) : bytes :=
  match domain ref with
  | None => []
  | Some dom =>
      let key := if bool_decide (dom = b "docker.io") then b "https://index.docker.io/v1/" else dom in
      match GetAuthConfig key with
      | None => []
      | Some a =>
          if bool_decide (a_Username a = []) && bool_decide (a_Password a = [])
             && bool_decide (a_IdentityToken a = []) && bool_decide (a_RegistryToken a = []) then []
          else default [] (EncodeAuthConfig a)
      end
  end.
End Auth.

(** ** The backend *)

(** The daemon, and how often the clock was read. *)
Record Docker (D : Type) : Type := mkDocker { d_daemon : D; d_ticks : nat }.
Arguments mkDocker {D} d_daemon d_ticks. Arguments d_daemon {D} d. Arguments d_ticks {D} d.

Section Backend.
Context `{TT : TarText} `{Q : Quantities} {D : Type} `{DD : DockerDaemon D}.
Variables (clock : nat -> Z) (d_image : bytes) (registryAuth : bytes -> bytes) (stopTimeout : Z).

Definition HasImage (ref : bytes) (d : D) : result bool :=
  match ImageList ref d with Reply n => Ok (0 <? n)%nat | r => Err (default ""%string (reply_err r)) end.
Definition is_local (ref : bytes) (d : D) : bool := match HasImage ref d with Ok l => l | Err _ => false end.
Definition pullImage (ref policy : bytes) (d : D) : D * option string :=
  let policy := orString policy PullIfNotPresent in
  if bool_decide (policy = PullNever) then (d, None)
  else if bool_decide (policy = PullIfNotPresent) && is_local ref d then (d, None)
  else let '(d, r) := ImagePull ref (registryAuth ref) d in (d, reply_err r).
(** A failed pull falls back to a local image. *)
Definition fetchImage (ref policy : bytes) (d : D) : D * option string :=
  let '(d, r) := pullImage ref policy d in
  match r with
  | Some e => if is_local ref d then (d, None) else (d, Some e)
  | None => (d, None)
  end.
Fixpoint createVolumes (vs : list bytes) (d : D) : D * option string :=
  match vs with
  | [] => (d, None)
  | v :: vs => let '(d, r) := VolumeCreate v d in
      match reply_err r with Some e => (d, Some e) | None => createVolumes vs d end
  end.

Definition volName (jobID : bytes) : bytes := b "weibo-" ++ jobID.
Definition isSdk (spec : LaunchSpec) : bool := bool_decide (str (ls_WorkflowDoc spec) = []).
Definition containerEnv (spec : LaunchSpec) (port : Z) : list bytes :=
  [b "DATA_DIR=" ++ containerDataDir; b "SAVEPOINT_DIR=" ++ containerSavepointDir; b "PORT=" ++ dec_ port]
  ++ (if isSdk spec then [] else [b "WORKFLOW=" ++ containerWorkflowPath])
  ++ (if bool_decide (ls_RestoreSavepoint spec = []) then [] else [b "RESTORE_SAVEPOINT=" ++ ls_RestoreSavepoint spec])
  ++ ((λ kv : bytes * bytes, kv.1 ++ b "=" ++ kv.2) <$> map_to_list (ls_Env spec)).
Definition containerPort (spec : LaunchSpec) : Z := if ls_ControlPort spec =? 0 then 8080 else ls_ControlPort spec.
Definition containerConfig (spec : LaunchSpec) (limits : Z * Z) : ContainerConfig :=
  let port := containerPort spec in
  mkCC (orString (ls_Image spec) d_image) (containerEnv spec port) (dec_ port ++ b "/tcp")
    (<[b "weibo.job" := ls_JobID spec]> {[b "weibo.name" := ls_Name spec]})
    [volName (ls_JobID spec) ++ b ":" ++ containerDataDir; sharedSavepointVolume ++ b ":" ++ containerSavepointDir]
    limits.1 limits.2.
Definition tarFile (name content : bytes) : bytes := tar_write [(name, content)].

(** Filling and starting a created container; it is removed when that fails. *)
Definition startCreated (spec : LaunchSpec) (id : bytes) (d : D) : D * result bytes :=
  let '(d, copied) :=
    if isSdk spec then (d, None)
    else let '(d, r) := CopyToContainer id (tarFile (b "wf/workflow.yaml") (str (ls_WorkflowDoc spec))) d in (d, reply_err r) in
  match copied with
  | Some e => ((ContainerRemove id d).1, Err ("docker: copy workflow: " +:+ e))
  | None =>
      let '(d, r) := ContainerStart id d in
      match reply_err r with
      | Some e => ((ContainerRemove id d).1, Err ("docker: start container: " +:+ e))
      | None => (d, Ok id)
      end
  end.
Definition docker_Launch (spec : LaunchSpec) (s : Docker D) : Docker D * result bytes :=
  let '(d, pulled) := fetchImage (orString (ls_Image spec) d_image) (ls_PullPolicy spec) (d_daemon s) in
  match pulled with
  | Some e => (mkDocker d (d_ticks s), Err ("docker: pull image: " +:+ e))
  | None =>
      let '(d, volumes) := createVolumes [volName (ls_JobID spec); sharedSavepointVolume] d in
      match volumes with
      | Some e => (mkDocker d (d_ticks s), Err ("docker: create volume: " +:+ e))
      | None =>
          match applyResources (ls_Resources spec) with
          | Err e => (mkDocker d (d_ticks s), Err ("docker: " +:+ e))
          | Ok limits =>
              let name := b "weibo-" ++ ls_JobID spec ++ b "-" ++ dec_ (clock (d_ticks s)) in
              match ContainerCreate (containerConfig spec limits) name d with
              | (d, Reply id) => let '(d, r) := startCreated spec id d in (mkDocker d (S (d_ticks s)), r)
              | (d, r) => (mkDocker d (S (d_ticks s)), Err ("docker: create container: " +:+ default ""%string (reply_err r)))
              end
          end
      end
  end.

Definition docker_Stop (id : bytes) (s : Docker D) : Docker D * result unit :=
  let '(d, r) := ContainerStop id (Z.quot stopTimeout Second) (d_daemon s) in
  (mkDocker d (d_ticks s), match r with Failed e => Err e | _ => Ok tt end).
Definition docker_Remove (id : bytes) (s : Docker D) : Docker D * result unit :=
  let '(d, r) := ContainerRemove id (d_daemon s) in
  (mkDocker d (d_ticks s), match r with Failed e => Err e | _ => Ok tt end).

(** The last binding with a numeric port wins. *)
Definition bind_address (acc : Z * bytes) (hp : bytes * bytes) : Z * bytes :=
  match ParseInt hp.2 with
  | Ok p =>
      if bool_decide (hp.2 = []) then acc
      else let host := if bool_decide (hp.1 = []) || bool_decide (hp.1 = b "0.0.0.0") then b "127.0.0.1" else hp.1 in
           (p, host ++ b ":" ++ hp.2)
  | Err _ => acc
  end.
Definition docker_Status (id : bytes) (s : Docker D) : result Status :=
  match ContainerInspect id (d_daemon s) with
  | NotFound => Ok (mkStatus PhaseGone 0 0 [])
  | Failed e => Err e
  | Reply info =>
      let '(port, addr) := foldl bind_address (0, []) (concat (in_Ports info)) in
      Ok match in_State info with
         | Some (true, _) => mkStatus PhaseRunning 0 port addr
         | Some (false, code) => mkStatus PhaseExited code port addr
         | None => mkStatus PhaseExited 0 port addr
         end
  end.

(** The containers that are up, with the job of their label. *)
Definition docker_live (s : Docker D) (i : bytes) : option bytes :=
  match container (d_daemon s) i with
  | Some (cfg, Up) => Some (default [] (cc_Labels cfg !! b "weibo.job"))
  | _ => None
  end.
#[export] Instance docker_backend : ContainerBackend (Docker D) := {|
  Launch := docker_Launch; Stop := docker_Stop; StatusOf := docker_Status; live := docker_live;
|}.
End Backend.

(** ** The backend keeps the contract *)

Section Laws.
Context `{TT : TarText} `{Q : Quantities} {D : Type} `{DD : DockerDaemon D} `{DL : !DaemonLaws D}.
Variables (clock : nat -> Z) (d_image : bytes) (registryAuth : bytes -> bytes) (stopTimeout : Z).
Abbreviation launch_ := (docker_Launch clock d_image registryAuth).

Lemma fetch_keeps ref policy d i : container (fetchImage registryAuth ref policy d).1 i = container d i.
Proof.
  unfold fetchImage, pullImage. pose proof (pull_keeps ref (registryAuth ref) d i) as H.
  destruct (ImagePull ref (registryAuth ref) d) as [d' r]. cbn [fst] in H.
  repeat (case_match; simplify_eq/=); done.
Qed.
Lemma volumes_keep vs d i : container (createVolumes vs d).1 i = container d i.
Proof.
  revert d. induction vs as [|v vs IH]; intros d; [done|]. cbn [createVolumes].
  pose proof (volume_keeps v d i) as H. destruct (VolumeCreate v d) as [d' r]. cbn [fst] in H.
  destruct (reply_err r); [done|]. by rewrite IH.
Qed.

(** Which containers are up, and for which job, as a function of the daemon's
    containers. *)
Definition up_job (c : option (ContainerConfig * CState)) : option bytes :=
  match c with Some (cfg, Up) => Some (default [] (cc_Labels cfg !! b "weibo.job")) | _ => None end.
Lemma live_up (s : Docker D) i : docker_live s i = up_job (container (d_daemon s) i).
Proof. done. Qed.
Lemma remove_up id d i : up_job (container d id) = None -> up_job (container (ContainerRemove id d).1 i) = up_job (container d i).
Proof. intros Hn. destruct (remove_law id d i) as [->|[-> ->]]; [done|by rewrite Hn]. Qed.

Lemma start_created spec id d cfg :
  container d id = Some (cfg, Created) ->
  match startCreated spec id d with
  | (d', Ok id') => id' = id /\ forall i, container d' i = if decide (i = id) then Some (cfg, Up) else container d i
  | (d', Err _) => forall i, up_job (container d' i) = up_job (container d i)
  end.
Proof.
  intros Hid. unfold startCreated.
  set (c := if isSdk spec then _ else _). assert (Hc : forall i, container c.1 i = container d i).
  { intros i. subst c. destruct (isSdk spec); [done|]. pose proof (copy_keeps id (tarFile (b "wf/workflow.yaml") (str (ls_WorkflowDoc spec))) d i) as H.
    by destruct (CopyToContainer id _ d). }
  destruct c as [d1 [e|]]; cbn [fst] in Hc.
  - intros i. rewrite remove_up; [by rewrite Hc|]. by rewrite Hc, Hid.
  - pose proof (start_law id d1) as Hs. destruct (ContainerStart id d1) as [d2 [[]| |e]]; cbn [reply_err].
    + destruct Hs as (cfg' & st & E & Hs). rewrite Hc, Hid in E. injection E as <- <-.
      split; [done|]. intros i. rewrite Hs, Hc. done.
    + intros i. rewrite remove_up; [by rewrite Hs, Hc|]. by rewrite Hs, Hc, Hid.
    + intros i. rewrite remove_up; [by rewrite Hs, Hc|]. by rewrite Hs, Hc, Hid.
Qed.

(** What a launch does to the daemon's containers: one new container, running
    with the configuration of the request, or none. *)
Lemma launch_containers spec s :
  match launch_ spec s with
  | (s', Ok id) => exists limits, applyResources (ls_Resources spec) = Ok limits /\ container (d_daemon s) id = None /\
      forall i, container (d_daemon s') i = if decide (i = id) then Some (containerConfig d_image spec limits, Up) else container (d_daemon s) i
  | (s', Err _) => forall i, docker_live s' i = docker_live s i
  end.
Proof.
  unfold docker_Launch. pose proof (fetch_keeps (orString (ls_Image spec) d_image) (ls_PullPolicy spec) (d_daemon s)) as Hf.
  destruct (fetchImage _ _ _ _) as [d1 [e|]]; cbn [fst] in Hf; [intros i; rewrite !live_up; cbn [d_daemon]; by rewrite Hf|].
  pose proof (volumes_keep [volName (ls_JobID spec); sharedSavepointVolume] d1) as Hv.
  destruct (createVolumes _ d1) as [d2 [e|]]; cbn [fst] in Hv; [intros i; rewrite !live_up; cbn [d_daemon]; by rewrite Hv, Hf|].
  destruct (applyResources (ls_Resources spec)) as [limits|e]; [|intros i; rewrite !live_up; cbn [d_daemon]; by rewrite Hv, Hf].
  set (name := b "weibo-" ++ _). pose proof (create_law (containerConfig d_image spec limits) name d2) as Hc.
  destruct (ContainerCreate _ name d2) as [d3 [id| |e]]; [|intros i; rewrite !live_up; cbn [d_daemon]; by rewrite Hc, Hv, Hf..].
  destruct Hc as [Hnone Hc]. pose proof (start_created spec id d3 (containerConfig d_image spec limits)) as Hs.
  destruct (startCreated spec id d3) as [d4 [id'|e]].
  - destruct Hs as [-> Hs]; [by rewrite Hc, decide_True|]. exists limits. split; [done|]. split; [by rewrite <- Hf, <- Hv|].
    intros i. cbn [d_daemon]. rewrite Hs. case_decide; [done|]. by rewrite Hc, decide_False, Hv, Hf by done.
  - intros i. rewrite !live_up. cbn [d_daemon]. rewrite Hs by by rewrite Hc, decide_True. rewrite Hc, Hv, Hf. case_decide; [|done].
    subst i. by rewrite <- Hf, <- Hv, Hnone.
Qed.

Lemma launched_job spec limits : cc_Labels (containerConfig d_image spec limits) !! b "weibo.job" = Some (ls_JobID spec).
Proof. cbn [containerConfig cc_Labels]. by rewrite lookup_insert_eq. Qed.

Lemma docker_laws :
  BackendLaws (Docker D) (H := docker_backend clock d_image registryAuth stopTimeout).
Proof.
  split; cbn [Launch Stop StatusOf live docker_backend].
  - intros spec s s' id E i. pose proof (launch_containers spec s) as H. rewrite E in H. destruct H as (limits & _ & _ & H).
    rewrite !live_up, H. case_decide; [|done]. cbn [up_job]. by rewrite launched_job.
  - intros spec s s' e E. pose proof (launch_containers spec s) as H. by rewrite E in H.
  - intros id s s' E i. unfold docker_Stop in E. pose proof (stop_law id (Z.quot stopTimeout Second) (d_daemon s)) as H.
    destruct (ContainerStop id _ _) as [d [[]| |e]]; [| |done]; injection E as <-; rewrite !live_up; cbn [d_daemon].
    + destruct H as (cfg & st & code & _ & H). rewrite H. by case_decide.
    + destruct H as [Hn H]. rewrite H. case_decide; [|done]. subst i. by rewrite Hn.
  - intros id s s' e E i job. unfold docker_Stop in E. pose proof (stop_law id (Z.quot stopTimeout Second) (d_daemon s)) as H.
    destruct (ContainerStop id _ _) as [d [[]| |e']]; [done|done|]. injection E as <- _. rewrite !live_up. cbn [d_daemon]. by rewrite H.
  - intros id s st E. unfold docker_Status in E. pose proof (inspect_law id (d_daemon s)) as H. rewrite live_up.
    destruct (ContainerInspect id (d_daemon s)) as [info| |e]; [| |done].
    + destruct H as (cfg & cs & -> & Hup). destruct (foldl bind_address _ _) as [port addr].
      injection E as <-. destruct (in_State info) as [[[] code]|]; cbn in Hup; destruct cs; try done; cbn;
        (split; [intros; eauto; done|intros [? ?]; done]).
    + injection E as <-. rewrite H. split; [done|by intros [? ?]].
Qed.

End Laws.

(** ** Capacity *)

Record CapacityConfig : Type := mkCapCfg { cap_MaxJobs : Z; cap_DefaultJobCPU : bytes; cap_DefaultJobMemory : bytes }.
Record CapacitySnapshot : Type := mkSnap {
  cs_Health : bytes; cs_Source : bytes; cs_Reason : string;
  cs_TotalSlots : option Z; cs_UsedSlots : Z; cs_AvailableSlots : option Z; cs_MaxJobs : Z;
  cs_CPUTotalMilli : Z; cs_CPUReservedMilli : Z; cs_CPUAvailableMilli : Z;
  cs_MemoryTotalBytes : Z; cs_MemoryReservedBytes : Z; cs_MemoryAvailableBytes : Z;
  cs_DefaultJobCPUMilli : Z; cs_DefaultJobMemoryBytes : Z;
  cs_Running : Z; cs_Starting : Z; cs_Exited : Z; cs_Unhealthy : Z; cs_Unsupported : bool;
}.
(** What the walk over the containers accumulates. *)
Record Tally : Type := mkTally {
  ta_used : Z; ta_cpu : Z; ta_mem : Z; ta_running : Z; ta_starting : Z; ta_exited : Z; ta_unhealthy : Z;
  ta_reasons : list string;                        (* why health is degraded *)
}.

Definition max64 (x y : Z) : Z := if y <? x then x else y.
Definition min64 (v : Z) (rest : list Z) : Z := foldl (λ m x, if x <? m then x else m) v rest.
Definition maxInt64 : Z := 2 ^ 63 - 1.
Definition joinReason (x y : string) : string :=
  match x, y with EmptyString, _ => y | _, EmptyString => x | _, _ => x +:+ "; " +:+ y end.

Definition occupied (c : Summary) : bool :=
  bool_decide (su_State c ∈ [b "running"; b "created"; b "restarting"]).
Definition managed (c : Summary) : bool := negb (bool_decide (default [] (su_Labels c !! b "weibo.job") = [])).

Section Capacity.
Context `{Q : Quantities} {D : Type} `{DD : DockerDaemon D}.

(** The reservation of one managed container, and whether reading it failed. *)
Definition reservation (defaultCPU defaultMem : Z) (id : bytes) (d : D) : Z * Z * list string :=
  match ContainerInspect id d with
  | Reply info =>
      match in_HostConfig info with
      | Some (nano, mem) => (if 0 <? nano then Z.quot nano 1000000 else defaultCPU, if 0 <? mem then mem else defaultMem, [])
      | None => (defaultCPU, defaultMem, [])
      end
  | r => (defaultCPU, defaultMem, [("inspect: " +:+ default ""%string (reply_err r))%string])
  end.
Definition tally_one (defaultCPU defaultMem : Z) (d : D) (t : Tally) (c : Summary) : Tally :=
  let in_state s := bool_decide (su_State c = b s) in
  let running := if in_state "running" then ta_running t + 1 else ta_running t in
  let starting := if in_state "created" || in_state "restarting" then ta_starting t + 1 else ta_starting t in
  let exited := if in_state "exited" || in_state "dead" || in_state "removing" then ta_exited t + 1 else ta_exited t in
  let unhealthy := if occupied c || in_state "exited" then ta_unhealthy t else ta_unhealthy t + 1 in
  if negb (occupied c) then mkTally (ta_used t) (ta_cpu t) (ta_mem t) running starting exited unhealthy (ta_reasons t)
  else
    let stats := if in_state "running" then
        match reply_err (ContainerStats (su_ID c) d) with Some e => [("stats: " +:+ e)%string] | None => [] end else [] in
    if negb (managed c) then mkTally (ta_used t) (ta_cpu t) (ta_mem t) running starting exited unhealthy (ta_reasons t ++ stats)
    else
      let '(cpu, mem, bad) := reservation defaultCPU defaultMem (su_ID c) d in
      mkTally (ta_used t + 1) (wrap64 (ta_cpu t + cpu)) (wrap64 (ta_mem t + mem)) running starting exited unhealthy (ta_reasons t ++ stats ++ bad).
Definition tally (defaultCPU defaultMem : Z) (d : D) (reasons : list string) (l : list Summary) : Tally :=
  foldl (tally_one defaultCPU defaultMem d) (mkTally 0 0 0 0 0 0 0 reasons) l.

Definition health (reasons : list string) : bytes := match reasons with [] => b "healthy" | _ => b "degraded" end.
Definition defaulted (r : result Z) (def : Z) (what : string) : Z * list string :=
  match r with Ok v => (v, []) | Err e => (def, [(what +:+ e)%string]) end.

(** The slots still free: by CPU, by memory, by the configured maximum. *)
Definition availableSlots (maxJobs used cpuTotal cpuAvail memTotal memAvail defaultCPU defaultMem : Z) : Z :=
  let byCPU := if (0 <? defaultCPU) && (0 <? cpuTotal) then Z.quot cpuAvail defaultCPU else maxInt64 in
  let byMem := if (0 <? defaultMem) && (0 <? memTotal) then Z.quot memAvail defaultMem else maxInt64 in
  let byMax := if 0 <? maxJobs then max64 (maxJobs - used) 0 else maxInt64 in
  max64 (min64 byCPU [byMem; byMax]) 0.

Definition docker_Capacity (cfg : CapacityConfig) (d : D) : CapacitySnapshot :=
  let source := b "docker_host_resources" in
  match Info d with
  | Reply (ncpu, memTotal) =>
      let cpuTotal := wrap64 (ncpu * 1000) in
      let '(defaultCPU, r1) := defaulted (cpuToMilli (orString (cap_DefaultJobCPU cfg) (b "1"))) 1000 "invalid default job cpu: " in
      let '(defaultMem, r2) := defaulted (memoryToBytes (orString (cap_DefaultJobMemory cfg) (b "1Gi"))) (2 ^ 30) "invalid default job memory: " in
      match ContainerList d with
      | Reply l =>
          let t := tally defaultCPU defaultMem d (r1 ++ r2) l in
          let cpuAvail := max64 (wrap64 (cpuTotal - ta_cpu t)) 0 in
          let memAvail := max64 (wrap64 (memTotal - ta_mem t)) 0 in
          let available := availableSlots (cap_MaxJobs cfg) (ta_used t) cpuTotal cpuAvail memTotal memAvail defaultCPU defaultMem in
          mkSnap (health (ta_reasons t)) (if 0 <? cap_MaxJobs cfg then source ++ b " + configured_limit" else source)
            (foldl joinReason ""%string (ta_reasons t))
            (Some (wrap64 (ta_used t + available))) (ta_used t) (Some available) (cap_MaxJobs cfg)
            cpuTotal (ta_cpu t) cpuAvail memTotal (ta_mem t) memAvail defaultCPU defaultMem
            (ta_running t) (ta_starting t) (ta_exited t) (ta_unhealthy t) false
      | r =>
          mkSnap (b "degraded") source (foldl joinReason ""%string (r1 ++ r2 ++ [("list containers: " +:+ default ""%string (reply_err r))%string]))
            None 0 None (cap_MaxJobs cfg) cpuTotal 0 0 memTotal 0 0 defaultCPU defaultMem 0 0 0 0 false
      end
  | r =>
      mkSnap (b "unreachable") source (default ""%string (reply_err r)) None 0 None (cap_MaxJobs cfg) 0 0 0 0 0 0 0 0 0 0 0 0 false
  end.

(** The containers that hold a slot, with their reservations. *)
Definition holders (l : list Summary) : list Summary := filter (λ c, occupied c && managed c) l.
Definition reserved (defaultCPU defaultMem : Z) (d : D) (l : list Summary) : Z * Z :=
  foldr (λ c acc, let '(cpu, mem, _) := reservation defaultCPU defaultMem (su_ID c) d in (cpu + acc.1, mem + acc.2)) (0, 0) (holders l).
End Capacity.

Section CapacityProofs.
Context `{Q : Quantities} {D : Type} `{DD : DockerDaemon D}.

(** The walk sums the reservations of the holders, as long as no partial sum
    overflows; reservations are not negative. *)
Lemma tally_sums dc dm (d : D) l t :
  (forall c, c ∈ holders l -> 0 <= (reservation dc dm (su_ID c) d).1.1 /\ 0 <= (reservation dc dm (su_ID c) d).1.2) ->
  0 <= ta_cpu t -> 0 <= ta_mem t ->
  ta_cpu t + (reserved dc dm d l).1 < 2 ^ 63 -> ta_mem t + (reserved dc dm d l).2 < 2 ^ 63 ->
  let t' := foldl (tally_one dc dm d) t l in
  ta_used t' = ta_used t + Z.of_nat (length (holders l)) /\
  ta_cpu t' = ta_cpu t + (reserved dc dm d l).1 /\ ta_mem t' = ta_mem t + (reserved dc dm d l).2.
Proof.
  revert t. induction l as [|c l IH]; intros t Hr Hc Hm Bc Bm; cbn zeta.
  { cbn in *. lia. }
  assert (Hnn : forall l', (forall c, c ∈ holders l' -> 0 <= (reservation dc dm (su_ID c) d).1.1 /\ 0 <= (reservation dc dm (su_ID c) d).1.2) ->
    0 <= (reserved dc dm d l').1 /\ 0 <= (reserved dc dm d l').2).
  { intros l' H. unfold reserved. induction (holders l') as [|x xs IHx]; [done|]. cbn [foldr].
    destruct (H x (list_elem_of_here _ _)) as [H1 H2]. destruct (reservation dc dm (su_ID x) d) as [[cpu mem] bad]. cbn [fst snd] in *.
    destruct IHx; [intros; apply H; by apply list_elem_of_further|]. cbn [fst snd]. lia. }
  cbn [foldl]. destruct (occupied c && managed c) eqn:E.
  - assert (Hh : holders (c :: l) = c :: holders l) by (unfold holders; rewrite filter_cons_True; [done|]; rewrite E; exact I).
    unfold reserved in Bc, Bm |- *. rewrite Hh in *. cbn [foldr] in *. destruct (Hr c (list_elem_of_here _ _)) as [R1 R2].
    destruct (Hnn l) as [N1 N2]; [intros; apply Hr; by apply list_elem_of_further|]. unfold reserved in N1, N2.
    apply andb_prop in E as [Eo Em].
    assert (Ht : exists t1, tally_one dc dm d t c = t1 /\ ta_used t1 = ta_used t + 1 /\
      ta_cpu t1 = ta_cpu t + (reservation dc dm (su_ID c) d).1.1 /\ ta_mem t1 = ta_mem t + (reservation dc dm (su_ID c) d).1.2).
    { eexists. split; [reflexivity|]. unfold tally_one. rewrite Eo, Em. cbn [negb].
      destruct (reservation dc dm (su_ID c) d) as [[cpu mem] bad]. cbn [fst snd ta_used ta_cpu ta_mem] in *.
      rewrite !wrap64_id by (unfold int64; lia). done. }
    destruct Ht as (t1 & -> & U1 & C1 & M1).
    destruct (reservation dc dm (su_ID c) d) as [[cpu mem] bad]. cbn [fst snd] in *.
    destruct (IH t1) as (Hu & Hcp & Hme); unfold reserved; try lia; [intros; apply Hr; by apply list_elem_of_further|].
    unfold reserved in Hcp, Hme. rewrite Hu, Hcp, Hme. cbn [length]. lia.
  - assert (Hh : holders (c :: l) = holders l) by (unfold holders; rewrite filter_cons_False; [done|]; rewrite E; exact id).
    unfold reserved in Bc, Bm |- *. rewrite Hh in *.
    assert (Ht : exists t1, tally_one dc dm d t c = t1 /\ ta_used t1 = ta_used t /\ ta_cpu t1 = ta_cpu t /\ ta_mem t1 = ta_mem t).
    { eexists. split; [reflexivity|]. unfold tally_one. destruct (occupied c); cbn [negb]; [|done].
      cbn in E. rewrite E. done. }
    destruct Ht as (t1 & -> & U1 & C1 & M1).
    destruct (IH t1) as (Hu & Hcp & Hme); rewrite ?U1, ?C1, ?M1; try done. unfold reserved in Hcp, Hme. rewrite Hu, Hcp, Hme. lia.
Qed.

Lemma available_bounds maxJobs used ct ca mt ma dc dm :
  0 <= ca <= maxInt64 -> 0 <= ma ->
  let a := availableSlots maxJobs used ct ca mt ma dc dm in
  0 <= a <= maxInt64 /\ (0 < dc -> 0 < ct -> a * dc <= ca) /\ (0 < dm -> 0 < mt -> a * dm <= ma) /\
  (0 < maxJobs -> used + a <= Z.max maxJobs used).
Proof.
  intros Hca Hma a.
  assert (Hq : forall x y, 0 <= x -> 0 < y -> 0 <= Z.quot x y /\ Z.quot x y * y <= x).
  { intros x y Hx Hy. rewrite Z.quot_div_nonneg by lia. split; [apply Z.div_pos; lia|]. rewrite Z.mul_comm. apply Z.mul_div_le. lia. }
  pose proof (Hq ca dc (proj1 Hca)) as Q1. pose proof (Hq ma dm Hma) as Q2.
  set (x := Z.quot ca dc) in *. set (y := Z.quot ma dm) in *.
  assert (Ha : exists byCPU byMem byMax, a = Z.max (Z.min byCPU (Z.min byMem byMax)) 0 /\
    ((0 < dc /\ 0 < ct) /\ byCPU = x \/ ~ (0 < dc /\ 0 < ct) /\ byCPU = maxInt64) /\
    ((0 < dm /\ 0 < mt) /\ byMem = y \/ ~ (0 < dm /\ 0 < mt) /\ byMem = maxInt64) /\
    (0 < maxJobs /\ byMax = Z.max (maxJobs - used) 0 \/ maxJobs <= 0 /\ byMax = maxInt64) /\ byMax >= 0 /\ byMem >= 0 /\ byCPU >= 0).
  { subst a. unfold availableSlots. fold x y. unfold max64, min64. cbn [foldl].
    exists (if (0 <? dc) && (0 <? ct) then x else maxInt64), (if (0 <? dm) && (0 <? mt) then y else maxInt64),
      (if 0 <? maxJobs then (if 0 <? maxJobs - used then maxJobs - used else 0) else maxInt64).
    split; [|split_and!].
    - repeat case_match; lia.
    - destruct (Z.ltb_spec 0 dc), (Z.ltb_spec 0 ct); cbn; lia.
    - destruct (Z.ltb_spec 0 dm), (Z.ltb_spec 0 mt); cbn; lia.
    - destruct (Z.ltb_spec 0 maxJobs); [|lia]. destruct (Z.ltb_spec 0 (maxJobs - used)); lia.
    - unfold maxInt64. repeat case_match; lia.
    - destruct (Z.ltb_spec 0 dm), (Z.ltb_spec 0 mt); cbn; unfold maxInt64; lia.
    - destruct (Z.ltb_spec 0 dc), (Z.ltb_spec 0 ct); cbn; unfold maxInt64; lia. }
  destruct Ha as (byCPU & byMem & byMax & -> & A1 & A2 & A3 & A4 & A5 & A6).
  split; [|split_and!].
  - nia.
  - nia.
  - nia.
  - lia.
Qed.

Lemma reservation_nonneg dc dm id (d : D) : 0 <= dc -> 0 <= dm ->
  0 <= (reservation dc dm id d).1.1 /\ 0 <= (reservation dc dm id d).1.2.
Proof.
  intros Hc Hm. unfold reservation. destruct (ContainerInspect id d) as [info| |e]; [|done..].
  destruct (in_HostConfig info) as [[nano mem]|]; [|done]. cbn [fst snd].
  destruct (Z.ltb_spec 0 nano), (Z.ltb_spec 0 mem); (split; [|lia]); try lia; apply Z.quot_pos; lia.
Qed.

(** C40: the free slots a capacity snapshot reports fit.  The used slots are the
    managed containers that run or start; as long as what they reserve is
    within the host's CPU (memory), so is that plus the free slots at the
    default reservation; a configured maximum is kept; and the total is their
    sum when it fits an int. *)
Theorem capacity_fits cfg (d : D) l ncpu memTotal :
  Info d = Reply (ncpu, memTotal) -> ContainerList d = Reply l ->
  0 <= ncpu -> ncpu * 1000 < 2 ^ 63 -> 0 <= memTotal < 2 ^ 63 ->
  let s := docker_Capacity cfg d in
  let dc := cs_DefaultJobCPUMilli s in let dm := cs_DefaultJobMemoryBytes s in
  let r := reserved dc dm d l in let used := Z.of_nat (length (holders l)) in
  0 <= dc -> 0 <= dm -> r.1 < 2 ^ 63 -> r.2 < 2 ^ 63 ->
  exists a, cs_AvailableSlots s = Some a /\ cs_UsedSlots s = used /\ 0 <= a /\
    (0 < dc -> 0 < ncpu -> r.1 <= ncpu * 1000 -> r.1 + a * dc <= ncpu * 1000) /\
    (0 < dm -> 0 < memTotal -> r.2 <= memTotal -> r.2 + a * dm <= memTotal) /\
    (0 < cap_MaxJobs cfg -> used + a <= Z.max (cap_MaxJobs cfg) used) /\
    (used + a < 2 ^ 63 -> cs_TotalSlots s = Some (used + a)).
Proof.
  intros HI HL Hn Hn2 Hm. unfold docker_Capacity. rewrite HI, HL.
  destruct (defaulted (cpuToMilli _) 1000 _) as [dc r1]. destruct (defaulted (memoryToBytes _) (2 ^ 30) _) as [dm r2].
  cbn zeta. cbn [cs_DefaultJobCPUMilli cs_DefaultJobMemoryBytes]. intros Hdc Hdm Bc Bm.
  destruct (tally_sums dc dm d l (mkTally 0 0 0 0 0 0 0 (r1 ++ r2))) as (Hu & Hc & Hme);
    [intros c _; by apply reservation_nonneg|done|done|exact Bc|exact Bm|].
  cbn [ta_used ta_cpu ta_mem] in Hu, Hc, Hme. fold (tally dc dm d (r1 ++ r2) l) in Hu, Hc, Hme. rewrite !Z.add_0_l in *.
  assert (Hr : 0 <= (reserved dc dm d l).1 /\ 0 <= (reserved dc dm d l).2).
  { unfold reserved. clear -Hdc Hdm. induction (holders l) as [|x xs IHx]; [done|]. cbn [foldr].
    destruct (reservation_nonneg dc dm (su_ID x) d Hdc Hdm) as [H1 H2]. destruct (reservation dc dm (su_ID x) d) as [[cpu mem] bad].
    cbn [fst snd] in *. lia. }
  set (r := reserved dc dm d l) in *. clearbody r.
  rewrite Hu, Hc, Hme, (wrap64_id (ncpu * 1000)) by (unfold int64; lia).
  rewrite (wrap64_id (ncpu * 1000 - r.1)), (wrap64_id (memTotal - r.2)) by (unfold int64; lia).
  set (ca := max64 (ncpu * 1000 - r.1) 0). set (ma := max64 (memTotal - r.2) 0).
  assert (Hca : ca = Z.max (ncpu * 1000 - r.1) 0) by (subst ca; unfold max64; case_match; lia).
  assert (Hma : ma = Z.max (memTotal - r.2) 0) by (subst ma; unfold max64; case_match; lia).
  clearbody ca ma.
  destruct (available_bounds (cap_MaxJobs cfg) (Z.of_nat (length (holders l))) (ncpu * 1000) ca memTotal ma dc dm)
    as (A0 & A1 & A2 & A3); [unfold maxInt64; lia|lia|].
  exists (availableSlots (cap_MaxJobs cfg) (Z.of_nat (length (holders l))) (ncpu * 1000) ca memTotal ma dc dm).
  cbn [cs_AvailableSlots cs_UsedSlots cs_TotalSlots]. split; [done|]. split; [done|]. split; [lia|]. split; [|split; [|split]].
  - intros H1 H2 H3. specialize (A1 H1 ltac:(lia)). lia.
  - intros H1 H2 H3. specialize (A2 H1 H2). lia.
  - exact A3.
  - intros H. rewrite wrap64_id; [done|]. unfold int64. lia.
Qed.
End CapacityProofs.

(** ** A daemon in memory *)

(** One host: its containers and images, and for each of the
    coming calls whether it fails. *)
Record Host : Type := mkHost {
  h_containers : gmap bytes (ContainerConfig * CState); h_images : list bytes; h_faults : list bool;
}.
Definition faulty {A} (f : Host -> Host * reply A) (h : Host) : Host * reply A :=
  match h_faults h with
  | [] => f h
  | x :: fs => let h := mkHost (h_containers h) (h_images h) fs in
      if x : bool then (h, Failed "injected"%string) else f h
  end.
Definition with_containers (m : gmap bytes (ContainerConfig * CState)) (h : Host) : Host :=
  mkHost m (h_images h) (h_faults h).
Definition host_inspect (id : bytes) (h : Host) : reply Inspect :=
  match h_containers h !! id with
  | None => NotFound
  | Some (cfg, st) => Reply (mkInspect (Some (is_up st, match st with Down code => code | _ => 0 end)) []
      (Some (cc_NanoCPUs cfg, cc_Memory cfg)))
  end.
Definition state_text (st : CState) : bytes := match st with Created => b "created" | Up => b "running" | Down _ => b "exited" end.

#[export] Instance host_daemon : DockerDaemon Host := {|
  ImageList ref h := Reply (length (filter (λ i, i = ref) (h_images h)));
  ImagePull ref _ := faulty (λ h, (mkHost (h_containers h) (ref :: h_images h) (h_faults h), Reply tt));
  VolumeCreate v := faulty (λ h, (h, Reply tt));
  ContainerCreate cfg name := faulty (λ h, match h_containers h !! name with
    | Some _ => (h, Failed "Conflict: the name is in use"%string)
    | None => (with_containers (<[name := (cfg, Created)]> (h_containers h)) h, Reply name) end);
  CopyToContainer id a := faulty (λ h, (h, Reply tt));
  ContainerStart id := faulty (λ h, match h_containers h !! id with
    | Some (cfg, _) => (with_containers (<[id := (cfg, Up)]> (h_containers h)) h, Reply tt)
    | None => (h, NotFound) end);
  ContainerStop id _ := faulty (λ h, match h_containers h !! id with
    | Some (cfg, _) => (with_containers (<[id := (cfg, Down 0)]> (h_containers h)) h, Reply tt)
    | None => (h, NotFound) end);
  ContainerRemove id := faulty (λ h, match h_containers h !! id with
    | Some _ => (with_containers (delete id (h_containers h)) h, Reply tt)
    | None => (h, NotFound) end);
  ContainerInspect := host_inspect;
  ContainerList h := Reply ((λ kv : bytes * (ContainerConfig * CState), mkSummary kv.1 (cc_Labels kv.2.1) (state_text kv.2.2)) <$> map_to_list (h_containers h));
  ContainerStats _ _ := Reply tt;
  Info h := Reply (8, 2 ^ 34);
  container h i := h_containers h !! i;
|}.

Lemma faulty_keeps {A} (f : Host -> Host * reply A) (h : Host) (P : reply A -> gmap bytes (ContainerConfig * CState) -> Prop) :
  (forall e, P (Failed e) (h_containers h)) ->
  (forall fs, P (f (mkHost (h_containers h) (h_images h) fs)).2 (h_containers (f (mkHost (h_containers h) (h_images h) fs)).1)) ->
  P (faulty f h).2 (h_containers (faulty f h).1).
Proof.
  intros Hf Hok. unfold faulty. destruct h as [m im fs]. cbn [h_faults h_containers h_images] in *.
  destruct fs as [|[] fs]; [apply Hok|apply Hf|apply Hok].
Qed.

#[export] Instance host_laws : DaemonLaws Host.
Proof.
  split; cbn [container ImagePull VolumeCreate CopyToContainer ContainerCreate ContainerStart ContainerStop ContainerRemove ContainerInspect host_daemon].
  - intros ref auth d i. by apply (faulty_keeps _ d (λ _ m, m !! i = h_containers d !! i)).
  - intros v d i. by apply (faulty_keeps _ d (λ _ m, m !! i = h_containers d !! i)).
  - intros id a d i. by apply (faulty_keeps _ d (λ _ m, m !! i = h_containers d !! i)).
  - intros cfg name d. match goal with |- match ?x with _ => _ end => set (r := x) end.
    assert (H : (λ rep m, match rep with
      | Reply id => h_containers d !! id = None /\ forall i, m !! i = if decide (i = id) then Some (cfg, Created) else h_containers d !! i
      | _ => forall i, m !! i = h_containers d !! i end) r.2 (h_containers r.1)).
    { apply faulty_keeps; [done|]. intros fs. cbn [h_containers]. destruct (h_containers d !! name) eqn:E; [done|]. cbn.
      split; [done|]. intros i. case_decide; [subst; by rewrite lookup_insert_eq|by rewrite lookup_insert_ne]. }
    cbv beta in H. by destruct r as [d' [id| |e]].
  - intros id d. match goal with |- match ?x with _ => _ end => set (r := x) end.
    assert (H : (λ rep m, match rep with
      | Reply _ => exists cfg st, h_containers d !! id = Some (cfg, st) /\ forall i, m !! i = if decide (i = id) then Some (cfg, Up) else h_containers d !! i
      | _ => forall i, m !! i = h_containers d !! i end) r.2 (h_containers r.1)).
    { apply faulty_keeps; [done|]. intros fs. cbn [h_containers]. destruct (h_containers d !! id) as [[cfg st]|] eqn:E; [|done]. cbn.
      exists cfg, st. split; [done|]. intros i. case_decide; [subst; by rewrite lookup_insert_eq|by rewrite lookup_insert_ne]. }
    cbv beta in H. by destruct r as [d' [[]| |e]].
  - intros id secs d. match goal with |- match ?x with _ => _ end => set (r := x) end.
    assert (H : (λ rep m, match rep with
      | Reply _ => exists cfg st code, h_containers d !! id = Some (cfg, st) /\ forall i, m !! i = if decide (i = id) then Some (cfg, Down code) else h_containers d !! i
      | NotFound => h_containers d !! id = None /\ forall i, m !! i = h_containers d !! i
      | Failed _ => forall i, m !! i = h_containers d !! i end) r.2 (h_containers r.1)).
    { apply faulty_keeps; [done|]. intros fs. cbn [h_containers]. destruct (h_containers d !! id) as [[cfg st]|] eqn:E; [|done]. cbn.
      exists cfg, st, 0. split; [done|]. intros i. case_decide; [subst; by rewrite lookup_insert_eq|by rewrite lookup_insert_ne]. }
    cbv beta in H. by destruct r as [d' [[]| |e]].
  - intros id d i. apply (faulty_keeps _ d (λ _ m, m !! i = h_containers d !! i \/ (i = id /\ m !! i = None))); [by left|].
    intros fs. cbn [h_containers]. destruct (h_containers d !! id); [|by left]. cbn.
    destruct (decide (i = id)) as [->|Hn]; [right; split; [done|apply lookup_delete_eq]|left; by rewrite lookup_delete_ne].
  - intros id d. unfold host_inspect. destruct (h_containers d !! id) as [[cfg st]|]; [|done]. exists cfg, st. by split.
Qed.

(** Milli-values and values of the texts used below. *)
Definition demo_quantities : Quantities := λ s,
  if bool_decide (s = b "1") then Ok (1000, 1) else if bool_decide (s = b "1Gi") then Ok (2 ^ 30 * 1000, 2 ^ 30)
  else if bool_decide (s = b "500m") then Ok (500, 1) else if bool_decide (s = b "0") then Ok (0, 0) else Err "unable to parse quantity"%string.

Definition demo_clock (n : nat) : Z := 1700000000 * Second + Z.of_nat n.
Definition demo_spec (job : bytes) : LaunchSpec :=
  mkSpec job (b "orders") [] (Some (b "name: orders")) ∅ 0 [] [] (Some (mkLimits (b "500m") [])).
Definition emptyHost (faults : list bool) : Docker Host := mkDocker (mkHost ∅ [b "runner"] faults) 0.
#[local] Instance demo_q : Quantities := demo_quantities.
Definition demo_launch := docker_Launch (D := Host) demo_clock (b "runner") (λ _, []).
Definition first_id : bytes := b "weibo-j1-1700000000000000000".

(** A launch, and a launch whose start fails. *)
Definition launched_ : Docker Host * result bytes := demo_launch (demo_spec (b "j1")) (emptyHost []).
Definition unstarted : Docker Host * result bytes := demo_launch (demo_spec (b "j1")) (emptyHost [false; false; false; false; true]).
Lemma launched_ok : launched_.2 = Ok first_id. Proof. vm_compute. reflexivity. Qed.
Lemma unstarted_err : unstarted.2 = Err "docker: start container: injected". Proof. vm_compute. reflexivity. Qed.

Definition oneJob : Host := d_daemon launched_.1.
(** Half a core of eight is reserved: seven default jobs fit. *)
Lemma capacity_fits_witness :
  let s := docker_Capacity (mkCapCfg 0 [] []) oneJob in
  cs_UsedSlots s = 1 /\ cs_AvailableSlots s = Some 7 /\ 500 + 7 * 1000 <= 8 * 1000.
Proof.
  intros s. assert (Ha : cs_AvailableSlots s = Some 7) by (vm_compute; reflexivity).
  destruct (ContainerList oneJob) as [l| |] eqn:El; [|vm_compute in El; discriminate El..].
  destruct (capacity_fits (D := Host) (mkCapCfg 0 [] []) oneJob l 8 (2 ^ 34)) as (a & A & U & _ & C & _).
  - vm_compute. reflexivity.
  - exact El.
  - lia.
  - lia.
  - lia.
  - vm_compute. discriminate.
  - vm_compute. discriminate.
  - vm_compute in El. injection El as <-. vm_compute. reflexivity.
  - vm_compute in El. injection El as <-. vm_compute. reflexivity.
  - fold s in A, U. rewrite Ha in A. injection A as <-. vm_compute in El. injection El as <-. split; [exact U|]. split; [exact Ha|]. lia.
Defined.

(** With no default reservation and no maximum the free slots are the largest
    int, and the total, their sum with the used ones, overflows. *)
Theorem capacity_total_wraps :
  let s := docker_Capacity (mkCapCfg 0 (b "0") (b "0")) oneJob in
  cs_AvailableSlots s = Some (2 ^ 63 - 1) /\ cs_TotalSlots s = Some (- 2 ^ 63).
Proof. vm_compute. repeat split. Qed.

(** A paused container keeps its memory and comes back, yet holds no slot:
    the snapshot offers its share to a new job. *)
Theorem paused_holds_no_slot dc dm (d : Host) t id labels :
  ta_used (tally_one dc dm d t (mkSummary id labels (b "paused"))) = ta_used t /\
  ta_mem (tally_one dc dm d t (mkSummary id labels (b "paused"))) = ta_mem t.
Proof. done. Qed.
