(* ===== verification/Kubernetes.v ===== *)
(** * Package control/backend: the Kubernetes backend (kubernetes.go)

    [Kubernetes] implements the container backend with batch/v1 Jobs.  The
    cluster is a class: its API calls, and [ClusterLaws], what the API
    documents of them on two observations: which Job objects exist, and which
    pods run.  The two differ after a deletion with background propagation,
    which removes the Job at once and its pod later. *)
From S2P Require Import Prelude GoTime Strconv Backend Docker.

(** ** The cluster *)

Inductive kreply (A : Type) : Type := KOk (a : A) | KNotFound | KExists | KFailed (e : string).
Arguments KOk {A} a. Arguments KNotFound {A}. Arguments KExists {A}. Arguments KFailed {A} e.
Definition kerr {A} (r : kreply A) : option string :=
  match r with KOk _ => None | KNotFound => Some "not found"%string | KExists => Some "already exists"%string | KFailed e => Some e end.

Record ObjectMeta : Type := mkMeta { om_Name : bytes; om_Namespace : bytes; om_Labels : gmap bytes bytes }.
Record KJob : Type := mkKJob {
  kj_Meta : ObjectMeta; kj_BackoffLimit : Z; kj_PodLabels : gmap bytes bytes; kj_GraceSeconds : Z; kj_PullSecrets : list bytes;
  kj_RunAs : Z;                                    (* non-root user, group and file-system group *)
  kj_Image : bytes; kj_PullPolicy : bytes; kj_Env : list (bytes * bytes); kj_Probe : bytes * Z * (Z * Z * Z);   (* path, port; delay, period, failures *)
  kj_EnvFrom : list bytes; kj_Port : Z;
  kj_Mounts : list (bytes * bytes); kj_Claim : bytes; kj_ConfigMap : option bytes;
  kj_Limits : list (bytes * (Z * Z));              (* requests and limits alike *)
}.
Record PVC : Type := mkPVC { pvc_Meta : ObjectMeta; pvc_Size : Z * Z; pvc_StorageClass : option bytes }.
Record JobStatus : Type := mkJStatus { js_Active : Z; js_Succeeded : Z; js_Failed : Z }.

Class KubeAPI (C : Type) : Type := {
  Ping : C -> kreply unit;
  PvcGet : bytes -> C -> kreply unit;
  PvcCreate : PVC -> C -> C * kreply unit;
  ConfigMapCreate : ObjectMeta -> gmap bytes bytes -> C -> C * kreply unit;
  SecretCreate : ObjectMeta -> gmap bytes bytes -> C -> C * kreply unit;
  JobCreate : KJob -> C -> C * kreply unit;
  ServiceCreate : ObjectMeta -> gmap bytes bytes -> Z -> C -> C * kreply unit;   (* selector, port *)
  JobGet : bytes -> C -> kreply JobStatus;
  JobList : C -> kreply (list JobStatus);
  ServiceGet : bytes -> C -> kreply (list Z);
  PodExits : bytes -> C -> kreply (list (option Z));   (* per container of the run's pods: its exit code *)
  JobDelete : bytes -> C -> C * kreply unit;           (* background propagation *)
  ServiceDelete : bytes -> C -> C * kreply unit;
  ConfigMapDelete : bytes -> C -> C * kreply unit;
  SecretDelete : bytes -> C -> C * kreply unit;
  job_of : C -> bytes -> option (KJob * JobStatus);
  pod_up : C -> bytes -> option bytes;                 (* the run's pod runs, for this job *)
}.

Definition jobs_kept {C} `{KubeAPI C} (c c' : C) : Prop := forall i, job_of c' i = job_of c i.
Class ClusterLaws (C : Type) `{KubeAPI C} : Prop := {
  pvc_create_keeps p c : jobs_kept c (PvcCreate p c).1;
  configmap_create_keeps m d c : jobs_kept c (ConfigMapCreate m d c).1;
  secret_create_keeps m d c : jobs_kept c (SecretCreate m d c).1;
  service_create_keeps m s p c : jobs_kept c (ServiceCreate m s p c).1;
  service_delete_keeps n c : jobs_kept c (ServiceDelete n c).1;
  configmap_delete_keeps n c : jobs_kept c (ConfigMapDelete n c).1;
  secret_delete_keeps n c : jobs_kept c (SecretDelete n c).1;
  job_create_law j c : match JobCreate j c with
    | (c', KOk _) => job_of c (om_Name (kj_Meta j)) = None /\
        forall i, job_of c' i = if decide (i = om_Name (kj_Meta j)) then Some (j, mkJStatus 0 0 0) else job_of c i
    | (c', _) => jobs_kept c c' end;
  job_delete_law n c : match JobDelete n c with
    | (c', KOk _) => forall i, job_of c' i = if decide (i = n) then None else job_of c i
    | (c', KNotFound) => job_of c n = None /\ jobs_kept c c'
    | (c', _) => jobs_kept c c' end;
  job_get_law n c : match JobGet n c with
    | KOk st => exists j, job_of c n = Some (j, st)
    | KNotFound => job_of c n = None
    | _ => True end;
  (** background propagation: the pods outlive the call *)
  job_delete_pods n c i : pod_up (JobDelete n c).1 i = pod_up c i;
}.

(** ** The backend *)

Record KubernetesOptions : Type := mkKOpts {
  ko_Namespace : bytes; ko_Image : bytes; ko_PVCSize : bytes; ko_StorageClass : bytes; ko_ImagePullSecrets : list bytes;
}.
Record Kubernetes (C : Type) : Type := mkK8s { k_cs : C; k_ticks : nat }.
Arguments mkK8s {C} k_cs k_ticks. Arguments k_cs {C} k. Arguments k_ticks {C} k.

Definition k8sWorkflowPath : bytes := b "/wf/workflow.yaml".
Definition k8sDataDir : bytes := b "/data".
Definition k8sSavepointDir : bytes := b "/data/savepoints".
Definition nonRootUID : Z := 65532.

Definition labels (jobID run : bytes) : gmap bytes bytes :=
  let m := <[b "app.kubernetes.io/managed-by" := b "weibo"]> {[b "weibo.job" := jobID]} in
  if bool_decide (run = []) then m else <[b "weibo.run" := run]> m.
Definition k8sPullPolicy (policy : bytes) : bytes :=
  if bool_decide (policy = PullAlways) then b "Always"
  else if bool_decide (policy = PullNever) then b "Never"
  else if bool_decide (policy = PullIfNotPresent) then b "IfNotPresent" else [].

Section Backend.
Context `{Q : Quantities} {C : Type} `{KA : KubeAPI C}.
Variables (clock : nat -> Z) (opts : KubernetesOptions).

(** *** [newK8s] *)
Definition k_namespace : bytes := orString (ko_Namespace opts) (b "default").
Definition k_pvcSize : bytes := orString (ko_PVCSize opts) (b "1Gi").
Definition meta (name jobID run : bytes) : ObjectMeta := mkMeta name k_namespace (labels jobID run).

(** [resource.MustParse] panics on a text that is not a quantity; a panic ends
    the launch like an error, without its clean-up. *)
Definition MustParse (s : bytes) : result (Z * Z) :=
  match ParseQuantityOf s with Ok q => Ok q | Err e => Err ("panic: cannot parse quantity: " +:+ e) end.
Definition k8sResources (r : option ResourceLimits) : result (list (bytes * (Z * Z))) :=
  match r with
  | None => Ok []
  | Some r =>
      cpu ← (if bool_decide (rl_CPU r = []) then Ok [] else (λ q, [(b "cpu", q)]) <$> MustParse (rl_CPU r));
      mem ← (if bool_decide (rl_Memory r = []) then Ok [] else (λ q, [(b "memory", q)]) <$> MustParse (rl_Memory r));
      Ok (cpu ++ mem)
  end.

Definition ensurePVC (name jobID : bytes) (c : C) : C * option string :=
  match PvcGet name c with
  | KOk _ => (c, None)
  | KNotFound =>
      match MustParse k_pvcSize with
      | Err e => (c, Some e)
      | Ok size =>
          let '(c, r) := PvcCreate (mkPVC (meta name jobID []) size (if bool_decide (ko_StorageClass opts = []) then None else Some (ko_StorageClass opts))) c in
          match r with KExists => (c, None) | _ => (c, kerr r) end
      end
  | r => (c, Some ("k8s: get pvc: " +:+ default ""%string (kerr r)))
  end.

Definition buildJob (run jobID pvc : bytes) (cm secret : option bytes) (image : bytes) (port : Z) (restore pullPolicy : bytes)
    (limits : list (bytes * (Z * Z))) : KJob :=
  mkKJob (meta run jobID run) 0 (labels jobID run) 45 (ko_ImagePullSecrets opts) nonRootUID image (k8sPullPolicy pullPolicy)
    ([(b "DATA_DIR", k8sDataDir); (b "SAVEPOINT_DIR", k8sSavepointDir); (b "PORT", dec_ port)]
     ++ (if bool_decide (is_Some cm) then [(b "WORKFLOW", k8sWorkflowPath)] else [])
     ++ (if bool_decide (restore = []) then [] else [(b "RESTORE_SAVEPOINT", restore)]))
    (b "/healthz", port, (3, 5, 6)) (option_list secret) port
    ((b "data", k8sDataDir) :: (if bool_decide (is_Some cm) then [(b "wf", b "/wf")] else [])) pvc cm limits.

(** Best-effort deletion of a run's objects; the claim is kept. *)
Definition cleanup (run : bytes) (c : C) : C :=
  let c := (JobDelete run c).1 in
  let c := (ServiceDelete run c).1 in
  let c := (ConfigMapDelete run c).1 in
  (SecretDelete run c).1.

(** The workflow document and the environment as objects of the run: their
    names, or the error of a call. *)
Definition createInputs (spec : LaunchSpec) (run : bytes) (c : C) : C * result (option bytes * option bytes) :=
  let '(c, r1) :=
    if isSdk spec then (c, None)
    else let '(c, r) := ConfigMapCreate (meta run (ls_JobID spec) run) {[b "workflow.yaml" := str (ls_WorkflowDoc spec)]} c in (c, kerr r) in
  match r1 with
  | Some e => (c, Err ("k8s: create configmap: " +:+ e))
  | None =>
      let cm := if isSdk spec then None else Some run in
      if decide (ls_Env spec = ∅) then (c, Ok (cm, None))
      else
        let '(c, r) := SecretCreate (meta run (ls_JobID spec) run) (ls_Env spec) c in
        match kerr r with
        | Some e => (cleanup run c, Err ("k8s: create secret: " +:+ e))
        | None => (c, Ok (cm, Some run))
        end
  end.
Definition createJob (spec : LaunchSpec) (run : bytes) (inputs : option bytes * option bytes) (limits : list (bytes * (Z * Z))) (c : C) : C * result bytes :=
  let port := containerPort spec in
  let job := buildJob run (ls_JobID spec) (b "weibo-" ++ ls_JobID spec ++ b "-data") inputs.1 inputs.2
               (orString (ls_Image spec) (ko_Image opts)) port (ls_RestoreSavepoint spec) (ls_PullPolicy spec) limits in
  let '(c, r) := JobCreate job c in
  match kerr r with
  | Some e => (cleanup run c, Err ("k8s: create job: " +:+ e))
  | None =>
      let '(c, r) := ServiceCreate (meta run (ls_JobID spec) run) {[b "weibo.run" := run]} port c in
      match kerr r with
      | Some e => (cleanup run c, Err ("k8s: create service: " +:+ e))
      | None => (c, Ok run)
      end
  end.
Definition k8s_Launch (spec : LaunchSpec) (s : Kubernetes C) : Kubernetes C * result bytes :=
  let run := b "weibo-" ++ ls_JobID spec ++ b "-" ++ dec_ (clock (k_ticks s)) in
  let done_ (cr : C * result bytes) := (mkK8s cr.1 (S (k_ticks s)), cr.2) in
  let '(c, pvc) := ensurePVC (b "weibo-" ++ ls_JobID spec ++ b "-data") (ls_JobID spec) (k_cs s) in
  match pvc with
  | Some e => done_ (c, Err e)
  | None =>
      match createInputs spec run c with
      | (c, Err e) => done_ (c, Err e)
      | (c, Ok inputs) =>
          match k8sResources (ls_Resources spec) with
          | Err e => done_ (c, Err e)
          | Ok limits => done_ (createJob spec run inputs limits c)
          end
      end
  end.

Definition podExitCode (run : bytes) (c : C) : Z :=
  match PodExits run c with
  | KOk codes => default 1 (head (omap id codes))
  | _ => 1
  end.
Definition serviceAddress (id : bytes) (c : C) : bytes :=
  match ServiceGet id c with
  | KOk (port :: _) => id ++ b "." ++ k_namespace ++ b ".svc.cluster.local:" ++ dec_ port
  | _ => []
  end.
Definition k8s_Status (id : bytes) (s : Kubernetes C) : result Status :=
  match JobGet id (k_cs s) with
  | KNotFound => Ok (mkStatus PhaseGone 0 0 [])
  | KOk st =>
      let addr := serviceAddress id (k_cs s) in
      Ok (if 0 <? js_Succeeded st then mkStatus PhaseExited 0 0 addr
          else if 0 <? js_Failed st then mkStatus PhaseExited (podExitCode id (k_cs s)) 0 addr
          else mkStatus PhaseRunning 0 0 addr)
  | r => Err (default ""%string (kerr r))
  end.
Definition k8s_Stop (id : bytes) (s : Kubernetes C) : Kubernetes C * result unit :=
  let '(c, r) := JobDelete id (k_cs s) in
  (mkK8s c (k_ticks s), match r with KOk _ | KNotFound => Ok tt | _ => Err (default ""%string (kerr r)) end).
Definition k8s_Remove (id : bytes) (s : Kubernetes C) : Kubernetes C * result unit :=
  (mkK8s (cleanup id (k_cs s)) (k_ticks s), Ok tt).

(** *** Capacity *)
Definition k8s_tally (t : Z * Z * Z * Z) (j : JobStatus) : Z * Z * Z * Z :=   (* running, starting, exited, used *)
  let '(running, starting, exited, used) := t in
  if 0 <? js_Active j then (running + js_Active j, starting, exited, used + js_Active j)
  else if (0 <? js_Succeeded j) || (0 <? js_Failed j) then (running, starting, exited + 1, used)
  else (running, starting + 1, exited, used + 1).
Definition k8s_Capacity (cfg : CapacityConfig) (c : C) : CapacitySnapshot :=
  let snap health source reason total used available running starting exited :=
    mkSnap (b health) (b source) reason total used available (cap_MaxJobs cfg) 0 0 0 0 0 0 0 0 running starting exited 0 true in
  match Ping c with
  | KOk _ =>
      match JobList c with
      | KOk l =>
          let '(running, starting, exited, used) := foldl k8s_tally (0, 0, 0, 0) l in
          let detail := "detailed kubernetes capacity requires quota/node-resource aggregation"%string in
          if 0 <? cap_MaxJobs cfg then
            let available := max64 (cap_MaxJobs cfg - used) 0 in
            snap "healthy" "configured_limit" detail (Some (used + available)) used (Some available) running starting exited
          else snap "healthy" "kubernetes_api" detail None used None running starting exited
      | r => snap "degraded" "kubernetes_api" (default ""%string (kerr r)) None 0 None 0 0 0
      end
  | r => snap "unreachable" "kubernetes_api" (default ""%string (kerr r)) None 0 None 0 0 0
  end.

(** The runs whose Job object exists and has not finished. *)
Definition active_job (s : Kubernetes C) (i : bytes) : option bytes :=
  match job_of (k_cs s) i with
  | Some (j, st) => if (0 <? js_Succeeded st) || (0 <? js_Failed st) then None
                    else Some (default [] (om_Labels (kj_Meta j) !! b "weibo.job"))
  | None => None
  end.
(** The backend as the controller sees it: what lives is what has a pod. *)
#[export] Instance k8s_backend : ContainerBackend (Kubernetes C) := {|
  Launch := k8s_Launch; Stop := k8s_Stop; StatusOf := k8s_Status; live s := pod_up (k_cs s);
|}.
End Backend.

(** ** The contract, on Job objects *)

Section Laws.
Context `{Q : Quantities} {C : Type} `{KA : KubeAPI C} `{CL : !ClusterLaws C}.
Variables (clock : nat -> Z) (opts : KubernetesOptions).

Definition active (c : option (KJob * JobStatus)) : option bytes :=
  match c with
  | Some (j, st) => if (0 <? js_Succeeded st) || (0 <? js_Failed st) then None else Some (default [] (om_Labels (kj_Meta j) !! b "weibo.job"))
  | None => None
  end.
Lemma active_job_of (s : Kubernetes C) i : active_job s i = active (job_of (k_cs s) i).
Proof. done. Qed.
Definition runName (spec : LaunchSpec) (s : Kubernetes C) : bytes := b "weibo-" ++ ls_JobID spec ++ b "-" ++ dec_ (clock (k_ticks s)).

#[local] Instance jobs_kept_refl : Reflexive (jobs_kept (C := C)).
Proof. by intros c i. Qed.
#[local] Instance jobs_kept_trans : Transitive (jobs_kept (C := C)).
Proof. intros c1 c2 c3 H1 H2 i. by rewrite H2, H1. Qed.

Lemma ensurePVC_keeps name jobID c : jobs_kept c (ensurePVC opts name jobID c).1.
Proof.
  unfold ensurePVC. destruct (PvcGet name c); try reflexivity. destruct (MustParse _); [|reflexivity].
  match goal with |- context [PvcCreate ?p c] => pose proof (pvc_create_keeps p c) as H; destruct (PvcCreate p c) as [c' r] end.
  cbn [fst] in H. by destruct r.
Qed.
(** Deleting a run's objects touches only its own Job. *)
Lemma cleanup_others run c i : i <> run -> job_of (cleanup run c) i = job_of c i.
Proof.
  intros Hi. unfold cleanup. rewrite (secret_delete_keeps _ _ i), (configmap_delete_keeps _ _ i), (service_delete_keeps _ _ i).
  pose proof (job_delete_law run c) as H. destruct (JobDelete run c) as [c' [| | |]]; cbn [fst].
  - by rewrite H, decide_False.
  - by destruct H as [_ ->].
  - by rewrite H.
  - by rewrite H.
Qed.
(** The deletion of a Job failed: neither done nor unnecessary. *)
Definition delete_failed (r : kreply unit) : bool := match r with KOk _ | KNotFound => false | _ => true end.
(** [c'] was left by a clean-up of [run] whose Job deletion failed. *)
Definition leaked (run : bytes) (c' : C) : Prop := exists c, c' = cleanup run c /\ delete_failed (JobDelete run c).2 = true.
Lemma cleanup_own run c : job_of (cleanup run c) run = None \/ leaked run (cleanup run c).
Proof.
  destruct (delete_failed (JobDelete run c).2) eqn:Hd; [right; by exists c|left]. unfold cleanup. rewrite (secret_delete_keeps _ _ run), (configmap_delete_keeps _ _ run), (service_delete_keeps _ _ run).
  pose proof (job_delete_law run c) as H. destruct (JobDelete run c) as [c' [| | |]]; cbn [fst snd] in *; try done.
  - by rewrite H, decide_True.
  - destruct H as [H1 H2]. by rewrite H2.
Qed.

(** Creating the run's inputs touches no other Job, and leaves none of its own. *)
Lemma createInputs_jobs spec run c :
  let c' := (createInputs opts spec run c).1 in
  (forall i, i <> run -> job_of c' i = job_of c i) /\ (job_of c run = None -> job_of c' run = None \/ leaked run c').
Proof.
  unfold createInputs. set (x := if isSdk spec then _ else _).
  assert (Hx : jobs_kept c x.1).
  { subst x. destruct (isSdk spec); [reflexivity|].
    match goal with |- context [ConfigMapCreate ?m ?d c] => pose proof (configmap_create_keeps m d c) as H; destruct (ConfigMapCreate m d c) as [c' r] end.
    by destruct r. }
  destruct x as [c1 [e|]]; cbn [fst] in Hx; [split; intros; [|left]; by rewrite Hx|].
  destruct (decide _); [split; intros; [|left]; cbn; by rewrite Hx|].
  match goal with |- context [SecretCreate ?m ?d c1] => pose proof (secret_create_keeps m d c1) as H; destruct (SecretCreate m d c1) as [c' r] end.
  cbn [fst] in H. destruct (kerr r); cbn [fst].
  - split; [intros i Hi|by intros; apply cleanup_own]. rewrite cleanup_others by done. by rewrite H, Hx.
  - split; intros; [|left]; by rewrite H, Hx.
Qed.

Lemma createJob_law spec run inputs limits c :
  match createJob opts spec run inputs limits c with
  | (c', Ok id) => id = run /\ exists j, om_Labels (kj_Meta j) = labels (ls_JobID spec) run /\
      forall i, job_of c' i = if decide (i = run) then Some (j, mkJStatus 0 0 0) else job_of c i
  | (c', Err _) => (forall i, i <> run -> job_of c' i = job_of c i) /\ (job_of c' run = None \/ leaked run c')
  end.
Proof.
  unfold createJob. set (j := buildJob _ _ _ _ _ _ _ _ _ _ _). pose proof (job_create_law j c) as H.
  destruct (JobCreate j c) as [c1 r]. change (om_Name (kj_Meta j)) with run in H. destruct (kerr r) as [e|] eqn:Er.
  - split; [|apply cleanup_own]. intros i Hi. rewrite cleanup_others by done. destruct r; try done; apply H.
  - destruct r as [[]| | |]; try done. destruct H as [_ H].
    match goal with |- context [ServiceCreate ?m ?s ?p c1] => pose proof (service_create_keeps m s p c1) as Hs; destruct (ServiceCreate m s p c1) as [c2 r] end.
    cbn [fst] in Hs. destruct (kerr r) as [e|].
    + split; [|apply cleanup_own]. intros i Hi. rewrite cleanup_others, Hs, H by done. by rewrite decide_False.
    + split; [done|]. exists j. split; [done|]. intros i. by rewrite Hs, H.
Qed.

Lemma label_job jobID run : labels jobID run !! b "weibo.job" = Some jobID.
Proof. unfold labels. case_bool_decide; rewrite ?lookup_insert_ne by done; by rewrite lookup_singleton_eq. Qed.

(** What a launch does to the Job objects. *)
Lemma k8s_launch_jobs spec s :
  match k8s_Launch clock opts spec s with
  | (s', Ok id) => id = runName spec s /\ forall i, active_job s' i = if decide (i = id) then Some (ls_JobID spec) else active_job s i
  | (s', Err _) => (forall i, i <> runName spec s -> active_job s' i = active_job s i) /\
      (job_of (k_cs s) (runName spec s) = None -> active_job s' (runName spec s) = None \/ leaked (runName spec s) (k_cs s'))
  end.
Proof.
  unfold k8s_Launch. fold (runName spec s). set (run := runName spec s). set (pvc := b "weibo-" ++ _ ++ b "-data").
  pose proof (ensurePVC_keeps pvc (ls_JobID spec) (k_cs s)) as Hp. destruct (ensurePVC opts pvc _ _) as [c1 [e|]]; cbn [fst] in Hp.
  { split; [|intros Hn; left]; intros; rewrite !active_job_of; cbn [k_cs fst]; by rewrite Hp, ?Hn. }
  destruct (createInputs_jobs spec run c1) as [Hi Ho].
  destruct (createInputs opts spec run c1) as [c2 [inputs|e]]; cbn [fst] in Hi, Ho; cycle 1.
  { split; [|intros Hn]; intros; rewrite !active_job_of; cbn [k_cs fst]; [by rewrite Hi, Hp|].
    destruct Ho as [Ho|Ho]; [by rewrite Hp|left; by rewrite Ho|by right]. }
  destruct (k8sResources (ls_Resources spec)) as [limits|e]; cycle 1.
  { split; [|intros Hn]; intros; rewrite !active_job_of; cbn [k_cs fst]; [by rewrite Hi, Hp|].
    destruct Ho as [Ho|Ho]; [by rewrite Hp|left; by rewrite Ho|by right]. }
  pose proof (createJob_law spec run inputs limits c2) as Hj. destruct (createJob opts spec run inputs limits c2) as [c3 [id|e]]; cbn [fst snd].
  - destruct Hj as [-> (j & Hl & Hj)]. split; [done|]. intros i. rewrite !active_job_of. cbn [k_cs]. rewrite Hj. case_decide.
    + cbn [active js_Succeeded js_Failed]. by rewrite Hl, label_job.
    + by rewrite Hi, Hp by done.
  - destruct Hj as [H1 H2]. split; [|intros Hn]; intros; rewrite !active_job_of; cbn [k_cs]; [by rewrite H1, Hi, Hp by done|].
    destruct H2 as [H2|H2]; [left; by rewrite H2|by right].
Qed.

(** C25: the Kubernetes backend tracks its Job objects.  Over an API server
    any of whose calls may fail: a launch that succeeds adds exactly one
    unfinished Job of the job; one that fails, under a run name not in use,
    leaves every other Job alone, and leaves one of its own only when it came
    out of a clean-up whose deletion of that Job failed (the error is dropped,
    see [failed_launch_leaks_pod]); a stop that succeeds removes the Job object
    (its pod drains later, [k8s_stop_leaves_pod]); and Status reports running
    exactly for unfinished Jobs. *)
Theorem k8s_tracks_jobs spec s id :
  (forall s' run, k8s_Launch clock opts spec s = (s', Ok run) ->
     forall i, active_job s' i = if decide (i = run) then Some (ls_JobID spec) else active_job s i) /\
  (forall s' e, k8s_Launch clock opts spec s = (s', Err e) ->
     (forall i, i <> runName spec s -> active_job s' i = active_job s i) /\
     (job_of (k_cs s) (runName spec s) = None ->
        active_job s' (runName spec s) = None \/ leaked (runName spec s) (k_cs s'))) /\
  (forall s', k8s_Stop id s = (s', Ok tt) -> forall i, active_job s' i = if decide (i = id) then None else active_job s i) /\
  (forall st, k8s_Status opts id s = Ok st -> (s_Phase st = PhaseRunning <-> is_Some (active_job s id))).
Proof.
  pose proof (k8s_launch_jobs spec s) as HL. split; [|split; [|split]].
  - intros s' run E. rewrite E in HL. apply HL.
  - intros s' e E. by rewrite E in HL.
  - intros s' E i. unfold k8s_Stop in E. pose proof (job_delete_law id (k_cs s)) as H.
    destruct (JobDelete id (k_cs s)) as [c [| | |]]; try done; injection E as <-; rewrite !active_job_of; cbn [k_cs].
    + rewrite H. by case_decide.
    + destruct H as [Hn H]. rewrite H. case_decide; [|done]. subst i. by rewrite Hn.
  - intros st E. unfold k8s_Status in E. pose proof (job_get_law id (k_cs s)) as H. rewrite active_job_of.
    destruct (JobGet id (k_cs s)) as [js| | |]; try done.
    + destruct H as [j ->]. injection E as <-. cbn [active].
      destruct (0 <? js_Succeeded js), (0 <? js_Failed js); cbn; (split; [intros; eauto; done|intros [? ?]; done]).
    + injection E as <-. rewrite H. split; [done|by intros [? ?]].
Qed.

(** A stop returns as soon as the Job object is gone: the pod it owned still
    runs, and Status already says there is no container. *)
Theorem k8s_stop_leaves_pod id s s' : k8s_Stop id s = (s', Ok tt) ->
  forall i, live (ContainerBackend := k8s_backend clock opts) s' i = live (ContainerBackend := k8s_backend clock opts) s i.
Proof.
  intros E i. unfold k8s_Stop in E. pose proof (job_delete_pods id (k_cs s) i) as H. destruct (JobDelete id (k_cs s)) as [c r].
  cbn [fst] in H. destruct r; try done; by injection E as <-.
Qed.
End Laws.

(** ** A cluster in memory *)

(** Pods start with their Job; [faults] says for each coming creation or
    deletion whether it fails. *)
Record Cluster : Type := mkCluster {
  cl_jobs : gmap bytes (KJob * JobStatus); cl_pods : gmap bytes bytes; cl_claims : list bytes; cl_faults : list bool;
}.
Definition kfaulty (f : Cluster -> Cluster * kreply unit) (c : Cluster) : Cluster * kreply unit :=
  match cl_faults c with
  | [] => f c
  | x :: fs => let c := mkCluster (cl_jobs c) (cl_pods c) (cl_claims c) fs in
      if x : bool then (c, KFailed "injected"%string) else f c
  end.
Definition kjob_create (j : KJob) (c : Cluster) : Cluster * kreply unit :=
  let name := om_Name (kj_Meta j) in
  match cl_jobs c !! name with
  | Some _ => (c, KExists)
  | None => (mkCluster (<[name := (j, mkJStatus 0 0 0)]> (cl_jobs c))
               (<[name := default [] (om_Labels (kj_Meta j) !! b "weibo.job")]> (cl_pods c)) (cl_claims c) (cl_faults c), KOk tt)
  end.
Definition kjob_delete (n : bytes) (c : Cluster) : Cluster * kreply unit :=
  match cl_jobs c !! n with
  | Some _ => (mkCluster (delete n (cl_jobs c)) (cl_pods c) (cl_claims c) (cl_faults c), KOk tt)
  | None => (c, KNotFound)
  end.
#[export] Instance cluster_api : KubeAPI Cluster := {|
  Ping _ := KOk tt;
  PvcGet n c := if decide (n ∈ cl_claims c) then KOk tt else KNotFound;
  PvcCreate p := kfaulty (λ c, (mkCluster (cl_jobs c) (cl_pods c) (om_Name (pvc_Meta p) :: cl_claims c) (cl_faults c), KOk tt));
  ConfigMapCreate _ _ := kfaulty (λ c, (c, KOk tt));
  SecretCreate _ _ := kfaulty (λ c, (c, KOk tt));
  JobCreate j := kfaulty (kjob_create j);
  ServiceCreate _ _ _ := kfaulty (λ c, (c, KOk tt));
  JobGet n c := match cl_jobs c !! n with Some (_, st) => KOk st | None => KNotFound end;
  JobList c := KOk ((λ kv : bytes * (KJob * JobStatus), kv.2.2) <$> map_to_list (cl_jobs c));
  ServiceGet n c := if decide (is_Some (cl_jobs c !! n)) then KOk [8080] else KNotFound;
  PodExits n c := KOk [];
  JobDelete n := kfaulty (kjob_delete n);
  ServiceDelete _ := kfaulty (λ c, (c, KOk tt));
  ConfigMapDelete _ := kfaulty (λ c, (c, KOk tt));
  SecretDelete _ := kfaulty (λ c, (c, KOk tt));
  job_of c i := cl_jobs c !! i;
  pod_up c i := cl_pods c !! i;
|}.

Lemma kfaulty_ind (f : Cluster -> Cluster * kreply unit) (c : Cluster) (P : Cluster * kreply unit -> Prop) :
  (forall fs e, P (mkCluster (cl_jobs c) (cl_pods c) (cl_claims c) fs, KFailed e)) ->
  (forall fs, P (f (mkCluster (cl_jobs c) (cl_pods c) (cl_claims c) fs))) -> P (kfaulty f c).
Proof.
  intros Hf Hok. unfold kfaulty. destruct c as [m pods cl fs]. cbn [cl_faults cl_jobs cl_pods cl_claims] in *.
  destruct fs as [|[] fs]; [apply Hok|apply Hf|apply Hok].
Qed.
#[export] Instance cluster_laws : ClusterLaws Cluster.
Proof.
  split; unfold jobs_kept; cbn [job_of pod_up PvcCreate ConfigMapCreate SecretCreate ServiceCreate ServiceDelete ConfigMapDelete SecretDelete JobCreate JobDelete JobGet cluster_api].
  1-7: (intros; by apply (kfaulty_ind _ _ (λ r, cl_jobs r.1 !! _ = _))).
  - intros j c. apply kfaulty_ind; [done|]. intros fs. unfold kjob_create. cbn [cl_jobs].
    destruct (cl_jobs c !! om_Name (kj_Meta j)) eqn:E; [done|]. cbn [cl_jobs]. split; [done|]. intros i.
    case_decide; [subst; by rewrite lookup_insert_eq|by rewrite lookup_insert_ne].
  - intros n c. apply kfaulty_ind; [done|]. intros fs. unfold kjob_delete. cbn [cl_jobs].
    destruct (cl_jobs c !! n) eqn:E; [|done]. cbn [cl_jobs]. intros i. case_decide; [subst; apply lookup_delete_eq|by rewrite lookup_delete_ne].
  - intros n c. destruct (cl_jobs c !! n) as [[j st]|]; [by exists j|done].
  - intros n c i. apply (kfaulty_ind _ _ (λ r, cl_pods r.1 !! i = _)); [done|]. intros fs. unfold kjob_delete. cbn [cl_jobs].
    by destruct (cl_jobs c !! n).
Qed.

Definition kube_opts : KubernetesOptions := mkKOpts [] (b "runner") [] [] [].
#[local] Instance kube_q : Quantities := demo_quantities.
Definition kube_launch := k8s_Launch (C := Cluster) demo_clock kube_opts.
Definition emptyCluster (faults : list bool) : Kubernetes Cluster := mkK8s (mkCluster ∅ ∅ [] faults) 0.

(** A launch; a launch whose service cannot be created, which the clean-up
    undoes; and a stop. *)
Definition k_launched : Kubernetes Cluster * result bytes := kube_launch (demo_spec (b "j1")) (emptyCluster []).
Definition k_stopped : Kubernetes Cluster * result unit := k8s_Stop first_id k_launched.1.
Lemma k_launched_ok : k_launched.2 = Ok first_id. Proof. vm_compute. reflexivity. Qed.
Lemma k_stopped_ok : k_stopped.2 = Ok tt. Proof. vm_compute. reflexivity. Qed.
(** The service cannot be created: the clean-up removes the Job. *)
Definition k_undone : Kubernetes Cluster * result bytes := kube_launch (demo_spec (b "j1")) (emptyCluster [false; false; false; true]).
(** ... or fails to. *)
Definition k_leaked : Kubernetes Cluster * result bytes := kube_launch (demo_spec (b "j1")) (emptyCluster [false; false; false; true; true]).
Lemma k8s_tracks_jobs_witness :
  (forall i, active_job k_launched.1 i = if decide (i = first_id) then Some (b "j1") else None) /\
  (forall i, active_job k_stopped.1 i = None) /\
  (is_ok k_undone.2 = false /\ active_job k_undone.1 first_id = None /\ forall i, i <> first_id -> active_job k_undone.1 i = None) /\
  (is_ok k_leaked.2 = false /\ leaked first_id (k_cs k_leaked.1)).
Proof.
  assert (HL : forall i, active_job k_launched.1 i = if decide (i = first_id) then Some (b "j1") else None).
  { destruct (k8s_tracks_jobs (C := Cluster) demo_clock kube_opts (demo_spec (b "j1")) (emptyCluster []) first_id) as (H & _).
    intros i. rewrite (H k_launched.1 first_id); [by case_decide|]. rewrite <- k_launched_ok. apply surjective_pairing. }
  split; [exact HL|]. split; [|split].
  - destruct (k8s_tracks_jobs (C := Cluster) demo_clock kube_opts (demo_spec (b "j1")) k_launched.1 first_id) as (_ & _ & H & _).
    intros i. rewrite (H k_stopped.1); [|rewrite <- k_stopped_ok; apply surjective_pairing]. case_decide; [done|]. rewrite HL. by rewrite decide_False.
  - destruct (k8s_tracks_jobs (C := Cluster) demo_clock kube_opts (demo_spec (b "j1")) (emptyCluster [false; false; false; true]) first_id) as (_ & H & _).
    split; [vm_compute; reflexivity|]. split; [vm_compute; reflexivity|]. intros i Hi.
    destruct (H k_undone.1 "k8s: create service: injected"%string) as [H1 _]; [vm_compute; reflexivity|].
    rewrite H1; [reflexivity|]. intros E. apply Hi. rewrite E. vm_compute. reflexivity.
  - destruct (k8s_tracks_jobs (C := Cluster) demo_clock kube_opts (demo_spec (b "j1")) (emptyCluster [false; false; false; true; true]) first_id) as (_ & H & _).
    split; [vm_compute; reflexivity|].
    destruct (H k_leaked.1 "k8s: create service: injected"%string) as [_ H1]; [vm_compute; reflexivity|].
    destruct H1 as [H1|H1]; [vm_compute; reflexivity|exfalso; vm_compute in H1; discriminate H1|exact H1].
Defined.

(** A launch that fails after its Job exists relies on the clean-up, whose
    errors are dropped: when the deletion fails too, the launch reports an
    error and the pod runs. *)
Theorem failed_launch_leaks_pod :
  let '(s, r) := kube_launch (demo_spec (b "j1")) (emptyCluster [false; false; false; true; true]) in
  is_ok r = false /\ pod_up (k_cs s) first_id = Some (b "j1") /\ active_job s first_id = Some (b "j1").
Proof. vm_compute. repeat split. Qed.

(** The size of the claim is parsed only when the first job is launched, with
    a panic when it is not a quantity. *)
Theorem bad_pvc_size_panics :
  exists s, k8s_Launch (C := Cluster) demo_clock (mkKOpts [] (b "runner") (b "one gig") [] []) (demo_spec (b "j1")) (emptyCluster [])
    = (s, Err "panic: cannot parse quantity: unable to parse quantity").
Proof. eexists. vm_compute. reflexivity. Qed.
