(* ===== verification/Fleet.v ===== *)
(** * The controller over the Docker and Kubernetes backends

    Where the controller's guarantee carries over to a backend and where it
    does not. *)
From S2P Require Import Prelude GoTime Savepoint Json Lifecycle JobStore Backend Docker Kubernetes Control ControlProofs.

#[local] Instance fleet_q : Quantities := demo_quantities.

(** Over Kubernetes a restart overlaps.  Stop returns when the Job object is
    deleted, while its pod drains for up to 45 seconds; the controller records
    the run as cancelled and launches the next one, and two pods of one job
    run at the same time. *)
Definition kube_backend : ContainerBackend (Kubernetes Cluster) := k8s_backend demo_clock kube_opts.
Definition kube_submit := Submit (CB := kube_backend) sec_clock num_id demo_opts no_manifest any_quantity demo_validate (b "spec") ∅.
Definition kube_restart := Restart (CB := kube_backend) sec_clock num_id demo_opts no_manifest (num_id 0).
Theorem kubernetes_restart_overlaps :
  let '(r, w) := kube_restart (kube_submit (fresh_world (emptyCluster []))).2 in
  r.2 = None /\ (r_ContainerID <$> ActiveRuns (w_store w)) = [b "weibo-" ++ num_id 0 ++ b "-1700000000000000001"] /\
  pod_up (k_cs (w_backend w)) (b "weibo-" ++ num_id 0 ++ b "-1700000000000000000") = Some (num_id 0) /\
  pod_up (k_cs (w_backend w)) (b "weibo-" ++ num_id 0 ++ b "-1700000000000000001") = Some (num_id 0).
Proof. vm_compute. repeat split. Qed.

(** Over Docker it does not: the stop waits for the container.  Two running
    containers of one job are then possible only when a stop call to the daemon
    failed, whatever else of the daemon fails. *)
Theorem docker_single_live `{JT : JSONText} `{TT : TarText} `{Q : Quantities} {D : Type} `{DD : DockerDaemon D} `{DL : !DaemonLaws D}
    (clock : nat -> Z) (ids : nat -> bytes) nanos image auth timeout opts manifest quantity validate agent interrupted
    (s : Docker D) :
  let CB := docker_backend nanos image auth timeout in
  forall w : World (Logged (Docker D)),
  (forall i, docker_live s i = None) ->
  rtc (plane_step clock ids opts manifest quantity validate agent interrupted logged_down) (fresh_world (mkLogged s [])) w ->
  clock_sorted clock (w_ticks w) -> ids_distinct ids ->
  forall i j job, docker_live (inner (w_backend w)) i = Some job -> docker_live (inner (w_backend w)) j = Some job ->
  i = j \/ i ∈ failedStops (w_backend w) \/ j ∈ failedStops (w_backend w).
Proof.
  intros CB w Hs Hr Hc Hi i j job H1 H2. pose proof (docker_laws nanos image auth timeout) as L.
  destruct (reachable_exclusive (CB := CB) (BL := L) clock ids (w_ticks w) Hc Hi opts manifest
    quantity validate agent interrupted (mkLogged s []) w Hs Hr (le_n _)) as [H _].
  destruct (decide (i ∈ failedStops (w_backend w))), (decide (j ∈ failedStops (w_backend w))); try by auto.
  left. by apply (H i j job).
Qed.
