(* ===== verification/TxnSink.v ===== *)
(** * Package sink: the transactional Kafka sink (kafka_txn.go)

    [TxnClient] is the franz-go client and its broker, seen through the
    read-committed log ([visible]) and the records of the open transaction
    ([staged]); [TxnClientLaws] is what Kafka transactions promise.  [Write] is
    the function [write_record] on the records it reads; [Commit] and [Abort]
    are called by the coordinator in between. *)
From S2P Require Import Prelude GoTime Types.

Record krec : Type := mkK {
  k_Topic : bytes; k_Key : slice; k_Value : slice; k_Timestamp : Z; k_Headers : gmap bytes slice;
}.
#[export] Instance krec_eq_dec : EqDecision krec.
Proof. solve_decision. Defined.

Class TxnClient (K : Type) : Type := {
  BeginTransaction : K -> K * result unit;
  Produce : krec -> K -> K * option string;   (* the error its callback gets before Flush returns *)
  Flush : K -> K * result unit;
  AbortBufferedRecords : K -> K * result unit;
  EndTransaction : bool -> K -> K * result unit;    (* true: TryCommit, false: TryAbort *)
  visible : K -> list krec;
  staged : K -> list krec;
}.

Class TxnClientLaws (K : Type) `{TxnClient K} : Prop := {
  begin_law k : visible (BeginTransaction k).1 = visible k /\
    ((BeginTransaction k).2 = Ok tt -> staged (BeginTransaction k).1 = []);
  produce_law r k : visible (Produce r k).1 = visible k /\
    ((Produce r k).2 = None -> staged (Produce r k).1 = staged k ++ [r]);
  flush_law k : visible (Flush k).1 = visible k /\ staged (Flush k).1 = staged k;
  abort_buffered_law k : visible (AbortBufferedRecords k).1 = visible k;
  end_abort_law k : visible (EndTransaction false k).1 = visible k;
  end_commit_law k :
    ((EndTransaction true k).2 = Ok tt -> visible (EndTransaction true k).1 = visible k ++ staged k) /\
    (visible (EndTransaction true k).1 = visible k \/ visible (EndTransaction true k).1 = visible k ++ staged k);
}.

Record txnKafkaConfig : Type := mkTxnCfg {
  c_topic : bytes; c_txnID : bytes; c_markerTopic : bytes; c_serializer : option (Rec -> result slice);
}.
(** [NewTxnKafkaSink]; [Err] is a panic.  [authErr]: what building the SASL and
    TLS settings reports. *)
Definition NewTxnKafkaSink (brokers : list bytes) (topic txnID markerTopic : bytes) (ser : option (Rec -> result slice))
    (authErr : option string) : result txnKafkaConfig :=
  if bool_decide (brokers = []) then Err "weibo/sink: TxnKafkaSink requires TxnKafkaBrokers(...)"
  else if bool_decide (topic = []) then Err "weibo/sink: TxnKafkaSink requires TxnKafkaTopic(...)"
  else if bool_decide (txnID = []) then Err "weibo/sink: TxnKafkaSink requires TxnKafkaTransactionalID(...)"
  else match authErr with
  | Some e => Err ("weibo/sink: TxnKafkaSink " +:+ e)
  | None => Ok (mkTxnCfg topic txnID (if bool_decide (markerTopic = []) then topic ++ b ".checkpoints" else markerTopic) ser)
  end.

(** [waiter] is the checkpoint [Write] is blocked on; [calls] logs the
    [onPrepared] callbacks. *)
Record TxnKafkaSink {K : Type} : Type := mkTxn {
  client : K; waiter : option bytes; produceErr : option string; calls : list (bytes * option string);
}.
Arguments TxnKafkaSink : clear implicits.

Section Sink.
Context {K : Type} `{TC : TxnClient K}.
Variable cfg : txnKafkaConfig.
Implicit Types (s : TxnKafkaSink K).

Definition set_client (k : K) s : TxnKafkaSink K := mkTxn _ k (waiter s) (produceErr s) (calls s).
Definition setProduceErr (e : string) s : TxnKafkaSink K :=
  mkTxn _ (client s) (waiter s) (match produceErr s with None => Some e | old => old end) (calls s).
Definition clearProduceErr s : TxnKafkaSink K := mkTxn _ (client s) (waiter s) None (calls s).

Definition produce (r : krec) s : TxnKafkaSink K :=
  let '(k, err) := Produce r (client s) in
  let s := set_client k s in
  match err with Some e => setProduceErr e s | None => s end.

Definition marker (id : bytes) : krec := mkK (c_markerTopic cfg) (Some (c_txnID cfg)) (Some id) 0 ∅.

(** The value of a data record, or the error of its serializer.  Errors keep
    their cause; the prefixes the sink wraps around them are left out. *)
Definition payload (r : Rec) : result slice :=
  match c_serializer cfg with None => Ok (Value r) | Some f => f r end.
Definition to_krec (r : Rec) (v : slice) : krec := mkK [] (Key r) v (Timestamp r) (Headers r).

(** One iteration of the loop in [Write], while it is not blocked. *)
Definition write_record (r : Rec) s : TxnKafkaSink K :=
  if IsWatermark r then s
  else if IsBarrier r then
    let id := CheckpointID r in
    let s := produce (marker id) s in
    let '(k, fl) := Flush (client s) in
    let s := set_client k s in
    let err := match fl with Err e => Some e | Ok _ => produceErr s end in
    mkTxn _ (client s) (Some id) (produceErr s) (calls s ++ [(id, err)])
  else
    match payload r with
    | Err e => setProduceErr ("serialize: " +:+ e) s
    | Ok v => produce (to_krec r v) s
    end.

Definition signal (id : bytes) s : TxnKafkaSink K :=
  mkTxn _ (client s) (if bool_decide (waiter s = Some id) then None else waiter s) (produceErr s) (calls s).

(** End the transaction, open the next one, forget its error, unblock. *)
Definition reopen (id : bytes) s : TxnKafkaSink K * result unit :=
  let '(k, r) := BeginTransaction (client s) in
  let s := set_client k s in
  match r with
  | Err e => (s, Err e)
  | Ok _ => (signal id (clearProduceErr s), Ok tt)
  end.
Definition Commit (id : bytes) s : TxnKafkaSink K * result unit :=
  let '(k, r) := EndTransaction true (client s) in
  let s := set_client k s in
  match r with
  | Err e => (s, Err e)
  | Ok _ => reopen id s
  end.
Definition Abort (id : bytes) s : TxnKafkaSink K * result unit :=
  let '(k, r) := AbortBufferedRecords (client s) in
  let s := set_client k s in
  match r with
  | Err e => (s, Err e)
  | Ok _ =>
      let '(k, r) := EndTransaction false (client s) in
      let s := set_client k s in
      match r with
      | Err e => (s, Err e)
      | Ok _ => reopen id s
      end
  end.

(** [Commit] and [Abort] of a sink that may not be running ([s.client == nil]):
    during recovery a commit is refused and an abort does nothing. *)
Definition CommitAny (id : bytes) (so : option (TxnKafkaSink K)) : option (TxnKafkaSink K) * result unit :=
  match so with
  | None => (None, Err "sink not running")
  | Some s => let '(s, r) := Commit id s in (Some s, r)
  end.
Definition AbortAny (id : bytes) (so : option (TxnKafkaSink K)) : option (TxnKafkaSink K) * result unit :=
  match so with
  | None => (None, Ok tt)
  | Some s => let '(s, r) := Abort id s in (Some s, r)
  end.

(** The start of [Write], and its deferred abort. *)
Definition write_open (k : K) : TxnKafkaSink K * result unit :=
  let '(k, r) := BeginTransaction k in (mkTxn _ k None None [], r).
Definition write_close s : TxnKafkaSink K :=
  let k := (AbortBufferedRecords (client s)).1 in
  set_client (EndTransaction false k).1 s.

(** ** The marker probe *)

(** A poll gives an error or the records fetched; running out of polls is the
    deadline of the recovery context. *)
Fixpoint probe_loop (id : bytes) (emptyPolls : nat) (polls : list (result (list krec))) : result bool :=
  match polls with
  | [] => Err "context deadline exceeded"
  | Err e :: _ => Err e
  | Ok recs :: polls =>
      if existsb (λ r, bool_decide (str (k_Key r) = c_txnID cfg) && bool_decide (str (k_Value r) = id)) recs then Ok true
      else match recs with
      | _ :: _ => probe_loop id 0 polls
      | [] => if (2 <=? emptyPolls + 1)%nat then Ok false else probe_loop id (emptyPolls + 1) polls
      end
  end.
(** [ends]: whether an end offset of the marker topic is positive. *)
Definition WasCommitted (ends : result bool) (polls : list (result (list krec))) (id : bytes) : result bool :=
  match ends with
  | Err e => Err e
  | Ok hasData => if hasData then probe_loop id 0 polls else Ok false
  end.

(** ** What the sink promises *)

Inductive tev : Type := TRec (r : Rec) | TCommit (id : bytes) | TAbort (id : bytes).

(** Runs of the sink: [Write] reads while it is not blocked, the coordinator
    commits a checkpoint that was prepared without error, or aborts it. *)
Inductive txn_run s : list tev -> TxnKafkaSink K -> Prop :=
| run_start : txn_run s [] s
| run_rec evs s1 r : txn_run s evs s1 -> waiter s1 = None -> txn_run s (evs ++ [TRec r]) (write_record r s1)
| run_commit evs s1 s2 id : txn_run s evs s1 -> waiter s1 = Some id -> last (calls s1) = Some (id, None) ->
    Commit id s1 = (s2, Ok tt) -> txn_run s (evs ++ [TCommit id]) s2
| run_abort evs s1 s2 id : txn_run s evs s1 -> waiter s1 = Some id -> Abort id s1 = (s2, Ok tt) ->
    txn_run s (evs ++ [TAbort id]) s2.

(** The specification: the stream cut into intervals, each committed as a
    whole under its checkpoint or dropped. *)
Record intervals : Type := mkIv { done : list (bytes * list Rec); cur : list Rec }.
Definition iv_step (a : intervals) (e : tev) : intervals :=
  match e with
  | TRec r => if is_data r then mkIv (done a) (cur a ++ [r]) else a
  | TCommit id => mkIv (done a ++ [(id, cur a)]) []
  | TAbort _ => mkIv (done a) []
  end.
Definition intervals_of (evs : list tev) : intervals := foldl iv_step (mkIv [] []) evs.

Definition krec_of (r : Rec) : krec := to_krec r (match payload r with Ok v => v | Err _ => None end).
Definition interval_out (iv : bytes * list Rec) : list krec := (krec_of <$> iv.2) ++ [marker iv.1].
Definition serializes (r : Rec) : Prop := is_ok (payload r) = true.

Context `{TL : !TxnClientLaws K}.

Record txn_inv (v0 : list krec) s (a : intervals) : Prop := {
  ti_visible : visible (client s) = v0 ++ (done a ≫= interval_out);
  ti_done : Forall (λ iv : bytes * list Rec, Forall serializes iv.2) (done a);
  ti_staged : produceErr s = None ->
    staged (client s) = (krec_of <$> cur a) ++ match waiter s with Some id => [marker id] | None => [] end
    /\ Forall serializes (cur a);
  ti_call : forall id, waiter s = Some id -> last (calls s) = Some (id, None) -> produceErr s = None;
}.

Lemma produce_inv r s : visible (client (produce r s)) = visible (client s) /\ waiter (produce r s) = waiter s /\
  calls (produce r s) = calls s /\
  (produceErr (produce r s) = None -> produceErr s = None /\ staged (client (produce r s)) = staged (client s) ++ [r]).
Proof.
  unfold produce. destruct (produce_law r (client s)) as [Hv Hs]. destruct (Produce r (client s)) as [k [e|]]; cbn in *.
  - split_and!; [done..|]. by destruct (produceErr s).
  - split_and!; [done..|]. intros H. split; [exact H|by apply Hs].
Qed.

Lemma write_record_inv v0 r s a :
  waiter s = None -> txn_inv v0 s a -> txn_inv v0 (write_record r s) (iv_step a (TRec r)).
Proof.
  intros Hw [H1 H2 H3 H4]. unfold write_record, iv_step, is_data, is_marker.
  destruct (IsWatermark r); [by split|]. destruct (IsBarrier r); cbn [orb negb].
  - destruct (produce_inv (marker (CheckpointID r)) s) as (Hv & Hwt & Hc & Hs).
    set (s1 := produce (marker (CheckpointID r)) s) in *. destruct (flush_law (client s1)) as [Fv Fs].
    destruct (Flush (client s1)) as [k fl]. cbn in Fv, Fs. split; cbn.
    + by rewrite Fv, Hv.
    + done.
    + intros He. destruct (Hs He) as [He' Hst]. destruct (H3 He') as [E ?]. rewrite Fs, Hst, E, Hw, app_nil_r. done.
    + intros id [= <-]. rewrite last_snoc. intros [= E]. by destruct fl.
  - destruct (payload r) as [v|e] eqn:Ep.
    + destruct (produce_inv (to_krec r v) s) as (Hv & Hwt & Hc & Hs). set (s1 := produce (to_krec r v) s) in *. split; cbn.
      * by rewrite Hv.
      * done.
      * intros He. destruct (Hs He) as [He' Hst]. destruct (H3 He') as [E ?]. rewrite Hwt, Hst, E, Hw, !app_nil_r, fmap_app. cbn.
        unfold krec_of at 3. rewrite Ep. split; [done|]. apply Forall_app. split; [done|]. constructor; [|done].
        unfold serializes. by rewrite Ep.
      * intros id. rewrite Hwt, Hw. done.
    + split; cbn; try done; [by destruct (produceErr s)|]. intros id. by rewrite Hw.
Qed.

Lemma reopen_inv v0 id s s' a :
  waiter s = Some id -> visible (client s) = v0 ++ (done a ≫= interval_out) ->
  Forall (λ iv : bytes * list Rec, Forall serializes iv.2) (done a) -> cur a = [] ->
  reopen id s = (s', Ok tt) -> txn_inv v0 s' a.
Proof.
  intros Hw Hv Hd Hc E. unfold reopen in E. destruct (begin_law (client s)) as [Bv Bs].
  destruct (BeginTransaction (client s)) as [k [[]|e]]; [|done]. injection E as <-. cbn in Bv, Bs. split; cbn.
  - by rewrite Bv.
  - done.
  - intros _. rewrite bool_decide_true by done. rewrite Bs, Hc by done. done.
  - done.
Qed.

Lemma commit_inv v0 id s s' a :
  waiter s = Some id -> last (calls s) = Some (id, None) -> Commit id s = (s', Ok tt) ->
  txn_inv v0 s a -> txn_inv v0 s' (iv_step a (TCommit id)).
Proof.
  intros Hw Hc E [H1 H2 H3 H4]. pose proof (H4 id Hw Hc) as He. destruct (H3 He) as [Hst Hser].
  unfold Commit in E. destruct (end_commit_law (client s)) as [Cv _].
  destruct (EndTransaction true (client s)) as [k [[]|e]]; [|done]. cbn in Cv.
  eapply reopen_inv; [..|exact E]; cbn; try done.
  - rewrite Cv, H1, Hst, Hw by done. rewrite bind_app. cbn. by rewrite app_nil_r, <- app_assoc.
  - apply Forall_app. split; [done|]. by constructor.
Qed.

Lemma abort_inv v0 id s s' a :
  waiter s = Some id -> Abort id s = (s', Ok tt) -> txn_inv v0 s a -> txn_inv v0 s' (iv_step a (TAbort id)).
Proof.
  intros Hw E [H1 H2 H3 H4]. unfold Abort in E. pose proof (abort_buffered_law (client s)) as Ab.
  destruct (AbortBufferedRecords (client s)) as [k [[]|e]]; [|done]. cbn in *.
  pose proof (end_abort_law k) as Ea. destruct (EndTransaction false k) as [k' [[]|e]]; [|done]. cbn in *.
  eapply reopen_inv; [..|exact E]; cbn; try done. by rewrite Ea, Ab.
Qed.

Lemma run_inv k s0 evs s :
  write_open k = (s0, Ok tt) -> txn_run s0 evs s -> txn_inv (visible k) s (intervals_of evs).
Proof.
  intros Ho Hr. assert (H0 : txn_inv (visible k) s0 (mkIv [] [])).
  { unfold write_open in Ho. destruct (begin_law k) as [Bv Bs]. destruct (BeginTransaction k) as [k' r].
    injection Ho as <- ->. cbn in *. split; cbn; [by rewrite app_nil_r|done|by rewrite Bs|done]. }
  unfold intervals_of. induction Hr as [|evs s1 r Hr IH Hw|evs s1 s2 id Hr IH Hw Hc E|evs s1 s2 id Hr IH Hw E]; [exact H0|..];
    rewrite foldl_app; cbn [foldl].
  - by apply write_record_inv.
  - by eapply commit_inv.
  - by eapply abort_inv.
Qed.

(** C5: transactional output.  Whatever happens to the transactions, the
    read-committed output is exactly the committed intervals, in order: each
    holds every record between its barrier and the previous boundary, as
    serialized, followed by its marker; aborted and open intervals leave
    nothing. *)
Theorem txn_output_atomic k s0 evs s :
  write_open k = (s0, Ok tt) -> txn_run s0 evs s ->
  visible (client s) = visible k ++ (done (intervals_of evs) ≫= interval_out) /\
  Forall (λ iv : bytes * list Rec, Forall serializes iv.2) (done (intervals_of evs)) /\
  visible (client (write_close s)) = visible (client s).
Proof.
  intros Ho Hr. destruct (run_inv k s0 evs s Ho Hr) as [H1 H2 _ _]. split_and!; [done|done|].
  unfold write_close. cbn. by rewrite end_abort_law, abort_buffered_law.
Qed.

(** A commit that reports an error is all or nothing: the prepared
    interval and its marker are visible together, or neither is. *)
Theorem txn_commit_error_atomic k s0 evs s id s' e :
  write_open k = (s0, Ok tt) -> txn_run s0 evs s -> waiter s = Some id -> last (calls s) = Some (id, None) ->
  Commit id s = (s', Err e) ->
  visible (client s') = visible (client s) \/
  visible (client s') = visible (client s) ++ interval_out (id, cur (intervals_of evs)).
Proof.
  intros Ho Hr Hw Hc E. destruct (run_inv k s0 evs s Ho Hr) as [H1 H2 H3 H4]. destruct (H3 (H4 id Hw Hc)) as [Hst _].
  unfold interval_out. cbn. unfold Commit in E. destruct (end_commit_law (client s)) as [Cv Cv'].
  replace ((krec_of <$> cur (intervals_of evs)) ++ [marker id]) with (staged (client s)) by (by rewrite Hst, Hw).
  destruct (EndTransaction true (client s)) as [k' [[]|e']]; cbn in *; [|by injection E as <- <-].
  unfold reopen in E. cbn in E. destruct (begin_law k') as [Bv _]. destruct (BeginTransaction k') as [k'' [[]|e'']]; [done|].
  injection E as <- <-. cbn in *. right. by rewrite Bv, Cv.
Qed.

(** ** The marker probe decides *)

Definition names (id : bytes) (r : krec) : bool :=
  bool_decide (str (k_Key r) = c_txnID cfg) && bool_decide (str (k_Value r) = id).

(** No two empty polls in a row before the log is exhausted. *)
Fixpoint no_stall (chunks : list (list krec)) : Prop :=
  match chunks with
  | [] => True
  | [] :: rest => match rest with (_ :: _) :: _ => no_stall rest | _ => False end
  | (_ :: _) :: rest => no_stall rest
  end.

Lemma probe_loop_spec id n chunks rest :
  no_stall chunks -> (n = 0%nat \/ (n = 1%nat /\ exists c cs, head chunks = Some (c :: cs))) ->
  probe_loop id n ((Ok <$> chunks) ++ [Ok []; Ok []] ++ rest) = Ok (existsb (names id) (concat chunks)).
Proof.
  revert n. induction chunks as [|[|c cs] chunks IH]; intros n Hs Hn.
  - destruct Hn as [->|(_ & ? & ? & E)]; [done|discriminate E].
  - destruct Hn as [->|(_ & ? & ? & E)]; [|discriminate E]. cbn [fmap list_fmap app probe_loop existsb].
    change (2 <=? 0 + 1)%nat with false. cbv iota. cbn [concat app]. cbn [no_stall] in Hs.
    destruct chunks as [|[|c cs] chunks]; [done|done|]. apply (IH 1%nat); [exact Hs|]. right. split; [done|]. cbn. eauto.
  - change (concat ((c :: cs) :: chunks)) with ((c :: cs) ++ concat chunks). rewrite existsb_app.
    change ((Ok <$> (c :: cs) :: chunks) ++ [Ok []; Ok []] ++ rest)
      with (Ok (c :: cs) :: ((Ok <$> chunks) ++ [Ok []; Ok []] ++ rest)). cbn [probe_loop].
    change (existsb (λ r, bool_decide (str (k_Key r) = c_txnID cfg) && bool_decide (str (k_Value r) = id)) (c :: cs))
      with (existsb (names id) (c :: cs)).
    destruct (existsb (names id) (c :: cs)); [done|]. cbn [orb]. apply (IH 0%nat); [exact Hs|by left].
Qed.

(** The marker topic of a log. *)
Definition marker_log (l : list krec) : list krec := List.filter (λ r, bool_decide (k_Topic r = c_markerTopic cfg)) l.

Lemma marker_log_interval iv : c_markerTopic cfg <> [] -> marker_log (interval_out iv) = [marker iv.1].
Proof.
  intros Ht. unfold marker_log, interval_out. rewrite List.filter_app. cbn. rewrite bool_decide_true by done.
  replace (List.filter _ (krec_of <$> iv.2)) with (@nil krec); [done|].
  induction iv.2 as [|r l IH]; [done|]. cbn. by rewrite bool_decide_false by congruence.
Qed.
Lemma marker_log_intervals ivs : c_markerTopic cfg <> [] -> marker_log (ivs ≫= interval_out) = marker <$> ivs.*1.
Proof.
  intros Ht. induction ivs as [|iv ivs IH]; [done|]. rewrite bind_cons. unfold marker_log in *. rewrite List.filter_app.
  fold (marker_log (interval_out iv)). rewrite marker_log_interval by done. cbn. by rewrite IH.
Qed.
Lemma names_markers id ids : existsb (names id) (marker <$> ids) = bool_decide (id ∈ ids).
Proof.
  induction ids as [|x ids IH]; [done|]. cbn [fmap list_fmap existsb]. rewrite IH. unfold names. cbn.
  rewrite bool_decide_true by done. cbn [andb]. repeat case_bool_decide; subst; set_solver.
Qed.

(** The recovery probe decides whether a checkpoint committed.  When the
    polls bring the marker topic of the committed output in order, without two
    empty polls before its end, [WasCommitted] answers true exactly for the
    checkpoints whose interval was committed. *)
Theorem probe_decides_commit k s0 evs s id chunks rest hasData :
  write_open k = (s0, Ok tt) -> txn_run s0 evs s -> c_markerTopic cfg <> [] ->
  existsb (names id) (visible k) = false ->
  concat chunks = marker_log (visible (client s)) -> no_stall chunks ->
  (hasData = false -> marker_log (visible (client s)) = []) ->
  WasCommitted (Ok hasData) ((Ok <$> chunks) ++ [Ok []; Ok []] ++ rest) id
  = Ok (bool_decide (id ∈ (done (intervals_of evs)).*1)).
Proof.
  intros Ho Hr Ht Hold Hlog Hns Hd. destruct (run_inv k s0 evs s Ho Hr) as [H1 _ _ _].
  assert (Hm : existsb (names id) (marker_log (visible (client s))) = bool_decide (id ∈ (done (intervals_of evs)).*1)).
  { rewrite H1. unfold marker_log. rewrite List.filter_app, existsb_app. fold (marker_log (done (intervals_of evs) ≫= interval_out)).
    rewrite marker_log_intervals, names_markers by done.
    replace (existsb (names id) (List.filter _ (visible k))) with false; [done|]. symmetry.
    clear -Hold. induction (visible k) as [|r l IH]; [done|]. cbn in *. apply orb_false_iff in Hold as [E1 E2].
    case_bool_decide; cbn; rewrite ?E1; auto. }
  unfold WasCommitted. destruct hasData.
  - rewrite probe_loop_spec by (done || by left). by rewrite Hlog, Hm.
  - rewrite Hd in Hm by done. by rewrite <- Hm.
Qed.
End Sink.

(** ** A concrete client *)

(** A broker in memory.  Records with the key "lost" fail to be produced; when
    the broker is down, a commit takes effect but its reply is lost. *)
Record memBroker : Type := mkBroker { mb_visible : list krec; mb_staged : list krec; mb_down : bool }.
#[export] Instance mem_client : TxnClient memBroker := {
  BeginTransaction k := (mkBroker (mb_visible k) [] (mb_down k), Ok tt);
  Produce r k := if bool_decide (k_Key r = Some (b "lost")) then (k, Some "produce failed")
                 else (mkBroker (mb_visible k) (mb_staged k ++ [r]) (mb_down k), None);
  Flush k := (k, Ok tt);
  AbortBufferedRecords k := (k, Ok tt);
  EndTransaction c k :=
    if c then (mkBroker (mb_visible k ++ mb_staged k) [] (mb_down k), if mb_down k then Err "timeout" else Ok tt)
    else (mkBroker (mb_visible k) [] (mb_down k), Ok tt);
  visible := mb_visible; staged := mb_staged;
}.
#[export] Instance mem_client_laws : TxnClientLaws memBroker.
Proof.
  split; cbn; try done.
  - intros r k. by case_bool_decide.
  - intros k. split; [done|by right].
Qed.

Definition demo_cfg : txnKafkaConfig := mkTxnCfg (b "out") (b "txn-1") (b "out.checkpoints") None.
Example demo_cfg_built : NewTxnKafkaSink [b "kafka:9092"] (b "out") (b "txn-1") [] None None = Ok demo_cfg.
Proof. reflexivity. Qed.
Definition rec_v (v : string) : Rec := NewRecord 0 (Some (b "k")) (Some (b v)).
Abbreviation demo_sink := (TxnKafkaSink memBroker).
Definition broker0 : memBroker := mkBroker [] [] false.
Definition sink0 : demo_sink := (write_open broker0).1.

(** One interval committed, the next aborted. *)
Definition demo_events : list tev :=
  [TRec (rec_v "a"); TRec (NewBarrier (b "cp-1")); TCommit (b "cp-1"); TRec (rec_v "b"); TRec (NewBarrier (b "cp-2")); TAbort (b "cp-2")].
Definition apply_tev (s : demo_sink) (e : tev) : demo_sink :=
  match e with
  | TRec r => write_record demo_cfg r s
  | TCommit id => (Commit id s).1
  | TAbort id => (Abort id s).1
  end.
Definition demo_end : demo_sink := foldl apply_tev sink0 demo_events.

Definition demo_at (n : nat) : demo_sink := foldl apply_tev sink0 (take n demo_events).
Lemma demo_run : txn_run demo_cfg sink0 demo_events demo_end.
Proof.
  apply (run_abort demo_cfg sink0 (take 5 demo_events) (demo_at 5) demo_end (b "cp-2")); [|reflexivity|reflexivity].
  apply (run_rec demo_cfg sink0 (take 4 demo_events) (demo_at 4)); [|reflexivity].
  apply (run_rec demo_cfg sink0 (take 3 demo_events) (demo_at 3)); [|reflexivity].
  apply (run_commit demo_cfg sink0 (take 2 demo_events) (demo_at 2) (demo_at 3) (b "cp-1")); [|reflexivity..].
  apply (run_rec demo_cfg sink0 (take 1 demo_events) (demo_at 1)); [|reflexivity].
  apply (run_rec demo_cfg sink0 [] sink0); [|reflexivity]. apply run_start.
Qed.

Lemma txn_output_atomic_witness :
  mb_visible (client demo_end) = [krec_of demo_cfg (rec_v "a"); marker demo_cfg (b "cp-1")].
Proof.
  destruct (txn_output_atomic demo_cfg broker0 sink0 demo_events demo_end) as [H _]; [reflexivity|exact demo_run|exact H].
Defined.

(** The same commit with its reply lost. *)
Definition prepared1 : demo_sink := foldl apply_tev sink0 (take 2 demo_events).
Definition downed (s : demo_sink) : demo_sink := set_client (mkBroker (mb_visible (client s)) (mb_staged (client s)) true) s.
Definition sink_down : demo_sink := (write_open (mkBroker [] [] true)).1.
Lemma down_run : txn_run demo_cfg sink_down (take 2 demo_events) (downed prepared1).
Proof.
  replace (downed prepared1) with (write_record demo_cfg (NewBarrier (b "cp-1")) (downed (demo_at 1))) by (vm_compute; reflexivity).
  apply (run_rec demo_cfg sink_down (take 1 demo_events) (downed (demo_at 1)) (NewBarrier (b "cp-1"))); [|reflexivity].
  replace (downed (demo_at 1)) with (write_record demo_cfg (rec_v "a") sink_down) by (vm_compute; reflexivity).
  apply (run_rec demo_cfg sink_down [] sink_down (rec_v "a")); [|reflexivity]. apply run_start.
Qed.
Lemma txn_commit_error_atomic_witness :
  let s' := (Commit (b "cp-1") (downed prepared1)).1 in
  (Commit (b "cp-1") (downed prepared1)).2 = Err "timeout" /\
  (mb_visible (client s') = [] \/ mb_visible (client s') = interval_out demo_cfg (b "cp-1", [rec_v "a"])).
Proof.
  split; [reflexivity|].
  destruct (txn_commit_error_atomic demo_cfg (mkBroker [] [] true) sink_down (take 2 demo_events) (downed prepared1) (b "cp-1")
    (Commit (b "cp-1") (downed prepared1)).1 "timeout") as [H|H]; [vm_compute; reflexivity|exact down_run|vm_compute; reflexivity..| |];
    [left|right]; (etransitivity; [exact H|vm_compute; reflexivity]).
Defined.

Lemma probe_decides_commit_witness :
  WasCommitted demo_cfg (Ok true) [Ok [marker demo_cfg (b "cp-1")]; Ok []; Ok []] (b "cp-1") = Ok true /\
  WasCommitted demo_cfg (Ok true) [Ok [marker demo_cfg (b "cp-1")]; Ok []; Ok []] (b "cp-2") = Ok false.
Proof.
  assert (H : forall id, WasCommitted demo_cfg (Ok true) [Ok [marker demo_cfg (b "cp-1")]; Ok []; Ok []] id
    = Ok (bool_decide (id ∈ (done (intervals_of demo_events)).*1))).
  { intros id. apply (probe_decides_commit demo_cfg broker0 sink0 demo_events demo_end id [[marker demo_cfg (b "cp-1")]] [] true);
      first [exact demo_run | done | vm_compute; reflexivity]. }
  split; (etransitivity; [apply H|]); vm_compute; reflexivity.
Defined.

(** Aborting one checkpoint and committing the next loses output: after an
    abort the sink goes on in a fresh transaction, so the records of the
    aborted interval are in no transaction, while the next checkpoint's
    offsets lie behind them. *)
Theorem abort_then_commit_loses :
  let s := foldl apply_tev sink0 [TRec (rec_v "a"); TRec (NewBarrier (b "cp-1")); TAbort (b "cp-1");
                                  TRec (rec_v "b"); TRec (NewBarrier (b "cp-2")); TCommit (b "cp-2")] in
  calls s = [(b "cp-1", None); (b "cp-2", None)] /\
  mb_visible (client s) = [krec_of demo_cfg (rec_v "b"); marker demo_cfg (b "cp-2")].
Proof. vm_compute. done. Qed.
