(* ===== verification/Source.v ===== *)
(** * Package source: the Kafka source

    Offset tracking and its checkpoint form, delivery with a deserializer,
    fetch and commit with retries, and the single-reader loop.  The kafka-go
    reader is seen through the results of its calls. *)
From stdpp Require Import pretty.
From S2P Require Import Prelude GoTime Strconv Types Json Engine.

Record kmsg : Type := mkMsg {
  m_Partition : Z; m_Offset : Z; m_Key : slice; m_Value : slice; m_Time : Z; m_Headers : list (bytes * slice);
}.

(** ** Offset tracker *)

Record offsetTracker : Type := mkTracker { consumed : gmap Z Z; restored : gmap Z Z }.
Definition newOffsetTracker : offsetTracker := mkTracker ∅ ∅.
Definition track_msg (m : kmsg) (t : offsetTracker) : offsetTracker :=
  mkTracker (<[m_Partition m := wrap64 (m_Offset m + 1)]> (consumed t)) (restored t).

(** [fmt.Sscanf(s, "%d", &n)] into a zero [n]: sign, digits, rest ignored; [n]
    stays 0 when there is no number or it does not fit.  (Leading blanks, which
    no writer of these keys produces, are not skipped.) *)
Definition sscanf_d (s : bytes) : Z :=
  let '(neg, s) := cut_sign s in
  match (span_digits s).1 with
  | [] => 0
  | ds => let n := with_sign neg (digits_val 0 ds) in if decide (int64 n) then n else 0
  end.

(** Decoding JSON into a [map[string]int64]; null leaves the nil map. *)
Definition decode_offsets (j : json) : result (gmap bytes Z) :=
  match j with
  | JNull => Ok ∅
  | JObj fs =>
      foldl (λ acc kv, m ← acc; match kv.2 with
        | JNum n => if decide (int64 n) then Ok (<[kv.1 := n]> m) else Err "cannot unmarshal number"
        | _ => Err "cannot unmarshal" end) (Ok ∅) fs
  | _ => Err "cannot unmarshal"
  end.

Section Offsets.
Context `{JT : JSONText}.

Definition snapshot_offsets (t : offsetTracker) : bytes := offsets_json (consumed t).
Definition restore_offsets (data : bytes) (t : offsetTracker) : result offsetTracker :=
  match json_parse data with
  | None => Err "restore offset: unmarshal"
  | Some j =>
      offsets ← decode_offsets j;
      Ok (foldl (λ t kv, mkTracker (<[sscanf_d kv.1 := kv.2]> (consumed t)) (<[sscanf_d kv.1 := kv.2]> (restored t)))
            t (map_to_list offsets))
  end.
Definition hasRestored (t : offsetTracker) : bool := negb (bool_decide (restored t = ∅)).
Definition restoredOffset (part : Z) (t : offsetTracker) : option Z := restored t !! part.

(** The messages [CommitOffsets] hands to the broker. *)
Definition commit_msgs (offsets : gmap bytes Z) : list (Z * Z) :=
  (λ kv : bytes * Z, (sscanf_d kv.1, kv.2 - 1)) <$> List.filter (λ kv : bytes * Z, 0 <? kv.2) (map_to_list offsets).
End Offsets.

(** ** Delivery *)

Inductive DeserFailurePolicy : Type := DeserFailureDrop | DeserFailureDLQ | DeserFailureFail.
Record deliveryCoordinator : Type := mkDelivery {
  deserializer : option (slice -> gmap bytes slice -> result any);
  deserFailPolicy : DeserFailurePolicy;
  hasDeserDLQ : bool;
}.

Definition KafkaToRecord (m : kmsg) : Rec :=
  mkRec (m_Key m) (m_Value m) (m_Time m) (m_Offset m) (m_Partition m)
    (foldl (λ h kv, <[kv.1 := kv.2]> h) ∅ (m_Headers m)) AnyNil false false [].

Definition set_Parsed (v : any) (r : Rec) : Rec :=
  mkRec (Key r) (Value r) (Timestamp r) (Offset r) (Partition r) (Headers r) v (IsWatermark r) (IsBarrier r) (CheckpointID r).

(** The record, or [None] when it is dropped; and the dead letters. *)
Definition toRecord (d : deliveryCoordinator) (m : kmsg) (q : list Rec) : option Rec * list Rec :=
  let record := KafkaToRecord m in
  match deserializer d with
  | None => (Some record, q)
  | Some f =>
      match f (Value record) (Headers record) with
      | Err e =>
          match deserFailPolicy d with
          | DeserFailureDLQ =>
              (None, if hasDeserDLQ d then q ++ [WithHeader record (b "_deser_error") (Some (b e))] else q)
          | DeserFailureFail => (None, q)
          | DeserFailureDrop => (None, q)
          end
      | Ok v => (Some (set_Parsed v record), q)
      end
  end.

(** ** Retries *)

Definition fetch_backoff (attempt : Z) : Z := if 30 * Second <? shifted attempt then 30 * Second else shifted attempt.

(** What a call to the broker does: succeed, fail, or see the context end
    (during the call or during the wait that follows a failure). *)
Inductive call (A : Type) : Type := CallOk (a : A) | CallErr (e : string) | CallCancel.
Arguments CallOk {A} a.
Arguments CallErr {A} e.
Arguments CallCancel {A}.

(** [fetchWithRetry]: the result, the calls left and the waits. *)
Fixpoint fetch_loop (maxAttempts attempt : Z) (calls : list (call kmsg)) : result kmsg * list (call kmsg) * list Z :=
  if (maxAttempts <? 0) || (attempt <=? maxAttempts) then
    match calls with
    | [] => (Err "context canceled", [], [])
    | CallOk m :: calls => (Ok m, calls, [])
    | CallCancel :: calls => (Err "context canceled", calls, [])
    | CallErr e :: calls =>
        let waits := if (maxAttempts <? 0) || (attempt <? maxAttempts) then [fetch_backoff attempt] else [] in
        let '(r, rest, ws) := fetch_loop maxAttempts (attempt + 1) calls in (r, rest, waits ++ ws)
    end
  else (Err "kafka fetch failed", calls, []).
Definition fetchWithRetry (maxAttempts : Z) (calls : list (call kmsg)) : result kmsg * list (call kmsg) * list Z :=
  fetch_loop maxAttempts 0 calls.

Inductive CommitPolicy : Type := CommitPolicySkip | CommitPolicyFail.

(** [commitWithRetry]: whether the commit took, and what the caller gets. *)
Fixpoint commit_loop (maxRetries attempt : Z) (policy : CommitPolicy) (calls : list (call unit))
  : bool * result unit * list (call unit) :=
  if attempt <=? maxRetries then
    match calls with
    | [] => (false, Err "context canceled", [])
    | CallOk _ :: calls => (true, Ok tt, calls)
    | CallCancel :: calls => (false, Err "context canceled", calls)
    | CallErr _ :: calls => commit_loop maxRetries (attempt + 1) policy calls
    end
  else match policy with
       | CommitPolicyFail => (false, Err "kafka commit failed", calls)
       | CommitPolicySkip => (false, Ok tt, calls)
       end.
Definition commitWithRetry (maxRetries : Z) (policy : CommitPolicy) (calls : list (call unit)) :=
  commit_loop maxRetries 0 policy calls.

(** [CommitOffsets]: the commit call and whether it took; nothing outside a
    consumer group, nothing when no offset is positive. *)
Definition CommitOffsets `{JT : JSONText} (groupID : bytes) (maxRetries : Z) (policy : CommitPolicy) (data : bytes)
    (calls : list (call unit)) : option (list (Z * Z) * bool) * result unit :=
  if bool_decide (groupID = []) then (None, Ok tt)
  else match json_parse data ≫= (λ j, match decode_offsets j with Ok m => Some m | Err _ => None end) with
  | None => (None, Err "commit offsets: unmarshal")
  | Some offsets =>
      match commit_msgs offsets with
      | [] => (None, Ok tt)
      | msgs => let '(took, r, _) := commitWithRetry maxRetries policy calls in (Some (msgs, took), r)
      end
  end.

(** ** The single-reader loop *)

Record kafkaConfig : Type := mkKCfg {
  exactlyOnce : bool; commitBatch : Z; fetchMaxRetries : Z; commitMaxRetries : Z; commitFailPolicy : CommitPolicy;
}.
Record KafkaSource : Type := mkKS {
  offsets_ : offsetTracker; kpending : list kmsg; kout : list Rec; kdlq : list Rec;
  attempted : list (list kmsg * bool);          (* commit calls and whether they took *)
}.
Definition newKafkaSource : KafkaSource := mkKS newOffsetTracker [] [] [] [].

(** One fetched message; [emitted] is false when the context ends instead of
    the send, [commits] are the broker's answers to commit calls. *)
Definition serial_step (cfg : kafkaConfig) (d : deliveryCoordinator) (m : kmsg) (emitted : bool)
    (commits : list (call unit)) (s : KafkaSource) : KafkaSource * result unit :=
  let t := track_msg m (offsets_ s) in
  let '(rec, q) := toRecord d m (kdlq s) in
  match rec with
  | None => (mkKS t (kpending s) (kout s) q (attempted s), Ok tt)
  | Some r =>
      if negb emitted then (mkKS t (kpending s) (kout s) q (attempted s), Err "context canceled")
      else
        let out := kout s ++ [r] in
        if exactlyOnce cfg then (mkKS t (kpending s) out q (attempted s), Ok tt)
        else if 0 <? commitBatch cfg then
          let pending := kpending s ++ [m] in
          if commitBatch cfg <=? Z.of_nat (length pending) then
            let '(took, r, _) := commitWithRetry (commitMaxRetries cfg) (commitFailPolicy cfg) commits in
            (mkKS t [] out q (attempted s ++ [(pending, took)]), r)
          else (mkKS t pending out q (attempted s), Ok tt)
        else
          let '(took, r, _) := commitWithRetry (commitMaxRetries cfg) (commitFailPolicy cfg) commits in
          (mkKS t (kpending s) out q (attempted s ++ [([m], took)]), r)
  end.

(** The loop over what the reader fetches; it ends with the first error. *)
Fixpoint runSerial (cfg : kafkaConfig) (d : deliveryCoordinator)
    (script : list (kmsg * bool * list (call unit))) (s : KafkaSource) : KafkaSource * result unit :=
  match script with
  | [] => (s, Err "context canceled")
  | (m, emitted, commits) :: script =>
      match serial_step cfg d m emitted commits s with
      | (s, Err e) => (s, Err e)
      | (s, Ok _) => runSerial cfg d script s
      end
  end.

(** [Drain]: commit what is still pending on a graceful shutdown. *)
Definition Drain (cfg : kafkaConfig) (parallel : bool) (commits : list (call unit)) (s : KafkaSource) : KafkaSource * result unit :=
  if parallel || exactlyOnce cfg then (s, Ok tt)
  else match kpending s with
  | [] => (s, Ok tt)
  | p => let '(took, r, _) := commitWithRetry (commitMaxRetries cfg) (commitFailPolicy cfg) commits in
         (mkKS (offsets_ s) p (kout s) (kdlq s) (attempted s ++ [(p, took)]), r)
  end.

(** ** Decimal texts *)

(** Reading back what [strconv.Itoa] wrote. *)
Lemma sscanf_dec p : int64 p -> sscanf_d (dec_ p) = p.
Proof.
  intros Hp. unfold sscanf_d. destruct (dec_cut p) as (ds & -> & H1 & H2 & H3).
  rewrite span_all by done. cbn [fst]. destruct ds as [|c ds]; [done|]. rewrite H3. unfold with_sign.
  replace (if p <? 0 then - Z.abs p else Z.abs p) with p by (destruct (Z.ltb_spec p 0); lia). by rewrite decide_True.
Qed.

Lemma dec_utf8 p : utf8_valid (dec_ p).
Proof. apply coerce_ascii, dec_ascii. Qed.

(** ** Offsets survive a checkpoint *)

Definition num_field (kv : bytes * json) : Prop := exists n, kv.2 = JNum n /\ int64 n.
Lemma decode_fold fs m0 :
  Forall num_field fs ->
  foldl (λ (acc : result (gmap bytes Z)) kv, m ← acc; match kv.2 with
      | JNum n => if decide (int64 n) then Ok (<[kv.1 := n]> m) else Err "cannot unmarshal number"
      | _ => Err "cannot unmarshal" end) (Ok m0) fs
  = Ok (foldl (λ m kv, <[kv.1 := jint kv.2]> m) m0 fs).
Proof.
  intros H. revert m0. induction H as [|[k v] fs (n & E & Hn) _ IH]; intros m0; [done|].
  cbn [foldl fst snd mbind result_bind] in *. subst v. rewrite decide_True by done. apply IH.
Qed.

Lemma decode_marshal (m : gmap bytes Z) :
  (forall k v, m !! k = Some v -> utf8_valid k /\ int64 v) -> decode_offsets (marshal_map JNum m) = Ok m.
Proof.
  intros Hm. unfold decode_offsets, marshal_map. rewrite decode_fold.
  - f_equal. apply (unmarshal_marshal_map JNum jint); [done|]. intros k [v Hk]. by apply (Hm k v).
  - apply Forall_forall. intros kv (x & -> & Hin)%list_elem_of_fmap. rewrite merge_sort_Permutation in Hin.
    destruct x as [k v]. apply elem_of_map_to_list in Hin. exists v. split; [done|]. by apply (Hm k v).
Qed.

Section OffsetProofs.
Context `{JT : JSONText}.

Lemma restore_offsets_fold (l : list (bytes * Z)) t :
  foldl (λ t kv, mkTracker (<[sscanf_d kv.1 := kv.2]> (consumed t)) (<[sscanf_d kv.1 := kv.2]> (restored t))) t l
  = mkTracker (foldl (λ m kv, <[sscanf_d kv.1 := kv.2]> m) (consumed t) l)
              (foldl (λ m kv, <[sscanf_d kv.1 := kv.2]> m) (restored t) l).
Proof. revert t. induction l as [|kv l IH]; intros t; [by destruct t|]. cbn [foldl]. by rewrite IH. Qed.

Lemma foldl_keys (l : list (bytes * Z)) (m0 : gmap Z Z) :
  NoDup (sscanf_d <$> l.*1) ->
  foldl (λ m kv, <[sscanf_d kv.1 := kv.2]> m) m0 l = list_to_map ((λ kv, (sscanf_d kv.1, kv.2)) <$> l) ∪ m0.
Proof.
  revert m0. induction l as [|[k v] l IH]; intros m0 Hnd;
    [cbn [foldl fmap list_fmap list_to_map foldr]; by rewrite map_empty_union|]. cbn [fmap list_fmap foldl fst snd] in *.
  apply NoDup_cons in Hnd as [Hk Hnd]. rewrite IH by done. cbn [list_to_map foldr fst snd].
  rewrite <- insert_union_r; [by rewrite insert_union_l|]. apply not_elem_of_list_to_map_1.
  rewrite <- list_fmap_compose. intros Hin. apply Hk. by rewrite <- list_fmap_compose.
Qed.

Lemma restore_aligned (m : gmap Z Z) (t : offsetTracker) :
  (forall p o, m !! p = Some o -> int64 p /\ int64 o) ->
  restore_offsets (offsets_json m) t = Ok (mkTracker (m ∪ consumed t) (m ∪ restored t)).
Proof.
  intros Hm. unfold restore_offsets, offsets_json. rewrite json_parse_print. rewrite decode_marshal.
  2: { intros k v (p & -> & Hp)%lookup_kmap_Some; [|apply _]. split; [apply dec_utf8|by apply (Hm p)]. }
  cbn [mbind result_bind]. f_equal. rewrite restore_offsets_fold.
  assert (Hl : map_to_list (kmap dec_ m : gmap bytes Z) ≡ₚ (λ kv, (dec_ kv.1, kv.2)) <$> map_to_list m).
  { rewrite map_to_list_kmap by apply _. apply reflexive_eq. apply list_fmap_ext. by intros i [p o] _. }
  assert (Hback : forall x, x ∈ map_to_list m -> sscanf_d (dec_ x.1) = x.1).
  { intros [p o] Hx. apply elem_of_map_to_list in Hx. by apply sscanf_dec, (Hm p o). }
  assert (Hkeys : sscanf_d <$> (map_to_list (kmap dec_ m : gmap bytes Z)).*1 ≡ₚ (map_to_list m).*1).
  { rewrite Hl. rewrite <- !list_fmap_compose. apply reflexive_eq. apply list_fmap_ext. intros i x Hx.
    by apply Hback, (list_elem_of_lookup_2 _ i). }
  assert (Hnd : NoDup (sscanf_d <$> (map_to_list (kmap dec_ m : gmap bytes Z)).*1)).
  { rewrite Hkeys. apply NoDup_fst_map_to_list. }
  rewrite !foldl_keys by done.
  replace (list_to_map _ : gmap Z Z) with m; [done|]. symmetry.
  transitivity (list_to_map (map_to_list m) : gmap Z Z); [|apply list_to_map_to_list].
  apply list_to_map_proper.
  - rewrite <- list_fmap_compose. cbn. change (fst ∘ _) with (sscanf_d ∘ (@fst bytes Z)). by rewrite list_fmap_compose.
  - rewrite Hl, <- list_fmap_compose. apply reflexive_eq. rewrite <- (list_fmap_id (map_to_list m)) at 2. apply list_fmap_ext.
    intros i [p o] Hx. cbn. f_equal. by apply (Hback (p, o)), (list_elem_of_lookup_2 _ i).
Qed.

(** Offsets survive a checkpoint.  A tracker restored from another
    tracker's snapshot (the form the injector's barrier-aligned offsets have
    too) seeks every
    partition of it to its next offset, and carries it into the next snapshot
    even if the partition stays quiet; what it consumed before is kept for the
    other partitions. *)
Theorem offsets_roundtrip (t0 t : offsetTracker) (p : Z) :
  (forall p o, consumed t0 !! p = Some o -> int64 p /\ int64 o) ->
  exists t', restore_offsets (snapshot_offsets t0) t = Ok t' /\
    restoredOffset p t' = (match consumed t0 !! p with Some o => Some o | None => restoredOffset p t end) /\
    consumed t' !! p = (match consumed t0 !! p with Some o => Some o | None => consumed t !! p end).
Proof.
  intros Hm. eexists. split; [by apply restore_aligned|]. unfold restoredOffset. cbn [consumed restored].
  set (m := consumed t0). split; rewrite lookup_union; destruct (m !! p); cbn; [by rewrite union_Some_l|by rewrite (left_id None union)|
    by rewrite union_Some_l|by rewrite (left_id None union)].
Qed.
End OffsetProofs.

Lemma offsets_roundtrip_witness :
  let t0 := mkTracker {[ 0 := 8; 3 := 1 ]} ∅ in
  exists t', restore_offsets (snapshot_offsets t0) newOffsetTracker = Ok t' /\
    restoredOffset 3 t' = Some 1 /\ consumed t' !! 3 = Some 1.
Proof.
  intros t0. destruct (offsets_roundtrip t0 newOffsetTracker 3) as (t1 & E1 & H1 & H2).
  - intros p o. cbn [consumed t0]. intros [[<- <-]|[_ [<- <-]%lookup_singleton_Some]]%lookup_insert_Some; done.
  - exists t1. split; [exact E1|]. split; [exact H1|exact H2].
Defined.

(** ** The single-reader loop *)

(** The record of a message, if it is delivered. *)
Definition rec_of (d : deliveryCoordinator) (m : kmsg) : option Rec := (toRecord d m []).1.
Lemma toRecord_rec d m q : (toRecord d m q).1 = rec_of d m.
Proof. unfold rec_of, toRecord. by repeat case_match. Qed.

Definition kept (d : deliveryCoordinator) (m : kmsg) : bool := bool_decide (is_Some (rec_of d m)).

Record serial_inv (cfg : kafkaConfig) (d : deliveryCoordinator) (l : list kmsg) (s : KafkaSource) : Prop := {
  si_out : kout s = omap (rec_of d) l;
  si_commit : concat (attempted s).*1 ++ kpending s = if exactlyOnce cfg then [] else List.filter (kept d) l;
  si_batch : 0 < commitBatch cfg -> Z.of_nat (length (kpending s)) < commitBatch cfg;
  si_eager : commitBatch cfg <= 0 -> kpending s = [];
}.

Lemma omap_snoc {A C} (f : A -> option C) l x : omap f (l ++ [x]) = omap f l ++ match f x with Some y => [y] | None => [] end.
Proof. rewrite omap_app. cbn. by destruct (f x). Qed.
Lemma filter_snoc {A} (f : A -> bool) l x : List.filter f (l ++ [x]) = List.filter f l ++ if f x then [x] else [].
Proof. by rewrite List.filter_app. Qed.

Lemma serial_step_inv cfg d l m emitted commits s s' r :
  serial_inv cfg d l s -> serial_step cfg d m emitted commits s = (s', r) ->
  (serial_inv cfg d (l ++ [m]) s' \/ (emitted = false /\ r = Err "context canceled" /\ serial_inv cfg d l s')) /\
  offsets_ s' = track_msg m (offsets_ s).
Proof.
  intros [H1 H2 H3 H4] E. unfold serial_step in E. cbv zeta in E. pose proof (toRecord_rec d m (kdlq s)) as Hr.
  destruct (toRecord d m (kdlq s)) as [rec q]. cbn in Hr. subst rec.
  assert (Hk : kept d m = match rec_of d m with Some _ => true | None => false end)
    by (unfold kept; destruct (rec_of d m); [by apply bool_decide_true|apply bool_decide_false; by intros [? ?]]).
  destruct (rec_of d m) as [rc|] eqn:Er.
  2: { injection E as <- <-. split; [|done]. left. split; cbn; rewrite ?omap_snoc, ?filter_snoc, ?Er, ?Hk, ?app_nil_r; done. }
  destruct emitted; cbn [negb] in E; [|injection E as <- <-; split; [by right|done]].
  assert (Ho : kout s ++ [rc] = omap (rec_of d) (l ++ [m])) by (by rewrite omap_snoc, Er, H1).
  destruct (exactlyOnce cfg) eqn:Ex.
  { injection E as <- <-. split; [|done]. left. split; cbn; rewrite ?Ex; done. }
  assert (Hc : (concat (attempted s).*1 ++ kpending s) ++ [m] = List.filter (kept d) (l ++ [m])) by (by rewrite filter_snoc, Hk, H2).
  destruct (Z.ltb_spec 0 (commitBatch cfg)).
  - destruct (Z.leb_spec (commitBatch cfg) (Z.of_nat (length (kpending s ++ [m])))).
    + destruct (commitWithRetry _ _ commits) as [[took r'] rest]. injection E as <- <-. split; [|done]. left. split; cbn; rewrite ?Ex; try done.
      rewrite fmap_app, concat_app. cbn. by rewrite !app_nil_r, app_assoc.
    + injection E as <- <-. split; [|done]. left. split; cbn; rewrite ?Ex; try done; [by rewrite app_assoc|lia].
  - destruct (commitWithRetry _ _ commits) as [[took r'] rest]. injection E as <- <-. split; [|done]. left. split; cbn; rewrite ?Ex; try done.
    rewrite fmap_app, concat_app. cbn. rewrite <- Hc, H4 by lia. by rewrite !app_nil_r.
Qed.

Lemma runSerial_inv cfg d script l s s' r :
  serial_inv cfg d l s -> runSerial cfg d script s = (s', r) ->
  exists n, serial_inv cfg d (l ++ take n (script.*1.*1)) s' /\ is_ok r = false.
Proof.
  revert l s. induction script as [|[[m em] cm] script IH]; intros l s Hi E; cbn in E.
  - injection E as <- <-. exists 0%nat. by rewrite app_nil_r.
  - destruct (serial_step cfg d m em cm s) as [s1 r1] eqn:Es. destruct (serial_step_inv _ _ _ _ _ _ _ _ _ Hi Es) as [Hn _].
    destruct r1 as [[]|e].
    + destruct Hn as [Hn|(_ & [=] & _)]. destruct (IH _ _ Hn E) as (n & H1 & H2). exists (S n). cbn. by rewrite <- app_assoc in H1.
    + injection E as <- <-. destruct Hn as [Hn|(_ & _ & Hn)]; [exists 1%nat|exists 0%nat]; cbn; [by rewrite take_0|by rewrite app_nil_r].
Qed.

(** ** Commits outside the loop *)

(** A message of the wire: its partition and offset fit the machine. *)
Definition machine_msg (m : kmsg) : Prop := int64 (m_Partition m) /\ int64 (m_Offset m).

Lemma rec_of_position d m r : rec_of d m = Some r ->
  Partition r = m_Partition m /\ Offset r = m_Offset m.
Proof. unfold rec_of, toRecord. repeat case_match; cbn; intros [= <-]; done. Qed.

Lemma out_machine d l : Forall machine_msg l ->
  Forall (λ r, int64 (Partition r) /\ int64 (Offset r)) (omap (rec_of d) l).
Proof.
  intros H. induction H as [|m l Hm _ IH]; [constructor|]. cbn. destruct (rec_of d m) as [r|] eqn:E; [|done].
  constructor; [|done]. by destruct (rec_of_position d m r E) as [-> ->].
Qed.

Lemma track_from rs m0 p o : foldl track m0 rs !! p = Some o ->
  m0 !! p = Some o \/ exists r, r ∈ rs /\ Partition r = p /\ o = wrap64 (Offset r + 1).
Proof.
  revert m0. induction rs as [|r rs IH]; intros m0 H; [by left|]. cbn [foldl] in H.
  destruct (IH _ H) as [H1|(r' & H1 & H2)]; [|right; exists r'; split; [by right|done]].
  unfold track in H1. destruct (is_data r); [|by left].
  apply lookup_insert_Some in H1 as [[<- <-]|[_ H1]]; [|by left].
  right. exists r. split; [by left|done].
Qed.

Section Commits.
Context `{JT : JSONText}.

Lemma parse_offsets (m : gmap Z Z) :
  (forall p o, m !! p = Some o -> int64 o) ->
  json_parse (offsets_json m) ≫= (λ j, match decode_offsets j with Ok m => Some m | Err _ => None end)
  = Some (kmap dec_ m).
Proof.
  intros Hm. unfold offsets_json. rewrite json_parse_print. cbn [mbind option_bind]. rewrite decode_marshal; [done|].
  intros k v (p & -> & Hp)%lookup_kmap_Some; [|apply _]. split; [apply dec_utf8|by apply (Hm p)].
Qed.

(** What [CommitOffsets] commits of offsets taken from records is one of these
    records' positions, for each partition. *)
Lemma commits_positions groupID retries policy rs calls msgs took p o :
  Forall (λ r, int64 (Partition r) /\ int64 (Offset r)) rs ->
  (CommitOffsets groupID retries policy (offsets_json (foldl track ∅ rs)) calls).1 = Some (msgs, took) ->
  (p, o) ∈ msgs -> exists r, r ∈ rs /\ Partition r = p /\ Offset r = o.
Proof.
  intros Hrs. rewrite Forall_forall in Hrs. set (m := foldl _ _ _).
  assert (Hm : forall p o, m !! p = Some o -> exists r, r ∈ rs /\ Partition r = p /\ o = wrap64 (Offset r + 1)).
  { intros q v Hq. destruct (track_from rs ∅ q v Hq) as [H|H]; [by rewrite lookup_empty in H|exact H]. }
  unfold CommitOffsets. case_bool_decide; [done|]. rewrite parse_offsets.
  2: { intros q v (r & _ & _ & ->)%Hm. apply wrap64_range. }
  destruct (commit_msgs (kmap dec_ m)) as [|x xs] eqn:E; [done|].
  destruct (commitWithRetry retries policy calls) as [[took' r'] rest]. cbn [fst]. intros [= <- _] Hin.
  rewrite <- E in Hin. unfold commit_msgs in Hin. apply list_elem_of_fmap in Hin as ([k v] & [= -> ->] & Hin).
  apply list_elem_of_In, filter_In in Hin as [Hin Hv]. apply list_elem_of_In, elem_of_map_to_list in Hin.
  apply lookup_kmap_Some in Hin as (q & -> & Hq); [|apply _]. destruct (Hm q v Hq) as (r & Hr & <- & ->).
  destruct (Hrs r Hr) as [Hp Ho]. exists r. split; [done|]. cbn [fst snd] in *. rewrite sscanf_dec by done. split; [done|].
  destruct (decide (Offset r + 1 < 2 ^ 63)) as [Hlt|Hge].
  - rewrite wrap64_id by (unfold int64 in *; lia). lia.
  - assert (Offset r = 2 ^ 63 - 1) as E' by (unfold int64 in *; lia). rewrite E' in Hv. by vm_compute in Hv.
Qed.

Lemma drain_commits cfg d l parallel commits s :
  serial_inv cfg d l s ->
  let s' := (Drain cfg parallel commits s).1 in
  kout s' = kout s /\ concat (attempted s').*1 `prefix_of` (if exactlyOnce cfg then [] else List.filter (kept d) l).
Proof.
  intros [_ H2 _ _]. unfold Drain. rewrite <- H2.
  destruct (parallel || exactlyOnce cfg); [split; [done|by eexists]|].
  destruct (kpending s) as [|m p] eqn:E; [split; [done|by eexists]|].
  destruct (commitWithRetry _ _ commits) as [[took r] rest]. cbn [fst kout attempted]. split; [done|].
  rewrite fmap_app, concat_app. cbn. by rewrite app_nil_r.
Qed.

(** C32: the single-reader source commits nothing ahead of its output.
    However fetches, sends and commit calls go, (1) the output of the loop is
    the deliverable messages fetched so far, in order; (2) the loop's commit
    calls cover these messages in order, each once, up to the pending batch,
    which stays below the batch size, and in exactly-once mode the loop makes
    none; (3) a [Drain] after the loop adds only the pending messages (none in
    exactly-once mode); (4) the one commit that exactly-once mode has,
    [CommitOffsets] after a completed checkpoint, commits, of the offsets the
    injector took after any prefix of the output, only positions of records
    of that prefix. *)
Theorem source_commits_behind_output cfg d script s r :
  runSerial cfg d script newKafkaSource = (s, r) ->
  exists fetched rest, script.*1.*1 = fetched ++ rest /\ kout s = omap (rec_of d) fetched /\
    concat (attempted s).*1 ++ kpending s = (if exactlyOnce cfg then [] else List.filter (kept d) fetched) /\
    (0 < commitBatch cfg -> Z.of_nat (length (kpending s)) < commitBatch cfg) /\
    (forall parallel commits, let s' := (Drain cfg parallel commits s).1 in
       kout s' = kout s /\
       concat (attempted s').*1 `prefix_of` (if exactlyOnce cfg then [] else List.filter (kept d) fetched)) /\
    (Forall machine_msg fetched -> forall n groupID retries policy calls msgs took p o,
       let offsets := offsets_json (foldl track ∅ (take n (kout s))) in
       (CommitOffsets groupID retries policy offsets calls).1 = Some (msgs, took) -> (p, o) ∈ msgs ->
       exists rc, rc ∈ take n (kout s) /\ Partition rc = p /\ Offset rc = o).
Proof.
  intros E. destruct (runSerial_inv cfg d script [] newKafkaSource s r) as (n & Hi & _); [|done|].
  - split; cbn; try done; [by destruct (exactlyOnce cfg)].
  - cbn [app] in Hi. exists (take n script.*1.*1), (drop n script.*1.*1).
    pose proof Hi as [H1 H2 H3 _].
    split_and!; [by rewrite take_drop|done|done|done|intros par cs; by apply drain_commits|].
    intros Hf n' g rt po cs msgs took p o offs Hc Hin. eapply commits_positions; [|exact Hc|exact Hin].
    apply Forall_take. rewrite H1. by apply out_machine.
Qed.
End Commits.

Definition plainDelivery : deliveryCoordinator := mkDelivery None DeserFailureDrop false.
Definition msg (o : Z) : kmsg := mkMsg 0 o None None 0 [].
Definition batchOf2 : kafkaConfig := mkKCfg false 2 3 0 CommitPolicySkip.
Definition threeMsgs : list (kmsg * bool * list (call unit)) :=
  [(msg 5, true, []); (msg 6, true, [CallErr "down"]); (msg 7, true, [])].
Definition onceOnly : kafkaConfig := mkKCfg true 2 3 0 CommitPolicySkip.

(** The batching loop commits two of three messages; in exactly-once mode the
    commit after a checkpoint that follows the second record is the second
    record's position. *)
Lemma source_commits_behind_output_witness :
  (let s := (runSerial batchOf2 plainDelivery threeMsgs newKafkaSource).1 in
   attempted s = [([msg 5; msg 6], false)] /\ kpending s = [msg 7] /\
   exists fetched rest, [msg 5; msg 6; msg 7] = fetched ++ rest /\ kout s = omap (rec_of plainDelivery) fetched) /\
  (let s := (runSerial onceOnly plainDelivery threeMsgs newKafkaSource).1 in
   let offsets := offsets_json (foldl track ∅ (take 2 (kout s))) in
   (CommitOffsets (b "g") 0 CommitPolicySkip offsets [CallOk tt]).1 = Some ([(0, 6)], true) /\
   exists rc, rc ∈ take 2 (kout s) /\ Partition rc = 0 /\ Offset rc = 6).
Proof.
  split.
  - intros s. split; [vm_compute; reflexivity|]. split; [vm_compute; reflexivity|].
    destruct (source_commits_behind_output batchOf2 plainDelivery threeMsgs s (Err "context canceled")) as (f & re & H1 & H2 & _).
    + vm_compute. reflexivity.
    + exists f, re. split; [exact H1|exact H2].
  - intros s offsets.
    assert (E : (CommitOffsets (b "g") 0 CommitPolicySkip offsets [CallOk tt]).1 = Some ([(0, 6)], true)) by reflexivity.
    split; [exact E|].
    destruct (source_commits_behind_output onceOnly plainDelivery threeMsgs s (Err "context canceled"))
      as (f & re & H1 & _ & _ & _ & _ & H); [vm_compute; reflexivity|].
    refine (H _ 2%nat _ _ _ _ _ _ _ _ E _); [|by left].
    assert (Ha : Forall machine_msg (f ++ re)) by (rewrite <- H1; repeat constructor; unfold int64; simpl; lia).
    by apply Forall_app in Ha as [Ha _].
Defined.

(** ** Deserialization failures and backoff *)

(** The policy that is to stop the pipeline on a record that cannot be
    deserialized drops the record, exactly as the dropping policy does: the
    loop sees no error, and the message counts as consumed. *)
Theorem deser_fail_is_drop cfg f dlq' m commits s :
  let fail := mkDelivery (Some f) DeserFailureFail dlq' in
  let drop := mkDelivery (Some f) DeserFailureDrop dlq' in
  serial_step cfg fail m true commits s = serial_step cfg drop m true commits s /\
  (is_ok (f (m_Value m) (Headers (KafkaToRecord m))) = false ->
   (serial_step cfg fail m true commits s).2 = Ok tt /\
   kout (serial_step cfg fail m true commits s).1 = kout s).
Proof.
  intros fail drop. unfold serial_step, toRecord. cbn [fail drop deserializer deserFailPolicy].
  destruct (f _ _) as [v|e] eqn:E; [done|]. done.
Qed.

(** The wait before a retry doubles from one second and is capped at
    thirty, for the first 34 attempts; the next thirty waits are not positive
    or wrap around, and from attempt 64 on the wait is zero: a source that
    retries for ever stops backing off. *)
Theorem fetch_backoff_collapses :
  (forall a, 0 <= a <= 33 -> fetch_backoff a = Z.min (2 ^ a * Second) (30 * Second)) /\
  fetch_backoff 34 < 0 /\ (forall a, 64 <= a -> fetch_backoff a = 0).
Proof.
  split_and!.
  - intros a Ha. unfold fetch_backoff, shifted. rewrite (proj2 (Z.ltb_lt a 64)) by lia.
    assert (0 < 2 ^ a <= 2 ^ 33) by (split; [apply Z.pow_pos_nonneg; lia|apply Z.pow_le_mono_r; lia]).
    unfold Second in *. rewrite (wrap64_id (2 ^ a)) by (unfold int64; lia). rewrite wrap64_id by (unfold int64; lia).
    destruct (Z.ltb_spec (30 * 10 ^ 9) (2 ^ a * 10 ^ 9)); lia.
  - vm_compute. reflexivity.
  - intros a Ha. unfold fetch_backoff, shifted. rewrite (proj2 (Z.ltb_ge a 64)) by lia. reflexivity.
Qed.

(** Without a limit, [fetchWithRetry] returns only a message or the end of the
    context; with one it gives up after [max + 1] failures. *)
Lemma fetch_gives_up max errs calls :
  0 <= max -> length errs = S (Z.to_nat max) ->
  (fetchWithRetry max ((CallErr <$> errs) ++ calls)).1 = (Err "kafka fetch failed", calls).
Proof.
  intros Hm Hl. unfold fetchWithRetry.
  assert (G : forall a, 0 <= a <= max + 1 -> length errs = Z.to_nat (max + 1 - a) ->
    (fetch_loop max a ((CallErr <$> errs) ++ calls)).1 = (Err "kafka fetch failed", calls)).
  { clear Hl. induction errs as [|e errs IH]; intros a Ha Hla; cbn in Hla.
    - cbn [fmap list_fmap app]. destruct calls; cbn [fetch_loop];
        rewrite (proj2 (Z.ltb_ge max 0)), (proj2 (Z.leb_gt a max)) by lia; done.
    - cbn [fmap list_fmap app fetch_loop]. rewrite (proj2 (Z.ltb_ge max 0)), (proj2 (Z.leb_le a max)) by lia. cbn [orb].
      specialize (IH (a + 1) ltac:(lia) ltac:(lia)). destruct (fetch_loop max (a + 1) _) as [[r rest] ws]. exact IH. }
  apply G; lia.
Qed.
