(* ===== verification/KafkaOptions.v ===== *)
(** * Package source: options and construction of the Kafka source

    The options of a Kafka source with their defaults, what its constructor
    refuses, and the configuration its readers are given (kafka_options.go,
    kafka_offset.go, kafka_reader_supervisor.go and NewKafkaSource of kafka.go),
    with the settings of package auth they carry. *)
From S2P Require Import Prelude Paths GoTime Strconv Types Json Engine Watermark Source.

(** ** Package auth *)

Inductive SASLMechanism : Type := SASLPlain | SASLScramSHA256 | SASLScramSHA512 | SASLOther (name : bytes).
Record SASLConfig : Type := mkSASLConfig { sc_Mechanism : SASLMechanism; sc_Username : bytes; sc_Password : bytes }.
Record TLSConfig : Type := mkTLSConfig { tc_CertFile : bytes; tc_KeyFile : bytes; tc_CAFile : bytes; tc_InsecureSkipVerify : bool }.

(** ** Start offsets *)

Definition OffsetEarliest : Z := -2.
Definition OffsetLatest : Z := -1.
Record OffsetSpec : Type := mkOffsetSpec { os_Mode : Z; os_Explicit : gmap Z Z }.
(** The library's constants have the same values. *)
Definition FirstOffset : Z := -2.
Definition LastOffset : Z := -1.
Definition toKafka (s : OffsetSpec) : Z :=
  if os_Mode s =? OffsetEarliest then FirstOffset else if os_Mode s =? OffsetLatest then LastOffset else os_Mode s.
Definition Display (s : OffsetSpec) : bytes :=
  if os_Mode s =? OffsetEarliest then b "earliest" else if os_Mode s =? OffsetLatest then b "latest" else dec_ (os_Mode s).

(** ** Options *)

Definition Deserializer : Type := slice -> gmap bytes slice -> result any.
Record kafkaSourceConfig : Type := mkKSC {
  kc_brokers : list bytes; kc_topic : bytes; kc_topics : list bytes; kc_groupID : bytes; kc_minBytes : Z; kc_maxBytes : Z; kc_offsetSpec :
  OffsetSpec; kc_commitBatch : Z; kc_sasl : option SASLConfig; kc_tls : option TLSConfig; kc_outOfOrderness : Z; kc_watermarkInterval : Z;
  kc_deserializer : option Deserializer; kc_deserFailPolicy : DeserFailurePolicy; kc_deserDLQ : bool; kc_fetchMaxRetries : Z;
  kc_commitMaxRetries : Z; kc_commitFailPolicy : CommitPolicy; kc_parallel : bool; kc_watchPartitions : Z; kc_exactlyOnce : bool;
}.
Definition zeroConfig : kafkaSourceConfig :=
  mkKSC [] [] [] [] 0 0 (mkOffsetSpec 0 ∅) 0 None None 0 0 None DeserFailureDrop false 0 0 CommitPolicySkip false 0 false.
Definition KafkaSourceOption : Type := kafkaSourceConfig -> kafkaSourceConfig.

Definition KafkaExactlyOnce : KafkaSourceOption := λ c,
  mkKSC (kc_brokers c) (kc_topic c) (kc_topics c) (kc_groupID c) (kc_minBytes c) (kc_maxBytes c) (kc_offsetSpec c) (kc_commitBatch c)
  (kc_sasl c) (kc_tls c) (kc_outOfOrderness c) (kc_watermarkInterval c) (kc_deserializer c) (kc_deserFailPolicy c) (kc_deserDLQ c)
  (kc_fetchMaxRetries c) (kc_commitMaxRetries c) (kc_commitFailPolicy c) (kc_parallel c) (kc_watchPartitions c) true.
Definition KafkaBrokers (brokers : list bytes) : KafkaSourceOption := λ c,
  mkKSC brokers (kc_topic c) (kc_topics c) (kc_groupID c) (kc_minBytes c) (kc_maxBytes c) (kc_offsetSpec c) (kc_commitBatch c) (kc_sasl c)
  (kc_tls c) (kc_outOfOrderness c) (kc_watermarkInterval c) (kc_deserializer c) (kc_deserFailPolicy c) (kc_deserDLQ c)
  (kc_fetchMaxRetries c) (kc_commitMaxRetries c) (kc_commitFailPolicy c) (kc_parallel c) (kc_watchPartitions c) (kc_exactlyOnce c).
Definition KafkaTopic (topic : bytes) : KafkaSourceOption := λ c,
  mkKSC (kc_brokers c) topic (kc_topics c) (kc_groupID c) (kc_minBytes c) (kc_maxBytes c) (kc_offsetSpec c) (kc_commitBatch c) (kc_sasl c)
  (kc_tls c) (kc_outOfOrderness c) (kc_watermarkInterval c) (kc_deserializer c) (kc_deserFailPolicy c) (kc_deserDLQ c)
  (kc_fetchMaxRetries c) (kc_commitMaxRetries c) (kc_commitFailPolicy c) (kc_parallel c) (kc_watchPartitions c) (kc_exactlyOnce c).
Definition KafkaTopics (topics : list bytes) : KafkaSourceOption := λ c,
  mkKSC (kc_brokers c) (kc_topic c) topics (kc_groupID c) (kc_minBytes c) (kc_maxBytes c) (kc_offsetSpec c) (kc_commitBatch c) (kc_sasl c)
  (kc_tls c) (kc_outOfOrderness c) (kc_watermarkInterval c) (kc_deserializer c) (kc_deserFailPolicy c) (kc_deserDLQ c)
  (kc_fetchMaxRetries c) (kc_commitMaxRetries c) (kc_commitFailPolicy c) (kc_parallel c) (kc_watchPartitions c) (kc_exactlyOnce c).
Definition KafkaGroupID (id : bytes) : KafkaSourceOption := λ c,
  mkKSC (kc_brokers c) (kc_topic c) (kc_topics c) id (kc_minBytes c) (kc_maxBytes c) (kc_offsetSpec c) (kc_commitBatch c) (kc_sasl c)
  (kc_tls c) (kc_outOfOrderness c) (kc_watermarkInterval c) (kc_deserializer c) (kc_deserFailPolicy c) (kc_deserDLQ c)
  (kc_fetchMaxRetries c) (kc_commitMaxRetries c) (kc_commitFailPolicy c) (kc_parallel c) (kc_watchPartitions c) (kc_exactlyOnce c).
Definition KafkaStartFrom (o : Z) : KafkaSourceOption := λ c,
  mkKSC (kc_brokers c) (kc_topic c) (kc_topics c) (kc_groupID c) (kc_minBytes c) (kc_maxBytes c) (mkOffsetSpec o ∅) (kc_commitBatch c)
  (kc_sasl c) (kc_tls c) (kc_outOfOrderness c) (kc_watermarkInterval c) (kc_deserializer c) (kc_deserFailPolicy c) (kc_deserDLQ c)
  (kc_fetchMaxRetries c) (kc_commitMaxRetries c) (kc_commitFailPolicy c) (kc_parallel c) (kc_watchPartitions c) (kc_exactlyOnce c).
Definition KafkaFetchBytes (lo hi : Z) : KafkaSourceOption := λ c,
  mkKSC (kc_brokers c) (kc_topic c) (kc_topics c) (kc_groupID c) lo hi (kc_offsetSpec c) (kc_commitBatch c) (kc_sasl c) (kc_tls c)
  (kc_outOfOrderness c) (kc_watermarkInterval c) (kc_deserializer c) (kc_deserFailPolicy c) (kc_deserDLQ c) (kc_fetchMaxRetries c)
  (kc_commitMaxRetries c) (kc_commitFailPolicy c) (kc_parallel c) (kc_watchPartitions c) (kc_exactlyOnce c).
Definition KafkaCommitBatch (n : Z) : KafkaSourceOption := λ c,
  mkKSC (kc_brokers c) (kc_topic c) (kc_topics c) (kc_groupID c) (kc_minBytes c) (kc_maxBytes c) (kc_offsetSpec c) n (kc_sasl c) (kc_tls c)
  (kc_outOfOrderness c) (kc_watermarkInterval c) (kc_deserializer c) (kc_deserFailPolicy c) (kc_deserDLQ c) (kc_fetchMaxRetries c)
  (kc_commitMaxRetries c) (kc_commitFailPolicy c) (kc_parallel c) (kc_watchPartitions c) (kc_exactlyOnce c).
Definition KafkaSASL (cfg : SASLConfig) : KafkaSourceOption := λ c,
  mkKSC (kc_brokers c) (kc_topic c) (kc_topics c) (kc_groupID c) (kc_minBytes c) (kc_maxBytes c) (kc_offsetSpec c) (kc_commitBatch c)
  (Some cfg) (kc_tls c) (kc_outOfOrderness c) (kc_watermarkInterval c) (kc_deserializer c) (kc_deserFailPolicy c) (kc_deserDLQ c)
  (kc_fetchMaxRetries c) (kc_commitMaxRetries c) (kc_commitFailPolicy c) (kc_parallel c) (kc_watchPartitions c) (kc_exactlyOnce c).
Definition KafkaTLS (cfg : TLSConfig) : KafkaSourceOption := λ c,
  mkKSC (kc_brokers c) (kc_topic c) (kc_topics c) (kc_groupID c) (kc_minBytes c) (kc_maxBytes c) (kc_offsetSpec c) (kc_commitBatch c)
  (kc_sasl c) (Some cfg) (kc_outOfOrderness c) (kc_watermarkInterval c) (kc_deserializer c) (kc_deserFailPolicy c) (kc_deserDLQ c)
  (kc_fetchMaxRetries c) (kc_commitMaxRetries c) (kc_commitFailPolicy c) (kc_parallel c) (kc_watchPartitions c) (kc_exactlyOnce c).
Definition KafkaDeserialize (d : Deserializer) : KafkaSourceOption := λ c,
  mkKSC (kc_brokers c) (kc_topic c) (kc_topics c) (kc_groupID c) (kc_minBytes c) (kc_maxBytes c) (kc_offsetSpec c) (kc_commitBatch c)
  (kc_sasl c) (kc_tls c) (kc_outOfOrderness c) (kc_watermarkInterval c) (Some d) (kc_deserFailPolicy c) (kc_deserDLQ c)
  (kc_fetchMaxRetries c) (kc_commitMaxRetries c) (kc_commitFailPolicy c) (kc_parallel c) (kc_watchPartitions c) (kc_exactlyOnce c).
Definition KafkaDeserializeFailurePolicy (p : DeserFailurePolicy) : KafkaSourceOption := λ c,
  mkKSC (kc_brokers c) (kc_topic c) (kc_topics c) (kc_groupID c) (kc_minBytes c) (kc_maxBytes c) (kc_offsetSpec c) (kc_commitBatch c)
  (kc_sasl c) (kc_tls c) (kc_outOfOrderness c) (kc_watermarkInterval c) (kc_deserializer c) p (kc_deserDLQ c) (kc_fetchMaxRetries c)
  (kc_commitMaxRetries c) (kc_commitFailPolicy c) (kc_parallel c) (kc_watchPartitions c) (kc_exactlyOnce c).
Definition KafkaDeserializeDLQ : KafkaSourceOption := λ c,
  mkKSC (kc_brokers c) (kc_topic c) (kc_topics c) (kc_groupID c) (kc_minBytes c) (kc_maxBytes c) (kc_offsetSpec c) (kc_commitBatch c)
  (kc_sasl c) (kc_tls c) (kc_outOfOrderness c) (kc_watermarkInterval c) (kc_deserializer c) (kc_deserFailPolicy c) true
  (kc_fetchMaxRetries c) (kc_commitMaxRetries c) (kc_commitFailPolicy c) (kc_parallel c) (kc_watchPartitions c) (kc_exactlyOnce c).
Definition KafkaWithWatermarks (maxOutOfOrderness : Z) : KafkaSourceOption := λ c,
  mkKSC (kc_brokers c) (kc_topic c) (kc_topics c) (kc_groupID c) (kc_minBytes c) (kc_maxBytes c) (kc_offsetSpec c) (kc_commitBatch c)
  (kc_sasl c) (kc_tls c) maxOutOfOrderness (500 * 1000000) (kc_deserializer c) (kc_deserFailPolicy c) (kc_deserDLQ c) (kc_fetchMaxRetries c)
  (kc_commitMaxRetries c) (kc_commitFailPolicy c) (kc_parallel c) (kc_watchPartitions c) (kc_exactlyOnce c).
Definition KafkaWatermarkInterval (d : Z) : KafkaSourceOption := λ c,
  mkKSC (kc_brokers c) (kc_topic c) (kc_topics c) (kc_groupID c) (kc_minBytes c) (kc_maxBytes c) (kc_offsetSpec c) (kc_commitBatch c)
  (kc_sasl c) (kc_tls c) (kc_outOfOrderness c) d (kc_deserializer c) (kc_deserFailPolicy c) (kc_deserDLQ c) (kc_fetchMaxRetries c)
  (kc_commitMaxRetries c) (kc_commitFailPolicy c) (kc_parallel c) (kc_watchPartitions c) (kc_exactlyOnce c).
Definition KafkaFetchMaxRetries (n : Z) : KafkaSourceOption := λ c,
  mkKSC (kc_brokers c) (kc_topic c) (kc_topics c) (kc_groupID c) (kc_minBytes c) (kc_maxBytes c) (kc_offsetSpec c) (kc_commitBatch c)
  (kc_sasl c) (kc_tls c) (kc_outOfOrderness c) (kc_watermarkInterval c) (kc_deserializer c) (kc_deserFailPolicy c) (kc_deserDLQ c) n
  (kc_commitMaxRetries c) (kc_commitFailPolicy c) (kc_parallel c) (kc_watchPartitions c) (kc_exactlyOnce c).
Definition KafkaCommitMaxRetries (n : Z) : KafkaSourceOption := λ c,
  mkKSC (kc_brokers c) (kc_topic c) (kc_topics c) (kc_groupID c) (kc_minBytes c) (kc_maxBytes c) (kc_offsetSpec c) (kc_commitBatch c)
  (kc_sasl c) (kc_tls c) (kc_outOfOrderness c) (kc_watermarkInterval c) (kc_deserializer c) (kc_deserFailPolicy c) (kc_deserDLQ c)
  (kc_fetchMaxRetries c) n (kc_commitFailPolicy c) (kc_parallel c) (kc_watchPartitions c) (kc_exactlyOnce c).
Definition KafkaCommitPolicy (p : CommitPolicy) : KafkaSourceOption := λ c,
  mkKSC (kc_brokers c) (kc_topic c) (kc_topics c) (kc_groupID c) (kc_minBytes c) (kc_maxBytes c) (kc_offsetSpec c) (kc_commitBatch c)
  (kc_sasl c) (kc_tls c) (kc_outOfOrderness c) (kc_watermarkInterval c) (kc_deserializer c) (kc_deserFailPolicy c) (kc_deserDLQ c)
  (kc_fetchMaxRetries c) (kc_commitMaxRetries c) p (kc_parallel c) (kc_watchPartitions c) (kc_exactlyOnce c).
Definition KafkaParallel : KafkaSourceOption := λ c,
  mkKSC (kc_brokers c) (kc_topic c) (kc_topics c) (kc_groupID c) (kc_minBytes c) (kc_maxBytes c) (kc_offsetSpec c) (kc_commitBatch c)
  (kc_sasl c) (kc_tls c) (kc_outOfOrderness c) (kc_watermarkInterval c) (kc_deserializer c) (kc_deserFailPolicy c) (kc_deserDLQ c)
  (kc_fetchMaxRetries c) (kc_commitMaxRetries c) (kc_commitFailPolicy c) true (kc_watchPartitions c) (kc_exactlyOnce c).
Definition KafkaWatchPartitions (interval : Z) : KafkaSourceOption := λ c,
  mkKSC (kc_brokers c) (kc_topic c) (kc_topics c) (kc_groupID c) (kc_minBytes c) (kc_maxBytes c) (kc_offsetSpec c) (kc_commitBatch c)
  (kc_sasl c) (kc_tls c) (kc_outOfOrderness c) (kc_watermarkInterval c) (kc_deserializer c) (kc_deserFailPolicy c) (kc_deserDLQ c)
  (kc_fetchMaxRetries c) (kc_commitMaxRetries c) (kc_commitFailPolicy c) (kc_parallel c) interval (kc_exactlyOnce c).

Definition orZero (d n : Z) : Z := if n =? 0 then d else n.
Definition ksc_applyDefaults (c : kafkaSourceConfig) : kafkaSourceConfig :=
  mkKSC (kc_brokers c) (kc_topic c) (kc_topics c) (kc_groupID c) (orZero 1 (kc_minBytes c)) (orZero (10 * 1024 * 1024) (kc_maxBytes c))
  (if os_Mode (kc_offsetSpec c) =? 0 then mkOffsetSpec OffsetEarliest ∅ else kc_offsetSpec c) (kc_commitBatch c) (kc_sasl c) (kc_tls c)
  (kc_outOfOrderness c) (orZero (500 * 1000000) (kc_watermarkInterval c)) (kc_deserializer c) (kc_deserFailPolicy c) (kc_deserDLQ c)
  (orZero 5 (kc_fetchMaxRetries c)) (orZero 3 (kc_commitMaxRetries c)) (kc_commitFailPolicy c) (kc_parallel c) (kc_watchPartitions c)
  (kc_exactlyOnce c).

(** ** Readers *)

(** [kafka.ReaderConfig] as far as the source sets it. *)
Record ReaderConfig : Type := mkRC {
  rc_Brokers : list bytes; rc_GroupID : bytes; rc_GroupTopics : list bytes; rc_Topic : bytes; rc_Partition : Z; rc_MinBytes : Z; rc_MaxBytes : Z;
  rc_StartOffset : Z; rc_ReadCommitted : bool; rc_Dialer : option (option SASLConfig * option TLSConfig);
}.
Definition dialer_of (c : kafkaSourceConfig) : option (option SASLConfig * option TLSConfig) :=
  match kc_sasl c, kc_tls c with None, None => None | s, t => Some (s, t) end.
Definition newSerialReaderSupervisor (c : kafkaSourceConfig) : list ReaderConfig * list Z :=
  ([mkRC (kc_brokers c) (kc_groupID c) (kc_topics c) (kc_topic c) 0 (kc_minBytes c) (kc_maxBytes c)
      (toKafka (kc_offsetSpec c)) (kc_exactlyOnce c) (dialer_of c)], [-1]).
Definition buildPartitionReader (c : kafkaSourceConfig) (partition : Z) : ReaderConfig :=
  mkRC (kc_brokers c) [] [] (kc_topic c) partition (kc_minBytes c) (kc_maxBytes c)
    (toKafka (kc_offsetSpec c)) (kc_exactlyOnce c) (dialer_of c).

(** ** Construction *)

(** [discover]: the partitions of a topic as the first broker reports them;
    dialling and asking may fail. *)
Section Construct.
Variable dial : bytes -> result unit.
Variable readPartitions : bytes -> bytes -> result (list Z).

Definition discover (brokers : list bytes) (topic : bytes) : result (list Z) :=
  match brokers with
  | [] => Err "panic: index out of range"
  | br :: _ =>
      match dial br with
      | Err e => Err ("cannot dial broker for partitions: " +:+ e)
      | Ok _ => match readPartitions br topic with Err e => Err ("cannot read partitions: " +:+ e) | Ok ids => Ok ids end
      end
  end.

(** The readers of a source: one for a consumer group, or one per partition. *)
Inductive kreaders : Type := Serial (readers : list ReaderConfig) | Parallel (initialPartitions : list Z).
Record KSource : Type := mkKSource { so_cfg : kafkaSourceConfig; so_delivery : deliveryCoordinator; so_readers : kreaders }.

(** The constructor; its own panics are errors.  The panics of what it calls, an
    unreadable CA file ([unreadable_ca_panics]) and kafka-go's refusal of a
    minimum over its maximum ([fetch_sizes_unordered]), are stated apart. *)
Definition NewKafkaSource (opts : list KafkaSourceOption) : result KSource :=
  let c := ksc_applyDefaults (foldl (λ c o, o c) zeroConfig opts) in
  let d := mkDelivery (kc_deserializer c) (kc_deserFailPolicy c) (kc_deserDLQ c) in
  if bool_decide (kc_brokers c = []) then Err "panic: KafkaSource requires KafkaBrokers(...)"
  else if bool_decide (kc_topics c = []) && isE (kc_topic c) then Err "panic: KafkaSource requires KafkaTopic or KafkaTopics"
  else if kc_parallel c then
    if negb (isE (kc_groupID c)) then Err "panic: KafkaParallel and KafkaGroupID are mutually exclusive"
    else if isE (kc_topic c) || negb (bool_decide (kc_topics c = [])) then Err "panic: KafkaParallel requires a single KafkaTopic"
    else match discover (kc_brokers c) (kc_topic c) with
         | Err e => Err ("panic: " +:+ e)
         | Ok ids => Ok (mkKSource c d (Parallel ids))
         end
  else Ok (mkKSource c d (Serial (newSerialReaderSupervisor c).1)).
End Construct.

(** The part of the configuration the fetch and commit loops read. *)
Definition loop_cfg (c : kafkaSourceConfig) : kafkaConfig :=
  mkKCfg (kc_exactlyOnce c) (kc_commitBatch c) (kc_fetchMaxRetries c) (kc_commitMaxRetries c) (kc_commitFailPolicy c).

(** ** What a constructed source satisfies *)

Record source_wf (s : KSource) : Prop := {
  wf_brokers : kc_brokers (so_cfg s) <> [];
  wf_topics : kc_topics (so_cfg s) <> [] \/ kc_topic (so_cfg s) <> [];
  wf_modes : match so_readers s with
    | Serial rs => kc_parallel (so_cfg s) = false /\ rs = (newSerialReaderSupervisor (so_cfg s)).1
    | Parallel _ => kc_parallel (so_cfg s) = true /\ kc_groupID (so_cfg s) = [] /\ kc_topics (so_cfg s) = [] /\ kc_topic (so_cfg s) <> []
    end;
  wf_defaults : kc_minBytes (so_cfg s) <> 0 /\ kc_maxBytes (so_cfg s) <> 0 /\ os_Mode (kc_offsetSpec (so_cfg s)) <> 0 /\
    kc_watermarkInterval (so_cfg s) <> 0 /\ kc_fetchMaxRetries (so_cfg s) <> 0 /\ kc_commitMaxRetries (so_cfg s) <> 0;
}.

Lemma orZero_nz d n : d <> 0 -> orZero d n <> 0.
Proof. unfold orZero. destruct (Z.eqb_spec n 0); done. Qed.

Lemma defaults_nz c0 (c := ksc_applyDefaults c0) :
  kc_minBytes c <> 0 /\ kc_maxBytes c <> 0 /\ os_Mode (kc_offsetSpec c) <> 0 /\
  kc_watermarkInterval c <> 0 /\ kc_fetchMaxRetries c <> 0 /\ kc_commitMaxRetries c <> 0.
Proof.
  subst c. split_and!; try (apply orZero_nz; lia). unfold ksc_applyDefaults. cbn [kc_offsetSpec].
  destruct (Z.eqb_spec (os_Mode (kc_offsetSpec c0)) 0) as [E|E]; [discriminate|exact E].
Qed.

(** What [NewKafkaSource] builds is well formed: it has brokers and topics, a
    parallel source has one topic and no group, and no setting that has a
    default is zero. *)
Theorem constructed_source_wf dial readP opts s : NewKafkaSource dial readP opts = Ok s -> source_wf s.
Proof.
  unfold NewKafkaSource. set (c := ksc_applyDefaults _). intros E.
  assert (Hd : kc_minBytes c <> 0 /\ kc_maxBytes c <> 0 /\ os_Mode (kc_offsetSpec c) <> 0 /\
    kc_watermarkInterval c <> 0 /\ kc_fetchMaxRetries c <> 0 /\ kc_commitMaxRetries c <> 0).
  { apply defaults_nz. }
  clearbody c. destruct (bool_decide_reflect (kc_brokers c = [])) as [|Hb]; [done|].
  destruct (bool_decide_reflect (kc_topics c = [])) as [Ht|Ht]; cbn [andb negb] in E.
  - unfold isE in E. destruct (bool_decide_reflect (kc_topic c = [])) as [|Hp]; [done|]. rewrite orb_false_l in E.
    destruct (kc_parallel c) eqn:Ep.
    + destruct (bool_decide_reflect (kc_groupID c = [])); [|done]. cbn [negb] in E. destruct (discover _ _ _ _); [|done].
      injection E as <-. split; cbn; auto.
    + injection E as <-. split; cbn; auto.
  - destruct (kc_parallel c) eqn:Ep; [rewrite orb_true_r in E; by case_match|]. injection E as <-. split; cbn; auto.
Qed.

(** Zero retries cannot be asked for: the default takes their place. *)
Theorem zero_retries_become_default dial readP opts s :
  NewKafkaSource dial readP (opts ++ [KafkaFetchMaxRetries 0; KafkaCommitMaxRetries 0]) = Ok s ->
  kc_fetchMaxRetries (so_cfg s) = 5 /\ kc_commitMaxRetries (so_cfg s) = 3.
Proof.
  unfold NewKafkaSource. rewrite foldl_app. cbn [foldl]. intros E.
  repeat (case_match; try discriminate E); injection E as <-; cbn; done.
Qed.
