(* ===== verification/KafkaRun.v ===== *)
(** * Package source: running the Kafka source

    The partition manager of parallel mode with its reader goroutines
    (kafka_partition_manager.go), [Run] and [runOnce] of kafka.go, and the
    source stage that runs and then drains a source (SourceStage of
    pipeline/stage.go).  Goroutines are entries of a list that a step relation
    advances in any order. *)
From S2P Require Import Prelude Paths GoTime Strconv Types Json Engine Watermark Source KafkaOptions.

(** ** One message of a reader *)

(** What all readers of a source share. *)
Record shared : Type := mkShared { sh_offsets : offsetTracker; sh_out : list Rec; sh_dlq : list Rec }.
(** The body of [readerHandle]'s loop after a fetch; [emitted] is false when the
    context ends instead of the send, which ends the loop. *)
Definition reader_step (d : deliveryCoordinator) (m : kmsg) (emitted : bool) (s : shared) : shared * result unit :=
  let t := track_msg m (sh_offsets s) in
  let '(rec, q) := toRecord d m (sh_dlq s) in
  match rec with
  | None => (mkShared t (sh_out s) q, Ok tt)
  | Some r => if emitted then (mkShared t (sh_out s ++ [r]) q, Ok tt) else (mkShared t (sh_out s) q, Err "context canceled")
  end.

(** ** The partition manager *)

(** A reader goroutine: its reader, the offset it was sought to, whether its
    own context was cancelled, and whether it has closed its reader and ended. *)
Record goroutine : Type := mkGo { g_part : Z; g_conf : ReaderConfig; g_seek : option Z; g_cancelled : bool; g_done : bool }.
Definition g_cancel (g : goroutine) : goroutine := mkGo (g_part g) (g_conf g) (g_seek g) true (g_done g).
Definition g_finish (g : goroutine) : goroutine := mkGo (g_part g) (g_conf g) (g_seek g) (g_cancelled g) true.

Inductive pmPhase : Type := PMLoop | PMStopping (r : result unit) | PMReturned (r : result unit).
(** [pm_running] maps a partition to its goroutine's index; [pm_ctx] says that
    the run's context has ended; [pm_failed] lists the errors of readers that
    failed while their context was live, oldest first. *)
Record pmState : Type := mkPM {
  pm_running : gmap Z nat; pm_gos : list goroutine; pm_fatal : option string; pm_ctx : bool; pm_phase : pmPhase;
  pm_shared : shared; pm_failed : list string;
}.

Section Manager.
Variable c : kafkaSourceConfig.
Variable d : deliveryCoordinator.

Definition newPartitionManager (t : offsetTracker) : pmState := mkPM ∅ [] None false PMLoop (mkShared t [] []) [].

Definition pm_startReader (id : Z) (s : pmState) : pmState :=
  mkPM (<[id := length (pm_gos s)]> (pm_running s))
    (pm_gos s ++ [mkGo id (buildPartitionReader c id) (restoredOffset id (sh_offsets (pm_shared s))) false false])
    (pm_fatal s) (pm_ctx s) (pm_phase s) (pm_shared s) (pm_failed s).
Definition cancel_all (idxs : list nat) (gos : list goroutine) : list goroutine := foldr (λ i gos, alter g_cancel i gos) gos idxs.
Definition pm_stop (keep : Z -> bool) (s : pmState) : pmState :=
  mkPM (filter (λ kv, keep kv.1 = true) (pm_running s))
    (cancel_all (List.filter (λ kv : Z * nat, negb (keep kv.1)) (map_to_list (pm_running s))).*2 (pm_gos s))
    (pm_fatal s) (pm_ctx s) (pm_phase s) (pm_shared s) (pm_failed s).
Definition start_missing (id : Z) (s : pmState) : pmState :=
  match pm_running s !! id with Some _ => s | None => pm_startReader id s end.
Definition mgr_reconcile (desired : list Z) (s : pmState) : pmState :=
  foldl (λ s id, start_missing id s) (pm_stop (λ id, bool_decide (id ∈ desired)) s) desired.
Definition partitionCount (s : pmState) : nat := size (pm_running s).
(** [stopAll] up to its wait. *)
Definition mgr_stopAll (s : pmState) : pmState := pm_stop (λ _, false) s.

Definition set_phase (p : pmPhase) (s : pmState) : pmState :=
  mkPM (pm_running s) (pm_gos s) (pm_fatal s) (pm_ctx s) p (pm_shared s) (pm_failed s).
Definition set_shared (sh : shared) (s : pmState) : pmState :=
  mkPM (pm_running s) (pm_gos s) (pm_fatal s) (pm_ctx s) (pm_phase s) sh (pm_failed s).
Definition end_ctx (s : pmState) : pmState :=
  mkPM (pm_running s) (pm_gos s) (pm_fatal s) true (pm_phase s) (pm_shared s) (pm_failed s).
(** [rctx.Err() != nil]. *)
Definition ended (g : goroutine) (s : pmState) : bool := g_cancelled g || pm_ctx s.
(** The handle returned an error: a failure of a live reader is offered to the
    manager, which keeps the first; then the reader is closed. *)
Definition reader_exit (i : nat) (g : goroutine) (e : string) (s : pmState) : pmState :=
  let live := negb (ended g s) in
  mkPM (pm_running s) (alter g_finish i (pm_gos s))
    (if live then match pm_fatal s with None => Some e | f => f end else pm_fatal s) (pm_ctx s) (pm_phase s) (pm_shared s)
    (if live then pm_failed s ++ [e] else pm_failed s).
Definition take_fatal (s : pmState) : pmState :=
  mkPM (pm_running s) (pm_gos s) None (pm_ctx s) (pm_phase s) (pm_shared s) (pm_failed s).
(** A tick of the watch: failed discovery changes nothing. *)
Definition on_tick (found : result (list Z)) (s : pmState) : pmState :=
  match found with Ok ids => mgr_reconcile ids s | Err _ => s end.

(** The manager's select, its readers, and the world; a step is labelled with
    the message it handled, if any, and whether that was sent.  A reader is
    pinned to its partition, so it fetches messages of that partition only. *)
Inductive pm_step (s : pmState) : list (kmsg * bool) -> pmState -> Prop :=
| PMCtx : pm_step s [] (end_ctx s)
| PMTick found : pm_phase s = PMLoop -> 0 < kc_watchPartitions c -> pm_step s [] (on_tick found s)
| PMSeesCtx : pm_phase s = PMLoop -> pm_ctx s = true -> pm_step s [] (set_phase (PMStopping (Ok tt)) (mgr_stopAll s))
| PMSeesFatal e : pm_phase s = PMLoop -> pm_fatal s = Some e -> pm_step s [] (set_phase (PMStopping (Err e)) (mgr_stopAll (take_fatal s)))
| PMReads i g m sh : pm_gos s !! i = Some g -> g_done g = false -> m_Partition m = g_part g ->
    reader_step d m true (pm_shared s) = (sh, Ok tt) -> pm_step s [(m, true)] (set_shared sh s)
| PMSendLost i g m sh e : pm_gos s !! i = Some g -> g_done g = false -> m_Partition m = g_part g -> ended g s = true ->
    reader_step d m false (pm_shared s) = (sh, Err e) -> pm_step s [(m, false)] (reader_exit i g e (set_shared sh s))
| PMExits i g e : pm_gos s !! i = Some g -> g_done g = false -> pm_step s [] (reader_exit i g e s)
| PMReturns r : pm_phase s = PMStopping r -> Forall (λ g, g_done g = true) (pm_gos s) -> pm_step s [] (set_phase (PMReturned r) s).

(** The manager from the reconcile to its seed on, with all it handled. *)
Inductive pm_reach (t : offsetTracker) (seed : list Z) : list (kmsg * bool) -> pmState -> Prop :=
| PMStart : pm_reach t seed [] (mgr_reconcile seed (newPartitionManager t))
| PMStep log l s s' : pm_reach t seed log s -> pm_step s l s' -> pm_reach t seed (log ++ l) s'.

(** ** Invariant *)

Definition go_live (g : goroutine) : Prop := g_cancelled g = false.
(** The running map and the goroutines that are not cancelled agree. *)
Record pm_tidy (s : pmState) : Prop := {
  td_run : forall p i, pm_running s !! p = Some i -> exists g, pm_gos s !! i = Some g /\ g_part g = p /\ go_live g;
  td_live : forall i g, pm_gos s !! i = Some g -> go_live g -> pm_running s !! g_part g = Some i;
}.
(** What the phase says about failures and about the running readers. *)
Definition phase_ok (s : pmState) : Prop :=
  match pm_phase s with
  | PMLoop => pm_fatal s = head (pm_failed s)
  | PMStopping r => pm_running s = ∅ /\ (match r with Ok _ => pm_ctx s = true | Err e => head (pm_failed s) = Some e end)
  | PMReturned r => pm_running s = ∅ /\ (match r with Ok _ => pm_ctx s = true | Err e => head (pm_failed s) = Some e end) /\
      Forall (λ g, g_done g = true) (pm_gos s)
  end.
Lemma cancel_all_lookup idxs gos j :
  cancel_all idxs gos !! j = if decide (j ∈ idxs) then g_cancel <$> gos !! j else gos !! j.
Proof.
  induction idxs as [|i idxs IH]; [done|]. cbn [cancel_all foldr]. fold (cancel_all idxs gos).
  destruct (decide (i = j)) as [->|Hne].
  - rewrite list_lookup_alter_eq, IH, (decide_True (P := j ∈ j :: idxs)) by left. case_decide; [|done]. by destruct (gos !! j).
  - rewrite list_lookup_alter_ne, IH by done. destruct (decide (j ∈ idxs)), (decide (j ∈ i :: idxs)); set_solver.
Qed.
Lemma elem_of_stopped keep s (i : nat) :
  i ∈ (List.filter (λ kv : Z * nat, negb (keep kv.1)) (map_to_list (pm_running s))).*2 <->
  exists p, pm_running s !! p = Some i /\ keep p = false.
Proof.
  rewrite list_elem_of_fmap. split.
  - intros ([p j] & -> & Hin). apply list_elem_of_In, filter_In in Hin as [Hin Hk%negb_true_iff].
    exists p. split; [by apply elem_of_map_to_list, list_elem_of_In|done].
  - intros (p & Hp & Hk). exists (p, i). split; [done|]. apply list_elem_of_In, filter_In. split; [|by apply negb_true_iff].
    by apply list_elem_of_In, elem_of_map_to_list.
Qed.
(** What stopping does to the goroutine of a partition. *)
Lemma stop_lookup keep s i g : pm_tidy s -> pm_gos (pm_stop keep s) !! i = Some g ->
  exists g0, pm_gos s !! i = Some g0 /\
    (g = g0 /\ (go_live g0 -> keep (g_part g0) = true) \/ g = g_cancel g0 /\ keep (g_part g0) = false).
Proof.
  intros [H1 H2]. cbn [pm_stop pm_gos]. rewrite cancel_all_lookup. case_decide as Hin.
  - apply elem_of_stopped in Hin as (p & Hp & Hk). destruct (H1 _ _ Hp) as (g0 & Hg & <- & _). rewrite Hg. cbn. intros [= <-]. eauto 10.
  - intros Hg. exists g. split; [done|]. left. split; [done|]. intros Hl. destruct (keep (g_part g)) eqn:Hk; [done|].
    destruct Hin. apply elem_of_stopped. eauto.
Qed.
Lemma stop_tidy keep s : pm_tidy s -> pm_tidy (pm_stop keep s).
Proof.
  intros Ht. pose proof Ht as [H1 H2]. split.
  - intros p i. cbn [pm_stop pm_running]. rewrite map_lookup_filter_Some. intros [Hp Hk]. cbn in Hk.
    destruct (H1 _ _ Hp) as (g & Hg & <- & Hl). exists g. split; [|done]. cbn [pm_stop pm_gos]. rewrite cancel_all_lookup, decide_False; [done|].
    intros (p' & Hp' & Hk')%elem_of_stopped. destruct (H1 _ _ Hp') as (g' & Hg' & E & _). congruence.
  - intros i g Hg Hl. destruct (stop_lookup _ _ _ _ Ht Hg) as (g0 & Hg0 & [[-> Hk]|[-> _]]); [|done].
    cbn [pm_stop pm_running]. apply map_lookup_filter_Some. split; [by apply H2|by apply Hk].
Qed.
Lemma start_tidy id s : pm_tidy s -> pm_tidy (start_missing id s).
Proof.
  intros Ht. pose proof Ht as [H1 H2]. unfold start_missing. destruct (pm_running s !! id) eqn:E; [done|]. split; cbn [pm_startReader pm_running pm_gos].
  - intros p i. destruct (decide (p = id)) as [->|Hne].
    + rewrite lookup_insert_eq. intros [= <-]. eexists. by rewrite list_lookup_middle by done.
    + rewrite lookup_insert_ne by done. intros Hp. destruct (H1 _ _ Hp) as (g & Hg & ?). exists g. split; [by apply lookup_app_l_Some|done].
  - intros i g [Hg|[Hi Hg]]%lookup_app_Some Hl.
    + assert (g_part g <> id) by (intros <-; rewrite (H2 i g Hg Hl) in E; done). rewrite lookup_insert_ne by done. by apply H2.
    + apply list_lookup_singleton_Some in Hg as [Hi' <-]. cbn [g_part]. rewrite lookup_insert_eq. f_equal. lia.
Qed.
Lemma reconcile_tidy desired s : pm_tidy s -> pm_tidy (mgr_reconcile desired s).
Proof.
  intros Ht. unfold mgr_reconcile. apply (stop_tidy (λ id, bool_decide (id ∈ desired))) in Ht. revert Ht. generalize (pm_stop (λ id, bool_decide (id ∈ desired)) s).
  induction desired as [|x desired IH]; intros s0 Ht; [done|]. cbn [foldl]. by apply IH, start_tidy.
Qed.

(** Reconciling and stopping change the readers only. *)
Definition same_rest (s s' : pmState) : Prop :=
  pm_fatal s' = pm_fatal s /\ pm_ctx s' = pm_ctx s /\ pm_phase s' = pm_phase s /\ pm_shared s' = pm_shared s /\ pm_failed s' = pm_failed s.
Definition fresh (t : offsetTracker) (g : goroutine) : Prop :=
  g = mkGo (g_part g) (buildPartitionReader c (g_part g)) (restoredOffset (g_part g) t) false false.
(** Every goroutine of [s'] is one of [s], perhaps cancelled since, or new. *)
Definition grown (s s' : pmState) : Prop :=
  forall i g, pm_gos s' !! i = Some g ->
    (exists g0, pm_gos s !! i = Some g0 /\ (g = g0 \/ g = g_cancel g0)) \/ fresh (sh_offsets (pm_shared s)) g.
Lemma stop_grown keep s : same_rest s (pm_stop keep s) /\ grown s (pm_stop keep s).
Proof.
  split; [by split_and!|]. intros i g. cbn [pm_stop pm_gos]. rewrite cancel_all_lookup. intros H. left. case_decide; [|eauto].
  apply fmap_Some in H as (g0 & Hg & ->). eauto.
Qed.
Lemma start_grown id s s0 : same_rest s s0 -> grown s s0 -> same_rest s (start_missing id s0) /\ grown s (start_missing id s0).
Proof.
  intros Hs Hg. unfold start_missing. destruct (pm_running s0 !! id); [done|]. split; [done|].
  intros i g. cbn [pm_startReader pm_gos]. intros [H|[_ H]]%lookup_app_Some; [by apply (Hg i)|].
  apply list_lookup_singleton_Some in H as [_ <-]. right. unfold fresh. cbn [g_part]. destruct Hs as (_ & _ & _ & -> & _). done.
Qed.
Lemma reconcile_grown desired s : same_rest s (mgr_reconcile desired s) /\ grown s (mgr_reconcile desired s).
Proof.
  unfold mgr_reconcile. destruct (stop_grown (λ id, bool_decide (id ∈ desired)) s) as [H1 H2]. revert H1 H2.
  generalize (pm_stop (λ id, bool_decide (id ∈ desired)) s).
  induction desired as [|x desired IH]; intros s0 H1 H2; [done|]. cbn [foldl]. destruct (start_grown x s s0) as [H3 H4]; [done..|]. by apply IH.
Qed.

(** The part of the invariant that growing keeps. *)
Record gos_ok (t : offsetTracker) (s : pmState) : Prop := {
  go_seek : Forall (λ g, g_conf g = buildPartitionReader c (g_part g) /\ g_seek g = restoredOffset (g_part g) t) (pm_gos s);
  go_restored : restored (sh_offsets (pm_shared s)) = restored t;
  go_dead : forall i g, pm_gos s !! i = Some g -> g_done g = true -> ended g s = true \/ pm_failed s <> [];
}.
Lemma grown_ok t s s' : same_rest s s' -> grown s s' -> gos_ok t s -> gos_ok t s'.
Proof.
  intros (_ & Ec & _ & Es & Ef) Hg [H1 H2 H3]. rewrite Forall_lookup in H1. split.
  - apply Forall_lookup. intros i g Hi. destruct (Hg _ _ Hi) as [(g0 & H0 & [->| ->])|Hn]; [by apply (H1 i)|by apply (H1 i g0)|].
    red in Hn. rewrite Hn. cbn. unfold restoredOffset. by rewrite H2.
  - by rewrite Es.
  - intros i g Hi Hd. unfold ended. rewrite Ec, Ef. destruct (Hg _ _ Hi) as [(g0 & H0 & [->| ->])|Hn].
    + by apply (H3 i).
    + by left.
    + red in Hn. rewrite Hn in Hd. done.
Qed.

(** A goroutine that ends stays where it was. *)
Lemma exit_lookup i j g0 g e s : pm_gos s !! i = Some g0 -> pm_gos (reader_exit i g0 e s) !! j = Some g ->
  (i = j /\ g = g_finish g0) \/ (i <> j /\ pm_gos s !! j = Some g).
Proof.
  intros Hi. cbn [reader_exit pm_gos]. destruct (decide (i = j)) as [->|Hne].
  - rewrite list_lookup_alter_eq, Hi. intros [= <-]. by left.
  - rewrite list_lookup_alter_ne by done. by right.
Qed.
Lemma exit_tidy i g0 e s : pm_gos s !! i = Some g0 -> pm_tidy s -> pm_tidy (reader_exit i g0 e s).
Proof.
  intros Hi [H1 H2]. split.
  - intros p j Hp. destruct (H1 p j Hp) as (g & Hg & Hpt & Hl). cbn [reader_exit pm_gos]. destruct (decide (i = j)) as [->|Hne].
    + rewrite list_lookup_alter_eq, Hg. simplify_eq. eexists. by split.
    + rewrite list_lookup_alter_ne by done. eauto.
  - intros j g Hg Hl. destruct (exit_lookup _ _ _ _ _ _ Hi Hg) as [[<- ->]|[_ Hj]]; [by apply (H2 i g0)|by apply (H2 j g)].
Qed.
Lemma exit_ok t i g0 e s : pm_gos s !! i = Some g0 -> gos_ok t s -> gos_ok t (reader_exit i g0 e s).
Proof.
  intros Hi [H1 H2 H3]. rewrite Forall_lookup in H1. split; [|done|].
  - apply Forall_lookup. intros j g Hg. destruct (exit_lookup _ _ _ _ _ _ Hi Hg) as [[<- ->]|[_ Hj]]; [by apply (H1 i g0)|by apply (H1 j g)].
  - intros j g Hg Hd. unfold ended. cbn [reader_exit pm_ctx pm_failed]. destruct (exit_lookup _ _ _ _ _ _ Hi Hg) as [[<- ->]|[_ Hj]].
    + cbn [g_finish g_cancelled]. fold (ended g0 s). destruct (ended g0 s); [by left|]. right. cbn [negb]. intros E. by apply app_nil in E as [_ ?].
    + destruct (H3 _ _ Hj Hd) as [H|H]; [by left|]. right. destruct (negb _); [|done]. intros E. by apply app_nil in E as [? _].
Qed.

Record pm_inv (t : offsetTracker) (s : pmState) : Prop := { iv_tidy : pm_tidy s; iv_phase : phase_ok s; iv_gos : gos_ok t s }.

(** Without running readers every goroutine has been cancelled. *)
Lemma none_running s i g : pm_tidy s -> pm_running s = ∅ -> pm_gos s !! i = Some g -> g_cancelled g = true.
Proof.
  intros [_ H2] Hr Hg. destruct (g_cancelled g) eqn:E; [done|]. specialize (H2 i g Hg E). by rewrite Hr, lookup_empty in H2.
Qed.
Lemma exit_phase i g0 e s : pm_gos s !! i = Some g0 -> g_done g0 = false -> pm_tidy s -> phase_ok s -> phase_ok (reader_exit i g0 e s).
Proof.
  intros Hi Hd Ht Hp. unfold phase_ok in *. cbn [reader_exit pm_phase pm_fatal pm_failed pm_running pm_ctx pm_gos].
  destruct (pm_phase s) as [|r|r] eqn:Eph.
  - rewrite Hp. destruct (negb (ended g0 s)); [|done]. by destruct (pm_failed s).
  - destruct Hp as [Hr Hp]. split; [done|]. unfold ended. rewrite (none_running _ _ _ Ht Hr Hi). exact Hp.
  - destruct Hp as (_ & _ & Hall). rewrite Forall_lookup in Hall. rewrite (Hall _ _ Hi) in Hd. done.
Qed.
Lemma stopAll_empty s : pm_running (mgr_stopAll s) = ∅.
Proof. apply map_empty. intros p. cbn [mgr_stopAll pm_stop pm_running]. apply map_lookup_filter_None. right. by intros i _. Qed.
Lemma shared_ok t s sh : restored (sh_offsets sh) = restored (sh_offsets (pm_shared s)) -> pm_inv t s -> pm_inv t (set_shared sh s).
Proof. intros E [[H1 H2] Hp [G1 G2 G3]]. split; [by split|done|]. split; [done|by cbn; rewrite E|done]. Qed.
Lemma reader_step_restored m em sh sh' r : reader_step d m em sh = (sh', r) -> restored (sh_offsets sh') = restored (sh_offsets sh).
Proof. unfold reader_step. destruct (toRecord _ _ _) as [[x|] q]; [destruct em|]; by intros [= <- _]. Qed.

Lemma stopping_inv t s r : pm_inv t s -> pm_phase s = PMLoop ->
  (match r with Ok _ => pm_ctx s = true | Err e => head (pm_failed s) = Some e end) -> pm_inv t (set_phase (PMStopping r) (mgr_stopAll s)).
Proof.
  intros [Ht _ Hg] _ Hr. destruct (stop_grown (λ _, false) s) as [Hs Hgr]. split.
  - by destruct (stop_tidy (λ _, false) s Ht).
  - split; [apply stopAll_empty|exact Hr].
  - by destruct (grown_ok t s _ Hs Hgr Hg).
Qed.
Lemma pm_inv_step t s l s' : pm_inv t s -> pm_step s l s' -> pm_inv t s'.
Proof.
  intros Hinv Hstep. pose proof Hinv as [Ht Hp Hg]. destruct Hstep as [|found Hl _|Hl Hc|e Hl Hf|i g m sh Hi Hd _ Hr|i g m sh e Hi Hd _ He Hr|i g e Hi Hd|r Hr Hall].
  - destruct Ht, Hg as [G1 G2 G3]. split; [by split| |].
    + unfold phase_ok in *. cbn [end_ctx pm_phase pm_running pm_fatal pm_failed pm_ctx pm_gos]. destruct (pm_phase s) as [|[]|[]]; naive_solver.
    + split; [done..|]. intros j g _ _. left. apply orb_true_r.
  - destruct found as [ids|]; [|done]. destruct (reconcile_grown ids s) as [Hs Hgr]. split.
    + by apply reconcile_tidy.
    + destruct Hs as (E1 & _ & E3 & _ & E5). unfold phase_ok in *. cbn [on_tick]. rewrite E3, Hl, E1, E5. by rewrite Hl in Hp.
    + by apply (grown_ok t s).
  - by apply stopping_inv.
  - assert (pm_inv t (set_phase (PMStopping (Err e)) (mgr_stopAll s))) as [[T1 T2] [P1 P2] [G1 G2 G3]].
    { apply stopping_inv; [done..|]. unfold phase_ok in Hp. rewrite Hl in Hp. congruence. }
    by repeat split.
  - apply shared_ok; [by eapply reader_step_restored|done].
  - destruct (shared_ok t s sh (reader_step_restored _ _ _ _ _ Hr) Hinv) as [Ht' Hp' Hg']. split; [by apply exit_tidy|by apply exit_phase|by apply exit_ok].
  - split; [by apply exit_tidy|by apply exit_phase|by apply exit_ok].
  - split; [by destruct Ht| |by destruct Hg]. unfold phase_ok in *. cbn [set_phase pm_phase pm_running pm_ctx pm_failed pm_gos]. rewrite Hr in Hp. naive_solver.
Qed.
Lemma pm_inv_start t seed : pm_inv t (mgr_reconcile seed (newPartitionManager t)).
Proof.
  destruct (reconcile_grown seed (newPartitionManager t)) as [Hs Hgr]. split.
  - apply reconcile_tidy. by split.
  - unfold phase_ok. destruct Hs as (-> & _ & -> & _ & ->). done.
  - eapply grown_ok; [done..|]. split; [constructor|done|done].
Qed.
Lemma pm_inv_reach t seed log s : pm_reach t seed log s -> pm_inv t s.
Proof. induction 1; [apply pm_inv_start|by eapply pm_inv_step]. Qed.

(** ** The run of the manager *)

(** C31: the partition manager keeps its readers in order.  At any point of a
    run, in any interleaving, each partition has at most one reader that is not
    being stopped, every reader was built for its partition and sought to its
    restored offset, and the reader of a running partition is alive unless the
    context ended or a failure is on its way; when the run has returned, every
    reader is closed, nil was returned only after the context ended, and an
    error is the first failure of a live reader. *)
Theorem partition_manager_run (t : offsetTracker) (seed : list Z) log s :
  pm_reach t seed log s ->
  (forall i j g g', pm_gos s !! i = Some g -> pm_gos s !! j = Some g' -> go_live g -> go_live g' -> g_part g = g_part g' -> i = j) /\
  (forall i g, pm_gos s !! i = Some g -> g_conf g = buildPartitionReader c (g_part g) /\ g_seek g = restoredOffset (g_part g) t) /\
  (pm_ctx s = false -> pm_failed s = [] -> forall p i, pm_running s !! p = Some i ->
     exists g, pm_gos s !! i = Some g /\ g_part g = p /\ g_done g = false) /\
  (forall r, pm_phase s = PMReturned r -> Forall (λ g, g_done g = true) (pm_gos s) /\ partitionCount s = 0%nat /\
     match r with Ok _ => pm_ctx s = true | Err e => head (pm_failed s) = Some e end).
Proof.
  intros Hr. destruct (pm_inv_reach _ _ _ _ Hr) as [[T1 T2] Hp [G1 G2 G3]]. split_and!.
  - intros i j g g' Hi Hj Hl Hl' E. pose proof (T2 _ _ Hi Hl) as H1. pose proof (T2 _ _ Hj Hl') as H2. rewrite E in H1. congruence.
  - intros i g Hi. rewrite Forall_lookup in G1. by apply (G1 i).
  - intros Hc Hf p i Hp'. destruct (T1 _ _ Hp') as (g & Hg & Hpt & Hl). exists g. split_and!; [done..|].
    destruct (g_done g) eqn:E; [|done]. destruct (G3 _ _ Hg E) as [H|H]; [|done]. unfold ended, go_live in *. by rewrite Hc, Hl in H.
  - intros r E. unfold phase_ok in Hp. rewrite E in Hp. destruct Hp as (H1 & H2 & H3). split_and!; [done| |done].
    unfold partitionCount. by rewrite H1, map_size_empty.
Qed.

(** ** It returns *)

Definition pm_moves (s s' : pmState) : Prop := exists l, pm_step s l s'.
Lemma exit_step i g s e : pm_gos s !! i = Some g -> g_done g = false -> pm_moves s (reader_exit i g e s).
Proof. intros. exists []. by apply PMExits. Qed.
(** Readers end one after the other. *)
Lemma finish_first s k : exists s', rtc pm_moves s s' /\ pm_phase s' = pm_phase s /\ length (pm_gos s') = length (pm_gos s) /\
  forall i g, (i < k)%nat -> pm_gos s' !! i = Some g -> g_done g = true.
Proof.
  induction k as [|k (s1 & H1 & H2 & H3 & H4)]; [exists s; split_and!; [done..|intros; lia]|].
  destruct (pm_gos s1 !! k) as [g|] eqn:Eg; [destruct (g_done g) eqn:Ed|].
  - exists s1. split_and!; [done..|]. intros i g' Hi Hg'. destruct (decide (i = k)) as [->|]; [congruence|apply (H4 i); [lia|done]].
  - exists (reader_exit k g "context canceled" s1). split_and!; [eapply rtc_r; [done|by apply exit_step]|done|by cbn; rewrite length_alter|].
    intros i g' Hi Hg'. destruct (exit_lookup _ _ _ _ _ _ Eg Hg') as [[<- ->]|[Hne Hg]]; [done|apply (H4 i); [lia|done]].
  - exists s1. split_and!; [done..|]. intros i g' Hi Hg'. destruct (decide (i = k)) as [->|]; [congruence|apply (H4 i); [lia|done]].
Qed.
Lemma stopping_returns s r : pm_phase s = PMStopping r -> exists s', rtc pm_moves s s' /\ pm_phase s' = PMReturned r.
Proof.
  intros Hr. destruct (finish_first s (length (pm_gos s))) as (s1 & H1 & H2 & H3 & H4).
  exists (set_phase (PMReturned r) s1). split; [|done]. eapply rtc_r; [done|]. exists []. apply PMReturns; [congruence|].
  apply Forall_lookup. intros i g Hg. apply (H4 i); [|done]. apply lookup_lt_Some in Hg. lia.
Qed.
(** Once the context has ended or a live reader has failed, the run can always
    wind down and return: nothing it waits for can be missing. *)
Theorem manager_returns t seed log s : pm_reach t seed log s -> pm_ctx s = true \/ pm_failed s <> [] ->
  exists s' r, rtc pm_moves s s' /\ pm_phase s' = PMReturned r.
Proof.
  intros Hr Hc. destruct (pm_inv_reach _ _ _ _ Hr) as [_ Hp _]. unfold phase_ok in Hp. destruct (pm_phase s) as [|r|r] eqn:Eph.
  - destruct Hc as [Hc|Hf].
    + destruct (stopping_returns (set_phase (PMStopping (Ok tt)) (mgr_stopAll s)) (Ok tt)) as (s' & H1 & H2); [done|].
      exists s', (Ok tt). split; [|done]. eapply rtc_l; [|done]. exists []. by apply PMSeesCtx.
    + destruct (pm_failed s) as [|e f]; [done|]. cbn in Hp.
      destruct (stopping_returns (set_phase (PMStopping (Err e)) (mgr_stopAll (take_fatal s))) (Err e)) as (s' & H1 & H2); [done|].
      exists s', (Err e). split; [|done]. eapply rtc_l; [|done]. exists []. by apply PMSeesFatal.
  - destruct (stopping_returns s r Eph) as (s' & ? & ?). eauto.
  - exists s, r. done.
Qed.

(** ** Offsets of parallel readers *)

Definition sent (x : kmsg * bool) : option Rec := if x.2 then rec_of d x.1 else None.
Definition of_part (p : Z) (x : kmsg * bool) : bool := m_Partition x.1 =? p.
(** Whatever the interleaving, the output is the messages handled, in order,
    less those that were dropped or not sent, and a partition's position is one
    past its last message handled. *)
Theorem parallel_offsets (t : offsetTracker) (seed : list Z) log s :
  pm_reach t seed log s ->
  sh_out (pm_shared s) = omap sent log /\
  forall p, consumed (sh_offsets (pm_shared s)) !! p =
    match last (List.filter (of_part p) log) with Some x => Some (wrap64 (m_Offset x.1 + 1)) | None => consumed t !! p end.
Proof.
  assert (Hone : forall m em sh sh' r, reader_step d m em sh = (sh', r) ->
    sh_out sh' = sh_out sh ++ omap sent [(m, em)] /\ consumed (sh_offsets sh') = <[m_Partition m := wrap64 (m_Offset m + 1)]> (consumed (sh_offsets sh))).
  { intros m em sh sh' r. unfold reader_step. cbn [omap list_omap sent fst snd]. unfold sent. cbn [fst snd].
    pose proof (toRecord_rec d m (sh_dlq sh)) as E. destruct (toRecord d m (sh_dlq sh)) as [x q]. cbn [fst] in E. rewrite <- E.
    destruct x as [x|], em; intros [= <- _]; cbn; rewrite ?app_nil_r; done. }
  assert (Hadd : forall log m em sh sh' r, reader_step d m em sh = (sh', r) ->
    (sh_out sh = omap sent log /\ forall p, consumed (sh_offsets sh) !! p =
       match last (List.filter (of_part p) log) with Some x => Some (wrap64 (m_Offset x.1 + 1)) | None => consumed t !! p end) ->
    sh_out sh' = omap sent (log ++ [(m, em)]) /\ forall p, consumed (sh_offsets sh') !! p =
       match last (List.filter (of_part p) (log ++ [(m, em)])) with Some x => Some (wrap64 (m_Offset x.1 + 1)) | None => consumed t !! p end).
  { intros l m em sh sh' r Hs [H1 H2]. destruct (Hone _ _ _ _ _ Hs) as [E1 E2]. rewrite omap_app, E1, H1. split; [done|].
    intros p. rewrite E2, List.filter_app. cbn [List.filter of_part fst]. unfold of_part at 2. cbn [fst]. destruct (Z.eqb_spec (m_Partition m) p) as [->|Hne].
    - by rewrite lookup_insert_eq, last_snoc.
    - by rewrite lookup_insert_ne, app_nil_r, H2. }
  assert (Hstop : forall keep s, pm_shared (pm_stop keep s) = pm_shared s) by done.
  induction 1 as [|log l s s' _ IH Hstep].
  - destruct (reconcile_grown seed (newPartitionManager t)) as [(_ & _ & _ & -> & _) _]. done.
  - destruct Hstep; rewrite ?app_nil_r; try exact IH.
    + destruct found as [ids|]; [|exact IH]. cbn [on_tick]. destruct (reconcile_grown ids s) as [(_ & _ & _ & -> & _) _]. exact IH.
    + eapply Hadd; [done|exact IH].
    + eapply Hadd; [done|exact IH].
Qed.

(** A tick that finds the partitions leaves exactly those running, and the
    readers that ran already are not restarted. *)
Theorem tick_runs_desired desired s p :
  (is_Some (pm_running (on_tick (Ok desired) s) !! p) <-> p ∈ desired) /\
  (forall i, pm_running s !! p = Some i -> p ∈ desired -> pm_running (on_tick (Ok desired) s) !! p = Some i).
Proof.
  cbn [on_tick]. unfold mgr_reconcile.
  assert (H0 : pm_running (pm_stop (λ id, bool_decide (id ∈ desired)) s) !! p = if decide (p ∈ desired) then pm_running s !! p else None).
  { cbn [pm_stop pm_running]. destruct (decide (p ∈ desired)) as [Hp|Hp].
    - destruct (pm_running s !! p) eqn:E; [apply map_lookup_filter_Some; split; [done|by apply bool_decide_eq_true]|].
      apply map_lookup_filter_None. by left.
    - apply map_lookup_filter_None. right. intros i _ H%bool_decide_eq_true. done. }
  revert H0. generalize (pm_stop (λ id, bool_decide (id ∈ desired)) s). intros s0 H0.
  assert (G : forall l s1, (is_Some (pm_running (foldl (λ s id, start_missing id s) s1 l) !! p) <-> is_Some (pm_running s1 !! p) \/ p ∈ l) /\
    (forall i, pm_running s1 !! p = Some i -> pm_running (foldl (λ s id, start_missing id s) s1 l) !! p = Some i)).
  { induction l as [|x l IH]; intros s1; [split; [set_solver|done]|]. cbn [foldl]. destruct (IH (start_missing x s1)) as [IH1 IH2].
    assert (Hx : forall i, pm_running s1 !! p = Some i -> pm_running (start_missing x s1) !! p = Some i).
    { intros i Hi. unfold start_missing. destruct (pm_running s1 !! x) eqn:E; [done|]. cbn. rewrite lookup_insert_ne; [done|]. intros ->. congruence. }
    split; [|auto]. rewrite IH1, elem_of_cons. unfold start_missing in *. destruct (pm_running s1 !! x) as [j|] eqn:E.
    - split; [tauto|]. intros [?|[->|?]]; [by left|left; by exists j|by right].
    - cbn [pm_startReader pm_running]. destruct (decide (p = x)) as [->|Hne]; [rewrite lookup_insert_eq; split; [by right; left|eauto]|].
      rewrite lookup_insert_ne by done. tauto. }
  destruct (G desired s0) as [G1 G2]. split.
  - rewrite G1, H0. case_decide; [tauto|]. split; [intros [[? ?]|?]; done|by right].
  - intros i Hi Hp. apply G2. rewrite H0. by rewrite decide_True.
Qed.
End Manager.

(** ** Run, and the stage around it *)

(** Where the readers of a source start: the configuration of each and the
    offset it is sought to, given the tracker a checkpoint may have filled. *)
Definition start_readers (src : KSource) (t : offsetTracker) : list (ReaderConfig * option Z) :=
  match so_readers src with
  | Serial rs => (λ r, (r, None)) <$> rs
  | Parallel ids => (λ g, (g_conf g, g_seek g)) <$> pm_gos (mgr_reconcile (so_cfg src) ids (newPartitionManager t))
  end.

(** [runOnce] of a single-reader source: the loop, then the deferred close. *)
Record serialRun : Type := mkSerialRun { sr_source : KafkaSource; sr_closed : bool; sr_result : result unit }.
Definition runOnce (src : KSource) (script : list (kmsg * bool * list (call unit))) (ks : KafkaSource) : serialRun :=
  let '(ks, r) := runSerial (loop_cfg (so_cfg src)) (so_delivery src) script ks in mkSerialRun ks true r.

Section Stage.
(** What the broker answers to commit calls on the reader, before and after it
    was closed. *)
Variable answers : bool -> list (call unit).

(** The goroutine of [SourceStage.Run]: the source runs to its end, then
    pending commits are flushed; errors are printed. *)
Definition stage_source (src : KSource) (script : list (kmsg * bool * list (call unit))) (ks : KafkaSource) : KafkaSource * list string :=
  let run := runOnce src script ks in
  let '(ks, dr) := Drain (loop_cfg (so_cfg src)) (kc_parallel (so_cfg src)) (answers (sr_closed run)) (sr_source run) in
  (ks, match sr_result run with Ok _ => [] | Err e => [e] end ++ match dr with Ok _ => [] | Err e => [e] end).
End Stage.

(** What the forwarding loop of a stage meets: a receive or a send may be given
    up when the hard context ends. *)
Inductive hop : Type := HopOk | HopRecvAborted | HopSendAborted.
Record fwdResult : Type := mkFwd { fw_out : list Rec; fw_in_count : nat; fw_out_count : nat; fw_result : result unit }.
Definition countData (r : Rec) : nat := if is_data r then 1 else 0.
Fixpoint forwardLoop (hops : list hop) (raw : list Rec) : fwdResult :=
  match hops, raw with
  | HopRecvAborted :: _, _ => mkFwd [] 0 0 (Err "context canceled")
  | _, [] => mkFwd [] 0 0 (Ok tt)
  | HopSendAborted :: _, r :: _ => mkFwd [] (countData r) 0 (Err "context canceled")
  | hops, r :: raw =>
      let f := forwardLoop (tail hops) raw in
      mkFwd (r :: fw_out f) (countData r + fw_in_count f) (countData r + fw_out_count f) (fw_result f)
  end.
(** [SourceStage.Run]: what it sends on and returns. *)
Definition SourceStage_Run (answers : bool -> list (call unit)) (src : KSource) (script : list (kmsg * bool * list (call unit))) (ks : KafkaSource)
    (hops : list hop) : KafkaSource * fwdResult :=
  let ks' := (stage_source answers src script ks).1 in (ks', forwardLoop hops (kout ks')).

(** The loop forwards a prefix in order, all of it when it returns nil; it
    counts the data records it sent, and at most one more on the way in. *)
Theorem forward_counts hops raw (f := forwardLoop hops raw) :
  fw_out f `prefix_of` raw /\ (fw_result f = Ok tt -> fw_out f = raw) /\
  fw_out_count f = length (List.filter is_data (fw_out f)) /\ (fw_out_count f <= fw_in_count f <= S (fw_out_count f))%nat.
Proof.
  subst f. revert hops. induction raw as [|r raw IH]; intros hops.
  - destruct hops as [|[] hops]; cbn; split_and!; try done; try lia; apply prefix_nil.
  - assert (G : forall hs, let f := forwardLoop hs raw in
      (r :: fw_out f) `prefix_of` (r :: raw) /\ (fw_result f = Ok tt -> r :: fw_out f = r :: raw) /\
      (countData r + fw_out_count f)%nat = length (List.filter is_data (r :: fw_out f)) /\
      (countData r + fw_out_count f <= countData r + fw_in_count f <= S (countData r + fw_out_count f))%nat).
    { intros hs f. destruct (IH hs) as (H1 & H2 & H3 & H4). fold f in H1, H2, H3, H4. split_and!.
      - by apply prefix_cons.
      - intros E. by rewrite H2.
      - cbn [List.filter]. unfold countData. destruct (is_data r); cbn [length]; lia.
      - lia.
      - lia. }
    destruct hops as [|[] hops]; cbn [forwardLoop tail fw_out fw_in_count fw_out_count fw_result].
    + apply G.
    + apply G.
    + split_and!; try done; try lia; apply prefix_nil.
    + unfold countData. split_and!; try done; try (destruct (is_data r); lia); apply prefix_nil.
Qed.

(** ** What a restored offset does *)

Lemma serial_step_restored cfg d m em cs t t' p o q a ks r :
  consumed t = consumed t' -> serial_step cfg d m em cs (mkKS t p o q a) = (ks, r) ->
  exists t1, consumed t1 = consumed (offsets_ ks) /\
    serial_step cfg d m em cs (mkKS t' p o q a) = (mkKS t1 (kpending ks) (kout ks) (kdlq ks) (attempted ks), r).
Proof.
  intros Ec. unfold serial_step. cbn [offsets_ kpending kout kdlq attempted]. unfold track_msg. intros H.
  repeat case_match; simplify_eq; eexists; (split; [|reflexivity]); cbn; by rewrite Ec.
Qed.
Lemma runSerial_restored cfg d script : forall t t' p o q a, consumed t = consumed t' ->
  let x := runSerial cfg d script (mkKS t p o q a) in let y := runSerial cfg d script (mkKS t' p o q a) in
  kout x.1 = kout y.1 /\ attempted x.1 = attempted y.1 /\ x.2 = y.2.
Proof.
  induction script as [|[[m em] cs] script IH]; intros t t' p o q a Ec; [done|]. cbn [runSerial].
  destruct (serial_step cfg d m em cs (mkKS t p o q a)) as [[t1 p1 o1 q1 a1] r] eqn:E.
  destruct (serial_step_restored _ _ _ _ _ _ _ _ _ _ _ _ _ Ec E) as (t2 & E2 & ->). cbn [kpending kout kdlq attempted offsets_] in *.
  destruct r; [|done]. by apply IH.
Qed.

(** Restored offsets reach the readers of a parallel source only.  A source in
    consumer-group mode starts its reader the same way and does the same with
    what it fetches whatever a checkpoint restored: it resumes where the broker
    says, not where the checkpoint says. *)
Theorem group_source_ignores_restored src rs (seeks : gmap Z Z) :
  so_readers src = Serial rs ->
  start_readers src (mkTracker ∅ seeks) = start_readers src newOffsetTracker /\
  forall script,
    let x := runOnce src script (mkKS (mkTracker ∅ seeks) [] [] [] []) in let y := runOnce src script newKafkaSource in
    kout (sr_source x) = kout (sr_source y) /\ attempted (sr_source x) = attempted (sr_source y) /\ sr_result x = sr_result y.
Proof.
  intros Hs. unfold start_readers. rewrite Hs. split; [done|]. intros script. unfold runOnce.
  pose proof (runSerial_restored (loop_cfg (so_cfg src)) (so_delivery src) script (mkTracker ∅ seeks) newOffsetTracker [] [] [] [] eq_refl) as H.
  destruct (runSerial _ _ _ (mkKS (mkTracker ∅ seeks) _ _ _ _)), (runSerial _ _ _ (mkKS newOffsetTracker _ _ _ _)) eqn:E. cbn [fst snd] in H.
  unfold newKafkaSource. rewrite E. exact H.
Qed.

(** ** Draining a closed reader *)

Lemma commit_loop_refused max policy calls : Forall (λ c, forall u, c <> CallOk u) calls ->
  forall attempt, (commit_loop max attempt policy calls).1.1 = false.
Proof.
  intros Hc. induction Hc as [|c calls Hc _ IH]; intros attempt; cbn [commit_loop]; destruct (attempt <=? max); try by destruct policy.
  destruct c as [u|e|]; [by destruct (Hc u)|apply IH|done].
Qed.
(** The reader is closed when [Run] returns, before the stage drains the source.
    As a closed reader takes no commits, the commits [Drain] is there for never
    happen: no attempt after the run succeeds. *)
Theorem drain_commits_nothing answers src script ks :
  Forall (λ c, forall u, c <> CallOk u) (answers true) ->
  exists late, attempted (stage_source answers src script ks).1 = attempted (sr_source (runOnce src script ks)) ++ late /\
    Forall (λ x, x.2 = false) late.
Proof.
  intros Hc. unfold stage_source. assert (Hcl : sr_closed (runOnce src script ks) = true) by (unfold runOnce; by case_match).
  rewrite Hcl. set (s := sr_source (runOnce src script ks)). unfold Drain. clearbody s.
  assert (Hnone : exists late, attempted s = attempted s ++ late /\ Forall (λ x, x.2 = false) late) by (exists []; by rewrite app_nil_r).
  destruct (kc_parallel _ || _); [exact Hnone|]. destruct (kpending s) as [|m p]; [exact Hnone|].
  pose proof (commit_loop_refused (commitMaxRetries (loop_cfg (so_cfg src))) (commitFailPolicy (loop_cfg (so_cfg src))) _ Hc 0) as Ht.
  unfold commitWithRetry. destruct (commit_loop _ _ _ _) as [[took r] rest]. cbn in Ht. subst took.
  cbn [fst attempted]. eexists. split; [reflexivity|]. by repeat constructor.
Qed.
Definition groupSource : KSource :=
  let c := ksc_applyDefaults (KafkaCommitBatch 2 (KafkaGroupID (b "g") (KafkaTopic (b "t") (KafkaBrokers [b "k:9092"] zeroConfig)))) in
  mkKSource c plainDelivery (Serial (newSerialReaderSupervisor c).1).
Definition refusing (closed : bool) : list (call unit) := if closed then replicate 4 (CallErr "io: read/write on closed pipe") else [CallOk tt].
Definition threeFetched : list (kmsg * bool * list (call unit)) := [(msg 0, true, []); (msg 1, true, refusing false); (msg 2, true, [])].
(** Three records in batches of two: the third is never committed, and the
    default policy reports the drain as done. *)
Example drain_loses_last_batch :
  let r := stage_source refusing groupSource threeFetched newKafkaSource in
  (λ x : list kmsg * bool, (m_Offset <$> x.1, x.2)) <$> attempted r.1 = [([0; 1], true); ([2], false)] /\ r.2 = ["context canceled"%string].
Proof. vm_compute. done. Qed.

(** ** A failed source *)

(** When a source gives up, the stage still returns nil: the stream ends as if
    it were complete. *)
Theorem source_failure_is_silent answers src script ks :
  fw_result (SourceStage_Run answers src script ks []).2 = Ok tt /\
  fw_out (SourceStage_Run answers src script ks []).2 = kout (stage_source answers src script ks).1.
Proof.
  unfold SourceStage_Run. cbn [fst snd]. generalize (kout (stage_source answers src script ks).1). intros l.
  assert (H : fw_result (forwardLoop [] l) = Ok tt) by (by induction l). split; [done|]. by apply forward_counts.
Qed.

(** ** A concrete run of the manager *)

Definition parallelCfg : kafkaSourceConfig :=
  ksc_applyDefaults (KafkaWatchPartitions Second (KafkaParallel (KafkaTopic (b "t") (KafkaBrokers [b "k:9092"] zeroConfig)))).
Definition seekTo7 : offsetTracker := mkTracker {[0 := 7]} {[0 := 7]}.
Definition pm0 : pmState := mgr_reconcile parallelCfg [0] (newPartitionManager seekTo7).
Definition pm1 : pmState := mgr_reconcile parallelCfg [0; 1] pm0.
Lemma partition_manager_run_witness :
  exists s, pm_reach parallelCfg plainDelivery seekTo7 [0] [] s /\ (g_part <$> pm_gos s) = [0; 1] /\
    (forall i g, pm_gos s !! i = Some g -> g_seek g = restoredOffset (g_part g) seekTo7).
Proof.
  assert (H : pm_reach parallelCfg plainDelivery seekTo7 [0] [] pm1).
  { apply (PMStep _ _ _ _ [] [] pm0); [apply PMStart|]. apply (PMTick _ _ pm0 (Ok [0; 1])); vm_compute; reflexivity. }
  exists pm1. split; [exact H|]. split; [vm_compute; reflexivity|]. intros i g Hg.
  destruct (partition_manager_run parallelCfg plainDelivery seekTo7 [0] [] pm1 H) as (_ & H2 & _). exact (proj2 (H2 i g Hg)).
Defined.

(** ** In-memory sources (slice.go, generator.go) *)

(** [FromSlices]; [now] is the clock at each record.  A panic is an error. *)
Definition FromSlices (now : nat -> Z) (keys values : list bytes) : result (list Rec) :=
  if (length keys =? length values)%nat then
    Ok (imap (λ i kv, mkRec (Some kv.1) (Some kv.2) (now i) (Z.of_nat i) 0 ∅ AnyNil false false []) (zip keys values))
  else Err "panic: source.FromSlices: keys and values length mismatch".
(** [Run] of both; [done i] tells that the select of record [i] takes the
    cancelled context. *)
Fixpoint slice_Run (done : nat -> bool) (i : nat) (records out : list Rec) : list Rec * result unit :=
  match records with
  | [] => (out, Ok tt)
  | r :: records => if done i then (out, Err "context canceled") else slice_Run done (S i) records (out ++ [r])
  end.
(** In order and without gaps: a run sends a prefix of the records, all of them
    exactly when it returns without error. *)
Theorem slice_runs_in_order done i records out :
  exists n, slice_Run done i records out = (out ++ take n records, if (n =? length records)%nat then Ok tt else Err "context canceled") /\ (n <= length records)%nat.
Proof.
  revert i out. induction records as [|r records IH]; intros i out; [exists 0%nat; split; [by rewrite app_nil_r|done]|]. cbn [slice_Run].
  destruct (done i); [exists 0%nat; split; [by rewrite app_nil_r|cbn; lia]|]. destruct (IH (S i) (out ++ [r])) as (n & E & Hn). exists (S n).
  rewrite E. cbn. split; [by rewrite <- app_assoc|lia].
Qed.
