(* ===== verification/Batch.v ===== *)
(** * Package sink: the batching loop and the failure policy

    [batchWriter.run] as a step function over what its select can take.  A
    flush that the loop starts carries the outcome it will have; in async mode
    the flush goroutines finish on their own ([EvDone]) and report to a channel
    of capacity one. *)
From S2P Require Import Prelude GoTime Types.

(** ** Failure policy *)

(** An [int] in the code: [FailurePolicyOther] are the values no constant names. *)
Inductive FailurePolicy : Type :=
| FailurePolicyDrop
| FailurePolicyDLQ
| FailurePolicyFail
| FailurePolicyOther (n : Z).

(** [dlq]: nil, or what its [Write] returns; [q] is the [%q] verb of fmt. *)
Definition applyFailurePolicy (q : bytes -> string) (policy : FailurePolicy) (dlq : option (Rec -> result unit))
    (r : Rec) : result unit :=
  match policy with
  | FailurePolicyDrop => Ok tt
  | FailurePolicyDLQ =>
      match dlq with
      | None => Err "weibo/sink: DLQ is nil but FailurePolicyDLQ is configured"
      | Some write => write r
      end
  | FailurePolicyFail => Err ("weibo/sink: write failed after all retries, record key=" +:+ q (str (Key r)))
  | FailurePolicyOther _ => Err "weibo/sink: write failed after all retries"
  end.

(** Each record of a failed batch in turn, up to the first error. *)
Fixpoint policy_all (q : bytes -> string) (policy : FailurePolicy) (dlq : option (Rec -> result unit)) (rs : list Rec) : result unit :=
  match rs with
  | [] => Ok tt
  | r :: rs => _ ← applyFailurePolicy q policy dlq r; policy_all q policy dlq rs
  end.
Lemma policy_all_Ok q policy dlq rs :
  policy_all q policy dlq rs = Ok tt <-> Forall (λ r, applyFailurePolicy q policy dlq r = Ok tt) rs.
Proof.
  induction rs as [|r rs IH]; [by split|]. cbn [policy_all]. rewrite Forall_cons, <- IH.
  destruct (applyFailurePolicy q policy dlq r) as [[]|]; cbn; naive_solver.
Qed.
(** Policies that let no failed record pass. *)
Definition strict_policy (policy : FailurePolicy) (dlq : option (Rec -> result unit)) : bool :=
  match policy with FailurePolicyDrop => false | FailurePolicyDLQ => bool_decide (dlq = None) | _ => true end.
Lemma strict_policy_err q policy dlq r : strict_policy policy dlq = true -> applyFailurePolicy q policy dlq r <> Ok tt.
Proof. destruct policy; cbn; try done. by destruct dlq. Qed.

(** ** The loop *)

Definition defaultBatchSize : Z := 100.

Record batchWriter {T : Type} : Type := mkBW {
  batchSize : Z; async : bool; convert : Rec -> option T;
}.
Arguments batchWriter : clear implicits.

Section Loop.
Context {T : Type}.
Variable bw : batchWriter T.

Definition size_ : Z := if batchSize bw <=? 0 then defaultBatchSize else batchSize bw.

(** [handed] are the batches given to flush, [landed] those whose flush
    succeeded, [inflight] the flushes still running; [ret] is the result once
    the loop has returned. *)
Record bstate : Type := mkB {
  batch : list T; handed : list (list T); landed : list (list T); inflight : list (list T);
  errCh : option string; ret : option (result unit);
}.
Definition b_init : bstate := mkB [] [] [] [] None None.

Inductive bev : Type :=
| EvRec (r : Rec) (o : option string)
| EvTick (o : option string)
| EvDone (i : nat) (o : option string)                                       (* an async flush finishes *)
| EvErr (outs : list (option string))                                        (* the error channel is read *)
| EvClosed (o : option string) (outs : list (option string))                 (* the input is closed *)
| EvCancel (drained : list Rec) (o : option string) (outs : list (option string)).

(** [add]: the new batch and whether it is full. *)
Definition add (r : Rec) (s : bstate) : bstate * bool :=
  match convert bw r with
  | None => (s, false)
  | Some x =>
      let batch' := batch s ++ [x] in
      (mkB batch' (handed s) (landed s) (inflight s) (errCh s) (ret s), size_ <=? Z.of_nat (length batch'))
  end.

Definition report (e : option string) (s : bstate) : bstate :=
  mkB (batch s) (handed s) (landed s) (inflight s) (match errCh s with None => e | old => old end) (ret s).

Definition doFlush (o : option string) (s : bstate) : bstate * option string :=
  match batch s with
  | [] => (s, None)
  | items =>
      if async bw then (mkB [] (handed s ++ [items]) (landed s) (inflight s ++ [items]) (errCh s) (ret s), None)
      else (mkB [] (handed s ++ [items]) (match o with None => landed s ++ [items] | Some _ => landed s end)
              (inflight s) (errCh s) (ret s), o)
  end.

(** One flush goroutine finishing. *)
Definition finish_flush (i : nat) (o : option string) (s : bstate) : bstate :=
  match inflight s !! i with
  | None => s
  | Some items =>
      report o (mkB (batch s) (handed s) (match o with None => landed s ++ [items] | Some _ => landed s end)
        (delete i (inflight s)) (errCh s) (ret s))
  end.
(** [wg.Wait]: every flush still running finishes; missing outcomes are successes. *)
Fixpoint wait_all (n : nat) (outs : list (option string)) (s : bstate) : bstate :=
  match n with
  | O => s
  | S n => wait_all n (tail outs) (finish_flush 0 (default None (head outs)) s)
  end.
Definition wgWait (outs : list (option string)) (s : bstate) : bstate := wait_all (length (inflight s)) outs s.

Definition returns (r : result unit) (s : bstate) : bstate :=
  mkB (batch s) (handed s) (landed s) (inflight s) (errCh s) (Some r).
Definition asyncErr (s : bstate) (otherwise : result unit) : result unit :=
  match errCh s with Some e => Err e | None => otherwise end.

Definition bstep (s : bstate) (e : bev) : bstate :=
  match ret s with
  | Some _ => s
  | None =>
      match e with
      | EvRec r o =>
          let '(s, full) := add r s in
          if full then
            let '(s, err) := doFlush o s in
            match err with Some e => returns (Err e) s | None => s end
          else s
      | EvTick o =>
          let '(s, err) := doFlush o s in
          match err with Some e => returns (Err e) s | None => s end
      | EvDone i o => finish_flush i o s
      | EvErr outs =>
          match errCh s with
          | Some e => returns (Err e) (wgWait outs s)
          | None => s
          end
      | EvClosed o outs =>
          let '(s, err) := doFlush o s in
          let s := wgWait outs s in
          match err with Some e => returns (Err e) s | None => returns (asyncErr s (Ok tt)) s end
      | EvCancel drained o outs =>
          let s := foldl (λ s r, (add r s).1) s drained in
          let '(s, err) := doFlush o s in
          let s := wgWait outs s in
          match err with Some e => returns (Err e) s | None => returns (asyncErr s (Err "context canceled")) s end
      end
  end.
Definition brun (evs : list bev) : bstate := foldl bstep b_init evs.

(** The records the loop reads before it returns. *)
Definition reads (e : bev) : list Rec :=
  match e with EvRec r _ => [r] | EvCancel l _ _ => l | _ => [] end.
Fixpoint read_of (s : bstate) (evs : list bev) : list Rec :=
  match evs with
  | [] => []
  | e :: evs => (match ret s with None => reads e | Some _ => [] end) ++ read_of (bstep s e) evs
  end.

(** ** Conservation *)

(** Every converted record read so far is in one handed batch or still
    buffered; no batch lands twice, and none is empty. *)
Record b_data (l : list Rec) (s : bstate) : Prop := {
  bd_all : concat (handed s) ++ batch s = omap (convert bw) l;
  bd_once : landed s ++ inflight s ⊆+ handed s;
  bd_nonempty : Forall (λ x, x <> []) (handed s);
}.
(** No flush has failed: every batch handed over landed or is in flight, and
    without async they landed in order. *)
Record b_good (s : bstate) : Prop := {
  bg_all : landed s ++ inflight s ≡ₚ handed s;
  bg_sync : async bw = false -> inflight s = [] /\ landed s = handed s;
}.
Definition b_bounded (s : bstate) : Prop := Forall (λ x, Z.of_nat (length x) <= size_) (handed s).

Record b_inv (l : list Rec) (s : bstate) : Prop := {
  bi_data : b_data l s;
  bi_run : ret s = None -> Z.of_nat (length (batch s)) < size_ /\ b_bounded s /\ (errCh s = None -> b_good s);
  bi_done : ret s = Some (Ok tt) -> batch s = [] /\ inflight s = [] /\ b_bounded s /\ b_good s;
}.

Lemma size_pos : 0 < size_.
Proof. unfold size_, defaultBatchSize. destruct (Z.leb_spec (batchSize bw) 0); lia. Qed.

Lemma add_data l r s : b_data l s -> b_data (l ++ [r]) (add r s).1.
Proof.
  intros [H1 H2 H3]. unfold add.
  destruct (convert bw r) as [x|] eqn:E; simpl; split; simpl; auto; rewrite omap_app; simpl; rewrite E.
  - by rewrite <- H1, app_assoc.
  - by rewrite app_nil_r.
Qed.
(** [add] touches nothing but the batch. *)
Lemma add_frame r s : exists l, (add r s).1 = mkB l (handed s) (landed s) (inflight s) (errCh s) (ret s) /\
  (Z.of_nat (length (batch s)) < size_ ->
   Z.of_nat (length l) <= size_ /\ ((add r s).2 = false -> Z.of_nat (length l) < size_)).
Proof.
  unfold add. destruct (convert bw r); simpl.
  - eexists; split; [done|]. rewrite length_app. simpl. intros. split; [lia|]. intros ?%Z.leb_gt. lia.
  - exists (batch s). split; [by destruct s|]. lia.
Qed.

Lemma adds_data d l s : b_data l s -> b_data (l ++ d) (foldl (λ s r, (add r s).1) s d).
Proof.
  revert l s. induction d as [|r d IH]; intros l s H; simpl; [by rewrite app_nil_r|].
  rewrite cons_middle, app_assoc. by apply IH, add_data.
Qed.
Lemma adds_frame d s : ret (foldl (λ s r, (add r s).1) s d) = ret s.
Proof.
  revert s. induction d as [|r d IH]; intros s; simpl; [done|]. rewrite IH.
  destruct (add_frame r s) as (l & -> & _). done.
Qed.

Lemma doFlush_data l o s : b_data l s -> b_data l (doFlush o s).1.
Proof.
  intros [H1 H2 H3]. unfold doFlush. destruct (batch s) as [|x xs] eqn:E; [split; simpl; rewrite ?E; auto|].
  assert (Hd : concat (handed s ++ [x :: xs]) ++ [] = omap (convert bw) l)
    by (rewrite concat_app; simpl; by rewrite !app_nil_r).
  assert (Hn : Forall (λ x, x <> []) (handed s ++ [x :: xs])) by (apply Forall_app; by repeat constructor).
  destruct (async bw); [|destruct o]; split; simpl; auto.
  - rewrite app_assoc. by apply submseteq_app.
  - by apply submseteq_inserts_r.
  - rewrite <- app_assoc, (Permutation_app_comm [x :: xs]), app_assoc. by apply submseteq_app.
Qed.
Lemma doFlush_frame o s :
  batch (doFlush o s).1 = [] /\ errCh (doFlush o s).1 = errCh s /\ ret (doFlush o s).1 = ret s.
Proof. unfold doFlush. destruct (batch s) eqn:E; [done|]. by destruct (async bw). Qed.
Lemma doFlush_good o s : b_good s -> (doFlush o s).2 = None -> b_good (doFlush o s).1.
Proof.
  intros [H1 H2]. unfold doFlush. destruct (batch s) as [|x xs]; [done|].
  destruct (async bw) eqn:Ea; simpl; intros Ho.
  - split; simpl; [|congruence]. by rewrite app_assoc, H1.
  - subst o. destruct H2 as [Hi Hl]; [done|]. split; simpl; rewrite Hi, Hl; [by rewrite app_nil_r|done].
Qed.
Lemma doFlush_bounded o s : b_bounded s -> Z.of_nat (length (batch s)) <= size_ -> b_bounded (doFlush o s).1.
Proof.
  unfold b_bounded, doFlush. intros H Hl. destruct (batch s) as [|x xs]; [done|].
  destruct (async bw); simpl; apply Forall_app; split; auto.
Qed.

Lemma finish_flush_data l i o s : b_data l s -> b_data l (finish_flush i o s).
Proof.
  intros [H1 H2 H3]. unfold finish_flush. destruct (inflight s !! i) as [x|] eqn:E; [|by split].
  split; simpl; auto. etransitivity; [|exact H2].
  pose proof (delete_Permutation _ _ _ E) as P. revert P. generalize (delete i (inflight s)). intros rest ->.
  destruct o; simpl.
  - apply submseteq_app; [done|]. by apply submseteq_cons.
  - by rewrite <- app_assoc.
Qed.
(** A finishing flush changes neither the batch nor what was handed over, and
    keeps an error already reported. *)
Lemma finish_flush_frame i o s : batch (finish_flush i o s) = batch s /\ handed (finish_flush i o s) = handed s
  /\ ret (finish_flush i o s) = ret s /\ (errCh (finish_flush i o s) = None -> errCh s = None).
Proof. unfold finish_flush. destruct (inflight s !! i); simpl; [|done]. by destruct (errCh s), o. Qed.
Lemma finish_flush_good i o s : b_good s -> errCh (finish_flush i o s) = None -> b_good (finish_flush i o s).
Proof.
  intros [H1 H2]. unfold finish_flush. destruct (inflight s !! i) as [x|] eqn:E; [|done]. simpl.
  destruct (errCh s), o; simpl; intros; try done. split; simpl.
  - rewrite <- H1, <- app_assoc. apply Permutation_app_head. symmetry. by apply delete_Permutation.
  - intros Ha. destruct (H2 Ha) as [Hi _]. by rewrite Hi in E.
Qed.

(** What a run of finishing flushes keeps. *)
Lemma wait_all_spec n outs l s : b_data l s ->
  let s' := wait_all n outs s in
  b_data l s' /\ batch s' = batch s /\ handed s' = handed s /\ ret s' = ret s /\
  (errCh s' = None -> errCh s = None) /\ (errCh s' = None -> (errCh s = None -> b_good s) -> b_good s') /\
  length (inflight s') = (length (inflight s) - n)%nat.
Proof.
  revert outs s. induction n as [|n IH]; intros outs s Hd; simpl; [naive_solver lia|].
  set (o := default None (head outs)).
  destruct (IH (tail outs) _ (finish_flush_data l 0 o s Hd)) as (H1 & H2 & H3 & H4 & H5 & H6 & H7).
  destruct (finish_flush_frame 0 o s) as (F1 & F2 & F3 & F4).
  rewrite F1 in H2. rewrite F2 in H3. rewrite F3 in H4. split_and!; auto.
  - intros He Hg. apply H6; [done|]. intros He'. apply finish_flush_good; auto.
  - rewrite H7. unfold finish_flush. destruct (inflight s) as [|y ys] eqn:Ey; simpl; rewrite ?Ey; simpl; lia.
Qed.
Lemma wgWait_spec outs l s : b_data l s ->
  let s' := wgWait outs s in
  b_data l s' /\ batch s' = batch s /\ handed s' = handed s /\ ret s' = ret s /\
  (errCh s' = None -> errCh s = None) /\ (errCh s' = None -> (errCh s = None -> b_good s) -> b_good s') /\
  inflight s' = [].
Proof.
  intros Hd. destruct (wait_all_spec (length (inflight s)) outs l s Hd) as (?&?&?&?&?&?&H).
  unfold wgWait. split_and!; auto. apply nil_length_inv. rewrite H. lia.
Qed.

Lemma returns_data l r s : b_data l s -> b_data l (returns r s).
Proof. by intros [? ? ?]. Qed.
(** A state that has returned an error owes only the accounting. *)
Lemma returns_err_inv l e s : b_data l s -> b_inv l (returns (Err e) s).
Proof. intros H. split; [by apply returns_data|done|done]. Qed.

Lemma doFlush_step_inv l o s : ret s = None -> b_data l s -> Z.of_nat (length (batch s)) <= size_ -> b_bounded s ->
  (errCh s = None -> b_good s) ->
  b_inv l (let '(s, err) := doFlush o s in match err with Some e => returns (Err e) s | None => s end).
Proof.
  intros Hr Hd Hl Hb Hg.
  pose proof (doFlush_data l o s Hd). destruct (doFlush_frame o s) as (F1 & F2 & F3).
  pose proof (doFlush_bounded o s Hb Hl). pose proof (doFlush_good o s).
  destruct (doFlush o s) as [s' [e|]]; simpl in *; [by apply returns_err_inv|].
  split; [done| |congruence]. intros _. rewrite F1, F2. split_and!; auto. apply size_pos.
Qed.

(** The last flush: everything handed over, every flush waited for. *)
Lemma last_flush_inv l o outs s r : ret s = None -> b_data l s ->
  (r = Ok tt -> Z.of_nat (length (batch s)) < size_ /\ b_bounded s /\ (errCh s = None -> b_good s)) ->
  b_inv l (let '(s, err) := doFlush o s in let s := wgWait outs s in
           match err with Some e => returns (Err e) s | None => returns (asyncErr s r) s end).
Proof.
  intros Hr Hd Hok.
  pose proof (doFlush_data l o s Hd) as Hd'. destruct (doFlush_frame o s) as (F1 & F2 & F3).
  pose proof (doFlush_bounded o s) as HB. pose proof (doFlush_good o s) as HG.
  destruct (doFlush o s) as [s' err]; simpl in *.
  destruct (wgWait_spec outs l s' Hd') as (W1 & W2 & W3 & W4 & W5 & W6 & W7).
  destruct err as [e|]; [by apply returns_err_inv|]. unfold asyncErr.
  destruct (errCh (wgWait outs s')) as [e|] eqn:Ee; [by apply returns_err_inv|].
  destruct r as [[]|e]; [|by apply returns_err_inv].
  destruct Hok as (Hl & Hb & Hg); [done|].
  assert (b_good (wgWait outs s')) as [G1 G2] by (apply W6; [done|intros; apply HG; [apply Hg; congruence|done]]).
  split; [by apply returns_data|done|]. intros _. simpl.
  split_and!; [by rewrite W2, F1|done| |by split].
  unfold b_bounded in *. simpl. rewrite W3. apply HB; [done|lia].
Qed.

Lemma bstep_inv l s e : b_inv l s -> b_inv (l ++ match ret s with None => reads e | Some _ => [] end) (bstep s e).
Proof.
  intros Hi. unfold bstep. destruct (ret s) eqn:Er; [by rewrite app_nil_r|].
  destruct Hi as [Hd Hr _]. destruct Hr as (Hl & Hb & Hg); [done|].
  destruct e as [r o|o|i o|outs|o outs|d o outs]; cbn [reads]; rewrite ?app_nil_r.
  - pose proof (add_data l r s Hd) as Ha. destruct (add_frame r s) as (lb & Hs & Hlb).
    destruct (Hlb Hl) as [Hlb1 Hlb2]. destruct (add r s) as [s' [|]]; simpl in *; subst s'.
    + apply doFlush_step_inv; simpl; auto. intros; destruct (Hg ltac:(done)); by split.
    + split; [done| |simpl; congruence]. intros _. simpl. split_and!; auto.
      intros; destruct (Hg ltac:(done)); by split.
  - apply doFlush_step_inv; auto. lia.
  - destruct (finish_flush_frame i o s) as (F1 & F2 & F3 & F4).
    split; [by apply finish_flush_data| |congruence]. intros _. rewrite F1. unfold b_bounded. rewrite F2.
    split_and!; auto. intros. apply finish_flush_good; auto.
  - destruct (errCh s) eqn:Ee; [apply returns_err_inv, wgWait_spec; done|].
    split; [done| |congruence]. intros _. rewrite Ee. auto.
  - by apply last_flush_inv.
  - apply last_flush_inv; [by rewrite adds_frame|by apply adds_data|done].
Qed.

Lemma brun_inv evs : forall l s, b_inv l s -> b_inv (l ++ read_of s evs) (foldl bstep s evs).
Proof.
  induction evs as [|e evs IH]; intros l s H; simpl; [by rewrite app_nil_r|].
  rewrite app_assoc. by apply IH, bstep_inv.
Qed.
Lemma b_init_inv : b_inv [] b_init.
Proof. split; [by split|intros _|done]. split_and!; [apply size_pos|constructor|]. by split. Qed.

(** C9: a batching sink whose loop returns without error has delivered its
    input.  For every schedule of record arrivals, ticks, background flush
    completions and flush outcomes: if [run] returns nil, the batches whose
    flush succeeded are a permutation of the batches handed over (the very
    same sequence in synchronous mode), the concatenation of the batches
    handed over is exactly the converted records read, in order, no batch is
    empty or over the batch size, and nothing is buffered or in flight. *)
Theorem batch_run_delivers evs : ret (brun evs) = Some (Ok tt) ->
  concat (handed (brun evs)) = omap (convert bw) (read_of b_init evs) /\
  landed (brun evs) ≡ₚ handed (brun evs) /\ (async bw = false -> landed (brun evs) = handed (brun evs)) /\
  Forall (λ x, x <> [] /\ Z.of_nat (length x) <= size_) (handed (brun evs)) /\
  batch (brun evs) = [] /\ inflight (brun evs) = [].
Proof.
  intros Hr. destruct (brun_inv evs [] b_init b_init_inv) as [[H1 _ H3] _ H5].
  change (foldl bstep b_init evs) with (brun evs) in *.
  destruct (H5 Hr) as (Hb & Hi & Hs & [G1 G2]).
  rewrite Hb, app_nil_r in H1. rewrite Hi, app_nil_r in G1.
  split_and!; auto; [by apply G2|]. apply Forall_and; auto.
Qed.

(** Whatever happens, errors and cancellation included, the batching loop
    neither loses track of a record nor writes a batch twice: the batches
    handed over and the buffer together are exactly the converted records
    read, in order, and the batches that landed or are still in flight are
    distinct batches handed over. *)
Theorem batch_never_duplicates evs :
  concat (handed (brun evs)) ++ batch (brun evs) = omap (convert bw) (read_of b_init evs) /\
  landed (brun evs) ++ inflight (brun evs) ⊆+ handed (brun evs).
Proof. destruct (brun_inv evs [] b_init b_init_inv) as [[H1 H2 _] _ _]. done. Qed.
End Loop.

(** Two records a batch, flushed in the background. *)
Definition demo_bw : batchWriter Z := mkBW _ 2 true (λ r, if Offset r =? 7 then None else Some (Offset r)).
Definition rec_at (o : Z) : Rec := WithOffset zeroRec o.
Lemma batch_run_delivers_witness :
  let evs := [EvRec (rec_at 1) None; EvRec (rec_at 2) None; EvRec (rec_at 7) None; EvRec (rec_at 3) None; EvClosed None []] in
  landed (brun demo_bw evs) ≡ₚ [[1; 2]; [3]].
Proof.
  intros evs. destruct (batch_run_delivers demo_bw evs) as (_ & H & _); [vm_compute; reflexivity|].
  etransitivity; [exact H|]. vm_compute. reflexivity.
Defined.
