(* ===== verification/HttpSink.v ===== *)
(** * Package sink: the HTTP sink

    Body encodings, the classification of responses, retries with the server's
    own delay, and the fate of every record of a batch (sink/http.go).  The
    endpoint's answers are functions of the attempt. *)
From S2P Require Import Prelude Paths GoTime Strconv Types Json Batch.

(** ** Quoting a string as JSON *)

Definition hex (n : Z) : ascii := Zbyte (if n <? 10 then 48 + n else 87 + n).
Definition escape (c : ascii) : bytes :=
  let n := byteZ c in
  if (n =? 34) || (n =? 92) then ["\"%char; c]
  else if n =? 8 then b "\b" else if n =? 12 then b "\f" else if n =? 10 then b "\n" else if n =? 13 then b "\r" else if n =? 9 then b "\t"
  else if (n <? 32) || (n =? 60) || (n =? 62) || (n =? 38) then b "\u00" ++ [hex (n / 16); hex (n mod 16)]
  else [c].
(** A rune of several bytes; the two line separators are escaped. *)
Definition escape_rune (s : bytes) : bytes :=
  if decide (s = Zbyte <$> [226; 128; 168]) then b "\u2028" else if decide (s = Zbyte <$> [226; 128; 169]) then b "\u2029" else s.
(** Each round consumes a byte. *)
Fixpoint quote_loop (fuel : nat) (s : bytes) : bytes :=
  match fuel, s with
  | S fuel, c :: s' =>
      match rune_len s with
      | O => b "\ufffd" ++ quote_loop fuel s'
      | 1%nat => escape c ++ quote_loop fuel s'
      | n => escape_rune (take n s) ++ quote_loop fuel (drop n s)
      end
  | _, _ => []
  end.
(** [json.Marshal] of a string. *)
Definition dquote : ascii := Zbyte 34.
Definition json_quote (s : bytes) : bytes := dquote :: quote_loop (length s) s ++ [dquote].

(** ** Bodies *)

Definition LF : ascii := Zbyte 10.
Definition CR : ascii := Zbyte 13.
Definition has_break (p : bytes) : bool := existsb (λ c, bool_decide (c = LF) || bool_decide (c = CR)) p.
(** One line of the body. *)
Definition frame (p : bytes) : bytes := if has_break p then json_quote p else p.
Definition encodeNDJSON (payloads : list bytes) : bytes := concat ((λ p, frame p ++ [LF]) <$> payloads).

(** Records the serializer accepts, with their payloads; the others go
    through the failure policy. *)
Section Serialize.
Variables (ser : Rec -> result bytes) (pol : Rec -> result unit).
Fixpoint serialize_all (batch : list Rec) : result (list (bytes * Rec)) :=
  match batch with
  | [] => Ok []
  | r :: batch =>
      match ser r with
      | Err _ => _ ← pol r; serialize_all batch
      | Ok p => rest ← serialize_all batch; Ok ((p, r) :: rest)
      end
  end.
(** The payload of a record, when it has one, and the records with one. *)
Definition payload (r : Rec) : option bytes := match ser r with Ok p => Some p | Err _ => None end.
Definition sendable (batch : list Rec) : list Rec := List.filter (λ r, bool_decide (is_Some (payload r))) batch.

Lemma serialize_all_spec batch l :
  serialize_all batch = Ok l ->
  l.*1 = omap payload batch /\ l.*2 = sendable batch /\ Forall (λ r, payload r = None -> pol r = Ok tt) batch.
Proof.
  unfold sendable. revert l. induction batch as [|r batch IH]; intros l; cbn [serialize_all omap list_omap List.filter].
  - by intros [= <-].
  - assert (Ep0 : payload r = match ser r with Ok p => Some p | Err _ => None end) by done.
    destruct (ser r) as [p|e] eqn:E; rewrite Ep0; cbn [mbind option_bind result_bind].
    + destruct (serialize_all batch) as [l'|] eqn:El; [|done]. intros [= <-]. destruct (IH l' eq_refl) as (E1 & E2 & Hf).
      rewrite bool_decide_true by by eexists. cbn [fmap list_fmap fst snd]. rewrite E1, E2. split_and!; [done|done|].
      constructor; [|done]. by rewrite Ep0.
    + destruct (pol r) as [[]|] eqn:Ep; [|done]. intros (E1 & E2 & Hf)%IH. rewrite bool_decide_false by by intros [].
      split_and!; [done|done|]. by constructor.
Qed.
Lemma sendable_all batch : Forall (λ r, payload r = None -> pol r = Ok tt) batch -> (forall r, pol r <> Ok tt) -> sendable batch = batch.
Proof.
  intros Hf Hst. unfold sendable. induction Hf as [|r batch Hr _ IH]; [done|]. cbn [List.filter].
  destruct (payload r) eqn:Ep; [rewrite bool_decide_true by (by eexists); by f_equal|]. by destruct (Hst r (Hr eq_refl)).
Qed.
End Serialize.

Section Sink.
(** [json.Valid]; [until v]: the time left to the HTTP date [v]; [q]: the [%q] verb. *)
Variables (json_Valid : bytes -> bool) (until : bytes -> option Z) (q : bytes -> string).

Definition array_elem (p : bytes) : bytes := if json_Valid p then p else json_quote p.
Definition encodeJSONArray (payloads : list bytes) : bytes :=
  "["%char :: join (b ",") (array_elem <$> payloads) ++ b "]".

Record httpSinkConfig : Type := mkHttp {
  h_jsonArray : bool;                                        (* format is HTTPBodyJSONArray *)
  h_encoder : option (list Rec -> result (bytes * bytes));   (* body, content type *)
  h_serializer : Rec -> result bytes;
  h_maxRetries : Z;
  h_failurePolicy : FailurePolicy; h_dlq : option (Rec -> result unit);
}.
(** The part of [applyDefaults] that bounds the loop. *)
Definition h_applyDefaults (c : httpSinkConfig) : httpSinkConfig :=
  mkHttp (h_jsonArray c) (h_encoder c) (h_serializer c) (if h_maxRetries c <? 0 then 0 else h_maxRetries c) (h_failurePolicy c) (h_dlq c).

Variable cfg : httpSinkConfig.
Abbreviation policy r := (applyFailurePolicy q (h_failurePolicy cfg) (h_dlq cfg) r).

(** None: every record was dropped by the policy. *)
Definition encode (batch : list Rec) : result (option (bytes * bytes * list Rec)) :=
  match h_encoder cfg with
  | Some enc => '(body, ctype) ← enc batch; Ok (Some (body, ctype, batch))
  | None =>
      l ← serialize_all (h_serializer cfg) (λ r, policy r) batch;
      Ok (match l with
          | [] => None
          | _ => Some (if h_jsonArray cfg then (encodeJSONArray l.*1, b "application/json", l.*2)
                       else (encodeNDJSON l.*1, b "application/x-ndjson", l.*2))
          end)
  end.

(** ** Requests *)

Inductive http_response : Type :=
| RBuild (e : string)                          (* the request could not be built *)
| RTransport (e : string)
| RStatus (code : Z) (retryAfter : bytes).

Definition parseRetryAfter (v : bytes) : Z :=
  if isE v then 0
  else match ParseInt v with
       | Ok secs => if secs <=? 0 then 0 else wrap64 (secs * Second)
       | Err _ => match until v with Some d => if 0 <? d then d else 0 | None => 0 end
       end.
Definition success (code : Z) : bool := (200 <=? code) && (code <? 300).
(** retryable, retryAfter, err *)
Definition send (r : http_response) : bool * Z * option string :=
  match r with
  | RBuild e => (false, 0, Some e)
  | RTransport e => (true, 0, Some e)
  | RStatus code ra =>
      if success code then (false, 0, None)
      else if (code =? 429) || (500 <=? code) then (true, parseRetryAfter ra, Some "http sink: status"%string)
      else (false, 0, Some "http sink: status"%string)
  end.

(** [resp]: the answer to each attempt; [cancelled]: the context's error when
    it is cancelled during the wait after an attempt. *)
Variables (resp : Z -> http_response) (cancelled : Z -> option string).

(** The loop with [retries] to go: requests made, waits, error. *)
Fixpoint send_loop (retries : nat) (attempt : Z) : nat * list Z * option string :=
  let '(retryable, retryAfter, err) := send (resp attempt) in
  match err with
  | None => (1%nat, [], None)
  | Some e =>
      if negb retryable then (1%nat, [], Some e)
      else match retries with
      | O => (1%nat, [], Some e)
      | S retries =>
          let backoff := if 0 <? retryAfter then retryAfter else shifted attempt in
          match cancelled attempt with
          | Some e => (1%nat, [backoff], Some e)
          | None => let '(n, ws, err) := send_loop retries (attempt + 1) in (S n, backoff :: ws, err)
          end
      end
  end.
Definition sendWithRetry : nat * list Z * option string :=
  if h_maxRetries cfg <? 0 then (0%nat, [], None) else send_loop (Z.to_nat (h_maxRetries cfg)) 0.

(** Requests made and the result. *)
Definition http_flushBatch (batch : list Rec) : nat * result unit :=
  match encode batch with
  | Err e => (0%nat, Err e)
  | Ok None => (0%nat, Ok tt)
  | Ok (Some (body, ctype, encoded)) =>
      match encoded with
      | [] => (0%nat, Ok tt)
      | _ =>
          let '(n, _, err) := sendWithRetry in
          (n, match err with None => Ok tt | Some _ => policy_all q (h_failurePolicy cfg) (h_dlq cfg) encoded end)
      end
  end.
End Sink.

(** ** Lines *)

Lemma cont_high c : cont c = true -> 128 <= byteZ c.
Proof. unfold cont, in_range. lia. Qed.
Lemma rune_multi s n : rune_len s = S (S n) -> Forall (λ c, 128 <= byteZ c) (take (S (S n)) s).
Proof.
  assert (Hr : forall lo hi c, 128 <= lo -> in_range lo hi c = true -> 128 <= byteZ c) by (unfold in_range; lia).
  destruct s as [|c1 [|c2 s2]]; cbn [rune_len]; [done|by destruct (_ <? _)|]. destruct (Z.ltb_spec (byteZ c1) 128); [done|].
  destruct (in_range 0xc2 0xdf c1 && cont c2) eqn:E2.
  { intros [= <-]. apply andb_prop in E2 as [_ E2%cont_high]. by repeat constructor. }
  destruct s2 as [|c3 s3]; [done|]. match goal with |- context [if ?x then 3%nat else _] => destruct x eqn:E3 end.
  { intros [= <-]. apply andb_prop in E3 as [E3 E3'%cont_high]. assert (128 <= byteZ c2).
    { rewrite !orb_true_iff, !andb_true_iff in E3. unfold cont in E3.
      destruct E3 as [[[_ E]|[_ E]]|[_ E]]; revert E; apply Hr; lia. }
    by repeat constructor. }
  destruct s3 as [|c4 s4]; [done|]. match goal with |- (if ?x then _ else _) = _ -> _ => destruct x eqn:E4; [|done] end.
  intros [= <-]. apply andb_prop in E4 as [[E4 E4'%cont_high]%andb_prop E4''%cont_high]. assert (128 <= byteZ c2).
  { rewrite !orb_true_iff, !andb_true_iff in E4. unfold cont in E4.
    destruct E4 as [[[_ E]|[_ E]]|[_ E]]; revert E; apply Hr; lia. }
  by repeat constructor.
Qed.

(** Bytes that stay on one line. *)
Definition inline (c : ascii) : Prop := byteZ c <> 10 /\ byteZ c <> 13.
#[export] Instance inline_dec c : Decision (inline c).
Proof. unfold inline. apply _. Defined.
Lemma escape_inline c : Forall inline (escape c).
Proof.
  assert (H : forallb (λ n, bool_decide (Forall inline (escape (Ascii.ascii_of_nat n)))) (seq 0 256) = true) by (vm_compute; reflexivity).
  rewrite forallb_forall in H. apply (bool_decide_eq_true (Forall inline (escape c))). rewrite <- (Ascii.ascii_nat_embedding c).
  apply H, in_seq. pose proof (Ascii.nat_ascii_bounded c). lia.
Qed.
Lemma b_inline s : bool_decide (Forall inline (b s)) = true -> Forall inline (b s).
Proof. apply bool_decide_eq_true. Qed.
Lemma quote_loop_inline fuel s : Forall inline (quote_loop fuel s).
Proof.
  revert s. induction fuel as [|fuel IH]; intros [|c s]; [by constructor..|]. cbn [quote_loop].
  destruct (rune_len (c :: s)) as [|[|n]] eqn:E; apply Forall_app; (split; [|apply IH]).
  - by apply b_inline.
  - apply escape_inline.
  - unfold escape_rune. case_decide; [by apply b_inline|]. case_decide; [by apply b_inline|].
    eapply Forall_impl; [by apply rune_multi|]. intros x Hx. cbv beta in Hx. split; lia.
Qed.
Lemma json_quote_inline s : Forall inline (json_quote s).
Proof.
  unfold json_quote. constructor; [vm_compute; by split|]. apply Forall_app. split; [apply quote_loop_inline|].
  constructor; [vm_compute; by split|constructor].
Qed.
Lemma frame_no_LF p : LF ∉ frame p.
Proof.
  unfold frame. destruct (has_break p) eqn:E.
  - intros Hin. pose proof (json_quote_inline p) as Hf. rewrite Forall_forall in Hf. by destruct (Hf _ Hin) as [[] _].
  - intros Hin. apply not_true_iff_false in E. apply E, existsb_exists. exists LF. split; [by apply list_elem_of_In|done].
Qed.

(** Lines frame records.  Whatever bytes the payloads hold, splitting an
    NDJSON body at line feeds gives exactly one line per record, in order: the
    payload itself, or its JSON string when it holds a line break. *)
Theorem ndjson_frames payloads :
  split_on LF (encodeNDJSON payloads) = (frame <$> payloads) ++ [[]] /\
  Forall (λ p, frame p = p \/ (has_break p = true /\ frame p = json_quote p)) payloads.
Proof.
  split.
  - induction payloads as [|p ps IH]; [done|]. unfold encodeNDJSON in *. cbn [fmap list_fmap concat].
    rewrite <- app_assoc. cbn [app]. rewrite split_on_app, (split_on_plain _ (frame p)) by apply frame_no_LF. by rewrite IH.
  - apply Forall_forall. intros p _. unfold frame. destruct (has_break p); auto.
Qed.

(** ** Reading a line back

    A reader of JSON strings, written from RFC 8259 and not from the encoder. *)
Definition hexval (c : ascii) : option Z :=
  let n := byteZ c in
  if (48 <=? n) && (n <=? 57) then Some (n - 48)
  else if (97 <=? n) && (n <=? 102) then Some (n - 87)
  else if (65 <=? n) && (n <=? 70) then Some (n - 55) else None.
Definition utf8_enc (cp : Z) : bytes :=
  Zbyte <$> (if cp <? 128 then [cp]
             else if cp <? 2048 then [192 + cp / 64; 128 + cp mod 64]
             else [224 + cp / 4096; 128 + cp / 64 mod 64; 128 + cp mod 64]).
Definition simple_escape (c : ascii) : option ascii :=
  let n := byteZ c in
  if (n =? 34) || (n =? 92) || (n =? 47) then Some c
  else if n =? 98 then Some (Zbyte 8) else if n =? 102 then Some (Zbyte 12) else if n =? 110 then Some (Zbyte 10)
  else if n =? 114 then Some (Zbyte 13) else if n =? 116 then Some (Zbyte 9) else None.
(** The characters up to the closing quote, which must be the last byte. *)
Fixpoint unescape (s : bytes) : option bytes :=
  match s with
  | [] => None
  | c :: s =>
      if byteZ c =? 34 then (match s with [] => Some [] | _ => None end)
      else if byteZ c =? 92 then
        match s with
        | [] => None
        | e :: s =>
            if byteZ e =? 117 then
              match s with
              | h1 :: h2 :: h3 :: h4 :: s =>
                  n1 ← hexval h1; n2 ← hexval h2; n3 ← hexval h3; n4 ← hexval h4;
                  app (utf8_enc (((n1 * 16 + n2) * 16 + n3) * 16 + n4)) <$> unescape s
              | _ => None
              end
            else x ← simple_escape e; app [x] <$> unescape s
        end
      else app [c] <$> unescape s
  end.
Definition json_unquote (line : bytes) : option bytes :=
  match line with c :: s => if byteZ c =? 34 then unescape s else None | [] => None end.

Lemma unescape_escape c rest : unescape (escape c ++ rest) = app [c] <$> unescape rest.
Proof. destruct c as [[] [] [] [] [] [] [] []]; reflexivity. Qed.
Lemma unescape_plain l rest : Forall (λ c, 128 <= byteZ c) l -> unescape (l ++ rest) = app l <$> unescape rest.
Proof.
  intros Hl. induction Hl as [|c l Hc _ IH]; [cbn; by destruct (unescape rest)|]. cbn [app unescape].
  destruct (Z.eqb_spec (byteZ c) 34); [lia|]. destruct (Z.eqb_spec (byteZ c) 92); [lia|]. rewrite IH. by destruct (unescape rest).
Qed.
Lemma unescape_rune l rest : Forall (λ c, 128 <= byteZ c) l -> unescape (escape_rune l ++ rest) = app l <$> unescape rest.
Proof.
  intros Hl. unfold escape_rune. case_decide as E; [subst l; reflexivity|]. case_decide as E'; [subst l; reflexivity|]. by apply unescape_plain.
Qed.
Lemma unescape_quote fuel s rest : unescape (quote_loop fuel s ++ rest) = app (coerce_loop fuel s) <$> unescape rest.
Proof.
  revert s. induction fuel as [|fuel IH]; intros s; [cbn; by destruct (unescape rest)|].
  destruct s as [|c s]; [cbn; by destruct (unescape rest)|]. cbn [quote_loop coerce_loop].
  destruct (rune_len (c :: s)) as [|[|n]] eqn:E.
  - rewrite <- app_assoc. change (unescape (b "\ufffd" ++ quote_loop fuel s ++ rest)) with (app runeError <$> unescape (quote_loop fuel s ++ rest)).
    rewrite IH. by destruct (unescape rest).
  - rewrite <- app_assoc, unescape_escape, IH. cbn [take drop]. by destruct (unescape rest).
  - rewrite <- app_assoc, unescape_rune, IH by by apply rune_multi. destruct (unescape rest); [|done]. cbn [fmap option_fmap option_map]. by rewrite <- app_assoc.
Qed.
(** A quoted payload reads back as the payload, its invalid UTF-8 replaced. *)
Lemma unquote_quote p : json_unquote (json_quote p) = Some (utf8_coerce p).
Proof.
  unfold json_unquote, json_quote. change (byteZ dquote =? 34) with true. cbv iota. rewrite unescape_quote.
  change (unescape [dquote]) with (Some (@nil ascii)). cbn [fmap option_fmap option_map]. by rewrite app_nil_r.
Qed.

(** What a line of the body carries: the payload as it is, or a JSON string that
    reads back as it when it holds a line break. *)
Definition line_carries (p line : bytes) : Prop :=
  if existsb (λ c, (byteZ c =? 10) || (byteZ c =? 13)) p then json_unquote line = Some (utf8_coerce p) else line = p.
(** [body] is one line per payload, each ended by a line feed. *)
Definition is_ndjson (payloads : list bytes) (body : bytes) : Prop :=
  exists lines, split_on LF body = lines ++ [[]] /\ Forall2 line_carries payloads lines.
Lemma break_eq c : bool_decide (c = LF) || bool_decide (c = CR) = (byteZ c =? 10) || (byteZ c =? 13).
Proof. destruct c as [[] [] [] [] [] [] [] []]; reflexivity. Qed.
Lemma has_break_eq p : has_break p = existsb (λ c, (byteZ c =? 10) || (byteZ c =? 13)) p.
Proof. unfold has_break. induction p as [|c p IH]; [done|]. cbn. by rewrite IH, break_eq. Qed.
Lemma frame_carries p : line_carries p (frame p).
Proof.
  unfold line_carries, frame. rewrite has_break_eq.
  destruct (existsb _ p); [apply unquote_quote|done].
Qed.
Lemma ndjson_body payloads : is_ndjson payloads (encodeNDJSON payloads).
Proof.
  exists (frame <$> payloads). split; [apply ndjson_frames|]. apply Forall2_fmap_r. induction payloads; constructor; [apply frame_carries|done].
Qed.

(** ** The fate of a batch *)

Section Fate.
Variables (json_Valid : bytes -> bool) (until : bytes -> option Z) (q : bytes -> string) (cfg : httpSinkConfig).
Abbreviation accepts r := (applyFailurePolicy q (h_failurePolicy cfg) (h_dlq cfg) r = Ok tt).

Variables (resp : Z -> http_response) (cancelled : Z -> option string).
Definition ok_response (r : http_response) : Prop := exists code ra, r = RStatus code ra /\ success code = true.
Lemma send_ok r : (send until r).2 = None <-> ok_response r.
Proof.
  unfold ok_response. destruct r as [e|e|code ra]; cbn; [split; [done|by intros (? & ? & ? & ?)]..|].
  destruct (success code) eqn:E; [split; [eauto|done]|]. destruct (_ || _); (split; [done|]); intros (? & ? & [= <- <-] & ?); congruence.
Qed.
Lemma send_loop_spec n attempt k ws err :
  send_loop until resp cancelled n attempt = (k, ws, err) ->
  (1 <= k <= S n)%nat /\ (err = None <-> ok_response (resp (attempt + Z.of_nat k - 1))) /\
  forall i, (i < k - 1)%nat -> (send until (resp (attempt + Z.of_nat i))).1.1 = true.
Proof.
  assert (Hone : forall a e, (send until (resp a)).2 = e -> (1 <= 1 <= S n)%nat /\
    (e = None <-> ok_response (resp (a + Z.of_nat 1 - 1))) /\
    forall i, (i < 1 - 1)%nat -> (send until (resp (a + Z.of_nat i))).1.1 = true).
  { intros a e <-. replace (a + Z.of_nat 1 - 1) with a by lia. split; [lia|]. split; [apply send_ok|intros i Hi; lia]. }
  revert Hone attempt k ws err. induction n as [|n IH]; intros Hone attempt k ws err; cbn [send_loop];
    pose proof (Hone attempt _ eq_refl) as Ha; destruct (send until (resp attempt)) as [[rt ra] [e|]] eqn:Es; cbn [snd] in Ha.
  - by destruct (negb rt); intros [= <- <- <-].
  - by intros [= <- <- <-].
  - destruct (negb rt) eqn:Hr; [by intros [= <- <- <-]|]. destruct (cancelled attempt) as [e'|].
    { intros [= <- <- <-]. destruct Ha as (H1 & H2 & H3). split_and!; [lia|lia| |done]. destruct H2 as [_ H2].
      split; [done|]. intros H%H2. done. }
    destruct (send_loop until resp cancelled n (attempt + 1)) as [[k' ws'] err'] eqn:El. intros [= <- <- <-].
    destruct (IH ltac:(intros a e' He; destruct (Hone a e' He) as (? & ? & ?); split_and!; done || lia) _ _ _ _ El) as (H1 & H2 & H3).
    split; [lia|]. split.
    + by replace (attempt + Z.of_nat (S k') - 1) with (attempt + 1 + Z.of_nat k' - 1) by lia.
    + intros [|i] Hi; [rewrite Z.add_0_r, Es; by destruct rt|]. replace (attempt + Z.of_nat (S i)) with (attempt + 1 + Z.of_nat i) by lia.
      apply H3. lia.
  - by intros [= <- <- <-].
Qed.

(** The last of [k] requests was answered with success. *)
Definition delivered (k : nat) : Prop := (1 <= k)%nat /\ ok_response (resp (Z.of_nat k - 1)).

End Fate.

(** An endpoint that is busy once. *)
Definition busyOnce (attempt : Z) : http_response := if attempt =? 0 then RStatus 503 (b "2") else RStatus 200 [].
Definition httpDemo : httpSinkConfig :=
  mkHttp false None (λ r, match Value r with Some v => Ok v | None => Err "no value" end) 2 FailurePolicyFail None.
Definition httpBatch : list Rec := [NewRecord 0 None (Some (b "{}")); NewRecord 0 None (Some (Zbyte <$> [97; 10; 98]))].
Example http_lines : split_on LF (encodeNDJSON [b "{}"; Zbyte <$> [97; 10; 98]]) = [b "{}"; dquote :: b "a\nb" ++ [dquote]; []].
Proof. vm_compute. reflexivity. Qed.
