(* ===== verification/Postgres.v ===== *)
(** * Package sink: the Postgres sink

    Rows of a batch are grouped by table and columns, and each group is one
    multi-row statement with numbered placeholders, retried as a whole
    (sink/postgres.go, sink/postgres_options.go). *)
From S2P Require Import Prelude Paths GoTime Strconv Types Batch.

Section Postgres.
Variable V : Type.                       (* column values *)
Variable q : bytes -> string.            (* the [%q] verb *)

Record pendingRow : Type := mkRow { row_table : bytes; row_columns : list bytes; row_values : list V; row_record : Rec }.

(** [mapper]: table, columns, values. *)
Definition mapRecord (mapper : Rec -> bytes * list bytes * list V) (r : Rec) : option pendingRow :=
  let '(table, columns, values) := mapper r in
  if isE table || (length columns =? 0)%nat || negb (length columns =? length values)%nat then None
  else Some (mkRow table columns values r).

(** ** Statements *)

Inductive PostgresWriteMode : Type := ModeUnset | PostgresInsert | PostgresUpsert | ModeOther (m : bytes).
Definition is_upsert (m : PostgresWriteMode) : bool := match m with PostgresUpsert => true | _ => false end.
Definition dq : ascii := Zbyte 34.
Definition quoted (c : bytes) : bytes := dq :: c ++ [dq].
Definition double_quotes (s : bytes) : bytes := concat ((λ c, if decide (c = dq) then [dq; dq] else [c]) <$> s).
Definition quotePostgresTable (table : bytes) : bytes :=
  join (b ".") ((λ part, quoted (double_quotes part)) <$> split_on "."%char table).

(** One parenthesized row, and the placeholder after it. *)
Fixpoint row_text (first : bool) (columns : list bytes) (placeholder : Z) : bytes * Z :=
  match columns with
  | [] => ([], placeholder)
  | _ :: columns =>
      let '(t, p) := row_text false columns (placeholder + 1) in
      ((if first then [] else b ",") ++ "$"%char :: dec_ placeholder ++ t, p)
  end.
Fixpoint rows_text (first : bool) (rowCount : nat) (columns : list bytes) (placeholder : Z) : bytes :=
  match rowCount with
  | O => []
  | S n =>
      let '(t, p) := row_text true columns placeholder in
      (if first then [] else b ",") ++ "("%char :: t ++ ")"%char :: rows_text false n columns p
  end.
Definition updates_of (columns conflictColumns updateColumns : list bytes) : list bytes :=
  match updateColumns with
  | [] => List.filter (λ c, negb (bool_decide (c ∈ conflictColumns))) columns
  | _ => updateColumns
  end.
Definition conflict_text (columns conflictColumns updateColumns : list bytes) : bytes :=
  b " ON CONFLICT (" ++ join (b ",") (quoted <$> conflictColumns) ++ b ")" ++
  match updates_of columns conflictColumns updateColumns with
  | [] => b " DO NOTHING"
  | us => b " DO UPDATE SET " ++ join (b ",") ((λ c, quoted c ++ b "=EXCLUDED." ++ quoted c) <$> us)
  end.
Definition buildPostgresWriteQuery (table : bytes) (columns : list bytes) (rowCount : nat) (mode : PostgresWriteMode)
    (conflictColumns updateColumns : list bytes) : bytes :=
  b "INSERT INTO " ++ quotePostgresTable table ++ b " (" ++ join (b ",") (quoted <$> columns) ++ b ") VALUES " ++
  rows_text true rowCount columns 1 ++
  (if is_upsert mode then conflict_text columns conflictColumns updateColumns else []).

(** ** Configuration *)

Record postgresSinkConfig : Type := mkPg {
  pg_maxRetries : Z; pg_mode : PostgresWriteMode; pg_conflictCols : list bytes; pg_updateCols : list bytes;
  pg_failurePolicy : FailurePolicy; pg_dlq : option (Rec -> result unit);
}.
Definition pg_applyDefaults (c : postgresSinkConfig) : postgresSinkConfig :=
  mkPg (if pg_maxRetries c =? 0 then 3 else pg_maxRetries c)
    (match pg_mode c with ModeUnset => PostgresInsert | m => m end) (pg_conflictCols c) (pg_updateCols c) (pg_failurePolicy c) (pg_dlq c).
(** [ident]: postgresIdentRe matches. *)
Definition validateWriteMode (ident : bytes -> bool) (c : postgresSinkConfig) : result unit :=
  match pg_mode c with
  | PostgresInsert =>
      match pg_conflictCols c, pg_updateCols c with
      | [], [] => Ok tt
      | _, _ => Err "postgres conflict/update columns require upsert mode"
      end
  | PostgresUpsert =>
      match pg_conflictCols c with
      | [] => Err "postgres upsert requires at least one conflict column"
      | _ => if negb (forallb ident (pg_conflictCols c)) then Err "unsafe postgres conflict column"
             else if negb (forallb ident (pg_updateCols c)) then Err "unsafe postgres update column" else Ok tt
      end
  | _ => Err "unsupported postgres write mode"
  end.

(** ** Groups *)

Abbreviation groupKey := (bytes * bytes)%type.
Definition row_key (row : pendingRow) : groupKey := (row_table row, join (b ",") (row_columns row)).
(** The map of groups with the order of their first rows. *)
Fixpoint group_add (row : pendingRow) (gs : list (groupKey * list pendingRow)) : list (groupKey * list pendingRow) :=
  match gs with
  | [] => [(row_key row, [row])]
  | (k, rows) :: gs => if decide (k = row_key row) then (k, rows ++ [row]) :: gs else (k, rows) :: group_add row gs
  end.
Definition groups (rows : list pendingRow) : list (groupKey * list pendingRow) := foldl (λ gs r, group_add r gs) [] rows.

(** ** Execution *)

Variable cfg : postgresSinkConfig.
(** What the database answers to a statement on an attempt; [cancelled]: the
    context's error when it is cancelled during the wait after it. *)
Variables (exec : bytes -> list V -> Z -> option string) (cancelled : Z -> option string).

Definition group_query (table : bytes) (columns : list bytes) (rows : list pendingRow) : bytes :=
  buildPostgresWriteQuery table columns (length rows) (pg_mode cfg) (pg_conflictCols cfg) (pg_updateCols cfg).
Definition group_args (rows : list pendingRow) : list V := concat (row_values <$> rows).

Inductive retry_end : Type := Done | Cancelled (e : string) | Exhausted (lastErr : option string).
Fixpoint exec_loop (retries : nat) (query : bytes) (args : list V) (attempt : Z) : nat * retry_end :=
  match exec query args attempt with
  | None => (1%nat, Done)
  | Some e =>
      match retries with
      | O => (1%nat, Exhausted (Some e))
      | S retries =>
          match cancelled attempt with
          | Some c => (1%nat, Cancelled c)
          | None => let '(n, r) := exec_loop retries query args (attempt + 1) in (S n, r)
          end
      end
  end.
Definition exec_retry (query : bytes) (args : list V) : nat * retry_end :=
  if pg_maxRetries cfg <? 0 then (0%nat, Exhausted None) else exec_loop (Z.to_nat (pg_maxRetries cfg)) query args 0.

(** Statements sent, and whether the group was written. *)
Definition insertGroupWithRetry (table : bytes) (columns : list bytes) (rows : list pendingRow) : nat * bool * result unit :=
  match exec_retry (group_query table columns rows) (group_args rows) with
  | (n, Done) => (n, true, Ok tt)
  | (n, Cancelled e) => (n, false, Err e)
  | (n, Exhausted _) => (n, false, policy_all q (pg_failurePolicy cfg) (pg_dlq cfg) (row_record <$> rows))
  end.
Fixpoint insert_groups (gs : list (groupKey * list pendingRow)) : list (list pendingRow) * result unit :=
  match gs with
  | [] => ([], Ok tt)
  | (k, rows) :: gs =>
      match insertGroupWithRetry k.1 (match rows with r :: _ => row_columns r | [] => [] end) rows with
      | (_, w, Ok _) => let '(done, r) := insert_groups gs in ((if w then [rows] else []) ++ done, r)
      | (_, _, Err e) => ([], Err e)
      end
  end.
(** Groups written, and the result. *)
Definition insertBatch (rows : list pendingRow) : list (list pendingRow) * result unit := insert_groups (groups rows).
End Postgres.

Arguments mkRow {V}. Arguments row_table {V}. Arguments row_columns {V}. Arguments row_values {V}. Arguments row_record {V}.
Arguments row_key {V}. Arguments groups {V}. Arguments group_add {V}. Arguments group_args {V}. Arguments group_query {V}.
Arguments insertGroupWithRetry {V}. Arguments insert_groups {V}. Arguments insertBatch {V}. Arguments exec_retry {V}. Arguments exec_loop {V}.

(** ** Groups partition the batch *)

Section Groups.
Context {V : Type}.
Implicit Types (rows : list (pendingRow V)) (ks : list (bytes * bytes)).

Definition rows_of rows (k : bytes * bytes) : list (pendingRow V) := List.filter (λ r, bool_decide (row_key r = k)) rows.
Definition add_key ks (k : bytes * bytes) : list (bytes * bytes) := if decide (k ∈ ks) then ks else ks ++ [k].
(** The keys in the order of their first rows. *)
Definition keys_of rows : list (bytes * bytes) := foldl add_key [] (row_key <$> rows).

Lemma rows_of_snoc rows r k : rows_of (rows ++ [r]) k = rows_of rows k ++ (if decide (row_key r = k) then [r] else []).
Proof. unfold rows_of. rewrite List.filter_app. f_equal. cbn. case_decide; [by rewrite bool_decide_true|by rewrite bool_decide_false]. Qed.
Lemma rows_of_new rows k : k ∉ row_key <$> rows -> rows_of rows k = [].
Proof.
  unfold rows_of. induction rows as [|r rows IH]; [done|]. rewrite fmap_cons, not_elem_of_cons. intros [H1 H2]. cbn.
  rewrite bool_decide_false by congruence. by apply IH.
Qed.
Lemma group_add_keys rows r ks :
  NoDup ks -> (row_key r ∉ ks -> rows_of rows (row_key r) = []) ->
  group_add r ((λ k, (k, rows_of rows k)) <$> ks) = (λ k, (k, rows_of (rows ++ [r]) k)) <$> add_key ks (row_key r).
Proof.
  assert (Hno : forall ks, row_key r ∉ ks -> (λ k, (k, rows_of (rows ++ [r]) k)) <$> ks = (λ k, (k, rows_of rows k)) <$> ks).
  { intros ks' Hk. apply list_fmap_ext. intros i k Hi. rewrite rows_of_snoc, decide_False, app_nil_r; [done|].
    intros <-. apply Hk. by eapply list_elem_of_lookup_2. }
  intros Hn. induction Hn as [|k ks Hk Hn IH]; intros Hks; unfold add_key in *; cbn [fmap list_fmap group_add].
  - rewrite decide_False by apply not_elem_of_nil. cbn. rewrite rows_of_snoc, decide_True by done.
    by rewrite Hks by apply not_elem_of_nil.
  - destruct (decide (k = row_key r)) as [E|E]; [subst k|].
    + rewrite decide_True by apply list_elem_of_here. rewrite fmap_cons, Hno by done. by rewrite rows_of_snoc, decide_True.
    + rewrite IH by (intros H; apply Hks; rewrite not_elem_of_cons; by split).
      assert (Ek : (row_key r ∈ k :: ks) <-> (row_key r ∈ ks)) by (rewrite elem_of_cons; naive_solver).
      destruct (decide (row_key r ∈ ks)); [rewrite decide_True by by apply Ek|rewrite decide_False by by rewrite Ek];
        cbn [app]; rewrite fmap_cons, rows_of_snoc, (decide_False (P := row_key r = k)), app_nil_r by done; done.
Qed.

Record keys_inv rows ks : Prop := { ki_nodup : NoDup ks; ki_all : forall k, k ∈ ks <-> k ∈ row_key <$> rows }.
Lemma keys_of_inv rows : keys_inv rows (keys_of rows).
Proof.
  induction rows as [|r rows IH] using rev_ind; [split; [constructor|done]|].
  unfold keys_of in *. rewrite fmap_app, foldl_app. cbn [fmap list_fmap foldl]. destruct IH as [Hn Ha]. unfold add_key at 1.
  case_decide as E; (split; [|intros k; rewrite fmap_app, ?elem_of_app, Ha; cbn; rewrite list_elem_of_singleton]).
  - done.
  - rewrite Ha in E. naive_solver.
  - apply NoDup_app. split_and!; [done| |apply NoDup_singleton]. intros k Hk ->%list_elem_of_singleton. done.
  - done.
Qed.
Lemma groups_eq rows : groups rows = (λ k, (k, rows_of rows k)) <$> keys_of rows.
Proof.
  induction rows as [|r rows IH] using rev_ind; [done|]. unfold groups in *. rewrite foldl_app. cbn [foldl]. rewrite IH.
  destruct (keys_of_inv rows) as [Hn Ha]. rewrite group_add_keys; [|done|intros H; apply rows_of_new; by rewrite <- Ha].
  unfold keys_of. rewrite fmap_app, foldl_app. done.
Qed.
Lemma group_add_perm r (gs : list (bytes * bytes * list (pendingRow V))) : concat (group_add r gs).*2 ≡ₚ concat gs.*2 ++ [r].
Proof.
  induction gs as [|[k rows] gs IH]; [done|]. cbn [group_add]. case_decide; cbn [fmap list_fmap snd concat].
  - rewrite <- !app_assoc. f_equiv. apply Permutation_app_comm.
  - rewrite IH. by rewrite app_assoc.
Qed.
Lemma groups_perm rows : concat (groups rows).*2 ≡ₚ rows.
Proof.
  induction rows as [|r rows IH] using rev_ind; [done|]. unfold groups in *. rewrite foldl_app. cbn [foldl].
  by rewrite group_add_perm, IH.
Qed.
End Groups.

(** ** Placeholders and arguments *)

Definition comma : ascii := ","%char.
(** The [j]th placeholder of row [i] of [c] columns. *)
Definition placeholder (c i j : nat) : bytes := "$"%char :: dec_ (Z.of_nat (i * c + j) + 1).
Definition row_spec (c i : nat) : bytes := "("%char :: join (b ",") (placeholder c i <$> seq 0 c) ++ b ")".

Lemma join_cons (sep x : bytes) l : join sep (x :: l) = x ++ match l with [] => [] | _ => sep ++ join sep l end.
Proof. destruct l; [by rewrite app_nil_r|done]. Qed.
Lemma row_text_spec first columns p :
  row_text first columns p =
  (match columns with [] => [] | _ => if first then [] else b "," end
     ++ join (b ",") ((λ j, "$"%char :: dec_ (p + Z.of_nat j)) <$> seq 0 (length columns)), p + Z.of_nat (length columns)).
Proof.
  revert first p. induction columns as [|col columns IH]; intros first p; cbn [row_text length].
  - by rewrite Z.add_0_r.
  - rewrite IH. cbn [seq]. rewrite fmap_cons, join_cons. f_equal; [|lia].
    rewrite <- fmap_S_seq, <- list_fmap_compose. rewrite Z.add_0_r. cbn [app]. do 2 f_equal.
    erewrite (list_fmap_ext (λ j, _)) at 1; [|intros ? j _; unfold compose; by replace (p + 1 + Z.of_nat j) with (p + Z.of_nat (S j)) by lia].
    by destruct columns.
Qed.
Lemma rows_text_spec first n columns i :
  rows_text first n columns (Z.of_nat (i * length columns) + 1) =
  match n with O => [] | _ => if first then [] else b "," end ++ join (b ",") (row_spec (length columns) <$> seq i n).
Proof.
  revert first i. induction n as [|n IH]; intros first i; [done|]. cbn [rows_text]. rewrite row_text_spec.
  replace (Z.of_nat (i * length columns) + 1 + Z.of_nat (length columns)) with (Z.of_nat (S i * length columns) + 1) by lia.
  rewrite IH. cbn [seq]. rewrite fmap_cons, join_cons.
  assert (Er : (λ j, "$"%char :: dec_ (Z.of_nat (i * length columns) + 1 + Z.of_nat j)) <$> seq 0 (length columns)
    = placeholder (length columns) i <$> seq 0 (length columns)).
  { apply list_fmap_ext. intros ? j _. unfold placeholder. do 2 f_equal. lia. }
  rewrite Er. replace (match columns with [] => [] | _ => [] end) with (@nil ascii) by by destruct columns.
  change (row_spec (length columns) i) with ("("%char :: join (b ",") (placeholder (length columns) i <$> seq 0 (length columns)) ++ b ")").
  destruct n as [|n]; cbn [seq]; rewrite ?fmap_cons; cbn [app fmap list_fmap join]; rewrite <- ?app_assoc; done.
Qed.

Section Binds.
Context {V : Type}.
(** What [mapRecord] lets through, with column names that have no comma. *)
Record row_ok (r : pendingRow V) : Prop := {
  rk_cols : row_columns r <> [];
  rk_len : length (row_columns r) = length (row_values r);
  rk_comma : Forall (λ c, comma ∉ c) (row_columns r);
}.
Lemma mapRecord_ok mapper r row :
  mapRecord V mapper r = Some row -> Forall (λ c, comma ∉ c) (row_columns row) -> row_ok row /\ row_record row = r.
Proof.
  unfold mapRecord. destruct (mapper r) as [[t cols] vs]. destruct (_ || _) eqn:E; [done|]. intros [= <-] Hc. cbn in *.
  apply orb_false_iff in E as [[_ E1]%orb_false_iff E2%negb_false_iff]. apply Nat.eqb_neq in E1. apply Nat.eqb_eq in E2.
  split; [|done]. split; cbn; [by destruct cols|done|done].
Qed.
Lemma same_key_columns (r r' : pendingRow V) : row_ok r -> row_ok r' -> row_key r = row_key r' -> row_columns r = row_columns r'.
Proof.
  intros [H1 _ H2] [H1' _ H2'] E. apply (f_equal (λ k, split_on comma k.2)) in E. unfold row_key in E. cbn [snd] in E.
  change (b ",") with [comma] in E. by rewrite !split_on_join in E.
Qed.
Lemma group_args_lookup c (g : list (pendingRow V)) i j row :
  Forall (λ r, length (row_values r) = c) g -> g !! i = Some row -> (j < c)%nat ->
  group_args g !! (i * c + j)%nat = row_values row !! j.
Proof.
  unfold group_args. intros Hg. revert i. induction Hg as [|r g Hr Hg IH]; intros i Hi Hj; [by rewrite lookup_nil in Hi|]; destruct i as [|i]; cbn in Hi |- *.
  - injection Hi as ->. apply lookup_app_l. lia.
  - rewrite lookup_app_r by lia. replace (c + i * c + j - length (row_values r))%nat with (i * c + j)%nat by lia. by apply IH.
Qed.
Lemma group_args_length c (g : list (pendingRow V)) : Forall (λ r, length (row_values r) = c) g -> length (group_args g) = (length g * c)%nat.
Proof. unfold group_args. induction 1 as [|r g Hr _ IH]; [done|]. cbn. rewrite length_app, IH. lia. Qed.

(** Every value is bound to its column.  A batch is split into groups that
    together are its rows, each group holding the rows of one table and
    column list in their order; the statement of a group numbers its
    placeholders row by row without gaps, and the argument at each placeholder
    is that row's value for that column. *)
Theorem postgres_binds (rows : list (pendingRow V)) :
  Forall row_ok rows ->
  concat (groups rows).*2 ≡ₚ rows /\ NoDup (groups rows).*1 /\
  Forall (λ kg : bytes * bytes * list (pendingRow V), let g := kg.2 in
    g = rows_of rows kg.1 /\
    exists columns, columns <> [] /\ Forall (λ r, row_table r = kg.1.1 /\ row_columns r = columns) g /\ g <> [] /\
      rows_text true (length g) columns 1 = join (b ",") (row_spec (length columns) <$> seq 0 (length g)) /\
      length (group_args g) = (length g * length columns)%nat /\
      forall i j row, g !! i = Some row -> (j < length columns)%nat ->
        group_args g !! (i * length columns + j)%nat = row_values row !! j) (groups rows).
Proof.
  intros Hok. split; [apply groups_perm|]. rewrite groups_eq. destruct (keys_of_inv rows) as [Hn Ha].
  split; [by rewrite <- list_fmap_compose, list_fmap_id|].
  apply Forall_fmap, Forall_forall. intros k Hk. cbn [fst snd compose]. split; [done|].
  apply Ha, list_elem_of_fmap in Hk as (r0 & -> & Hr0). assert (Hg : forall r, r ∈ rows_of rows (row_key r0) <-> r ∈ rows /\ row_key r = row_key r0).
  { intros r. unfold rows_of. rewrite list_elem_of_In, filter_In, bool_decide_eq_true, <- list_elem_of_In. done. }
  rewrite Forall_forall in Hok. pose proof (Hok _ Hr0) as [Hc0 _ _].
  assert (Hcols : Forall (λ r, row_table r = (row_key r0).1 /\ row_columns r = row_columns r0) (rows_of rows (row_key r0))).
  { apply Forall_forall. intros r [Hr Ek]%Hg. split; [by rewrite <- Ek|]. by apply same_key_columns; [apply Hok..|]. }
  assert (Hlen : Forall (λ r, length (row_values r) = length (row_columns r0)) (rows_of rows (row_key r0))).
  { apply Forall_forall. intros r Hr. rewrite Forall_forall in Hcols. destruct (Hcols r Hr) as [_ <-]. apply Hg in Hr as [Hr _].
    symmetry. by apply Hok. }
  exists (row_columns r0). split_and!; try done.
  - intros E. assert (Hin : r0 ∈ rows_of rows (row_key r0)) by by apply Hg. rewrite E in Hin. by apply elem_of_nil in Hin.
  - rewrite (rows_text_spec true _ (row_columns r0) 0). by destruct (length (rows_of rows (row_key r0))).
  - by apply group_args_length.
  - intros i j row Hi Hj. by apply group_args_lookup.
Qed.
End Binds.

(** ** The fate of a batch *)

Section Fate.
Context {V : Type}.
Variables (q : bytes -> string) (cfg : postgresSinkConfig) (exec : bytes -> list V -> Z -> option string) (cancelled : Z -> option string).
Abbreviation accepts r := (applyFailurePolicy q (pg_failurePolicy cfg) (pg_dlq cfg) (row_record r) = Ok tt).

Lemma exec_loop_done retries query args a n :
  exec_loop exec cancelled retries query args a = (n, Done) -> exists i, 0 <= i < Z.of_nat n /\ exec query args (a + i) = None.
Proof.
  revert a n. induction retries as [|retries IH]; intros a n; cbn [exec_loop]; destruct (exec query args a) as [e|] eqn:E; try done.
  - intros [= <-]. exists 0. split; [lia|]. by rewrite Z.add_0_r.
  - destruct (cancelled a); [done|]. destruct (exec_loop _ _ _ _ _ _) as [n' r] eqn:El. intros [= <- ->].
    destruct (IH _ _ El) as (i & Hi & Hx). exists (i + 1). split; [lia|]. by replace (a + (i + 1)) with (a + 1 + i) by lia.
  - intros [= <-]. exists 0. split; [lia|]. by rewrite Z.add_0_r.
Qed.

(** A group the database accepted, as one statement. *)
Definition written (table : bytes) (g : list (pendingRow V)) : Prop :=
  exists i, 0 <= i /\ exec (group_query cfg table (match g with r :: _ => row_columns r | [] => [] end) g) (group_args g) i = None.

Lemma insert_groups_fate gs done :
  insert_groups q cfg exec cancelled gs = (done, Ok tt) ->
  exists failed, concat gs.*2 ≡ₚ concat done ++ failed /\ Forall (λ r, accepts r) failed /\
    Forall (λ g, exists k, (k, g) ∈ gs /\ written k.1 g) done.
Proof.
  revert done. induction gs as [|[k g] gs IH]; intros done; cbn [insert_groups].
  - intros [= <-]. by exists [].
  - destruct (insertGroupWithRetry _ _ _ _ _ _ g) as [[n w] [[]|e]] eqn:Eg; [|done].
    destruct (insert_groups q cfg exec cancelled gs) as [done' r] eqn:Er. intros [= <- ->].
    destruct (IH done' eq_refl) as (failed & Hp & Ha & Hw).
    assert (Hw' : Forall (λ g', exists k', (k', g') ∈ (k, g) :: gs /\ written k'.1 g') done')
      by (eapply Forall_impl; [exact Hw|]; intros g' (k' & Hin & ?); exists k'; split; [by right|done]).
    unfold insertGroupWithRetry in Eg. destruct (exec_retry _ _ _ _ _) as [n' []] eqn:Ex; [injection Eg as <- <-|discriminate Eg|injection Eg as <- <- Hpa].
    + exists failed. cbn [fmap list_fmap snd concat app]. split_and!; [by rewrite Hp, app_assoc|done|]. constructor; [|done]. exists k. split; [left|].
      unfold exec_retry in Ex. destruct (_ <? 0); [done|]. apply exec_loop_done in Ex as (i & Hi & Hx). exists i. split; [lia|exact Hx].
    + exists (g ++ failed). cbn [fmap list_fmap snd concat app]. split_and!; [|apply Forall_app; split; [|done]|done].
      * rewrite Hp, !app_assoc. f_equiv. apply Permutation_app_comm.
      * apply policy_all_Ok in Hpa. by apply Forall_fmap in Hpa.
Qed.

(** A Postgres flush accounts for every row.  When inserting a batch
    returns nil, its rows are those of the groups the database accepted, each
    group in one statement, and rows the failure policy took; under a policy
    that passes nothing, nil means every row is in the database. *)
Theorem postgres_flush_accounts (rows : list (pendingRow V)) done :
  insertBatch q cfg exec cancelled rows = (done, Ok tt) ->
  (exists failed, rows ≡ₚ concat done ++ failed /\ Forall (λ r, accepts r) failed) /\
  Forall (λ g, exists table, written table g /\ Forall (λ r, row_table r = table) g) done /\
  (strict_policy (pg_failurePolicy cfg) (pg_dlq cfg) = true -> rows ≡ₚ concat done).
Proof.
  intros H. destruct (insert_groups_fate _ _ H) as (failed & Hp & Ha & Hw). rewrite groups_perm in Hp. split_and!.
  - by exists failed.
  - eapply Forall_impl; [exact Hw|]. intros g (k & Hin & Hwr). exists k.1. split; [done|].
    rewrite groups_eq in Hin. apply list_elem_of_fmap in Hin as (k' & [= -> ->] & _). apply Forall_forall.
    intros r Hr. unfold rows_of in Hr. apply list_elem_of_In, filter_In in Hr as [_ Hk%bool_decide_eq_true]. by rewrite <- Hk.
  - intros Hst. destruct failed as [|r failed]; [by rewrite app_nil_r in Hp|]. apply Forall_cons in Ha as [Ha _].
    by destruct (strict_policy_err q _ _ (row_record r) Hst).
Qed.
End Fate.

(** ** Concrete batches *)

Definition pgRow (t : string) (cols : list string) (vs : list Z) : pendingRow Z := mkRow (b t) (b <$> cols) vs zeroRec.
Definition pgBatch : list (pendingRow Z) :=
  [pgRow "orders" ["id"; "amount"] [1; 10]; pgRow "users" ["id"] [7]; pgRow "orders" ["id"; "amount"] [2; 20]].
Definition pgFail : postgresSinkConfig := mkPg 3 PostgresInsert [] [] FailurePolicyFail None.
Definition pgUp : bytes -> list Z -> Z -> option string := λ _ _ attempt, if attempt =? 0 then Some "down"%string else None.

Example pg_query : buildPostgresWriteQuery (b "orders") [b "id"; b "amount"] 2 PostgresInsert [] []
  = b "INSERT INTO " ++ quoted (b "orders") ++ b " (" ++ quoted (b "id") ++ b "," ++ quoted (b "amount") ++ b ") VALUES ($1,$2),($3,$4)".
Proof. vm_compute. reflexivity. Qed.

Lemma pgRow_ok t cols vs : cols <> [] -> length cols = length vs -> forallb (λ c, negb (bool_decide (comma ∈ b c))) cols = true -> row_ok (pgRow t cols vs).
Proof.
  intros H1 H2 H3. split; cbn; [by destruct cols|by rewrite length_fmap|]. apply Forall_fmap, Forall_forall. intros c Hc.
  rewrite forallb_forall in H3. apply list_elem_of_In, H3, negb_true_iff, bool_decide_eq_false in Hc. done.
Qed.
Lemma postgres_binds_witness :
  (groups pgBatch).*2 = [[pgRow "orders" ["id"; "amount"] [1; 10]; pgRow "orders" ["id"; "amount"] [2; 20]]; [pgRow "users" ["id"] [7]]] /\
  NoDup (groups pgBatch).*1.
Proof.
  split; [vm_compute; reflexivity|]. apply (postgres_binds pgBatch).
  constructor; [apply pgRow_ok; [discriminate|reflexivity|vm_compute; reflexivity]|].
  constructor; [apply pgRow_ok; [discriminate|reflexivity|vm_compute; reflexivity]|].
  constructor; [apply pgRow_ok; [discriminate|reflexivity|vm_compute; reflexivity]|constructor].
Defined.
Lemma postgres_flush_accounts_witness :
  exists done, insertBatch (λ _, ""%string) pgFail pgUp (λ _, None) pgBatch = (done, Ok tt) /\ pgBatch ≡ₚ concat done.
Proof.
  eexists. assert (E : insertBatch (λ _, ""%string) pgFail pgUp (λ _, None) pgBatch = ((groups pgBatch).*2, Ok tt)) by (vm_compute; reflexivity).
  split; [exact E|]. apply (postgres_flush_accounts (λ _, ""%string) pgFail pgUp (λ _, None) pgBatch _ E). reflexivity.
Defined.

(** The group key joins column names with commas: two different column lists
    can meet in one group, and the second row's values shift against the
    columns of the first. *)
Theorem column_lists_collide :
  let g := [pgRow "t" ["a,b"] [1]; pgRow "t" ["a"; "b"] [2; 3]] in
  (groups g).*2 = [g] /\ group_args g = [1; 2; 3] /\
  rows_text true 2 [b "a,b"] 1 = b "($1),($2)".
Proof. vm_compute. done. Qed.
(** Column names are quoted as they are: a quote in one ends the identifier. *)
Theorem column_quote_escapes :
  quoted (dq :: b ") VALUES (1)--") = [dq; dq] ++ b ") VALUES (1)--" ++ [dq] /\
  quotePostgresTable (dq :: b "t") = [dq; dq; dq] ++ b "t" ++ [dq].
Proof. vm_compute. done. Qed.
