(* ===== verification/Queues.v ===== *)
(** * Package sink: the Kafka and S3 sinks and the dead-letter queues

    Conversion, retries and failure policy of the plain Kafka sink
    (sink/kafka.go), objects and their keys in S3 (sink/s3.go), and where
    failed records end (sink/dlq.go). *)
From S2P Require Import Prelude Paths GoTime Strconv Types Json Batch HttpSink.

(** ** Kafka messages *)

Record kafka_Message : Type := mkMsg { m_Key : slice; m_Value : slice; m_Time : Z; m_Headers : list (bytes * slice) }.
(** The headers in some order of the map. *)
Definition RecordToKafka (r : Rec) : kafka_Message := mkMsg (Key r) (Value r) (Timestamp r) (map_to_list (Headers r)).
(** A serializer that fails is printed, and the raw value sent. *)
Definition recordToKafka (serializer : option (Rec -> result bytes)) (r : Rec) : kafka_Message :=
  let value := match serializer with
    | Some ser => match ser r with Ok out => Some out | Err _ => Value r end
    | None => Value r
    end in
  mkMsg (Key r) value (Timestamp r) (map_to_list (Headers r)).

Section KafkaSink.
Variable q : bytes -> string.
Record kafkaSinkConfig : Type := mkKS {
  ks_serializer : option (Rec -> result bytes); ks_maxRetries : Z;
  ks_failurePolicy : FailurePolicy; ks_dlq : option (Rec -> result unit);
}.
Definition ks_applyDefaults (c : kafkaSinkConfig) : kafkaSinkConfig :=
  mkKS (ks_serializer c) (if ks_maxRetries c =? 0 then 3 else ks_maxRetries c) (ks_failurePolicy c) (ks_dlq c).

Variable cfg : kafkaSinkConfig.
(** The writer's answer on each attempt; [cancelled]: the context's error
    when it is cancelled during the wait after it. *)
Variables (write : list kafka_Message -> Z -> option string) (cancelled : Z -> option string).

Fixpoint write_loop (retries : nat) (msgs : list kafka_Message) (attempt : Z) : nat * option string :=
  match write msgs attempt with
  | None => (1%nat, None)
  | Some e =>
      match retries with
      | O => (1%nat, Some e)
      | S retries =>
          match cancelled attempt with
          | Some c => (1%nat, Some c)
          | None => let '(n, err) := write_loop retries msgs (attempt + 1) in (S n, err)
          end
      end
  end.
Definition writeWithRetry (msgs : list kafka_Message) : nat * option string :=
  if ks_maxRetries cfg <? 0 then (0%nat, None) else write_loop (Z.to_nat (ks_maxRetries cfg)) msgs 0.
(** The entries pair each message with its record. *)
Definition kafka_convert (r : Rec) : kafka_Message * Rec := (recordToKafka (ks_serializer cfg) r, r).
Definition kafka_flushBatch (entries : list (kafka_Message * Rec)) : nat * result unit :=
  let '(n, err) := writeWithRetry entries.*1 in
  (n, match err with None => Ok tt | Some _ => policy_all q (ks_failurePolicy cfg) (ks_dlq cfg) entries.*2 end).
End KafkaSink.

(** ** S3 objects *)

Definition trim_slashes (s : bytes) : bytes :=
  let fix go (s : bytes) : bytes := match s with c :: s' => if decide (c = slash) then go s' else s | [] => [] end in
  reverse (go (reverse (go s))).
(** UTC texts of an instant in the layouts of the key. *)
Definition date_parts (t : Z) : (Z * Z * Z) * (Z * Z * Z) :=
  let secs := t / Second in
  let s := secs mod 86400 in
  (civil_of_days (secs / 86400), (s / 3600, s / 60 mod 60, s mod 60)).
Definition dash : ascii := "-"%char.
(** Prefix and partition directories, and the time in the file name. *)
Definition key_head (prefix : bytes) (now : Z) : bytes :=
  let '((y, m, d), (hh, mm, ss)) := date_parts now in
  let p := trim_slashes prefix in
  (if isE p then [] else p ++ [slash]) ++
  b "date=" ++ pad 4 y ++ [dash] ++ pad 2 m ++ [dash] ++ pad 2 d ++
  b "/hour=" ++ pad 2 hh ++
  b "/part-" ++ pad 4 y ++ pad 2 m ++ pad 2 d ++ b "T" ++ pad 2 hh ++ pad 2 mm ++ pad 2 ss.
(** The counter has been advanced to [seq]. *)
Definition objectKey (prefix : bytes) (gzip : bool) (suffix : bytes) (now seq : Z) : bytes :=
  key_head prefix now ++ dash :: dec_ seq ++ dash :: suffix ++ b ".jsonl" ++ (if gzip then b ".gz" else []).

Section S3.
Variables (q : bytes -> string) (gz : bytes -> result bytes) (key : Z -> bytes).
Record s3SinkConfig : Type := mkS3 {
  s3_serializer : Rec -> result bytes; s3_gzip : bool; s3_failurePolicy : FailurePolicy; s3_dlq : option (Rec -> result unit);
}.
Variable cfg : s3SinkConfig.
(** PutObject's answer; the bucket keeps objects by key. *)
Variable put : bytes -> bytes -> option string.

Definition s3_flushBatch (batch : list Rec) (seq : Z) (bucket : gmap bytes bytes) : Z * gmap bytes bytes * result unit :=
  match serialize_all (s3_serializer cfg) (λ r, applyFailurePolicy q (s3_failurePolicy cfg) (s3_dlq cfg) r) batch with
  | Err e => (seq, bucket, Err e)
  | Ok [] => (seq, bucket, Ok tt)
  | Ok l =>
      match (if s3_gzip cfg then gz (encodeNDJSON l.*1) else Ok (encodeNDJSON l.*1)) with
      | Err e => (seq, bucket, Err e)
      | Ok body =>
          let seq := wrap64 (seq + 1) in
          match put (key seq) body with
          | None => (seq, <[key seq := body]> bucket, Ok tt)
          | Some _ => (seq, bucket, policy_all q (s3_failurePolicy cfg) (s3_dlq cfg) l.*2)
          end
      end
  end.
End S3.

(** ** Dead letters *)

Record dlqEnvelope : Type := mkEnvelope {
  e_DLQTime : bytes; e_Key : bytes; e_Value : option bytes; e_Timestamp : Z; e_Offset : Z; e_Partition : Z;
  e_Headers : gmap bytes bytes;
}.
Definition newDLQEnvelope (json_Valid : bytes -> bool) (r : Rec) (now : Z) : dlqEnvelope :=
  mkEnvelope (Format now) (str (Key r))
    (if isE (str (Value r)) then None else Some (if json_Valid (str (Value r)) then str (Value r) else json_quote (str (Value r))))
    (if IsZero (Timestamp r) then 0 else UnixNano (Timestamp r)) (Offset r) (Partition r) (str <$> Headers r).

(** The file's contents; what a write does: succeed, stop after some bytes
    with an error, or fail to sync. *)
Record FileDLQ : Type := mkFD { fd_file : bytes; fd_sync : bool; fd_closed : bool }.
Inductive write_outcome : Type := WOk | WShort (n : nat) (e : string) | WSync (e : string).
Definition FileDLQ_Write (marshal : dlqEnvelope -> result bytes) (json_Valid : bytes -> bool) (now : Z) (o : write_outcome) (r : Rec) (d : FileDLQ)
  : FileDLQ * result unit :=
  match marshal (newDLQEnvelope json_Valid r now) with
  | Err e => (d, Err e)
  | Ok line =>
      if fd_closed d then (d, Err "weibo/sink: file DLQ: write after close")
      else match o with
      | WShort n e => (mkFD (fd_file d ++ take n (line ++ [LF])) (fd_sync d) false, Err e)
      | WSync e => (mkFD (fd_file d ++ line ++ [LF]) (fd_sync d) false, if fd_sync d then Err e else Ok tt)
      | WOk => (mkFD (fd_file d ++ line ++ [LF]) (fd_sync d) false, Ok tt)
      end
  end.
Definition FileDLQ_Close (d : FileDLQ) : FileDLQ := mkFD (fd_file d) (fd_sync d) true.

(** A serializer that fails is an error here. *)
Definition KafkaDLQ_Write (serializer : option (Rec -> result bytes)) (write : kafka_Message -> option string) (r : Rec) : result unit :=
  value ← match serializer with Some ser => out ← ser r; Ok (Some out) | None => Ok (Value r) end;
  match write (mkMsg (Key r) value (Timestamp r) (map_to_list (Headers r))) with None => Ok tt | Some e => Err e end.

(** ** The Kafka sink accounts for its batches *)

Section KafkaFate.
Variables (q : bytes -> string) (cfg : kafkaSinkConfig) (write : list kafka_Message -> Z -> option string) (cancelled : Z -> option string).

Lemma write_loop_spec retries msgs a n err :
  write_loop write cancelled retries msgs a = (n, err) ->
  (1 <= n <= S retries)%nat /\ (err = None -> write msgs (a + Z.of_nat n - 1) = None).
Proof.
  assert (H1 : forall a, a + Z.of_nat 1 - 1 = a) by lia.
  revert a n err. induction retries as [|retries IH]; intros a n err; cbn [write_loop]; destruct (write msgs a) as [e|] eqn:E.
  - intros [= <- <-]. split; [lia|done].
  - intros [= <- <-]. split; [lia|]. by rewrite H1.
  - destruct (cancelled a); [intros [= <- <-]; split; [lia|done]|].
    destruct (write_loop _ _ _ _ _) as [n' e'] eqn:El. intros [= <- <-]. destruct (IH _ _ _ El) as [Hn Hw]. split; [lia|].
    intros He. rewrite <- (Hw He). f_equal. lia.
  - intros [= <- <-]. split; [lia|]. by rewrite H1.
Qed.

(** A flush that returns nil after [n] writes: the last write took the whole
    batch, or the policy took every record. *)
Theorem kafka_flush_accounts batch n :
  0 <= ks_maxRetries cfg -> kafka_flushBatch q cfg write cancelled (kafka_convert cfg <$> batch) = (n, Ok tt) ->
  (write (recordToKafka (ks_serializer cfg) <$> batch) (Z.of_nat n - 1) = None \/
   Forall (λ r, applyFailurePolicy q (ks_failurePolicy cfg) (ks_dlq cfg) r = Ok tt) batch) /\
  1 <= Z.of_nat n <= ks_maxRetries cfg + 1.
Proof.
  intros Hm. unfold kafka_flushBatch, writeWithRetry. rewrite <- !list_fmap_compose. destruct (Z.ltb_spec (ks_maxRetries cfg) 0); [lia|].
  change (fst ∘ kafka_convert cfg) with (recordToKafka (ks_serializer cfg)). rewrite (list_fmap_id batch : snd ∘ kafka_convert cfg <$> batch = batch).
  destruct (write_loop _ _ _ _ 0) as [n' err] eqn:El. destruct (write_loop_spec _ _ _ _ _ El) as [Hn Hw]. intros [= <- Hp].
  split; [|lia]. destruct err as [e|]; [right; by apply policy_all_Ok in Hp|left; by apply Hw].
Qed.

(** With a negative retry count nothing is written, and the flush succeeds. *)
Theorem negative_retries_lose_batch entries : ks_maxRetries cfg < 0 -> kafka_flushBatch q cfg write cancelled entries = (0%nat, Ok tt).
Proof. intros H. unfold kafka_flushBatch, writeWithRetry. by rewrite (proj2 (Z.ltb_lt _ _) H). Qed.

(** A cancellation during the first wait hands the batch to the policy, long
    before the retries are exhausted: under the default policy it is dropped
    and the flush succeeds. *)
Theorem cancel_in_backoff_drops batch e c :
  0 < ks_maxRetries cfg -> ks_failurePolicy cfg = FailurePolicyDrop ->
  write (recordToKafka (ks_serializer cfg) <$> batch) 0 = Some e -> cancelled 0 = Some c ->
  kafka_flushBatch q cfg write cancelled (kafka_convert cfg <$> batch) = (1%nat, Ok tt).
Proof.
  intros Hm Hd Hw Hc. unfold kafka_flushBatch, writeWithRetry. rewrite (proj2 (Z.ltb_ge _ _)) by lia. rewrite <- !list_fmap_compose.
  change (fst ∘ kafka_convert cfg) with (recordToKafka (ks_serializer cfg)).
  destruct (Z.to_nat (ks_maxRetries cfg)) as [|n] eqn:En; [lia|]. cbn [write_loop]. rewrite Hw, Hc. f_equal.
  apply policy_all_Ok, Forall_forall. intros r _. by rewrite Hd.
Qed.
End KafkaFate.

(** The raw value of a record the serializer rejected. *)
Theorem kafka_sink_ships_raw ser r e :
  ser r = Err e -> m_Value (recordToKafka (Some ser) r) = Value r /\ KafkaDLQ_Write (Some ser) (λ _, None) r = Err e.
Proof. intros H. unfold recordToKafka, KafkaDLQ_Write. by rewrite H. Qed.

(** ** Objects are never overwritten *)

Lemma dash_free_suffix (suffix : bytes) gzip : dash ∉ suffix -> dash ∉ suffix ++ b ".jsonl" ++ (if gzip : bool then b ".gz" else []).
Proof.
  intros H. rewrite !elem_of_app. intros [?|[Hin|Hin]]; [done| |]; [|destruct gzip]; rewrite list_elem_of_In in Hin; cbn in Hin; intuition discriminate.
Qed.
Lemma dec_dash_free n : 0 <= n -> dash ∉ dec_ n.
Proof.
  intros Hn Hin. assert (Hd : forallb isDigit (dec_ n) = true).
  { unfold dec_. destruct n as [|p|p]; [done|apply (pretty_N_val (N.pos p))|lia]. }
  rewrite forallb_forall in Hd. apply list_elem_of_In, Hd in Hin. by vm_compute in Hin.
Qed.
Lemma objectKey_inj prefix gzip s s' t t' n n' :
  dash ∉ s -> dash ∉ s' -> 0 <= n -> 0 <= n' -> objectKey prefix gzip s t n = objectKey prefix gzip s' t' n' -> n = n' /\ s = s'.
Proof.
  assert (Hcut : forall s t n, dash ∉ s -> cut_last dash (objectKey prefix gzip s t n)
    = Some (key_head prefix t ++ dash :: dec_ n, s ++ b ".jsonl" ++ (if gzip then b ".gz" else []))).
  { intros u v w Hu. unfold objectKey. rewrite <- (cut_last_app dash _ _ (dash_free_suffix u gzip Hu)). by rewrite <- app_assoc. }
  intros Hs Hs' Hn Hn' E. pose proof (Hcut s t n Hs) as E1. rewrite E, Hcut in E1 by done.
  injection E1 as Eh Es. split; [|by apply app_inv_tail in Es].
  apply (f_equal (cut_last dash)) in Eh. rewrite !cut_last_app in Eh by by apply dec_dash_free. injection Eh as _ Ed. by apply (inj dec_) in Ed.
Qed.

(** Uploads never destroy an earlier object.  Flushing a batch to S3
    stores at most one object, under a key that no earlier counter value of
    this sink produced whatever the times and random suffixes were, so every
    object uploaded before is kept; and when the flush returns nil the batch's
    serializable records are the lines of the new object, or the failure
    policy took them. *)
Theorem s3_objects_kept q gz cfg put prefix (suffix : Z -> bytes) (clock : Z -> Z) batch seq bucket seq' bucket' :
  (forall n, dash ∉ suffix n) -> 0 <= seq < 2 ^ 63 - 1 ->
  let key := λ n, objectKey prefix (s3_gzip cfg) (suffix n) (clock n) n in
  s3_flushBatch q gz key cfg put batch seq bucket = (seq', bucket', Ok tt) ->
  (seq <= seq') /\ (forall n, 0 <= n <= seq -> bucket' !! key n = bucket !! key n) /\
  let sent := sendable (s3_serializer cfg) batch in
  let lines := encodeNDJSON (omap (payload (s3_serializer cfg)) batch) in
  Forall (λ r, payload (s3_serializer cfg) r = None -> applyFailurePolicy q (s3_failurePolicy cfg) (s3_dlq cfg) r = Ok tt) batch /\
  (sent = [] \/
   (exists body, bucket' !! key seq' = Some body /\ (if s3_gzip cfg then gz lines = Ok body else body = lines)) \/
   Forall (λ r, applyFailurePolicy q (s3_failurePolicy cfg) (s3_dlq cfg) r = Ok tt) sent).
Proof.
  intros Hsuf Hseq key Hf. cbv zeta. unfold s3_flushBatch in Hf.
  destruct (serialize_all _ _ batch) as [l|] eqn:El; [|done]. destruct (serialize_all_spec _ _ _ _ El) as (E1 & E2 & Hbad).
  rewrite <- E1, <- E2. destruct l as [|x l0] eqn:Ell; [injection Hf as <- <-; split; [lia|]; split; [done|]; split; [done|by left]|].
  rewrite <- Ell in *. destruct (if s3_gzip cfg then gz (encodeNDJSON l.*1) else _) as [body|] eqn:Eb; [|done].
  rewrite (wrap64_id (seq + 1)) in Hf by (unfold int64; lia).
  assert (Hbody : if s3_gzip cfg then gz (encodeNDJSON l.*1) = Ok body else body = encodeNDJSON l.*1) by (destruct (s3_gzip cfg); [done|by injection Eb]).
  destruct (put (key (seq + 1)) body); [injection Hf as <- <- Hp|injection Hf as <- <-].
  - split; [lia|]. split; [done|]. split; [done|]. do 2 right. by apply policy_all_Ok.
  - split; [lia|]. split; [|split; [done|right; left; exists body; split; [apply lookup_insert_eq|done]]].
    intros n Hn. apply lookup_insert_ne. intros E. assert (H0 : 0 <= seq + 1 /\ 0 <= n /\ seq + 1 <> n) by (clear -Hseq Hn; lia).
    destruct H0 as (H1 & H2 & H3). apply H3. clear H3.
    exact (proj1 (objectKey_inj prefix (s3_gzip cfg) (suffix (seq + 1)) (suffix n) (clock (seq + 1)) (clock n) (seq + 1) n (Hsuf _) (Hsuf _) H1 H2 E)).
Qed.

Definition s3Demo : s3SinkConfig := mkS3 (λ r, match Value r with Some v => Ok v | None => Err "no value" end) false FailurePolicyFail None.
Definition s3Key (n : Z) : bytes := objectKey (b "/lake/") false (b "0badcafe") 1700000000 n.
Lemma s3_objects_kept_witness :
  exists bucket', s3_flushBatch (λ _, ""%string) (λ _, Err "") s3Key s3Demo (λ _ _, None) httpBatch 4 {[ s3Key 4 := b "old" ]} = (5, bucket', Ok tt) /\
    bucket' !! s3Key 4 = Some (b "old").
Proof.
  eexists. split; [reflexivity|]. transitivity (({[ s3Key 4 := b "old" ]} : gmap bytes bytes) !! s3Key 4); [|apply lookup_singleton_eq].
  apply (s3_objects_kept (λ _, ""%string) (λ _, Err "") s3Demo (λ _ _, None) (b "/lake/") (λ _, b "0badcafe") (λ _, 1700000000) httpBatch 4
    {[ s3Key 4 := b "old" ]} 5 _).
  - intros _. rewrite list_elem_of_In. cbn. intuition discriminate.
  - lia.
  - reflexivity.
  - lia.
Defined.

(** ** One line per dead letter *)

Definition whole_lines (file : bytes) (lines : list bytes) : Prop :=
  file = concat ((λ l, l ++ [LF]) <$> lines) /\ Forall (λ l, LF ∉ l) lines.
Lemma whole_lines_split file lines : whole_lines file lines -> split_on LF file = lines ++ [[]].
Proof.
  intros [-> Hf]. induction Hf as [|l lines Hl _ IH]; [done|]. cbn [fmap list_fmap concat]. rewrite <- app_assoc. cbn [app].
  by rewrite split_on_app, split_on_plain, IH.
Qed.

Section DLQ.
Variables (marshal : dlqEnvelope -> result bytes) (json_Valid : bytes -> bool).
(** json.Marshal writes compact JSON, which has no line feed. *)
Hypothesis marshal_line : forall e l, marshal e = Ok l -> LF ∉ l.

(** A dead letter is one line of the file, and a closed queue accepts
    nothing.  Appending a record to a queue of whole lines, when the write
    itself is not cut short, adds exactly one line, its envelope; it reports an
    error when the file could not be synced; after Close, or when the envelope
    cannot be encoded, the file is unchanged and the write fails. *)
Theorem dlq_appends_line now o r d lines :
  whole_lines (fd_file d) lines -> (forall n e, o <> WShort n e) ->
  let '(d', res) := FileDLQ_Write marshal json_Valid now o r d in
  match marshal (newDLQEnvelope json_Valid r now) with
  | Ok line =>
      if fd_closed d then d' = d /\ is_ok res = false
      else whole_lines (fd_file d') (lines ++ [line]) /\ split_on LF (fd_file d') = lines ++ [line; []] /\
        (is_ok res = true <-> fd_sync d = false \/ forall e, o <> WSync e)
  | Err e => d' = d /\ res = Err e
  end.
Proof.
  intros Hw Ho. unfold FileDLQ_Write. destruct (marshal (newDLQEnvelope json_Valid r now)) as [line|e] eqn:Em; [|done].
  destruct (fd_closed d) eqn:Ec; [done|]. assert (Hl : whole_lines (fd_file d ++ line ++ [LF]) (lines ++ [line])).
  { destruct Hw as [-> Hf]. split; [|apply Forall_app; split; [done|]; constructor; [by eapply marshal_line|constructor]].
    rewrite fmap_app, concat_app. cbn. by rewrite app_nil_r. }
  pose proof (whole_lines_split _ _ Hl) as Hsp. rewrite <- app_assoc in Hsp. cbn [app] in Hsp.
  destruct o as [|n e|e]; [|by destruct (Ho n e)|]; (split; [exact Hl|]); (split; [exact Hsp|]); cbn.
  - split; [intros _; by right|done].
  - destruct (fd_sync d); split; try done; [|by left]. intros [|H]; [done|by destruct (H e)].
Qed.
End DLQ.

Definition shown (e : dlqEnvelope) : result bytes := Ok (concat (split_on LF (e_Key e))).
Lemma shown_line e l : shown e = Ok l -> LF ∉ l.
Proof.
  intros [= <-]. rewrite list_elem_of_In, in_concat. intros (x & Hx & Hin). pose proof (split_on_free LF (e_Key e)) as Hf.
  rewrite Forall_forall in Hf. apply list_elem_of_In in Hx, Hin. by apply (Hf x Hx).
Qed.
Definition letter : Rec := NewRecord 5 (Some (b "k1")) (Some (b "{}")).
Lemma dlq_appends_line_witness :
  split_on LF (fd_file (FileDLQ_Write shown (λ _, true) 9 WOk letter (mkFD (b "k0" ++ [LF]) true false)).1) = [b "k0"; b "k1"; []].
Proof.
  assert (Hw : whole_lines (b "k0" ++ [LF]) [b "k0"]).
  { split; [reflexivity|]. constructor; [|constructor]. rewrite list_elem_of_In. cbn. intuition discriminate. }
  pose proof (dlq_appends_line shown (λ _, true) shown_line 9 WOk letter (mkFD (b "k0" ++ [LF]) true false) [b "k0"] Hw ltac:(discriminate)) as H.
  exact (proj1 (proj2 H)).
Defined.

(** A write that is cut short leaves a partial line, and the next dead letter
    is appended to it: neither line can be read. *)
Theorem short_write_joins_letters :
  let d := (FileDLQ_Write shown (λ _, true) 9 (WShort 1 "disk full") letter (mkFD [] true false)).1 in
  let '(d, res) := FileDLQ_Write shown (λ _, true) 9 WOk letter d in
  res = Ok tt /\ split_on LF (fd_file d) = [b "kk1"; []].
Proof. vm_compute. done. Qed.
