(* ===== verification/SinkWrites.v ===== *)
(** * Package sink: what the synchronous sinks write

    [HTTPSink.Write], [S3Sink.Write] and [PostgresSink.Write]: the batching loop
    of [Batch.v] with each sink's own conversion and flush, and the destination
    carried through the run.  The interface [Lossless] is what the loop needs of
    a flush; each sink under a failure policy that passes nothing is an
    instance. *)
From S2P Require Import Prelude GoTime Strconv Types Json Batch HttpSink Queues Postgres.

(** ** The loop with a destination *)

Section Write.
Context {T D : Type}.
Variables (bw : batchWriter T) (flushes : D -> list T -> D -> option string -> Prop).

Definition outcome (e : bev) : option string :=
  match e with EvRec _ o | EvTick o | EvClosed o _ | EvCancel _ o _ => o | EvDone _ _ | EvErr _ => None end.

(** A run of [run]: [flushes d items d' o] says that a flush of [items] can take
    the destination from [d] to [d'] and return [o]. *)
Inductive writes (d0 : D) : list bev -> D -> Prop :=
| writes_start : writes d0 [] d0
| writes_quiet evs d e : writes d0 evs d -> handed (brun bw (evs ++ [e])) = handed (brun bw evs) -> writes d0 (evs ++ [e]) d
| writes_flush evs d e items d' : writes d0 evs d -> handed (brun bw (evs ++ [e])) = handed (brun bw evs) ++ [items] ->
    flushes d items d' (outcome e) -> writes d0 (evs ++ [e]) d'.

(** What a destination holds of the entries, kept by every flush that
    succeeds. *)
Class Lossless (holds : D -> list T -> D -> Prop) : Prop := {
  holds_nothing d : holds d [] d;
  holds_flushed d0 l d items d' : holds d0 l d -> items <> [] -> flushes d items d' None -> holds d0 (l ++ items) d';
}.

(** Without async, a failed flush ends the loop. *)
Lemma brun_snoc evs e : brun bw (evs ++ [e]) = bstep bw (brun bw evs) e.
Proof. unfold brun. by rewrite foldl_app. Qed.
Lemma adds_handed d s : handed (foldl (λ s r, (add bw r s).1) s d) = handed s.
Proof. revert s. induction d as [|r d IH]; intros s; [done|]. cbn. rewrite IH. unfold add. by destruct (convert bw r). Qed.
Lemma doFlush_outcome o s : async bw = false -> handed (doFlush bw o s).1 <> handed s -> (doFlush bw o s).2 = o.
Proof. intros Ha. unfold doFlush. rewrite Ha. by destruct (batch s). Qed.
Lemma wait_all_handed n : forall outs (s : bstate (T := T)), handed (wait_all n outs s) = handed s.
Proof.
  induction n as [|n IH]; intros outs s; [done|]. cbn. rewrite IH. unfold finish_flush. by destruct (inflight s !! 0%nat).
Qed.
Lemma flush_error_returns s e x : async bw = false -> handed (bstep bw s e) <> handed s -> outcome e = Some x -> ret (bstep bw s e) = Some (Err x).
Proof.
  intros Ha. unfold bstep. destruct (ret s) eqn:Er; [done|].
  destruct e as [r o|o|i o|outs|o outs|dr o outs]; cbn [outcome]; try done.
  - destruct (add bw r s) as [s1 full] eqn:E. assert (Hh : handed s1 = handed s) by (revert E; unfold add; destruct (convert bw r); by intros [= <- _]).
    destruct full; [|intros H; by rewrite Hh in H]. rewrite <-Hh. pose proof (doFlush_outcome o s1 Ha) as Ho. destruct (doFlush bw o s1) as [s2 [y|]]; cbn in *.
    + intros H ->. by injection (Ho H) as ->.
    + intros H ->. by specialize (Ho H).
  - pose proof (doFlush_outcome o s Ha) as Ho. destruct (doFlush bw o s) as [s2 [y|]]; cbn in *; intros H ->; [by injection (Ho H) as ->|by specialize (Ho H)].
  - pose proof (doFlush_outcome o s Ha) as Ho. destruct (doFlush bw o s) as [s2 [y|]]; cbn in *; unfold wgWait; rewrite wait_all_handed; intros H ->;
      [by injection (Ho H) as ->|by specialize (Ho H)].
  - rewrite <-(adds_handed dr s). set (s1 := foldl _ s dr). pose proof (doFlush_outcome o s1 Ha) as Ho.
    destruct (doFlush bw o s1) as [s2 [y|]]; cbn in *; unfold wgWait; rewrite wait_all_handed; intros H ->; [by injection (Ho H) as ->|by specialize (Ho H)].
Qed.

(** No flush has failed as long as the loop has not returned an error. *)
Definition no_error (r : option (result unit)) : Prop := match r with Some (Err _) => False | _ => True end.
Lemma no_error_before s e : no_error (ret (bstep bw s e)) -> no_error (ret s).
Proof. unfold bstep. destruct (ret s) as [[]|] eqn:E; [done| |done]. by rewrite E. Qed.
Lemma writes_hold (holds : D -> list T -> D -> Prop) `{!Lossless holds} d0 evs d : async bw = false ->
  Forall (λ x, x <> []) (handed (brun bw evs)) -> writes d0 evs d -> no_error (ret (brun bw evs)) -> holds d0 (concat (handed (brun bw evs))) d.
Proof.
  intros Ha Hne Hw. induction Hw as [|evs d e _ IH He|evs d e items d' _ IH He Hf]; intros Hr.
  - apply holds_nothing.
  - rewrite He in *. rewrite brun_snoc in Hr. apply IH; [done|]. by eapply no_error_before.
  - rewrite He, concat_app in *. cbn [concat]. rewrite app_nil_r. apply Forall_app in Hne as [Hne Hi]. apply Forall_cons in Hi as [Hi _].
    assert (Ho : outcome e = None).
    { destruct (outcome e) as [x|] eqn:Eo; [|done]. rewrite brun_snoc in Hr, He.
      rewrite (flush_error_returns _ e x Ha) in Hr; [destruct Hr| |done]. rewrite He. intros E. apply (f_equal length) in E. rewrite length_app in E. cbn in E. lia. }
    rewrite Ho in Hf. rewrite brun_snoc in Hr. eapply holds_flushed; [|done..]. apply IH; [done|]. by eapply no_error_before.
Qed.

(** A run that returns nil: the destination holds every converted record read,
    in order. *)
Lemma write_delivers (holds : D -> list T -> D -> Prop) `{!Lossless holds} d0 evs d : async bw = false ->
  writes d0 evs d -> ret (brun bw evs) = Some (Ok tt) -> holds d0 (omap (convert bw) (read_of bw b_init evs)) d.
Proof.
  intros Ha Hw Hr. destruct (brun_inv bw evs [] b_init (b_init_inv bw)) as [[H1 _ H3] _ H5]. change (foldl (bstep bw) b_init evs) with (brun bw evs) in *.
  destruct (H5 Hr) as (Hb & _). rewrite Hb, app_nil_r in H1. cbn [app] in H1. rewrite <-H1. apply writes_hold; [done..|]. by rewrite Hr.
Qed.
End Write.

(** Under a policy that passes nothing, a batch that serializes is sent whole. *)
Lemma strict_serialize q ser policy dlq batch l : strict_policy policy dlq = true ->
  serialize_all ser (λ r, applyFailurePolicy q policy dlq r) batch = Ok l ->
  l.*1 = omap (payload ser) batch /\ l.*2 = batch /\ Forall (λ r, is_Some (payload ser r)) batch.
Proof.
  intros Hst Es. destruct (serialize_all_spec _ _ _ _ Es) as (E1 & E2 & Hbad). rewrite (sendable_all _ _ batch Hbad) in E2 by (intros; by apply strict_policy_err).
  split_and!; [done..|]. eapply Forall_impl; [exact Hbad|]. cbn. intros r Hr. destruct (payload ser r); [by eexists|].
  by destruct (strict_policy_err q policy dlq r Hst (Hr eq_refl)).
Qed.
Lemma strict_policy_all q policy dlq r rs : strict_policy policy dlq = true -> policy_all q policy dlq (r :: rs) <> Ok tt.
Proof. intros Hst. cbn. destruct (applyFailurePolicy q policy dlq r) as [[]|] eqn:E; [|done]. by apply (strict_policy_err q _ _ r) in Hst. Qed.
Lemma omap_all {A} (l : list A) : omap Some l = l.
Proof. induction l as [|x l IH]; [done|]. cbn. by rewrite IH. Qed.

Definition err_of (r : result unit) : option string := match r with Ok _ => None | Err e => Some e end.

(** ** The HTTP sink *)

Section Http.
Variables (json_Valid : bytes -> bool) (until : bytes -> option Z) (q : bytes -> string) (size : Z) (cfg : httpSinkConfig).

(** [HTTPSink.Write]'s writer; the destination is the bodies the endpoint
    processed, in order.  A request answered with success was processed, one that
    could not be built was not, and of any other ([took]) the endpoint may have
    processed the body before the answer was lost or refused. *)
Definition http_writer : batchWriter Rec := mkBW _ size false Some.
Definition honest (resp : Z -> http_response) (took : Z -> bool) : Prop :=
  forall i, (ok_response (resp i) -> took i = true) /\ (forall e, resp i = RBuild e -> took i = false).
Definition http_processed (resp : Z -> http_response) (cancelled : Z -> option string) (took : Z -> bool) (batch : list Rec) : list bytes :=
  match encode json_Valid q cfg batch with
  | Ok (Some (body, _, _ :: _)) => (λ _, body) <$> List.filter took (seqZ 0 (Z.of_nat (sendWithRetry until cfg resp cancelled).1.1))
  | _ => []
  end.
Definition http_flushes (d : list bytes) (batch : list Rec) (d' : list bytes) (o : option string) : Prop :=
  exists resp cancelled took k r, http_flushBatch json_Valid until q cfg resp cancelled batch = (k, r) /\ honest resp took /\
    d' = d ++ http_processed resp cancelled took batch /\ o = err_of r.

(** The bodies since [d]: one per batch of the records, each processed at least
    once and at most once per attempt. *)
Definition http_holds (d : list bytes) (l : list Rec) (d' : list bytes) : Prop :=
  Forall (λ r, is_Some (payload (h_serializer cfg) r)) l /\
  exists (batches : list (list Rec)) (copies : list (bytes * nat)), concat batches = l /\
    Forall2 (λ batch bn, is_ndjson (omap (payload (h_serializer cfg)) batch) bn.1 /\ 1 <= Z.of_nat bn.2 <= h_maxRetries cfg + 1) batches copies /\
    d' = d ++ (copies ≫= λ bn, replicate bn.2 bn.1).

Lemma encodeNDJSON_app l l' : encodeNDJSON (l ++ l') = encodeNDJSON l ++ encodeNDJSON l'.
Proof. unfold encodeNDJSON. by rewrite fmap_app, concat_app. Qed.

#[export] Instance http_lossless : h_encoder cfg = None -> h_jsonArray cfg = false -> 0 <= h_maxRetries cfg ->
  strict_policy (h_failurePolicy cfg) (h_dlq cfg) = true -> Lossless http_flushes http_holds.
Proof.
  intros He Hj Hm Hst. split; [intros d; split; [constructor|]; exists [], []; split_and!; [done|constructor|by rewrite app_nil_r]|].
  intros d0 l d items d' (Hl & batches & copies & <- & Hb & ->) Hne (resp & cancelled & took & k & r & Hf & Hh & -> & Ho).
  destruct r as [[]|]; [clear Ho|done].
  unfold http_flushBatch, http_processed, encode in *. rewrite He, Hj in *.
  destruct (serialize_all _ _ items) as [ps|] eqn:Es; [|done]. destruct (strict_serialize _ _ _ _ _ _ Hst Es) as (E1 & E2 & Hall).
  cbn [mbind result_bind] in *. destruct ps as [|x ps]; [by subst items|]. cbn [fmap list_fmap] in *. unfold sendWithRetry in *.
  destruct (Z.ltb_spec (h_maxRetries cfg) 0); [lia|].
  destruct (send_loop until resp cancelled _ 0) as [[k' ws] err] eqn:El. destruct (send_loop_spec _ _ _ _ _ _ _ _ El) as (Hk & Hok & _).
  injection Hf as -> Hf. destruct err as [e|]; [by destruct (strict_policy_all q _ _ x.2 ps.*2 Hst)|]. cbn [fst].
  split; [by apply Forall_app|]. set (n := length (List.filter took (seqZ 0 (Z.of_nat k)))).
  exists (batches ++ [items]), (copies ++ [(encodeNDJSON (x.1 :: ps.*1), n)]). split_and!.
  - rewrite concat_app. cbn. by rewrite app_nil_r.
  - apply Forall2_app; [done|]. constructor; [|constructor]. cbn [fst snd]. split; [rewrite <- E1; apply ndjson_body|].
    assert (Hup : (n <= k)%nat).
    { subst n. etrans; [apply filter_length_le|]. rewrite length_seqZ. lia. }
    assert (Hlow : (0 < n)%nat).
    { assert (Hin : In (Z.of_nat k - 1) (List.filter took (seqZ 0 (Z.of_nat k)))).
      { apply filter_In. split; [apply list_elem_of_In, elem_of_seqZ; lia|]. apply Hh. by apply Hok. }
      subst n. destruct (List.filter took (seqZ 0 (Z.of_nat k))); [by destruct Hin|cbn; lia]. }
    lia.
  - rewrite bind_app, <- app_assoc. f_equal. f_equal. cbn [mbind list_bind fst snd]. rewrite app_nil_r. subst n.
    induction (List.filter took _) as [|i ids IH]; [done|]. exact (f_equal (cons _) IH).
Qed.
End Http.

(** C10: what an HTTP sink read reaches its endpoint, at least once.  With the
    NDJSON format, no custom encoder, a failure policy that lets no failed record
    pass and a retry limit that is not negative: whenever [Write] returns nil,
    under any schedule of records, ticks, responses, retries and waits, the
    records read are, in order, a sequence of batches, no record left out, and
    the endpoint has processed since the start exactly one body per batch, in
    order, each at least once and at most once per attempt (an attempt that timed
    out or was refused may have been processed too).  A body is one line per
    record: the record's payload as it is, or, when it holds a line break, a JSON
    string that reads back as it (invalid UTF-8 replaced). *)
Theorem http_write_delivers (json_Valid : bytes -> bool) (until : bytes -> option Z) (q : bytes -> string) (size : Z) (cfg : httpSinkConfig)
    (before : list bytes) (evs : list bev) (after : list bytes) :
  h_encoder cfg = None -> h_jsonArray cfg = false -> 0 <= h_maxRetries cfg -> strict_policy (h_failurePolicy cfg) (h_dlq cfg) = true ->
  writes (http_writer size) (http_flushes json_Valid until q cfg) before evs after -> ret (brun (http_writer size) evs) = Some (Ok tt) ->
  let read := read_of (http_writer size) b_init evs in
  Forall (λ r, is_Some (payload (h_serializer cfg) r)) read /\
  exists (batches : list (list Rec)) (copies : list (bytes * nat)), concat batches = read /\
    Forall2 (λ batch bn, is_ndjson (omap (payload (h_serializer cfg)) batch) bn.1 /\ 1 <= Z.of_nat bn.2 <= h_maxRetries cfg + 1) batches copies /\
    after = before ++ (copies ≫= λ bn, replicate bn.2 bn.1).
Proof.
  intros He Hj Hm Hst Hw Hr. pose proof (http_lossless json_Valid until q cfg He Hj Hm Hst) as HL.
  pose proof (write_delivers (http_writer size) _ _ before evs after eq_refl Hw Hr) as H. cbn [convert http_writer] in H. by rewrite omap_all in H.
Qed.

(** ** The S3 sink *)

Section S3.
Variables (q : bytes -> string) (gz : bytes -> result bytes) (prefix : bytes) (suffix : Z -> bytes) (clock : Z -> Z) (size : Z) (cfg : s3SinkConfig).

Definition s3_writer : batchWriter Rec := mkBW _ size false Some.
Definition s3_key (n : Z) : bytes := objectKey prefix (s3_gzip cfg) (suffix n) (clock n) n.
Definition s3_flushes (d : Z * gmap bytes bytes) (batch : list Rec) (d' : Z * gmap bytes bytes) (o : option string) : Prop :=
  exists put r, s3_flushBatch q gz s3_key cfg put batch d.1 d.2 = (d'.1, d'.2, r) /\ o = err_of r.
Definition packed (lines body : bytes) : Prop := if s3_gzip cfg then gz lines = Ok body else body = lines.

(** The objects since [d], in the order of their numbers, have the records'
    lines; the earlier ones are untouched. *)
Definition s3_holds (d : Z * gmap bytes bytes) (l : list Rec) (d' : Z * gmap bytes bytes) : Prop :=
  0 <= d.1 -> d.1 + Z.of_nat (length l) < 2 ^ 63 -> exists objects : list bytes,
    (length objects <= length l)%nat /\ d'.1 = d.1 + Z.of_nat (length objects) /\
    concat objects = encodeNDJSON (omap (payload (s3_serializer cfg)) l) /\
    (forall i lines, objects !! i = Some lines -> exists body, d'.2 !! s3_key (d.1 + 1 + Z.of_nat i) = Some body /\ packed lines body) /\
    (forall n, 0 <= n <= d.1 -> d'.2 !! s3_key n = d.2 !! s3_key n).

Hypothesis suffix_plain : forall n, dash ∉ suffix n.
Lemma s3_key_inj n n' : 0 <= n -> 0 <= n' -> s3_key n = s3_key n' -> n = n'.
Proof. intros H1 H2 E. exact (proj1 (objectKey_inj prefix (s3_gzip cfg) (suffix n) (suffix n') (clock n) (clock n') n n' (suffix_plain _) (suffix_plain _) H1 H2 E)). Qed.

#[export] Instance s3_lossless : strict_policy (s3_failurePolicy cfg) (s3_dlq cfg) = true -> Lossless s3_flushes s3_holds.
Proof.
  intros Hst. split; [intros d _ _; exists []; cbn; split_and!; [lia|lia|done|done|done]|].
  intros d0 l d items d' Hd Hne (put & r & Hf & Ho) H0 Hb. destruct r as [[]|]; [clear Ho|done]. rewrite length_app in Hb.
  destruct (Hd H0 ltac:(lia)) as (objects & Hlen & Hseq & Hc & Hobj & Hold). unfold s3_flushBatch in Hf.
  destruct (serialize_all _ _ items) as [ps|] eqn:Es; [|done]. destruct (strict_serialize _ _ _ _ _ _ Hst Es) as (E1 & E2 & _).
  destruct ps as [|x ps]; [by subst items|]. assert (Hi : (0 < length items)%nat) by (rewrite <-E2; cbn; lia).
  destruct (if s3_gzip cfg then _ else _) as [body|] eqn:Eb; [|done]. rewrite wrap64_id in Hf by (unfold int64; lia).
  destruct (put (s3_key (d.1 + 1)) body); [injection Hf as _ _ Hp; by destruct (strict_policy_all q _ _ x.2 ps.*2 Hst)|injection Hf as Hs Hbk].
  exists (objects ++ [encodeNDJSON (x :: ps).*1]). rewrite !length_app. cbn [length]. split_and!; [lia|lia| | |].
  - rewrite concat_app, Hc, omap_app, encodeNDJSON_app, <-E1. cbn [concat]. by rewrite app_nil_r.
  - intros i lines [Hl|[Hge Hl]]%lookup_app_Some.
    + destruct (Hobj i lines Hl) as (bd & Hbd & Hp). exists bd. split; [|done]. rewrite <-Hbk, lookup_insert_ne; [done|].
      apply lookup_lt_Some in Hl. intros E. apply s3_key_inj in E; lia.
    + destruct (i - length objects)%nat as [|j] eqn:Ei; [|done]. injection Hl as <-. exists body. split.
      * rewrite <-Hbk. replace (d0.1 + 1 + Z.of_nat i) with (d.1 + 1) by lia. apply lookup_insert_eq.
      * unfold packed. destruct (s3_gzip cfg); [done|by injection Eb].
  - intros n Hn. rewrite <-Hbk, lookup_insert_ne; [by apply Hold|]. intros E. apply s3_key_inj in E; lia.
Qed.
End S3.

(** What an S3 sink read is in its bucket: when [Write] returns nil under a
    policy that passes nothing, the objects it uploaded, in the order of their
    numbers, have one line per record read, in order, and no earlier object of
    this sink was overwritten. *)
Theorem s3_write_delivers q gz prefix suffix clock size cfg seq bucket evs seq' bucket' :
  (forall n, dash ∉ suffix n) -> strict_policy (s3_failurePolicy cfg) (s3_dlq cfg) = true ->
  writes (s3_writer size) (s3_flushes q gz prefix suffix clock cfg) (seq, bucket) evs (seq', bucket') -> ret (brun (s3_writer size) evs) = Some (Ok tt) ->
  s3_holds gz prefix suffix clock cfg (seq, bucket) (read_of (s3_writer size) b_init evs) (seq', bucket').
Proof.
  intros Hs Hst Hw Hr. pose proof (s3_lossless q gz prefix suffix clock cfg Hs Hst) as HL.
  pose proof (write_delivers (s3_writer size) _ _ _ evs _ eq_refl Hw Hr) as H. cbn [convert s3_writer] in H. by rewrite omap_all in H.
Qed.

(** ** The Postgres sink *)

Section PostgresWrite.
Context {V : Type}.
Variables (q : bytes -> string) (size : Z) (mapper : Rec -> bytes * list bytes * list V) (cfg : postgresSinkConfig).

(** The destination is the groups of rows the database accepted. *)
Definition pg_writer : batchWriter (pendingRow V) := mkBW _ size false (mapRecord V mapper).
Definition pg_flushes (d : list (list (pendingRow V))) (batch : list (pendingRow V)) (d' : list (list (pendingRow V))) (o : option string) : Prop :=
  exists exec cancelled done r, insertBatch q cfg exec cancelled batch = (done, r) /\ d' = d ++ done /\ o = err_of r.
Definition pg_holds (d : list (list (pendingRow V))) (l : list (pendingRow V)) (d' : list (list (pendingRow V))) : Prop := concat d' ≡ₚ concat d ++ l.

#[export] Instance pg_lossless : strict_policy (pg_failurePolicy cfg) (pg_dlq cfg) = true -> Lossless pg_flushes pg_holds.
Proof.
  intros Hst. split; [intros d; unfold pg_holds; by rewrite app_nil_r|].
  intros d0 l d items d' Hd _ (exec & cancelled & done_ & r & Hf & -> & Ho). destruct r as [[]|]; [clear Ho|done].
  destruct (postgres_flush_accounts _ _ _ _ _ _ Hf) as (_ & _ & Hall). unfold pg_holds in *. by rewrite concat_app, Hd, <-(Hall Hst), (assoc_L (++)).
Qed.

(** What a Postgres sink read is in the database: when [Write] returns nil
    under a policy that passes nothing, the rows of the accepted statements are
    those the mapper made of the records read, each once; records the mapper
    declines have none. *)
Theorem postgres_write_delivers before evs after : strict_policy (pg_failurePolicy cfg) (pg_dlq cfg) = true ->
  writes pg_writer pg_flushes before evs after -> ret (brun pg_writer evs) = Some (Ok tt) ->
  concat after ≡ₚ concat before ++ omap (mapRecord V mapper) (read_of pg_writer b_init evs).
Proof. intros Hst Hw Hr. pose proof (pg_lossless Hst) as HL. exact (write_delivers pg_writer _ _ before evs after eq_refl Hw Hr). Qed.
End PostgresWrite.

(** ** A run of the HTTP sink: two batches, the endpoint busy once per batch, and
    having processed the first batch before it said so *)

Definition valued (i : Z) (v : string) : Rec := NewRecord i None (Some (b v)).
Definition httpEvs : list bev := [EvRec (valued 0 "1") None; EvRec (valued 1 "2") None; EvTick None; EvRec (valued 2 "3") None; EvClosed None []].
Definition demo_flushes := http_flushes (λ _, true) (λ _, None) (λ _, ""%string) httpDemo.
Definition body12 : bytes := b "1" ++ [LF] ++ b "2" ++ [LF].
Definition body3 : bytes := b "3" ++ [LF].
Lemma demo_flush took d items bodies : took 1 = true -> http_flushBatch (λ _, true) (λ _, None) (λ _, ""%string) httpDemo busyOnce (λ _, None) items = (2%nat, Ok tt) ->
  http_processed (λ _, true) (λ _, None) (λ _, ""%string) httpDemo busyOnce (λ _, None) (λ i, if i =? 0 then took 0 else true) items = bodies ->
  demo_flushes d items (d ++ bodies) None.
Proof.
  intros Ht H1 H2. exists busyOnce, (λ _, None), (λ i, if i =? 0 then took 0 else true), 2%nat, (Ok tt). rewrite H2. split_and!; try done.
  intros i. unfold busyOnce. destruct (i =? 0); split; try done. by intros (code & ra & [= <- <-] & Hs).
Qed.
Lemma http_demo_run : writes (http_writer 2) demo_flushes [] httpEvs [body12; body12; body3].
Proof.
  assert (H1 : writes (http_writer 2) demo_flushes [] (take 1 httpEvs) []) by (apply (writes_quiet _ _ _ []); [constructor|by vm_compute]).
  assert (H2 : writes (http_writer 2) demo_flushes [] (take 2 httpEvs) ([] ++ [body12; body12])).
  { apply (writes_flush _ _ _ (take 1 httpEvs) _ _ [valued 0 "1"; valued 1 "2"] _ H1); [by vm_compute|].
    apply (demo_flush (λ _, true)); by vm_compute. }
  assert (H3 : writes (http_writer 2) demo_flushes [] (take 3 httpEvs) ([] ++ [body12; body12]))
    by (apply (writes_quiet _ _ _ (take 2 httpEvs) _ _ H2); by vm_compute).
  assert (H4 : writes (http_writer 2) demo_flushes [] (take 4 httpEvs) ([] ++ [body12; body12]))
    by (apply (writes_quiet _ _ _ (take 3 httpEvs) _ _ H3); by vm_compute).
  apply (writes_flush _ _ _ (take 4 httpEvs) _ (EvClosed None []) [valued 2 "3"] _ H4); [by vm_compute|].
  apply (demo_flush (λ i, i =? 1) [body12; body12]); by vm_compute.
Qed.
Lemma http_write_delivers_witness :
  let read := read_of (http_writer 2) b_init httpEvs in
  omap (payload (h_serializer httpDemo)) read = [b "1"; b "2"; b "3"] /\
  exists (batches : list (list Rec)) (copies : list (bytes * nat)), concat batches = read /\
    Forall2 (λ batch bn, is_ndjson (omap (payload (h_serializer httpDemo)) batch) bn.1 /\ 1 <= Z.of_nat bn.2 <= 3) batches copies /\
    [body12; body12; body3] = [] ++ (copies ≫= λ bn, replicate bn.2 bn.1).
Proof.
  intros read. split; [vm_compute; reflexivity|].
  refine (proj2 (http_write_delivers (λ _, true) (λ _, None) (λ _, ""%string) 2 httpDemo [] httpEvs _ eq_refl eq_refl _ eq_refl http_demo_run _));
    [discriminate|vm_compute; reflexivity].
Defined.

(** ** The stdout and black-hole sinks *)

(** What their select takes: a record, the closed channel, the cancelled
    context. *)
Inductive sinkTake : Type := TakeRec (r : Rec) | TakeClosed | TakeDone (e : string).
Definition stdout_line (r : Rec) : bytes :=
  b "key=" ++ str (Key r) ++ b " value=" ++ str (Value r) ++ b " timestamp=" ++ Format (Timestamp r / Second * Second) ++ b " offset=" ++ dec_ (Offset r) ++ [LF].
(** Printed text; the number counted.  The result is there once Write has
    returned. *)
Fixpoint stdout_Write (evs : list sinkTake) (printed : bytes) : bytes * option (result unit) :=
  match evs with
  | [] => (printed, None)
  | TakeRec r :: evs => stdout_Write evs (printed ++ stdout_line r)
  | TakeClosed :: _ => (printed, Some (Ok tt))
  | TakeDone e :: _ => (printed, Some (Err e))
  end.
Fixpoint blackhole_Write (evs : list sinkTake) (count : Z) : Z * option (result unit) :=
  match evs with
  | [] => (count, None)
  | TakeRec _ :: evs => blackhole_Write evs (wrap64 (count + 1))
  | TakeClosed :: _ => (count, Some (Ok tt))
  | TakeDone e :: _ => (count, Some (Err e))
  end.
(** The records taken before the loop returns. *)
Fixpoint taken (evs : list sinkTake) : list Rec :=
  match evs with TakeRec r :: evs => r :: taken evs | _ => [] end.
(** Both end alike, when the channel closes or the context is cancelled: one has
    then printed every record taken, in order, the other counted them. *)
Theorem plain_sinks_take_all evs printed count : 0 <= count -> count + Z.of_nat (length (taken evs)) < 2 ^ 63 ->
  (stdout_Write evs printed).1 = printed ++ concat (stdout_line <$> taken evs) /\
  (blackhole_Write evs count).1 = count + Z.of_nat (length (taken evs)) /\
  (stdout_Write evs printed).2 = (blackhole_Write evs count).2.
Proof.
  revert printed count. induction evs as [|[r| |e] evs IH]; intros printed count H0 Hb; cbn -[stdout_line Z.pow wrap64 Z.of_nat] in *; rewrite ?app_nil_r, ?Z.add_0_r; try done.
  rewrite wrap64_id by (unfold int64; lia). destruct (IH (printed ++ stdout_line r) (count + 1)) as (-> & -> & ->); [lia|lia|].
  split_and!; [by rewrite <-app_assoc|lia|done].
Qed.
