(* ===== verification/SinkOptions.v ===== *)
(** * Package sink: options and construction of the sinks

    The full configuration of the HTTP, S3, Kafka, transactional Kafka and
    Postgres sinks with their options and defaults (http_options.go,
    s3_options.go, kafka_options.go, kafka_txn.go, postgres_options.go), and
    what the constructors refuse.  A panic is an error.  The loops of the sinks
    read the part of their configuration that [HttpSink], [Queues], [TxnSink] and
    [Postgres] model. *)
From S2P Require Import Prelude Paths GoTime Strconv Types Json Batch KafkaOptions.
From S2P Require HttpSink Queues TxnSink Postgres.

Definition Serializer : Type := Rec -> result bytes.
Definition DLQ : Type := Rec -> result unit.

(** ** The HTTP sink *)

Inductive HTTPBodyFormat : Type := HTTPBodyNDJSON | HTTPBodyJSONArray.
Definition format_Display (f : HTTPBodyFormat) : bytes := match f with HTTPBodyJSONArray => b "json-array" | HTTPBodyNDJSON => b "ndjson" end.
(** [hc_client] names the HTTP client; [JSONSerialize] is NewJSONSerializer's. *)
Section HTTP.
Variable JSONSerialize : Serializer.
Variable urlValid : bytes -> bool.       (* url.Parse succeeds *)

Record httpConfig : Type := mkHC {
  hc_url : bytes; hc_method : bytes; hc_headers : gmap bytes bytes; hc_format : HTTPBodyFormat;
  hc_encoder : option (list Rec -> result (bytes * bytes)); hc_serializer : option Serializer; hc_batchSize : Z; hc_flushInterval : Z;
  hc_timeout : Z; hc_maxRetries : Z; hc_client : option bytes; hc_failurePolicy : FailurePolicy; hc_dlq : option DLQ;
}.
Definition httpConfig_zero : httpConfig := mkHC [] [] ∅ HTTPBodyNDJSON None None 0 0 0 0 None FailurePolicyDrop None.
Definition HTTPSinkOption : Type := httpConfig -> httpConfig.
Definition HTTPURL (url : bytes) : HTTPSinkOption := λ c,
  mkHC url (hc_method c) (hc_headers c) (hc_format c) (hc_encoder c) (hc_serializer c) (hc_batchSize c) (hc_flushInterval c) (hc_timeout c)
  (hc_maxRetries c) (hc_client c) (hc_failurePolicy c) (hc_dlq c).
Definition HTTPMethod (method : bytes) : HTTPSinkOption := λ c,
  mkHC (hc_url c) method (hc_headers c) (hc_format c) (hc_encoder c) (hc_serializer c) (hc_batchSize c) (hc_flushInterval c) (hc_timeout c)
  (hc_maxRetries c) (hc_client c) (hc_failurePolicy c) (hc_dlq c).
Definition HTTPHeader (key value : bytes) : HTTPSinkOption := λ c,
  mkHC (hc_url c) (hc_method c) (<[key := value]> (hc_headers c)) (hc_format c) (hc_encoder c) (hc_serializer c) (hc_batchSize c)
  (hc_flushInterval c) (hc_timeout c) (hc_maxRetries c) (hc_client c) (hc_failurePolicy c) (hc_dlq c).
Definition HTTPBearerToken (token : bytes) : HTTPSinkOption := λ c,
  mkHC (hc_url c) (hc_method c) (<[b "Authorization" := b "Bearer " ++ token]> (hc_headers c)) (hc_format c) (hc_encoder c)
  (hc_serializer c) (hc_batchSize c) (hc_flushInterval c) (hc_timeout c) (hc_maxRetries c) (hc_client c) (hc_failurePolicy c) (hc_dlq c).
Definition HTTPFormat (f : HTTPBodyFormat) : HTTPSinkOption := λ c,
  mkHC (hc_url c) (hc_method c) (hc_headers c) f (hc_encoder c) (hc_serializer c) (hc_batchSize c) (hc_flushInterval c) (hc_timeout c)
  (hc_maxRetries c) (hc_client c) (hc_failurePolicy c) (hc_dlq c).
Definition HTTPEncoderFunc (fn : list Rec -> result (bytes * bytes)) : HTTPSinkOption := λ c,
  mkHC (hc_url c) (hc_method c) (hc_headers c) (hc_format c) (Some fn) (hc_serializer c) (hc_batchSize c) (hc_flushInterval c)
  (hc_timeout c) (hc_maxRetries c) (hc_client c) (hc_failurePolicy c) (hc_dlq c).
Definition HTTPSerialize (s : Serializer) : HTTPSinkOption := λ c,
  mkHC (hc_url c) (hc_method c) (hc_headers c) (hc_format c) (hc_encoder c) (Some s) (hc_batchSize c) (hc_flushInterval c) (hc_timeout c)
  (hc_maxRetries c) (hc_client c) (hc_failurePolicy c) (hc_dlq c).
Definition HTTPBatchSize (n : Z) : HTTPSinkOption := λ c,
  mkHC (hc_url c) (hc_method c) (hc_headers c) (hc_format c) (hc_encoder c) (hc_serializer c) n (hc_flushInterval c) (hc_timeout c)
  (hc_maxRetries c) (hc_client c) (hc_failurePolicy c) (hc_dlq c).
Definition HTTPFlushInterval (d : Z) : HTTPSinkOption := λ c,
  mkHC (hc_url c) (hc_method c) (hc_headers c) (hc_format c) (hc_encoder c) (hc_serializer c) (hc_batchSize c) d (hc_timeout c)
  (hc_maxRetries c) (hc_client c) (hc_failurePolicy c) (hc_dlq c).
Definition HTTPTimeout (d : Z) : HTTPSinkOption := λ c,
  mkHC (hc_url c) (hc_method c) (hc_headers c) (hc_format c) (hc_encoder c) (hc_serializer c) (hc_batchSize c) (hc_flushInterval c) d
  (hc_maxRetries c) (hc_client c) (hc_failurePolicy c) (hc_dlq c).
Definition HTTPMaxRetries (n : Z) : HTTPSinkOption := λ c,
  mkHC (hc_url c) (hc_method c) (hc_headers c) (hc_format c) (hc_encoder c) (hc_serializer c) (hc_batchSize c) (hc_flushInterval c)
  (hc_timeout c) n (hc_client c) (hc_failurePolicy c) (hc_dlq c).
Definition HTTPClient (client : bytes) : HTTPSinkOption := λ c,
  mkHC (hc_url c) (hc_method c) (hc_headers c) (hc_format c) (hc_encoder c) (hc_serializer c) (hc_batchSize c) (hc_flushInterval c)
  (hc_timeout c) (hc_maxRetries c) (Some client) (hc_failurePolicy c) (hc_dlq c).
Definition HTTPFailurePolicy (p : FailurePolicy) : HTTPSinkOption := λ c,
  mkHC (hc_url c) (hc_method c) (hc_headers c) (hc_format c) (hc_encoder c) (hc_serializer c) (hc_batchSize c) (hc_flushInterval c)
  (hc_timeout c) (hc_maxRetries c) (hc_client c) p (hc_dlq c).
Definition HTTPDLQ (q : DLQ) : HTTPSinkOption := λ c,
  mkHC (hc_url c) (hc_method c) (hc_headers c) (hc_format c) (hc_encoder c) (hc_serializer c) (hc_batchSize c) (hc_flushInterval c)
  (hc_timeout c) (hc_maxRetries c) (hc_client c) (hc_failurePolicy c) (Some q).
Definition httpConfig_applyDefaults (c : httpConfig) : httpConfig :=
  mkHC (hc_url c) (if isE (hc_method c) then b "POST" else hc_method c) (hc_headers c) (hc_format c) (hc_encoder c) (Some
  (default JSONSerialize (hc_serializer c)) ) (if hc_batchSize c <=? 0 then defaultBatchSize else hc_batchSize c)
  (orZero Second (hc_flushInterval c)) (if hc_timeout c <=? 0 then 30 * Second else hc_timeout c)
  (if hc_maxRetries c <? 0 then 0 else hc_maxRetries c) (Some (default (b "http.Client") (hc_client c)) ) (hc_failurePolicy c) (hc_dlq c).
Definition NewHTTPSink (opts : list HTTPSinkOption) : result httpConfig :=
  let c := httpConfig_applyDefaults (foldl (λ c o, o c) httpConfig_zero opts) in
  if isE (hc_url c) then Err "panic: weibo/sink: HTTPSink requires HTTPURL(...)"
  else if negb (urlValid (hc_url c)) then Err "panic: weibo/sink: HTTPSink invalid URL" else Ok c.
(** What the flush loop reads. *)
Definition http_loop (c : httpConfig) : HttpSink.httpSinkConfig :=
  HttpSink.mkHttp (match hc_format c with HTTPBodyJSONArray => true | _ => false end) (hc_encoder c) (default JSONSerialize (hc_serializer c))
    (hc_maxRetries c) (hc_failurePolicy c) (hc_dlq c).
End HTTP.

(** ** The S3 sink *)

Section S3.
Variable JSONSerialize : Serializer.

Record s3Config : Type := mkS3C {
  s3c_bucket : bytes; s3c_region : bytes; s3c_prefix : bytes; s3c_endpoint : bytes; s3c_pathStyle : bool; s3c_accessKey : bytes;
  s3c_secretKey : bytes; s3c_sessionToken : bytes; s3c_serializer : option Serializer; s3c_keyFunc : option (Z -> Z -> bytes);
  s3c_gzip : bool; s3c_batchSize : Z; s3c_flushInterval : Z; s3c_maxAttempts : Z; s3c_client : option bytes;
  s3c_failurePolicy : FailurePolicy; s3c_dlq : option DLQ;
}.
Definition s3Config_zero : s3Config := mkS3C [] [] [] [] false [] [] [] None None false 0 0 0 None FailurePolicyDrop None.
Definition S3SinkOption : Type := s3Config -> s3Config.
Definition S3Bucket (bucket : bytes) : S3SinkOption := λ c,
  mkS3C bucket (s3c_region c) (s3c_prefix c) (s3c_endpoint c) (s3c_pathStyle c) (s3c_accessKey c) (s3c_secretKey c) (s3c_sessionToken c)
  (s3c_serializer c) (s3c_keyFunc c) (s3c_gzip c) (s3c_batchSize c) (s3c_flushInterval c) (s3c_maxAttempts c) (s3c_client c)
  (s3c_failurePolicy c) (s3c_dlq c).
Definition S3Region (region : bytes) : S3SinkOption := λ c,
  mkS3C (s3c_bucket c) region (s3c_prefix c) (s3c_endpoint c) (s3c_pathStyle c) (s3c_accessKey c) (s3c_secretKey c) (s3c_sessionToken c)
  (s3c_serializer c) (s3c_keyFunc c) (s3c_gzip c) (s3c_batchSize c) (s3c_flushInterval c) (s3c_maxAttempts c) (s3c_client c)
  (s3c_failurePolicy c) (s3c_dlq c).
Definition S3Prefix (prefix : bytes) : S3SinkOption := λ c,
  mkS3C (s3c_bucket c) (s3c_region c) prefix (s3c_endpoint c) (s3c_pathStyle c) (s3c_accessKey c) (s3c_secretKey c) (s3c_sessionToken c)
  (s3c_serializer c) (s3c_keyFunc c) (s3c_gzip c) (s3c_batchSize c) (s3c_flushInterval c) (s3c_maxAttempts c) (s3c_client c)
  (s3c_failurePolicy c) (s3c_dlq c).
Definition S3Endpoint (endpoint : bytes) : S3SinkOption := λ c,
  mkS3C (s3c_bucket c) (s3c_region c) (s3c_prefix c) endpoint (s3c_pathStyle c) (s3c_accessKey c) (s3c_secretKey c) (s3c_sessionToken c)
  (s3c_serializer c) (s3c_keyFunc c) (s3c_gzip c) (s3c_batchSize c) (s3c_flushInterval c) (s3c_maxAttempts c) (s3c_client c)
  (s3c_failurePolicy c) (s3c_dlq c).
Definition S3PathStyle : S3SinkOption := λ c,
  mkS3C (s3c_bucket c) (s3c_region c) (s3c_prefix c) (s3c_endpoint c) true (s3c_accessKey c) (s3c_secretKey c) (s3c_sessionToken c)
  (s3c_serializer c) (s3c_keyFunc c) (s3c_gzip c) (s3c_batchSize c) (s3c_flushInterval c) (s3c_maxAttempts c) (s3c_client c)
  (s3c_failurePolicy c) (s3c_dlq c).
Definition S3StaticCredentials (ak sk st : bytes) : S3SinkOption := λ c,
  mkS3C (s3c_bucket c) (s3c_region c) (s3c_prefix c) (s3c_endpoint c) (s3c_pathStyle c) ak sk st (s3c_serializer c) (s3c_keyFunc c)
  (s3c_gzip c) (s3c_batchSize c) (s3c_flushInterval c) (s3c_maxAttempts c) (s3c_client c) (s3c_failurePolicy c) (s3c_dlq c).
Definition S3Serialize (s : Serializer) : S3SinkOption := λ c,
  mkS3C (s3c_bucket c) (s3c_region c) (s3c_prefix c) (s3c_endpoint c) (s3c_pathStyle c) (s3c_accessKey c) (s3c_secretKey c)
  (s3c_sessionToken c) (Some s) (s3c_keyFunc c) (s3c_gzip c) (s3c_batchSize c) (s3c_flushInterval c) (s3c_maxAttempts c) (s3c_client c)
  (s3c_failurePolicy c) (s3c_dlq c).
Definition S3KeyNaming (fn : Z -> Z -> bytes) : S3SinkOption := λ c,
  mkS3C (s3c_bucket c) (s3c_region c) (s3c_prefix c) (s3c_endpoint c) (s3c_pathStyle c) (s3c_accessKey c) (s3c_secretKey c)
  (s3c_sessionToken c) (s3c_serializer c) (Some fn) (s3c_gzip c) (s3c_batchSize c) (s3c_flushInterval c) (s3c_maxAttempts c) (s3c_client c)
  (s3c_failurePolicy c) (s3c_dlq c).
Definition S3Gzip : S3SinkOption := λ c,
  mkS3C (s3c_bucket c) (s3c_region c) (s3c_prefix c) (s3c_endpoint c) (s3c_pathStyle c) (s3c_accessKey c) (s3c_secretKey c)
  (s3c_sessionToken c) (s3c_serializer c) (s3c_keyFunc c) true (s3c_batchSize c) (s3c_flushInterval c) (s3c_maxAttempts c) (s3c_client c)
  (s3c_failurePolicy c) (s3c_dlq c).
Definition S3BatchSize (n : Z) : S3SinkOption := λ c,
  mkS3C (s3c_bucket c) (s3c_region c) (s3c_prefix c) (s3c_endpoint c) (s3c_pathStyle c) (s3c_accessKey c) (s3c_secretKey c)
  (s3c_sessionToken c) (s3c_serializer c) (s3c_keyFunc c) (s3c_gzip c) n (s3c_flushInterval c) (s3c_maxAttempts c) (s3c_client c)
  (s3c_failurePolicy c) (s3c_dlq c).
Definition S3FlushInterval (d : Z) : S3SinkOption := λ c,
  mkS3C (s3c_bucket c) (s3c_region c) (s3c_prefix c) (s3c_endpoint c) (s3c_pathStyle c) (s3c_accessKey c) (s3c_secretKey c)
  (s3c_sessionToken c) (s3c_serializer c) (s3c_keyFunc c) (s3c_gzip c) (s3c_batchSize c) d (s3c_maxAttempts c) (s3c_client c)
  (s3c_failurePolicy c) (s3c_dlq c).
Definition S3MaxAttempts (n : Z) : S3SinkOption := λ c,
  mkS3C (s3c_bucket c) (s3c_region c) (s3c_prefix c) (s3c_endpoint c) (s3c_pathStyle c) (s3c_accessKey c) (s3c_secretKey c)
  (s3c_sessionToken c) (s3c_serializer c) (s3c_keyFunc c) (s3c_gzip c) (s3c_batchSize c) (s3c_flushInterval c) n (s3c_client c)
  (s3c_failurePolicy c) (s3c_dlq c).
Definition S3Client (api : bytes) : S3SinkOption := λ c,
  mkS3C (s3c_bucket c) (s3c_region c) (s3c_prefix c) (s3c_endpoint c) (s3c_pathStyle c) (s3c_accessKey c) (s3c_secretKey c)
  (s3c_sessionToken c) (s3c_serializer c) (s3c_keyFunc c) (s3c_gzip c) (s3c_batchSize c) (s3c_flushInterval c) (s3c_maxAttempts c)
  (Some api) (s3c_failurePolicy c) (s3c_dlq c).
Definition S3FailurePolicy (p : FailurePolicy) : S3SinkOption := λ c,
  mkS3C (s3c_bucket c) (s3c_region c) (s3c_prefix c) (s3c_endpoint c) (s3c_pathStyle c) (s3c_accessKey c) (s3c_secretKey c)
  (s3c_sessionToken c) (s3c_serializer c) (s3c_keyFunc c) (s3c_gzip c) (s3c_batchSize c) (s3c_flushInterval c) (s3c_maxAttempts c)
  (s3c_client c) p (s3c_dlq c).
Definition S3DLQ (q : DLQ) : S3SinkOption := λ c,
  mkS3C (s3c_bucket c) (s3c_region c) (s3c_prefix c) (s3c_endpoint c) (s3c_pathStyle c) (s3c_accessKey c) (s3c_secretKey c)
  (s3c_sessionToken c) (s3c_serializer c) (s3c_keyFunc c) (s3c_gzip c) (s3c_batchSize c) (s3c_flushInterval c) (s3c_maxAttempts c)
  (s3c_client c) (s3c_failurePolicy c) (Some q).
Definition s3Config_applyDefaults (c : s3Config) : s3Config :=
  mkS3C (s3c_bucket c) (s3c_region c) (s3c_prefix c) (s3c_endpoint c) (s3c_pathStyle c) (s3c_accessKey c) (s3c_secretKey c)
  (s3c_sessionToken c) (Some (default JSONSerialize (s3c_serializer c)) ) (s3c_keyFunc c) (s3c_gzip c)
  (if s3c_batchSize c <=? 0 then 5000 else s3c_batchSize c) (orZero Minute (s3c_flushInterval c))
  (if s3c_maxAttempts c <=? 0 then 3 else s3c_maxAttempts c) (s3c_client c) (s3c_failurePolicy c) (s3c_dlq c).
(** What building a client hands to the AWS library; [loadErr] is its answer. *)
Record awsClient : Type := mkAws {
  aws_maxAttempts : Z; aws_region : option bytes; aws_credentials : option (bytes * bytes * bytes); aws_endpoint : option bytes; aws_pathStyle : bool;
}.
Definition nonEmpty (s : bytes) : option bytes := if isE s then None else Some s.
Definition buildS3Client (loadErr : option string) (c : s3Config) : result awsClient :=
  match loadErr with
  | Some e => Err ("panic: weibo/sink: S3Sink: load AWS config: " +:+ e)
  | None => Ok (mkAws (s3c_maxAttempts c) (nonEmpty (s3c_region c))
                  (if isE (s3c_accessKey c) then None else Some (s3c_accessKey c, s3c_secretKey c, s3c_sessionToken c))
                  (nonEmpty (s3c_endpoint c)) (s3c_pathStyle c))
  end.
Definition NewS3Sink (loadErr : option string) (opts : list S3SinkOption) : result (s3Config * option awsClient) :=
  let c := s3Config_applyDefaults (foldl (λ c o, o c) s3Config_zero opts) in
  if isE (s3c_bucket c) then Err "panic: weibo/sink: S3Sink requires S3Bucket(...)"
  else match s3c_client c with
  | Some _ => Ok (c, None)
  | None => match buildS3Client loadErr c with Ok a => Ok (c, Some a) | Err e => Err e end
  end.
Definition s3_loop (c : s3Config) : Queues.s3SinkConfig := Queues.mkS3 (default JSONSerialize (s3c_serializer c)) (s3c_gzip c) (s3c_failurePolicy c) (s3c_dlq c).
End S3.

(** ** The Kafka sink *)

Definition AcksNone : Z := 0.
Definition AcksLeader : Z := 1.
Definition AcksAll : Z := -1.
Definition acks_Display (a : Z) : bytes := if a =? AcksNone then b "none" else if a =? AcksAll then b "all" else b "leader".
(** The library's levels have the same values. *)
Definition toKafkaAcks (a : Z) : Z := if a =? AcksNone then 0 else if a =? AcksAll then -1 else 1.

Record kafkaOutConfig : Type := mkKKC {
  kkc_brokers : list bytes; kkc_topic : bytes; kkc_batchSize : Z; kkc_batchTimeout : Z; kkc_acks : Z; kkc_acksSet : bool; kkc_async : bool;
  kkc_sasl : option SASLConfig; kkc_tls : option TLSConfig; kkc_serializer : option Serializer; kkc_failurePolicy : FailurePolicy;
  kkc_dlq : option DLQ; kkc_maxRetries : Z;
}.
Definition kafkaOutConfig_zero : kafkaOutConfig := mkKKC [] [] 0 0 0 false false None None None FailurePolicyDrop None 0.
Definition KafkaSinkOption : Type := kafkaOutConfig -> kafkaOutConfig.
Definition KafkaSinkBrokers (brokers : list bytes) : KafkaSinkOption := λ c,
  mkKKC brokers (kkc_topic c) (kkc_batchSize c) (kkc_batchTimeout c) (kkc_acks c) (kkc_acksSet c) (kkc_async c) (kkc_sasl c) (kkc_tls c)
  (kkc_serializer c) (kkc_failurePolicy c) (kkc_dlq c) (kkc_maxRetries c).
Definition KafkaSinkTopic (topic : bytes) : KafkaSinkOption := λ c,
  mkKKC (kkc_brokers c) topic (kkc_batchSize c) (kkc_batchTimeout c) (kkc_acks c) (kkc_acksSet c) (kkc_async c) (kkc_sasl c) (kkc_tls c)
  (kkc_serializer c) (kkc_failurePolicy c) (kkc_dlq c) (kkc_maxRetries c).
Definition KafkaSinkBatchSize (n : Z) : KafkaSinkOption := λ c,
  mkKKC (kkc_brokers c) (kkc_topic c) n (kkc_batchTimeout c) (kkc_acks c) (kkc_acksSet c) (kkc_async c) (kkc_sasl c) (kkc_tls c)
  (kkc_serializer c) (kkc_failurePolicy c) (kkc_dlq c) (kkc_maxRetries c).
Definition KafkaSinkBatchTimeout (d : Z) : KafkaSinkOption := λ c,
  mkKKC (kkc_brokers c) (kkc_topic c) (kkc_batchSize c) d (kkc_acks c) (kkc_acksSet c) (kkc_async c) (kkc_sasl c) (kkc_tls c)
  (kkc_serializer c) (kkc_failurePolicy c) (kkc_dlq c) (kkc_maxRetries c).
Definition KafkaSinkRequiredAcks (level : Z) : KafkaSinkOption := λ c,
  mkKKC (kkc_brokers c) (kkc_topic c) (kkc_batchSize c) (kkc_batchTimeout c) level true (kkc_async c) (kkc_sasl c) (kkc_tls c)
  (kkc_serializer c) (kkc_failurePolicy c) (kkc_dlq c) (kkc_maxRetries c).
Definition KafkaSinkAsync : KafkaSinkOption := λ c,
  mkKKC (kkc_brokers c) (kkc_topic c) (kkc_batchSize c) (kkc_batchTimeout c) (kkc_acks c) (kkc_acksSet c) true (kkc_sasl c) (kkc_tls c)
  (kkc_serializer c) (kkc_failurePolicy c) (kkc_dlq c) (kkc_maxRetries c).
Definition KafkaSinkSASL (cfg : SASLConfig) : KafkaSinkOption := λ c,
  mkKKC (kkc_brokers c) (kkc_topic c) (kkc_batchSize c) (kkc_batchTimeout c) (kkc_acks c) (kkc_acksSet c) (kkc_async c) (Some cfg)
  (kkc_tls c) (kkc_serializer c) (kkc_failurePolicy c) (kkc_dlq c) (kkc_maxRetries c).
Definition KafkaSinkTLS (cfg : TLSConfig) : KafkaSinkOption := λ c,
  mkKKC (kkc_brokers c) (kkc_topic c) (kkc_batchSize c) (kkc_batchTimeout c) (kkc_acks c) (kkc_acksSet c) (kkc_async c) (kkc_sasl c)
  (Some cfg) (kkc_serializer c) (kkc_failurePolicy c) (kkc_dlq c) (kkc_maxRetries c).
Definition KafkaSinkSerialize (s : Serializer) : KafkaSinkOption := λ c,
  mkKKC (kkc_brokers c) (kkc_topic c) (kkc_batchSize c) (kkc_batchTimeout c) (kkc_acks c) (kkc_acksSet c) (kkc_async c) (kkc_sasl c)
  (kkc_tls c) (Some s) (kkc_failurePolicy c) (kkc_dlq c) (kkc_maxRetries c).
Definition KafkaSinkMaxRetries (n : Z) : KafkaSinkOption := λ c,
  mkKKC (kkc_brokers c) (kkc_topic c) (kkc_batchSize c) (kkc_batchTimeout c) (kkc_acks c) (kkc_acksSet c) (kkc_async c) (kkc_sasl c)
  (kkc_tls c) (kkc_serializer c) (kkc_failurePolicy c) (kkc_dlq c) n.
Definition KafkaSinkFailurePolicy (p : FailurePolicy) : KafkaSinkOption := λ c,
  mkKKC (kkc_brokers c) (kkc_topic c) (kkc_batchSize c) (kkc_batchTimeout c) (kkc_acks c) (kkc_acksSet c) (kkc_async c) (kkc_sasl c)
  (kkc_tls c) (kkc_serializer c) p (kkc_dlq c) (kkc_maxRetries c).
Definition KafkaSinkDLQ (q : DLQ) : KafkaSinkOption := λ c,
  mkKKC (kkc_brokers c) (kkc_topic c) (kkc_batchSize c) (kkc_batchTimeout c) (kkc_acks c) (kkc_acksSet c) (kkc_async c) (kkc_sasl c)
  (kkc_tls c) (kkc_serializer c) (kkc_failurePolicy c) (Some q) (kkc_maxRetries c).
Definition kafkaOutConfig_applyDefaults (c : kafkaOutConfig) : kafkaOutConfig :=
  mkKKC (kkc_brokers c) (kkc_topic c) (orZero 100 (kkc_batchSize c)) (orZero Second (kkc_batchTimeout c))
  (if kkc_acksSet c then kkc_acks c else AcksLeader) (kkc_acksSet c) (kkc_async c) (kkc_sasl c) (kkc_tls c) (kkc_serializer c)
  (kkc_failurePolicy c) (kkc_dlq c) (orZero 3 (kkc_maxRetries c)).
(** [kafka.Writer] as far as it is set; [authErr] is the answer of building the
    SASL and TLS settings. *)
Record kafkaWriter : Type := mkWriter {
  kw_Addr : list bytes; kw_Topic : bytes; kw_BatchSize : Z; kw_BatchTimeout : Z; kw_RequiredAcks : Z; kw_Async : bool; kw_Transport : option (option SASLConfig * option TLSConfig);
}.
Definition NewKafkaSink (authErr : option string) (opts : list KafkaSinkOption) : result (kafkaOutConfig * kafkaWriter) :=
  let c := kafkaOutConfig_applyDefaults (foldl (λ c o, o c) kafkaOutConfig_zero opts) in
  if bool_decide (kkc_brokers c = []) then Err "panic: weibo/sink: KafkaSink requires KafkaSinkBrokers(...)"
  else if isE (kkc_topic c) then Err "panic: weibo/sink: KafkaSink requires KafkaSinkTopic(...)"
  else
    let w tr := mkWriter (kkc_brokers c) (kkc_topic c) (kkc_batchSize c) (kkc_batchTimeout c) (toKafkaAcks (kkc_acks c)) (kkc_async c) tr in
    match kkc_sasl c, kkc_tls c, authErr with
    | None, None, _ => Ok (c, w None)
    | s, t, None => Ok (c, w (Some (s, t)))
    | _, _, Some e => Err ("panic: weibo/sink: " +:+ e)
    end.
Definition kafka_loop (c : kafkaOutConfig) : Queues.kafkaSinkConfig := Queues.mkKS (kkc_serializer c) (kkc_maxRetries c) (kkc_failurePolicy c) (kkc_dlq c).

(** ** The transactional Kafka sink *)

Record txnConfig : Type := mkTC {
  tc_brokers : list bytes; tc_topic : bytes; tc_txnID : bytes; tc_markerTopic : bytes; tc_serializer : option (Rec -> result slice);
  tc_sasl : option SASLConfig; tc_tls : option TLSConfig;
}.
Definition txnConfig_zero : txnConfig := mkTC [] [] [] [] None None None.
Definition TxnKafkaOption : Type := txnConfig -> txnConfig.
Definition TxnKafkaBrokers (brokers : list bytes) : TxnKafkaOption := λ c,
  mkTC brokers (tc_topic c) (tc_txnID c) (tc_markerTopic c) (tc_serializer c) (tc_sasl c) (tc_tls c).
Definition TxnKafkaTopic (topic : bytes) : TxnKafkaOption := λ c,
  mkTC (tc_brokers c) topic (tc_txnID c) (tc_markerTopic c) (tc_serializer c) (tc_sasl c) (tc_tls c).
Definition TxnKafkaTransactionalID (id : bytes) : TxnKafkaOption := λ c,
  mkTC (tc_brokers c) (tc_topic c) id (tc_markerTopic c) (tc_serializer c) (tc_sasl c) (tc_tls c).
Definition TxnKafkaMarkerTopic (topic : bytes) : TxnKafkaOption := λ c,
  mkTC (tc_brokers c) (tc_topic c) (tc_txnID c) topic (tc_serializer c) (tc_sasl c) (tc_tls c).
Definition TxnKafkaSerialize (s : Rec -> result slice) : TxnKafkaOption := λ c,
  mkTC (tc_brokers c) (tc_topic c) (tc_txnID c) (tc_markerTopic c) (Some s) (tc_sasl c) (tc_tls c).
Definition TxnKafkaSASL (cfg : SASLConfig) : TxnKafkaOption := λ c,
  mkTC (tc_brokers c) (tc_topic c) (tc_txnID c) (tc_markerTopic c) (tc_serializer c) (Some cfg) (tc_tls c).
Definition TxnKafkaTLS (cfg : TLSConfig) : TxnKafkaOption := λ c,
  mkTC (tc_brokers c) (tc_topic c) (tc_txnID c) (tc_markerTopic c) (tc_serializer c) (tc_sasl c) (Some cfg).
(** Construction from options, the checks being those of [TxnSink]. *)
Definition txn_from_options (authErr : option string) (opts : list TxnKafkaOption) : result TxnSink.txnKafkaConfig :=
  let c := foldl (λ c o, o c) txnConfig_zero opts in
  let authErr := match tc_sasl c, tc_tls c with None, None => None | _, _ => authErr end in
  TxnSink.NewTxnKafkaSink (tc_brokers c) (tc_topic c) (tc_txnID c) (tc_markerTopic c) (tc_serializer c) authErr.
(** [baseOpts]: producer and marker probe authenticate the same way. *)
Record kgoOpts : Type := mkKgo { ko_Seeds : list bytes; ko_SASL : option SASLConfig; ko_TLS : option TLSConfig }.
Definition baseOpts (saslErr tlsErr : option string) (c : txnConfig) : result kgoOpts :=
  match tc_sasl c, saslErr with
  | Some _, Some e => Err ("sasl: " +:+ e)
  | _, _ =>
      match tc_tls c, tlsErr with
      | Some _, Some e => Err ("tls: " +:+ e)
      | _, _ => Ok (mkKgo (tc_brokers c) (tc_sasl c) (tc_tls c))
      end
  end.

(** ** The Postgres sink *)

Record pgConfig : Type := mkPGC {
  pgc_dsn : bytes; pgc_mapper : option (Rec -> bytes * list bytes * list any); pgc_batchSize : Z; pgc_flushInterval : Z; pgc_maxRetries : Z;
  pgc_mode : Postgres.PostgresWriteMode; pgc_conflictCols : list bytes; pgc_updateCols : list bytes; pgc_failurePolicy : FailurePolicy;
  pgc_dlq : option DLQ;
}.
Definition pgConfig_zero : pgConfig := mkPGC [] None 0 0 0 Postgres.ModeUnset [] [] FailurePolicyDrop None.
Definition PostgresSinkOption : Type := pgConfig -> pgConfig.
Definition PostgresDSN (dsn : bytes) : PostgresSinkOption := λ c,
  mkPGC dsn (pgc_mapper c) (pgc_batchSize c) (pgc_flushInterval c) (pgc_maxRetries c) (pgc_mode c) (pgc_conflictCols c) (pgc_updateCols c)
  (pgc_failurePolicy c) (pgc_dlq c).
Definition PostgresMapper (m : Rec -> bytes * list bytes * list any) : PostgresSinkOption := λ c,
  mkPGC (pgc_dsn c) (Some m) (pgc_batchSize c) (pgc_flushInterval c) (pgc_maxRetries c) (pgc_mode c) (pgc_conflictCols c) (pgc_updateCols c)
  (pgc_failurePolicy c) (pgc_dlq c).
Definition PostgresBatchSize (n : Z) : PostgresSinkOption := λ c,
  mkPGC (pgc_dsn c) (pgc_mapper c) n (pgc_flushInterval c) (pgc_maxRetries c) (pgc_mode c) (pgc_conflictCols c) (pgc_updateCols c)
  (pgc_failurePolicy c) (pgc_dlq c).
Definition PostgresFlushInterval (d : Z) : PostgresSinkOption := λ c,
  mkPGC (pgc_dsn c) (pgc_mapper c) (pgc_batchSize c) d (pgc_maxRetries c) (pgc_mode c) (pgc_conflictCols c) (pgc_updateCols c)
  (pgc_failurePolicy c) (pgc_dlq c).
Definition PostgresMaxRetries (n : Z) : PostgresSinkOption := λ c,
  mkPGC (pgc_dsn c) (pgc_mapper c) (pgc_batchSize c) (pgc_flushInterval c) n (pgc_mode c) (pgc_conflictCols c) (pgc_updateCols c)
  (pgc_failurePolicy c) (pgc_dlq c).
Definition PostgresMode (mode : Postgres.PostgresWriteMode) : PostgresSinkOption := λ c,
  mkPGC (pgc_dsn c) (pgc_mapper c) (pgc_batchSize c) (pgc_flushInterval c) (pgc_maxRetries c) mode (pgc_conflictCols c) (pgc_updateCols c)
  (pgc_failurePolicy c) (pgc_dlq c).
Definition PostgresConflictColumns (cols : list bytes) : PostgresSinkOption := λ c,
  mkPGC (pgc_dsn c) (pgc_mapper c) (pgc_batchSize c) (pgc_flushInterval c) (pgc_maxRetries c) (pgc_mode c) cols (pgc_updateCols c)
  (pgc_failurePolicy c) (pgc_dlq c).
Definition PostgresUpdateColumns (cols : list bytes) : PostgresSinkOption := λ c,
  mkPGC (pgc_dsn c) (pgc_mapper c) (pgc_batchSize c) (pgc_flushInterval c) (pgc_maxRetries c) (pgc_mode c) (pgc_conflictCols c) cols
  (pgc_failurePolicy c) (pgc_dlq c).
Definition PostgresFailurePolicy (p : FailurePolicy) : PostgresSinkOption := λ c,
  mkPGC (pgc_dsn c) (pgc_mapper c) (pgc_batchSize c) (pgc_flushInterval c) (pgc_maxRetries c) (pgc_mode c) (pgc_conflictCols c)
  (pgc_updateCols c) p (pgc_dlq c).
Definition PostgresDLQ (q : DLQ) : PostgresSinkOption := λ c,
  mkPGC (pgc_dsn c) (pgc_mapper c) (pgc_batchSize c) (pgc_flushInterval c) (pgc_maxRetries c) (pgc_mode c) (pgc_conflictCols c)
  (pgc_updateCols c) (pgc_failurePolicy c) (Some q).
Definition pgConfig_applyDefaults (c : pgConfig) : pgConfig :=
  mkPGC (pgc_dsn c) (pgc_mapper c) (orZero 100 (pgc_batchSize c)) (orZero (5 * Second) (pgc_flushInterval c)) (orZero 3 (pgc_maxRetries c))
  (match pgc_mode c with Postgres.ModeUnset => Postgres.PostgresInsert | m => m end) (pgc_conflictCols c) (pgc_updateCols c)
  (pgc_failurePolicy c) (pgc_dlq c).
Definition pg_loop (c : pgConfig) : Postgres.postgresSinkConfig :=
  Postgres.mkPg (pgc_maxRetries c) (pgc_mode c) (pgc_conflictCols c) (pgc_updateCols c) (pgc_failurePolicy c) (pgc_dlq c).
(** [poolErr]: the answer of opening the pool. *)
Definition NewPostgresSink (ident : bytes -> bool) (poolErr : option string) (opts : list PostgresSinkOption) : result pgConfig :=
  let c := pgConfig_applyDefaults (foldl (λ c o, o c) pgConfig_zero opts) in
  if isE (pgc_dsn c) then Err "panic: weibo/sink: PostgresSink requires PostgresDSN(...)"
  else match pgc_mapper c with
  | None => Err "panic: weibo/sink: PostgresSink requires PostgresMapper(...)"
  | Some _ =>
      match Postgres.validateWriteMode ident (pg_loop c), poolErr with
      | Err e, _ => Err ("panic: weibo/sink: " +:+ e)
      | Ok _, Some e => Err ("panic: weibo/sink: postgres connection failed: " +:+ e)
      | Ok _, None => Ok c
      end
  end.

(** ** Dead-letter queues (dlq.go) *)

(** [filepath.Dir]: the path up to its last slash, cleaned. *)
Definition filepath_Dir (path : bytes) : bytes :=
  match removelast (split_on slash path) with [] => b "." | l => Clean (join [slash] l ++ [slash]) end.
Example dir_examples : filepath_Dir (b "dlq.jsonl") = b "." /\ filepath_Dir (b "/var/dlq/x") = b "/var/dlq" /\ filepath_Dir (b "/x") = b "/".
Proof. vm_compute. done. Qed.
(** A queue as constructed, on a file that holds [content]; [mkdirErr] and
    [openErr] are the answers of the file system. *)
Definition FileDLQNoSync (d : Queues.FileDLQ) : Queues.FileDLQ := Queues.mkFD (Queues.fd_file d) false (Queues.fd_closed d).
Definition NewFileDLQ (mkdirErr openErr : option string) (content path : bytes) (opts : list (Queues.FileDLQ -> Queues.FileDLQ)) : result Queues.FileDLQ :=
  let d := foldl (λ d o, o d) (Queues.mkFD content true false) opts in
  let dir := filepath_Dir path in
  match (if isE dir || eqs dir "." then None else mkdirErr), openErr with
  | Some e, _ => Err ("weibo/sink: file DLQ: create dir: " +:+ e)
  | None, Some e => Err ("weibo/sink: file DLQ: open: " +:+ e)
  | None, None => Ok d
  end.

Record kafkaDLQConfig : Type := mkKDC {
  kd_brokers : list bytes; kd_topic : bytes; kd_serializer : option Serializer; kd_sasl : option SASLConfig; kd_tls : option TLSConfig;
}.
Definition KafkaDLQOption : Type := kafkaDLQConfig -> kafkaDLQConfig.
Definition KafkaDLQBrokers (brokers : list bytes) : KafkaDLQOption := λ c, mkKDC brokers (kd_topic c) (kd_serializer c) (kd_sasl c) (kd_tls c).
Definition KafkaDLQTopic (topic : bytes) : KafkaDLQOption := λ c, mkKDC (kd_brokers c) topic (kd_serializer c) (kd_sasl c) (kd_tls c).
Definition KafkaDLQSerialize (s : Serializer) : KafkaDLQOption := λ c, mkKDC (kd_brokers c) (kd_topic c) (Some s) (kd_sasl c) (kd_tls c).
Definition KafkaDLQSASL (cfg : SASLConfig) : KafkaDLQOption := λ c, mkKDC (kd_brokers c) (kd_topic c) (kd_serializer c) (Some cfg) (kd_tls c).
Definition KafkaDLQTLS (cfg : TLSConfig) : KafkaDLQOption := λ c, mkKDC (kd_brokers c) (kd_topic c) (kd_serializer c) (kd_sasl c) (Some cfg).
(** One record per write, acknowledged by all replicas. *)
Definition NewKafkaDLQ (authErr : option string) (opts : list KafkaDLQOption) : result (kafkaDLQConfig * kafkaWriter) :=
  let c := foldl (λ c o, o c) (mkKDC [] [] None None None) opts in
  if bool_decide (kd_brokers c = []) then Err "panic: weibo/sink: KafkaDLQ requires KafkaDLQBrokers(...)"
  else if isE (kd_topic c) then Err "panic: weibo/sink: KafkaDLQTopic(...) is required"
  else
    let w tr := mkWriter (kd_brokers c) (kd_topic c) 1 (10 * 1000000) (-1) false tr in
    match kd_sasl c, kd_tls c, authErr with
    | None, None, _ => Ok (c, w None)
    | s, t, None => Ok (c, w (Some (s, t)))
    | _, _, Some e => Err ("panic: weibo/sink: " +:+ e)
    end.

(** ** What construction guarantees *)

Lemma orZero_nonzero d n : d <> 0 -> orZero d n <> 0.
Proof. unfold orZero. by destruct (Z.eqb_spec n 0). Qed.
Lemma http_construction JS uv opts c : NewHTTPSink JS uv opts = Ok c ->
  c = httpConfig_applyDefaults JS (foldl (λ c o, o c) httpConfig_zero opts) /\ hc_url c <> [] /\ uv (hc_url c) = true.
Proof.
  unfold NewHTTPSink. set (c0 := httpConfig_applyDefaults _ _). destruct (isE (hc_url c0)) eqn:Eu; [done|]. destruct (uv (hc_url c0)) eqn:Ev; [|done].
  intros [= <-]. split; [done|]. unfold isE in Eu. by apply bool_decide_eq_false in Eu.
Qed.
Lemma s3_construction JS le opts c cl : NewS3Sink JS le opts = Ok (c, cl) ->
  c = s3Config_applyDefaults JS (foldl (λ c o, o c) s3Config_zero opts) /\ s3c_bucket c <> [] /\ (cl = None <-> is_Some (s3c_client c)).
Proof.
  unfold NewS3Sink. set (c0 := s3Config_applyDefaults _ _). destruct (isE (s3c_bucket c0)) eqn:Eu; [done|]. unfold isE in Eu. apply bool_decide_eq_false in Eu.
  destruct (s3c_client c0) eqn:Ec.
  - intros [= <- <-]. split_and!; [done..|]. rewrite Ec. split; [eauto|done].
  - unfold buildS3Client. destruct le; [done|]. intros [= <- <-]. split_and!; [done..|]. rewrite Ec. split; [done|]. by intros [? ?].
Qed.

Lemma pg_construction ident pe opts c : NewPostgresSink ident pe opts = Ok c ->
  pgc_dsn c <> [] /\ is_Some (pgc_mapper c) /\ pgc_batchSize c <> 0 /\ pgc_flushInterval c <> 0 /\ Postgres.validateWriteMode ident (pg_loop c) = Ok tt.
Proof.
  unfold NewPostgresSink. set (c0 := pgConfig_applyDefaults _). destruct (isE (pgc_dsn c0)) eqn:Eu; [done|]. unfold isE in Eu. apply bool_decide_eq_false in Eu.
  destruct (pgc_mapper c0) eqn:Em; [|done]. destruct (Postgres.validateWriteMode ident (pg_loop c0)) as [[]|] eqn:Ev; [|done]. destruct pe; [done|]. intros [= <-].
  split_and!; [done|by eexists|by apply orZero_nonzero..|done].
Qed.

(** A sink is constructed only when its addresses are given, and then batches
    hold at least one record, a partial batch is flushed after some time, and
    attempts are bounded. *)
Theorem constructed_sinks_wf JS uv le ident pe hopts sopts popts hc sc cl pc :
  NewHTTPSink JS uv hopts = Ok hc -> NewS3Sink JS le sopts = Ok (sc, cl) -> NewPostgresSink ident pe popts = Ok pc ->
  (hc_url hc <> [] /\ 0 < hc_batchSize hc /\ hc_flushInterval hc <> 0 /\ 0 < hc_timeout hc /\ 0 <= hc_maxRetries hc /\ hc_method hc <> []) /\
  (s3c_bucket sc <> [] /\ 0 < s3c_batchSize sc /\ s3c_flushInterval sc <> 0 /\ 0 < s3c_maxAttempts sc) /\
  (pgc_dsn pc <> [] /\ is_Some (pgc_mapper pc) /\ pgc_batchSize pc <> 0 /\ pgc_flushInterval pc <> 0 /\ Postgres.validateWriteMode ident (pg_loop pc) = Ok tt).
Proof.
  intros Hh Hs Hp%pg_construction. split; [|split; [|done]]; split_and!.
  - by apply http_construction in Hh as (_ & ? & _).
  - apply http_construction in Hh as (-> & _). cbn. destruct (Z.leb_spec (hc_batchSize (foldl (λ c o, o c) httpConfig_zero hopts)) 0); [vm_compute|]; done.
  - apply http_construction in Hh as (-> & _). by apply orZero_nonzero.
  - apply http_construction in Hh as (-> & _). cbn. destruct (Z.leb_spec (hc_timeout (foldl (λ c o, o c) httpConfig_zero hopts)) 0); [vm_compute|]; done.
  - apply http_construction in Hh as (-> & _). cbn. destruct (Z.ltb_spec (hc_maxRetries (foldl (λ c o, o c) httpConfig_zero hopts)) 0); [vm_compute|]; done.
  - apply http_construction in Hh as (-> & _). cbn. destruct (isE _) eqn:E; [done|]. unfold isE in E. by apply bool_decide_eq_false in E.
  - by apply s3_construction in Hs as (_ & ? & _).
  - apply s3_construction in Hs as (-> & _). cbn. destruct (Z.leb_spec (s3c_batchSize (foldl (λ c o, o c) s3Config_zero sopts)) 0); [vm_compute|]; done.
  - apply s3_construction in Hs as (-> & _). by apply orZero_nonzero.
  - apply s3_construction in Hs as (-> & _). cbn. destruct (Z.leb_spec (s3c_maxAttempts (foldl (λ c o, o c) s3Config_zero sopts)) 0); [vm_compute|]; done.
Qed.

(** Asking for no periodic flush gives the default interval: zero reads as
    unset. *)
Theorem zero_flush_interval_is_default JS uv le hopts sopts hc sc cl :
  NewHTTPSink JS uv (hopts ++ [HTTPFlushInterval 0]) = Ok hc -> NewS3Sink JS le (sopts ++ [S3FlushInterval 0]) = Ok (sc, cl) ->
  hc_flushInterval hc = Second /\ s3c_flushInterval sc = Minute.
Proof.
  intros Hh Hs. apply http_construction in Hh as (-> & _). apply s3_construction in Hs as (-> & _). by rewrite !foldl_app.
Qed.
