(* ===== verification/Fields.v ===== *)
(** * Packages workflow/record and workflow/operators

    Decoded JSON records addressed by dotted paths, and the built-in filter,
    select, rename and set operators on them.  A map is an association list
    whose first binding of a key counts; Go mutates maps in place, so an
    operation gives the map it leaves behind together with its status.  Each
    record is taken to own its maps: constants of a set are scalars. *)
From S2P Require Import Prelude GoTime Strconv Types Json.

(** ** Objects *)

(** [JSONRecord]: a possibly nil map. *)
Definition JSONRecord : Type := option (list (bytes * any)).
Definition fields (d : JSONRecord) : list (bytes * any) := match d with None => [] | Some m => m end.
Definition as_any (d : JSONRecord) : any := match d with None => AnyNilMap | Some m => AnyMap m end.

Fixpoint mget (k : bytes) (m : list (bytes * any)) : option any :=
  match m with
  | [] => None
  | (k', v) :: m => if decide (k' = k) then Some v else mget k m
  end.
Fixpoint mset (k : bytes) (v : any) (m : list (bytes * any)) : list (bytes * any) :=
  match m with
  | [] => [(k, v)]
  | (k', v') :: m => if decide (k' = k) then (k, v) :: m else (k', v') :: mset k v m
  end.
Definition mdel (k : bytes) (m : list (bytes * any)) : list (bytes * any) :=
  List.filter (λ kv, bool_decide (kv.1 <> k)) m.

Lemma mget_mset_eq k v m : mget k (mset k v m) = Some v.
Proof. induction m as [|[k' v'] m IH]; simpl; [by rewrite decide_True|]. case_decide; simpl; by case_decide. Qed.
Lemma mget_mset_ne k k' v m : k <> k' -> mget k' (mset k v m) = mget k' m.
Proof.
  intros Hk. induction m as [|[x v'] m IH]; simpl; [by rewrite decide_False|].
  case_decide; simpl; repeat case_decide; congruence.
Qed.
Lemma mset_same k v m : mget k m = Some v -> mset k v m = m.
Proof. induction m as [|[x v'] m IH]; simpl; [done|]. case_decide; intros; simplify_eq; [done|f_equal; auto]. Qed.
Lemma mget_mdel_eq k m : mget k (mdel k m) = None.
Proof.
  induction m as [|[x v'] m IH]; [done|]. unfold mdel. cbn [List.filter fst]. case_bool_decide; cbn; [|exact IH].
  by rewrite decide_False.
Qed.
Lemma mget_mdel_ne k k' m : k <> k' -> mget k' (mdel k m) = mget k' m.
Proof.
  intros Hk. induction m as [|[x v'] m IH]; [done|]. unfold mdel. cbn [List.filter fst]. case_bool_decide as Hb; cbn.
  - case_decide; [done|exact IH].
  - rewrite decide_False; [exact IH|]. intros ->. by destruct Hb.
Qed.

(** ** Paths *)

(** What an operation on a map ends with. *)
Inductive status : Type := SOk | SErr (msg : string) | SPanic.
#[export] Instance status_eq_dec : EqDecision status.
Proof. solve_decision. Defined.

(** [strings.Split(path, ".")]. *)
Fixpoint split_dot (s : bytes) : list bytes :=
  match s with
  | [] => [[]]
  | c :: s =>
      let segs := split_dot s in
      if decide (c = "."%char) then [] :: segs
      else match segs with seg :: rest => (c :: seg) :: rest | [] => [[c]] end
  end.
Definition splitPath (path : bytes) : result (list bytes) :=
  if bool_decide (path = []) then Err "record: empty field path"
  else let segs := split_dot path in
       if existsb (λ s, bool_decide (s = [])) segs then Err "record: invalid field path (empty segment)" else Ok segs.

Definition asObject (v : any) : option JSONRecord :=
  match v with AnyMap m => Some (Some m) | AnyNilMap => Some None | _ => None end.

Fixpoint get_walk (segs : list bytes) (cur : JSONRecord) : option any :=
  match segs with
  | [] => None
  | s :: rest =>
      v ← mget s (fields cur);
      match rest with
      | [] => Some v
      | _ => o ← asObject v; get_walk rest o
      end
  end.
Definition GetField (data : JSONRecord) (path : bytes) : option any :=
  match splitPath path with Err _ => None | Ok segs => get_walk segs data end.

(** [cur[s] = v]. *)
Definition assign (s : bytes) (v : any) (cur : JSONRecord) : JSONRecord * status :=
  match cur with None => (None, SPanic) | Some m => (Some (mset s v m), SOk) end.

Fixpoint set_walk (segs : list bytes) (value : any) (cur : JSONRecord) : JSONRecord * status :=
  match segs with
  | [] => (cur, SOk)
  | s :: rest =>
      match rest with
      | [] => assign s value cur
      | _ =>
          match mget s (fields cur) with
          | None =>
              match assign s (AnyMap []) cur with
              | (cur, SOk) => let '(inner, st) := set_walk rest value (Some []) in ((assign s (as_any inner) cur).1, st)
              | r => r
              end
          | Some next =>
              match asObject next with
              | None => (cur, SErr "record: cannot set: not an object")
              | Some obj => let '(inner, st) := set_walk rest value obj in ((assign s (as_any inner) cur).1, st)
              end
          end
      end
  end.
Definition SetField (data : JSONRecord) (path : bytes) (value : any) : JSONRecord * status :=
  match splitPath path with Err e => (data, SErr e) | Ok segs => set_walk segs value data end.

Fixpoint del_walk (segs : list bytes) (cur : JSONRecord) : JSONRecord * status :=
  match segs with
  | [] => (cur, SOk)
  | s :: rest =>
      match rest with
      | [] => (mdel s <$> cur, SOk)
      | _ =>
          match mget s (fields cur) with
          | None => (cur, SOk)
          | Some next =>
              match asObject next with
              | None => (cur, SErr "record: cannot delete: not an object")
              | Some obj => let '(inner, st) := del_walk rest obj in ((assign s (as_any inner) cur).1, st)
              end
          end
      end
  end.
Definition DeleteField (data : JSONRecord) (path : bytes) : JSONRecord * status :=
  match splitPath path with Err e => (data, SErr e) | Ok segs => del_walk segs data end.

(** ** Laws of paths *)

(** Neither path leads through the other. *)
Definition apart (p q : list bytes) : Prop := ~ p `prefix_of` q /\ ~ q `prefix_of` p.
#[export] Instance apart_dec p q : Decision (apart p q).
Proof. unfold apart. apply _. Defined.
Lemma apart_sym p q : apart p q -> apart q p.
Proof. unfold apart. tauto. Qed.
(** Two apart paths part at the first segment or after a common one. *)
Lemma apart_cons s p t q : apart (s :: p) (t :: q) -> s <> t \/ (s = t /\ apart p q /\ p <> [] /\ q <> []).
Proof.
  unfold apart. intros [H1 H2]. destruct (decide (s = t)) as [->|]; [right|by left].
  split_and!; [done|intros H; by apply H1, prefix_cons|intros H; by apply H2, prefix_cons| |].
  - intros ->. apply H1. by exists q.
  - intros ->. apply H2. by exists p.
Qed.
Lemma apart_nil_l p : ~ apart [] p.
Proof. intros [H _]. apply H. apply prefix_nil. Qed.

Lemma asObject_as_any d : asObject (as_any d) = Some d.
Proof. by destruct d. Qed.
Lemma asObject_inv v d : asObject v = Some d -> v = as_any d.
Proof. destruct v; simpl; intros [= <-]; done. Qed.

(** One step of a set or delete below segment [s]. *)
Lemma set_walk_cons s p v m : p <> [] -> set_walk (s :: p) v m =
  match mget s (fields m) with
  | None => match assign s (AnyMap []) m with
            | (m, SOk) => let '(inner, st) := set_walk p v (Some []) in ((assign s (as_any inner) m).1, st)
            | r => r
            end
  | Some next => match asObject next with
                 | None => (m, SErr "record: cannot set: not an object")
                 | Some obj => let '(inner, st) := set_walk p v obj in ((assign s (as_any inner) m).1, st)
                 end
  end.
Proof. by destruct p. Qed.
Lemma del_walk_cons s p m : p <> [] -> del_walk (s :: p) m =
  match mget s (fields m) with
  | None => (m, SOk)
  | Some next => match asObject next with
                 | None => (m, SErr "record: cannot delete: not an object")
                 | Some obj => let '(inner, st) := del_walk p obj in ((assign s (as_any inner) m).1, st)
                 end
  end.
Proof. by destruct p. Qed.

(** A failed set or delete changes nothing. *)
Lemma set_walk_err p v m : forall m' e, set_walk p v m = (m', SErr e) -> m' = m.
Proof.
  revert m. induction p as [|s [|t p] IH]; intros m m' e; [done|by destruct m|]. rewrite set_walk_cons by done.
  destruct (mget s (fields m)) as [next|] eqn:E.
  - destruct (asObject next) as [obj|] eqn:Eo; [|by intros; simplify_eq].
    destruct (set_walk (t :: p) v obj) as [inner st] eqn:Es. intros [= <- ->].
    rewrite (IH _ _ _ Es). apply asObject_inv in Eo as ->. destruct m as [m|]; [|done]. cbn in *. by rewrite mset_same.
  - destruct m as [m|]; [|done]. cbn [assign fst].
    destruct (set_walk (t :: p) v (Some [])) as [inner st] eqn:Es. intros [= _ ->]. exfalso. clear IH E. revert t inner Es.
    induction p as [|u p IHp]; intros t inner Es; [done|]. rewrite set_walk_cons in Es by done. cbn [mget fields assign fst] in Es. destruct (set_walk (u :: p) v (Some [])) as [inner' st] eqn:E'. injection Es as _ ->. by eapply IHp.
Qed.
Lemma del_walk_err p m : forall m' e, del_walk p m = (m', SErr e) -> m' = m.
Proof.
  revert m. induction p as [|s [|t p] IH]; intros m m' e; [done|done|]. rewrite del_walk_cons by done.
  destruct (mget s (fields m)) as [next|] eqn:E; [|done].
  destruct (asObject next) as [obj|] eqn:Eo; [|by intros; simplify_eq].
  destruct (del_walk (t :: p) obj) as [inner st] eqn:Es. intros [= <- ->].
  rewrite (IH _ _ _ Es). apply asObject_inv in Eo as ->. destruct m as [m|]; [|done]. cbn in *. by rewrite mset_same.
Qed.

(** One step of a walk below segment [s]. *)
Lemma get_walk_cons s p m : p <> [] -> get_walk (s :: p) m = (mget s (fields m) ≫= asObject) ≫= get_walk p.
Proof. intros Hp. destruct p; [done|]. cbn [get_walk]. by destruct (mget s (fields m)) as [v|]. Qed.
Lemma get_walk_assign_eq s x m p : p <> [] -> get_walk (s :: p) (Some (mset s (as_any x) m)) = get_walk p x.
Proof. intros Hp. rewrite get_walk_cons by done. cbn [fields]. rewrite mget_mset_eq. cbn. by rewrite asObject_as_any. Qed.
Lemma get_walk_fields s p m m' : mget s (fields m) = mget s (fields m') -> get_walk (s :: p) m = get_walk (s :: p) m'.
Proof. intros E. cbn [get_walk]. by rewrite E. Qed.
Lemma get_walk_empty p : get_walk p (Some []) = None.
Proof. by destruct p. Qed.

Lemma set_walk_get p v m : forall m', p <> [] -> set_walk p v m = (m', SOk) -> get_walk p m' = Some v.
Proof.
  revert m. induction p as [|s [|t p] IH]; intros m m' Hp; [done| |].
  - destruct m as [m|]; [|done]. intros [= <-]. cbn. by rewrite mget_mset_eq.
  - rewrite set_walk_cons by done. destruct (mget s (fields m)) as [next|] eqn:E.
    + destruct (asObject next) as [obj|] eqn:Eo; [|done].
      destruct (set_walk (t :: p) v obj) as [inner st] eqn:Es. intros [= <- ->].
      destruct m as [m|]; [|done]. cbn [assign fst]. rewrite get_walk_assign_eq by done. by eapply IH.
    + destruct m as [m|]; [|done]. cbn [assign fst].
      destruct (set_walk (t :: p) v (Some [])) as [inner st] eqn:Es. intros [= <- ->].
      rewrite get_walk_assign_eq by done. by eapply IH.
Qed.

Lemma set_walk_apart p v m q : forall m' st, set_walk p v m = (m', st) -> apart p q -> get_walk q m' = get_walk q m.
Proof.
  revert m q. induction p as [|s [|t p] IH]; intros m q m' st Hs Ha; [by apply apart_nil_l in Ha| |].
  - destruct q as [|t q]; [by apply apart_sym, apart_nil_l in Ha|].
    apply apart_cons in Ha as [Hne|(_ & _ & ? & _)]; [|done].
    destruct m as [m|]; injection Hs as <- <-; [|done]. apply get_walk_fields. by apply mget_mset_ne.
  - destruct q as [|u q]; [by apply apart_sym, apart_nil_l in Ha|]. rewrite set_walk_cons in Hs by done.
    destruct (mget s (fields m)) as [next|] eqn:E.
    + destruct (asObject next) as [obj|] eqn:Eo; [|by injection Hs as <- <-].
      destruct (set_walk (t :: p) v obj) as [inner st'] eqn:Es. injection Hs as <- <-.
      destruct m as [m|]; [|done]. cbn [assign fst].
      apply apart_cons in Ha as [Hne|(<- & Ha & _ & Hq)]; [apply get_walk_fields; by apply mget_mset_ne|].
      rewrite get_walk_assign_eq, get_walk_cons, E by done. cbn. rewrite Eo. cbn. by eapply IH.
    + destruct m as [m|]; [|by injection Hs as <- <-]. cbn [assign fst] in Hs.
      destruct (set_walk (t :: p) v (Some [])) as [inner st'] eqn:Es. injection Hs as <- <-.
      apply apart_cons in Ha as [Hne|(<- & Ha & _ & Hq)].
      * apply get_walk_fields. cbn [fields]. by rewrite !mget_mset_ne.
      * rewrite get_walk_assign_eq, get_walk_cons, E by done. rewrite (IH _ _ _ _ Es Ha). apply get_walk_empty.
Qed.

Lemma del_walk_get p m : forall m', p <> [] -> del_walk p m = (m', SOk) -> get_walk p m' = None.
Proof.
  revert m. induction p as [|s [|t p] IH]; intros m m' Hp; [done| |].
  - intros [= <-]. cbn. destruct m as [m|]; [|done]. cbn. by rewrite mget_mdel_eq.
  - rewrite del_walk_cons by done. destruct (mget s (fields m)) as [next|] eqn:E.
    + destruct (asObject next) as [obj|] eqn:Eo; [|done].
      destruct (del_walk (t :: p) obj) as [inner st] eqn:Es. intros [= <- ->].
      destruct m as [m|]; [|done]. cbn [assign fst]. rewrite get_walk_assign_eq by done. by eapply IH.
    + intros [= <-]. by rewrite get_walk_cons, E by done.
Qed.
Lemma del_walk_apart p m q : forall m' st, del_walk p m = (m', st) -> apart p q -> get_walk q m' = get_walk q m.
Proof.
  revert m q. induction p as [|s [|t p] IH]; intros m q m' st Hs Ha; [by apply apart_nil_l in Ha| |].
  - destruct q as [|t q]; [by apply apart_sym, apart_nil_l in Ha|].
    apply apart_cons in Ha as [Hne|(_ & _ & ? & _)]; [|done].
    injection Hs as <- <-. destruct m as [m|]; [|done]. apply get_walk_fields. by apply mget_mdel_ne.
  - destruct q as [|u q]; [by apply apart_sym, apart_nil_l in Ha|]. rewrite del_walk_cons in Hs by done.
    destruct (mget s (fields m)) as [next|] eqn:E; [|by injection Hs as <- <-].
    destruct (asObject next) as [obj|] eqn:Eo; [|by injection Hs as <- <-].
    destruct (del_walk (t :: p) obj) as [inner st'] eqn:Es. injection Hs as <- <-.
    destruct m as [m|]; [|done]. cbn [assign fst].
    apply apart_cons in Ha as [Hne|(<- & Ha & _ & Hq)]; [apply get_walk_fields; by apply mget_mset_ne|].
    rewrite get_walk_assign_eq, get_walk_cons, E by done. cbn. rewrite Eo. cbn. by eapply IH.
Qed.
Lemma del_walk_no_panic p m : forall m', del_walk p m <> (m', SPanic).
Proof.
  revert m. induction p as [|s [|t p] IH]; intros m m'; [done|done|]. rewrite del_walk_cons by done.
  destruct (mget s (fields m)) as [next|]; [|done]. destruct (asObject next) as [obj|]; [|done].
  destruct (del_walk (t :: p) obj) as [inner st] eqn:Es. intros [= _ ->]. by eapply IH.
Qed.
(** A field that is there can be deleted. *)
Lemma del_walk_present p m : forall v, get_walk p m = Some v -> (del_walk p m).2 = SOk.
Proof.
  revert m. induction p as [|s [|t p] IH]; intros m v; [done|done|]. rewrite get_walk_cons by done. rewrite del_walk_cons by done.
  destruct (mget s (fields m)) as [next|]; [|done]. cbn [mbind option_bind]. destruct (asObject next) as [obj|]; [|done].
  intros H. apply IH in H. by destruct (del_walk (t :: p) obj).
Qed.

Lemma split_dot_ne s : split_dot s <> [].
Proof. destruct s as [|c s]; simpl; [done|]. case_decide; [done|]. by destruct (split_dot s). Qed.
Lemma splitPath_ne path segs : splitPath path = Ok segs -> segs <> [].
Proof.
  unfold splitPath. destruct (bool_decide _); [done|]. cbn zeta. destruct (existsb _ _); [done|].
  intros [= <-]. apply split_dot_ne.
Qed.

Definition paths_apart (p q : bytes) : Prop :=
  exists sp sq, splitPath p = Ok sp /\ splitPath q = Ok sq /\ apart sp sq.
Lemma paths_apart_sym p q : paths_apart p q -> paths_apart q p.
Proof. intros (sp & sq & ? & ? & ?). exists sq, sp. eauto using apart_sym. Qed.

Lemma SetField_get d p v d' : SetField d p v = (d', SOk) -> GetField d' p = Some v.
Proof.
  unfold SetField, GetField. destruct (splitPath p) as [sp|] eqn:E; [|done].
  apply set_walk_get. by eapply splitPath_ne.
Qed.
Lemma SetField_err d p v d' e : SetField d p v = (d', SErr e) -> d' = d.
Proof. unfold SetField. destruct (splitPath p); [apply set_walk_err|by intros [= <- _]]. Qed.
Lemma SetField_apart d p v d' st q : SetField d p v = (d', st) -> paths_apart p q -> GetField d' q = GetField d q.
Proof.
  intros Hs (sp & sq & Ep & Eq & Ha). unfold SetField, GetField in *. rewrite Ep in Hs. rewrite Eq.
  by eapply set_walk_apart.
Qed.
Lemma DeleteField_apart d p d' st q : DeleteField d p = (d', st) -> paths_apart p q -> GetField d' q = GetField d q.
Proof.
  intros Hs (sp & sq & Ep & Eq & Ha). unfold DeleteField, GetField in *. rewrite Ep in Hs. rewrite Eq.
  by eapply del_walk_apart.
Qed.
(** Deleting a field that is there removes it. *)
Lemma DeleteField_present d p v : GetField d p = Some v -> (DeleteField d p).2 = SOk /\ GetField (DeleteField d p).1 p = None.
Proof.
  unfold DeleteField, GetField. destruct (splitPath p) as [sp|] eqn:E; [|done]. intros H.
  assert (Hok : (del_walk sp d).2 = SOk) by (by eapply del_walk_present). split; [done|].
  destruct (del_walk sp d) as [d' st] eqn:Ed. simpl in *. subst st. eapply del_walk_get; [by eapply splitPath_ne|done].
Qed.

(** Setting and deleting a field by its dotted path, on every record, path
    and value.  A set that succeeds makes the field readable with that value;
    a set or delete that fails leaves the record as it was; a delete that
    succeeds makes the field absent; and no operation affects a field whose
    path is apart from the one written (neither a prefix of the other). *)
Theorem field_update_laws data path v :
  let '(d1, st1) := SetField data path v in
  let '(d2, st2) := DeleteField data path in
  (st1 = SOk -> GetField d1 path = Some v) /\
  (forall e, st1 = SErr e -> d1 = data) /\
  (st2 = SOk -> GetField d2 path = None) /\
  (forall e, st2 = SErr e -> d2 = data) /\ st2 <> SPanic /\
  (forall q, paths_apart path q -> GetField d1 q = GetField data q /\ GetField d2 q = GetField data q).
Proof.
  destruct (SetField data path v) as [d1 st1] eqn:E1, (DeleteField data path) as [d2 st2] eqn:E2. split_and!.
  - intros ->. by eapply SetField_get.
  - intros e ->. by eapply SetField_err.
  - intros ->. unfold DeleteField, GetField in *. destruct (splitPath path) eqn:E; [|done].
    eapply del_walk_get; [by eapply splitPath_ne|done].
  - intros e ->. unfold DeleteField in E2. destruct (splitPath path); [by eapply del_walk_err|by injection E2].
  - intros ->. unfold DeleteField in E2. destruct (splitPath path) as [sp|]; [|done]. by eapply del_walk_no_panic.
  - intros q Hq. split; [by eapply SetField_apart|by eapply DeleteField_apart].
Qed.

Example set_nested :
  SetField (Some [(b "a", AnyMap [(b "x", AnyBool true)])]) (b "a.b.c") (AnyString (b "v")) =
    (Some [(b "a", AnyMap [(b "x", AnyBool true); (b "b", AnyMap [(b "c", AnyString (b "v"))])])], SOk).
Proof. vm_compute. reflexivity. Qed.
