(* ===== verification/BuiltinOps.v ===== *)
(** * Package workflow/operators: the declarative operators

    Comparison with its coercions, and the builders of filter, selectFields,
    renameFields and setFields.  The JSON text of an object is read and written
    through [ObjectText] (encoding/json with UseNumber). *)
From S2P Require Import Prelude Paths GoTime Strconv Types Json Fields.

(** ** JSON objects as text *)

Class ObjectText : Type := {
  obj_parse : bytes -> result JSONRecord;      (* Decode: an object, nil for null, or an error *)
  obj_print : JSONRecord -> result bytes;      (* Marshal *)
}.

Definition blank (c : ascii) : bool := ((9 <=? byteZ c) && (byteZ c <=? 13)) || (byteZ c =? 32).

(** ** Comparison *)

Definition OpEquals : bytes := b "equals".
Definition OpNotEquals : bytes := b "not_equals".
Definition OpGreaterThan : bytes := b "greater_than".
Definition OpGreaterThanOrEqual : bytes := b "greater_than_or_equal".
Definition OpLessThan : bytes := b "less_than".
Definition OpLessThanOrEqual : bytes := b "less_than_or_equal".
Definition OpContains : bytes := b "contains".
Definition OpExists : bytes := b "exists".
Definition OpNotExists : bytes := b "not_exists".
Definition compareOps : list bytes :=
  [OpEquals; OpNotEquals; OpGreaterThan; OpGreaterThanOrEqual; OpLessThan; OpLessThanOrEqual; OpContains; OpExists; OpNotExists].
Definition op_Valid (op : bytes) : bool := bool_decide (op ∈ compareOps).
Definition NeedsValue (op : bytes) : bool := negb (bool_decide (op = OpExists)) && negb (bool_decide (op = OpNotExists)).

(** [asNumber]: the [json.Number] of a numeric value. *)
Definition asNumber (v : any) : option bytes :=
  match v with
  | AnyNumber l => Some l
  | AnyInt n => Some (dec_ n)
  | AnyFloat f => Some (FormatFloat f)
  | _ => None
  end.
Definition asFloat (v : any) : option float64 :=
  n ← asNumber v; match ParseFloat n with Ok f => Some f | Err _ => None end.

Definition numbersEqual (x y : bytes) : bool :=
  match ParseInt x, ParseInt y with
  | Ok i, Ok j => i =? j
  | _, _ => match ParseFloat x, ParseFloat y with Ok f, Ok g => feq f g | _, _ => false end
  end.

Definition valuesEqual (x y : any) : bool :=
  match asNumber x, asNumber y with
  | Some m, Some n => numbersEqual m n
  | Some _, None | None, Some _ => false
  | None, None =>
      match x, y with
      | AnyBool p, AnyBool q => Bool.eqb p q
      | AnyString s, AnyString t => bool_decide (s = t)
      | _, _ => false
      end
  end.

(** [strings.Compare]. *)
Definition strings_Compare (s t : bytes) : Z :=
  if bool_decide (s = t) then 0 else if bytes_leb s t then -1 else 1.
Definition orderedCmp (x y : any) (pred : Z -> bool) : bool :=
  match asFloat x with
  | Some f =>
      match asFloat y with
      | Some g => if flt f g then pred (-1) else if flt g f then pred 1 else pred 0
      | None => false
      end
  | None =>
      match x, y with
      | AnyString s, AnyString t => pred (strings_Compare s t)
      | _, _ => false
      end
  end.

(** [strings.Contains]. *)
Fixpoint strings_Contains (s p : bytes) : bool :=
  HasPrefix s p || match s with [] => false | _ :: s => strings_Contains s p end.
(** [fmt.Sprint]. *)
Fixpoint Sprint (v : any) : bytes :=
  match v with
  | AnyNil => b "<nil>"
  | AnyBool x => b (if x then "true" else "false")
  | AnyNumber l => l
  | AnyInt n => dec_ n
  | AnyFloat f => FormatFloat f
  | AnyString s => s
  | AnySlice l => b "[" ++ join (b " ") (map Sprint l) ++ b "]"
  | AnyMap m =>
      let shown := map (λ kv : bytes * any, let '(k, x) := kv in (k, Sprint x)) m in
      b "map[" ++ join (b " ") (map (λ kv, kv.1 ++ b ":" ++ kv.2) (merge_sort key_le shown)) ++ b "]"
  | AnyNilMap => b "map[]"
  | AnyOther t => t
  end.
Definition looseString (v : any) : bytes :=
  match v with
  | AnyString s => s
  | AnyNumber l => l
  | AnyNil => []
  | _ => Sprint v
  end.
Definition contains (field target : any) : bool :=
  match field with
  | AnyString s => strings_Contains s (looseString target)
  | AnySlice l => existsb (λ e, valuesEqual e target) l
  | _ => false
  end.

(** [Compare]; the field is [None] when absent. *)
Definition Compare (op : bytes) (field : option any) (target : any) : result bool :=
  if bool_decide (op = OpExists) then Ok (bool_decide (is_Some field))
  else if bool_decide (op = OpNotExists) then Ok (negb (bool_decide (is_Some field)))
  else if negb (op_Valid op) then Err "operators: unsupported comparison operator"
  else match field with
  | None => Ok false
  | Some v =>
      if bool_decide (op = OpEquals) then Ok (valuesEqual v target)
      else if bool_decide (op = OpNotEquals) then Ok (negb (valuesEqual v target))
      else if bool_decide (op = OpGreaterThan) then Ok (orderedCmp v target (λ c, 0 <? c))
      else if bool_decide (op = OpGreaterThanOrEqual) then Ok (orderedCmp v target (λ c, 0 <=? c))
      else if bool_decide (op = OpLessThan) then Ok (orderedCmp v target (λ c, c <? 0))
      else if bool_decide (op = OpLessThanOrEqual) then Ok (orderedCmp v target (λ c, c <=? 0))
      else if bool_decide (op = OpContains) then Ok (contains v target)
      else Err "operators: unsupported comparison operator"
  end.

(** ** Operators *)

Record FilterConfig : Type := mkFilter { f_Field : bytes; f_Operator : bytes; f_Value : any }.
Definition FilterConfig_Validate (cfg : FilterConfig) : result unit :=
  if bool_decide (f_Field cfg = []) then Err "filter: field is required"
  else if negb (op_Valid (f_Operator cfg)) then Err "filter: unsupported operator"
  else match f_Value cfg with
  | AnyNil => if NeedsValue (f_Operator cfg) then Err "filter: operator requires a value" else Ok tt
  | _ => Ok tt
  end.
Record FieldRename : Type := mkRename { rn_From : bytes; rn_To : bytes }.
Definition RenameConfig_Validate (renames : list FieldRename) : result unit :=
  if bool_decide (length renames = 0%nat) then Err "rename_fields: at least one rename is required"
  else if existsb (λ rn, bool_decide (rn_From rn = []) || bool_decide (rn_To rn = [])) renames
       then Err "rename_fields: renames need both from and to" else Ok tt.
Record FieldSet : Type := mkFieldSet { s_Field : bytes; s_Value : any }.
Definition SetConfig_Validate (sets : list FieldSet) : result unit :=
  if bool_decide (length sets = 0%nat) then Err "set_fields: at least one set is required"
  else if existsb (λ s, bool_decide (s_Field s = [])) sets then Err "set_fields: field is required" else Ok tt.
Definition SelectConfig_Validate (fs : list bytes) : result unit :=
  if bool_decide (length fs = 0%nat) then Err "select_fields: at least one field is required"
  else if existsb (λ f, bool_decide (f = [])) fs then Err "select_fields: field names must not be empty" else Ok tt.

Section Build.
Context `{OT : ObjectText}.

(** Blank input is an empty object (ASCII white space). *)
Definition decodeJSONBytes (data : bytes) : result JSONRecord :=
  if forallb blank data then Ok (Some []) else obj_parse data.
Definition DecodeJSON (r : Rec) : result JSONRecord :=
  match asObject (Parsed r) with
  | Some d => Ok d
  | None => decodeJSONBytes (str (Value r))
  end.
Definition EncodeJSON (d : JSONRecord) : result bytes := obj_print d.

Definition BuildFilter (cfg : FilterConfig) (r : Rec) : bool :=
  match DecodeJSON r with
  | Err _ => false
  | Ok jr => match Compare (f_Operator cfg) (GetField jr (f_Field cfg)) (f_Value cfg) with
             | Err _ => false
             | Ok keep => keep
             end
  end.

Definition with_json (v : slice) (p : any) (r : Rec) : Rec :=
  mkRec (Key r) v (Timestamp r) (Offset r) (Partition r) (Headers r) p (IsWatermark r) (IsBarrier r) (CheckpointID r).
(** The record passed through: a parsed view it already had is the map the
    transform worked on. *)
Definition touched (r : Rec) (d : JSONRecord) : Rec :=
  match asObject (Parsed r) with Some _ => with_json (Value r) (as_any d) r | None => r end.

(** [transform] gives the input map as it leaves it, the output and its
    status.  [None] is a panic. *)
Definition applyMap (r : Rec) (transform : JSONRecord -> JSONRecord * JSONRecord * status) : option Rec :=
  match DecodeJSON r with
  | Err _ => Some r
  | Ok jr =>
      let '(d, out, st) := transform jr in
      match st with
      | SPanic => None
      | SErr _ => Some (touched r d)
      | SOk => match EncodeJSON out with
               | Err _ => Some (touched r d)
               | Ok t => Some (with_json (Some t) (as_any out) r)
               end
      end
  end.

Definition select_one (d out : JSONRecord) (f : bytes) : JSONRecord :=
  match GetField d f with Some v => (SetField out f v).1 | None => out end.
Definition select_fields (fs : list bytes) (d : JSONRecord) : JSONRecord := foldl (select_one d) (Some []) fs.
Definition BuildSelect (fs : list bytes) (r : Rec) : option Rec :=
  applyMap r (λ d, (d, select_fields fs d, SOk)).

Definition rename_one (d : JSONRecord) (rn : FieldRename) : JSONRecord * status :=
  match GetField d (rn_From rn) with
  | None => (d, SOk)
  | Some v =>
      match SetField d (rn_To rn) v with
      | (d, SOk) => ((DeleteField d (rn_From rn)).1, SOk)
      | (d, SErr _) => (d, SOk)                            (* structural conflict: skipped *)
      | (d, SPanic) => (d, SPanic)
      end
  end.
(** A loop over the entries that a panic ends. *)
Definition each {A} (f : JSONRecord -> A -> JSONRecord * status) (l : list A) (d : JSONRecord) : JSONRecord * status :=
  foldl (λ acc x, match acc.2 with SPanic => acc | _ => f acc.1 x end) (d, SOk) l.
Definition BuildRename (renames : list FieldRename) (r : Rec) : option Rec :=
  applyMap r (λ d, let '(d, st) := each rename_one renames d in (d, d, st)).

Definition set_one (d : JSONRecord) (s : FieldSet) : JSONRecord * status :=
  match SetField d (s_Field s) (s_Value s) with
  | (d, SErr _) => (d, SOk)                                (* the error is ignored *)
  | r => r
  end.
Definition BuildSet (sets : list FieldSet) (r : Rec) : option Rec :=
  applyMap r (λ d, let '(d, st) := each set_one sets d in (d, d, st)).
End Build.

(** ** Rename and set *)

Section Laws.
Context `{OT : ObjectText}.

(** A rename moves a field.  On any record, for a source and a destination
    path apart from each other: an absent source leaves the record as it is;
    a destination that runs into a value which is not an object leaves it as
    it is too; otherwise the destination holds the value and the source is
    gone.  Fields apart from both are never affected. *)
Theorem rename_moves (d : JSONRecord) (from to : bytes) : paths_apart from to ->
  let d' := (rename_one d (mkRename from to)).1 in
  match GetField d from with
  | None => d' = d
  | Some v => match (SetField d to v).2 with
              | SOk => GetField d' to = Some v /\ GetField d' from = None
              | SErr _ => d' = d
              | SPanic => True
              end
  end /\
  (forall q, paths_apart from q -> paths_apart to q -> GetField d' q = GetField d q).
Proof.
  intros Ha. unfold rename_one. cbn [rn_From rn_To]. destruct (GetField d from) as [v|] eqn:Ef; [|done].
  destruct (SetField d to v) as [d1 [|e|]] eqn:Es; cbn [fst snd].
  - assert (Hf : GetField d1 from = Some v) by (by erewrite SetField_apart; [..|apply paths_apart_sym]).
    destruct (DeleteField_present _ _ _ Hf) as [_ Hd]. destruct (DeleteField d1 from) as [d2 st] eqn:Ed. cbn [fst] in *.
    split_and!; [|done|].
    + erewrite DeleteField_apart; [|done..]. by eapply SetField_get.
    + intros q H1 H2. erewrite DeleteField_apart by done. by erewrite SetField_apart.
  - by rewrite (SetField_err _ _ _ _ _ Es).
  - split; [done|]. intros q _ Hq. by eapply SetField_apart.
Qed.

(** ** Select *)

Definition plain (o : option any) : Prop := o = None \/ exists l, o = Some (AnyMap l).
Definition objs_along (p : list bytes) (m : JSONRecord) : Prop :=
  forall q, q `prefix_of` p -> q <> p -> plain (get_walk q m).

Lemma prefix_cons_cases {A} (q : list A) s p : q `prefix_of` s :: p -> q = [] \/ exists q', q = s :: q' /\ q' `prefix_of` p.
Proof.
  destruct q as [|t q]; [by left|]. intros H. right. apply prefix_cons_inv_1 in H as E. subst t.
  apply prefix_cons_inv_2 in H. eauto.
Qed.
(** Along objects a set succeeds, and what it passes through are objects. *)
Lemma set_walk_plain p v : forall l, objs_along p (Some l) ->
  exists l', set_walk p v (Some l) = (Some l', SOk) /\ objs_along p (Some l').
Proof.
  induction p as [|s [|t p] IH]; intros l Ho.
  - exists l. split; [done|]. intros q Hq Hn. by apply prefix_nil_inv in Hq.
  - exists (mset s v l). split; [done|]. intros q Hq Hn. apply prefix_cons_cases in Hq as [->|(q' & -> & Hq)]; [by left|].
    by apply prefix_nil_inv in Hq as ->.
  - rewrite set_walk_cons by done.
    assert (Hbelow : forall l0 li, objs_along (t :: p) (Some li) -> objs_along (s :: t :: p) (Some (mset s (AnyMap li) l0))).
    { intros l0 li Hi q Hq Hn. apply prefix_cons_cases in Hq as [->|(q' & -> & Hq)]; [by left|].
      destruct (decide (q' = [])) as [->|Hne]; [right; exists li; cbn; by rewrite mget_mset_eq|].
      change (AnyMap li) with (as_any (Some li)). rewrite get_walk_assign_eq by done. apply Hi; [done|congruence]. }
    destruct (mget s (fields (Some l))) as [next|] eqn:E; cbn [fields] in E.
    + assert (exists l1, next = AnyMap l1) as [l1 ->].
      { destruct (Ho [s]) as [H|[l1 H]]; [apply prefix_cons, prefix_nil|done|..]; cbn in H; rewrite E in H; [done|].
        injection H as ->. eauto. }
      destruct (IH l1) as (li & Hs & Hi).
      { intros q Hq Hn. destruct (decide (q = [])) as [->|Hne]; [by left|].
        pose proof (Ho (s :: q)) as H. rewrite get_walk_cons in H by done. cbn [fields] in H. rewrite E in H. apply H; [by apply prefix_cons|congruence]. }
      cbn [asObject]. rewrite Hs. exists (mset s (AnyMap li) l). split; [done|]. by apply Hbelow.
    + destruct (IH []) as (li & Hs & Hi). { intros q _ _. rewrite get_walk_empty. by left. }
      cbn [assign]. rewrite Hs. exists (mset s (AnyMap li) (mset s (AnyMap []) l)). split; [done|]. by apply Hbelow.
Qed.

(** What the output of a selection looks like after the paths [done_]. *)
Record selected (d : JSONRecord) (done_ : list (list bytes)) (out : JSONRecord) : Prop := {
  se_some : exists l, out = Some l;
  se_in : forall p, p ∈ done_ -> get_walk p out = get_walk p d;
  se_out : forall q, Forall (λ p, apart p q) done_ -> get_walk q out = None;
  se_plain : forall q, Forall (λ p, ~ p `prefix_of` q) done_ -> plain (get_walk q out);
}.

Lemma selected_step d done_ out p v : selected d done_ out -> p <> [] -> get_walk p d = Some v -> Forall (apart p) done_ ->
  selected d (p :: done_) (set_walk p v out).1.
Proof.
  intros [[l ->] Hin Hout Hplain] Hp Hv Ha.
  assert (Ho : objs_along p (Some l)).
  { intros q Hq Hn. apply Hplain. eapply Forall_impl; [exact Ha|]. cbn. intros g [_ Hg] Hgq. apply Hg. by etransitivity. }
  destruct (set_walk_plain p v l Ho) as (l' & Hs & Ho'). rewrite Hs. cbn [fst]. split.
  - eauto.
  - intros g Hg. apply elem_of_cons in Hg as [->|Hg].
    + rewrite Hv. eapply set_walk_get; done.
    + erewrite set_walk_apart; [by apply Hin|done|]. rewrite Forall_forall in Ha. by apply Ha.
  - intros q Hq. apply Forall_cons in Hq as [Hpq Hq]. erewrite set_walk_apart by done. by apply Hout.
  - intros q Hq. apply Forall_cons in Hq as [Hpq Hq].
    destruct (decide (q `prefix_of` p)) as [Hqp|Hqp]; [apply Ho'; [done|]; intros ->; by apply Hpq|].
    erewrite set_walk_apart by done. by apply Hplain.
Qed.
(** An absent field contributes nothing. *)
Lemma selected_skip d done_ out p : selected d done_ out -> get_walk p d = None -> Forall (apart p) done_ ->
  selected d (p :: done_) out.
Proof.
  intros [Hl Hin Hout Hplain] Hv Ha. split; [done| | |].
  - intros g Hg. apply elem_of_cons in Hg as [->|Hg]; [|by apply Hin]. rewrite Hv. apply Hout.
    eapply Forall_impl; [exact Ha|]. intros ? ?. by apply apart_sym.
  - intros q Hq. apply Hout. by apply Forall_cons in Hq as [_ ?].
  - intros q Hq. apply Hplain. by apply Forall_cons in Hq as [_ ?].
Qed.

Lemma select_fold d fs sps : forall done_ out, Forall2 (λ f sp, splitPath f = Ok sp) fs sps ->
  (forall i j p q, sps !! i = Some p -> sps !! j = Some q -> i <> j -> apart p q) ->
  (forall p q, p ∈ sps -> q ∈ done_ -> apart p q) ->
  selected d done_ out -> selected d (reverse sps ++ done_) (foldl (select_one d) out fs).
Proof.
  revert sps. induction fs as [|f fs IH]; intros sps done_ out Hf Hpw Hd Hs; [by apply Forall2_nil_inv_l in Hf as ->|].
  apply Forall2_cons_inv_l in Hf as (sp & sps' & Hf & Hfs & ->). rewrite reverse_cons, <- app_assoc. cbn [foldl app].
  apply IH; [done| | |].
  - intros i j p q Hi Hj Hij. apply (Hpw (S i) (S j)); [done..|lia].
  - intros p q Hp Hq. apply elem_of_cons in Hq as [->|Hq]; [|apply Hd; [by right|done]].
    apply list_elem_of_lookup in Hp as [i Hi]. by apply (Hpw (S i) 0%nat).
  - assert (Ha : Forall (apart sp) done_) by (apply Forall_forall; intros; apply Hd; [left|done]).
    unfold select_one, GetField, SetField. rewrite Hf. destruct (get_walk sp d) as [v|] eqn:Ev.
    + apply selected_step; try done. by eapply splitPath_ne.
    + by apply selected_skip.
Qed.

(** SelectFields projects a record to exactly the listed fields.  For valid
    paths that are pairwise apart, the operator keeps every record, leaves
    everything but the payload alone, and its parsed payload has each listed
    field with the input's value (or absent when the input lacks it), and no
    field apart from all listed ones. *)
Theorem select_projects (fs : list bytes) (sps : list (list bytes)) (r : Rec) (d : JSONRecord) :
  DecodeJSON r = Ok d -> Forall2 (λ f sp, splitPath f = Ok sp) fs sps ->
  (forall i j p q, sps !! i = Some p -> sps !! j = Some q -> i <> j -> apart p q) ->
  exists r', BuildSelect fs r = Some r' /\
    (Key r', Timestamp r', Offset r', Partition r', Headers r') = (Key r, Timestamp r, Offset r, Partition r, Headers r) /\
    (is_ok (EncodeJSON (select_fields fs d)) = true ->
     exists out, Parsed r' = as_any out /\ EncodeJSON out = Ok (str (Value r')) /\
       (forall f, f ∈ fs -> GetField out f = GetField d f) /\
       (forall q, (forall f, f ∈ fs -> paths_apart f q) -> GetField out q = None)).
Proof.
  intros Hdec Hf Hpw. unfold BuildSelect, applyMap. rewrite Hdec.
  assert (Hs : selected d (reverse sps ++ []) (select_fields fs d)).
  { apply select_fold; [done..|set_solver|]. split; [eauto|set_solver|intros; apply get_walk_empty|].
    intros q _. rewrite get_walk_empty. by left. }
  rewrite app_nil_r in Hs. destruct Hs as [_ Hin Hout _].
  destruct (EncodeJSON (select_fields fs d)) as [t|e] eqn:Ee.
  - eexists. split_and!; [done..|]. intros _. exists (select_fields fs d). cbn [Parsed with_json Value str default]. split_and!; [done..| |].
    + intros f Hff. apply list_elem_of_lookup in Hff as [i Hi].
      destruct (Forall2_lookup_l _ _ _ _ _ Hf Hi) as (sp & Hsp & E). unfold GetField. rewrite E. apply Hin.
      apply elem_of_reverse. by eapply list_elem_of_lookup_2.
    + intros q Hq. unfold GetField. destruct (splitPath q) as [sq|] eqn:Eq; [|done]. apply Hout.
      apply Forall_forall. intros p Hp. rewrite elem_of_reverse in Hp. apply list_elem_of_lookup in Hp as [i Hi].
      destruct (Forall2_lookup_r _ _ _ _ _ Hf Hi) as (f & Hfi & E).
      destruct (Hq f) as (sp & sq' & E1 & E2 & Ha); [by eapply list_elem_of_lookup_2|]. congruence.
  - eexists. split; [done|]. split; [|done]. unfold touched. by destruct (asObject (Parsed r)).
Qed.

(** ** Filter *)

Lemma asFloat_int n : exact_int n -> asFloat (AnyInt n) = Some (fint n) /\ asFloat (AnyNumber (dec_ n)) = Some (fint n).
Proof. intros Hn. unfold asFloat. cbn. by rewrite (ParseFloat_dec n Hn). Qed.
Lemma orderedCmp_int n k pred : exact_int n -> exact_int k ->
  orderedCmp (AnyNumber (dec_ n)) (AnyInt k) pred = pred (if n <? k then -1 else if k <? n then 1 else 0).
Proof.
  intros Hn Hk. unfold orderedCmp. rewrite (proj2 (asFloat_int n Hn)), (proj1 (asFloat_int k Hk)), !flt_fint.
  by destruct (n <? k), (k <? n).
Qed.
Lemma valuesEqual_int n k : int64 n -> int64 k -> valuesEqual (AnyNumber (dec_ n)) (AnyInt k) = (n =? k).
Proof. intros. unfold valuesEqual, asNumber, numbersEqual. by rewrite !ParseInt_dec. Qed.

(** A filter on an integer field compares integers.  For a record whose
    field is the decimal literal of [n] and a configured value [k], equals and
    not_equals are exact on all of int64, and the four orderings are exact for
    magnitudes up to 2^53. *)
Theorem filter_int_exact (field : bytes) (r : Rec) (d : JSONRecord) (n k : Z) :
  DecodeJSON r = Ok d -> GetField d field = Some (AnyNumber (dec_ n)) -> int64 n -> int64 k ->
  let keep op := BuildFilter (mkFilter field op (AnyInt k)) r in
  keep OpEquals = (n =? k) /\ keep OpNotEquals = negb (n =? k) /\
  (exact_int n -> exact_int k ->
   keep OpGreaterThan = (k <? n) /\ keep OpGreaterThanOrEqual = (k <=? n) /\
   keep OpLessThan = (n <? k) /\ keep OpLessThanOrEqual = (n <=? k)).
Proof.
  intros Hd Hf Hn Hk. unfold BuildFilter. cbn [f_Operator f_Field f_Value]. rewrite Hd, Hf.
  unfold Compare. cbn -[valuesEqual orderedCmp dec_]. rewrite valuesEqual_int by done. split_and!; [done..|].
  intros En Ek. rewrite !orderedCmp_int by done.
  destruct (Z.ltb_spec n k), (Z.ltb_spec k n), (Z.leb_spec k n), (Z.leb_spec n k); try lia; done.
Qed.

(** An operator outside the table drops every record. *)
Theorem unsupported_operator_drops (cfg : FilterConfig) (r : Rec) :
  op_Valid (f_Operator cfg) = false -> BuildFilter cfg r = false.
Proof.
  intros Hv. unfold BuildFilter. destruct (DecodeJSON r) as [d|]; [|done]. unfold Compare.
  rewrite bool_decide_false by (intros E; rewrite E in Hv; done).
  rewrite bool_decide_false by (intros E; rewrite E in Hv; done). by rewrite Hv.
Qed.
End Laws.

(** ** Concrete records *)

#[local] Instance demo_text : ObjectText := {
  obj_parse := λ s, if bool_decide (s = b "null") then Ok None else Err "invalid character";
  obj_print := λ d, Ok (Sprint (as_any d));
}.
Definition demo_rec (m : list (bytes * any)) : Rec := with_json (Some []) (AnyMap m) zeroRec.
Definition order : list (bytes * any) :=
  [(b "id", AnyNumber (b "41")); (b "pay", AnyMap [(b "amount", AnyNumber (b "7")); (b "cur", AnyString (b "EUR"))])].

Lemma field_update_laws_witness :
  GetField (SetField (Some order) (b "pay.amount") (AnyInt 8)).1 (b "pay.amount") = Some (AnyInt 8) /\
  GetField (DeleteField (Some order) (b "pay.amount")).1 (b "id") = Some (AnyNumber (b "41")).
Proof.
  pose proof (field_update_laws (Some order) (b "pay.amount") (AnyInt 8)) as H.
  destruct (SetField (Some order) (b "pay.amount") (AnyInt 8)) as [d1 st1] eqn:E1.
  destruct (DeleteField (Some order) (b "pay.amount")) as [d2 st2] eqn:E2.
  destruct H as (H1 & _ & _ & _ & _ & H2). cbn [fst]. split.
  - apply H1. vm_compute in E1. by injection E1.
  - destruct (H2 (b "id")) as [_ H]; [|rewrite H; vm_compute; reflexivity].
    exists [b "pay"; b "amount"], [b "id"]. split_and!; [vm_compute; reflexivity..|].
    apply (bool_decide_unpack _). vm_compute. exact I.
Defined.

Lemma rename_moves_witness :
  let d' := (rename_one (Some order) (mkRename (b "pay.amount") (b "amount"))).1 in
  GetField d' (b "amount") = Some (AnyNumber (b "7")) /\ GetField d' (b "pay.amount") = None.
Proof.
  intros d'. destruct (rename_moves (Some order) (b "pay.amount") (b "amount")) as [H _].
  - exists [b "pay"; b "amount"], [b "amount"]. split_and!; [vm_compute; reflexivity..|].
    apply (bool_decide_unpack _). vm_compute. exact I.
  - exact H.
Defined.

Lemma select_projects_witness :
  exists r' out, BuildSelect [b "id"; b "pay.cur"] (demo_rec order) = Some r' /\ Parsed r' = as_any out /\
    GetField out (b "pay.cur") = Some (AnyString (b "EUR")).
Proof.
  destruct (select_projects [b "id"; b "pay.cur"] [[b "id"]; [b "pay"; b "cur"]] (demo_rec order) (Some order))
    as (r' & Hr & _ & H).
  - vm_compute. reflexivity.
  - repeat constructor.
  - intros [|[|i]] [|[|j]] p q Hp Hq Hij; cbn in Hp, Hq; simplify_eq; apply (bool_decide_unpack _); vm_compute; exact I.
  - destruct H as (out & Hp & _ & Hin & _); [reflexivity|]. exists r', out. split_and!; [done..|].
    rewrite Hin by set_solver. vm_compute. reflexivity.
Defined.

Lemma filter_int_exact_witness :
  BuildFilter (mkFilter (b "id") OpGreaterThan (AnyInt 40)) (demo_rec order) = true.
Proof.
  destruct (filter_int_exact (b "id") (demo_rec order) (Some order) 41 40) as (_ & _ & H);
    [vm_compute; reflexivity|vm_compute; reflexivity|apply (bool_decide_unpack _); vm_compute; exact I..|].
  destruct H as [H _]; [unfold exact_int; lia..|]. exact H.
Defined.

(** Orderings go through float64: above 2^53 they no longer separate
    neighbours that equality separates. *)
Theorem filter_order_rounds :
  let v := AnyNumber (b "9007199254740993") in
  Compare OpGreaterThan (Some v) (AnyInt 9007199254740992) = Ok false /\
  Compare OpEquals (Some v) (AnyInt 9007199254740992) = Ok false.
Proof. vm_compute. done. Qed.

(** A payload of null decodes to a nil map, which a set then writes to. *)
Theorem set_on_null_panics :
  BuildSet [mkFieldSet (b "source") (AnyString (b "web"))] (with_json (Some (b "null")) AnyNil zeroRec) = None.
Proof. vm_compute. reflexivity. Qed.

(** Renaming a field to itself deletes it. *)
Theorem rename_to_itself_drops :
  rename_one (Some order) (mkRename (b "id") (b "id")) = (Some (tail order), SOk).
Proof. vm_compute. reflexivity. Qed.
