(* ===== verification/Api.v ===== *)
(** * Package control/api: the HTTP surface of the controller (api.go)

    Routing, the bearer token, request decoding and one handler per route, in
    the controller's state monad.  A request's path is its decoded path; the
    static pages, the backend's logs and capacity, and the answers of a job's
    agent are arguments. *)
From S2P Require Import Prelude Paths GoTime Strconv Json Storage Lifecycle JobStore Backend Control ControlProofs BuiltinOps.

(** A body: the bytes that arrive, and the error that ends it, if any. *)
Record Request : Type := mkReq {
  q_Method : bytes; q_Path : bytes; q_Authorization : bytes; q_ContentType : bytes;
  q_Query : gmap bytes bytes; q_Body : bytes * option string;
}.
Inductive Body : Type :=
| BError (msg : string)
| BStatus (fields : list (bytes * bytes))
| BPage (content : bytes)
| BRedirect (path : bytes)
| BValidated (name delivery : bytes) (graph : json)
| BJob (job : Job)
| BWarning (job : Job) (warning : string)
| BJobs (items : list (Job * bytes))
| BDetail (job : Job) (run : option Run) (trans : list Transition)
| BText (text : bytes)
| BSnapshot (snap : json).
Record Response : Type := mkResp { rs_Status : Z; rs_Body : Body }.
Definition writeErr (status : Z) (msg : string) : Response := mkResp status (BError msg).

(** [strings.ToLower], on ASCII. *)
Definition ToLower (s : bytes) : bytes := (λ c, if (65 <=? byteZ c) && (byteZ c <=? 90) then Zbyte (byteZ c + 32) else c) <$> s.
Definition isJSON (q : Request) : bool := strings_Contains (ToLower (q_ContentType q)) (b "application/json").
(** [io.ReadAll] of an [io.LimitReader]. *)
Definition read_limited (n : Z) (body : bytes * option string) : result bytes :=
  if n <=? Z.of_nat (length body.1) then Ok (take (Z.to_nat n) body.1)
  else match body.2 with Some e => Err e | None => Ok body.1 end.
Definition workflowLimit : Z := 4 * 2 ^ 20.
Definition labelLimit : Z := 2 ^ 16.

(** A string member of a decoded object; another kind of value is an error. *)
Definition member (name : string) (j : json) : option bytes :=
  match jfield (b name) j with JStr s => Some s | JNull => Some [] | _ => None end.
Definition env_member (j : json) : option env_map :=
  match jfield (b "env") j with
  | JNull => Some ∅
  | JObj fs => if forallb (λ kv : bytes * json, match kv.2 with JStr _ | JNull => true | _ => false end) fs
               then Some (unmarshal_map dec_str (JObj fs)) else None
  | _ => None
  end.

Section Decode.
Context `{JT : JSONText}.
Definition readWorkflow (q : Request) : result (bytes * env_map) :=
  match read_limited workflowLimit (q_Body q) with
  | Err e => Err ("read body: " +:+ e)
  | Ok body =>
      if isJSON q then
        match json_parse body with
        | Some ((JObj _ | JNull) as j) =>
            match member "workflow" j, env_member j with
            | Some doc, Some env => Ok (doc, env)
            | _, _ => Err "invalid JSON"
            end
        | _ => Err "invalid JSON"
        end
      else Ok (body, ∅)
  end.
Definition savepointLabel (q : Request) : result bytes :=
  match default [] (q_Query q !! b "label") with
  | [] =>
      body ← read_limited labelLimit (q_Body q);
      match body with
      | [] => Ok []
      | _ =>
          match json_parse body with
          | Some ((JObj _ | JNull) as j) =>
              match member "label" j, member "savepoint" j with
              | Some label, Some savepoint => Ok (if isE label then savepoint else label)
              | _, _ => Err "invalid JSON"
              end
          | _ => Err "invalid JSON"
          end
      end
  | l => Ok l
  end.
End Decode.

(** ** Routes *)

Inductive segment : Type := Lit (s : bytes) | Wild.
(** The wildcard takes one non-empty segment. *)
Fixpoint match_path (pat : list segment) (segs : list bytes) : option bytes :=
  match pat, segs with
  | [], [] => Some []
  | Lit s :: pat, x :: segs => if bool_decide (x = s) then match_path pat segs else None
  | Wild :: pat, x :: segs => if isE x then None else match match_path pat segs with Some _ => Some x | None => None end
  | _, _ => None
  end.
Definition segments (path : bytes) : list bytes := tail (split_on slash path).
(** [http.ServeMux]'s [cleanPath]. *)
Definition cleanPath (p : bytes) : bytes :=
  let p := if rooted p then p else slash :: p in
  let np := Clean p in
  if bool_decide (last p = Some slash) && negb (bool_decide (np = [slash])) then np ++ [slash] else np.
Definition method_matches (m pat : bytes) : bool := bool_decide (m = pat) || (bool_decide (pat = b "GET") && bool_decide (m = b "HEAD")).
Definition publicRoute (q : Request) : bool :=
  bool_decide (q_Method q = b "GET") && (bool_decide (q_Path q = b "/") || bool_decide (q_Path q = b "/healthz")).

Section Server.
Context `{JT : JSONText} {B : Type} `{CB : ContainerBackend B}.
Variable (clock : nat -> Z) (idSource : nat -> bytes) (opts : Options).
Variable (yaml_manifest : bytes -> option sdkManifest) (ParseQuantity : bytes -> bool).
Variable (validate_ : bytes -> env_map -> result (bytes * bytes * json)) (agent : bytes -> bytes -> result Z).
(** the backend's Logs and Capacity; GET on the agent: status, body *)
Variable (Logs_ : bytes -> Z -> B -> result bytes) (Capacity_ : B -> result json) (agentGet : bytes -> bytes -> result (Z * bytes)).
Variables (index logo token : bytes).

Abbreviation handler := (Request -> bytes -> M B Response).
Definition answer (r : Response) : M B Response := mret r.

Definition h_page (content : bytes) : handler := λ _ _, answer (mkResp 200 (BPage content)).
(** [health] and [authCheck]. *)
Definition h_ok : handler := λ _ _, answer (mkResp 200 (BStatus [(b "status", b "ok")])).
Definition h_cluster : handler := λ _ _,
  s ← read_backend Capacity_;
  answer (match s with Ok snap => mkResp 200 (BSnapshot snap) | Err e => writeErr 500 e end).
Definition with_workflow (q : Request) (k : bytes -> env_map -> M B Response) : M B Response :=
  match readWorkflow q with
  | Err e => answer (writeErr 400 e)
  | Ok (doc, env) => if isE doc then answer (writeErr 400 "empty workflow") else k doc env
  end.
Definition h_validate : handler := λ q _, with_workflow q (λ doc env,
  answer (match validate_ doc env with
          | Err e => writeErr 400 e
          | Ok (name, delivery, graph) => mkResp 200 (BValidated name delivery graph)
          end)).
Definition h_submit : handler := λ q _, with_workflow q (λ doc env,
  r ← Submit clock idSource opts yaml_manifest ParseQuantity validate_ doc env;
  answer (match r with
          | (None, e) => writeErr 400 (default ""%string e)
          | (Some job, Some e) => mkResp 202 (BWarning job e)
          | (Some job, None) => mkResp 201 (BJob job)
          end)).
Definition h_list : handler := λ _ _,
  r ← read_store ListJobs;
  match r with
  | Err e => answer (writeErr 500 e)
  | Ok jobs =>
      items ← read_store (λ s, (λ j, (j, match LatestRun (j_ID j) s with Some run => r_Phase run | None => b "—" end)) <$> jobs);
      answer (mkResp 200 (BJobs items))
  end.
Definition h_get : handler := λ _ id,
  g ← read_store (GetJob id);
  match g with
  | Err e => answer (writeErr 404 e)
  | Ok job =>
      run ← read_store (LatestRun id);
      trans ← read_store (ListTransitions id);
      answer (mkResp 200 (BDetail job run trans))
  end.
Definition h_cancel : handler := λ _ id,
  r ← Cancel clock id;
  answer (match r with Err e => writeErr 404 e | Ok _ => mkResp 202 (BStatus [(b "status", b "cancelling")]) end).
Definition h_restart : handler := λ q id,
  match savepointLabel q with
  | Err e => answer (writeErr 400 e)
  | Ok label =>
      r ← (if isE label then Restart clock idSource opts yaml_manifest id else RestartFromSavepoint clock idSource opts yaml_manifest id label);
      answer (match r with
              | (None, Some e) => writeErr 404 e
              | (Some _, Some e) => writeErr 500 e
              | (Some job, None) => mkResp 202 (BJob job)
              | (None, None) => mkResp 202 (BStatus [])
              end)
  end.
Definition h_savepoint : handler := λ q id,
  match savepointLabel q with
  | Err e => answer (writeErr 400 e)
  | Ok [] => answer (writeErr 400 "missing savepoint label")
  | Ok label =>
      r ← Savepoint clock agent id label;
      answer (match r with
              | Err e => writeErr 409 e
              | Ok _ => mkResp 202 (BStatus [(b "savepoint", label); (b "status", b "stopping")])
              end)
  end.
Definition h_logs : handler := λ q id,
  let tail_ := match ParseInt (default [] (q_Query q !! b "tail")) with Ok n => n | Err _ => 200 end in
  run ← read_store (LatestRun id);
  match run with
  | Some run =>
      if isE (r_ContainerID run) then answer (mkResp 200 (BText []))
      else r ← read_backend (Logs_ (r_ContainerID run) tail_);
           answer (match r with Ok out => mkResp 200 (BText out) | Err e => writeErr 500 e end)
  | None => answer (mkResp 200 (BText []))
  end.
Definition h_proxy (path : string) : handler := λ _ id,
  a ← ControlAddress id;
  answer (match a with
          | Err e => writeErr 404 e
          | Ok [] => writeErr 503 "job has no running control surface"
          | Ok addr => match agentGet addr (b path) with
                       | Err e => writeErr 502 ("control surface unreachable: " +:+ e)
                       | Ok (code, text) => mkResp code (BText text)
                       end
          end).

Record Route : Type := mkRoute { rt_Method : bytes; rt_Path : list segment; rt_Handler : handler }.
Definition job_path (action : string) : list segment := [Lit (b "jobs"); Wild; Lit (b action)].
Definition routes : list Route := [
  mkRoute (b "GET") [Lit []] (h_page index);
  mkRoute (b "GET") [Lit (b "logo.png")] (h_page logo);
  mkRoute (b "GET") [Lit (b "healthz")] h_ok;
  mkRoute (b "POST") [Lit (b "auth")] h_ok;
  mkRoute (b "GET") [Lit (b "cluster")] h_cluster;
  mkRoute (b "POST") [Lit (b "validate")] h_validate;
  mkRoute (b "POST") [Lit (b "jobs")] h_submit;
  mkRoute (b "GET") [Lit (b "jobs")] h_list;
  mkRoute (b "GET") [Lit (b "jobs"); Wild] h_get;
  mkRoute (b "POST") (job_path "cancel") h_cancel;
  mkRoute (b "POST") (job_path "restart") h_restart;
  mkRoute (b "POST") (job_path "savepoint") h_savepoint;
  mkRoute (b "GET") (job_path "logs") h_logs;
  mkRoute (b "GET") (job_path "state") (h_proxy "/state");
  mkRoute (b "GET") (job_path "metrics") (h_proxy "/metrics");
  mkRoute (b "GET") (job_path "describe") (h_proxy "/describe");
  mkRoute (b "GET") (job_path "plan") (h_proxy "/plan")].

(** The first route that matches; the patterns do not overlap. *)
Fixpoint dispatch (rs : list Route) (allowed : bool) (q : Request) : M B Response :=
  match rs with
  | [] => answer (if allowed then writeErr 405 "Method Not Allowed" else writeErr 404 "404 page not found")
  | r :: rs =>
      match match_path (rt_Path r) (segments (q_Path q)) with
      | Some id => if method_matches (q_Method q) (rt_Method r) then rt_Handler r q id else dispatch rs true q
      | None => dispatch rs allowed q
      end
  end.
Definition Handler (q : Request) : M B Response :=
  if bool_decide (cleanPath (q_Path q) = q_Path q) then dispatch routes false q
  else answer (mkResp 301 (BRedirect (cleanPath (q_Path q)))).
Definition serve (q : Request) : M B Response :=
  if isE token then Handler q
  else if publicRoute q then Handler q
  else if bool_decide (q_Authorization q = b "Bearer " ++ token) then Handler q
  else answer (writeErr 401 "unauthorized").
End Server.

(** ** What a request can do *)

Section Proofs.
Context `{JT : JSONText} {B : Type} `{CB : ContainerBackend B}.
Variable (clock : nat -> Z) (idSource : nat -> bytes) (opts : Options).
Variable (yaml_manifest : bytes -> option sdkManifest) (ParseQuantity : bytes -> bool).
Variable (validate_ : bytes -> env_map -> result (bytes * bytes * json)) (agent : bytes -> bytes -> result Z).
Variable (Logs_ : bytes -> Z -> B -> result bytes) (Capacity_ : B -> result json) (agentGet : bytes -> bytes -> result (Z * bytes)).
Variables (index logo token : bytes) (interrupted : bytes -> bool).
Abbreviation serve_ := (serve clock idSource opts yaml_manifest ParseQuantity validate_ agent Logs_ Capacity_ agentGet index logo token).
Abbreviation routes_ := (routes clock idSource opts yaml_manifest ParseQuantity validate_ agent Logs_ Capacity_ agentGet index logo).
Abbreviation step := (ctl_step clock idSource opts yaml_manifest ParseQuantity validate_ agent interrupted).

(** A computation that only reads, and one that is at most one step of the
    controller. *)
Definition pure {A} (m : M B A) : Prop := forall w, (m w).2 = w.
Definition one_step {A} (m : M B A) : Prop := forall w, (m w).2 = w \/ step w (m w).2.
Lemma pure_ret {A} (a : A) : pure (mret a).
Proof. by intros w. Qed.
Lemma pure_bind {A C} (m : M B A) (f : A -> M B C) : pure m -> (forall a, pure (f a)) -> pure (m ≫= f).
Proof. intros Hm Hf w. cbv [mbind M_bind]. specialize (Hm w). destruct (m w) as [a w']. cbn [snd] in Hm. subst w'. apply Hf. Qed.
Lemma pure_read_store {A} (f : SQLite -> A) : pure (read_store (B := B) f).
Proof. by intros w. Qed.
Lemma pure_read_backend {A} (f : B -> A) : pure (read_backend f).
Proof. by intros w. Qed.
Lemma pure_one_step {A} (m : M B A) : pure m -> one_step m.
Proof. intros H w. left. apply H. Qed.
Lemma one_step_bind {A C} (m : M B A) (f : A -> M B C) : one_step m -> (forall a, pure (f a)) -> one_step (m ≫= f).
Proof.
  intros Hm Hf w. cbv [mbind M_bind]. specialize (Hm w). destruct (m w) as [a w']. cbn [snd] in Hm. by rewrite Hf.
Qed.
Create HintDb api.
#[local] Hint Resolve pure_ret pure_read_store pure_read_backend pure_one_step : api.

Lemma pure_ControlAddress id : pure (ControlAddress id).
Proof.
  apply pure_bind; [auto with api|]. intros [run|]; [|auto with api]. destruct (_ || _); [auto with api|].
  apply pure_bind; [auto with api|]. intros []; auto with api.
Qed.
Lemma one_step_Submit doc env : one_step (Submit clock idSource opts yaml_manifest ParseQuantity validate_ doc env).
Proof. intros w. right. constructor. Qed.
Lemma one_step_Cancel id : one_step (Cancel clock id).
Proof. intros w. right. constructor. Qed.
Lemma one_step_Restart id : one_step (Restart clock idSource opts yaml_manifest id).
Proof. intros w. right. constructor. Qed.
Lemma one_step_Restore id label : one_step (RestartFromSavepoint clock idSource opts yaml_manifest id label).
Proof. intros w. right. constructor. Qed.
Lemma one_step_Savepoint id label : one_step (Savepoint clock agent id label).
Proof. intros w. right. constructor. Qed.
#[local] Hint Resolve pure_ControlAddress one_step_Submit one_step_Cancel one_step_Restart one_step_Restore one_step_Savepoint : api.
#[local] Hint Extern 1 (pure (answer _)) => apply pure_ret : api.
#[local] Hint Extern 2 (pure (_ ≫= _)) => apply pure_bind; [|intros] : api.
#[local] Hint Extern 2 (one_step (_ ≫= _)) => apply one_step_bind; [|intros] : api.

Lemma with_workflow_step q k : (forall doc env, one_step (k doc env)) -> one_step (with_workflow q k).
Proof. intros Hk. unfold with_workflow. destruct (readWorkflow q) as [[doc env]|e]; [destruct (isE doc)|]; auto with api. Qed.

(** GET routes only read; POST routes do at most one controller operation. *)
Lemma routes_steps : Forall (λ r, forall q id, if bool_decide (rt_Method r = b "GET") then pure (rt_Handler r q id) else one_step (rt_Handler r q id)) routes_.
Proof.
  assert (Hproxy : forall p q id, pure (h_proxy (CB := CB) agentGet p q id)) by (intros; unfold h_proxy; auto with api).
  unfold routes. repeat apply Forall_cons_2; [..|constructor]; intros q id; cbn [rt_Method rt_Handler];
    match goal with |- if ?c then _ else _ => let v := eval vm_compute in c in change c with v end; cbv iota; try apply Hproxy.
  - apply pure_ret.
  - apply pure_ret.
  - apply pure_ret.
  - apply pure_one_step, pure_ret.
  - unfold h_cluster. auto with api.
  - apply with_workflow_step. auto with api.
  - apply with_workflow_step. auto with api.
  - unfold h_list. apply pure_bind; [auto with api|]. intros []; auto with api.
  - unfold h_get. apply pure_bind; [auto with api|]. intros []; auto with api.
  - unfold h_cancel. auto with api.
  - unfold h_restart. destruct (savepointLabel q) as [label|e]; [|auto with api]. apply one_step_bind; [destruct (isE label)|]; auto with api.
  - unfold h_savepoint. destruct (savepointLabel q) as [[|c l]|e]; auto with api.
  - unfold h_logs. apply pure_bind; [auto with api|]. intros [run|]; [|auto with api]. destruct (isE _); auto with api.
Qed.

Lemma dispatch_step rs q allowed :
  Forall (λ r, forall q id, if bool_decide (rt_Method r = b "GET") then pure (rt_Handler r q id) else one_step (rt_Handler r q id)) rs ->
  Forall (λ r, rt_Method r = b "GET" \/ rt_Method r = b "POST") rs ->
  forall w, (dispatch rs allowed q w).2 = w \/ (q_Method q = b "POST" /\ step w (dispatch rs allowed q w).2).
Proof.
  intros H. revert allowed. induction H as [|r rs Hr _ IH]; intros allowed Hm w; [by left|].
  inversion Hm as [|? ? Hmr Hm']; subst. cbn [dispatch]. destruct (match_path _ _) as [id|]; [|by apply IH].
  destruct (method_matches (q_Method q) (rt_Method r)) eqn:E; [|by apply IH]. specialize (Hr q id).
  unfold method_matches in E. destruct Hmr as [Hg|Hp]; rewrite ?Hg, ?Hp in *.
  - left. apply Hr.
  - cbn in E. rewrite orb_false_r in E. apply bool_decide_eq_true in E. destruct (Hr w) as [Hw|Hw]; [by left|by right].
Qed.

(** C22: the HTTP surface reaches the system only through the controller.  A
    request leaves the world as it was or is exactly one controller operation,
    and only a POST can be one: reading is safe. *)
Theorem requests_are_controller_steps q w :
  (serve_ q w).2 = w \/ (q_Method q = b "POST" /\ step w (serve_ q w).2).
Proof.
  assert (Hh : forall w, (Handler clock idSource opts yaml_manifest ParseQuantity validate_ agent Logs_ Capacity_ agentGet index logo q w).2 = w \/
    (q_Method q = b "POST" /\ step w (Handler clock idSource opts yaml_manifest ParseQuantity validate_ agent Logs_ Capacity_ agentGet index logo q w).2)).
  { intros w'. unfold Handler. destruct (bool_decide _); [|by left]. apply dispatch_step; [apply routes_steps|].
    unfold routes. repeat apply Forall_cons_2; [..|constructor]; cbn [rt_Method]; auto. }
  unfold serve. destruct (isE token); [apply Hh|]. destruct (publicRoute q); [apply Hh|]. destruct (bool_decide _); [apply Hh|by left].
Qed.

(** C23: with a token configured, a request that does not carry it changes
    nothing and learns nothing: it gets 401, apart from the two public pages. *)
Theorem unauthorized_changes_nothing q w :
  token <> [] -> q_Authorization q <> b "Bearer " ++ token ->
  exists r, serve_ q w = (r, w) /\
    (r = writeErr 401 "unauthorized" \/ (publicRoute q = true /\ (r = mkResp 200 (BPage index) \/ r = mkResp 200 (BStatus [(b "status", b "ok")])))).
Proof.
  intros Ht Ha. unfold serve. destruct (isE token) eqn:Et; [by apply bool_decide_eq_true in Et|].
  destruct (publicRoute q) eqn:Ep; [|rewrite bool_decide_false by done; eexists; split; [reflexivity|by left]].
  unfold publicRoute in Ep. apply andb_prop in Ep as [Em Ep]. apply bool_decide_eq_true in Em.
  destruct q as [m p au ct qu bo]. cbn [q_Method q_Path q_Authorization] in *. subst m.
  apply orb_prop in Ep as [Ep|Ep]; apply bool_decide_eq_true in Ep; subst p;
    (eexists; split; [reflexivity|right; split; [done|]]); [by left|by right].
Qed.

(** The launch of a submission: when it reports success a container of the
    job runs. *)
Context `{BL : !BackendLaws B}.
Lemma launch_live job attempt restore w w' :
  launch clock idSource opts yaml_manifest job attempt restore w = (Ok tt, w') -> exists cid, live (w_backend w') cid = Some (j_ID job).
Proof.
  unfold launch, launch_start, transition, now, newID, on_store, read_store, on_backend, read_backend. cbv [mbind M_bind mret M_ret].
  destruct (fenced _ _); [done|]. cbn [w_backend w_store w_secrets w_ticks w_ids].
  set (spec := launchSpec _ _ _ _ _). destruct (Launch spec (w_backend w)) as [s' [cid|e]] eqn:El; cbn [w_store w_backend].
  - intros E. exists cid. destruct (CreateRun _ _) as [s2 [[]|e]]; [|done]. injection E as <-. cbn [w_backend].
    rewrite (launch_ok _ _ _ _ El), decide_True by done. f_equal. subst spec. unfold launchSpec.
    by repeat case_match; simplify_eq/=.
  - destruct (CreateRun _ _) as [s2 r]. done.
Qed.

Lemma launch_jobs job attempt restore w :
  jobs (w_store (launch clock idSource opts yaml_manifest job attempt restore w).2) = jobs (w_store w).
Proof.
  assert (HR : forall r s, jobs (CreateRun r s).1 = jobs s) by (intros; unfold CreateRun; by repeat case_match).
  assert (HT : forall t s, jobs (AppendTransition t s) = jobs s) by done.
  unfold launch, launch_start, transition, now, newID, on_store, read_store, on_backend, read_backend. cbv [mbind M_bind mret M_ret].
  destruct (fenced _ _); [done|]. cbn [w_backend w_store w_secrets w_ticks w_ids].
  destruct (Launch _ (w_backend w)) as [s' [cid|e]]; cbn [w_store w_backend];
    match goal with |- context [CreateRun ?r ?s] => specialize (HR r s); destruct (CreateRun r s) as [s2 [[]|e2]] end;
    cbn [fst] in HR; cbn [snd w_store]; rewrite ?HT; exact HR.
Qed.

Lemma submit_job_answers mk env reason w :
  (forall id t, j_ID (mk id t) = id) ->
  let '(r, w') := submit_job clock idSource opts yaml_manifest mk env reason w in
  (exists e, r = (None, Some e) /\ w_store w' = w_store w /\ w_backend w' = w_backend w) \/
  (exists job, r.1 = Some job /\ (exists row, row ∈ jobs (w_store w') /\ jr_id row = j_ID job) /\
     (r.2 = None -> exists cid, live (w_backend w') cid = Some (j_ID job))).
Proof.
  intros Hmk. unfold submit_job, transition, now, newID, on_store, setSecrets. cbv [mbind M_bind mret M_ret].
  cbn [w_store w_backend w_secrets w_ticks w_ids]. set (job := mk _ _).
  unfold CreateJob. case_bool_decide as Hd; [left; eexists; by split|].
  match goal with |- context [decide (env = ∅)] => destruct (decide (env = ∅)) end; cbv beta iota zeta; cbn [w_store w_backend w_secrets w_ticks w_ids];
    match goal with |- context [launch _ _ _ _ _ _ _ ?w0] => pose proof (launch_jobs job 1 [] w0) as Hj; pose proof (launch_live job 1 [] w0) as Hl;
      destruct (launch clock idSource opts yaml_manifest job 1 [] w0) as [[[]|err] w'] end; right; exists job; (split; [done|]);
    cbn [snd w_store AppendTransition set_jobs jobs] in Hj; rewrite Hj; (split; [eexists; split; [apply elem_of_app; right; apply list_elem_of_here|done]|]);
    cbn [snd]; [intros _; by apply Hl|done|intros _; by apply Hl|done].
Qed.

(** The response made of a submission's job and error. *)
Lemma answered (r : option Job * option string) (w w' : World B) :
  (exists e, r = (None, Some e) /\ w_store w' = w_store w /\ w_backend w' = w_backend w) \/
  (exists job, r.1 = Some job /\ (exists row, row ∈ jobs (w_store w') /\ jr_id row = j_ID job) /\
     (r.2 = None -> exists cid, live (w_backend w') cid = Some (j_ID job))) ->
  let resp := match r with
    | (None, e) => writeErr 400 (default ""%string e)
    | (Some job, Some e) => mkResp 202 (BWarning job e)
    | (Some job, None) => mkResp 201 (BJob job) end in
  (rs_Status resp = 400 /\ w_store w' = w_store w /\ w_backend w' = w_backend w) \/
  (exists job, (exists row, row ∈ jobs (w_store w') /\ jr_id row = j_ID job) /\
    (resp = mkResp 201 (BJob job) /\ (exists cid, live (w_backend w') cid = Some (j_ID job)) \/
     exists e, resp = mkResp 202 (BWarning job e))).
Proof.
  intros [(e & -> & H)|(job & H1 & H2 & H3)]; [by left|]. right. exists job. split; [done|].
  destruct r as [[j|] [e|]]; cbn in H1; simplify_eq; [right; by eexists|left]. split; [done|]. by apply H3.
Qed.

(** What the answer to a submission means.  400: no job was recorded and
    no container touched; 201: the job is recorded and a container of it runs;
    202: the job is recorded although its launch failed.  There is no other
    answer. *)
Theorem submit_answers q w :
  let '(r, w') := h_submit clock idSource opts yaml_manifest ParseQuantity validate_ q [] w in
  (rs_Status r = 400 /\ w_store w' = w_store w /\ w_backend w' = w_backend w) \/
  (exists job, (exists row, row ∈ jobs (w_store w') /\ jr_id row = j_ID job) /\
    (r = mkResp 201 (BJob job) /\ (exists cid, live (w_backend w') cid = Some (j_ID job)) \/
     exists e, r = mkResp 202 (BWarning job e))).
Proof.
  unfold h_submit, with_workflow. destruct (readWorkflow q) as [[doc env]|e]; [|by left]. destruct (isE doc); [by left|].
  cbv [mbind M_bind answer mret M_ret]. unfold Submit, submitSDK. cbv [mret M_ret].
  destruct (parseSDKManifest yaml_manifest doc) as [m|].
  - destruct (bool_decide (m_Name m = [])); [by left|]. destruct (bool_decide (m_Image m = [])); [by left|].
    destruct (validateResources _ _); [|by left].
    match goal with |- context [submit_job _ _ _ _ ?mk env ?rs w] => pose proof (submit_job_answers mk env rs w (λ _ _, eq_refl)) as H;
      destruct (submit_job _ _ _ _ mk env rs w) as [r w'] end. by apply answered.
  - destruct (validate_ doc env) as [[[name del] g]|e]; [|by left].
    match goal with |- context [submit_job _ _ _ _ ?mk env ?rs w] => pose proof (submit_job_answers mk env rs w (λ _ _, eq_refl)) as H;
      destruct (submit_job _ _ _ _ mk env rs w) as [r w'] end. by apply answered.
Qed.
End Proofs.

(** ** On the fake backend *)

Definition demo_request (path body : bytes) : Request := mkReq (b "POST") path (b "Bearer s3cret") [] ∅ (body, None).
Definition demo_serve (token : bytes) := serve (B := Fake) sec_clock num_id demo_opts no_manifest any_quantity demo_validate demo_agent
  (λ _ _ _, Ok []) (λ _, Ok JNull) (λ _ _, Ok (200, [])) (b "<html>") [] token.

Lemma unauthorized_changes_nothing_witness :
  demo_serve (b "other") (demo_request (b "/jobs") (b "spec")) (fresh_world NewFake) = (writeErr 401 "unauthorized", fresh_world NewFake).
Proof.
  destruct (unauthorized_changes_nothing (B := Fake) sec_clock num_id demo_opts no_manifest any_quantity demo_validate demo_agent
    (λ _ _ _, Ok []) (λ _, Ok JNull) (λ _ _, Ok (200, [])) (b "<html>") [] (b "other") (demo_request (b "/jobs") (b "spec")) (fresh_world NewFake))
    as (r & E & [->|[Hp _]]).
  - done.
  - intros H. vm_compute in H. discriminate H.
  - exact E.
  - vm_compute in Hp. discriminate Hp.
Defined.

Definition demo_answer := h_submit (B := Fake) sec_clock num_id demo_opts no_manifest any_quantity demo_validate
  (demo_request (b "/jobs") (b "spec")) [] (fresh_world NewFake).
Lemma demo_answer_ok : (λ x : Response * World Fake, match rs_Body x.1 with BJob j => Some (rs_Status x.1, j_ID j) | _ => None end) demo_answer
  = Some (201, num_id 0).
Proof. vm_compute. reflexivity. Qed.
Lemma submit_answers_witness : exists cid, live (w_backend demo_answer.2) cid = Some (num_id 0).
Proof.
  pose proof (submit_answers (B := Fake) sec_clock num_id demo_opts no_manifest any_quantity demo_validate (demo_request (b "/jobs") (b "spec")) (fresh_world NewFake)) as H.
  change (h_submit _ _ _ _ _ _ _ _ _) with demo_answer in H. pose proof demo_answer_ok as E. destruct demo_answer as [r w']. cbn [fst snd] in *.
  destruct H as [(H & _)|(job & _ & [(-> & cid & H)|(e & ->)])].
  - destruct (rs_Body r); try discriminate E. rewrite H in E. discriminate E.
  - exists cid. cbn in E. injection E as E. rewrite E in H. exact H.
  - discriminate E.
Defined.

(** ** Where the surface differs from what it says *)

(** A raw body over the cap is cut, not refused: the first 4 MiB are submitted
    as the workflow. *)
Theorem oversized_body_is_cut `{JT : JSONText} q rest :
  isJSON q = false -> Z.of_nat (length (q_Body q).1) = workflowLimit ->
  readWorkflow (mkReq (q_Method q) (q_Path q) (q_Authorization q) (q_ContentType q) (q_Query q) ((q_Body q).1 ++ rest, (q_Body q).2))
    = Ok ((q_Body q).1, ∅).
Proof.
  intros Hj Hl. unfold readWorkflow, read_limited. cbn [q_Body fst]. rewrite length_app. destruct (Z.leb_spec workflowLimit (Z.of_nat (length (q_Body q).1 + length rest))); [|lia].
  unfold isJSON in *. cbn [q_ContentType]. rewrite Hj. by rewrite take_app_length' by lia.
Qed.

(** The preview compiles every document as a workflow: an SDK manifest that
    a submission launches is refused by it. *)
Theorem preview_refuses_manifest :
  let manifest := λ _ : bytes, Some (mkManifest (b "sdk") (b "orders") (b "orders:1.0") ∅ None) in
  let not_workflow := λ (_ : bytes) (_ : env_map), Err "unknown field kind"%string in
  let q := demo_request (b "/jobs") (b "kind: sdk") in
  rs_Status (h_validate (B := Fake) not_workflow q [] (fresh_world NewFake)).1 = 400 /\
  rs_Status (h_submit (B := Fake) sec_clock num_id demo_opts manifest any_quantity not_workflow q [] (fresh_world NewFake)).1 = 201.
Proof. vm_compute. repeat split. Qed.

(** A run that cannot be recorded leaves its container running: no run names
    it, so neither the fence nor the reconciler knows of it. *)
Theorem unrecorded_container_runs :
  let ids := λ n : nat, if decide (n = 3%nat) then num_id 1 else num_id n in
  let submit := Submit (B := Fake) sec_clock ids demo_opts no_manifest any_quantity demo_validate (b "spec") ∅ in
  let '(r, w) := submit (submit (fresh_world NewFake)).2 in
  is_Some r.2 /\ live (w_backend w) (fake_id (num_id 2) 2) = Some (num_id 2) /\ fenced (num_id 2) (w_store w) = false.
Proof. vm_compute. split; [by eexists|]. repeat split. Qed.
