(* ===== verification/Workflow.v ===== *)
(** * Package workflow: documents and their validation

    The data of spec.go, and [Validate] as the list of problems it collects
    (nil is the empty list).  Creating a directory is the one effect of a
    validation: [mkdir] is what [os.MkdirAll] reports for a path. *)
From S2P Require Import Prelude Paths GoTime Strconv Types BuiltinOps.

(** ** The document *)

Record CheckpointSpec : Type := mkCkpt { ck_Interval : Z; ck_Dir : bytes }.
Record StateSpec : Type := mkStateSpec { st_Backend : bytes; st_Dir : bytes }.
Record EnvSpec : Type := mkEnv {
  BufferSize : Z; ShutdownTimeout : Z; Checkpointing : option CheckpointSpec; env_State : option StateSpec;
}.
Record RecordSpec : Type := mkRecordSpec { rs_Key : bytes; rs_Value : bytes }.
Record SASLSpec : Type := mkSASL { Mechanism : bytes; Username : bytes; Password : bytes }.
Record TLSSpec : Type := mkTLS { CAFile : bytes; CertFile : bytes; KeyFile : bytes; InsecureSkipVerify : bool }.
Record WatermarkSpec : Type := mkWM { MaxOutOfOrderness : Z; wm_Interval : Z }.
Record KafkaSourceSpec : Type := mkKSS {
  ks_Brokers : list bytes; ks_Topic : bytes; ks_Topics : list bytes; ks_GroupID : bytes; ks_StartFrom : bytes;
  ks_ExactlyOnce : bool; ks_Parallel : bool; ks_Watermark : option WatermarkSpec; ks_Deserialize : bytes;
  ks_CommitBatch : Z; ks_FetchMinBytes : Z; ks_FetchMaxBytes : Z; ks_SASL : option SASLSpec; ks_TLS : option TLSSpec;
}.
Record SourceSpec : Type := mkSource { src_Type : bytes; src_Kafka : option KafkaSourceSpec; src_Records : list RecordSpec }.
Record RefConfig : Type := mkRef { Ref : bytes; ref_Label : bytes; ref_Parallelism : Z }.
Record KeyByConfig : Type := mkKeyByConfig { kb_Field : bytes; kb_Partitions : Z; kb_Label : bytes }.
Record ReduceConfig : Type := mkReduceConfig { rd_Function : bytes; rd_Field : bytes; rd_Label : bytes }.
Record WindowConfig : Type := mkWindowConfig {
  w_Type : bytes; w_Size : Z; w_Slide : Z; w_Gap : Z; w_Offset : Z; w_IdleTimeout : Z; w_Label : bytes;
}.
(** [SelectConfig], [RenameConfig] and [SetConfig] are their single field. *)
Record OperatorSpec : Type := mkOp {
  op_ID : bytes; op_Type : bytes;
  op_Filter : option FilterConfig; op_SelectFields : option (list bytes); op_RenameFields : option (list FieldRename);
  op_SetFields : option (list FieldSet); op_KeyBy : option KeyByConfig; op_Reduce : option ReduceConfig;
  op_Window : option WindowConfig; op_Map : option RefConfig; op_FlatMap : option RefConfig; op_Process : option RefConfig;
}.
Record KafkaSinkSpec : Type := mkKafkaSink {
  sk_Brokers : list bytes; sk_Topic : bytes; sk_BatchSize : Z; sk_BatchTimeout : Z; sk_Acks : bytes; sk_Async : bool;
  sk_Serialize : bytes; sk_MaxRetries : Z; sk_OnError : bytes; sk_SASL : option SASLSpec; sk_TLS : option TLSSpec;
}.
Record TxnKafkaSinkSpec : Type := mkTxnSink {
  tk_Brokers : list bytes; tk_Topic : bytes; tk_TransactionalID : bytes; tk_MarkerTopic : bytes; tk_Serialize : bytes;
  tk_SASL : option SASLSpec; tk_TLS : option TLSSpec;
}.
Record PostgresSinkSpec : Type := mkPg {
  pg_DSN : bytes; pg_Table : bytes; pg_Mapping : gmap bytes bytes; pg_Mode : bytes; pg_ConflictColumns : list bytes;
  pg_UpdateColumns : list bytes; pg_BatchSize : Z; pg_FlushInterval : Z; pg_MaxRetries : Z; pg_OnError : bytes;
}.
Record SinkSpec : Type := mkSink {
  sink_Type : bytes; sink_Kafka : option KafkaSinkSpec; sink_TxnKafka : option TxnKafkaSinkSpec; sink_Postgres : option PostgresSinkSpec;
}.
Record Workflow : Type := mkWorkflow {
  wf_Name : bytes; wf_Version : bytes; wf_Env : option EnvSpec; wf_Source : SourceSpec; wf_Pipeline : list OperatorSpec; wf_Sink : SinkSpec;
}.

(** ** Problems *)

Record ValidationError : Type := mkVE { Path : bytes; Msg : bytes }.
Definition ValidationErrors : Type := list ValidationError.
Definition ve_Error (e : ValidationError) : bytes :=
  if bool_decide (Path e = []) then Msg e else Path e ++ b ": " ++ Msg e.

(** [v.add] when a condition holds. *)
Definition add_if (c : bool) (path msg : bytes) : ValidationErrors := if c then [mkVE path msg] else [].
Definition none {A} (l : list A) : bool := bool_decide (length l = 0%nat).
(** The [%q] verb, for text that needs no escapes. *)
Definition quoted (s : bytes) : bytes := Zbyte 34 :: s ++ [Zbyte 34].
Definition is_some {A} (o : option A) : bool := match o with Some _ => true | None => false end.

Definition opPath (i : nat) (op : OperatorSpec) : bytes :=
  b "pipeline[" ++ dec_ (Z.of_nat i) ++ b "]" ++ if isE (op_ID op) then [] else b " " ++ quoted (op_ID op).
Definition configBlocks (o : OperatorSpec) : list bytes :=
  let when {A} (x : option A) (name : string) := if is_some x then [b name] else [] in
  when (op_Filter o) "filter" ++ when (op_SelectFields o) "selectFields" ++ when (op_RenameFields o) "renameFields"
  ++ when (op_SetFields o) "setFields" ++ when (op_KeyBy o) "keyBy" ++ when (op_Reduce o) "reduce" ++ when (op_Window o) "window"
  ++ when (op_Map o) "map" ++ when (op_FlatMap o) "flatMap" ++ when (op_Process o) "process".

Definition supportedVersions : list bytes := [[]; b "1"].
Definition supportedSourceTypes : list bytes := [b "kafka"; b "slice"; b "generator"].
Definition supportedSinkTypes : list bytes := [b "kafka"; b "txnKafka"; b "postgres"; b "stdout"; b "blackhole"].
Definition supportedOperatorTypes : list bytes :=
  [b "filter"; b "selectFields"; b "renameFields"; b "setFields"; b "keyBy"; b "reduce"; b "window"; b "map"; b "flatMap"; b "process"].
Definition supported (l : list bytes) (s : bytes) : bool := bool_decide (s ∈ l).

(** [nameRe]: an alphanumeric, then alphanumerics, '_', '.' and '-'. *)
Definition alnum (c : ascii) : bool :=
  let z := byteZ c in ((48 <=? z) && (z <=? 57)) || ((65 <=? z) && (z <=? 90)) || ((97 <=? z) && (z <=? 122)).
Definition name_char (c : ascii) : bool := alnum c || bool_decide (c ∈ ["_"; "."; "-"]%char).
Definition nameRe (s : bytes) : bool := match s with [] => false | c :: s => alnum c && forallb name_char s end.

(** ** Structure *)

Definition check_blocks (path : bytes) (op : OperatorSpec) : ValidationErrors :=
  match configBlocks op with
  | [] => [mkVE path (b "operator type " ++ quoted (op_Type op) ++ b " requires a " ++ quoted (op_Type op) ++ b " config block")]
  | [blk] => add_if (negb (bool_decide (blk = op_Type op))) path
               (b "operator type " ++ quoted (op_Type op) ++ b " does not match config block " ++ quoted blk)
  | blks => [mkVE path (b "operator has multiple config blocks [" ++ join (b " ") blks ++ b "] (expected only " ++ quoted (op_Type op) ++ b ")")]
  end.
(** The loop over the pipeline; [ids] are the ids seen and where. *)
Fixpoint structural_ops (i : nat) (ids : gmap bytes nat) (ops : list OperatorSpec) : ValidationErrors :=
  match ops with
  | [] => []
  | op :: ops =>
      let path := opPath i op in
      let '(errs, ids) :=
        if isE (op_ID op) then ([mkVE path (b "operator id is required")], ids)
        else match ids !! op_ID op with
        | Some prev => ([mkVE path (b "duplicate operator id " ++ quoted (op_ID op) ++ b " (also used by pipeline[" ++ dec_ (Z.of_nat prev) ++ b "])")], ids)
        | None => ([], <[op_ID op := i]> ids)
        end in
      errs ++
      (if isE (op_Type op) then [mkVE path (b "operator type is required")]
       else if negb (supported supportedOperatorTypes (op_Type op)) then [mkVE path (b "unsupported operator type " ++ quoted (op_Type op))]
       else check_blocks path op) ++
      structural_ops (S i) ids ops
  end.
Definition structural (wf : Workflow) : ValidationErrors :=
  add_if (negb (supported supportedVersions (wf_Version wf))) (b "version") 
    (b "unsupported workflow version " ++ quoted (wf_Version wf) ++ b " (supported: empty or " ++ quoted (b "1") ++ b ")") ++
  (if isE (wf_Name wf) then [mkVE (b "name") (b "workflow name is required")]
   else add_if (negb (nameRe (wf_Name wf))) (b "name") (b "invalid workflow name " ++ quoted (wf_Name wf) ++ b " (letters, digits, and _.- only)")) ++
  (if isE (src_Type (wf_Source wf)) then [mkVE (b "source") (b "source is required")]
   else add_if (negb (supported supportedSourceTypes (src_Type (wf_Source wf)))) (b "source.type") (b "unsupported source type " ++ quoted (src_Type (wf_Source wf)))) ++
  (if isE (sink_Type (wf_Sink wf)) then [mkVE (b "sink") (b "sink is required")]
   else add_if (negb (supported supportedSinkTypes (sink_Type (wf_Sink wf)))) (b "sink.type") (b "unsupported sink type " ++ quoted (sink_Type (wf_Sink wf)))) ++
  structural_ops 0 ∅ (wf_Pipeline wf).

(** ** Configuration *)

Definition windowConfig (path : bytes) (w : WindowConfig) : ValidationErrors :=
  if isE (w_Type w) then [mkVE (path ++ b ".type") (b "a window type is required (tumbling, sliding, or session)")]
  else if eqs (w_Type w) "tumbling" then add_if (w_Size w <=? 0) (path ++ b ".size") (b "window size must be greater than zero")
  else if eqs (w_Type w) "sliding" then
    add_if (w_Size w <=? 0) (path ++ b ".size") (b "window size must be greater than zero") ++
    add_if (w_Slide w <=? 0) (path ++ b ".slide") (b "window slide must be greater than zero") ++
    add_if ((0 <? w_Size w) && (0 <? w_Slide w) && (w_Size w <? w_Slide w)) (path ++ b ".slide") (b "window slide must be less than or equal to size")
  else if eqs (w_Type w) "session" then add_if (w_Gap w <=? 0) (path ++ b ".gap") (b "session gap must be greater than zero")
  else [mkVE (path ++ b ".type") (b "unsupported window type " ++ quoted (w_Type w))].

Definition reduceConfig (path : bytes) (r : ReduceConfig) : ValidationErrors :=
  if eqs (rd_Function r) "count" then []
  else if eqs (rd_Function r) "sum" then add_if (isE (rd_Field r)) (path ++ b ".reduce.field") (b "sum requires a field")
  else if isE (rd_Function r) then [mkVE (path ++ b ".reduce.function") (b "a function is required (count or sum)")]
  else [mkVE (path ++ b ".reduce.function") (b "unsupported reduce function " ++ quoted (rd_Function r) ++ b " (count or sum)")].

(** The first config block that is set, in the order of the code's switch. *)
Definition opConfig (path : bytes) (op : OperatorSpec) : ValidationErrors :=
  match op with
  | mkOp _ _ (Some f) _ _ _ _ _ _ _ _ _ =>
      add_if (isE (f_Field f)) (path ++ b ".filter.field") (b "a field is required") ++
      add_if (isE (f_Operator f)) (path ++ b ".filter.operator") (b "an operator is required")
  | mkOp _ _ _ (Some fs) _ _ _ _ _ _ _ _ => add_if (none fs) (path ++ b ".selectFields.fields") (b "at least one field is required")
  | mkOp _ _ _ _ (Some rs) _ _ _ _ _ _ _ => add_if (none rs) (path ++ b ".renameFields.renames") (b "at least one rename is required")
  | mkOp _ _ _ _ _ (Some ss) _ _ _ _ _ _ => add_if (none ss) (path ++ b ".setFields.sets") (b "at least one set is required")
  | mkOp _ _ _ _ _ _ (Some k) _ _ _ _ _ =>
      add_if (isE (kb_Field k)) (path ++ b ".keyBy.field") (b "a key field is required") ++
      add_if (kb_Partitions k <? 0) (path ++ b ".keyBy.partitions") (b "partitions must not be negative")
  | mkOp _ _ _ _ _ _ _ (Some r) _ _ _ _ => reduceConfig path r
  | mkOp _ _ _ _ _ _ _ _ (Some w) _ _ _ => windowConfig (path ++ b ".window") w
  | mkOp _ _ _ _ _ _ _ _ _ _ _ (Some p) => add_if (isE (Ref p)) (path ++ b ".process.ref") (b "a function ref is required")
  | mkOp _ _ _ _ _ _ _ _ _ (Some m) _ _ => add_if (isE (Ref m)) (path ++ b ".map.ref") (b "a function ref is required")
  | mkOp _ _ _ _ _ _ _ _ _ _ (Some m) _ => add_if (isE (Ref m)) (path ++ b ".flatMap.ref") (b "a function ref is required")
  | _ => []
  end.

Definition ensureDir (mkdir : bytes -> option bytes) (path dir : bytes) : ValidationErrors :=
  match mkdir dir with
  | None => []
  | Some err => [mkVE path (b "directory " ++ quoted dir ++ b " cannot be created: " ++ err)]
  end.
Definition envConfig (mkdir : bytes -> option bytes) (env : option EnvSpec) : ValidationErrors :=
  match env with
  | None => []
  | Some env =>
      add_if (BufferSize env <? 0) (b "env.bufferSize") (b "buffer size must not be negative") ++
      match Checkpointing env with
      | None => []
      | Some c =>
          add_if (ck_Interval c <=? 0) (b "env.checkpointing.interval") (b "checkpoint interval must be greater than zero") ++
          if isE (ck_Dir c) then [] else ensureDir mkdir (b "env.checkpointing.dir") (ck_Dir c)
      end ++
      match env_State env with
      | None => []
      | Some s =>
          if eqs (st_Backend s) "memory" then []
          else if eqs (st_Backend s) "pebble" then if isE (st_Dir s) then [] else ensureDir mkdir (b "env.state.dir") (st_Dir s)
          else if isE (st_Backend s) then [mkVE (b "env.state.backend") (b "a backend is required (memory or pebble)")]
          else [mkVE (b "env.state.backend") (b "unsupported state backend " ++ quoted (st_Backend s) ++ b " (memory or pebble)")]
      end
  end.
Definition sourceConfig (src : SourceSpec) : ValidationErrors :=
  if negb (eqs (src_Type src) "kafka") then []
  else match src_Kafka src with
  | None => [mkVE (b "source.kafka") (b "kafka source configuration is required")]
  | Some k =>
      add_if (none (ks_Brokers k)) (b "source.kafka.brokers") (b "at least one broker is required") ++
      add_if (isE (ks_Topic k) && none (ks_Topics k)) (b "source.kafka.topic") (b "a topic (or topics) is required") ++
      add_if (ks_Parallel k && negb (isE (ks_GroupID k))) (b "source.kafka") (b "parallel and groupID are mutually exclusive") ++
      match ks_Watermark k with
      | Some w => add_if (MaxOutOfOrderness w <=? 0) (b "source.kafka.watermark.maxOutOfOrderness") (b "must be greater than zero")
      | None => []
      end
  end.
Definition pgConfig (path : bytes) (p : PostgresSinkSpec) : ValidationErrors :=
  add_if (isE (pg_DSN p)) (path ++ b ".postgres.dsn") (b "a dsn is required") ++
  add_if (isE (pg_Table p)) (path ++ b ".postgres.table") (b "a table is required") ++
  add_if (bool_decide (pg_Mapping p = ∅)) (path ++ b ".postgres.mapping") (b "a non-empty field→column mapping is required") ++
  (if isE (pg_Mode p) || eqs (pg_Mode p) "insert" then
     add_if (negb (none (pg_ConflictColumns p)) || negb (none (pg_UpdateColumns p))) (path ++ b ".postgres.mode") (b "conflict/update columns require upsert mode")
   else if eqs (pg_Mode p) "upsert" then
     add_if (none (pg_ConflictColumns p)) (path ++ b ".postgres.conflictColumns") (b "upsert requires at least one conflict column")
   else [mkVE (path ++ b ".postgres.mode") (b "unsupported postgres mode " ++ quoted (pg_Mode p) ++ b " (insert or upsert)")]) ++
  let mapped col := bool_decide (col ∈ (map_to_list (pg_Mapping p)).*2) in
  (pg_ConflictColumns p ≫= λ col, add_if (negb (mapped col)) (path ++ b ".postgres.conflictColumns")
     (b "conflict column " ++ quoted col ++ b " is not present in mapping")) ++
  (pg_UpdateColumns p ≫= λ col, add_if (negb (mapped col)) (path ++ b ".postgres.updateColumns")
     (b "update column " ++ quoted col ++ b " is not present in mapping")).
Definition sinkConfig (path : bytes) (snk : SinkSpec) : ValidationErrors :=
  if eqs (sink_Type snk) "kafka" then
    match sink_Kafka snk with
    | None => [mkVE (path ++ b ".kafka") (b "kafka sink configuration is required")]
    | Some k => add_if (none (sk_Brokers k)) (path ++ b ".kafka.brokers") (b "at least one broker is required") ++
                add_if (isE (sk_Topic k)) (path ++ b ".kafka.topic") (b "a topic is required")
    end
  else if eqs (sink_Type snk) "txnKafka" then
    match sink_TxnKafka snk with
    | None => [mkVE (path ++ b ".txnKafka") (b "transactional kafka sink configuration is required")]
    | Some k => add_if (none (tk_Brokers k)) (path ++ b ".txnKafka.brokers") (b "at least one broker is required") ++
                add_if (isE (tk_Topic k)) (path ++ b ".txnKafka.topic") (b "a topic is required") ++
                add_if (isE (tk_TransactionalID k)) (path ++ b ".txnKafka.transactionalID") (b "a transactional id is required for transactional Kafka")
    end
  else if eqs (sink_Type snk) "postgres" then
    match sink_Postgres snk with
    | None => [mkVE (path ++ b ".postgres") (b "postgres sink configuration is required")]
    | Some p => pgConfig path p
    end
  else [].
Fixpoint configuration_ops (i : nat) (ops : list OperatorSpec) : ValidationErrors :=
  match ops with [] => [] | op :: ops => opConfig (opPath i op) op ++ configuration_ops (S i) ops end.
Definition configuration (mkdir : bytes -> option bytes) (wf : Workflow) : ValidationErrors :=
  envConfig mkdir (wf_Env wf) ++ sourceConfig (wf_Source wf) ++ sinkConfig (b "sink") (wf_Sink wf) ++ configuration_ops 0 (wf_Pipeline wf).

(** ** Order and delivery *)

Fixpoint pipeline_ops (i : nat) (sawKeyBy sawReduceInGroup : bool) (ops : list OperatorSpec) : ValidationErrors :=
  match ops with
  | [] => []
  | op :: ops =>
      let path := opPath i op in
      if eqs (op_Type op) "keyBy" then pipeline_ops (S i) true false ops
      else if eqs (op_Type op) "reduce" then
        add_if (negb sawKeyBy) path (b "reduce requires a keyBy before it") ++ pipeline_ops (S i) sawKeyBy true ops
      else if eqs (op_Type op) "window" then
        add_if (negb sawKeyBy) path (b "window requires a keyBy before it") ++
        add_if sawReduceInGroup path (b "window must appear before the aggregation that consumes it") ++
        pipeline_ops (S i) sawKeyBy sawReduceInGroup ops
      else pipeline_ops (S i) sawKeyBy sawReduceInGroup ops
  end.
Definition pipeline (wf : Workflow) : ValidationErrors := pipeline_ops 0 false false (wf_Pipeline wf).

Definition srcEO (wf : Workflow) : bool :=
  eqs (src_Type (wf_Source wf)) "kafka" && match src_Kafka (wf_Source wf) with Some k => ks_ExactlyOnce k | None => false end.
Definition ckptOn (wf : Workflow) : bool :=
  match wf_Env wf with
  | Some env => match Checkpointing env with Some c => 0 <? ck_Interval c | None => false end
  | None => false
  end.
Definition validate_delivery (wf : Workflow) : ValidationErrors :=
  let sinkTxn := eqs (sink_Type (wf_Sink wf)) "txnKafka" in
  if negb (srcEO wf) && negb sinkTxn then []
  else
    add_if (negb (srcEO wf)) (b "source") (b "exactly-once requires a Kafka source with exactlyOnce: true") ++
    add_if (negb sinkTxn) (b "sink") (b "exactly-once requires a txnKafka (transactional) sink") ++
    add_if (negb (ckptOn wf)) (b "env.checkpointing") (b "exactly-once requires checkpointing to be enabled with a positive interval").

Definition Validate (mkdir : bytes -> option bytes) (wf : Workflow) : ValidationErrors :=
  structural wf ++ configuration mkdir wf ++ pipeline wf ++ validate_delivery wf.
