(* ===== verification/Compile.v ===== *)
(** * Package workflow/compiler: from a document to an execution environment

    Operators, the key selector and the built-in reducers, secret references,
    job directories, and the delivery guarantee.  The sources and sinks a
    document names are compiled in [Ends]; here only their errors matter. *)
From stdpp Require Import pretty.
From S2P Require Import Prelude Paths GoTime Strconv Types Window Json Operators Planner Fields BuiltinOps Workflow.

(** ** Operators *)

(** What a declarative operator becomes; a map function may panic. *)
Inductive COp : Type :=
| CFilter (fn : Rec -> bool)
| CMap (fn : Rec -> option Rec)
| CKeyBy (fn : Rec -> slice) (partitions : Z)
| CReduce (fn : slice -> Rec -> slice)
| CWindow (assigner : Assigner) (idleTimeout : option Z).

Definition partitionsOrDefault (n : Z) : Z := if n <=? 0 then 16 else n.

Definition buildWindowAssigner (cfg : WindowConfig) : result Assigner :=
  if eqs (w_Type cfg) "tumbling" then
    if w_Size cfg <=? 0 then Err "tumbling window requires a positive size"
    else Ok (Tumbling (w_Size cfg) (if 0 <? w_Offset cfg then w_Offset cfg else 0))
  else if eqs (w_Type cfg) "sliding" then
    if (w_Size cfg <=? 0) || (w_Slide cfg <=? 0) then Err "sliding window requires positive size and slide"
    else Ok (Sliding (w_Size cfg) (w_Slide cfg) (if 0 <? w_Offset cfg then w_Offset cfg else 0))
  else if eqs (w_Type cfg) "session" then
    if w_Gap cfg <=? 0 then Err "session window requires a positive gap" else Ok (NewSession (w_Gap cfg))
  else Err "unsupported window type".

Definition toFloat (v : any) : float64 :=
  match v with
  | AnyNumber l => (parse_float l).1
  | AnyFloat f => f
  | AnyInt n => of_int64 n
  | _ => FFin false 0
  end.

Section Build.
Context `{OT : ObjectText}.

Definition buildKeySelector (field : bytes) (r : Rec) : slice :=
  match DecodeJSON r with
  | Err _ => None
  | Ok jr => Sprint <$> GetField jr field
  end.

(** Unmarshalling into a [map[string]json.Number]: every member must be a
    number (null is the empty number); the missing number is empty.  (Quoted
    numbers, which [writeAgg] never writes, are left out.) *)
Definition numbers (m : list (bytes * any)) : bool :=
  forallb (λ kv, match kv.2 with AnyNumber _ | AnyNil => true | _ => false end) m.
Definition readAgg (accum : slice) (key : bytes) : float64 :=
  match str accum with
  | [] => FFin false 0
  | t => match obj_parse t with
         | Ok d => if numbers (fields d) then
                     match mget key (fields d) with Some v => toFloat v | None => FFin false 0 end
                   else FFin false 0
         | Err _ => FFin false 0
         end
  end.
Definition writeAgg (key : bytes) (val : float64) : slice :=
  let num := if feq val (of_int64 (to_int64 val)) then dec_ (to_int64 val) else FormatFloat val in
  match obj_print (Some [(key, AnyNumber num)]) with Ok t => Some t | Err _ => None end.

Definition count_fn (accum : slice) (_ : Rec) : slice := writeAgg (b "count") (fadd (readAgg accum (b "count")) (of_int64 1)).
Definition sum_fn (field : bytes) (accum : slice) (r : Rec) : slice :=
  let s := readAgg accum (b "sum") in
  let s := match DecodeJSON r with
           | Ok jr => match GetField jr field with Some v => fadd s (toFloat v) | None => s end
           | Err _ => s
           end in
  writeAgg (b "sum") s.
Definition buildReducer (cfg : ReduceConfig) : result (slice -> Rec -> slice) :=
  if eqs (rd_Function cfg) "count" then Ok count_fn
  else if eqs (rd_Function cfg) "sum" then
    if isE (rd_Field cfg) then Err "reduce sum requires a field" else Ok (sum_fn (rd_Field cfg))
  else Err "unsupported reduce function".

(** One operator appended to the stream, labelled with its id. *)
Definition applyOperator (op : OperatorSpec) : result (COp * bytes) :=
  match op with
  | mkOp id _ (Some f) _ _ _ _ _ _ _ _ _ => Ok (CFilter (BuildFilter f), id)
  | mkOp id _ _ (Some fs) _ _ _ _ _ _ _ _ => Ok (CMap (BuildSelect fs), id)
  | mkOp id _ _ _ (Some rs) _ _ _ _ _ _ _ => Ok (CMap (BuildRename rs), id)
  | mkOp id _ _ _ _ (Some ss) _ _ _ _ _ _ => Ok (CMap (BuildSet ss), id)
  | mkOp id _ _ _ _ _ (Some k) _ _ _ _ _ => Ok (CKeyBy (buildKeySelector (kb_Field k)) (partitionsOrDefault (kb_Partitions k)), id)
  | mkOp id _ _ _ _ _ _ (Some r) _ _ _ _ => fn ← buildReducer r; Ok (CReduce fn, id)
  | mkOp id _ _ _ _ _ _ _ (Some w) _ _ _ =>
      a ← buildWindowAssigner w; Ok (CWindow a (if 0 <? w_IdleTimeout w then Some (w_IdleTimeout w) else None), id)
  | mkOp _ _ _ _ _ _ _ _ _ None None None => Err "operator has no recognized config block"
  | _ => Err "ref-based operators (map/flatMap/process) require a function registry, which the declarative compiler does not provide"
  end.
Fixpoint applyOperators (ops : list OperatorSpec) : result (list (COp * bytes)) :=
  match ops with
  | [] => Ok []
  | op :: ops => x ← applyOperator op; rest ← applyOperators ops; Ok (x :: rest)
  end.
End Build.

(** A byte string as the planner's label. *)
Fixpoint label_text (l : bytes) : string := match l with [] => EmptyString | c :: l => String c (label_text l) end.
(** The planner's view of the stream. *)
Definition planned (i : nat) (op : COp) : Operator :=
  match op with
  | CFilter fn => OpSingle (FilterOperator 0 fn)
  | CMap fn => OpSingle (MapOperator 0 (λ r, default r (fn r)))
  | CKeyBy fn n => OpKeyBy (WithPartitions n (KeyBy fn))
  | CReduce _ => OpReduce i
  | CWindow _ _ => OpWindow i
  end.

(** ** Secret references *)

Definition word_start (c : ascii) : bool := (alnum c && negb (isDigit c)) || bool_decide (c = "_"%char).
Definition word_char (c : ascii) : bool := alnum c || bool_decide (c = "_"%char).
Fixpoint span_word (l : bytes) : bytes * bytes :=
  match l with
  | c :: l' => if word_char c then let '(w, r) := span_word l' in (c :: w, r) else ([], l)
  | [] => ([], [])
  end.
(** A reference ${NAME} at the head of the text: the name and the rest. *)
Definition secretRef (s : bytes) : option (bytes * bytes) :=
  match s with
  | d :: o :: c :: s' =>
      if bool_decide (d = "$"%char) && bool_decide (o = "{"%char) && word_start c then
        match span_word (c :: s') with
        | (w, e :: rest) => if decide (e = "}"%char) then Some (w, rest) else None
        | _ => None
        end
      else None
  | _ => None
  end.
(** [ReplaceAllStringFunc] with the resolver; each round consumes a byte. *)
Fixpoint replace_refs (fuel : nat) (Resolve : bytes -> result bytes) (s : bytes) : result bytes :=
  match fuel, s with
  | S fuel, c :: s' =>
      match secretRef s with
      | Some (name, rest) =>
          match Resolve name with
          | Err _ => Err "secret could not be resolved"
          | Ok v => out ← replace_refs fuel Resolve rest; Ok (v ++ out)
          end
      | None => out ← replace_refs fuel Resolve s'; Ok (c :: out)
      end
  | _, _ => Ok []
  end.
Definition resolveOne (Resolve : bytes -> result bytes) (value : bytes) : result bytes :=
  if negb (strings_Contains value (b "${")) then Ok value
  else out ← replace_refs (length value) Resolve value;
       if strings_Contains out (b "${") then Err "invalid secret reference syntax" else Ok out.
Definition resolveSASL (Resolve : bytes -> result bytes) (s : SASLSpec) : result SASLSpec :=
  u ← resolveOne Resolve (Username s); p ← resolveOne Resolve (Password s); Ok (mkSASL (Mechanism s) u p).
Definition resolveSASLOpt (Resolve : bytes -> result bytes) (s : option SASLSpec) : result (option SASLSpec) :=
  match s with None => Ok None | Some s => s ← resolveSASL Resolve s; Ok (Some s) end.

Definition resolve_source (Resolve : bytes -> result bytes) (src : SourceSpec) : result SourceSpec :=
  match src_Kafka src with
  | None => Ok src
  | Some k =>
      sasl ← resolveSASLOpt Resolve (ks_SASL k);
      Ok (mkSource (src_Type src)
        (Some (mkKSS (ks_Brokers k) (ks_Topic k) (ks_Topics k) (ks_GroupID k) (ks_StartFrom k) (ks_ExactlyOnce k) (ks_Parallel k)
                 (ks_Watermark k) (ks_Deserialize k) (ks_CommitBatch k) (ks_FetchMinBytes k) (ks_FetchMaxBytes k) sasl (ks_TLS k)))
        (src_Records src))
  end.
Definition resolve_sink (Resolve : bytes -> result bytes) (snk : SinkSpec) : result SinkSpec :=
  if eqs (sink_Type snk) "kafka" then
    match sink_Kafka snk with
    | None => Ok snk
    | Some k =>
        sasl ← resolveSASLOpt Resolve (sk_SASL k);
        Ok (mkSink (sink_Type snk)
          (Some (mkKafkaSink (sk_Brokers k) (sk_Topic k) (sk_BatchSize k) (sk_BatchTimeout k) (sk_Acks k) (sk_Async k) (sk_Serialize k)
                   (sk_MaxRetries k) (sk_OnError k) sasl (sk_TLS k))) (sink_TxnKafka snk) (sink_Postgres snk))
    end
  else if eqs (sink_Type snk) "txnKafka" || eqs (sink_Type snk) "transactional_kafka" then
    match sink_TxnKafka snk with
    | None => Ok snk
    | Some k =>
        sasl ← resolveSASLOpt Resolve (tk_SASL k);
        Ok (mkSink (sink_Type snk) (sink_Kafka snk)
          (Some (mkTxnSink (tk_Brokers k) (tk_Topic k) (tk_TransactionalID k) (tk_MarkerTopic k) (tk_Serialize k) sasl (tk_TLS k)))
          (sink_Postgres snk))
    end
  else if eqs (sink_Type snk) "postgres" then
    match sink_Postgres snk with
    | None => Ok snk
    | Some p =>
        dsn ← resolveOne Resolve (pg_DSN p);
        Ok (mkSink (sink_Type snk) (sink_Kafka snk) (sink_TxnKafka snk)
          (Some (mkPg dsn (pg_Table p) (pg_Mapping p) (pg_Mode p) (pg_ConflictColumns p) (pg_UpdateColumns p)
                   (pg_BatchSize p) (pg_FlushInterval p) (pg_MaxRetries p) (pg_OnError p))))
    end
  else Ok snk.
Definition resolveSecrets (Resolve : bytes -> result bytes) (wf : Workflow) : result Workflow :=
  src ← resolve_source Resolve (wf_Source wf);
  snk ← resolve_sink Resolve (wf_Sink wf);
  Ok (mkWorkflow (wf_Name wf) (wf_Version wf) (wf_Env wf) src (wf_Pipeline wf) snk).

(** ** Directories *)


Definition jobDir (configured dataRoot name resource : bytes) : bytes :=
  if isE configured then path_Join [dataRoot; name; resource] else path_Join [configured; name].

(** [strings.TrimSpace], on ASCII. *)
Fixpoint trim_left (s : bytes) : bytes := match s with c :: s' => if blank c then trim_left s' else s | [] => [] end.
Definition TrimSpace (s : bytes) : bytes := reverse (trim_left (reverse (trim_left s))).
(** On ASCII names; the code maps runes, so a longer rune becomes one '_'. *)
Definition sanitizeName (name : bytes) : bytes :=
  let name := TrimSpace name in
  if dotty name then b "default"
  else let safe := (λ c, if name_char c then c else "_"%char) <$> name in
       if dotty safe then b "default" else safe.
Definition DefaultDataRoot : bytes := b "./data".
Definition CheckpointDir (workflowName dataRoot : bytes) (rt : option EnvSpec) : bytes :=
  match rt ≫= Checkpointing with
  | None => []
  | Some c =>
      if ck_Interval c <=? 0 then []
      else jobDir (ck_Dir c) (if isE dataRoot then DefaultDataRoot else dataRoot) (sanitizeName workflowName) (b "checkpoints")
  end.

(** The settings [CompileRuntime] puts on a new environment. *)
Inductive StateChoice : Type := StateDefault | StateInMemory | StatePebble (dir : bytes).
Record RuntimeEnv : Type := mkRuntime {
  re_BufferSize : option Z; re_ShutdownTimeout : option Z; re_Checkpointing : option (Z * bytes); re_State : StateChoice;
}.
Definition CompileRuntime (mkdir : bytes -> option bytes) (workflowName dataRoot : bytes) (rt : option EnvSpec) : result RuntimeEnv :=
  let dataRoot := if isE dataRoot then DefaultDataRoot else dataRoot in
  let name := sanitizeName workflowName in
  match rt with
  | None => Ok (mkRuntime None None None StateDefault)
  | Some rt =>
      if BufferSize rt <? 0 then Err "compiler: runtime bufferSize must not be negative"
      else
        let buf := if 0 <? BufferSize rt then Some (BufferSize rt) else None in
        let shut := if 0 <? ShutdownTimeout rt then Some (ShutdownTimeout rt) else None in
        ck ← match Checkpointing rt with
             | None => Ok None
             | Some c =>
                 if ck_Interval c <=? 0 then Err "compiler: checkpoint interval must be greater than zero"
                 else let dir := jobDir (ck_Dir c) dataRoot name (b "checkpoints") in
                      match mkdir dir with
                      | Some _ => Err "compiler: create checkpoint dir"
                      | None => Ok (Some (ck_Interval c, dir))
                      end
             end;
        st ← match env_State rt with
             | None => Ok StateDefault
             | Some s =>
                 if isE (st_Backend s) || eqs (st_Backend s) "memory" then Ok StateInMemory
                 else if eqs (st_Backend s) "pebble" then
                   let dir := jobDir (st_Dir s) dataRoot name (b "state") in
                   match mkdir dir with
                   | Some _ => Err "compiler: create state dir"
                   | None => Ok (StatePebble dir)
                   end
                 else Err "compiler: unsupported state backend"
             end;
        Ok (mkRuntime buf shut ck st)
  end.

(** ** The compiled workflow *)

Inductive DeliveryGuarantee : Type := AtMostOnce | AtLeastOnce | ExactlyOnce.
Definition deliveryGuarantee (wf : Workflow) : DeliveryGuarantee :=
  let sinkTxn := eqs (sink_Type (wf_Sink wf)) "txnKafka" || eqs (sink_Type (wf_Sink wf)) "transactional_kafka" in
  if srcEO wf && sinkTxn && ckptOn wf then ExactlyOnce else if ckptOn wf then AtLeastOnce else AtMostOnce.

Record PipelineGraph : Type := mkGraph { g_Source : bytes; g_Operators : list (bytes * bytes); g_Sink : bytes }.
Definition buildGraph (wf : Workflow) : PipelineGraph :=
  mkGraph (src_Type (wf_Source wf)) ((λ op, (op_ID op, op_Type op)) <$> wf_Pipeline wf) (sink_Type (wf_Sink wf)).

Record CompiledWorkflow : Type := mkCompiled {
  cw_Runtime : RuntimeEnv; cw_Operators : list (COp * bytes); cw_Name : bytes; cw_Graph : PipelineGraph;
  cw_Delivery : DeliveryGuarantee; cw_CheckpointDir : bytes;
}.
(** [CompileWorkflow]; [compileSource] and [compileSink] are the errors of
    building the source and the sink. *)
Definition CompileWorkflow `{OT : ObjectText} (mkdir : bytes -> option bytes) (Resolve : bytes -> result bytes)
    (compileSource : SourceSpec -> result unit) (compileSink : SinkSpec -> result unit) (BaseDataDir : bytes)
    (spec : option Workflow) : result CompiledWorkflow :=
  match spec with
  | None => Err "compiler: nil workflow"
  | Some wf =>
      if negb (none (Validate mkdir wf)) then Err "Workflow validation failed"
      else
        resolved ← resolveSecrets Resolve wf;
        _ ← compileSource (wf_Source resolved);
        env ← CompileRuntime mkdir (wf_Name resolved) BaseDataDir (wf_Env resolved);
        ops ← applyOperators (wf_Pipeline resolved);
        _ ← compileSink (wf_Sink resolved);
        Ok (mkCompiled env ops (wf_Name resolved) (buildGraph resolved) (deliveryGuarantee resolved)
              (CheckpointDir (wf_Name resolved) BaseDataDir (wf_Env resolved)))
  end.
