(* ===== verification/CompileProofs.v ===== *)
(** * What validation and compilation promise

    A workflow that validates compiles and plans; its delivery guarantee is the
    one its ends ask for; its directories are its own; the count reducer
    counts. *)
From stdpp Require Import pretty.
From S2P Require Import Prelude Paths GoTime Strconv Types Window Operators Planner Fields BuiltinOps Workflow Compile.

(** ** What an empty list of problems says *)

Lemma add_if_nil c p m : add_if c p m = [] -> c = false.
Proof. by destruct c. Qed.
Lemma eqs_true s lit : eqs s lit = true -> s = b lit.
Proof. apply bool_decide_eq_true. Qed.

Lemma structural_ops_ok ops : forall i ids, structural_ops i ids ops = [] ->
  Forall (λ op, exists j, check_blocks (opPath j op) op = []) ops /\
  NoDup (op_ID <$> ops) /\ Forall (λ op, op_ID op <> [] /\ ids !! op_ID op = None) ops.
Proof.
  induction ops as [|op ops IH]; intros i ids; cbn [structural_ops]; [intros _; split_and!; [constructor|apply NoDup_nil_2|constructor]|].
  destruct (isE (op_ID op)) eqn:Ei; [done|]. apply bool_decide_eq_false in Ei.
  destruct (ids !! op_ID op) as [prev|] eqn:El; [done|]. cbn [app]. intros [H1 H2]%app_nil.
  destruct (isE (op_Type op)); [done|]. destruct (negb _); [done|].
  destruct (IH _ _ H2) as (Hb & Hn & Hi). split_and!.
  - constructor; eauto.
  - cbn. constructor; [|done]. intros Hin. apply list_elem_of_fmap in Hin as (op' & E & Hin).
    rewrite Forall_forall in Hi. destruct (Hi _ Hin) as [_ Hlk]. rewrite <- E, lookup_insert_eq in Hlk. done.
  - constructor; [done|]. eapply Forall_impl; [exact Hi|]. cbn. intros op' [Hne Hlk]. split; [done|].
    apply lookup_insert_None in Hlk as [? _]. done.
Qed.
Lemma configuration_ops_ok ops : forall i, configuration_ops i ops = [] -> Forall (λ op, exists j, opConfig (opPath j op) op = []) ops.
Proof.
  induction ops as [|op ops IH]; intros i; cbn; [constructor|]. intros [H1 H2]%app_nil. constructor; eauto.
Qed.

(** ** A valid workflow compiles and plans *)

Definition declarative (op : OperatorSpec) : Prop := op_Map op = None /\ op_FlatMap op = None /\ op_Process op = None.
Definition assigner_wf (a : Assigner) : Prop :=
  match a with
  | Tumbling size offset => 0 < size /\ 0 <= offset
  | Sliding size slide offset => 0 < slide <= size /\ 0 <= offset
  | Session gap => 0 < gap
  end.
Definition cop_wf (c : COp) : Prop :=
  match c with CKeyBy _ n => 0 < n | CWindow a _ => assigner_wf a | _ => True end.

Lemma partitionsOrDefault_pos n : 0 < partitionsOrDefault n.
Proof. unfold partitionsOrDefault. destruct (Z.leb_spec n 0); lia. Qed.
Lemma buildWindowAssigner_ok path w : windowConfig path w = [] -> exists a, buildWindowAssigner w = Ok a /\ assigner_wf a.
Proof.
  unfold windowConfig, buildWindowAssigner. destruct (isE (w_Type w)); [done|].
  assert (Hoff : 0 <= (if 0 <? w_Offset w then w_Offset w else 0)) by (destruct (Z.ltb_spec 0 (w_Offset w)); lia).
  destruct (eqs (w_Type w) "tumbling").
  - intros Hs%add_if_nil. rewrite Hs. eexists; split; [done|]. split; [lia|done].
  - destruct (eqs (w_Type w) "sliding").
    + intros [H1%add_if_nil [H2%add_if_nil H3%add_if_nil]%app_nil]%app_nil. rewrite H1, H2. eexists; split; [done|]. split; [lia|done].
    + destruct (eqs (w_Type w) "session"); [|done]. intros H%add_if_nil. rewrite H. eexists; split; [done|]. cbn. lia.
Qed.

Section Ops.
Context `{OT : ObjectText}.

Lemma buildReducer_ok path r : reduceConfig path r = [] -> exists fn, buildReducer r = Ok fn.
Proof.
  unfold reduceConfig, buildReducer. destruct (eqs (rd_Function r) "count"); [eauto|].
  destruct (eqs (rd_Function r) "sum"); [intros ->%add_if_nil; eauto|]. by destruct (isE (rd_Function r)).
Qed.
Lemma applyOperator_ok p1 p2 op : check_blocks p1 op = [] -> opConfig p2 op = [] -> declarative op ->
  exists c, applyOperator op = Ok (c, op_ID op) /\ cop_wf c.
Proof.
  intros Hb Hc (Hm & Hf & Hp). destruct op as [id ty f fs rs ss k rd w m fm pr]. cbn in Hm, Hf, Hp. subst m fm pr.
  destruct f; [eexists; done|]. destruct fs; [eexists; done|]. destruct rs; [eexists; done|]. destruct ss; [eexists; done|].
  destruct k as [k|]; [eexists; split; [done|apply partitionsOrDefault_pos]|].
  destruct rd as [rd|].
  { destruct (buildReducer_ok p2 rd Hc) as [fn E]. cbn. rewrite E. by eexists. }
  destruct w as [w|]; [|done].
  destruct (buildWindowAssigner_ok _ w Hc) as (a & E & Hwf). cbn. rewrite E. by eexists.
Qed.
Lemma applyOperators_ok ops : Forall (λ op, exists j, check_blocks (opPath j op) op = []) ops ->
  Forall (λ op, exists j, opConfig (opPath j op) op = []) ops -> Forall declarative ops ->
  exists cs, applyOperators ops = Ok cs /\ cs.*2 = op_ID <$> ops /\ Forall cop_wf cs.*1.
Proof.
  induction ops as [|op ops IH]; intros Hb Hc Hd; [by exists []|].
  apply Forall_cons in Hb as [[j Hb] Hbs], Hc as [[j' Hc] Hcs], Hd as [Hd Hds].
  destruct (applyOperator_ok _ _ _ Hb Hc Hd) as (c & E & Hw). destruct IH as (cs & Es & Hl & Hws); [done..|].
  exists ((c, op_ID op) :: cs). cbn [applyOperators]. rewrite E. cbn. rewrite Es. cbn. split_and!; [done|by rewrite Hl|by constructor].
Qed.

Lemma planned_keyby_ok cs : Forall cop_wf cs -> forallb keyby_ok (imap planned cs) = true.
Proof.
  intros Hw. apply forallb_forall. intros op Hop. apply list_elem_of_In, elem_of_lookup_imap in Hop as (i & c & -> & Hc).
  rewrite Forall_lookup in Hw. specialize (Hw i c Hc). destruct c; cbn in *; try done. lia.
Qed.

(** C17: a workflow that validates and uses no function references always
    compiles and plans.  Every operator is built, in order and labelled with
    its id; the ids are distinct; every window assigner has the positive sizes
    and every keyed stage the positive worker count the runtime needs; and the
    planner accepts the compiled operators, whatever state backends it is
    given as long as opening one does not fail. *)
Theorem valid_workflow_plans (mkdir : bytes -> option bytes) (wf : Workflow) (h : StageHooks) :
  Validate mkdir wf = [] -> Forall declarative (wf_Pipeline wf) -> hooks_total h ->
  exists cs sts, applyOperators (wf_Pipeline wf) = Ok cs /\
    cs.*2 = op_ID <$> wf_Pipeline wf /\ NoDup cs.*2 /\ Forall cop_wf cs.*1 /\
    BuildPlan (mkPlanCfg true (imap planned cs.*1) (label_text <$> cs.*2) true h) = Ok sts.
Proof.
  intros Hv Hd Hh. unfold Validate in Hv.
  apply app_nil in Hv as [Hs [Hc _]%app_nil].
  unfold structural in Hs. do 4 apply app_nil in Hs as [_ Hs]. unfold configuration in Hc. do 3 apply app_nil in Hc as [_ Hc].
  destruct (structural_ops_ok _ _ _ Hs) as (Hb & Hn & _). apply configuration_ops_ok in Hc.
  destruct (applyOperators_ok _ Hb Hc Hd) as (cs & E & Hl & Hw).
  pose proof (plan_fails_exactly (mkPlanCfg true (imap planned cs.*1) (label_text <$> cs.*2) true h) Hh) as Hp.
  cbn [hasSource hasSink cfgLabels Planner.Operators hooks andb] in Hp.
  rewrite bool_decide_true, planned_keyby_ok in Hp by (done || by rewrite length_imap, !length_fmap).
  destruct (BuildPlan _) as [sts|] eqn:Eb in Hp; [|done].
  exists cs, sts. split_and!; try done. by rewrite Hl.
Qed.
End Ops.

(** ** Guarantee and checkpoint directory *)

(** Resolving secrets only touches credentials. *)
Lemma resolveSecrets_keeps R wf wf' : resolveSecrets R wf = Ok wf' ->
  wf_Name wf' = wf_Name wf /\ wf_Env wf' = wf_Env wf /\ wf_Pipeline wf' = wf_Pipeline wf /\
  srcEO wf' = srcEO wf /\ sink_Type (wf_Sink wf') = sink_Type (wf_Sink wf).
Proof.
  unfold resolveSecrets. destruct (resolve_source R (wf_Source wf)) as [src|] eqn:E1; [|done]. cbn.
  destruct (resolve_sink R (wf_Sink wf)) as [snk|] eqn:E2; [|done]. cbn. intros [= <-]. cbn. split_and!; try done.
  - unfold srcEO. cbn. unfold resolve_source in E1. destruct (src_Kafka (wf_Source wf)) as [k|] eqn:Ek; [|by injection E1 as <-; rewrite Ek].
    destruct (resolveSASLOpt R (ks_SASL k)); [|done]. by injection E1 as <-.
  - unfold resolve_sink in E2. destruct (eqs (sink_Type (wf_Sink wf)) "kafka");
      [destruct (sink_Kafka (wf_Sink wf)) as [k|]; [destruct (resolveSASLOpt R (sk_SASL k))|]; by simplify_eq/=|].
    destruct (_ || _);
      [destruct (sink_TxnKafka (wf_Sink wf)) as [k|]; [destruct (resolveSASLOpt R (tk_SASL k))|]; by simplify_eq/=|].
    destruct (eqs (sink_Type (wf_Sink wf)) "postgres"); [|by simplify_eq/=].
    destruct (sink_Postgres (wf_Sink wf)) as [k|]; [destruct (resolveOne R (pg_DSN k))|]; by simplify_eq/=.
Qed.

(** The two derivations of the checkpoint directory agree. *)
Lemma CompileRuntime_dir mkdir name root rt env : CompileRuntime mkdir name root rt = Ok env ->
  match re_Checkpointing env with
  | Some (i, dir) => 0 < i /\ CheckpointDir name root rt = dir /\ exists c, rt ≫= Checkpointing = Some c /\ ck_Interval c = i
  | None => CheckpointDir name root rt = [] /\ rt ≫= Checkpointing = None
  end.
Proof.
  unfold CompileRuntime, CheckpointDir. destruct rt as [rt|]; [|by intros [= <-]]. cbn.
  destruct (BufferSize rt <? 0); [done|]. destruct (Checkpointing rt) as [c|]; cbn.
  - destruct (Z.leb_spec (ck_Interval c) 0); [done|]. destruct (mkdir _); [done|]. cbn.
    destruct (match env_State rt with Some _ => _ | None => _ end); [|done]. intros [= <-]. cbn. eauto.
  - destruct (match env_State rt with Some _ => _ | None => _ end); [|done]. by intros [= <-].
Qed.

Lemma delivery_valid wf : validate_delivery wf = [] ->
  deliveryGuarantee wf = ExactlyOnce <-> srcEO wf = true \/ eqs (sink_Type (wf_Sink wf)) "txnKafka" = true.
Proof.
  unfold validate_delivery, deliveryGuarantee.
  destruct (srcEO wf), (eqs (sink_Type (wf_Sink wf)) "txnKafka"), (ckptOn wf); cbn; intros H; try done; try (by split; auto).
  all: split; [intros; by left||done|by intros [?|?]].
Qed.

(** C18: a compiled workflow delivers what was asked for.  Whenever compilation
    succeeds: the guarantee is exactly-once if and only if the source asks for
    exactly-once or the sink is transactional (a half configuration never
    compiles); exactly-once comes with checkpointing switched on; and the
    checkpoint directory reported to the runner is the one the environment
    writes to. *)
Theorem compiled_guarantee `{OT : ObjectText} mkdir R cs ck root (wf : Workflow) (cw : CompiledWorkflow) :
  CompileWorkflow mkdir R cs ck root (Some wf) = Ok cw ->
  (cw_Delivery cw = ExactlyOnce <-> srcEO wf = true \/ eqs (sink_Type (wf_Sink wf)) "txnKafka" = true) /\
  (cw_Delivery cw = ExactlyOnce -> re_Checkpointing (cw_Runtime cw) <> None) /\
  match re_Checkpointing (cw_Runtime cw) with
  | Some (i, dir) => 0 < i /\ cw_CheckpointDir cw = dir
  | None => cw_CheckpointDir cw = []
  end.
Proof.
  unfold CompileWorkflow. destruct (none (Validate mkdir wf)) eqn:Hv; [|done]. cbn [negb].
  apply bool_decide_eq_true, nil_length_inv in Hv. unfold Validate in Hv. do 3 apply app_nil in Hv as [_ Hv].
  destruct (resolveSecrets R wf) as [wf'|] eqn:Er; [|done]. cbn.
  destruct (resolveSecrets_keeps _ _ _ Er) as (Hn & He & Hp & Hs & Hk).
  destruct (cs (wf_Source wf')); [|done]. cbn. destruct (CompileRuntime _ _ _ _) as [env|] eqn:Ec; [|done]. cbn.
  destruct (applyOperators _) as [ops|]; [|done]. cbn. destruct (ck (wf_Sink wf')); [|done]. cbn. intros [= <-]. cbn.
  assert (Hd : deliveryGuarantee wf' = deliveryGuarantee wf) by (unfold deliveryGuarantee, ckptOn; by rewrite Hs, Hk, He).
  rewrite Hd, (delivery_valid wf Hv). apply CompileRuntime_dir in Ec. split_and!; [done| |].
  - intros Hor Hnone. rewrite Hnone in Ec. destruct Ec as [_ Ec]. apply (delivery_valid wf Hv) in Hor.
    unfold deliveryGuarantee, ckptOn in Hor. rewrite <- He in Hor. destruct (wf_Env wf') as [e|]; cbn in Ec; [rewrite Ec in Hor|];
      rewrite andb_false_r in Hor; done.
  - by destruct (re_Checkpointing env) as [[i dir]|]; destruct_and?.
Qed.

(** ** Directories *)

Lemma nameRe_chars s : nameRe s = true -> s <> [] /\ forallb name_char s = true /\ exists c s', s = c :: s' /\ alnum c = true.
Proof.
  destruct s as [|c s]; [done|]. cbn. intros [H1 H2]%andb_prop. split_and!; [done| |eauto].
  unfold name_char at 1. by rewrite H1, H2.
Qed.
Lemma name_not_blank c : name_char c = true -> blank c = false.
Proof.
  unfold name_char, alnum, blank. intros H. apply orb_prop in H as [H|H].
  - apply orb_false_iff; split; [|lia]. destruct (Z.leb_spec 9 (byteZ c)), (Z.leb_spec (byteZ c) 13); lia.
  - apply bool_decide_eq_true in H. set_unfold in H. destruct_or?; by subst.
Qed.
Lemma trim_left_name s : forallb name_char s = true -> trim_left s = s.
Proof. destruct s as [|c s]; [done|]. cbn. intros [H _]%andb_prop. by rewrite (name_not_blank c H). Qed.
Lemma forallb_reverse {A} (f : A -> bool) l : forallb f (reverse l) = forallb f l.
Proof. induction l as [|x l IH]; [done|]. rewrite reverse_cons, forallb_app, IH. cbn. by destruct (f x), (forallb f l). Qed.
Lemma alnum_head_not_dotty c s : alnum c = true -> dotty (c :: s) = false.
Proof.
  intros Hc. unfold dotty, isE, eqs. cbn [b]. rewrite !bool_decide_false; [done| | |done];
    intros [= -> ->]; vm_compute in Hc; done.
Qed.
(** A valid name is used as it is. *)
Lemma sanitizeName_id s : nameRe s = true -> sanitizeName s = s.
Proof.
  intros Hs. destruct (nameRe_chars s Hs) as (_ & Hc & c & s' & -> & Ha). unfold sanitizeName, TrimSpace.
  rewrite (trim_left_name (c :: s')) by done. rewrite trim_left_name by (by rewrite forallb_reverse). rewrite reverse_involutive.
  rewrite alnum_head_not_dotty by done.
  assert (Hm : (λ c0, if name_char c0 then c0 else "_"%char) <$> (c :: s') = c :: s').
  { revert Hc. generalize (c :: s'). intros l. induction l as [|x l IH]; [done|]. cbn. intros [-> H]%andb_prop. f_equal. by apply IH. }
  rewrite Hm. by rewrite alnum_head_not_dotty.
Qed.


Lemma name_ordinary s : nameRe s = true -> ordinary s.
Proof.
  intros Hs. destruct (nameRe_chars s Hs) as (_ & Hc & c & s' & -> & Ha). split; [by apply alnum_head_not_dotty|].
  intros Hin. rewrite forallb_forall in Hc. apply list_elem_of_In, Hc in Hin. by vm_compute in Hin.
Qed.
Lemma jobDir_inj c root res n1 n2 : root <> [] -> ordinary res -> nameRe n1 = true -> nameRe n2 = true ->
  jobDir c root n1 res = jobDir c root n2 res -> n1 = n2.
Proof.
  intros Hr Hres H1 H2. pose proof (name_ordinary _ H1) as O1. pose proof (name_ordinary _ H2) as O2.
  assert (Hne : forall s, ordinary s -> isE s = false) by (intros s [Hs _]; unfold dotty in Hs; by destruct (isE s)).
  unfold jobDir. destruct (isE c) eqn:Ec.
  - destruct (Clean_snoc root Hr) as [pre Hpre]. unfold path_Join. cbn [List.filter].
    rewrite !(Hne _ O1), !(Hne _ O2), !(Hne _ Hres). replace (isE root) with false by (by unfold isE; rewrite bool_decide_false). cbn [negb join].
    destruct (Hpre n1 O1) as [_ E1]. destruct (Hpre n2 O2) as [_ E2].
    change (root ++ [slash] ++ n1 ++ [slash] ++ res) with (root ++ slash :: n1 ++ slash :: res).
    change (root ++ [slash] ++ n2 ++ [slash] ++ res) with (root ++ slash :: n2 ++ slash :: res).
    rewrite (E1 res Hres), (E2 res Hres). intros E. apply app_inv_head in E. by apply app_inv_tail in E.
  - apply bool_decide_eq_false in Ec as Ec'. destruct (Clean_snoc c Ec') as [pre Hpre]. unfold path_Join. cbn [List.filter].
    rewrite Ec, (Hne _ O1), (Hne _ O2). cbn [negb join].
    change (c ++ [slash] ++ n1) with (c ++ slash :: n1). change (c ++ [slash] ++ n2) with (c ++ slash :: n2).
    rewrite (proj1 (Hpre n1 O1)), (proj1 (Hpre n2 O2)). apply app_inv_head.
Qed.

(** Distinct workflows never share a directory.  For two valid names that
    differ, compiled with the same runtime settings and data root, the Pebble
    directories differ and the checkpoint directories differ, whether a
    directory is configured or derived, and however its path is spelled. *)
Theorem workflow_dirs_isolated mkdir root rt (n1 n2 : bytes) (e1 e2 : RuntimeEnv) :
  nameRe n1 = true -> nameRe n2 = true -> n1 <> n2 ->
  CompileRuntime mkdir n1 root rt = Ok e1 -> CompileRuntime mkdir n2 root rt = Ok e2 ->
  (forall d1 d2, re_State e1 = StatePebble d1 -> re_State e2 = StatePebble d2 -> d1 <> d2) /\
  (forall i1 d1 i2 d2, re_Checkpointing e1 = Some (i1, d1) -> re_Checkpointing e2 = Some (i2, d2) -> d1 <> d2).
Proof.
  intros H1 H2 Hne. unfold CompileRuntime. rewrite !sanitizeName_id by done.
  set (root' := if isE root then DefaultDataRoot else root).
  assert (Hroot : root' <> []).
  { subst root'. destruct (isE root) eqn:E; [done|]. by apply bool_decide_eq_false in E. }
  assert (Ho : ordinary (b "state") /\ ordinary (b "checkpoints")).
  { repeat split; try reflexivity; intros H; apply list_elem_of_In in H; cbn in H; decompose [or] H; done. }
  destruct Ho as [Hos Hoc]. destruct rt as [rt|]; [|by intros [= <-] [= <-]].
  destruct (BufferSize rt <? 0); [done|].
  intros E1 E2. split.
  - intros d1 d2 S1 S2 ->. apply Hne.
    destruct (match Checkpointing rt with Some _ => _ | None => _ end) as [c1|] in E1; [|done].
    destruct (match Checkpointing rt with Some _ => _ | None => _ end) as [c2|] in E2; [|done]. cbn [mbind result_bind] in E1, E2.
    destruct (env_State rt) as [s|]; [|by simplify_eq/=].
    destruct (isE (st_Backend s) || eqs (st_Backend s) "memory"); [by simplify_eq/=|].
    destruct (eqs (st_Backend s) "pebble"); [|done].
    destruct (mkdir (jobDir (st_Dir s) root' n1 (b "state"))); [done|].
    destruct (mkdir (jobDir (st_Dir s) root' n2 (b "state"))); [done|]. cbn [mbind result_bind] in E1, E2. injection E1 as <-. injection E2 as <-.
    cbn [re_State re_Checkpointing] in S1, S2. apply (jobDir_inj (st_Dir s) root' (b "state")); try done.
    injection S1 as S1. injection S2 as S2. exact (eq_trans S1 (eq_sym S2)).
  - intros i1 d1 i2 d2 S1 S2 ->. apply Hne.
    destruct (Checkpointing rt) as [c|].
    + destruct (ck_Interval c <=? 0); [done|].
      destruct (mkdir (jobDir (ck_Dir c) root' n1 (b "checkpoints"))); [done|].
      destruct (mkdir (jobDir (ck_Dir c) root' n2 (b "checkpoints"))); [done|]. cbn [mbind result_bind] in E1, E2.
      destruct (match env_State rt with Some _ => _ | None => _ end) in E1; [|done].
      destruct (match env_State rt with Some _ => _ | None => _ end) in E2; [|done].
      cbn [mbind result_bind] in E1, E2. injection E1 as <-. injection E2 as <-. cbn [re_State re_Checkpointing] in S1, S2.
      apply (jobDir_inj (ck_Dir c) root' (b "checkpoints")); try done.
      injection S1 as _ S1. injection S2 as _ S2. exact (eq_trans S1 (eq_sym S2)).
    + cbn [mbind result_bind] in E1. destruct (match env_State rt with Some _ => _ | None => _ end) in E1; [|done].
      by simplify_eq/=.
Qed.

(** ** The count reducer *)

(** encoding/json on an object with one integer member. *)
Class AggText `{OT : ObjectText} : Prop := {
  agg_roundtrip k n : exists t, obj_print (Some [(k, AnyNumber (dec_ n))]) = Ok t /\ t <> [] /\
    obj_parse t = Ok (Some [(k, AnyNumber (dec_ n))]);
}.

Section Count.
Context `{AT : AggText}.

Lemma exact_int64 n : exact_int n -> int64 n.
Proof. unfold exact_int, int64. lia. Qed.
Lemma writeAgg_int k n : exact_int n ->
  exists t, writeAgg k (fint n) = Some t /\ t <> [] /\ obj_parse t = Ok (Some [(k, AnyNumber (dec_ n))]).
Proof.
  intros Hn. unfold writeAgg. rewrite to_int64_fint by (by apply exact_int64). rewrite of_int64_exact by done.
  change (FFin (n <? 0) (Z.abs n * one_)) with (fint n). rewrite feq_fint, Z.eqb_refl.
  destruct (agg_roundtrip k n) as (t & -> & H1 & H2). eauto.
Qed.
Lemma readAgg_int t k n : exact_int n -> t <> [] -> obj_parse t = Ok (Some [(k, AnyNumber (dec_ n))]) -> readAgg (Some t) k = fint n.
Proof.
  intros Hn Ht Hp. unfold readAgg. change (str (Some t)) with t. destruct t as [|c t]; [done|]. rewrite Hp. cbn -[parse_float dec_ fint].
  rewrite decide_True by done. unfold toFloat. pose proof (ParseFloat_dec n Hn) as H. unfold ParseFloat in H.
  destruct (parse_float (dec_ n)) as [f [e|]]; [done|]. cbn. by injection H.
Qed.
Lemma count_step acc n r : 0 <= n -> exact_int (n + 1) -> readAgg acc (b "count") = fint n ->
  exists t, count_fn acc r = Some t /\ t <> [] /\ obj_parse t = Ok (Some [(b "count", AnyNumber (dec_ (n + 1)))]).
Proof.
  intros H0 Hn Hr. unfold count_fn. rewrite Hr, of_int64_exact by (unfold exact_int; lia).
  change (FFin (1 <? 0) (Z.abs 1 * one_)) with (fint 1). rewrite fadd_fint by (done || lia). by apply writeAgg_int.
Qed.

Lemma count_fold (recs : list Rec) : recs <> [] -> Z.of_nat (length recs) <= 2 ^ 53 ->
  exists t, foldl count_fn None recs = Some t /\ t <> [] /\
    obj_parse t = Ok (Some [(b "count", AnyNumber (dec_ (Z.of_nat (length recs))))]).
Proof.
  intros Hne. induction recs as [|r recs IH] using rev_ind; [done|]. clear Hne.
  rewrite foldl_app, length_app. cbn [foldl length]. rewrite Nat.add_1_r, Nat2Z.inj_succ. unfold Z.succ. intros Hl.
  apply count_step; [lia|unfold exact_int; lia|].
  destruct recs as [|r0 recs]; [done|]. destruct IH as (t & -> & Ht & Hp); [done|lia|].
  apply readAgg_int; [unfold exact_int; lia|done|done].
Qed.

(** The built-in count counts.  Folding it over any non-empty list of
    records of one key, up to 2^53 of them, from no accumulator gives a JSON
    object whose only member is the number of records. *)
Theorem count_counts (recs : list Rec) : recs <> [] -> Z.of_nat (length recs) <= 2 ^ 53 ->
  exists t, foldl count_fn None recs = Some t /\
    obj_parse t = Ok (Some [(b "count", AnyNumber (dec_ (Z.of_nat (length recs))))]).
Proof. intros H1 H2. destruct (count_fold recs H1 H2) as (t & E & _ & Hp). eauto. Qed.
End Count.

(** ** A concrete workflow *)

(** A codec for objects of one number: the key's length, a colon, the key and
    the literal. *)
#[local] Instance agg_codec : ObjectText := {
  obj_print d := match d with Some [(k, AnyNumber l)] => Ok (dec_ (Z.of_nat (length k)) ++ ":"%char :: k ++ l) | _ => Err "unsupported" end;
  obj_parse t := match span_digits t with
    | (ds, _ :: rest) => let n := Z.to_nat (digits_val 0 ds) in Ok (Some [(take n rest, AnyNumber (drop n rest))])
    | _ => Err "unexpected end"
    end;
}.
#[local] Instance agg_codec_laws : AggText.
Proof.
  split. intros k n. eexists. split; [done|]. split; [by destruct (dec_ _)|]. cbn [obj_parse agg_codec].
  destruct (pretty_N_val (N.of_nat (length k))) as (H1 & H2 & _).
  assert (Hd : dec_ (Z.of_nat (length k)) = b (pretty (N.of_nat (length k)))) by (unfold dec_; by destruct (length k)).
  rewrite Hd, span_digits_app by (done || by intros c [= <-]). rewrite H2.
  replace (Z.to_nat (Z.of_N (N.of_nat (length k)))) with (length k) by lia. by rewrite take_app_length, drop_app_length.
Qed.

Definition op0 : OperatorSpec := mkOp [] [] None None None None None None None None None None.
Definition demo_pipeline : list OperatorSpec := [
  mkOp (b "paid") (b "filter") (Some (mkFilter (b "status") OpEquals (AnyString (b "paid")))) None None None None None None None None None;
  mkOp (b "by-customer") (b "keyBy") None None None None (Some (mkKeyByConfig (b "customer.id") 0 [])) None None None None None;
  mkOp (b "minute") (b "window") None None None None None None (Some (mkWindowConfig (b "tumbling") (60 * Second) 0 0 0 0 [])) None None None;
  mkOp (b "orders") (b "reduce") None None None None None (Some (mkReduceConfig (b "count") [] [])) None None None None ].
Definition demo_wf : Workflow := mkWorkflow (b "orders") (b "1")
  (Some (mkEnv 0 0 (Some (mkCkpt (10 * Second) [])) (Some (mkStateSpec (b "pebble") (b "/var/state/"))))
  ) (mkSource (b "kafka") (Some (mkKSS [b "kafka:9092"] (b "in") [] (b "g") [] true false None [] 0 0 0 None None)) [])
  demo_pipeline
  (mkSink (b "txnKafka") None (Some (mkTxnSink [b "kafka:9092"] (b "out") (b "txn-1") [] [] None None)) None).
Definition mkdir_ok : bytes -> option bytes := λ _, None.
Definition open_hooks : StageHooks := mkHooks true (Some (λ _, None)).

Lemma valid_workflow_plans_witness : exists cs sts,
  applyOperators demo_pipeline = Ok cs /\ BuildPlan (mkPlanCfg true (imap planned cs.*1) (label_text <$> cs.*2) true open_hooks) = Ok sts.
Proof.
  destruct (valid_workflow_plans mkdir_ok demo_wf open_hooks) as (cs & sts & H1 & _ & _ & _ & H2).
  - vm_compute. reflexivity.
  - repeat constructor.
  - intros f o [= <-]. reflexivity.
  - exists cs, sts. split; [exact H1|exact H2].
Defined.

Definition demo_compiled : result CompiledWorkflow :=
  CompileWorkflow mkdir_ok (λ _, Err "unset") (λ _, Ok tt) (λ _, Ok tt) [] (Some demo_wf).
Lemma compiled_guarantee_witness : exists cw, demo_compiled = Ok cw /\ cw_Delivery cw = ExactlyOnce.
Proof.
  assert (Hok : is_ok demo_compiled = true) by (vm_compute; reflexivity).
  destruct demo_compiled as [cw|e] eqn:E; [|discriminate].
  exists cw. split; [reflexivity|].
  destruct (compiled_guarantee mkdir_ok (λ _, Err "unset") (λ _, Ok tt) (λ _, Ok tt) [] demo_wf cw E) as [H _].
  apply H. left. vm_compute. reflexivity.
Defined.

Definition runtime_of (name : string) : RuntimeEnv :=
  match CompileRuntime mkdir_ok (b name) [] (wf_Env demo_wf) with Ok e => e | Err _ => mkRuntime None None None StateDefault end.
Lemma workflow_dirs_isolated_witness :
  re_State (runtime_of "orders") = StatePebble (b "/var/state/orders") /\ re_State (runtime_of "orders") <> re_State (runtime_of "refunds").
Proof.
  split; [vm_compute; reflexivity|].
  destruct (workflow_dirs_isolated mkdir_ok [] (wf_Env demo_wf) (b "orders") (b "refunds") (runtime_of "orders") (runtime_of "refunds"))
    as [H _]; [vm_compute; reflexivity|vm_compute; reflexivity|vm_compute; discriminate|vm_compute; reflexivity|vm_compute; reflexivity|].
  intros E. apply (H (b "/var/state/orders") (b "/var/state/orders")); [vm_compute; reflexivity| |reflexivity].
  rewrite <- E. vm_compute. reflexivity.
Defined.

Lemma count_counts_witness : exists t, foldl count_fn None [zeroRec; zeroRec; zeroRec] = Some t /\
  obj_parse t = Ok (Some [(b "count", AnyNumber (b "3"))]).
Proof.
  destruct (count_counts [zeroRec; zeroRec; zeroRec]) as (t & H1 & H2); [discriminate|cbn; lia|].
  exists t. split; [exact H1|]. etransitivity; [exact H2|]. vm_compute. reflexivity.
Defined.
