(* ===== verification/Fluent.v ===== *)
(** * The fluent API (stream.go, the builder of mailer.go)

    A pipeline is built by method calls that append operators to the
    environment the stream belongs to.  The environment is what [Execute] plans,
    and what the workflow compiler builds with the same methods. *)
From S2P Require Import Prelude Paths GoTime Strconv Types Window Json Operators Planner Fields BuiltinOps Workflow Compile CompileProofs.

(** ** Operators as they are appended *)

Definition ReduceFn : Type := slice -> Rec -> slice.
Inductive SOp : Type :=
| SSingle (sp : SingleProcessor) (label : string)
| SKeyBy (kb : KeyByOperator) (label : string)
| SReduce (fn : ReduceFn) (label : string)
| SWindow (a : Assigner) (idleTimeout : Z) (reducer : option ReduceFn) (label : string).

(** [GetLabel]; a Process operator carries its own label. *)
Definition GetLabel (o : SOp) : string :=
  match o with
  | SSingle (ProcOperator _ p) _ => proc_Label p
  | SSingle _ l | SKeyBy _ l | SReduce _ l | SWindow _ _ _ l => l
  end.
(** The planner's view; stateful operators are named by their position. *)
Definition op_planned (i : nat) (o : SOp) : Operator :=
  match o with
  | SSingle sp _ => OpSingle sp
  | SKeyBy kb _ => OpKeyBy kb
  | SReduce _ _ => OpReduce i
  | SWindow _ _ _ _ => OpWindow i
  end.
(** An optional label argument. *)
Definition labelled (label : list string) : string := default EmptyString (head label).

(** ** The environment *)

Record StreamEnv : Type := mkEnv {
  e_hasSource : bool; e_operators : list SOp; e_hasSink : bool;
  e_shutdownTimeout : Z; e_edgeCapacity : Z; e_checkpointInterval : Z; e_storage : option bytes; e_stateFactory : bool;
}.
Definition DefaultEdgeCapacity : Z := 1024.
Definition NewEnv : StreamEnv := mkEnv false [] false (30 * Second) DefaultEdgeCapacity 0 None false.
Definition set_ops (ops : list SOp) (e : StreamEnv) : StreamEnv :=
  mkEnv (e_hasSource e) ops (e_hasSink e) (e_shutdownTimeout e) (e_edgeCapacity e) (e_checkpointInterval e) (e_storage e) (e_stateFactory e).
Definition WithShutdownTimeout (d : Z) (e : StreamEnv) : StreamEnv :=
  mkEnv (e_hasSource e) (e_operators e) (e_hasSink e) d (e_edgeCapacity e) (e_checkpointInterval e) (e_storage e) (e_stateFactory e).
Definition WithBufferSize (n : Z) (e : StreamEnv) : StreamEnv :=
  if 0 <? n then mkEnv (e_hasSource e) (e_operators e) (e_hasSink e) (e_shutdownTimeout e) n (e_checkpointInterval e) (e_storage e) (e_stateFactory e) else e.
Definition WithCheckpointing (interval : Z) (storage : bytes) (e : StreamEnv) : StreamEnv :=
  mkEnv (e_hasSource e) (e_operators e) (e_hasSink e) (e_shutdownTimeout e) (e_edgeCapacity e) interval (Some storage) (e_stateFactory e).
Definition WithStateBackend (e : StreamEnv) : StreamEnv :=
  mkEnv (e_hasSource e) (e_operators e) (e_hasSink e) (e_shutdownTimeout e) (e_edgeCapacity e) (e_checkpointInterval e) (e_storage e) true.
Definition FromSource (e : StreamEnv) : StreamEnv :=
  mkEnv true (e_operators e) (e_hasSink e) (e_shutdownTimeout e) (e_edgeCapacity e) (e_checkpointInterval e) (e_storage e) (e_stateFactory e).
Definition ToSink (e : StreamEnv) : StreamEnv :=
  mkEnv (e_hasSource e) (e_operators e) true (e_shutdownTimeout e) (e_edgeCapacity e) (e_checkpointInterval e) (e_storage e) (e_stateFactory e).

(** ** Stream methods *)

Definition append_op (o : SOp) (e : StreamEnv) : StreamEnv := set_ops (e_operators e ++ [o]) e.
Definition Map_ (fn : Rec -> Rec) (label : list string) : StreamEnv -> StreamEnv := append_op (SSingle (MapOperator 0 fn) (labelled label)).
Definition FlatMap_ (fn : Rec -> list Rec) (label : list string) : StreamEnv -> StreamEnv := append_op (SSingle (FlatMapOperator 0 fn) (labelled label)).
Definition Process_ (op : ProcessOperator) : StreamEnv -> StreamEnv := append_op (SSingle (ProcOperator 0 op) (proc_Label op)).
Definition Filter_ (fn : Rec -> bool) (label : list string) : StreamEnv -> StreamEnv := append_op (SSingle (FilterOperator 0 fn) (labelled label)).
Definition KeyBy_ (fn : Rec -> slice) (label : list string) : StreamEnv -> StreamEnv := append_op (SKeyBy (KeyBy fn) (labelled label)).
Definition Reduce_ (fn : ReduceFn) (label : list string) : StreamEnv -> StreamEnv := append_op (SReduce fn (labelled label)).
Definition Window_ (a : Assigner) (label : list string) : StreamEnv -> StreamEnv := append_op (SWindow a 0 None (labelled label)).
Definition WindowWithIdleTimeout (a : Assigner) (idle : Z) (label : list string) : StreamEnv -> StreamEnv := append_op (SWindow a idle None (labelled label)).
Definition WindowReduce (a : Assigner) (fn : ReduceFn) (label : list string) : StreamEnv -> StreamEnv := append_op (SWindow a 0 (Some fn) (labelled label)).
Definition WindowReduceWithIdleTimeout (a : Assigner) (fn : ReduceFn) (idle : Z) (label : list string) : StreamEnv -> StreamEnv :=
  append_op (SWindow a idle (Some fn) (labelled label)).

(** A setter of the operator added last; nothing without one, or when it is of
    another kind. *)
Definition on_last (f : SOp -> SOp) (e : StreamEnv) : StreamEnv :=
  match last (e_operators e) with
  | None => e
  | Some o => set_ops (removelast (e_operators e) ++ [f o]) e
  end.
Definition WithPartitions_ (n : Z) : StreamEnv -> StreamEnv := on_last (λ o, match o with SKeyBy kb l => SKeyBy (WithPartitions n kb) l | o => o end).
Definition WithParallelism (n : Z) : StreamEnv -> StreamEnv := on_last (λ o, match o with SSingle sp l => SSingle (SetParallelism n sp) l | o => o end).

(** ** What Execute plans *)

Definition operatorLabels (e : StreamEnv) : list string :=
  imap (λ i o, if bool_decide (GetLabel o = EmptyString) then op_Name (op_planned i o) else GetLabel o) (e_operators e).
Definition plan_config (h : StageHooks) (e : StreamEnv) : PlanConfig :=
  mkPlanCfg (e_hasSource e) (imap op_planned (e_operators e)) (operatorLabels e) (e_hasSink e) h.

(** ** Programs that build a pipeline *)

Inductive Call : Type :=
| CallMap (fn : Rec -> Rec) (label : list string)
| CallFlatMap (fn : Rec -> list Rec) (label : list string)
| CallProcess (op : ProcessOperator)
| CallFilter (fn : Rec -> bool) (label : list string)
| CallKeyBy (fn : Rec -> slice) (label : list string)
| CallReduce (fn : ReduceFn) (label : list string)
| CallWindow (a : Assigner) (idle : option Z) (fn : option ReduceFn) (label : list string)
| CallWithPartitions (n : Z)
| CallWithParallelism (n : Z).
Definition do_call (c : Call) : StreamEnv -> StreamEnv :=
  match c with
  | CallMap fn l => Map_ fn l
  | CallFlatMap fn l => FlatMap_ fn l
  | CallProcess op => Process_ op
  | CallFilter fn l => Filter_ fn l
  | CallKeyBy fn l => KeyBy_ fn l
  | CallReduce fn l => Reduce_ fn l
  | CallWindow a None None l => Window_ a l
  | CallWindow a (Some d) None l => WindowWithIdleTimeout a d l
  | CallWindow a None (Some fn) l => WindowReduce a fn l
  | CallWindow a (Some d) (Some fn) l => WindowReduceWithIdleTimeout a fn d l
  | CallWithPartitions n => WithPartitions_ n
  | CallWithParallelism n => WithParallelism n
  end.
Definition build (calls : list Call) (e : StreamEnv) : StreamEnv := foldl (λ e c, do_call c e) e calls.
Definition call_ok (c : Call) : Prop := match c with CallWithPartitions n => 0 < n | _ => True end.
Definition appends (c : Call) : bool := match c with CallWithPartitions _ | CallWithParallelism _ => false | _ => true end.

Definition sop_ok (o : SOp) : Prop := match o with SKeyBy kb _ => 0 < Partitions kb | _ => True end.
Lemma on_last_ops f e : e_operators (on_last f e) = match last (e_operators e) with None => [] | Some o => removelast (e_operators e) ++ [f o] end.
Proof. unfold on_last. destruct (last (e_operators e)) eqn:E; [done|]. by apply last_None in E. Qed.
Lemma on_last_ok f e : (forall o, sop_ok o -> sop_ok (f o)) -> Forall sop_ok (e_operators e) ->
  Forall sop_ok (e_operators (on_last f e)) /\ length (e_operators (on_last f e)) = length (e_operators e) /\ e_hasSource (on_last f e) = e_hasSource e.
Proof.
  intros Hf Hall. rewrite on_last_ops. unfold on_last. induction (e_operators e) as [|o ops _] using rev_ind; [done|].
  rewrite last_snoc, removelast_last, !length_app. apply Forall_app in Hall as [H1 H2]. inversion H2; subst. split; [|done].
  apply Forall_app. split; [done|]. repeat constructor. by apply Hf.
Qed.
Lemma build_ok calls : forall e, Forall call_ok calls -> Forall sop_ok (e_operators e) ->
  Forall sop_ok (e_operators (build calls e)) /\ e_hasSource (build calls e) = e_hasSource e /\
  length (e_operators (build calls e)) = (length (e_operators e) + length (List.filter appends calls))%nat.
Proof.
  induction calls as [|c calls IH]; intros e Hc Hall; [by rewrite Nat.add_0_r|]. inversion Hc as [|? ? H1 H2]; subst. cbn [build foldl]. fold (build calls).
  assert (Ha : forall o, sop_ok o -> Forall sop_ok (e_operators (append_op o e)) /\ length (e_operators (append_op o e)) = S (length (e_operators e)) /\ e_hasSource (append_op o e) = e_hasSource e).
  { intros o Ho. cbn. split; [apply Forall_app; by repeat constructor|]. split; [rewrite length_app; cbn; lia|done]. }
  assert (Hs : Forall sop_ok (e_operators (do_call c e)) /\ length (e_operators (do_call c e)) = (length (e_operators e) + (if appends c then 1 else 0))%nat /\
    e_hasSource (do_call c e) = e_hasSource e).
  { destruct c as [| | | | | |a [d|] [fn|] l|n|n]; cbn [do_call appends]; rewrite ?Nat.add_1_r, ?Nat.add_0_r; try (apply Ha; done || (vm_compute; reflexivity)).
    - apply on_last_ok; [|done]. intros [] Ho; cbn in *; done.
    - apply on_last_ok; [|done]. intros [] Ho; cbn in *; done. }
  destruct Hs as (S1 & S2 & S3). destruct (IH (do_call c e) H2 S1) as (I1 & I2 & I3). unfold build in *. split_and!; [done|congruence|].
  rewrite I3, S2. cbn [List.filter]. destruct (appends c); cbn [length]; lia.
Qed.
Lemma imap_keyby_ok ops : Forall sop_ok ops -> forallb keyby_ok (imap op_planned ops) = true.
Proof.
  intros H. apply forallb_forall. intros x Hx. apply list_elem_of_In, elem_of_lookup_imap in Hx as (i & o & -> & Hi).
  rewrite Forall_lookup in H. specialize (H _ _ Hi). destruct o; cbn in *; try done. by apply Z.ltb_lt.
Qed.

(** Every pipeline the fluent API builds can be planned.  Whatever methods
    are called in whatever order between a source and a sink, as long as
    partition counts are positive and opening a state backend does not fail, the
    planner accepts the operators, one for each call that adds one, in call
    order, with a label each. *)
Theorem fluent_pipeline_plans (calls : list Call) (h : StageHooks) :
  Forall call_ok calls -> hooks_total h ->
  let e := ToSink (build calls (FromSource NewEnv)) in
  length (e_operators e) = length (List.filter appends calls) /\ length (operatorLabels e) = length (e_operators e) /\
  exists sts, BuildPlan (plan_config h e) = Ok sts.
Proof.
  intros Hc Hh e. destruct (build_ok calls (FromSource NewEnv) Hc (Forall_nil_2 _)) as (H1 & H2 & H3).
  split; [exact H3|]. split; [unfold operatorLabels; by rewrite length_imap|].
  pose proof (plan_fails_exactly (plan_config h e) Hh) as Hp. cbn [plan_config hasSource hasSink cfgLabels Planner.Operators hooks] in Hp.
  unfold operatorLabels in Hp. rewrite !length_imap, bool_decide_true, imap_keyby_ok in Hp by done.
  change (e_hasSource e) with (e_hasSource (build calls (FromSource NewEnv))) in Hp. rewrite H2 in Hp. cbn in Hp.
  destruct (BuildPlan (plan_config h e)); [eauto|done].
Qed.

Definition fluent_demo : list Call := [
  CallFilter (λ r, bool_decide (Partition r = 0)) [];
  CallWithParallelism 4;
  CallMap (λ r, r) ["identity"];
  CallKeyBy Key ["by-key"];
  CallWithPartitions 8;
  CallWindow (NewTumbling Minute) (Some Second) None [];
  CallReduce (λ _ r, Value r) ["last"] ].
Lemma fluent_pipeline_plans_witness :
  operatorLabels (build fluent_demo (FromSource NewEnv)) = ["Filter"; "identity"; "by-key"; "Window"; "last"] /\
  exists sts, BuildPlan (plan_config open_hooks (ToSink (build fluent_demo (FromSource NewEnv)))) = Ok sts.
Proof.
  split; [vm_compute; reflexivity|]. apply (fluent_pipeline_plans fluent_demo open_hooks).
  - repeat constructor.
  - intros f o [= <-]. reflexivity.
Defined.

(** ** The workflow compiler as a client *)

(** The method calls the compiler makes for one operator. *)
Definition cop_calls (x : COp * bytes) : list Call :=
  let label := [label_text x.2] in
  match x.1 with
  | CFilter fn => [CallFilter fn label]
  | CMap fn => [CallMap (λ r, default r (fn r)) label]
  | CKeyBy fn n => [CallKeyBy fn label; CallWithPartitions n]
  | CReduce fn => [CallReduce fn label]
  | CWindow a idle => [CallWindow a idle None label]
  end.
Definition cop_sop (x : COp * bytes) : SOp :=
  let label := label_text x.2 in
  match x.1 with
  | CFilter fn => SSingle (FilterOperator 0 fn) label
  | CMap fn => SSingle (MapOperator 0 (λ r, default r (fn r))) label
  | CKeyBy fn n => SKeyBy (WithPartitions n (KeyBy fn)) label
  | CReduce fn => SReduce fn label
  | CWindow a idle => SWindow a (default 0 idle) None label
  end.
Lemma build_app c1 c2 e : build (c1 ++ c2) e = build c2 (build c1 e).
Proof. apply foldl_app. Qed.
Lemma build_cop x e : build (cop_calls x) e = append_op (cop_sop x) e.
Proof.
  destruct x as [[fn|fn|fn n|fn|a [d|]] id]; try reflexivity.
  cbn -[removelast last]. unfold WithPartitions_, on_last, KeyBy_, append_op. cbn [e_operators set_ops]. rewrite last_snoc, removelast_last. reflexivity.
Qed.
Lemma build_cops cs : forall e, build (mjoin (cop_calls <$> cs)) e = set_ops (e_operators e ++ (cop_sop <$> cs)) e.
Proof.
  induction cs as [|x cs IH]; intros e; cbn [fmap list_fmap mjoin list_join]; [rewrite app_nil_r; by destruct e|].
  rewrite build_app, IH, build_cop. cbn. by rewrite <- app_assoc.
Qed.
Lemma label_text_nonempty l : l <> [] -> label_text l <> EmptyString.
Proof. by destruct l. Qed.

(** The operators and labels the compiler is shown to produce are those its
    method calls leave in the environment, for operators that have an id. *)
Theorem compiled_operators_are_fluent (cs : list (COp * bytes)) (h : StageHooks) :
  Forall (λ x, x.2 <> []) cs ->
  plan_config h (ToSink (build (mjoin (cop_calls <$> cs)) (FromSource NewEnv))) =
  mkPlanCfg true (imap planned cs.*1) (label_text <$> cs.*2) true h.
Proof.
  intros Hids. unfold plan_config, operatorLabels, ToSink. cbn [e_hasSource e_operators e_hasSink]. rewrite build_cops. cbn [set_ops FromSource NewEnv e_hasSource e_operators app].
  f_equal.
  - rewrite !imap_fmap. apply imap_ext. intros i [c id] _. by destruct c as [| | | |a [d|]].
  - rewrite imap_fmap, <- list_fmap_compose.
    assert (H : forall (g : nat -> COp * bytes -> string), (forall i x, x.2 <> [] -> g i x = label_text x.2) -> imap g cs = (λ x, label_text x.2) <$> cs).
    { induction Hids as [|x cs Hx _ IH]; intros g Hg; cbn; [done|]. rewrite Hg by done. f_equal. apply IH. intros; by apply Hg. }
    apply H. intros i [c id] Hid. cbn in Hid. apply label_text_nonempty in Hid. cbn.
    destruct c as [| | | |a [d|]]; cbn; by rewrite bool_decide_false.
Qed.
