(* ===== verification/Describe.v ===== *)
(** * Descriptions of sources, operators, sinks and pipelines

    What the dashboard shows of a pipeline (metadata.go), put together from the
    [Describe] methods of the sources and sinks and the [DescribeOp] methods of
    the operators.  Credentials are configured next to what is shown; the main
    theorem says that none of them has an influence on a description. *)
From S2P Require Import Prelude Paths GoTime Strconv Types Window Json Duration Operators Planner Batch KafkaOptions SinkOptions Fluent.
From S2P Require TxnSink.

Definition Props : Type := gmap bytes bytes.
Record Info : Type := mkInfo { inf_Type : bytes; inf_Props : Props }.
Definition mechanism_text (m : SASLMechanism) : bytes :=
  match m with SASLPlain => b "PLAIN" | SASLScramSHA256 => b "SCRAM-SHA-256" | SASLScramSHA512 => b "SCRAM-SHA-512" | SASLOther name => name end.
(** [if cond { props[key] = value }]. *)
Definition prop_if (cond : bool) (key : string) (value : bytes) (p : Props) : Props := if cond then <[b key := value]> p else p.
Definition prop (key : string) (value : bytes) : Props -> Props := <[b key := value]>.
Definition formatBool (x : bool) : bytes := if x then b "true" else b "false".
(** The SASL mechanism and whether TLS is on. *)
Definition auth_props (sasl : option SASLConfig) (tls : option TLSConfig) (p : Props) : Props :=
  let p := match sasl with Some s => prop "sasl" (mechanism_text (sc_Mechanism s)) p | None => p end in
  match tls with Some _ => prop "tls" (b "enabled") p | None => p end.

(** ** URLs *)

(** A URL as the standard library parses and prints it; [url_base] is everything
    but the user information and the query. *)
Record URL : Type := mkURL { url_base : bytes; url_User : option bytes; url_RawQuery : bytes }.
Class URLText : Type := { url_Parse : bytes -> result URL; url_String : URL -> bytes }.

Section Describe.
Context `{UT : URLText}.
(** The Go type of a (de)serializer, printed by [%T]. *)
Variable deserType : Deserializer -> bytes.
Variable serType : Serializer -> bytes.

Definition redactURL (raw : bytes) : bytes :=
  match url_Parse raw with
  | Err _ => b "(unparseable url)"
  | Ok u => url_String (mkURL (url_base u) None (if isE (url_RawQuery u) then [] else b "(redacted)"))
  end.

(** ** Sources *)

Definition describe_kafka_source (c : kafkaSourceConfig) : Info :=
  let p := prop "brokers" (join (b ",") (kc_brokers c)) ∅ in
  let p := prop_if (negb (bool_decide (kc_topics c = []))) "topics" (join (b ",") (kc_topics c)) p in
  let p := prop_if (negb (isE (kc_topic c))) "topic" (kc_topic c) p in
  let p := prop_if (negb (isE (kc_groupID c))) "group_id" (kc_groupID c) p in
  let p := prop "offset" (Display (kc_offsetSpec c)) p in
  let p := prop_if (0 <? kc_outOfOrderness c) "watermark_out_of_orderness" (Duration_String (kc_outOfOrderness c)) p in
  let p := match kc_deserializer c with Some d => prop "deserializer" (deserType d) p | None => p end in
  let p := prop_if (0 <? kc_commitBatch c) "commit_batch" (dec_ (kc_commitBatch c)) p in
  mkInfo (b "Kafka") (auth_props (kc_sasl c) (kc_tls c) p).
Definition describe_slice_source (records : list Rec) : Info :=
  mkInfo (b "Slice") (prop "records" (dec_ (Z.of_nat (length records))) ∅).

(** ** Sinks *)

Definition describe_http (c : httpConfig) : Info :=
  mkInfo (b "HTTP")
    (prop "url" (redactURL (hc_url c)) (prop "method" (hc_method c) (prop "format" (format_Display (hc_format c))
    (prop "batch_size" (dec_ (hc_batchSize c)) (prop "flush_interval" (Duration_String (hc_flushInterval c))
    (prop "timeout" (Duration_String (hc_timeout c)) (prop "max_retries" (dec_ (hc_maxRetries c)) ∅))))))).
Definition describe_s3 (c : s3Config) : Info :=
  let p := prop "bucket" (s3c_bucket c) (prop "prefix" (s3c_prefix c) (prop "batch_size" (dec_ (s3c_batchSize c))
    (prop "flush_interval" (Duration_String (s3c_flushInterval c)) (prop "gzip" (formatBool (s3c_gzip c))
    (prop "max_attempts" (dec_ (s3c_maxAttempts c)) ∅))))) in
  let p := prop_if (negb (isE (s3c_region c))) "region" (s3c_region c) p in
  mkInfo (b "S3") (prop_if (negb (isE (s3c_endpoint c))) "endpoint" (s3c_endpoint c) p).
Definition describe_kafka_sink (c : kafkaOutConfig) : Info :=
  let p := prop "brokers" (join (b ",") (kkc_brokers c)) (prop "topic" (kkc_topic c) ∅) in
  let p := prop "acks" (acks_Display (kkc_acks c)) (prop "batch_timeout" (Duration_String (kkc_batchTimeout c)) (prop "batch_size" (dec_ (kkc_batchSize c)) p)) in
  let p := prop_if (kkc_async c) "async" (b "true") p in
  let p := match kkc_serializer c with Some s => prop "serializer" (serType s) p | None => p end in
  mkInfo (b "Kafka") (auth_props (kkc_sasl c) (kkc_tls c) p).
(** The configuration after the constructor has filled in the marker topic. *)
Definition describe_txn (c : txnConfig) : Info :=
  mkInfo (b "TxnKafka") (auth_props (tc_sasl c) (tc_tls c)
    (prop "topic" (tc_topic c) (prop "marker_topic" (tc_markerTopic c) (prop "txn_id" (tc_txnID c) (prop "exactly_once" (b "true") ∅))))).
Definition describe_postgres (c : pgConfig) : Info :=
  mkInfo (b "Postgres") (prop "batch_size" (dec_ (pgc_batchSize c)) (prop "flush_interval" (Duration_String (pgc_flushInterval c))
    (prop "max_retries" (dec_ (pgc_maxRetries c)) ∅))).
Definition describe_stdout : Info := mkInfo (b "Stdout") ∅.

(** ** Operators *)

Definition tumbling_Name (size offset : Z) : bytes :=
  if negb (offset =? 0) then b "Tumbling(" ++ Duration_String size ++ b " offset=" ++ Duration_String offset ++ b ")"
  else b "Tumbling(" ++ Duration_String size ++ b ")".
Definition sliding_Name (size slide : Z) : bytes := b "Sliding(" ++ Duration_String size ++ b " slide=" ++ Duration_String slide ++ b ")".
Definition session_Name (gap : Z) : bytes := b "Session(" ++ Duration_String gap ++ b " gap)".
Definition window_Name (a : Assigner) : bytes :=
  match a with Tumbling size offset => tumbling_Name size offset | Sliding size slide _ => sliding_Name size slide | Session gap => session_Name gap end.
Record OperatorInfo : Type := mkOI { oi_Type : string; oi_Label : string; oi_Config : option Props }.
Definition keyby_Config (kb : KeyByOperator) : Props := prop "partitions" (dec_ (Partitions kb)) ∅.
Definition window_Config (a : Assigner) (idle : Z) (reducer : option ReduceFn) : Props :=
  let p := prop "type" (window_Name a) ∅ in
  let p := prop_if (0 <? idle) "idle_timeout" (Duration_String idle) p in
  prop_if (bool_decide (is_Some reducer)) "reduce" (b "true") p.
(** The [Config] of [DescribeOp]; operators without one leave the map nil. *)
Definition DescribeOp_Config (o : SOp) : option Props :=
  match o with SKeyBy kb _ => Some (keyby_Config kb) | SWindow a idle reducer _ => Some (window_Config a idle reducer) | _ => None end.
Definition operator_info (i : nat) (o : SOp) : OperatorInfo := mkOI (op_Name (op_planned i o)) (GetLabel o) (DescribeOp_Config o).

(** ** Pipelines *)

Inductive ASource : Type := KafkaSrc (c : kafkaSourceConfig) | SliceSrc (records : list Rec) | OtherSrc.
Inductive ASink : Type :=
| HTTPOut (c : httpConfig) | S3Out (c : s3Config) | KafkaOut (c : kafkaOutConfig) | TxnOut (c : txnConfig) | PgOut (c : pgConfig) | StdoutOut | OtherOut.
Definition unknownInfo : Info := mkInfo (b "Unknown") ∅.
Definition source_Describe (s : ASource) : Info :=
  match s with KafkaSrc c => describe_kafka_source c | SliceSrc rs => describe_slice_source rs | OtherSrc => unknownInfo end.
Definition sink_Describe (s : ASink) : Info :=
  match s with
  | HTTPOut c => describe_http c | S3Out c => describe_s3 c | KafkaOut c => describe_kafka_sink c | TxnOut c => describe_txn c
  | PgOut c => describe_postgres c | StdoutOut => describe_stdout | OtherOut => unknownInfo
  end.
Record CheckpointInfo : Type := mkCI { ci_Interval : bytes; ci_Storage : bytes }.
Record PipelineInfo : Type := mkPI { pi_Source : Info; pi_Operators : list OperatorInfo; pi_Sink : Info; pi_Checkpoint : option CheckpointInfo }.
(** [e_storage] is the Go type of the storage; a nil one prints as [<nil>]. *)
Definition Describe (src : ASource) (snk : ASink) (e : StreamEnv) : PipelineInfo :=
  mkPI (source_Describe src) (imap operator_info (e_operators e)) (sink_Describe snk)
    (if 0 <? e_checkpointInterval e then Some (mkCI (Duration_String (e_checkpointInterval e)) (default (b "<nil>") (e_storage e))) else None).

(** ** Credentials are not described *)

(** The same mechanism with other user and password. *)
Definition same_sasl (a a' : option SASLConfig) : Prop := sc_Mechanism <$> a = sc_Mechanism <$> a'.
(** TLS on with other files, or off in both. *)
Definition same_tls (a a' : option TLSConfig) : Prop := is_Some a <-> is_Some a'.
(** Two addresses that differ in user information and in the text of a query. *)
Definition same_url (raw raw' : bytes) : Prop :=
  match url_Parse raw, url_Parse raw' with
  | Ok u, Ok u' => url_base u = url_base u' /\ (url_RawQuery u = [] <-> url_RawQuery u' = [])
  | Err _, Err _ => True
  | _, _ => False
  end.
Definition kafka_source_auth (sasl : option SASLConfig) (tls : option TLSConfig) (c : kafkaSourceConfig) : kafkaSourceConfig :=
  mkKSC (kc_brokers c) (kc_topic c) (kc_topics c) (kc_groupID c) (kc_minBytes c) (kc_maxBytes c) (kc_offsetSpec c) (kc_commitBatch c) sasl tls
  (kc_outOfOrderness c) (kc_watermarkInterval c) (kc_deserializer c) (kc_deserFailPolicy c) (kc_deserDLQ c) (kc_fetchMaxRetries c)
  (kc_commitMaxRetries c) (kc_commitFailPolicy c) (kc_parallel c) (kc_watchPartitions c) (kc_exactlyOnce c).
Inductive same_source : ASource -> ASource -> Prop :=
| ss_kafka c sasl tls : same_sasl (kc_sasl c) sasl -> same_tls (kc_tls c) tls -> same_source (KafkaSrc c) (KafkaSrc (kafka_source_auth sasl tls c))
| ss_refl s : same_source s s.
Inductive same_sink : ASink -> ASink -> Prop :=
| sk_http c url headers client : same_url (hc_url c) url ->
    same_sink (HTTPOut c) (HTTPOut (mkHC url (hc_method c) headers (hc_format c) (hc_encoder c) (hc_serializer c) (hc_batchSize c) (hc_flushInterval c)
      (hc_timeout c) (hc_maxRetries c) client (hc_failurePolicy c) (hc_dlq c)))
| sk_s3 c ak sk st client : same_sink (S3Out c) (S3Out (mkS3C (s3c_bucket c) (s3c_region c) (s3c_prefix c) (s3c_endpoint c) (s3c_pathStyle c) ak sk st
      (s3c_serializer c) (s3c_keyFunc c) (s3c_gzip c) (s3c_batchSize c) (s3c_flushInterval c) (s3c_maxAttempts c) client (s3c_failurePolicy c) (s3c_dlq c)))
| sk_kafka c sasl tls : same_sasl (kkc_sasl c) sasl -> same_tls (kkc_tls c) tls ->
    same_sink (KafkaOut c) (KafkaOut (mkKKC (kkc_brokers c) (kkc_topic c) (kkc_batchSize c) (kkc_batchTimeout c) (kkc_acks c) (kkc_acksSet c) (kkc_async c)
      sasl tls (kkc_serializer c) (kkc_failurePolicy c) (kkc_dlq c) (kkc_maxRetries c)))
| sk_txn c sasl tls : same_sasl (tc_sasl c) sasl -> same_tls (tc_tls c) tls ->
    same_sink (TxnOut c) (TxnOut (mkTC (tc_brokers c) (tc_topic c) (tc_txnID c) (tc_markerTopic c) (tc_serializer c) sasl tls))
| sk_pg c dsn : same_sink (PgOut c) (PgOut (mkPGC dsn (pgc_mapper c) (pgc_batchSize c) (pgc_flushInterval c) (pgc_maxRetries c) (pgc_mode c)
      (pgc_conflictCols c) (pgc_updateCols c) (pgc_failurePolicy c) (pgc_dlq c)))
| sk_refl s : same_sink s s.

Lemma auth_props_same sasl sasl' tls tls' p : same_sasl sasl sasl' -> same_tls tls tls' -> auth_props sasl tls p = auth_props sasl' tls' p.
Proof.
  unfold same_sasl, same_tls, auth_props. intros Hs [H1 H2]. destruct sasl, sasl'; cbn in Hs; simplify_eq/=; rewrite ?Hs;
    destruct tls as [t|], tls' as [t'|]; try done; [by destruct (H1 ltac:(eauto))|by destruct (H2 ltac:(eauto))|
      by destruct (H1 ltac:(eauto))|by destruct (H2 ltac:(eauto))].
Qed.
Lemma redactURL_same raw raw' : same_url raw raw' -> redactURL raw = redactURL raw'.
Proof.
  unfold same_url, redactURL. destruct (url_Parse raw) as [u|], (url_Parse raw') as [u'|]; try done. intros [-> Hq]. unfold isE.
  do 2 f_equal. destruct (decide (url_RawQuery u = [])) as [E|E]; [rewrite !bool_decide_true by tauto|rewrite !bool_decide_false by tauto]; done.
Qed.

(** C39: no credential shows.  Two pipelines that differ only in their secrets
    (SASL user and password, TLS files, HTTP headers, user information and query
    of the address, S3 keys, database address) have the same description. *)
Theorem describe_hides_credentials src src' snk snk' e :
  same_source src src' -> same_sink snk snk' -> Describe src snk e = Describe src' snk' e.
Proof.
  intros Hs Hk. unfold Describe. f_equal.
  - destruct Hs as [c sasl tls H1 H2|]; [|done]. unfold source_Describe, describe_kafka_source. cbn. f_equal. by apply auth_props_same.
  - destruct Hk as [c url headers client Hu|c|c sasl tls H1 H2|c sasl tls H1 H2|c|]; cbn; try done.
    + unfold describe_http. cbn. by rewrite (redactURL_same _ _ Hu).
    + unfold describe_kafka_sink. cbn. f_equal. by apply auth_props_same.
    + unfold describe_txn. cbn. f_equal. by apply auth_props_same.
Qed.
End Describe.

(** A toy URL syntax: user information up to an at sign, the query after a
    question mark. *)
Fixpoint cut_at (c : ascii) (l : bytes) : option (bytes * bytes) :=
  match l with
  | [] => None
  | x :: l => if decide (x = c) then Some ([], l) else '(h, t) ← cut_at c l; Some (x :: h, t)
  end.
Definition toyURL : URLText := {|
  url_Parse raw :=
    let '(user, rest) := match cut_at "@"%char raw with Some (u, r) => (Some u, r) | None => (None, raw) end in
    let '(base, query) := match cut_at "?"%char rest with Some x => x | None => (rest, []) end in
    Ok (mkURL base user query);
  url_String u :=
    match url_User u with Some x => x ++ b "@" | None => [] end ++ url_base u ++ match url_RawQuery u with [] => [] | q => b "?" ++ q end |}.

Definition demo_source (password : bytes) : ASource :=
  KafkaSrc (kafka_source_auth (Some (mkSASLConfig SASLPlain (b "svc") password)) None (ksc_applyDefaults zeroConfig)).
Definition demo_sink (url token : bytes) : ASink :=
  HTTPOut (httpConfig_applyDefaults (λ r, Ok (str (Value r))) (HTTPBearerToken token (HTTPURL url httpConfig_zero))).
Lemma describe_hides_credentials_witness :
  let D pw url token := Describe (UT := toyURL) (λ _, []) (λ _, []) (demo_source pw) (demo_sink url token) NewEnv in
  D (b "hunter2") (b "me:secret@host/in?key=1") (b "t1") = D (b "other") (b "host/in?key=2") (b "t2") /\
  inf_Props (pi_Sink (D (b "hunter2") (b "me:secret@host/in?key=1") (b "t1"))) !! b "url" = Some (b "host/in?(redacted)").
Proof.
  split; [|vm_compute; reflexivity].
  apply (describe_hides_credentials (UT := toyURL) (λ _, []) (λ _, [])).
  - apply (ss_kafka (kafka_source_auth (Some (mkSASLConfig SASLPlain (b "svc") (b "hunter2"))) None (ksc_applyDefaults zeroConfig))); [reflexivity|done].
  - apply (sk_http (UT := toyURL) (httpConfig_applyDefaults (λ r, Ok (str (Value r))) (HTTPBearerToken (b "t1") (HTTPURL (b "me:secret@host/in?key=1") httpConfig_zero)))).
    vm_compute. done.
Defined.
