(* ===== verification/Ends.v ===== *)
(** * Package workflow/compiler: sources and sinks (source.go, sink.go)

    What a document's two ends become: the configuration each constructor is
    given, with the checks on the way, and the mapper from records to Postgres
    rows.  Texts are compared without case on ASCII. *)
From S2P Require Import Prelude Paths GoTime Strconv Types Json Fields BuiltinOps Workflow Operators Planner Compile CompileProofs Batch Coordinator EngineState Execute Source KafkaOptions KafkaRun.
From S2P Require Postgres.

(** ** Shared settings *)

Definition lower (s : bytes) : bytes := (λ c, if (65 <=? byteZ c) && (byteZ c <=? 90) then Zbyte (byteZ c + 32) else c) <$> s.
Definition upper (s : bytes) : bytes := (λ c, if (97 <=? byteZ c) && (byteZ c <=? 122) then Zbyte (byteZ c - 32) else c) <$> s.

Definition compileSASL (s : SASLSpec) : result SASLConfig :=
  if strings_Contains (Username s) (b "${") then Err "compiler: SASL username contains an unresolved secret reference"
  else if strings_Contains (Password s) (b "${") then Err "compiler: SASL password contains an unresolved secret reference"
  else
    let m := upper (TrimSpace (Mechanism s)) in
    let cfg mech := Ok (mkSASLConfig mech (Username s) (Password s)) in
    if eqs m "PLAIN" then cfg SASLPlain
    else if eqs m "SCRAM-SHA-256" then cfg SASLScramSHA256
    else if eqs m "SCRAM-SHA-512" then cfg SASLScramSHA512
    else Err "compiler: unsupported SASL mechanism".
Definition compileSASLOpt (s : option SASLSpec) : result (option SASLConfig) :=
  match s with None => Ok None | Some s => c ← compileSASL s; Ok (Some c) end.
Definition compileTLS (t : TLSSpec) : TLSConfig := mkTLSConfig (CertFile t) (KeyFile t) (CAFile t) (InsecureSkipVerify t).
Definition when_pos (n : Z) : option Z := if 0 <? n then Some n else None.

(** ** Sources *)

Section Sources.
Context `{OT : ObjectText}.

Definition DeserializeJSON (data : slice) (_ : gmap bytes slice) : result any := d ← decodeJSONBytes (str data); Ok (as_any d).
Definition compileDeserializer (format : bytes) : result (option Deserializer) :=
  let f := lower format in
  if isE f then Ok None else if eqs f "json" then Ok (Some DeserializeJSON) else Err "compiler: unknown deserialize format".
Definition compileStartFrom (s : bytes) : result Z :=
  let f := lower s in
  if isE f || eqs f "earliest" then Ok OffsetEarliest else if eqs f "latest" then Ok OffsetLatest else Err "compiler: unknown startFrom".
(** Options that are appended on a condition, or for a setting that is there. *)
Definition opt_if (cond : bool) (o : KafkaSourceOption) : list KafkaSourceOption := if cond then [o] else [].
Definition opt_for {A} (x : option A) (o : A -> KafkaSourceOption) : list KafkaSourceOption := match x with Some a => [o a] | None => [] end.
Definition compileWatermark (w : option WatermarkSpec) : result (list KafkaSourceOption) :=
  match w with
  | None => Ok []
  | Some w =>
      if MaxOutOfOrderness w <=? 0 then Err "compiler: watermark maxOutOfOrderness must be greater than zero"
      else Ok (KafkaWithWatermarks (MaxOutOfOrderness w) :: opt_if (0 <? wm_Interval w) (KafkaWatermarkInterval (wm_Interval w)))
  end.
Definition kafka_opts (k : KafkaSourceSpec) (start : Z) (des : option Deserializer) (wm : list KafkaSourceOption) (sasl : option SASLConfig) : list KafkaSourceOption :=
  [KafkaBrokers (ks_Brokers k); KafkaGroupID (ks_GroupID k)] ++
  opt_if (negb (isE (ks_Topic k))) (KafkaTopic (ks_Topic k)) ++
  opt_if (negb (none (ks_Topics k))) (KafkaTopics (ks_Topics k)) ++
  [KafkaStartFrom start] ++
  opt_for des KafkaDeserialize ++
  opt_if (ks_ExactlyOnce k) KafkaExactlyOnce ++
  opt_if (0 <? ks_CommitBatch k) (KafkaCommitBatch (ks_CommitBatch k)) ++
  opt_if ((0 <? ks_FetchMinBytes k) || (0 <? ks_FetchMaxBytes k)) (KafkaFetchBytes (ks_FetchMinBytes k) (ks_FetchMaxBytes k)) ++
  wm ++ opt_for sasl KafkaSASL ++ opt_for (ks_TLS k) (λ t, KafkaTLS (compileTLS t)).
(** Compiling dials no broker. *)
Definition no_dial (_ : bytes) : result unit := Err "not dialled".
Definition no_partitions (_ _ : bytes) : result (list Z) := Err "not dialled".
Definition compileKafkaSource (k : option KafkaSourceSpec) : result KSource :=
  match k with
  | None => Err "compiler: kafka source configuration is required"
  | Some k =>
      if none (ks_Brokers k) then Err "compiler: kafka source requires at least one broker"
      else if isE (ks_Topic k) && none (ks_Topics k) then Err "compiler: kafka source requires a topic or topics"
      else if ks_Parallel k then Err "compiler: parallel kafka sources are not supported declaratively"
      else if isE (ks_GroupID k) then Err "compiler: kafka source requires a groupID (consumer-group mode)"
      else
        start ← compileStartFrom (ks_StartFrom k);
        des ← compileDeserializer (ks_Deserialize k);
        wm ← compileWatermark (ks_Watermark k);
        sasl ← compileSASLOpt (ks_SASL k);
        NewKafkaSource no_dial no_partitions (kafka_opts k start des wm sasl)
  end.
Definition compileRecords (recs : list RecordSpec) : list (bytes * bytes) := (λ r, (rs_Key r, rs_Value r)) <$> recs.

Inductive CSource : Type := CKafka (src : KSource) | CSlice (recs : list (bytes * bytes)) | CGenerator (recs : list (bytes * bytes)).
Definition CompileSource (spec : SourceSpec) : result CSource :=
  if isE (src_Type spec) then Err "compiler: source type is required"
  else if eqs (src_Type spec) "kafka" then CKafka <$> compileKafkaSource (src_Kafka spec)
  else if eqs (src_Type spec) "slice" then Ok (CSlice (compileRecords (src_Records spec)))
  else if eqs (src_Type spec) "generator" then Ok (CGenerator (compileRecords (src_Records spec)))
  else Err "compiler: unsupported source type".
End Sources.

(** ** Sinks *)

Inductive AcksLevel : Type := AcksNone | AcksLeader | AcksAll.
Definition compileAcks (acks : bytes) : result AcksLevel :=
  let a := lower acks in
  if isE a || eqs a "leader" || eqs a "one" then Ok AcksLeader
  else if eqs a "none" then Ok AcksNone else if eqs a "all" then Ok AcksAll else Err "compiler: unknown requiredAcks".
Definition compileSerializer (format : bytes) : result bool :=
  let f := lower format in
  if isE f then Ok false else if eqs f "json" then Ok true else Err "compiler: unknown serialize format".
Definition compileFailurePolicy (onError : bytes) : result FailurePolicy :=
  let p := lower onError in
  if isE p || eqs p "drop" then Ok FailurePolicyDrop
  else if eqs p "fail" then Ok FailurePolicyFail
  else if eqs p "dlq" then Err "compiler: onError dlq is not supported declaratively yet"
  else Err "compiler: unknown onError".

(** The options handed over; [None] leaves the constructor's default. *)
Record kafkaSinkConfig : Type := mkKSinkC {
  kk_brokers : list bytes; kk_topic : bytes; kk_batchSize : option Z; kk_batchTimeout : option Z; kk_acks : option AcksLevel;
  kk_async : bool; kk_json : bool; kk_maxRetries : option Z; kk_policy : FailurePolicy; kk_sasl : option SASLConfig; kk_tls : option TLSConfig;
}.
Definition compileKafkaSink (k : option KafkaSinkSpec) : result kafkaSinkConfig :=
  match k with
  | None => Err "compiler: kafka sink configuration is required"
  | Some k =>
      if none (sk_Brokers k) then Err "compiler: kafka sink requires at least one broker"
      else if isE (sk_Topic k) then Err "compiler: kafka sink requires a topic"
      else
        acks ← compileAcks (sk_Acks k);
        ser ← compileSerializer (sk_Serialize k);
        pol ← compileFailurePolicy (sk_OnError k);
        sasl ← compileSASLOpt (sk_SASL k);
        Ok (mkKSinkC (sk_Brokers k) (sk_Topic k) (when_pos (sk_BatchSize k)) (when_pos (sk_BatchTimeout k))
              (if isE (sk_Acks k) then None else Some acks) (sk_Async k) ser (when_pos (sk_MaxRetries k)) pol sasl (compileTLS <$> sk_TLS k))
  end.
Record txnSinkConfig : Type := mkTSC {
  ts_brokers : list bytes; ts_topic : bytes; ts_transactionalID : bytes; ts_markerTopic : option bytes; ts_json : bool;
  ts_sasl : option SASLConfig; ts_tls : option TLSConfig;
}.
Definition compileTxnKafkaSink (t : option TxnKafkaSinkSpec) : result txnSinkConfig :=
  match t with
  | None => Err "compiler: transactional kafka sink configuration is required"
  | Some t =>
      if none (tk_Brokers t) then Err "compiler: transactional kafka sink requires at least one broker"
      else if isE (tk_Topic t) then Err "compiler: transactional kafka sink requires a topic"
      else if isE (tk_TransactionalID t) then Err "compiler: transactional kafka sink requires a transactionalID"
      else
        ser ← compileSerializer (tk_Serialize t);
        sasl ← compileSASLOpt (tk_SASL t);
        Ok (mkTSC (tk_Brokers t) (tk_Topic t) (tk_TransactionalID t) (if isE (tk_MarkerTopic t) then None else Some (tk_MarkerTopic t))
              ser sasl (compileTLS <$> tk_TLS t))
  end.

(** *** Postgres *)

(** [columnRe] and [tableRe]: a word, or two joined by a dot. *)
Definition columnRe (s : bytes) : bool := match s with [] => false | c :: s => word_start c && forallb word_char s end.
Definition tableRe (s : bytes) : bool :=
  match split_on "."%char s with [t] => columnRe t | [sch; t] => columnRe sch && columnRe t | _ => false end.

(** A column value: a Go value, or the JSON bytes of an object or array. *)
Inductive pgval : Type := PGVal (v : any) | PGBytes (t : slice).

Section Postgres.
Context `{OT : ObjectText}.
Variable marshal : any -> result bytes.          (* json.Marshal *)

Definition coercePGValue (v : option any) : pgval :=
  match v with
  | None => PGVal AnyNil
  | Some (AnyNumber n) =>
      match ParseInt n with
      | Ok i => PGVal (AnyInt i)
      | Err _ => match ParseFloat n with Ok f => PGVal (AnyFloat f) | Err _ => PGVal (AnyString n) end
      end
  | Some ((AnyMap _ | AnyNilMap | AnySlice _) as v) => PGBytes (match marshal v with Ok t => Some t | Err _ => None end)
  | Some v => PGVal v
  end.

Definition col_le (x y : bytes * bytes) : Prop := bytes_le x.2 y.2.
#[export] Instance col_le_dec x y : Decision (col_le x y).
Proof. unfold col_le. apply _. Defined.
Definition pairs_of (mapping : gmap bytes bytes) : list (bytes * bytes) := merge_sort col_le (map_to_list mapping).
Definition mapRow (table : bytes) (pairs : list (bytes * bytes)) (r : Rec) : bytes * list bytes * list pgval :=
  let jr := match DecodeJSON r with Ok jr => jr | Err _ => None end in
  (table, pairs.*2, (λ p : bytes * bytes, coercePGValue (GetField jr p.1)) <$> pairs).
Definition BuildPostgresMapper (table : bytes) (mapping : gmap bytes bytes) : result (Rec -> bytes * list bytes * list pgval) :=
  if negb (tableRe table) then Err "compiler: unsafe postgres table name"
  else if existsb (λ p, isE p.1) (map_to_list mapping) then Err "compiler: postgres mapping has an empty field name"
  else if negb (forallb (λ p, columnRe p.2) (map_to_list mapping)) then Err "compiler: unsafe postgres column name"
  else Ok (mapRow table (pairs_of mapping)).

Definition compilePostgresMode (mode : bytes) : result Postgres.PostgresWriteMode :=
  if isE mode || eqs mode "insert" then Ok Postgres.PostgresInsert
  else if eqs mode "upsert" then Ok Postgres.PostgresUpsert else Err "compiler: unsupported postgres mode".
Definition validateColumnList (cols : list bytes) : result unit :=
  if forallb columnRe cols then Ok tt else Err "compiler: unsafe column".
Definition validatePostgresUpsertColumns (mapping : gmap bytes bytes) (conflictCols updateCols : list bytes) : result unit :=
  let mapped c := bool_decide (c ∈ (map_to_list mapping).*2) in
  if negb (forallb mapped conflictCols) then Err "compiler: postgres conflict column is not present in mapping"
  else if negb (forallb mapped updateCols) then Err "compiler: postgres update column is not present in mapping" else Ok tt.

Record postgresConfig : Type := mkPgc {
  pc_dsn : bytes; pc_mapper : Rec -> bytes * list bytes * list pgval; pc_mode : Postgres.PostgresWriteMode;
  pc_conflict : list bytes; pc_update : list bytes; pc_batchSize : option Z; pc_flushInterval : option Z; pc_maxRetries : option Z; pc_policy : FailurePolicy;
}.
Definition compilePostgresSink (p : option PostgresSinkSpec) : result postgresConfig :=
  match p with
  | None => Err "compiler: postgres sink configuration is required"
  | Some p =>
      if isE (pg_DSN p) then Err "compiler: postgres sink requires a dsn"
      else if strings_Contains (pg_DSN p) (b "${") then Err "compiler: postgres sink dsn contains an unresolved secret reference"
      else if isE (pg_Table p) then Err "compiler: postgres sink requires a table"
      else if negb (tableRe (pg_Table p)) then Err "compiler: unsafe postgres table name"
      else if bool_decide (pg_Mapping p = ∅) then Err "compiler: postgres sink requires a non-empty mapping"
      else
        mode ← compilePostgresMode (pg_Mode p);
        _ ← validateColumnList (pg_ConflictColumns p);
        _ ← validateColumnList (pg_UpdateColumns p);
        if Postgres.is_upsert mode && none (pg_ConflictColumns p) then Err "compiler: postgres upsert requires at least one conflict column"
        else if negb (Postgres.is_upsert mode) && (negb (none (pg_ConflictColumns p)) || negb (none (pg_UpdateColumns p)))
        then Err "compiler: postgres conflict/update columns require upsert mode"
        else
          _ ← validatePostgresUpsertColumns (pg_Mapping p) (pg_ConflictColumns p) (pg_UpdateColumns p);
          mapper ← BuildPostgresMapper (pg_Table p) (pg_Mapping p);
          pol ← compileFailurePolicy (pg_OnError p);
          Ok (mkPgc (pg_DSN p) mapper mode (pg_ConflictColumns p) (pg_UpdateColumns p) (when_pos (pg_BatchSize p))
                (when_pos (pg_FlushInterval p)) (when_pos (pg_MaxRetries p)) pol)
  end.

Inductive CSink : Type := SKafka (c : kafkaSinkConfig) | STxnKafka (c : txnSinkConfig) | SPostgres (c : postgresConfig) | SStdout | SBlackhole.
Definition CompileSink (spec : SinkSpec) : result CSink :=
  if isE (sink_Type spec) then Err "compiler: sink type is required"
  else if eqs (sink_Type spec) "kafka" then SKafka <$> compileKafkaSink (sink_Kafka spec)
  else if eqs (sink_Type spec) "txnKafka" || eqs (sink_Type spec) "transactional_kafka" then STxnKafka <$> compileTxnKafkaSink (sink_TxnKafka spec)
  else if eqs (sink_Type spec) "postgres" then SPostgres <$> compilePostgresSink (sink_Postgres spec)
  else if eqs (sink_Type spec) "stdout" then Ok SStdout
  else if eqs (sink_Type spec) "blackhole" then Ok SBlackhole
  else Err "compiler: unsupported sink type".
End Postgres.

(** ** A compiled workflow starts *)

Section Guards.
Context `{OT : ObjectText}.
Variable marshal : any -> result bytes.

(** The compiler's view of an end: whether it is built. *)
Definition built {A B} (f : A -> result B) (a : A) : result unit := (λ _, tt) <$> f a.
Definition is_kafka (s : CSource) : bool := match s with CKafka _ => true | _ => false end.
Definition is_txn (s : CSink) : bool := match s with STxnKafka _ => true | _ => false end.
(** The environment [CompileWorkflow] assembles, as [Execute] sees it.  The
    Kafka source is the one that checkpoints offsets, the transactional sink
    the one that is coordinated. *)
Definition compiled_env (cw : CompiledWorkflow) (src : CSource) (snk : CSink) : ExecEnv (COp * bytes) :=
  mkX true (is_kafka src) true (is_txn snk) (is_some (re_Checkpointing (cw_Runtime cw)))
    (match re_Checkpointing (cw_Runtime cw) with Some (i, _) => i | None => 0 end) (cw_Operators cw) [].

Lemma compile_source_kafka spec src : CompileSource spec = Ok src -> eqs (src_Type spec) "kafka" = true ->
  exists c, src = CKafka c /\ compileKafkaSource (src_Kafka spec) = Ok c.
Proof.
  unfold CompileSource. intros E Hk. destruct (isE (src_Type spec)); [done|]. rewrite Hk in E.
  destruct (compileKafkaSource (src_Kafka spec)) as [c|]; [|done]. injection E as <-. by exists c.
Qed.
(** No option of a compiled source but the group's own touches the group, and
    none makes the source parallel. *)
Definition keeps (l : list KafkaSourceOption) : Prop := forall c,
  let c' := foldl (λ c o, o c) c l in
  kc_groupID c' = kc_groupID c /\ kc_parallel c' = kc_parallel c /\ kc_exactlyOnce c' = kc_exactlyOnce c.
Lemma keeps_app l l' : keeps l -> keeps l' -> keeps (l ++ l').
Proof. intros H H' c. cbn zeta. rewrite foldl_app. destruct (H' (foldl (λ c o, o c) c l)) as (-> & -> & ->). apply H. Qed.
Lemma keeps_if cond o : keeps [o] -> keeps (opt_if cond o).
Proof. by destruct cond. Qed.
Lemma keeps_for {A} (x : option A) o : (forall a, keeps [o a]) -> keeps (opt_for x o).
Proof. destruct x; [intros H; apply H|done]. Qed.
Lemma keeps_watermark w l : compileWatermark w = Ok l -> keeps l.
Proof.
  unfold compileWatermark. destruct w as [w|]; [|by intros [= <-]]. case_match; [done|]. intros [= <-].
  apply (keeps_app [_]); [done|by apply keeps_if].
Qed.
Lemma NewKafkaSource_cfg dial readP opts s : NewKafkaSource dial readP opts = Ok s -> so_cfg s = ksc_applyDefaults (foldl (λ c o, o c) zeroConfig opts).
Proof. unfold NewKafkaSource. intros E. repeat (case_match; try discriminate E); by injection E as <-. Qed.
Lemma compile_source_exactly_once k src : compileKafkaSource (Some k) = Ok src ->
  kc_exactlyOnce (so_cfg src) = ks_ExactlyOnce k /\ kc_groupID (so_cfg src) = ks_GroupID k /\ exists rs, so_readers src = Serial rs.
Proof.
  unfold compileKafkaSource. do 4 (case_match; [done|]).
  destruct (compileStartFrom _) as [start|]; [|done]. destruct (compileDeserializer _) as [des|]; [|done].
  destruct (compileWatermark _) as [wm|] eqn:Ew; [|done]. destruct (compileSASLOpt _) as [sasl|]; [|done]. cbn [mbind result_bind]. intros E.
  pose proof (NewKafkaSource_cfg _ _ _ _ E) as Ec. pose proof (constructed_source_wf _ _ _ _ E) as [_ _ Hm _].
  assert (Hk : kc_exactlyOnce (so_cfg src) = ks_ExactlyOnce k /\ kc_groupID (so_cfg src) = ks_GroupID k /\ kc_parallel (so_cfg src) = false).
  { rewrite Ec. cbn [ksc_applyDefaults kc_exactlyOnce kc_groupID kc_parallel]. unfold kafka_opts. rewrite foldl_app. cbn [foldl].
    set (c0 := KafkaGroupID _ _). rewrite !(app_assoc _ _ (_ ++ opt_if (0 <? ks_CommitBatch k) _ ++ _)), foldl_app, foldl_app.
    match goal with |- context [foldl _ (foldl _ (foldl _ c0 ?l1) _) ?l3] => set (p1 := l1); set (p3 := l3) end.
    assert (K1 : keeps p1); [|assert (K3 : keeps p3)].
    { repeat apply keeps_app; try apply keeps_if; try apply keeps_for; try done. }
    { repeat apply keeps_app; try apply keeps_if; try apply keeps_for; try done. by eapply keeps_watermark. }
    cbn zeta in K3. destruct (K3 (foldl (λ c o, o c) (foldl (λ c o, o c) c0 p1) (opt_if (ks_ExactlyOnce k) KafkaExactlyOnce))) as (-> & -> & ->).
    destruct (K1 c0) as (E1 & E2 & E3). destruct (ks_ExactlyOnce k); cbn [opt_if foldl KafkaExactlyOnce kc_exactlyOnce kc_groupID kc_parallel]; by rewrite ?E1, ?E2, ?E3. }
  destruct Hk as (Q1 & Q2 & Q3). split_and!; [done..|]. destruct (so_readers src); [eauto|]. destruct Hm as [Hm _]. congruence.
Qed.
(** Every Kafka source of a document is a consumer-group source, so none starts
    from the offsets of the checkpoint it is restored from. *)
Theorem compiled_source_ignores_restored k src (seeks : gmap Z Z) :
  compileKafkaSource (Some k) = Ok src -> start_readers src (mkTracker ∅ seeks) = start_readers src newOffsetTracker.
Proof. intros (_ & _ & rs & Hs)%compile_source_exactly_once. by apply (group_source_ignores_restored src rs). Qed.
Lemma compile_sink_txn spec snk : CompileSink marshal spec = Ok snk -> is_txn snk = true ->
  eqs (sink_Type spec) "txnKafka" = true \/ eqs (sink_Type spec) "transactional_kafka" = true.
Proof.
  unfold CompileSink. intros E Ht. destruct (isE (sink_Type spec)); [done|].
  destruct (eqs (sink_Type spec) "kafka"); [destruct (compileKafkaSink _); [injection E as <-|]; done|].
  destruct (eqs (sink_Type spec) "txnKafka"); [by left|]. destruct (eqs (sink_Type spec) "transactional_kafka"); [by right|]. cbn [orb] in E.
  destruct (eqs (sink_Type spec) "postgres"); [destruct (compilePostgresSink _ _); [injection E as <-|]; done|].
  destruct (eqs (sink_Type spec) "stdout"); [by injection E as <-|]. destruct (eqs (sink_Type spec) "blackhole"); [by injection E as <-|done].
Qed.
(** Validation knows the transactional sink under one name only. *)
Lemma valid_sink_name mkdir wf : Validate mkdir wf = [] -> eqs (sink_Type (wf_Sink wf)) "transactional_kafka" = false.
Proof.
  unfold Validate, structural. intros Hv. apply app_nil in Hv as [Hv _]. do 3 apply app_nil in Hv as [_ Hv]. apply app_nil in Hv as [Hv _].
  destruct (isE (sink_Type (wf_Sink wf))) eqn:E0; [done|]. apply add_if_nil, negb_false_iff in Hv.
  unfold supported in Hv. apply bool_decide_eq_true in Hv. destruct (eqs _ "transactional_kafka") eqn:E; [|done].
  apply eqs_true in E. rewrite E in Hv. exfalso. set_unfold in Hv. destruct_or?; discriminate.
Qed.

(** C19: a compiled workflow starts.  When the compiler accepts a document,
    Execute does not refuse the environment it built: with a transactional sink
    there is a checkpoint storage, a positive interval and a source that
    checkpoints offsets, and that source is a consumer-group Kafka source that
    leaves committing to the coordinator. *)
Theorem compiled_workflow_starts mkdir R root (wf : Workflow) (cw : CompiledWorkflow) :
  CompileWorkflow mkdir R (built CompileSource) (built (CompileSink marshal)) root (Some wf) = Ok cw ->
  exists resolved src snk, resolveSecrets R wf = Ok resolved /\
    CompileSource (wf_Source resolved) = Ok src /\ CompileSink marshal (wf_Sink resolved) = Ok snk /\
    guards (compiled_env cw src snk) = None /\
    (is_txn snk = true -> exists k rs, src = CKafka k /\ kc_exactlyOnce (so_cfg k) = true /\ so_readers k = Serial rs /\ kc_groupID (so_cfg k) <> []).
Proof.
  unfold CompileWorkflow. destruct (none (Validate mkdir wf)) eqn:Hv; [|done]. cbn [negb].
  apply bool_decide_eq_true, nil_length_inv in Hv. pose proof (valid_sink_name _ _ Hv) as Hname.
  unfold Validate in Hv. do 3 apply app_nil in Hv as [_ Hv].
  destruct (resolveSecrets R wf) as [wf'|] eqn:Er; [|done]. cbn [mbind result_bind].
  destruct (resolveSecrets_keeps _ _ _ Er) as (Hn & He & Hp & Hs & Hk).
  unfold built. destruct (CompileSource (wf_Source wf')) as [src|] eqn:Es; cbn [fmap result_fmap mbind result_bind]; [|done].
  destruct (CompileRuntime _ _ _ _) as [env|] eqn:Ec; [|done]. cbn [mbind result_bind].
  destruct (applyOperators _) as [ops|]; [|done]. cbn [mbind result_bind].
  destruct (CompileSink marshal (wf_Sink wf')) as [snk|] eqn:Ek; cbn [fmap result_fmap mbind result_bind]; [|done]. intros [= <-].
  exists wf', src, snk. split; [done|]. split; [done|]. split; [done|].
  assert (Htxn : is_txn snk = true -> srcEO wf = true /\ ckptOn wf = true).
  { intros Ht. pose proof (compile_sink_txn _ _ Ek Ht) as Hor. rewrite Hk, Hname in Hor. destruct Hor as [Hor|Hor]; [|done].
    unfold validate_delivery in Hv. rewrite Hor in Hv. cbn [negb andb] in Hv. rewrite andb_false_r in Hv.
    apply app_nil in Hv as [H1%add_if_nil H2]. apply app_nil in H2 as [_ H2%add_if_nil]. by rewrite negb_false_iff in H1, H2. }
  assert (Hsrc : srcEO wf = true -> exists k c, src = CKafka c /\ compileKafkaSource (Some k) = Ok c /\ ks_ExactlyOnce k = true /\ ks_GroupID k <> []).
  { rewrite <- Hs. unfold srcEO. intros [H1 H2]%andb_prop. destruct (compile_source_kafka _ _ Es H1) as (c & -> & Hc).
    destruct (src_Kafka (wf_Source wf')) as [k|]; [|done]. exists k, c. split; [reflexivity|]. split; [exact Hc|]. split; [exact H2|]. intros Hg.
    unfold compileKafkaSource in Hc. destruct (none (ks_Brokers k)); [done|]. destruct (isE (ks_Topic k) && none (ks_Topics k)); [done|].
    destruct (ks_Parallel k); [done|]. rewrite Hg in Hc. done. }
  split.
  - unfold guards, compiled_env. cbn [x_source x_sink x_coordinated x_storage x_interval x_checkpointSource negb cw_Runtime].
    destruct (is_txn snk); [|done]. destruct Htxn as [Ht1 Ht2]; [done|]. destruct (Hsrc Ht1) as (k & c & -> & _). cbn [is_kafka negb andb].
    apply CompileRuntime_dir in Ec. unfold ckptOn in Ht2. rewrite <- He in Ht2. destruct (re_Checkpointing env) as [[i dir]|].
    + destruct Ec as [Hi _]. cbn [is_some negb orb]. destruct (Z.leb_spec i 0); [lia|done].
    + destruct Ec as [_ Ec]. destruct (wf_Env wf') as [e|]; [|done]. cbn in Ec. by rewrite Ec in Ht2.
  - intros Ht. destruct (Htxn Ht) as [Ht1 _]. destruct (Hsrc Ht1) as (k & c & -> & Hc & Hk1 & Hk2).
    destruct (compile_source_exactly_once _ _ Hc) as (E1 & E2 & rs & E3). exists c, rs. by rewrite E1, E2.
Qed.
End Guards.

(** ** Rows of a compiled Postgres sink *)

Definition comma : ascii := ","%char.
Lemma word_char_plain c : word_char c = true -> c <> Postgres.dq /\ c <> comma.
Proof. intros H. split; intros ->; vm_compute in H; discriminate. Qed.
Lemma columnRe_plain s : columnRe s = true -> s <> [] /\ (Postgres.dq ∉ s) /\ (comma ∉ s).
Proof.
  destruct s as [|c s]; [done|]. cbn [columnRe]. intros [H1 H2]%andb_prop.
  assert (Hall : Forall (λ c, c <> Postgres.dq /\ c <> comma) (c :: s)).
  { constructor.
    - apply word_char_plain. unfold word_start, word_char in *. apply orb_prop in H1 as [H1|H1]; [apply andb_prop in H1 as [H1 _]|]; rewrite H1; [done|apply orb_true_r].
    - apply Forall_forall. intros x Hx. apply word_char_plain. rewrite forallb_forall in H2. by apply H2, list_elem_of_In. }
  rewrite Forall_forall in Hall. split; [done|]. split; intros Hin; by destruct (Hall _ Hin).
Qed.

(** Rows that all have one key are one group. *)
Lemma one_group {V} (k : bytes * bytes) (rows : list (Postgres.pendingRow V)) :
  rows <> [] -> Forall (λ r, Postgres.row_key r = k) rows -> Postgres.groups rows = [(k, rows)].
Proof.
  intros Hne Hk. destruct rows as [|r rows]; [done|]. apply Forall_cons in Hk as [Hr Hk].
  unfold Postgres.groups. cbn [foldl Postgres.group_add]. rewrite Hr.
  assert (H : forall acc, foldl (λ gs r, Postgres.group_add r gs) [(k, acc)] rows = [(k, acc ++ rows)]).
  { clear Hne. induction Hk as [|x xs Hx _ IH]; intros acc; [by rewrite app_nil_r|]. cbn [foldl Postgres.group_add].
    rewrite decide_True by done. rewrite IH. by rewrite <- app_assoc. }
  apply H.
Qed.

Section Rows.
Context `{OT : ObjectText}.
Variable marshal : any -> result bytes.

(** C27: a compiled Postgres sink writes what the mapping says.  Every record
    becomes a row of the configured table, with the mapping's columns in one
    fixed order and, for each, the record's field coerced to a column value;
    the columns need no quoting, so a batch is a single statement. *)
Theorem compiled_postgres_rows (table : bytes) (mapping : gmap bytes bytes) mapper (rs : list Rec) :
  BuildPostgresMapper marshal table mapping = Ok mapper -> mapping <> ∅ -> rs <> [] ->
  let pairs := pairs_of mapping in
  pairs ≡ₚ map_to_list mapping /\ Sorted bytes_le pairs.*2 /\ Forall (λ c, (Postgres.dq ∉ c) /\ (comma ∉ c)) pairs.*2 /\
  exists rows, Postgres.mapRecord pgval mapper <$> rs = Some <$> rows /\
    Postgres.groups rows = [((table, join (b ",") pairs.*2), rows)] /\
    Forall2 (λ r row, Postgres.row_record row = r /\ Postgres.row_table row = table /\ Postgres.row_columns row = pairs.*2 /\
      Postgres.row_values row = (λ p, coercePGValue marshal (GetField (match DecodeJSON r with Ok d => d | Err _ => None end) p.1)) <$> pairs) rs rows.
Proof.
  intros Hb Hne Hrs pairs. unfold BuildPostgresMapper in Hb. destruct (tableRe table) eqn:Et; [|done]. cbn [negb] in Hb.
  destruct (existsb _ _); [done|]. destruct (forallb (λ p, columnRe p.2) (map_to_list mapping)) eqn:Ec; [|done]. injection Hb as <-.
  assert (Hp : pairs ≡ₚ map_to_list mapping) by apply merge_sort_Permutation.
  assert (Hpn : pairs <> []) by (intros E; rewrite E in Hp; apply Permutation_nil_l in Hp; symmetry in Hp; by apply map_to_list_empty_iff in Hp).
  split; [done|]. split; [|split].
  - assert (Hs : Sorted col_le pairs).
    { apply Sorted_merge_sort. intros [? x] [? y]. unfold col_le. cbn. apply bytes_leb_total. }
    clear -Hs. induction Hs as [|x l _ IH H]; [constructor|]. cbn. constructor; [exact IH|]. destruct H; constructor. done.
  - rewrite Forall_fmap, Hp. apply Forall_forall. intros p Hin. rewrite forallb_forall in Ec. apply list_elem_of_In, Ec in Hin.
    apply columnRe_plain in Hin as (_ & ? & ?). done.
  - set (row r := Postgres.mkRow table pairs.*2 ((λ p : bytes * bytes, coercePGValue marshal (GetField (match DecodeJSON r with Ok d => d | Err _ => None end) p.1)) <$> pairs) r).
    exists (row <$> rs). split; [|split].
    + rewrite <- list_fmap_compose. apply list_fmap_ext. intros _ r _. unfold Postgres.mapRecord, mapRow. cbn [compose].
      assert (isE table = false) as -> by (destruct table; [vm_compute in Et; discriminate|done]).
      fold pairs. rewrite !length_fmap, Nat.eqb_refl. destruct (Nat.eqb_spec (length pairs) 0) as [E|_]; [by apply nil_length_inv in E|done].
    + apply one_group; [by destruct rs|]. apply Forall_fmap, Forall_true. done.
    + rewrite Forall2_fmap_r. apply Forall2_same_length_lookup. split; [done|]. intros i r r' H1 H2. simplify_eq. done.
Qed.
End Rows.

(** ** Concrete documents *)

#[local] Instance demo_text : ObjectText := {|
  obj_parse t := if eqs t "{a,7}" then Ok (Some [(b "id", AnyString (b "a")); (b "n", AnyNumber (b "7"))]) else Err "invalid character"%string;
  obj_print _ := Err "unused"%string;
|}.
Definition no_marshal (_ : any) : result bytes := Err "unused".

Definition demo_ends : result CompiledWorkflow :=
  CompileWorkflow mkdir_ok (λ _, Err "unset") (built CompileSource) (built (CompileSink no_marshal)) [] (Some demo_wf).
Lemma compiled_workflow_starts_witness :
  exists cw src snk, demo_ends = Ok cw /\ is_txn snk = true /\ guards (compiled_env cw src snk) = None.
Proof.
  assert (Hok : is_ok demo_ends = true) by (vm_compute; reflexivity).
  destruct demo_ends as [cw|e] eqn:E; [|discriminate Hok].
  destruct (compiled_workflow_starts no_marshal mkdir_ok (λ _, Err "unset") [] demo_wf cw E) as (wf' & src & snk & HR & _ & HK & HG & _).
  exists cw, src, snk. split; [reflexivity|]. split; [|exact HG].
  vm_compute in HR. injection HR as <-. vm_compute in HK. injection HK as <-. reflexivity.
Defined.

Lemma build_mapper table mapping :
  tableRe table = true -> existsb (λ p : bytes * bytes, isE p.1) (map_to_list mapping) = false ->
  forallb (λ p : bytes * bytes, columnRe p.2) (map_to_list mapping) = true ->
  BuildPostgresMapper no_marshal table mapping = Ok (mapRow no_marshal table (pairs_of mapping)).
Proof. unfold BuildPostgresMapper. by intros -> -> ->. Qed.
Definition demo_mapping : gmap bytes bytes := {[b "id" := b "order_id"; b "n" := b "items"]}.
Definition demo_mapper := mapRow no_marshal (b "public.orders") (pairs_of demo_mapping).
Definition rec_of (v : string) : Rec := NewRecord 0 None (Some (b v)).
Lemma compiled_postgres_rows_witness :
  exists rows, Postgres.mapRecord pgval demo_mapper <$> [rec_of "{a,7}"] = Some <$> rows /\
    Postgres.groups rows = [((b "public.orders", b "items,order_id"), rows)] /\
    Postgres.row_values <$> rows = [[PGVal (AnyInt 7); PGVal (AnyString (b "a"))]].
Proof.
  destruct (compiled_postgres_rows no_marshal (b "public.orders") demo_mapping demo_mapper [rec_of "{a,7}"]) as (_ & _ & _ & rows & H1 & H2 & H3).
  - apply build_mapper; vm_compute; reflexivity.
  - discriminate.
  - discriminate.
  - exists rows. split; [exact H1|]. split; [rewrite H2; reflexivity|].
    inversion H3 as [|r row rs' rows' (_ & _ & _ & Hv) Ht]; subst. inversion Ht; subst. cbn [fmap list_fmap]. rewrite Hv. vm_compute. reflexivity.
Defined.

(** A payload that is not a JSON object is written all the same, as a row of
    NULLs. *)
Theorem undecodable_becomes_nulls :
  (demo_mapper (rec_of "not json")).2 = [PGVal AnyNil; PGVal AnyNil].
Proof. vm_compute. reflexivity. Qed.

(** Two fields may be mapped to one column: the mapper lists it twice, which
    no INSERT accepts, so every batch of such a workflow fails. *)
Theorem duplicate_columns_accepted :
  exists m, BuildPostgresMapper no_marshal (b "t") {[b "a" := b "x"; b "b" := b "x"]} = Ok m /\ (m zeroRec).1.2 = [b "x"; b "x"].
Proof. eexists. split; [apply build_mapper; vm_compute; reflexivity|]. vm_compute. reflexivity. Qed.

(** A minimum fetch size above the default maximum is passed on. *)
Theorem fetch_sizes_unordered :
  exists c, compileKafkaSource (Some (mkKSS [b "k:9092"] (b "in") [] (b "g") [] false false None [] 0 (20 * 1024 * 1024) 0 None None)) = Ok c /\
    kc_maxBytes (so_cfg c) < kc_minBytes (so_cfg c).
Proof. eexists. split; [vm_compute; reflexivity|]. vm_compute. reflexivity. Qed.
