(* ===== verification/Auth.v ===== *)
(** * Package auth and its users: SASL mechanisms and TLS settings

    auth/sasl.go, auth/kgo.go and auth/tls.go, the dialer of the Kafka source
    (source/auth.go), the transport of the Kafka sinks and dead-letter queue
    (sink/kafka.go), and the options of the transactional sink.  Loading
    certificates and preparing SCRAM credentials belong to libraries: what they
    answer is an argument.  A panic is an error, as in the constructors. *)
From S2P Require Import Prelude Paths GoTime Strconv Types Json Fields BuiltinOps Workflow Batch Source KafkaOptions SinkOptions Describe.
From S2P Require TxnSink Ends.

(** A mechanism as either client library represents it. *)
Inductive Mechanism : Type := MPlain (user pass : bytes) | MScram256 (user pass : bytes) | MScram512 (user pass : bytes).
(** [tls.Config] as far as it is set: the client key pair and the root pool. *)
Record TLSClient : Type := mkTLSClient { tl_InsecureSkipVerify : bool; tl_Certificates : option bytes; tl_RootCAs : option bytes }.

Section Auth.
(** kafka-go's [scram.Mechanism] rejects credentials it cannot prepare;
    [tls.LoadX509KeyPair], [os.ReadFile], and whether a text holds certificates. *)
Variable scramErr : bytes -> bytes -> option string.
Variable LoadX509KeyPair : bytes -> bytes -> result bytes.
Variable readFile : bytes -> result bytes.
Variable hasCertificates : bytes -> bool.

Definition BuildSASLMechanism (cfg : SASLConfig) : result Mechanism :=
  let u := sc_Username cfg in
  let p := sc_Password cfg in
  match sc_Mechanism cfg with
  | SASLPlain => Ok (MPlain u p)
  | SASLScramSHA256 => match scramErr u p with Some e => Err ("build SCRAM-SHA-256 mechanism: " +:+ e) | None => Ok (MScram256 u p) end
  | SASLScramSHA512 => match scramErr u p with Some e => Err ("build SCRAM-SHA-512 mechanism: " +:+ e) | None => Ok (MScram512 u p) end
  | SASLOther _ => Err "unsupported SASL mechanism"
  end.
Definition BuildKgoSASL (cfg : SASLConfig) : result Mechanism :=
  let u := sc_Username cfg in
  let p := sc_Password cfg in
  match sc_Mechanism cfg with
  | SASLPlain => Ok (MPlain u p)
  | SASLScramSHA256 => Ok (MScram256 u p)
  | SASLScramSHA512 => Ok (MScram512 u p)
  | SASLOther _ => Err "unsupported SASL mechanism"
  end.

Definition noTLS : TLSConfig := mkTLSConfig [] [] [] false.
Definition tls_empty (cfg : TLSConfig) : bool :=
  isE (tc_CertFile cfg) && isE (tc_KeyFile cfg) && isE (tc_CAFile cfg) && negb (tc_InsecureSkipVerify cfg).
(** [None]: a plain connection. *)
Definition BuildTLSConfig (cfg : TLSConfig) : result (option TLSClient) :=
  if tls_empty cfg then Ok None
  else
    cert ← (if negb (isE (tc_CertFile cfg)) && negb (isE (tc_KeyFile cfg)) then
              match LoadX509KeyPair (tc_CertFile cfg) (tc_KeyFile cfg) with
              | Err e => Err ("load client cert/key: " +:+ e)
              | Ok c => Ok (Some c)
              end
            else Ok None);
    roots ← (if isE (tc_CAFile cfg) then Ok None
             else match readFile (tc_CAFile cfg) with
                  | Err e => Err ("read CA file: " +:+ e)
                  | Ok pem => if hasCertificates pem then Ok (Some pem) else Err "no valid certificates found in CA file"
                  end);
    Ok (Some (mkTLSClient (tc_InsecureSkipVerify cfg) cert roots)).

(** What a connection is opened with. *)
Record Connection : Type := mkConn { co_SASL : option Mechanism; co_TLS : option TLSClient }.
Definition optional {A B} (f : A -> result B) (x : option A) : result (option B) := match x with None => Ok None | Some a => b ← f a; Ok (Some b) end.
Definition panics {A} (r : result A) (where_ : string) : result A := match r with Ok a => Ok a | Err e => Err ("panic: " +:+ where_ +:+ ": " +:+ e) end.
(** [BuildTLSConfig] of a setting that may be absent. *)
Definition optional_tls (t : option TLSConfig) : result (option TLSClient) := match t with None => Ok None | Some t => BuildTLSConfig t end.
Definition buildTransport (saslCfg : option SASLConfig) (tlsCfg : option TLSConfig) : result Connection :=
  m ← panics (optional BuildSASLMechanism saslCfg) "weibo/sink";
  t ← panics (optional_tls tlsCfg) "weibo/sink";
  Ok (mkConn m t).
(** [None]: the library's default dialer. *)
Definition buildDialer (saslCfg : option SASLConfig) (tlsCfg : option TLSConfig) : result (option Connection) :=
  match saslCfg, tlsCfg with
  | None, None => Ok None
  | _, _ =>
      m ← panics (optional BuildSASLMechanism saslCfg) "weibo/source";
      t ← panics (optional_tls tlsCfg) "weibo/source";
      Ok (Some (mkConn m t))
  end.
(** [TxnKafkaSink.baseOpts], for the producer and for the marker probe. *)
Definition txn_connection (c : txnConfig) : result Connection :=
  m ← (match optional BuildKgoSASL (tc_sasl c) with Err e => Err ("sasl: " +:+ e) | r => r end);
  t ← (match optional_tls (tc_tls c) with Err e => Err ("tls: " +:+ e) | r => r end);
  Ok (mkConn m t).
(** The answer of building the settings that the constructors take. *)
Definition authErr_of (sasl : option SASLConfig) (tls : option TLSConfig) : option string :=
  match optional BuildSASLMechanism sasl with
  | Err e => Some e
  | Ok _ => match optional_tls tls with Err e => Some e | Ok _ => None end
  end.
Definition txn_authErr (c : txnConfig) : option string :=
  match optional BuildKgoSASL (tc_sasl c) with
  | Err e => Some ("SASL: " +:+ e)
  | Ok _ => match optional_tls (tc_tls c) with Err e => Some ("TLS: " +:+ e) | Ok _ => None end
  end.

(** ** What the settings mean *)

Lemma tls_empty_iff cfg : tls_empty cfg = true <-> cfg = noTLS.
Proof.
  unfold tls_empty, isE. split; [|intros ->; done]. intros [[[H1%bool_decide_eq_true H2%bool_decide_eq_true]%andb_prop H3%bool_decide_eq_true]%andb_prop H4%negb_true_iff]%andb_prop.
  destruct cfg. cbn in *. by subst.
Qed.
(** A TLS connection is what the settings ask for: broker verification is off
    exactly when that was configured, a client certificate is presented exactly
    when both of its files are named, and the roots are the named file's or the
    system's. *)
Lemma tls_faithful cfg t : BuildTLSConfig cfg = Ok (Some t) ->
  tl_InsecureSkipVerify t = tc_InsecureSkipVerify cfg /\
  (is_Some (tl_Certificates t) <-> tc_CertFile cfg <> [] /\ tc_KeyFile cfg <> []) /\
  match tl_RootCAs t with Some pem => readFile (tc_CAFile cfg) = Ok pem /\ hasCertificates pem = true | None => tc_CAFile cfg = [] end.
Proof.
  unfold BuildTLSConfig, isE. destruct (tls_empty cfg); [done|].
  destruct (bool_decide (tc_CertFile cfg = [])) eqn:Ec; [|destruct (bool_decide (tc_KeyFile cfg = [])) eqn:Ek]; cbn [negb andb].
  3: destruct (LoadX509KeyPair _ _) as [c|]; [|done].
  all: cbn [mbind result_bind]; repeat match goal with
    | H : bool_decide _ = true |- _ => apply bool_decide_eq_true in H
    | H : bool_decide _ = false |- _ => apply bool_decide_eq_false in H end.
  all: case_bool_decide as Ea; [cbn [mbind result_bind]; intros [= <-]; cbn; split_and!; [done| |done]|
    destruct (readFile _) as [pem|] eqn:Er; [|done]; destruct (hasCertificates pem) eqn:Eh; [|done]; cbn [mbind result_bind]; intros [= <-]; cbn; split_and!; [done| |done|done]].
  all: split; [intros [? ?]; by split|intros [? ?]; try done; by eexists].
Qed.

(** The three clients of a cluster agree.  With the same settings the source,
    the sinks and the transactional sink's clients open their connections with
    the same mechanism and credentials and the same TLS settings, or are refused
    at construction for the same reason. *)
Theorem clients_agree (sasl : option SASLConfig) (tls : option TLSConfig) (c : txnConfig) :
  (forall u p, scramErr u p = None) -> tc_sasl c = sasl -> tc_tls c = tls ->
  match txn_connection c with
  | Ok conn => buildTransport sasl tls = Ok conn /\ authErr_of sasl tls = None /\ txn_authErr c = None /\
      buildDialer sasl tls = Ok (match sasl, tls with None, None => None | _, _ => Some conn end)
  | Err _ => is_ok (buildTransport sasl tls) = false /\ is_ok (buildDialer sasl tls) = false /\ authErr_of sasl tls <> None /\ txn_authErr c <> None
  end.
Proof.
  intros Hs Es Et. assert (E : optional BuildKgoSASL (tc_sasl c) = optional BuildSASLMechanism sasl).
  { rewrite Es. destruct sasl as [s|]; [|done]. cbn. unfold BuildKgoSASL, BuildSASLMechanism. destruct (sc_Mechanism s); by rewrite ?Hs. }
  unfold txn_connection, buildTransport, buildDialer, authErr_of, txn_authErr. rewrite E, Et.
  destruct (optional BuildSASLMechanism sasl) as [m|e] eqn:Em; cbn.
  - destruct (optional_tls tls) as [t|e] eqn:Ett; cbn; [|destruct sasl, tls; by split_and!].
    destruct sasl, tls; split_and!; try done.
  - destruct sasl; [|done]. destruct tls; by split_and!.
Qed.

(** A document that compiles names mechanisms both clients know. *)
Lemma compiled_mechanism_known s cfg : Ends.compileSASL s = Ok cfg -> is_ok (BuildKgoSASL cfg) = true.
Proof.
  unfold Ends.compileSASL. repeat (destruct (strings_Contains _ _); [done|]). cbv zeta.
  repeat (destruct (eqs _ _); [by intros [= <-]|]). done.
Qed.

(** Empty TLS settings ask for nothing: the connection is plain, although the
    option is documented to enable TLS and the description reports it enabled.
    TLS with the system's roots and nothing else cannot be asked for. *)
Theorem empty_tls_is_plain (s : SASLConfig) (m : Mechanism) : BuildSASLMechanism s = Ok m ->
  buildDialer (Some s) (Some noTLS) = Ok (Some (mkConn (Some m) None)) /\ auth_props (Some s) (Some noTLS) ∅ !! b "tls" = Some (b "enabled").
Proof. intros E. unfold buildDialer. cbn [panics optional optional_tls mbind result_bind]. rewrite E. split; [done|]. unfold auth_props, prop. apply lookup_insert_eq. Qed.

(** Half a client key pair is dropped without a word: the connection presents no
    certificate. *)
Theorem half_key_pair_is_dropped (cert : bytes) : cert <> [] -> BuildTLSConfig (mkTLSConfig cert [] [] false) = Ok (Some (mkTLSClient false None None)).
Proof.
  intros H. unfold BuildTLSConfig, tls_empty, isE. cbn [tc_CertFile tc_KeyFile tc_CAFile tc_InsecureSkipVerify].
  rewrite (bool_decide_false (cert = [])) by done. by cbn.
Qed.

(** A root file that cannot be read is a panic of the constructor, not an error
    of the compiler that calls it. *)
Theorem unreadable_ca_panics (ca : bytes) (e : string) : ca <> [] -> readFile ca = Err e ->
  buildDialer None (Some (mkTLSConfig [] [] ca false)) = Err ("panic: weibo/source: read CA file: " +:+ e)%string.
Proof.
  intros H E. unfold buildDialer, optional_tls, BuildTLSConfig, tls_empty, isE. cbn [tc_CertFile tc_KeyFile tc_CAFile tc_InsecureSkipVerify].
  rewrite (bool_decide_false (ca = [])) by done. cbn. by rewrite E.
Qed.
End Auth.
