(* ===== verification/Stats.v ===== *)
(** * Package control/backend: what the dashboard shows of a host

    The statistics a capacity snapshot carries for display (docker.go:
    [containerSnapshot], [hostStats]), the logs of a container, and the
    snapshot, logs and assertions of the fake backend (fake.go).  Counters are
    uint64 with their wrap-around; a percentage is the exact quotient that the
    code rounds to a float64.  The texts of /proc are given as [fmt.Sscanf]
    scans them. *)
From Stdlib Require Import QArith.
From S2P Require Import Prelude Paths GoTime Strconv Api Backend Docker.
Open Scope Z_scope.

Definition u64 (z : Z) : Z := z mod 2 ^ 64.
Definition uint64 (z : Z) : Prop := 0 <= z < 2 ^ 64.
Lemma u64_id z : uint64 z -> u64 z = z.
Proof. apply Z.mod_small. Qed.
Lemma u64_range z : uint64 (u64 z).
Proof. apply Z.mod_pos_bound. lia. Qed.
(** [float64(x) / float64(y) * k * 100]. *)
Definition percent (x y k : Z) : Q := (x * k * 100 # Z.to_pos y)%Q.

Definition shortID (id : bytes) : bytes := if (length id <=? 12)%nat then id else take 12 id.
Definition firstString (v : list bytes) : bytes := default [] (head v).
Definition TrimPrefix (p s : bytes) : bytes := if decide (take (length p) s = p) then drop (length p) s else s.

(** ** Containers *)

(** A line of the container list, and the daemon's statistics, as far as they
    are read. *)
Record Listed : Type := mkListed {
  li_ID : bytes; li_Names : list bytes; li_Labels : gmap bytes bytes; li_Image : bytes; li_ImageID : bytes; li_State : bytes; li_Created : Z;
}.
Record StatsResponse : Type := mkSR {
  sr_cpu : Z; sr_preCPU : Z; sr_system : Z; sr_preSystem : Z; sr_OnlineCPUs : Z; sr_perCPU : list Z;
  sr_usage : Z; sr_stats : gmap bytes Z; sr_limit : Z; sr_Networks : list (Z * Z); sr_blkio : list (bytes * Z); sr_pids : Z;
}.
Record ContainerStats : Type := mkCStats {
  ct_ID : bytes; ct_Name : bytes; ct_JobID : bytes; ct_Managed : bool; ct_Image : bytes; ct_ImageID : bytes; ct_State : bytes; ct_StartedAt : Z;
  ct_CPUPercent : Q; ct_MemoryUsed : Z; ct_MemoryLimit : Z; ct_MemoryPercent : Q; ct_Rx : Z; ct_Tx : Z; ct_Read : Z; ct_Write : Z; ct_PIDs : Z;
}.
Definition sum_u64 (l : list Z) : Z := foldl (λ a x, u64 (a + x)) 0 l.
Definition blk (op : string) (l : list (bytes * Z)) : list Z := snd <$> List.filter (λ io : bytes * Z, bool_decide (ToLower io.1 = b op)) l.
Definition cores_of (s : StatsResponse) : Z := if sr_OnlineCPUs s =? 0 then Z.of_nat (length (sr_perCPU s)) else sr_OnlineCPUs s.
Definition cpu_percent (s : StatsResponse) : Q :=
  let cpuDelta := u64 (sr_cpu s - sr_preCPU s) in
  let systemDelta := u64 (sr_system s - sr_preSystem s) in
  if (0 <? systemDelta) && (0 <? cpuDelta) then percent cpuDelta systemDelta (cores_of s) else 0%Q.
Definition memory_used (s : StatsResponse) : Z :=
  let cache := default 0 (sr_stats s !! b "cache") in
  if cache <? sr_usage s then u64 (sr_usage s - cache) else sr_usage s.
Definition containerSnapshot (c : Listed) (s : option StatsResponse) : ContainerStats :=
  let name := TrimPrefix (b "/") (firstString (li_Names c)) in
  let job := default [] (li_Labels c !! b "weibo.job") in
  let out := mkCStats (shortID (li_ID c)) name job (negb (isE job)) (li_Image c) (shortID (TrimPrefix (b "sha256:") (li_ImageID c))) (li_State c) (li_Created c) in
  match s with
  | None => out 0%Q 0 0 0%Q 0 0 0 0 0
  | Some s =>
      out (cpu_percent s) (memory_used s) (sr_limit s) (if 0 <? sr_limit s then percent (memory_used s) (sr_limit s) 1 else 0%Q)
        (sum_u64 (fst <$> sr_Networks s)) (sum_u64 (snd <$> sr_Networks s)) (sum_u64 (blk "read" (sr_blkio s))) (sum_u64 (blk "write" (sr_blkio s))) (sr_pids s)
  end.

(** Counters that only grew, as those of a running container do. *)
Record steady (s : StatsResponse) : Prop := {
  st_cpu : 0 <= sr_preCPU s <= sr_cpu s /\ uint64 (sr_cpu s);
  st_system : 0 <= sr_preSystem s <= sr_system s /\ uint64 (sr_system s);
  st_cores : 0 <= sr_OnlineCPUs s;
  st_share : sr_cpu s - sr_preCPU s <= sr_system s - sr_preSystem s;   (* of all cores together *)
  st_memory : uint64 (sr_usage s) /\ uint64 (default 0 (sr_stats s !! b "cache")) /\ sr_usage s <= sr_limit s;
}.
Lemma percent_le x y k : 0 <= x <= y -> 0 < y -> 0 <= k -> (0 <= percent x y k <= inject_Z (k * 100))%Q.
Proof.
  intros Hx Hy Hk. unfold percent, Qle, inject_Z. cbn. rewrite Z2Pos.id by lia. split; [nia|]. nia.
Qed.
(** The figures of a running container are within what the host can give: at
    most all of its cores, and no more memory than the limit. *)
Theorem container_figures_bounded (c : Listed) (s : StatsResponse) : steady s ->
  let t := containerSnapshot c (Some s) in
  (0 <= ct_CPUPercent t <= inject_Z (cores_of s * 100))%Q /\
  0 <= ct_MemoryUsed t <= ct_MemoryLimit t /\ (0 <= ct_MemoryPercent t <= 100)%Q.
Proof.
  intros [[H1 H1'] [H2 H2'] Hc H3 (M1 & M2 & M3)]. cbn. assert (Hk : 0 <= cores_of s) by (unfold cores_of; destruct (_ =? 0); lia).
  assert (Hm : 0 <= memory_used s <= sr_limit s).
  { unfold memory_used, uint64 in *. destruct (Z.ltb_spec (default 0 (sr_stats s !! b "cache")) (sr_usage s)); [|lia]. rewrite u64_id; unfold uint64; lia. }
  split; [|split; [done|]].
  - unfold cpu_percent, uint64 in *. rewrite !u64_id by (unfold uint64; lia).
    destruct (Z.ltb_spec 0 (sr_system s - sr_preSystem s)); [|split; unfold Qle; cbn; lia].
    destruct (Z.ltb_spec 0 (sr_cpu s - sr_preCPU s)); [|split; unfold Qle; cbn; lia]. apply percent_le; lia.
  - destruct (Z.ltb_spec 0 (sr_limit s)); [|split; unfold Qle; cbn; lia]. by apply (percent_le _ _ 1).
Qed.

(** The guard against a CPU counter that went back does not work: the
    difference of two uint64 is never negative, so a reset shows as an enormous
    share instead of none. *)
Theorem counter_reset_wraps (s : StatsResponse) : sr_cpu s = 0 -> sr_preCPU s = 1 -> sr_system s = 1000 -> sr_preSystem s = 0 -> sr_OnlineCPUs s = 1 ->
  cpu_percent s = percent (2 ^ 64 - 1) 1000 1.
Proof. intros E1 E2 E3 E4 E5. unfold cpu_percent, cores_of. by rewrite E1, E2, E3, E4, E5. Qed.

(** ** The host *)

(** A line of /proc/meminfo. *)
Inductive memline : Type := MemTotal (kb : Z) | MemAvailable (kb : Z) | MemOther.
Record HostStats : Type := mkHS {
  hs_Hostname : bytes; hs_Cores : Z; hs_Load : option (bytes * bytes * bytes); hs_MemoryTotal : Z; hs_MemoryUsed : Z; hs_MemoryPercent : Q; hs_CPUPercent : Q;
}.
(** The eight counters of the cpu line: user, nice, system, idle, iowait, irq,
    softirq, steal. *)
Definition jiffies : Type := (Z * Z * Z * Z) * (Z * Z * Z * Z).
Definition cpu_total (j : jiffies) : Z :=
  let '((user, nice, system, idle), (iowait, irq, softirq, steal)) := j in u64 (user + nice + system + idle + iowait + irq + softirq + steal).
Definition cpu_idle (j : jiffies) : Z := let '((_, _, _, idle), (iowait, _, _, _)) := j in u64 (idle + iowait).
Definition mem_scan (acc : Z * Z) (l : memline) : Z * Z :=
  match l with MemTotal kb => (wrap64 (kb * 1024), acc.2) | MemAvailable kb => (acc.1, wrap64 (kb * 1024)) | MemOther => acc end.
(** [hostStats]: the figures, and the CPU counters kept for the next call. *)
Definition hostStats (hostname : bytes) (cores totalMemory : Z) (loadavg : option (bytes * bytes * bytes)) (meminfo : option (list memline)) (stat : option jiffies)
    (prev : Z * Z) : HostStats * (Z * Z) :=
  let '(total, available) := match meminfo with Some ls => foldl mem_scan (0, 0) ls | None => (0, 0) end in
  let '(mt, mu, mp) := if 0 <? total then (total, wrap64 (total - available), percent (wrap64 (total - available)) total 1) else (totalMemory, 0, 0%Q) in
  let '(cpu, prev') := match stat with
    | None => (0%Q, prev)
    | Some j =>
        (if prev.1 <? cpu_total j then percent (u64 (u64 (cpu_total j - prev.1) - u64 (cpu_idle j - prev.2))) (u64 (cpu_total j - prev.1)) 1 else 0%Q,
         (cpu_total j, cpu_idle j))
    end in
  (mkHS hostname cores loadavg mt mu mp cpu, prev').

(** Between two calls with growing counters the CPU share is a percentage: the
    busy part of what passed. *)
Theorem host_cpu_share hostname cores mem loadavg meminfo (j : jiffies) (prev : Z * Z) :
  uint64 prev.1 -> uint64 prev.2 -> prev.1 < cpu_total j -> prev.2 <= cpu_idle j -> cpu_idle j - prev.2 <= cpu_total j - prev.1 ->
  let h := (hostStats hostname cores mem loadavg meminfo (Some j) prev).1 in
  hs_CPUPercent h = percent ((cpu_total j - prev.1) - (cpu_idle j - prev.2)) (cpu_total j - prev.1) 1 /\ (0 <= hs_CPUPercent h <= 100)%Q /\
  (hostStats hostname cores mem loadavg meminfo (Some j) prev).2 = (cpu_total j, cpu_idle j).
Proof.
  intros H1 H2 H3 H4 H5.
  assert (Ht : uint64 (cpu_total j)) by (destruct j as [[[[? ?] ?] ?] [[[? ?] ?] ?]]; apply u64_range).
  assert (Hi : uint64 (cpu_idle j)) by (destruct j as [[[[? ?] ?] ?] [[[? ?] ?] ?]]; apply u64_range).
  unfold hostStats. destruct (match meminfo with Some ls => foldl mem_scan (0, 0) ls | None => (0, 0) end) as [total available].
  destruct (if 0 <? total then _ else _) as [[mt mu] mp]. cbn [fst snd hs_CPUPercent]. destruct (Z.ltb_spec prev.1 (cpu_total j)); [|lia].
  unfold uint64 in *. rewrite !(u64_id (_ - prev.1)), (u64_id (_ - prev.2)) by (unfold uint64; lia). rewrite u64_id by (unfold uint64; lia).
  split_and!; [done|..|done]; apply percent_le; lia.
Qed.
(** The figures are said to be of the machine that runs the daemon, but memory
    and CPU come from the controller's own /proc: whatever memory the daemon
    reported is replaced by the local total. *)
Theorem host_memory_is_local hostname cores mem1 mem2 loadavg lines stat prev : 0 < (foldl mem_scan (0, 0) lines).1 ->
  (hostStats hostname cores mem1 loadavg (Some lines) stat prev).1 = (hostStats hostname cores mem2 loadavg (Some lines) stat prev).1.
Proof.
  intros H. unfold hostStats. destruct (foldl mem_scan (0, 0) lines) as [total available]. cbn [fst] in H.
  destruct (Z.ltb_spec 0 total); [done|lia].
Qed.

(** ** Logs *)

Section Logs.
Context {D : Type}.
(** The demultiplexed text of a container's log, up to [tail] lines when given,
    and the error that cut it. *)
Variable ContainerLogs : bytes -> option Z -> D -> reply (bytes * option string).
Definition tail_of (tail : Z) : option Z := if 0 <? tail then Some tail else None.
Definition docker_Logs (id : bytes) (tail : Z) (d : D) : bytes * option string :=
  match ContainerLogs id (tail_of tail) d with
  | Reply (out, err) => (out, err)
  | NotFound => ([], Some "not found"%string)
  | Failed e => ([], Some e)
  end.
(** Kubernetes: the first pod of the run. *)
Variable PodNames : bytes -> D -> result (list bytes).
Variable PodLogs : bytes -> option Z -> D -> result (bytes * option string).
Definition k8s_Logs (id : bytes) (tail : Z) (d : D) : bytes * option string :=
  match PodNames id d with
  | Err e => ([], Some e)
  | Ok [] => ([], None)
  | Ok (pod :: _) => match PodLogs pod (tail_of tail) d with Err e => ([], Some e) | Ok (text, err) => (text, err) end
  end.
End Logs.

(** ** The fake's snapshot *)

Definition not_removed (f : Fake) : list (bytes * fakeContainer) := List.filter (λ kc : bytes * fakeContainer, negb (fc_removed kc.2)) (map_to_list (containers f)).
Definition runs_ (kc : bytes * fakeContainer) : bool := match s_Phase (fc_status kc.2) with PhaseRunning => true | PhaseExited | PhaseGone => false end.
Definition fake_Capacity (cfg : CapacityConfig) (f : Fake) : CapacitySnapshot :=
  let used := Z.of_nat (length (List.filter runs_ (not_removed f))) in
  let exited := Z.of_nat (length (List.filter (λ kc, negb (runs_ kc)) (not_removed f))) in
  let '(available, total) :=
    if 0 <? cap_MaxJobs cfg then let a := if cap_MaxJobs cfg - used <? 0 then 0 else cap_MaxJobs cfg - used in (a, used + a) else (0, used) in
  mkSnap (b "healthy") (b "configured_limit") "" (Some total) used (Some available) (cap_MaxJobs cfg) 0 0 0 0 0 0 1000 (2 ^ 30) used 0 exited 0 false.
Lemma filter_split {A} (p q : A -> bool) l : (forall x, q x = negb (p x)) -> (length (List.filter p l) + length (List.filter q l) = length l)%nat.
Proof. intros H. induction l as [|x l IH]; [done|]. cbn. rewrite H. destruct (p x); cbn; lia. Qed.
(** Every container the fake still has is counted once, as running or exited,
    and used and free slots make up the configured maximum unless more run. *)
Theorem fake_capacity_accounts cfg f :
  let s := fake_Capacity cfg f in
  cs_Running s + cs_Exited s = Z.of_nat (length (not_removed f)) /\
  (0 < cap_MaxJobs cfg -> cs_TotalSlots s = Some (Z.max (cap_MaxJobs cfg) (cs_UsedSlots s))).
Proof.
  unfold fake_Capacity. pose proof (filter_split runs_ (λ kc, negb (runs_ kc)) (not_removed f) (λ _, eq_refl)) as E.
  destruct (Z.ltb_spec 0 (cap_MaxJobs cfg)); cbv beta zeta iota; cbn; (split; [lia|]); [|lia].
  intros _. f_equal. destruct (Z.ltb_spec (cap_MaxJobs cfg - Z.of_nat (length (List.filter runs_ (not_removed f)))) 0); lia.
Qed.
(** What a container was launched with. *)
Definition launched_with {A} (get : LaunchSpec -> A) (none : A) (id : bytes) (f : Fake) : A := match containers f !! id with Some c => get (fc_spec c) | None => none end.
Definition LastEnv : bytes -> Fake -> gmap bytes bytes := launched_with ls_Env ∅.
Definition LastImage : bytes -> Fake -> bytes := launched_with ls_Image [].
Definition LastWorkflowDoc : bytes -> Fake -> slice := launched_with ls_WorkflowDoc None.
Definition LastResources : bytes -> Fake -> option ResourceLimits := launched_with ls_Resources None.
Definition Launched (f : Fake) : Z := seq_ f.
(** The assertions see the launch they are about, whatever became of it. *)
Theorem fake_remembers_launch spec f f' id : fake_Launch spec f = (f', Ok id) ->
  forall g, g = f' \/ g = (fake_Stop id f').1 \/ g = fake_Remove id f' ->
  LastEnv id g = ls_Env spec /\ LastImage id g = ls_Image spec /\ LastWorkflowDoc id g = ls_WorkflowDoc spec /\ LastResources id g = ls_Resources spec /\ Launched g = Launched f + 1.
Proof.
  intros E g Hg. unfold fake_Launch in E. destruct (LaunchErr f); [done|]. cbv zeta in E. injection E as <- <-.
  unfold LastEnv, LastImage, LastWorkflowDoc, LastResources, launched_with, Launched.
  destruct Hg as [->|[->| ->]]; cbn [fake_Stop fake_Remove fst containers seq_]; rewrite ?lookup_alter_eq, lookup_insert_eq; by split_and!.
Qed.
