(* ===== verification/Cli.v ===== *)
(** * control/cmd/weibo: the command line of the control plane

    The management commands, the client they share and deployment
    (commands.go, client.go, deploy.go, main.go), run against the HTTP surface
    of [Api]: a request is decoded on the server's side and served in the
    controller's state.  The flag and net/url packages are modelled as far as
    the commands use them; YAML, docker and files are arguments.  Bodies are the
    typed documents of [Api]; tables and spinners are not modelled. *)
From S2P Require Import Prelude Paths GoTime Strconv Json Duration Storage Lifecycle JobStore Backend Control ControlProofs BuiltinOps Api Workflow Compile.

(** ** Escaping in URLs (net/url) *)

Definition unreserved (c : ascii) : bool := alnum c || bool_decide (c ∈ b "-_.~").
Definition path_plain (c : ascii) : bool := unreserved c || bool_decide (c ∈ b "$&+=:@").
Definition hex_digit (n : Z) : ascii := if n <? 10 then Zbyte (48 + n) else Zbyte (55 + n).
Definition percent (c : ascii) : bytes := ["%"%char; hex_digit (byteZ c / 16); hex_digit (byteZ c mod 16)].
Definition PathEscape (s : bytes) : bytes := flat_map (λ c, if path_plain c then [c] else percent c) s.
Definition QueryEscape (s : bytes) : bytes :=
  flat_map (λ c, if unreserved c then [c] else if bool_decide (c = " "%char) then ["+"%char] else percent c) s.
Definition unhex (c : ascii) : option Z :=
  let n := byteZ c in
  if (48 <=? n) && (n <=? 57) then Some (n - 48)
  else if (97 <=? n) && (n <=? 102) then Some (n - 87)
  else if (65 <=? n) && (n <=? 70) then Some (n - 55)
  else None.
(** [query]: a plus sign is a space. *)
Fixpoint unescape (query : bool) (s : bytes) : option bytes :=
  match s with
  | [] => Some []
  | "%"%char :: h :: l :: s => x ← unhex h; y ← unhex l; rest ← unescape query s; Some (Zbyte (16 * x + y) :: rest)
  | "%"%char :: _ => None
  | c :: s => rest ← unescape query s; Some ((if query && bool_decide (c = "+"%char) then " "%char else c) :: rest)
  end.

Lemma unescape_path c s : unescape false ((if path_plain c then [c] else percent c) ++ s) = rest ← unescape false s; Some (c :: rest).
Proof. by destruct c as [[] [] [] [] [] [] [] []]. Qed.
Lemma unescape_query c s :
  unescape true ((if unreserved c then [c] else if bool_decide (c = " "%char) then ["+"%char] else percent c) ++ s) = rest ← unescape true s; Some (c :: rest).
Proof. by destruct c as [[] [] [] [] [] [] [] []]. Qed.
Lemma PathEscape_app s t : unescape false (PathEscape s ++ t) = rest ← unescape false t; Some (s ++ rest).
Proof.
  unfold PathEscape. induction s as [|c s IH]; cbn [flat_map app]; [by destruct (unescape false t)|].
  rewrite <- app_assoc, unescape_path, IH. by destruct (unescape false t).
Qed.
Lemma QueryEscape_inverse s : unescape true (QueryEscape s) = Some s.
Proof.
  unfold QueryEscape. induction s as [|c s IH]; cbn [flat_map]; [done|]. rewrite unescape_query, IH. done.
Qed.

(** ** Flags (package flag) *)

(** [strings.Cut] at one character. *)
Fixpoint Cut (sep : ascii) (s : bytes) : option (bytes * bytes) :=
  match s with
  | [] => None
  | c :: s => if decide (c = sep) then Some ([], s) else '(before, after) ← Cut sep s; Some (c :: before, after)
  end.

Definition ParseBool (s : bytes) : option bool :=
  if bool_decide (s ∈ [b "1"; b "t"; b "T"; b "true"; b "TRUE"; b "True"]) then Some true
  else if bool_decide (s ∈ [b "0"; b "f"; b "F"; b "false"; b "FALSE"; b "False"]) then Some false
  else None.
(** [strconv.ParseInt] with base 0: a prefix names the base, underscores
    separate digits.  [ok]: an underscore may come next. *)
Definition digit_of (c : ascii) : option Z :=
  let n := byteZ c in
  if (48 <=? n) && (n <=? 57) then Some (n - 48)
  else if (97 <=? n) && (n <=? 122) then Some (n - 87)
  else if (65 <=? n) && (n <=? 90) then Some (n - 55)
  else None.
Fixpoint digits_in (base : Z) (ok : bool) (x : Z) (s : bytes) : option Z :=
  match s with
  | [] => Some x
  | c :: s =>
      if bool_decide (c = "_"%char) then if ok && negb (isE s) then digits_in base false x s else None
      else d ← digit_of c; if d <? base then digits_in base true (x * base + d) s else None
  end.
Definition parse_uint0 (s : bytes) : option Z :=
  match s with
  | [] => None
  | "0"%char :: c :: t =>
      let letter := byteZ c in
      if negb (isE t) && ((letter =? 98) || (letter =? 66)) then digits_in 2 true 0 t
      else if negb (isE t) && ((letter =? 111) || (letter =? 79)) then digits_in 8 true 0 t
      else if negb (isE t) && ((letter =? 120) || (letter =? 88)) then digits_in 16 true 0 t
      else digits_in 8 true 0 (c :: t)
  | "0"%char :: [] => Some 0
  | s => digits_in 10 false 0 s
  end.
Definition parse_int0 (s : bytes) : option Z :=
  let '(neg, ds) := cut_sign s in
  n ← parse_uint0 ds; let n := with_sign neg n in if decide (int64 n) then Some n else None.

Inductive FlagKind : Type := FString | FInt | FBool | FMulti | FDuration.
Definition FlagSet : Type := list (bytes * FlagKind).
(** The values set, in order, and the arguments left. *)
Record Parsed : Type := mkParsed { pf_vals : list (bytes * bytes); pf_args : list bytes }.
Definition set_ok (k : FlagKind) (v : bytes) : bool :=
  match k with
  | FString | FMulti => true
  | FInt => bool_decide (is_Some (parse_int0 v))
  | FBool => bool_decide (is_Some (ParseBool v))
  | FDuration => is_ok (ParseDuration v)
  end.
Definition flag_kind (fs : FlagSet) (name : bytes) : option FlagKind := snd <$> find (λ f, bool_decide (f.1 = name)) fs.
Fixpoint fs_Parse (fs : FlagSet) (args : list bytes) (vals : list (bytes * bytes)) : result Parsed :=
  match args with
  | [] => Ok (mkParsed vals [])
  | s :: rest =>
      match s with
      | "-"%char :: c :: t =>
          let double := bool_decide (c = "-"%char) in
          if double && isE t then Ok (mkParsed vals rest)
          else
            let text := if double then t else c :: t in
            if bool_decide (head text = Some "-"%char) || bool_decide (head text = Some "="%char) then Err "bad flag syntax"
            else
              let '(name, value) := match Cut "="%char text with Some (n, v) => (n, Some v) | None => (text, None) end in
              match flag_kind fs name with
              | None => Err "flag provided but not defined"
              | Some k =>
                  match value, k, rest with
                  | Some v, _, _ => if set_ok k v then fs_Parse fs rest (vals ++ [(name, v)]) else Err "invalid value"
                  | None, FBool, _ => fs_Parse fs rest (vals ++ [(name, b "true")])
                  | None, _, v :: rest => if set_ok k v then fs_Parse fs rest (vals ++ [(name, v)]) else Err "invalid value"
                  | None, _, [] => Err "flag needs an argument"
                  end
              end
      | _ => Ok (mkParsed vals args)
      end
  end.
(** The value of a flag, the values of a repeatable one. *)
Definition flag_string (name : string) (def : bytes) (p : Parsed) : bytes :=
  foldl (λ d kv, if bool_decide (kv.1 = b name) then kv.2 else d) def (pf_vals p).
Definition flag_int (name : string) (def : Z) (p : Parsed) : Z := default def (parse_int0 (flag_string name [] p)).
Definition flag_bool (name : string) (p : Parsed) : bool := default false (ParseBool (flag_string name [] p)).
Definition flag_duration (name : string) (def : Z) (p : Parsed) : Z :=
  match ParseDuration (flag_string name [] p) with Ok d => d | Err _ => def end.
Definition flag_all (name : string) (p : Parsed) : list bytes := snd <$> List.filter (λ kv, bool_decide (kv.1 = b name)) (pf_vals p).
Definition Arg0 (p : Parsed) : bytes := default [] (head (pf_args p)).

(** Parsing stops at the first argument that is not a flag. *)
Lemma fs_Parse_stop fs vals s rest : head s <> Some "-"%char -> fs_Parse fs (s :: rest) vals = Ok (mkParsed vals (s :: rest)).
Proof. destruct s as [|[[] [] [] [] [] [] [] []] [|c t]]; intros H; try reflexivity; by destruct H. Qed.

(** ** The client (client.go) *)

Record client : Type := mkClient { c_base : bytes; c_token : bytes }.
Fixpoint trim_slashes (s : bytes) : bytes := match s with c :: s' => if decide (c = slash) then trim_slashes s' else s | [] => [] end.
(** [strings.TrimRight(s, "/")]. *)
Definition TrimRightSlash (s : bytes) : bytes := reverse (trim_slashes (reverse s)).
Definition newClient (base token : bytes) : client := mkClient (TrimRightSlash base) (TrimSpace token).

Record HttpReq : Type := mkHR { hr_Method : bytes; hr_Base : bytes; hr_Target : bytes; hr_Auth : bytes; hr_ContentType : bytes; hr_Body : bytes }.
Definition client_request (c : client) (method path contentType body : bytes) : HttpReq :=
  mkHR method (c_base c) path (if isE (c_token c) then [] else b "Bearer " ++ c_token c) contentType body.
(** [url.ParseQuery] and [Get]: the first value of a key, malformed pairs
    left out. *)
Definition add_pair (m : gmap bytes bytes) (pair : bytes) : gmap bytes bytes :=
  if isE pair || bool_decide (";"%char ∈ pair) then m
  else
    let '(k, v) := default (pair, []) (Cut "="%char pair) in
    match unescape true k, unescape true v with
    | Some k, Some v => match m !! k with None => <[k := v]> m | Some _ => m end
    | _, _ => m
    end.
Definition parse_query (s : bytes) : gmap bytes bytes := foldl add_pair ∅ (split_on "&"%char s).
(** The request as the server decodes it. *)
Definition server_view (r : HttpReq) : option Request :=
  let '(path, query) := default (hr_Target r, []) (Cut "?"%char (hr_Target r)) in
  path ← unescape false path;
  Some (mkReq (hr_Method r) path (hr_Auth r) (hr_ContentType r) (parse_query query) (hr_Body r, None)).
(** What becomes of a request on the network. *)
Inductive Transport : Type := Delivered | Refused (e : string) | AnswerLost (e : string).

(** ** Commands *)

Inductive Shown : Type :=
| ShowNothing
| ShowLine (s : bytes)
| ShowText (s : bytes)
| ShowJobs (items : list (Job * bytes))
| ShowDetail (job : Job) (run : option Run) (recent : list Transition)
| ShowDeployed (job : Job) (warning : option string).
Record Out : Type := mkOut { o_code : Z; o_shown : Shown }.
Definition newline : ascii := Zbyte 10.
Definition usage : Out := mkOut 2 ShowNothing.
Definition failed : Out := mkOut 1 ShowNothing.

Section Commands.
Context `{JT : JSONText} {B : Type} `{CB : ContainerBackend B}.
Variable (clock : nat -> Z) (idSource : nat -> bytes) (opts : Options).
Variable (yaml_manifest : bytes -> option sdkManifest) (ParseQuantity : bytes -> bool).
Variable (validate_ : bytes -> env_map -> result (bytes * bytes * json)) (agent : bytes -> bytes -> result Z).
Variable (Logs_ : bytes -> Z -> B -> result bytes) (Capacity_ : B -> result json) (agentGet : bytes -> bytes -> result (Z * bytes)).
Variables (index logo token : bytes).
(** the network, and the environment of the command *)
Variable (network : HttpReq -> Transport) (getenv : string -> bytes).
Abbreviation serve_ := (serve clock idSource opts yaml_manifest ParseQuantity validate_ agent Logs_ Capacity_ agentGet index logo token).

(** A redirect is followed with GET. *)
Definition exchange (r : HttpReq) : M B Response :=
  match server_view r with
  | None => mret (mkResp 400 (BText (b "400 Bad Request")))
  | Some q =>
      resp ← serve_ q;
      match rs_Body resp with
      | BRedirect p => serve_ (mkReq (b "GET") p (q_Authorization q) [] (q_Query q) ([], None))
      | _ => mret resp
      end
  end.
Definition apiError (body : Body) : string := match body with BError m => m | _ => "" end.
Definition verdict (resp : Response) : result Body :=
  if (rs_Status resp <? 200) || (300 <=? rs_Status resp) then
    Err (if decide (apiError (rs_Body resp) = "") then "controller returned an error" else apiError (rs_Body resp))%string
  else Ok (rs_Body resp).
Definition client_do (c : client) (method path contentType body : bytes) : M B (result Body) :=
  let r := client_request c method path contentType body in
  match network r with
  | Refused e => mret (Err ("contacting controller: " +:+ e))
  | AnswerLost e => _ ← exchange r; mret (Err ("contacting controller: " +:+ e))
  | Delivered =>
      resp ← exchange r; mret (verdict resp)
  end.

Definition submit_payload (doc : bytes) (env : env_map) : json :=
  JObj ((b "workflow", enc_str doc) :: (if decide (env = ∅) then [] else [(b "env", marshal_map enc_str env)])).
Definition client_submit (c : client) (doc : bytes) (env : env_map) : M B (result (Job * option string)) :=
  r ← client_do c (b "POST") (b "/jobs") (b "application/json") (json_print (submit_payload doc env));
  mret (match r with
        | Ok (BWarning job w) => Ok (job, if decide (w = "")%string then None else Some w)
        | Ok (BJob job) => Ok (job, None)
        | Ok _ => Err "unexpected response"
        | Err e => Err e
        end).
Definition job_target (id : bytes) (action : string) : bytes := b "/jobs/" ++ PathEscape id ++ b "/" ++ b action.
Definition client_cancel (c : client) (id : bytes) : M B (result Body) := client_do c (b "POST") (job_target id "cancel") [] [].
Definition client_restart (c : client) (id savepoint : bytes) : M B (result Job) :=
  r ← (if isE savepoint then client_do c (b "POST") (job_target id "restart") [] []
       else client_do c (b "POST") (job_target id "restart") (b "application/json") (json_print (JObj [(b "savepoint", enc_str savepoint)])));
  mret (match r with Ok (BJob job) => Ok job | Ok _ => Err "unexpected response" | Err e => Err e end).
Definition client_savepoint (c : client) (id label : bytes) : M B (result Body) :=
  client_do c (b "POST") (job_target id "savepoint" ++ b "?label=" ++ QueryEscape label) [] [].
Definition client_logs (c : client) (id : bytes) (tail : Z) : M B (result bytes) :=
  r ← client_do c (b "GET") (job_target id "logs" ++ b "?tail=" ++ dec_ tail) [] [];
  mret (match r with Ok (BText t) => Ok t | Ok _ => Err "unexpected response" | Err e => Err e end).
Definition client_listJobs (c : client) : M B (result (list (Job * bytes))) :=
  r ← client_do c (b "GET") (b "/jobs") [] [];
  mret (match r with Ok (BJobs items) => Ok items | Ok _ => Err "unexpected response" | Err e => Err e end).
Definition client_getJob (c : client) (id : bytes) : M B (result (Job * option Run * list Transition)) :=
  r ← client_do c (b "GET") (b "/jobs/" ++ PathEscape id) [] [];
  mret (match r with Ok (BDetail job run trans) => Ok (job, run, trans) | Ok _ => Err "unexpected response" | Err e => Err e end).

(** *** Management (commands.go) *)

Definition envOr (key : string) (def : bytes) : bytes := if isE (getenv key) then def else getenv key.
Definition controllerFlags : FlagSet := [(b "controller", FString); (b "token", FString)].
Definition controller_client (p : Parsed) : client :=
  newClient (flag_string "controller" (envOr "WEIBO_CONTROLLER" (b "http://localhost:9000")) p) (flag_string "token" (getenv "WEIBO_TOKEN") p).
(** Parse, then the command; a parse error exits with 2. *)
Definition with_flags (extra : FlagSet) (args : list bytes) (k : Parsed -> M B Out) : M B Out :=
  match fs_Parse (controllerFlags ++ extra) args [] with Err _ => mret usage | Ok p => k p end.
Definition with_job (p : Parsed) (k : bytes -> M B Out) : M B Out := if isE (Arg0 p) then mret usage else k (Arg0 p).

Definition runJobs (args : list bytes) : M B Out := with_flags [] args (λ p,
  r ← client_listJobs (controller_client p);
  mret (match r with
        | Err _ => failed
        | Ok [] => mkOut 0 (ShowLine (b "no jobs"))
        | Ok items => mkOut 0 (ShowJobs items)
        end)).
(** The last eight transitions, oldest first. *)
Definition runStatus (args : list bytes) : M B Out := with_flags [] args (λ p, with_job p (λ id,
  r ← client_getJob (controller_client p) id;
  mret (match r with
        | Err _ => failed
        | Ok (job, run, trans) => mkOut 0 (ShowDetail job run (drop (length trans - 8) trans))
        end))).
Definition runLogs (args : list bytes) : M B Out := with_flags [(b "tail", FInt)] args (λ p, with_job p (λ id,
  r ← client_logs (controller_client p) id (flag_int "tail" 200 p);
  mret (match r with
        | Err _ => failed
        | Ok out => mkOut 0 (ShowText (match last out with Some c => if decide (c = newline) then out else out ++ [newline] | None => out end))
        end))).
Definition runCancel (args : list bytes) : M B Out := with_flags [] args (λ p, with_job p (λ id,
  r ← client_cancel (controller_client p) id;
  mret (match r with Err _ => failed | Ok _ => mkOut 0 (ShowLine (b "cancelling " ++ id)) end))).
Definition runRestart (args : list bytes) : M B Out := with_flags [(b "savepoint", FString)] args (λ p, with_job p (λ id,
  r ← client_restart (controller_client p) id (flag_string "savepoint" [] p);
  mret (match r with
        | Err _ => failed
        | Ok job => mkOut 0 (ShowLine (b "restarting " ++ j_ID job ++
            (if isE (flag_string "savepoint" [] p) then b " from last checkpoint" else b " from savepoint")))
        end))).
Definition runSavepoint (args : list bytes) : M B Out := with_flags [(b "label", FString)] args (λ p,
  let label := flag_string "label" [] p in
  if isE (Arg0 p) || isE label then mret usage
  else
    r ← client_savepoint (controller_client p) (Arg0 p) label;
    mret (match r with Err _ => failed | Ok _ => mkOut 0 (ShowLine (b "savepoint: stopping " ++ Arg0 p)) end)).

(** *** Deployment (deploy.go) *)

(** A YAML document as nodes; [YOther] is a node of another kind, with its
    value. *)
Inductive ynode : Type := YScalar (tag value : bytes) | YMap (content : list (ynode * ynode)) | YOther (value : bytes).
Definition node_Value (n : ynode) : bytes := match n with YScalar _ v | YOther v => v | YMap _ => [] end.
Definition fullImageRef (registry image : bytes) : bytes :=
  let registry := TrimRightSlash registry in
  if isE registry || bool_decide (slash ∈ image) then image else registry ++ [slash] ++ image.
(** The first top-level member of that name gets the scalar. *)
Fixpoint set_member (key value : bytes) (content : list (ynode * ynode)) : option (list (ynode * ynode)) :=
  match content with
  | [] => None
  | (k, v) :: rest =>
      if bool_decide (node_Value k = key) then Some ((k, YScalar (b "!!str") value) :: rest)
      else rest ← set_member key value rest; Some ((k, v) :: rest)
  end.
(** the file system, the docker command line (its error), and yaml.v3 *)
Variable (readFile : bytes -> result bytes) (docker : list bytes -> option string).
Variable (yaml_head : bytes -> result (bytes * bytes * bytes)) (yaml_parse : bytes -> result ynode) (yaml_print : ynode -> result bytes).

Definition rewriteManifestImage (doc newImage : bytes) : result bytes :=
  root ← yaml_parse doc;
  match root with
  | YMap content =>
      match set_member (b "image") newImage content with
      | Some content => yaml_print (YMap content)
      | None => Err "no top-level image field to rewrite"
      end
  | _ => Err "manifest is not a YAML mapping"
  end.
Fixpoint parseEnv (pairs : list bytes) (env : env_map) : result env_map :=
  match pairs with
  | [] => Ok env
  | p :: pairs =>
      match Cut "="%char p with
      | Some (k, v) => if isE k then Err "invalid -env (want KEY=VAL)" else parseEnv pairs (<[k := v]> env)
      | None => Err "invalid -env (want KEY=VAL)"
      end
  end.
Definition deployFlags : FlagSet := [
  (b "file", FString); (b "dockerfile", FString); (b "context", FString); (b "registry", FString);
  (b "no-build", FBool); (b "no-push", FBool); (b "env", FMulti)].
Definition build_args (p : Parsed) (image : bytes) : list bytes :=
  [b "build"; b "-f"; flag_string "dockerfile" (b "Dockerfile") p; b "-t"; image; flag_string "context" (b ".") p].
(** The docker steps of an image job, up to the first that fails: what was run,
    and the error. *)
Fixpoint docker_steps (steps : list (list bytes)) : list (list bytes) * option string :=
  match steps with
  | [] => ([], None)
  | args :: steps =>
      match docker args with
      | Some e => ([args], Some e)
      | None => let '(ran, e) := docker_steps steps in (args :: ran, e)
      end
  end.
(** The document to submit after the docker steps; what was run. *)
Definition prepare_image (p : Parsed) (doc kind image : bytes) : list (list bytes) * result bytes :=
  if EqualFold kind (b "sdk") && negb (isE image) then
    let full := fullImageRef (flag_string "registry" (getenv "WEIBO_REGISTRY") p) image in
    match (if bool_decide (full = image) then Ok doc else rewriteManifestImage doc full) with
    | Err e => ([], Err e)
    | Ok doc =>
        let steps := (if flag_bool "no-build" p then [] else [build_args p full]) ++ (if flag_bool "no-push" p then [] else [[b "push"; full]]) in
        let '(ran, err) := docker_steps steps in
        (ran, match err with Some e => Err e | None => Ok doc end)
    end
  else ([], Ok doc).
Definition runDeploy (args : list bytes) : M B (Out * list (list bytes)) :=
  match fs_Parse (controllerFlags ++ deployFlags) args [] with
  | Err _ => mret (usage, [])
  | Ok p =>
      match readFile (flag_string "file" (b "weibo.yaml") p) with
      | Err _ => mret (failed, [])
      | Ok doc =>
          match yaml_head doc with
          | Err _ => mret (failed, [])
          | Ok (kind, _, image) =>
              match parseEnv (flag_all "env" p) ∅ with
              | Err _ => mret (failed, [])
              | Ok env =>
                  match prepare_image p doc kind image with
                  | (ran, Err _) => mret (failed, ran)
                  | (ran, Ok doc) =>
                      r ← client_submit (controller_client p) doc env;
                      mret (match r with Err _ => failed | Ok (job, w) => mkOut 0 (ShowDeployed job w) end, ran)
                  end
              end
          end
      end
  end.
End Commands.

(** *** Small helpers (main.go, commands.go) *)

Definition splitCSV (s : bytes) : list bytes := List.filter (λ p, negb (isE p)) (TrimSpace <$> split_on ","%char s).
Definition kindOr (k : bytes) : bytes := if isE k then b "yaml" else k.

(** ** What the server sees of a request *)

Lemma Cut_app sep s t : sep ∉ s -> Cut sep (s ++ sep :: t) = Some (s, t).
Proof.
  induction s as [|c s IH]; intros H; cbn; [by rewrite decide_True|]. rewrite not_elem_of_cons in H. destruct H as [H1 H2].
  rewrite decide_False by congruence. by rewrite IH.
Qed.
Lemma Cut_None sep s : sep ∉ s -> Cut sep s = None.
Proof.
  induction s as [|c s IH]; intros H; cbn; [done|]. rewrite not_elem_of_cons in H. destruct H as [H1 H2].
  rewrite decide_False by congruence. by rewrite IH.
Qed.
Lemma unescape_app s t : "%"%char ∉ s -> unescape false (s ++ t) = rest ← unescape false t; Some (s ++ rest).
Proof.
  induction s as [|c s IH]; intros H; cbn [app]; [by destruct (unescape false t)|]. rewrite not_elem_of_cons in H. destruct H as [H1 H2].
  assert (E : unescape false (c :: s ++ t) = rest ← unescape false (s ++ t); Some (c :: rest)) by (destruct c as [[] [] [] [] [] [] [] []]; done).
  rewrite E, IH by done. by destruct (unescape false t).
Qed.
(** Characters that an escaped text never holds. *)
Definition special (c : ascii) : bool := bool_decide (c ∈ b "?&=;/").
Lemma PathEscape_free s c : special c = true -> c <> "&"%char -> c <> "="%char -> c ∉ PathEscape s.
Proof.
  intros Hc H1 H2. unfold PathEscape. induction s as [|x s IH]; cbn [flat_map]; [apply not_elem_of_nil|]. rewrite not_elem_of_app. split; [|done].
  assert (Hx : forallb (λ y, negb (special y) || bool_decide (y ∈ b "&=")) (if path_plain x then [x] else percent x) = true) by (destruct x as [[] [] [] [] [] [] [] []]; vm_compute; reflexivity).
  rewrite forallb_forall in Hx. intros Hin. apply list_elem_of_In in Hin. specialize (Hx c Hin). rewrite Hc in Hx. apply bool_decide_eq_true in Hx. set_solver.
Qed.
Lemma QueryEscape_free s c : special c = true -> c ∉ QueryEscape s.
Proof.
  intros Hc. unfold QueryEscape. induction s as [|x s IH]; cbn [flat_map]; [apply not_elem_of_nil|]. rewrite not_elem_of_app. split; [|done].
  assert (Hx : forallb (λ y, negb (special y)) (if unreserved x then [x] else if bool_decide (x = " "%char) then ["+"%char] else percent x) = true)
    by (destruct x as [[] [] [] [] [] [] [] []]; vm_compute; reflexivity).
  rewrite forallb_forall in Hx. intros Hin. apply list_elem_of_In in Hin. specialize (Hx c Hin). by rewrite Hc in Hx.
Qed.

(** A plain word: what the names of actions are. *)
Definition word (a : bytes) : bool := negb (isE a) && forallb (λ c, alnum c) a.
Lemma word_free a c : word a = true -> alnum c = false -> c ∉ a.
Proof.
  intros [_ H]%andb_prop Hc Hin. rewrite forallb_forall in H. apply list_elem_of_In in Hin. specialize (H c Hin). cbn in H. congruence.
Qed.
Lemma word_ordinary a : word a = true -> ordinary a.
Proof.
  intros H. split; [|by apply word_free]. unfold dotty. pose proof (word_free a "."%char H eq_refl) as Hd. pose proof H as [H1 _]%andb_prop.
  apply negb_true_iff in H1. rewrite H1. unfold eqs. rewrite !bool_decide_false; [done|intros ->; set_solver..].
Qed.

Definition job_action_path (id : bytes) (action : string) : bytes := b "/jobs/" ++ id ++ b "/" ++ b action.
Lemma job_target_unescape id a : word (b a) = true -> unescape false (job_target id a) = Some (job_action_path id a).
Proof.
  intros Ha. unfold job_target, job_action_path. rewrite unescape_app, PathEscape_app by (apply not_elem_of_cons; set_solver).
  rewrite <- (app_nil_r (b "/" ++ b a)), unescape_app; [done|]. pose proof (word_free _ "%"%char Ha eq_refl). set_solver.
Qed.
Lemma job_target_free id a : word (b a) = true -> "?"%char ∉ job_target id a.
Proof.
  intros Ha. unfold job_target. rewrite !not_elem_of_app. pose proof (word_free _ "?"%char Ha eq_refl).
  split_and!; [set_solver|by apply PathEscape_free|set_solver|done].
Qed.
Lemma server_view_plain c m id a ct body : word (b a) = true ->
  server_view (client_request c m (job_target id a) ct body) =
  Some (mkReq m (job_action_path id a) (hr_Auth (client_request c m [] [] [])) ct ∅ (body, None)).
Proof.
  intros Ha. unfold server_view, client_request. cbn [hr_Target hr_Method hr_Auth hr_ContentType hr_Body]. rewrite Cut_None by (by apply job_target_free).
  cbn [default]. by rewrite job_target_unescape.
Qed.
Lemma parse_query_label label : parse_query (b "label=" ++ QueryEscape label) = {[b "label" := label]}.
Proof.
  unfold parse_query. rewrite split_on_plain by (rewrite not_elem_of_app; split; [set_solver|by apply QueryEscape_free]). cbn [foldl]. unfold add_pair.
  pose proof (QueryEscape_free label ";"%char eq_refl) as Hs.
  rewrite (bool_decide_false (";"%char ∈ _)) by (rewrite not_elem_of_app; split; [set_solver|done]).
  unfold isE. rewrite bool_decide_false by done. cbn [orb].
  change (b "label=" ++ QueryEscape label) with (b "label" ++ "="%char :: QueryEscape label). rewrite Cut_app by set_solver. unfold default, id. cbv iota.
  by rewrite QueryEscape_inverse.
Qed.
Lemma server_view_label c m id a label : word (b a) = true ->
  server_view (client_request c m (job_target id a ++ b "?label=" ++ QueryEscape label) [] []) =
  Some (mkReq m (job_action_path id a) (hr_Auth (client_request c m [] [] [])) [] {[b "label" := label]} ([], None)).
Proof.
  intros Ha. unfold server_view, client_request. cbn [hr_Target hr_Method hr_Auth hr_ContentType hr_Body].
  change (b "?label=" ++ QueryEscape label) with ("?"%char :: b "label=" ++ QueryEscape label). rewrite Cut_app by (by apply job_target_free).
  cbv [default from_option Datatypes.id]. rewrite job_target_unescape by done. cbn [mbind option_bind]. by rewrite parse_query_label.
Qed.

(** ** Where a request goes *)

Lemma match_path_length pat segs id : match_path pat segs = Some id -> length pat = length segs.
Proof.
  revert segs id. induction pat as [|[s|] pat IH]; intros [|x segs] id; cbn; try done.
  - case_bool_decide; [|done]. intros Hm. f_equal. by eapply IH.
  - destruct (isE x); [done|]. destruct (match_path pat segs) eqn:E; [|done]. intros _. f_equal. by eapply IH.
Qed.
Lemma match_job_path a id action : id <> [] -> match_path (job_path a) [b "jobs"; id; action] = if bool_decide (action = b a) then Some id else None.
Proof.
  intros Hid. unfold job_path. cbn [match_path]. rewrite bool_decide_true by done. unfold isE. rewrite bool_decide_false by done. by case_bool_decide.
Qed.
Lemma job_action_clean id a : ordinary id -> word (b a) = true -> clean_path (job_action_path id a) true [b "jobs"; id; b a].
Proof.
  intros Hid Ha. split; [done|done|]. apply (stack_push true [] [b "jobs"; id; b a]); [done|]. repeat constructor; [by apply word_ordinary|by destruct Hid..|by apply word_ordinary|].
  by apply word_free.
Qed.

Section Served.
Context `{JT : JSONText} {B : Type} `{CB : ContainerBackend B}.
Variable (clock : nat -> Z) (idSource : nat -> bytes) (opts : Options).
Variable (yaml_manifest : bytes -> option sdkManifest) (ParseQuantity : bytes -> bool).
Variable (validate_ : bytes -> env_map -> result (bytes * bytes * json)) (agent : bytes -> bytes -> result Z).
Variable (Logs_ : bytes -> Z -> B -> result bytes) (Capacity_ : B -> result json) (agentGet : bytes -> bytes -> result (Z * bytes)).
Variables (index logo token : bytes).
Variable (network : HttpReq -> Transport) (getenv : string -> bytes).
Abbreviation serve_ := (serve clock idSource opts yaml_manifest ParseQuantity validate_ agent Logs_ Capacity_ agentGet index logo token).
Abbreviation dispatch_ := (dispatch (routes clock idSource opts yaml_manifest ParseQuantity validate_ agent Logs_ Capacity_ agentGet index logo) false).
Abbreviation client_do_ := (client_do clock idSource opts yaml_manifest ParseQuantity validate_ agent Logs_ Capacity_ agentGet index logo token network).

(** A request for an action on a job, as the client sends it. *)
Definition authorized (c : client) : Prop := token = [] \/ c_token c = token.
Lemma served_dispatch c m id a ct query body : authorized c -> ordinary id -> word (b a) = true ->
  let q := mkReq m (job_action_path id a) (hr_Auth (client_request c m [] [] [])) ct query (body, None) in serve_ q = dispatch_ q.
Proof.
  intros Hauth Hid Ha q. pose proof (job_action_clean id a Hid Ha) as Hc.
  assert (E : Handler clock idSource opts yaml_manifest ParseQuantity validate_ agent Logs_ Capacity_ agentGet index logo q = dispatch_ q).
  { unfold Handler. rewrite bool_decide_true; [done|]. cbn [q_Path q]. unfold cleanPath. change (rooted (job_action_path id a)) with true. cbv iota.
    rewrite (clean_path_fix _ _ _ Hc). rewrite (bool_decide_false (last _ = _)); [done|]. unfold job_action_path. rewrite !app_assoc, last_app.
    destruct (last (b a)) eqn:El; [|apply last_None in El; rewrite El in Ha; done]. intros [= ->]. apply last_Some_elem_of in El. by apply (word_free _ slash Ha). }
  unfold serve. destruct (isE token) eqn:Et; [done|]. destruct (publicRoute q); [done|]. rewrite bool_decide_true; [done|].
  destruct Hauth as [->|Ht]; [done|]. cbn [q_Authorization q client_request hr_Auth]. by rewrite Ht, Et.
Qed.
Lemma dispatch_action m h id a ct query body auth : ordinary id -> word (b a) = true ->
  (m, a, h) ∈ [(b "POST", "cancel"%string, h_cancel clock); (b "POST", "restart"%string, h_restart clock idSource opts yaml_manifest);
               (b "POST", "savepoint"%string, h_savepoint clock agent)] ->
  let q := mkReq m (job_action_path id a) auth ct query (body, None) in dispatch_ q = h q id.
Proof.
  intros Hid Ha Hin q. assert (Hs : segments (q_Path q) = [b "jobs"; id; b a]).
  { cbn [q_Path q]. unfold segments. by rewrite (clean_split _ _ _ (job_action_clean id a Hid Ha)). }
  assert (Hne : id <> []) by (by intros ->; destruct Hid).
  assert (Hskip : forall r rs al, length (rt_Path r) <> 3%nat -> dispatch (B := B) (r :: rs) al q = dispatch rs al q).
  { intros r rs al Hl. cbn [dispatch]. rewrite Hs. destruct (match_path _ _) eqn:E; [|done]. apply match_path_length in E. done. }
  assert (Hjob : forall m' a' (h' : Request -> bytes -> M B Response) rs al, dispatch (B := B) (mkRoute m' (job_path a') h' :: rs) al q =
    if bool_decide (a = a') then if method_matches (q_Method q) m' then h' q id else dispatch rs true q else dispatch rs al q).
  { intros m' a' h' rs al. cbn [dispatch rt_Path rt_Method rt_Handler]. rewrite Hs, match_job_path by done.
    destruct (decide (a = a')) as [->|Hn]; [by rewrite !bool_decide_true|]. rewrite (bool_decide_false (a = a')) by done. rewrite bool_decide_false; [done|].
    intros E. apply Hn. by apply b_inj. }
  unfold routes. do 9 (rewrite Hskip by done). rewrite !Hjob. set_unfold in Hin. destruct Hin as [[= -> -> ->]|[[= -> -> ->]|[[= -> -> ->]|[]]]]; reflexivity.
Qed.

Definition no_redirect (r : Response) : bool := match rs_Body r with BRedirect _ => false | _ => true end.
Lemma client_do_handled c m path ct body q (h : M B Response) w : network (client_request c m path ct body) = Delivered ->
  server_view (client_request c m path ct body) = Some q -> serve_ q = h -> no_redirect (h w).1 = true ->
  client_do_ c m path ct body w = (verdict (h w).1, (h w).2).
Proof.
  intros Hn Hv <- Hr. unfold client_do, exchange. rewrite Hn, Hv. cbv [mbind M_bind mret M_ret]. destruct (serve_ q w) as [r w']. cbn [fst snd] in *.
  unfold no_redirect in Hr. by destruct (rs_Body r).
Qed.

Hypothesis Hnet : forall r, network r = Delivered.
Hypothesis Htoken : token = [] \/ TrimSpace (getenv "WEIBO_TOKEN") = token.
Variable (id : bytes).
Hypothesis Hid : ordinary id.
Hypothesis Hdash : head id <> Some "-"%char.
Lemma id_nonempty : isE id = false.
Proof. destruct Hid as [H _]. unfold dotty in H. by apply orb_false_iff in H as [[? _]%orb_false_iff _]. Qed.
Lemma client_authorized p : flag_string "token" (getenv "WEIBO_TOKEN") p = getenv "WEIBO_TOKEN" -> authorized (controller_client getenv p).
Proof. intros E. destruct Htoken as [?|?]; [by left|right]. unfold controller_client, newClient. cbn [c_token]. by rewrite E. Qed.

Abbreviation runCancel_ := (runCancel clock idSource opts yaml_manifest ParseQuantity validate_ agent Logs_ Capacity_ agentGet index logo token network getenv).
Abbreviation runRestart_ := (runRestart clock idSource opts yaml_manifest ParseQuantity validate_ agent Logs_ Capacity_ agentGet index logo token network getenv).
Abbreviation runSavepoint_ := (runSavepoint clock idSource opts yaml_manifest ParseQuantity validate_ agent Logs_ Capacity_ agentGet index logo token network getenv).


(** An action the client asks for is one handler of the server. *)
Definition actions : list (bytes * string * (Request -> bytes -> M B Response)) := [
  (b "POST", "cancel"%string, h_cancel clock); (b "POST", "restart"%string, h_restart clock idSource opts yaml_manifest);
  (b "POST", "savepoint"%string, h_savepoint clock agent)].
Lemma actions_word m a h : (m, a, h) ∈ actions -> word (b a) = true.
Proof. intros H. set_unfold in H. destruct H as [[= -> -> ->]|[[= -> -> ->]|[[= -> -> ->]|[]]]]; reflexivity. Qed.
Lemma client_action c m a h ct body w : authorized c -> (m, a, h) ∈ actions ->
  let q := mkReq m (job_action_path id a) (hr_Auth (client_request c m [] [] [])) ct ∅ (body, None) in no_redirect (h q id w).1 = true ->
  client_do_ c m (job_target id a) ct body w = (verdict (h q id w).1, (h q id w).2).
Proof.
  intros Hc Ha q Hr. pose proof (actions_word _ _ _ Ha) as Hw. apply (client_do_handled _ _ _ _ _ q); [done|by apply server_view_plain| |done].
  unfold q. rewrite served_dispatch by done. by apply dispatch_action.
Qed.
Lemma client_action_label c m a h label w : authorized c -> (m, a, h) ∈ actions ->
  let q := mkReq m (job_action_path id a) (hr_Auth (client_request c m [] [] [])) [] {[b "label" := label]} ([], None) in no_redirect (h q id w).1 = true ->
  client_do_ c m (job_target id a ++ b "?label=" ++ QueryEscape label) [] [] w = (verdict (h q id w).1, (h q id w).2).
Proof.
  intros Hc Ha q Hr. pose proof (actions_word _ _ _ Ha) as Hw. apply (client_do_handled _ _ _ _ _ q); [done|by apply server_view_label| |done].
  unfold q. rewrite served_dispatch by done. by apply dispatch_action.
Qed.

Lemma cancel_command w :
  let '(r, w') := Cancel clock id w in (o_code (runCancel_ [id] w).1, (runCancel_ [id] w).2) = (if is_ok r then 0 else 1, w').
Proof.
  destruct (Cancel clock id w) as [r w'] eqn:E. unfold runCancel, with_flags. rewrite fs_Parse_stop by done.
  unfold with_job, Arg0. cbn [head default pf_args]. cbv [from_option Datatypes.id]. rewrite id_nonempty. unfold client_cancel. cbv [mbind M_bind mret M_ret].
  rewrite (client_action _ _ _ (h_cancel clock)); [|by apply client_authorized|set_solver|];
    unfold h_cancel, answer; cbv [mbind M_bind mret M_ret]; rewrite E; by destruct r.
Qed.
Lemma savepoint_command label w : label <> [] ->
  let '(r, w') := Savepoint clock agent id label w in
  (o_code (runSavepoint_ [b "-label"; label; id] w).1, (runSavepoint_ [b "-label"; label; id] w).2) = (if is_ok r then 0 else 1, w').
Proof.
  intros Hl. destruct (Savepoint clock agent id label w) as [r w'] eqn:E. unfold runSavepoint, with_flags.
  change (fs_Parse ?fs [b "-label"; label; id] []) with (fs_Parse fs [id] [(b "label", label)]). rewrite fs_Parse_stop by done.
  change (flag_string "label" [] (mkParsed [(b "label", label)] [id])) with label. unfold Arg0. cbn [head default pf_args]. cbv [from_option Datatypes.id].
  rewrite id_nonempty. unfold isE. rewrite bool_decide_false by done. cbn [orb]. unfold client_savepoint. cbv [mbind M_bind mret M_ret].
  assert (Hsp : forall q w0, q_Query q = {[b "label" := label]} -> Savepoint clock agent id label w0 = (r, w') -> h_savepoint clock agent q id w0 =
    (match r with Err e => writeErr 409 e | Ok _ => mkResp 202 (BStatus [(b "savepoint", label); (b "status", b "stopping")]) end, w')).
  { intros q w0 Hq E0. unfold h_savepoint, savepointLabel, answer. rewrite Hq, lookup_singleton_eq. cbn [default]. cbv [from_option Datatypes.id].
    destruct label; [done|]. cbv [mbind M_bind mret M_ret]. by rewrite E0. }
  rewrite (client_action_label _ _ _ (h_savepoint clock agent)); [|by apply client_authorized|set_solver|]; rewrite Hsp by done; by destruct r.
Qed.

(** The handler of a restart, once the label is read. *)
Lemma restart_handled q label w : savepointLabel q = Ok label ->
  let op := if isE label then Restart clock idSource opts yaml_manifest id else RestartFromSavepoint clock idSource opts yaml_manifest id label in
  h_restart clock idSource opts yaml_manifest q id w =
  (match (op w).1 with
   | (None, Some e) => writeErr 404 e
   | (Some _, Some e) => writeErr 500 e
   | (Some job, None) => mkResp 202 (BJob job)
   | (None, None) => mkResp 202 (BStatus [])
   end, (op w).2).
Proof.
  intros E op. unfold h_restart. rewrite E. cbv [mbind M_bind answer mret M_ret]. fold op. by destruct (op w) as [[[j|] [e|]] w'].
Qed.
Definition restart_code (r : option Job * option string) : Z := match r with (Some _, None) => 0 | _ => 1 end.
Lemma restart_command w :
  let '(r, w') := Restart clock idSource opts yaml_manifest id w in (o_code (runRestart_ [id] w).1, (runRestart_ [id] w).2) = (restart_code r, w').
Proof.
  pose proof (λ q, restart_handled q [] w) as Hh. cbn zeta in Hh. change (isE []) with true in Hh. cbv iota in Hh.
  destruct (Restart clock idSource opts yaml_manifest id w) as [r w'] eqn:E. cbn [fst snd] in Hh. unfold runRestart, with_flags. rewrite fs_Parse_stop by done.
  unfold with_job, Arg0. cbn [head default pf_args]. cbv [from_option Datatypes.id]. rewrite id_nonempty.
  change (flag_string "savepoint" [] (mkParsed [] [id])) with (@nil ascii). unfold client_restart. change (isE []) with true. cbv [mbind M_bind mret M_ret].
  rewrite (client_action _ _ _ (h_restart clock idSource opts yaml_manifest)); [|by apply client_authorized|set_solver|]; rewrite Hh by done; by destruct r as [[j|] [e|]].
Qed.
Lemma restore_command label w : label <> [] -> utf8_valid label -> Z.of_nat (length (json_print (JObj [(b "savepoint", enc_str label)]))) < labelLimit ->
  json_print (JObj [(b "savepoint", enc_str label)]) <> [] ->
  let args := [b "-savepoint"; label; id] in
  let '(r, w') := RestartFromSavepoint clock idSource opts yaml_manifest id label w in (o_code (runRestart_ args w).1, (runRestart_ args w).2) = (restart_code r, w').
Proof.
  intros Hl Hu Hlen Hne args. pose proof (λ q, restart_handled q label w) as Hh. cbn zeta in Hh. unfold isE in Hh. rewrite bool_decide_false in Hh by done.
  assert (Hlab : forall m p a ct, savepointLabel (mkReq m p a ct ∅ (json_print (JObj [(b "savepoint", enc_str label)]), None)) = Ok label).
  { intros. unfold savepointLabel. cbn [q_Query q_Body]. rewrite lookup_empty. cbn [default]. cbv [from_option Datatypes.id]. unfold read_limited. cbn [fst snd].
    destruct (Z.leb_spec labelLimit (Z.of_nat (length (json_print (JObj [(b "savepoint", enc_str label)]))))); [lia|]. cbn [mbind result_bind].
    destruct (json_print _) eqn:Ej; [done|]. rewrite <- Ej, json_parse_print. unfold member. rewrite jfield_here. cbn [jfield]. unfold enc_str. by rewrite Hu. }
  destruct (RestartFromSavepoint clock idSource opts yaml_manifest id label w) as [r w'] eqn:E. cbn [fst snd] in Hh. unfold runRestart, with_flags, args.
  change (fs_Parse ?fs [b "-savepoint"; label; id] []) with (fs_Parse fs [id] [(b "savepoint", label)]). rewrite fs_Parse_stop by done.
  unfold with_job, Arg0. cbn [head default pf_args]. cbv [from_option Datatypes.id]. rewrite id_nonempty.
  change (flag_string "savepoint" [] (mkParsed [(b "savepoint", label)] [id])) with label. unfold client_restart. unfold isE. rewrite (bool_decide_false (label = [])) by done.
  cbv [mbind M_bind mret M_ret].
  rewrite (client_action _ _ _ (h_restart clock idSource opts yaml_manifest)); [|by apply client_authorized|set_solver|]; rewrite Hh by apply Hlab; by destruct r as [[j|] [e|]].
Qed.

(** A command exits with this code and leaves the controller in this state. *)
Definition performs (out : Out * World B) (code : Z) (w' : World B) : Prop := o_code out.1 = code /\ out.2 = w'.
(** C24: the management commands are the controller's operations.  Against a
    controller that is reachable, answers every request and whose token they
    hold, cancel, savepoint and restart leave the controller in the state its
    own operation leaves it in and exit with 0 exactly when that operation
    succeeds, provided that flags come before the job's id (the order of the
    usage lines drops them, see [documented_order_drops_flags]) and that the
    label is not empty, is valid UTF-8 and fits the server's limit on the
    request. *)
Theorem commands_are_controller_operations label w :
  label <> [] -> utf8_valid label -> 0 < Z.of_nat (length (json_print (JObj [(b "savepoint", enc_str label)]))) < labelLimit ->
  performs (runCancel_ [id] w) (if is_ok (Cancel clock id w).1 then 0 else 1) (Cancel clock id w).2 /\
  performs (runSavepoint_ [b "-label"; label; id] w) (if is_ok (Savepoint clock agent id label w).1 then 0 else 1) (Savepoint clock agent id label w).2 /\
  performs (runRestart_ [id] w) (restart_code (Restart clock idSource opts yaml_manifest id w).1) (Restart clock idSource opts yaml_manifest id w).2 /\
  performs (runRestart_ [b "-savepoint"; label; id] w) (restart_code (RestartFromSavepoint clock idSource opts yaml_manifest id label w).1)
    (RestartFromSavepoint clock idSource opts yaml_manifest id label w).2.
Proof.
  intros Hl Hu [Hpos Hlen]. split_and!.
  - pose proof (cancel_command w) as H. destruct (Cancel clock id w). by injection H.
  - pose proof (savepoint_command label w Hl) as H. destruct (Savepoint clock agent id label w). by injection H.
  - pose proof (restart_command w) as H. destruct (Restart clock idSource opts yaml_manifest id w). by injection H.
  - assert (Hne : json_print (JObj [(b "savepoint", enc_str label)]) <> []) by (intros E; rewrite E in Hpos; cbn in Hpos; lia).
    pose proof (restore_command label w Hl Hu Hlen Hne) as H. cbv zeta in H. destruct (RestartFromSavepoint clock idSource opts yaml_manifest id label w). by injection H.
Qed.
End Served.

(** *** Documents arrive *)

Lemma submit_arrives `{JT : JSONText} c doc env q :
  utf8_valid doc -> (forall k v, env !! k = Some v -> utf8_valid k /\ utf8_valid v) ->
  Z.of_nat (length (json_print (submit_payload doc env))) < workflowLimit ->
  server_view (client_request c (b "POST") (b "/jobs") (b "application/json") (json_print (submit_payload doc env))) = Some q ->
  readWorkflow q = Ok (doc, env).
Proof.
  intros Hd He Hl. assert (Hv : server_view (client_request c (b "POST") (b "/jobs") (b "application/json") (json_print (submit_payload doc env))) =
    Some (mkReq (b "POST") (b "/jobs") (if isE (c_token c) then [] else b "Bearer " ++ c_token c) (b "application/json") ∅ (json_print (submit_payload doc env), None)))
    by reflexivity.
  rewrite Hv. intros [= <-]. unfold readWorkflow, read_limited. cbn [q_Body fst snd].
  destruct (Z.leb_spec workflowLimit (Z.of_nat (length (json_print (submit_payload doc env))))); [lia|].
  change (isJSON _) with true. cbv iota. rewrite json_parse_print. unfold submit_payload. unfold member. rewrite jfield_here. unfold enc_str at 1. rewrite Hd.
  unfold env_member. rewrite jfield_skip by done. destruct (decide (env = ∅)) as [->|Hne]; [done|]. rewrite jfield_here. cbn [marshal_map].
  rewrite (proj2 (forallb_forall _ _)); [|intros [k j] Hin; apply list_elem_of_In, list_elem_of_fmap in Hin as ([k' v'] & [= -> ->] & _); done].
  change (JObj _) with (marshal_map enc_str env) at 1. rewrite unmarshal_marshal_str; [done|naive_solver].
Qed.

(** *** Deployment *)

(** The value of the first top-level member of that name. *)
Definition member_value (key : bytes) (content : list (ynode * ynode)) : option ynode :=
  snd <$> find (λ kv, bool_decide (node_Value kv.1 = key)) content.
Lemma set_member_spec key value content content' : set_member key value content = Some content' ->
  member_value key content' = Some (YScalar (b "!!str") value) /\ content'.*1 = content.*1 /\
  forall k, k <> key -> member_value k content' = member_value k content.
Proof.
  unfold member_value. revert content'. induction content as [|[k v] rest IH]; intros content'; cbn [set_member]; [done|].
  case_bool_decide as Hk; [intros [= <-]|].
  - cbn. rewrite bool_decide_true by done. split_and!; [done..|]. intros k' Hk'. by rewrite !bool_decide_false by congruence.
  - destruct (set_member key value rest) as [rest'|]; [|done]. intros [= <-]. destruct (IH _ eq_refl) as (H1 & H2 & H3). cbn.
    rewrite (bool_decide_false (node_Value k = key)) by done. split_and!; [done|by rewrite H2|]. intros k' Hk'. case_bool_decide; [done|by apply H3].
Qed.

Section Deploy.
Context `{JT : JSONText} {B : Type} `{CB : ContainerBackend B}.
Variable (clock : nat -> Z) (idSource : nat -> bytes) (opts : Options).
Variable (yaml_manifest : bytes -> option sdkManifest) (ParseQuantity : bytes -> bool).
Variable (validate_ : bytes -> env_map -> result (bytes * bytes * json)) (agent : bytes -> bytes -> result Z).
Variable (Logs_ : bytes -> Z -> B -> result bytes) (Capacity_ : B -> result json) (agentGet : bytes -> bytes -> result (Z * bytes)).
Variables (index logo token : bytes).
Variable (network : HttpReq -> Transport) (getenv : string -> bytes).
Variable (readFile : bytes -> result bytes) (docker : list bytes -> option string).
Variable (yaml_head : bytes -> result (bytes * bytes * bytes)) (yaml_parse : bytes -> result ynode) (yaml_print : ynode -> result bytes).
Abbreviation runDeploy_ := (runDeploy clock idSource opts yaml_manifest ParseQuantity validate_ agent Logs_ Capacity_ agentGet index logo token network getenv
  readFile docker yaml_head yaml_parse yaml_print).
Abbreviation client_submit_ := (client_submit clock idSource opts yaml_manifest ParseQuantity validate_ agent Logs_ Capacity_ agentGet index logo token network).

Lemma docker_steps_prefix steps : let '(ran, e) := docker_steps docker steps in
  (exists n, ran = take n steps) /\ (e = None -> ran = steps) /\ Forall (λ a, docker a = None) (match e with None => ran | Some _ => removelast ran end).
Proof.
  induction steps as [|a steps IH]; cbn [docker_steps]; [split; [by exists 0%nat|by split]|]. destruct (docker a) as [e|] eqn:E.
  - split; [by exists 1%nat|]. split; [done|constructor].
  - destruct (docker_steps docker steps) as [ran e]. destruct IH as ([n ->] & H2 & H3). split; [by exists (S n)|]. split; [intros He; by rewrite H2|].
    destruct e; [|by constructor]. cbn [removelast]. destruct (take n steps); [constructor|by constructor].
Qed.

(** A deployment submits what it pushed.  For an image manifest docker only
    sees the resolved image, built before it is pushed; the controller is asked
    only after every step succeeded, and otherwise nothing of it changes; the
    submitted document is the file, or the file with its top-level image, and
    nothing else, replaced by the resolved image. *)
Theorem deploy_submits_what_it_pushed args p doc kind name image env w :
  fs_Parse (controllerFlags ++ deployFlags) args [] = Ok p -> readFile (flag_string "file" (b "weibo.yaml") p) = Ok doc ->
  yaml_head doc = Ok (kind, name, image) -> parseEnv (flag_all "env" p) ∅ = Ok env -> EqualFold kind (b "sdk") = true -> image <> [] ->
  let full := fullImageRef (flag_string "registry" (getenv "WEIBO_REGISTRY") p) image in
  let steps := (if flag_bool "no-build" p then [] else [build_args p full]) ++ (if flag_bool "no-push" p then [] else [[b "push"; full]]) in
  let '(_, ran, w') := runDeploy_ args w in
  (exists n, ran = take n steps) /\
  (w' = w \/ ran = steps /\ Forall (λ a, docker a = None) ran /\
     exists doc', w' = (client_submit_ (controller_client getenv p) doc' env w).2 /\
       (full = image /\ doc' = doc \/
        exists content content', yaml_parse doc = Ok (YMap content) /\ yaml_print (YMap content') = Ok doc' /\
          member_value (b "image") content' = Some (YScalar (b "!!str") full) /\
          (forall k, k <> b "image" -> member_value k content' = member_value k content))).
Proof.
  intros Hp Hf Hy He Hk Hi full steps. unfold runDeploy. rewrite Hp, Hf, Hy, He. unfold prepare_image. rewrite Hk. unfold isE. rewrite (bool_decide_false (image = [])) by done.
  cbn [andb negb]. fold full steps. pose proof (docker_steps_prefix steps) as Hd.
  assert (Hdoc : forall doc', (if bool_decide (full = image) then Ok doc else rewriteManifestImage yaml_parse yaml_print doc full) = Ok doc' ->
    full = image /\ doc' = doc \/ exists content content', yaml_parse doc = Ok (YMap content) /\ yaml_print (YMap content') = Ok doc' /\
      member_value (b "image") content' = Some (YScalar (b "!!str") full) /\ (forall k, k <> b "image" -> member_value k content' = member_value k content)).
  { intros doc'. case_bool_decide; [intros [= <-]; by left|]. unfold rewriteManifestImage. destruct (yaml_parse doc) as [root|]; [|done]. cbn [mbind result_bind].
    destruct root as [|content|]; try done. destruct (set_member _ _ content) as [content'|] eqn:E; [|done]. intros Hpr. right. exists content, content'.
    apply set_member_spec in E as (H1 & _ & H3). by split_and!. }
  destruct (if bool_decide _ then _ else _) as [doc'|]; [|split; [by exists 0%nat|by left]]. specialize (Hdoc doc' eq_refl).
  destruct (docker_steps docker steps) as [ran err]. destruct Hd as (H1 & H2 & H3). destruct err as [e|]; [split; [done|by left]|].
  cbv [mbind M_bind mret M_ret]. destruct (client_submit_ _ doc' env w) as [r w'] eqn:Es. split; [done|]. right. split; [by apply H2|]. split; [done|].
  exists doc'. by rewrite Es.
Qed.
End Deploy.

(** ** On the fake backend *)

Definition cli_id (i : nat) : bytes := replicate (S i) "x"%char.
Definition cli_world : World Fake := (Submit (B := Fake) sec_clock cli_id demo_opts no_manifest any_quantity demo_validate (b "spec") ∅ (fresh_world NewFake)).2.
Definition cli_env (key : string) : bytes := if bool_decide (key = "WEIBO_TOKEN"%string) then b " s3cret " else [].
Definition cli_savepoint (args : list bytes) := runSavepoint (B := Fake) sec_clock cli_id demo_opts no_manifest any_quantity demo_validate demo_agent
  (λ _ _ _, Ok []) (λ _, Ok JNull) (λ _ _, Ok (200, [])) (b "<html>") [] (b "s3cret") (λ _, Delivered) cli_env args cli_world.
Lemma commands_are_controller_operations_witness :
  let label := b "v1 rc/2" in
  is_ok (Savepoint sec_clock demo_agent (cli_id 0) label cli_world).1 = true /\
  performs (cli_savepoint [b "-label"; label; cli_id 0]) (if is_ok (Savepoint sec_clock demo_agent (cli_id 0) label cli_world).1 then 0 else 1)
    (Savepoint sec_clock demo_agent (cli_id 0) label cli_world).2.
Proof.
  intros label. split; [vm_compute; reflexivity|]. unfold cli_savepoint.
  apply (commands_are_controller_operations (B := Fake) sec_clock cli_id demo_opts no_manifest any_quantity demo_validate demo_agent
    (λ _ _ _, Ok []) (λ _, Ok JNull) (λ _ _, Ok (200, [])) (b "<html>") [] (b "s3cret") (λ _, Delivered) cli_env).
  - done.
  - right. vm_compute. reflexivity.
  - split; [vm_compute; reflexivity|]. vm_compute. intros H. inversion H; subst. inversion H2.
  - discriminate.
  - discriminate.
  - vm_compute. reflexivity.
  - split; vm_compute; reflexivity.
Defined.

Definition demo_head (doc : bytes) : result (bytes * bytes * bytes) := Ok (b "SDK", b "orders", b "orders:1.0").
Definition demo_tree (doc : bytes) : result ynode := Ok (YMap [(YScalar (b "!!str") (b "kind"), YScalar (b "!!str") (b "SDK")); (YScalar (b "!!str") (b "image"), YScalar (b "!!str") (b "orders:1.0"))]).
Definition demo_yaml (n : ynode) : result bytes :=
  match n with YMap content => Ok (concat ((λ kv : ynode * ynode, node_Value kv.1 ++ b ": " ++ node_Value kv.2 ++ [newline]) <$> content)) | _ => Err "not a mapping" end.
Definition deploy_args : list bytes := [b "-registry"; b "docker.io/me/"; b "-env"; b "A=1"; b "-no-build=true"].
Definition demo_deploy (docker : list bytes -> option string) := runDeploy (B := Fake) sec_clock cli_id demo_opts no_manifest any_quantity demo_validate demo_agent
  (λ _ _ _, Ok []) (λ _, Ok JNull) (λ _ _, Ok (200, [])) (b "<html>") [] [] (λ _, Delivered) (λ _, []) (λ _, Ok (b "kind: SDK")) docker demo_head demo_tree demo_yaml
  deploy_args (fresh_world NewFake).
Lemma deploy_submits_what_it_pushed_witness :
  (demo_deploy (λ _, None)).1.2 = [[b "push"; b "docker.io/me/orders:1.0"]] /\ jobs (w_store (demo_deploy (λ _, None)).2) <> [] /\
  (demo_deploy (λ _, Some "denied"%string)).2 = fresh_world NewFake.
Proof.
  split; [vm_compute; reflexivity|]. split; [vm_compute; discriminate|].
  pose proof (deploy_submits_what_it_pushed (B := Fake) sec_clock cli_id demo_opts no_manifest any_quantity demo_validate demo_agent
    (λ _ _ _, Ok []) (λ _, Ok JNull) (λ _ _, Ok (200, [])) (b "<html>") [] [] (λ _, Delivered) (λ _, []) (λ _, Ok (b "kind: SDK")) (λ _, Some "denied"%string) demo_head demo_tree demo_yaml
    deploy_args _ (b "kind: SDK") (b "SDK") (b "orders") (b "orders:1.0") {[b "A" := b "1"]} (fresh_world NewFake) eq_refl eq_refl eq_refl) as H.
  fold (demo_deploy (λ _, Some "denied"%string)) in H. destruct (demo_deploy _) as [[o ran] w']. cbn [fst snd] in *.
  destruct H as [_ [->|(-> & Hf & _)]]; [vm_compute; reflexivity|vm_compute; reflexivity|discriminate|reflexivity|]. vm_compute in Hf. inversion Hf; discriminate.
Defined.

(** ** The documented order of arguments *)

Section Documented.
Context `{JT : JSONText} {B : Type} `{CB : ContainerBackend B}.
Variable (clock : nat -> Z) (idSource : nat -> bytes) (opts : Options).
Variable (yaml_manifest : bytes -> option sdkManifest) (ParseQuantity : bytes -> bool).
Variable (validate_ : bytes -> env_map -> result (bytes * bytes * json)) (agent : bytes -> bytes -> result Z).
Variable (Logs_ : bytes -> Z -> B -> result bytes) (Capacity_ : B -> result json) (agentGet : bytes -> bytes -> result (Z * bytes)).
Variables (index logo token : bytes).
Variable (network : HttpReq -> Transport) (getenv : string -> bytes).

(** Flag parsing stops at the job's id, so [weibo savepoint <id> -label L] asks
    for its usage, and [weibo restart <id> -savepoint L] restarts from the last
    checkpoint instead of the savepoint. *)
Theorem documented_order_drops_flags (id label : bytes) (w : World B) : head id <> Some "-"%char ->
  runSavepoint clock idSource opts yaml_manifest ParseQuantity validate_ agent Logs_ Capacity_ agentGet index logo token network getenv [id; b "-label"; label] w = (usage, w) /\
  runRestart clock idSource opts yaml_manifest ParseQuantity validate_ agent Logs_ Capacity_ agentGet index logo token network getenv [id; b "-savepoint"; label] w =
  runRestart clock idSource opts yaml_manifest ParseQuantity validate_ agent Logs_ Capacity_ agentGet index logo token network getenv [id] w.
Proof.
  intros Hid. unfold runSavepoint, runRestart, with_flags. rewrite !fs_Parse_stop by done. split; [|done].
  change (flag_string "label" [] _) with (@nil ascii). change (isE (@nil ascii)) with true. by rewrite orb_true_r.
Qed.
End Documented.
