(* ===== verification/Startup.v ===== *)
(** * control/cmd/weibo: dispatch and the dashboard command

    [main] and [runDashboard] (main.go): flags, the choice and preflight of a
    container backend, opening and migrating the job database
    (store/sqlite.go), the reconciler's loop (reconcile.go), and the address
    the browser is sent to.  Clients, the listener and the database engine's
    failures are arguments; opening a browser is not modelled. *)
From S2P Require Import Prelude Paths GoTime Strconv Json Duration Storage Lifecycle JobStore Backend Docker Kubernetes Control ControlProofs BuiltinOps Api Workflow Compile Cli.

(** ** The listen address as a URL *)

(** [net.SplitHostPort]. *)
Definition SplitHostPort (hostport : bytes) : result (bytes * bytes) :=
  match Cut ":"%char (reverse hostport) with
  | None => Err "missing port in address"
  | Some (rport, rbefore) =>
      let port := reverse rport in
      let before := reverse rbefore in
      match hostport with
      | "["%char :: rest =>
          match Cut "]"%char rest with
          | None => Err "missing ']' in address"
          | Some (host, after) =>
              if isE after then Err "missing port in address"
              else if bool_decide (before = "["%char :: host ++ b "]") then
                if bool_decide ("["%char ∈ rest) then Err "unexpected '[' in address"
                else if bool_decide ("]"%char ∈ after) then Err "unexpected ']' in address"
                else Ok (host, port)
              else if bool_decide (head after = Some ":"%char) then Err "too many colons in address" else Err "missing port in address"
          end
      | _ =>
          if bool_decide (":"%char ∈ before) then Err "too many colons in address"
          else if bool_decide ("["%char ∈ hostport) then Err "unexpected '[' in address"
          else if bool_decide ("]"%char ∈ hostport) then Err "unexpected ']' in address"
          else Ok (before, port)
      end
  end.
Definition browserURL (addr : bytes) : bytes :=
  match SplitHostPort addr with
  | Err _ => b "http://localhost" ++ addr
  | Ok (host, port) =>
      let host := if isE host || eqs host "0.0.0.0" || eqs host "::" then b "localhost" else host in
      b "http://" ++ host ++ b ":" ++ port
  end.

Definition plain_text (s : bytes) : Prop := (":"%char ∉ s) /\ ("["%char ∉ s) /\ ("]"%char ∉ s).
Lemma split_plain host port : plain_text host -> plain_text port -> SplitHostPort (host ++ ":"%char :: port) = Ok (host, port).
Proof.
  intros (H1 & H2 & H3) (P1 & P2 & P3). unfold SplitHostPort. rewrite reverse_app, reverse_cons, <- app_assoc. cbn [app].
  rewrite Cut_app by (by rewrite elem_of_reverse). rewrite !reverse_involutive.
  assert (Hin : forall c, c <> ":"%char -> c ∉ host -> c ∉ port -> c ∉ host ++ ":"%char :: port).
  { intros c Hc Hh Hp. rewrite elem_of_app, elem_of_cons. naive_solver. }
  assert (Hb : "["%char ∉ host ++ ":"%char :: port) by (by apply Hin). assert (He : "]"%char ∉ host ++ ":"%char :: port) by (by apply Hin).
  destruct (host ++ ":"%char :: port) as [|c rest] eqn:E; [by destruct host|].
  assert (Hc : c <> "["%char) by (intros ->; apply Hb; left).
  destruct c as [[] [] [] [] [] [] [] []]; try (by destruct Hc); rewrite !bool_decide_false by done; done.
Qed.
(** A listen address of a name or IPv4 host and a port is opened at that host
    and port, and an open address at localhost. *)
Theorem browser_url_reaches host port : plain_text host -> plain_text port ->
  browserURL (host ++ ":"%char :: port) = b "http://" ++ (if isE host || eqs host "0.0.0.0" then b "localhost" else host) ++ b ":" ++ port.
Proof.
  intros Hh Hp. unfold browserURL. rewrite split_plain by done. replace (eqs host "::") with false; [by rewrite orb_false_r|].
  symmetry. apply bool_decide_false. intros ->. destruct Hh as [[] _]. left.
Qed.
(** The brackets of an IPv6 host are dropped: the URL is not one. *)
Theorem ipv6_url_drops_brackets : browserURL (b "[::1]:9000") = b "http://::1:9000".
Proof. vm_compute. reflexivity. Qed.

(** ** The backend *)

Inductive Chosen : Type := UseDocker (image : bytes) | UseKubernetes (kubeconfig : bytes) (opts : KubernetesOptions).
Section Dashboard.
(** What the clients answer at start-up: connecting, pinging, and whether the
    image is there. *)
Variable NewDocker : option string.
Variables (dockerPing : option string) (dockerHasImage : bytes -> result bool).
Variable NewKubernetes : bytes -> KubernetesOptions -> option string.
Variable kubePing : option string.

(** The backend, or the exit code. *)
Definition makeBackend (kind image namespace kubeconfig : bytes) (pullSecrets : list bytes) (pvcSize storageClass : bytes) : Chosen + Z :=
  if eqs kind "docker" then
    match NewDocker, dockerPing, dockerHasImage image with
    | Some _, _, _ | None, Some _, _ => inr 1
    | None, None, Ok false => inr 1
    | None, None, _ => inl (UseDocker image)
    end
  else if eqs kind "kubernetes" || eqs kind "k8s" then
    let opts := mkKOpts namespace image pvcSize storageClass pullSecrets in
    match NewKubernetes kubeconfig opts, kubePing with
    | Some _, _ | None, Some _ => inr 1
    | None, None => inl (UseKubernetes kubeconfig opts)
    end
  else inr 2.

(** ** The database *)

(** The jobs table: its columns, and its rows. *)
Record Table : Type := mkTable { tb_cols : list bytes; tb_rows : list (gmap bytes bytes) }.
Definition job_columns : list bytes :=
  b <$> ["id"; "name"; "kind"; "image"; "spec"; "delivery"; "graph"; "desired_state"; "created_at"; "updated_at"]%string.
(** CREATE TABLE IF NOT EXISTS and ALTER TABLE ADD COLUMN with a default. *)
Definition create_if_missing (t : option Table) : Table := default (mkTable job_columns []) t.
Definition add_column (col def : bytes) (t : Table) : result Table :=
  if bool_decide (col ∈ tb_cols t) then Err "duplicate column name"
  else Ok (mkTable (tb_cols t ++ [col]) ((λ row, <[col := def]> row) <$> tb_rows t)).
Definition migrations : list (bytes * bytes) := [(b "kind", b "yaml"); (b "image", [])].
Definition duplicate_column (e : string) : bool := bool_decide (e = "duplicate column name"%string).
(** [fault i]: the engine's own failure of the [i]th statement. *)
Fixpoint migrate (fault : nat -> option string) (i : nat) (ms : list (bytes * bytes)) (t : Table) : result Table :=
  match ms with
  | [] => Ok t
  | (col, def) :: ms =>
      match fault i with
      | Some e => Err ("store: migrate: " +:+ e)
      | None => match add_column col def t with
                | Ok t => migrate fault (S i) ms t
                | Err e => if duplicate_column e then migrate fault (S i) ms t else Err ("store: migrate: " +:+ e)
                end
      end
  end.
Definition OpenSQLite (openErr : option string) (fault : nat -> option string) (db : option Table) : result Table :=
  match openErr, fault 0%nat with
  | Some e, _ => Err e
  | None, Some e => Err ("store: apply schema: " +:+ e)
  | None, None => migrate fault 1 migrations (create_if_missing db)
  end.

(** ** The command *)

Record Dash : Type := mkDash {
  da_addr : bytes; da_image : bytes; da_db : bytes; da_interval : Z; da_open : bool; da_backend : Chosen; da_maxJobs : Z; da_cpu : bytes; da_mem : bytes; da_token : bytes;
}.
Definition dashboardFlags : FlagSet := [
  (b "addr", FString); (b "image", FString); (b "db", FString); (b "reconcile", FDuration); (b "no-open", FBool); (b "backend", FString); (b "namespace", FString);
  (b "kubeconfig", FString); (b "image-pull-secrets", FString); (b "pvc-size", FString); (b "storage-class", FString); (b "max-jobs", FInt);
  (b "default-job-cpu", FString); (b "default-job-memory", FString); (b "auth-token", FString)].
Variable getenv : string -> bytes.
(** Opening the store at a path, and serving until the listener closes: [None]
    is a shutdown. *)
Variable openStore : bytes -> result Table.
Variable listenAndServe : Dash -> option string.
(** The exit code, and what was served. *)
Definition runDashboard (args : list bytes) : Z * option Dash :=
  match fs_Parse dashboardFlags args [] with
  | Err _ => (2, None)
  | Ok p =>
      let str_flag name def := flag_string name (b def) p in
      let image := str_flag "image"%string "weibo-runner:dev"%string in
      match makeBackend (str_flag "backend"%string "docker"%string) image (str_flag "namespace"%string "default"%string) (flag_string "kubeconfig" [] p)
              (splitCSV (flag_string "image-pull-secrets" [] p)) (str_flag "pvc-size"%string "1Gi"%string) (flag_string "storage-class" [] p) with
      | inr rc => (rc, None)
      | inl be =>
          match openStore (str_flag "db"%string "./weibo-control.db"%string) with
          | Err _ => (1, None)
          | Ok _ =>
              let d := mkDash (str_flag "addr"%string ":9000"%string) image (str_flag "db"%string "./weibo-control.db"%string)
                (flag_duration "reconcile" (3 * Second) p) (negb (flag_bool "no-open" p)) be (flag_int "max-jobs" 0 p)
                (str_flag "default-job-cpu"%string "1"%string) (str_flag "default-job-memory"%string "1Gi"%string) (flag_string "auth-token" (getenv "WEIBO_AUTH_TOKEN") p) in
              (match listenAndServe d with Some _ => 1 | None => 0 end, Some d)
          end
      end
  end.
(** [main]: the exit code; [run] is a command with its arguments. *)
Variable run : bytes -> list bytes -> Z.
Definition commands : list bytes := b <$> ["dashboard"; "deploy"; "jobs"; "status"; "logs"; "cancel"; "restart"; "savepoint"]%string.
Definition helps : list bytes := b <$> ["-h"; "--help"; "help"]%string.
Definition main (args : list bytes) : Z :=
  match args with
  | [] => 2
  | cmd :: rest => if decide (cmd ∈ commands) then run cmd rest else if decide (cmd ∈ helps) then 0 else 2
  end.

(** Whatever is served was preflighted: the chosen backend's client connected
    and answered, Docker does not miss the runner image, the database opened;
    and the exit code is 0 only for a server that was shut down. *)
Theorem dashboard_preflights args : let '(code, served) := runDashboard args in
  match served with
  | Some d =>
      match da_backend d with
      | UseDocker image => image = da_image d /\ NewDocker = None /\ dockerPing = None /\ dockerHasImage image <> Ok false
      | UseKubernetes kc opts => ko_Image opts = da_image d /\ NewKubernetes kc opts = None /\ kubePing = None
      end /\ is_ok (openStore (da_db d)) = true /\ (code = 0 <-> listenAndServe d = None)
  | None => code = 1 \/ code = 2
  end.
Proof.
  unfold runDashboard. destruct (fs_Parse _ args []) as [p|]; [|by right]. cbv zeta.
  set (image := flag_string "image" _ p). set (ns := flag_string "namespace" _ p).
  destruct (makeBackend _ image ns _ _ _ _) as [be|rc] eqn:Eb.
  - set (db := flag_string "db" _ p). destruct (openStore db) as [t|] eqn:Es; [|by left].
    set (d := mkDash _ _ _ _ _ _ _ _ _ _). cbn [da_backend da_image da_db d]. split_and!.
    + unfold makeBackend in Eb. destruct (eqs _ "docker").
      * destruct NewDocker; [done|]. destruct dockerPing; [done|]. destruct (dockerHasImage image) as [[]|] eqn:Eh; try discriminate Eb; injection Eb as <-; rewrite Eh; by split_and!.
      * destruct (_ || _); [|done]. destruct (NewKubernetes _ _) eqn:Ek; [done|]. destruct kubePing; [done|]. by injection Eb as <-.
    + by rewrite Es.
    + destruct (listenAndServe d); by split.
  - unfold makeBackend in Eb. destruct (eqs _ "docker").
    + destruct NewDocker; [left; congruence|]. destruct dockerPing; [left; congruence|]. destruct (dockerHasImage image) as [[]|]; try done. left. congruence.
    + destruct (_ || _); [|right; congruence]. destruct (NewKubernetes _ _); [left; congruence|]. destruct kubePing; [left; congruence|done].
Qed.

(** Opening an older database adds the columns it lacks, with their defaults,
    keeps every row, and opening the result again changes nothing. *)
Lemma add_column_missing col def t : (col ∉ tb_cols t) -> add_column col def t = Ok (mkTable (tb_cols t ++ [col]) ((λ row, <[col := def]> row) <$> tb_rows t)).
Proof. intros H. unfold add_column. by rewrite bool_decide_false. Qed.
Lemma add_column_present col def t : col ∈ tb_cols t -> add_column col def t = Err "duplicate column name".
Proof. intros H. unfold add_column. by rewrite bool_decide_true. Qed.
(** A row after a missing column was added. *)
Definition with_column (has : bool) (col def : bytes) (row : gmap bytes bytes) : gmap bytes bytes := if has then row else <[col := def]> row.
Definition has_col (col : string) (t : Table) : bool := bool_decide (b col ∈ tb_cols t).
Theorem open_migrates (t : Table) :
  exists t', OpenSQLite None (λ _, None) (Some t) = Ok t' /\
    (forall c, c ∈ tb_cols t' <-> c ∈ tb_cols t \/ c = b "kind" \/ c = b "image") /\
    tb_rows t' = (λ row, with_column (has_col "image" t) (b "image") [] (with_column (has_col "kind" t) (b "kind") (b "yaml") row)) <$> tb_rows t /\
    OpenSQLite None (λ _, None) (Some t') = Ok t'.
Proof.
  assert (Hne : b "image" <> b "kind") by discriminate.
  assert (Hd : duplicate_column "duplicate column name" = true) by (by apply bool_decide_true).
  assert (Hfix : forall t', b "kind" ∈ tb_cols t' -> b "image" ∈ tb_cols t' -> OpenSQLite None (λ _, None) (Some t') = Ok t').
  { intros t' Hk Hi. cbn. by rewrite (add_column_present (b "kind")), (add_column_present (b "image")). }
  unfold has_col, with_column. unfold OpenSQLite at 1, migrations. cbn [create_if_missing default migrate].
  destruct (decide (b "kind" ∈ tb_cols t)) as [Hk|Hk]; [rewrite add_column_present, (bool_decide_true (b "kind" ∈ _)) by done|rewrite add_column_missing, (bool_decide_false (b "kind" ∈ _)) by done];
    cbn [migrate]; (destruct (decide (b "image" ∈ tb_cols t)) as [Hi|Hi]; [rewrite (bool_decide_true (b "image" ∈ _)) by done|rewrite (bool_decide_false (b "image" ∈ _)) by done]).
  - rewrite Hd. rewrite add_column_present by done. rewrite Hd. exists t. split_and!; [done|naive_solver|by rewrite list_fmap_id|by apply Hfix].
  - rewrite Hd. rewrite add_column_missing by done. eexists. split_and!; [done|..].
    + intros c. cbn. rewrite elem_of_app, list_elem_of_singleton. naive_solver.
    + done.
    + apply Hfix; cbn; rewrite elem_of_app, list_elem_of_singleton; auto.
  - rewrite add_column_present by (cbn; rewrite elem_of_app; by left). rewrite Hd. eexists. split_and!; [done|..].
    + intros c. cbn. rewrite elem_of_app, list_elem_of_singleton. naive_solver.
    + done.
    + apply Hfix; cbn; rewrite elem_of_app, list_elem_of_singleton; auto.
  - rewrite add_column_missing by (cbn; rewrite elem_of_app, list_elem_of_singleton; naive_solver). eexists. split_and!; [done|..].
    + intros c. cbn. rewrite !elem_of_app, !list_elem_of_singleton. naive_solver.
    + cbn. by rewrite <- list_fmap_compose.
    + apply Hfix; cbn; rewrite !elem_of_app, !list_elem_of_singleton; auto.
Qed.
End Dashboard.

(** ** The reconciler's loop *)

Section Reconciler.
Context `{JT : JSONText} {B : Type} `{CB : ContainerBackend B}.
Variable (clock : nat -> Z) (idSource : nat -> bytes) (opts : Options) (yaml_manifest : bytes -> option sdkManifest).
Variable ParseQuantity : bytes -> bool.
Variable validate : bytes -> env_map -> result (bytes * bytes * json).
Variable (agent : bytes -> bytes -> result Z) (interrupted : bytes -> bool).

(** What wakes the loop: a tick, or the end of the context.  Between two wakes
    requests are served. *)
Inductive wake : Type := WTick | WDone.
Definition reconcile_interval (interval : Z) : Z := if interval <=? 0 then 3 * Second else interval.
Fixpoint RunReconciler (wakes : list wake) (w : World B) : World B :=
  match wakes with
  | WTick :: wakes => RunReconciler wakes (Reconcile clock idSource opts yaml_manifest interrupted w).2
  | WDone :: _ | [] => w
  end.
(** The loop is a sequence of passes, one per tick before the end, so what holds
    along the controller's steps holds of it. *)
Theorem reconciler_is_passes (wakes : list wake) (w : World B) :
  rtc (ctl_step clock idSource opts yaml_manifest ParseQuantity validate agent interrupted) w (RunReconciler wakes w) /\
  (forall interval, 0 < reconcile_interval interval) /\
  forall rest, RunReconciler (WDone :: rest) w = w.
Proof.
  split_and!; [|intros interval; unfold reconcile_interval; destruct (Z.leb_spec interval 0); [done|lia]|done].
  revert w. induction wakes as [|[] wakes IH]; intros w; [apply rtc_refl| |apply rtc_refl]. cbn.
  eapply rtc_l; [apply DoReconcile|apply IH].
Qed.
End Reconciler.
