(* ===== verification/Runner.v ===== *)
(** * Entry points: workflow files, the runner, SDK jobs and the agent's surface

    Loading a document by its extension (workflow/parse.go), compiling and
    running a file (workflow/runner/run.go), the process entry points
    (cmd/weibo-runner, cmd/weibo-workflow, sdk.Run) up to the lifecycle [Serve]
    of [JobAgent], and the agent's HTTP handlers (jobagent/http.go).  The YAML
    and JSON decoders, the file system and the engine's run are arguments. *)
From S2P Require Import Prelude Paths GoTime Strconv Types Json Duration Storage EngineState Savepoint JobAgent Operators Planner Fields BuiltinOps Api Workflow Compile CompileProofs Fluent Cli.

(** ** Files *)

(** [filepath.Ext]: from the last dot of the last element. *)
Fixpoint ext_loop (s : bytes) (found : bytes) : bytes :=
  match s with
  | [] => found
  | c :: s' => if decide (c = slash) then ext_loop s' [] else if decide (c = "."%char) then ext_loop s' s else ext_loop s' found
  end.
Definition Ext (path : bytes) : bytes := ext_loop path [].
Example ext_examples : Ext (b "/a.b/job.YAML") = b ".YAML" /\ Ext (b "/a.b/job") = [] /\ Ext (b "x.tar.gz") = b ".gz".
Proof. vm_compute. done. Qed.

Section Files.
Context `{OT : ObjectText}.
Variable readFile : bytes -> result bytes.
(** the strict YAML and JSON decoders *)
Variables ParseYAML ParseJSON : bytes -> result Workflow.
Variable (mkdir : bytes -> option bytes) (Resolve : bytes -> result bytes).
Variable (compileSource : SourceSpec -> result unit) (compileSink : SinkSpec -> result unit).

Definition Load (path : bytes) : result Workflow :=
  match readFile path with
  | Err e => Err ("workflow: read: " +:+ e)
  | Ok data =>
      let ext := ToLower (Ext path) in
      if eqs ext ".yaml" || eqs ext ".yml" then ParseYAML data
      else if eqs ext ".json" then ParseJSON data
      else Err "workflow: unsupported extension"
  end.
Definition CompileFile (path baseDataDir : bytes) : result CompiledWorkflow :=
  match Load path with
  | Err e => Err ("workflow runner: load: " +:+ e)
  | Ok spec =>
      match CompileWorkflow mkdir Resolve compileSource compileSink baseDataDir (Some spec) with
      | Err e => Err ("workflow runner: compile: " +:+ e)
      | Ok cw => Ok cw
      end
  end.
(** [execute]: the run of a compiled workflow, its error and whether it is a
    cancellation. *)
Variable execute : CompiledWorkflow -> option (string * bool).
Record RunResult : Type := mkRR { rr_Name : bytes; rr_Graph : PipelineGraph; rr_Delivery : DeliveryGuarantee }.
Definition RunFile (path baseDataDir : bytes) : result RunResult :=
  cw ← CompileFile path baseDataDir;
  match execute cw with
  | Some (e, _) => Err ("workflow runner: execute: " +:+ e)
  | None => Ok (mkRR (cw_Name cw) (cw_Graph cw) (cw_Delivery cw))
  end.

(** ** weibo-workflow *)

Record cliConfig : Type := mkCli { cc_file : bytes; cc_dataDir : bytes; cc_dryRun : bool; cc_describe : bool; cc_quiet : bool }.
Definition workflowFlags : FlagSet := [(b "file", FString); (b "data-dir", FString); (b "dry-run", FBool); (b "describe", FBool); (b "quiet", FBool)].
Definition parseFlags (args : list bytes) : result cliConfig :=
  p ← fs_Parse workflowFlags args [];
  let cfg := mkCli (flag_string "file" [] p) (flag_string "data-dir" [] p) (flag_bool "dry-run" p) (flag_bool "describe" p) (flag_bool "quiet" p) in
  if isE (cc_file cfg) then Err "missing required --file" else Ok cfg.
Definition formatOperators (ops : list (bytes * bytes)) : bytes :=
  match ops with [] => b "(none)" | _ => join (b ", ") ((λ op : bytes * bytes, op.1 ++ b "(" ++ op.2 ++ b ")") <$> ops) end.
(** What is printed: the summary and the description. *)
Inductive Printed : Type := PSummary (name : bytes) (delivery : DeliveryGuarantee) (source operators sink : bytes) | PDescription (cw : CompiledWorkflow).
Definition printed (cfg : cliConfig) (cw : CompiledWorkflow) : list Printed :=
  (if cc_quiet cfg then [] else [PSummary (cw_Name cw) (cw_Delivery cw) (g_Source (cw_Graph cw)) (formatOperators (g_Operators (cw_Graph cw))) (g_Sink (cw_Graph cw))]) ++
  (if cc_describe cfg then [PDescription cw] else []).
Definition exitOK : Z := 0.
Definition exitError : Z := 1.
Definition exitUsage : Z := 2.
(** The exit code, what is printed, and the workflow executed, if any. *)
Definition runCLI (args : list bytes) : Z * list Printed * option CompiledWorkflow :=
  match parseFlags args with
  | Err _ => (exitUsage, [], None)
  | Ok cfg =>
      match CompileFile (cc_file cfg) (cc_dataDir cfg) with
      | Err _ => (exitError, [], None)
      | Ok cw =>
          if cc_dryRun cfg then (exitOK, printed cfg cw, None)
          else (match execute cw with Some _ => exitError | None => exitOK end, printed cfg cw, Some cw)
      end
  end.
End Files.

(** ** Processes that serve a job *)

Section Processes.
Context `{OT : ObjectText} `{JT : JSONText} `{TT : TarText}.
Variable readFile : bytes -> result bytes.
Variables ParseYAML ParseJSON : bytes -> result Workflow.
Variable (mkdir : bytes -> option bytes) (Resolve : bytes -> result bytes).
Variable (compileSource : SourceSpec -> result unit) (compileSink : SinkSpec -> result unit).
Variable getenv : string -> bytes.
Variables (io k : nat).
Definition defaultDataDir : bytes := b "/data".
Definition serve_options (checkpointDir : bytes) : ServeOptions := mkSO checkpointDir (getenv "SAVEPOINT_DIR") (getenv "RESTORE_SAVEPOINT").

(** weibo-runner; [run_job]: the run of the compiled workflow under an agent. *)
Variable run_job : CompiledWorkflow -> Dest -> Dest * Agent * option (string * bool).
Definition runner_run (d : Disk) (x : Dest) : Z * Disk * Dest :=
  if isE (getenv "WORKFLOW") then (exitUsage, d, x)
  else
    let dataDir := orDefault (getenv "DATA_DIR") defaultDataDir in
    match mkdir dataDir with
    | Some _ => (exitError, d, x)
    | None =>
        match CompileFile readFile ParseYAML ParseJSON mkdir Resolve compileSource compileSink (getenv "WORKFLOW") dataDir with
        | Err _ => (exitError, d, x)
        | Ok cw => Serve (run_job cw) io k (serve_options (cw_CheckpointDir cw)) d x
        end
    end.

(** SDK jobs; [run_env]: the run of the environment the program built. *)
Variable build_job : StreamEnv -> StreamEnv.
Variable run_env : StreamEnv -> bytes -> Dest -> Dest * Agent * option (string * bool).
Definition fileStorage : bytes := b "*checkpoint.FileStorage".
(** The environment and checkpoint directory before the program builds its
    pipeline; an exit code when that fails. *)
Definition sdk_env : Z + StreamEnv * bytes :=
  let dataDir := orDefault (getenv "DATA_DIR") defaultDataDir in
  match mkdir dataDir with
  | Some _ => inl 1
  | None =>
      if isE (getenv "CHECKPOINT_INTERVAL") then inr (NewEnv, [])
      else
        match ParseDuration (getenv "CHECKPOINT_INTERVAL") with
        | Err _ => inl 2
        | Ok d =>
            if d <=? 0 then inl 2
            else
              let checkpointDir := path_Join [dataDir; b "checkpoints"] in
              match mkdir checkpointDir, mkdir (path_Join [dataDir; b "state"]) with
              | None, None => inr (WithStateBackend (WithCheckpointing d fileStorage NewEnv), checkpointDir)
              | _, _ => inl 1
              end
        end
  end.
Definition runBuild (d : Disk) (x : Dest) : Z * Disk * Dest :=
  match sdk_env with
  | inl code => (code, d, x)
  | inr (env, checkpointDir) => Serve (run_env (build_job env) checkpointDir) io k (serve_options checkpointDir) d x
  end.
End Processes.

(** ** What a process serves *)

Lemma compiled_checkpoint_dir `{OT : ObjectText} mkdir R cs ck root wf cw : CompileWorkflow mkdir R cs ck root (Some wf) = Ok cw ->
  cw_CheckpointDir cw = match re_Checkpointing (cw_Runtime cw) with Some (_, dir) => dir | None => [] end.
Proof.
  unfold CompileWorkflow. destruct (negb _); [done|]. destruct (resolveSecrets R wf) as [wf'|]; [|done]. cbn [mbind result_bind].
  destruct (cs (wf_Source wf')); [|done]. cbn [mbind result_bind]. destruct (CompileRuntime _ _ _ _) as [env|] eqn:Ec; [|done]. cbn [mbind result_bind].
  destruct (applyOperators _); [|done]. cbn [mbind result_bind]. destruct (ck (wf_Sink wf')); [|done]. cbn [mbind result_bind]. intros [= <-]. cbn.
  apply CompileRuntime_dir in Ec. by destruct (re_Checkpointing env) as [[i dir]|]; destruct_and?.
Qed.

(** A runner process either ends before anything runs, with the disk and the
    checkpoint storage as they were (2: no workflow named; 1: no data directory
    or a document that does not load or compile), or serves the compiled
    workflow with savepoints on the very directory the engine checkpoints to. *)
Theorem runner_process `{OT : ObjectText} `{JT : JSONText} `{TT : TarText} readFile PY PJ mkdir R cs ck getenv io k run_job d x :
  let path := getenv "WORKFLOW"%string in
  let dataDir := orDefault (getenv "DATA_DIR"%string) defaultDataDir in
  let compiled := CompileFile readFile PY PJ mkdir R cs ck path dataDir in
  let out := runner_run readFile PY PJ mkdir R cs ck getenv io k run_job d x in
  (path = [] /\ out = (exitUsage, d, x)) \/
  (path <> [] /\ (is_Some (mkdir dataDir) \/ is_ok compiled = false) /\ out = (exitError, d, x)) \/
  (path <> [] /\ exists cw, compiled = Ok cw /\ out = Serve (run_job cw) io k (serve_options getenv (cw_CheckpointDir cw)) d x /\
     cw_CheckpointDir cw = match re_Checkpointing (cw_Runtime cw) with Some (_, dir) => dir | None => [] end).
Proof.
  intros path dataDir compiled out. subst out. unfold runner_run. fold path dataDir compiled. unfold isE. case_bool_decide as Hp; [by left|]. right.
  destruct (mkdir dataDir) eqn:Em; [left; split; [done|]; split; [left; by eexists|done]|].
  destruct compiled as [cw|e] eqn:Ec; [|left; split; [done|]; split; [by right|done]]. right. split; [done|]. exists cw. split_and!; [done..|].
  unfold compiled, CompileFile in Ec. destruct (Load _ _ _ _) as [wf|]; [|done]. destruct (CompileWorkflow _ _ _ _ _ _) as [cw'|] eqn:E; [|done].
  injection Ec as ->. by eapply compiled_checkpoint_dir.
Qed.

(** An SDK job checkpoints exactly when it was given an interval, which is then
    positive, and its savepoints live in the same directory. *)
Theorem sdk_environment mkdir getenv e dir :
  sdk_env mkdir getenv = inr (e, dir) ->
  if isE (getenv "CHECKPOINT_INTERVAL"%string) then e = NewEnv /\ dir = []
  else ParseDuration (getenv "CHECKPOINT_INTERVAL"%string) = Ok (e_checkpointInterval e) /\ 0 < e_checkpointInterval e /\
       e_storage e = Some fileStorage /\ e_stateFactory e = true /\ dir = path_Join [orDefault (getenv "DATA_DIR"%string) defaultDataDir; b "checkpoints"].
Proof.
  unfold sdk_env. destruct (mkdir _); [done|]. destruct (isE _); [by intros [= <- <-]|]. destruct (ParseDuration _) as [i|]; [|done].
  destruct (Z.leb_spec i 0); [done|]. destruct (mkdir _); [done|]. destruct (mkdir _); [done|]. intros [= <- <-]. cbn. by split_and!.
Qed.

(** ** The agent's HTTP surface *)

Inductive AgentBody : Type := ABPhase (p : AgentPhase) | ABState (a : Agent) | ABDescribe | ABPlan | ABMetrics | ABLabel (label : bytes) (p : AgentPhase) | ABError (e : string).
(** One handler; [label] is the query's.  Between recording the label and the
    cancel of a savepoint request the lock is free; the steps are those of
    [ag_step]. *)
Definition agent_handler (method path label : bytes) (a : Agent) : Z * AgentBody * Agent :=
  let known := bool_decide (path ∈ [b "/healthz"; b "/state"; b "/describe"; b "/plan"; b "/metrics"]) in
  let acts := bool_decide (path ∈ [b "/cancel"; b "/savepoint"]) in
  if known then
    if method_matches method (b "GET") then
      (200, if eqs path "/healthz" then ABPhase (ag_Phase a) else if eqs path "/state" then ABState a
            else if eqs path "/describe" then ABDescribe else if eqs path "/plan" then ABPlan else ABMetrics, a)
    else (405, ABError "Method Not Allowed", a)
  else if acts then
    if method_matches method (b "POST") then
      if eqs path "/cancel" then let a := agent_Cancel a in (202, ABPhase (ag_Phase a), a)
      else if isE label then (400, ABError "missing ?label", a)
      else match RequestSavepoint label a with
           | (a, false) => (409, ABError "job is not running", a)
           | (a, true) => let a := agent_Cancel a in (202, ABLabel label (ag_Phase a), a)
           end
    else (405, ABError "Method Not Allowed", a)
  else (404, ABError "404 page not found", a).

(** The agent keeps its word.  Only an accepted POST changes it; a savepoint is
    answered 202 exactly while the run is in progress, and then the label is the
    one the runner will promote and the run is being cancelled; every change is a
    sequence of the agent's steps. *)
Theorem agent_surface w method path label :
  ag_reach w ->
  let '(status, _, a') := agent_handler method path label (aw_agent w) in
  (a' = aw_agent w \/ status = 202 /\ method = b "POST") /\
  (path = b "/savepoint" -> method = b "POST" -> label <> [] ->
     (status = 202 <-> ag_Phase (aw_agent w) = PhaseRunning \/ ag_Phase (aw_agent w) = PhaseCancelling) /\
     (status = 202 -> SavepointRequest a' = (label, true) /\ ag_Phase a' = PhaseCancelling /\ ag_cancelled a' = true)) /\
  exists w', aw_agent w' = a' /\ rtc (λ x y, exists e, ag_step x e y) w w'.
Proof.
  intros [H1 H2 _ _ _]%ag_reach_inv. destruct w as [a acc comp dn]. cbn [aw_agent aw_accepted aw_completed aw_done] in *.
  assert (Hrefl : forall P Q, P -> Q -> P /\ Q /\ exists w', aw_agent w' = a /\ rtc (λ x y, exists e, ag_step x e y) (mkAW a acc comp dn) w')
    by (intros P Q HP HQ; split_and!; [done..|]; exists (mkAW a acc comp dn); split; [done|apply rtc_refl]).
  assert (Hcancel : forall a0 acc0, rtc (λ x y, exists e, ag_step x e y) (mkAW a acc comp dn) (mkAW a0 acc0 comp dn) ->
    exists w', aw_agent w' = agent_Cancel a0 /\ rtc (λ x y, exists e, ag_step x e y) (mkAW a acc comp dn) w').
  { intros a0 acc0 Hr. eexists. split; [|eapply rtc_r; [exact Hr|exists ACancel; constructor]]. done. }
  unfold agent_handler. cbv zeta. destruct (bool_decide (path ∈ [b "/healthz"; _; _; _; _])) eqn:Ek.
  - assert (Hn : path <> b "/savepoint") by (intros ->; vm_compute in Ek; discriminate Ek).
    destruct (method_matches method (b "GET")); (cbv beta iota zeta; apply Hrefl; [by left|]); intros E; by destruct (Hn E).
  - destruct (bool_decide (path ∈ [b "/cancel"; _])) eqn:Ea; [|cbv beta iota zeta; apply Hrefl; [by left|intros ->; vm_compute in Ea; discriminate Ea]].
    clear Ek Ea. unfold method_matches. change (bool_decide (b "POST" = b "GET")) with false. cbn [andb]. rewrite orb_false_r.
    case_bool_decide as Hm; [|cbv beta iota zeta; apply Hrefl; [by left|done]]. unfold eqs. case_bool_decide as Hp.
    + subst path. cbv beta iota zeta. split; [right; by split|]. split; [intros E; discriminate E|]. by apply (Hcancel a acc).
    + unfold isE. case_bool_decide as Hl; [cbv beta iota zeta; apply Hrefl; [by left|done]|].
      destruct (RequestSavepoint label a) as [a1 ok] eqn:Er. unfold RequestSavepoint in Er.
      destruct (negb (ag_cancel a) || agent_Terminal (ag_Phase a)) eqn:Eg; injection Er as <- <-.
      * cbv beta iota zeta. apply Hrefl; [by left|]. intros _ _ _. split; [|done]. split; [done|]. apply orb_true_iff in Eg as [Eg|Eg].
        -- apply negb_true_iff, H1 in Eg. intros [?|?]; congruence.
        -- destruct (ag_Phase a); cbn in Eg; try done; by intros [?|?].
      * pose proof Eg as Eg0. apply orb_false_iff in Eg as [E1%negb_false_iff E2]. cbv beta iota zeta. split; [right; by split|]. split.
        -- intros _ _ _. split; [split; [intros _|done]; destruct (ag_Phase a) eqn:Ep; cbn in E2; try done; [|by left|by right]; assert (ag_cancel a = false) by tauto; congruence|].
           intros _. unfold agent_Cancel. cbn. rewrite E1, E2. by cbn.
        -- apply (Hcancel _ (acc ++ [label])). apply rtc_once. exists (ASavepoint label). pose proof (step_savepoint (mkAW a acc comp dn) label) as Hs.
           unfold RequestSavepoint in Hs. cbn [aw_agent aw_accepted aw_completed aw_done] in Hs. rewrite Eg0 in Hs. exact Hs.
Qed.
