(* ===== verification/Deployment.v ===== *)
(** * From a submission to the process that runs it

    How the controller, the compiler, the container backends and the runner fit
    together: [Controller.validate] compiles a document with the secrets of the
    request before a job is recorded (control/controller.go), a backend turns
    the launch into a container's environment (docker.go, kubernetes.go), and
    the runner compiles the same document again from that environment.

    [Delivers] is what the runner needs of a backend; Docker and Kubernetes
    provide it.  [recorded] is what the controller keeps of a job, through every
    operation. *)
From S2P Require Import Prelude Paths GoTime Strconv Types Json Storage EngineState Savepoint JobAgent Operators Planner Fields BuiltinOps Lifecycle JobStore Backend Control ControlProofs Workflow Compile CompileProofs Fluent Cli Runner.
From S2P Require Docker Kubernetes Ends.

(** ** Process environments *)

(** [os.LookupEnv] over the entries a process was started with: the name is the
    text before the first '='. *)
Fixpoint cut_entry (e : bytes) : option (bytes * bytes) :=
  match e with
  | [] => None
  | c :: e' => if decide (c = "="%char) then Some ([], e')
               else match cut_entry e' with Some (k, v) => Some (c :: k, v) | None => None end
  end.
Definition find_var (name : bytes) (l : list (bytes * bytes)) : option bytes :=
  snd <$> List.find (λ kv : bytes * bytes, bool_decide (kv.1 = name)) l.
Definition LookupEnv (environ : list bytes) (name : bytes) : option bytes := find_var name (omap cut_entry environ).
Definition Getenv (lookup : bytes -> option bytes) (name : string) : bytes := default [] (lookup (b name)).

(** [secrets.Environment]. *)
Definition Environment_Resolve (lookup : bytes -> option bytes) (name : bytes) : result bytes :=
  match lookup name with Some v => Ok v | None => Err "secret is not set" end.
(** The controller's resolver: the request's variables, then its own. *)
Definition chain_Resolve (environ : bytes -> option bytes) (env : env_map) (name : bytes) : result bytes :=
  match env !! name with Some v => Ok v | None => Environment_Resolve environ name end.

(** ** [Controller.validate] *)

Definition delivery_text (d : DeliveryGuarantee) : bytes :=
  match d with AtMostOnce => b "at-most-once" | AtLeastOnce => b "at-least-once" | ExactlyOnce => b "exactly-once" end.
Definition node_json (n : bytes * bytes) : json := JObj [(b "id", JStr n.1); (b "type", JStr n.2)].
Definition graph_json (g : PipelineGraph) : json :=
  JObj [(b "source", JStr (g_Source g)); (b "operators", JArr (node_json <$> g_Operators g)); (b "sink", JStr (g_Sink g))].

Section Validate.
Context `{OT : ObjectText}.
Variable ParseYAML : bytes -> result Workflow.
Variable (mkdir : bytes -> option bytes) (environ : bytes -> option bytes).
(** [os.MkdirTemp]: the throwaway data directory, removed again on return. *)
Variable mkdirTemp : result bytes.
Variable (compileSource : SourceSpec -> result unit) (compileSink : SinkSpec -> result unit).

Definition validate (doc : bytes) (env : env_map) : result (bytes * bytes * json) :=
  spec ← ParseYAML doc;
  tmp ← mkdirTemp;
  cw ← CompileWorkflow mkdir (chain_Resolve environ env) compileSource compileSink tmp (Some spec);
  Ok (cw_Name cw, delivery_text (cw_Delivery cw), graph_json (cw_Graph cw)).
End Validate.

(** ** The references of a document *)

Fixpoint refs_loop (fuel : nat) (s : bytes) : list bytes :=
  match fuel, s with
  | S fuel, _ :: s' => match secretRef s with Some (name, rest) => name :: refs_loop fuel rest | None => refs_loop fuel s' end
  | _, _ => []
  end.
Definition refs_one (value : bytes) : list bytes := if strings_Contains value (b "${") then refs_loop (length value) value else [].
Definition refs_sasl (s : option SASLSpec) : list bytes := match s with Some s => refs_one (Username s) ++ refs_one (Password s) | None => [] end.
Definition refs_source (src : SourceSpec) : list bytes := match src_Kafka src with Some k => refs_sasl (ks_SASL k) | None => [] end.
Definition refs_sink (snk : SinkSpec) : list bytes :=
  match sink_Kafka snk with Some k => refs_sasl (sk_SASL k) | None => [] end ++
  match sink_TxnKafka snk with Some k => refs_sasl (tk_SASL k) | None => [] end ++
  match sink_Postgres snk with Some p => refs_one (pg_DSN p) | None => [] end.
(** The names that compiling a document may resolve. *)
Definition references (wf : Workflow) : list bytes := refs_source (wf_Source wf) ++ refs_sink (wf_Sink wf).

Lemma span_word_chars l : forallb word_char (span_word l).1 = true.
Proof. induction l as [|c l IH]; [done|]. cbn. destruct (word_char c) eqn:E; [|done]. destruct (span_word l). cbn in *. by rewrite E. Qed.
Lemma secretRef_word s n rest : secretRef s = Some (n, rest) -> forallb word_char n = true.
Proof.
  unfold secretRef. destruct s as [|d [|o [|c s]]]; try done. destruct (_ && _); [|done].
  pose proof (span_word_chars (c :: s)) as H. destruct (span_word (c :: s)) as [w [|e r]]; [done|]. destruct (decide _); [|done]. by intros [= <- <-].
Qed.
Lemma refs_loop_word fuel : forall s n, n ∈ refs_loop fuel s -> forallb word_char n = true.
Proof.
  induction fuel as [|fuel IH]; intros [|c s] n; cbn [refs_loop]; try by intros ?%elem_of_nil.
  destruct (secretRef (c :: s)) as [[m rest]|] eqn:E; [|apply IH]. intros [->|H]%elem_of_cons; [by eapply secretRef_word|by eapply IH].
Qed.
Lemma refs_one_word v n : n ∈ refs_one v -> forallb word_char n = true.
Proof. unfold refs_one. destruct (strings_Contains _ _); [apply refs_loop_word|by intros ?%elem_of_nil]. Qed.
Lemma references_word wf n : n ∈ references wf -> forallb word_char n = true.
Proof.
  unfold references, refs_source, refs_sink, refs_sasl. rewrite !elem_of_app.
  intros H. repeat case_match; rewrite ?elem_of_app, ?elem_of_nil in H; naive_solver eauto using refs_one_word.
Qed.
Lemma word_no_equals n : forallb word_char n = true -> "="%char ∉ n.
Proof. intros H Hin. apply forallb_forall with (x := "="%char) in H; [discriminate H|by apply list_elem_of_In]. Qed.

(** Resolving depends on the resolver only at the document's references. *)
Section Ext.
Variables R1 R2 : bytes -> result bytes.
Let agree (l : list bytes) : Prop := forall n, n ∈ l -> R1 n = R2 n.

Lemma agree_app l l' : agree (l ++ l') -> agree l /\ agree l'.
Proof. intros H. split; intros n Hn; apply H, elem_of_app; [by left|by right]. Qed.
Lemma replace_refs_ext fuel : forall s, agree (refs_loop fuel s) -> replace_refs fuel R1 s = replace_refs fuel R2 s.
Proof.
  induction fuel as [|fuel IH]; intros [|c s] H; try done. cbn [replace_refs refs_loop] in *. destruct (secretRef (c :: s)) as [[n rest]|].
  - rewrite <- (H n) by left. destruct (R1 n); [|done]. rewrite IH; [done|]. intros m Hm. apply H. by right.
  - by rewrite IH.
Qed.
Lemma resolveOne_ext v : agree (refs_one v) -> resolveOne R1 v = resolveOne R2 v.
Proof. unfold resolveOne, refs_one. destruct (strings_Contains v _); [|done]. cbn [negb]. intros H. by rewrite replace_refs_ext. Qed.
Lemma resolveSASLOpt_ext s : agree (refs_sasl s) -> resolveSASLOpt R1 s = resolveSASLOpt R2 s.
Proof. destruct s as [s|]; [|done]. cbn. intros [H1 H2]%agree_app. unfold resolveSASL. by rewrite !resolveOne_ext. Qed.
Lemma resolve_source_ext src : agree (refs_source src) -> resolve_source R1 src = resolve_source R2 src.
Proof. unfold resolve_source, refs_source. destruct (src_Kafka src); [|done]. intros H. by rewrite resolveSASLOpt_ext. Qed.
Lemma resolve_sink_ext snk : agree (refs_sink snk) -> resolve_sink R1 snk = resolve_sink R2 snk.
Proof.
  unfold resolve_sink, refs_sink. intros [H1 [H2 H3]%agree_app]%agree_app.
  destruct (eqs _ _); [destruct (sink_Kafka snk); [by rewrite resolveSASLOpt_ext|done]|].
  destruct (_ || _); [destruct (sink_TxnKafka snk); [by rewrite resolveSASLOpt_ext|done]|].
  destruct (eqs _ _); [destruct (sink_Postgres snk); [by rewrite resolveOne_ext|done]|done].
Qed.
Lemma resolveSecrets_ext wf : agree (references wf) -> resolveSecrets R1 wf = resolveSecrets R2 wf.
Proof. intros [H1 H2]%agree_app. unfold resolveSecrets. by rewrite resolve_source_ext, resolve_sink_ext. Qed.
End Ext.

(** ** Compiling the same document elsewhere *)

Definition writable (mkdir : bytes -> option bytes) : Prop := forall dir, mkdir dir = None.

Lemma ensureDir_writable mkdir mkdir' path dir : writable mkdir' -> ensureDir mkdir path dir = [] -> ensureDir mkdir' path dir = [].
Proof. intros Hw _. unfold ensureDir. by rewrite Hw. Qed.
Lemma envConfig_writable mkdir mkdir' env : writable mkdir' -> envConfig mkdir env = [] -> envConfig mkdir' env = [].
Proof.
  intros Hw. destruct env as [env|]; [|done]. cbn. intros [H1 [H2 H3]%app_nil]%app_nil. rewrite H1. cbn [app]. apply app_nil. split.
  - destruct (Checkpointing env); [|done]. apply app_nil in H2 as [-> H2]. cbn [app]. destruct (isE _); [done|by eapply ensureDir_writable].
  - destruct (env_State env); [|done]. repeat (destruct (eqs _ _); [try done|]); [|by destruct (isE _)].
    destruct (isE _); [done|by eapply ensureDir_writable].
Qed.
Lemma Validate_writable mkdir mkdir' wf : writable mkdir' -> Validate mkdir wf = [] -> Validate mkdir' wf = [].
Proof.
  intros Hw. unfold Validate, configuration. intros [H1 [[H2 H3]%app_nil H4]%app_nil]%app_nil.
  by rewrite H1, (envConfig_writable _ _ _ Hw H2), H3.
Qed.
Lemma CompileRuntime_writable mkdir mkdir' name root root' rt env : writable mkdir' ->
  CompileRuntime mkdir name root rt = Ok env -> exists env', CompileRuntime mkdir' name root' rt = Ok env'.
Proof.
  intros Hw. unfold CompileRuntime. destruct rt as [rt|]; [|by eexists]. destruct (_ <? 0); [done|].
  destruct (Checkpointing rt) as [c|].
  - destruct (_ <=? 0); [done|]. rewrite !Hw. destruct (mkdir _); [done|]. cbn.
    destruct (env_State rt) as [s|]; [|by eexists]. destruct (_ || _); [by eexists|]. destruct (eqs _ _); [|done]. rewrite Hw. by eexists.
  - cbn. destruct (env_State rt) as [s|]; [|by eexists]. destruct (_ || _); [by eexists|]. destruct (eqs _ _); [|done]. rewrite Hw. by eexists.
Qed.

(** A document that compiles under one resolver compiles, to the same name,
    operators, graph and guarantee, under any that agrees on its references,
    wherever the directories can be made. *)
Lemma compile_elsewhere `{OT : ObjectText} mkdir mkdir' R R' cs ck root root' wf cw : writable mkdir' ->
  (forall n, n ∈ references wf -> R n = R' n) -> CompileWorkflow mkdir R cs ck root (Some wf) = Ok cw ->
  exists cw', CompileWorkflow mkdir' R' cs ck root' (Some wf) = Ok cw' /\
    cw_Name cw' = cw_Name cw /\ cw_Operators cw' = cw_Operators cw /\ cw_Graph cw' = cw_Graph cw /\ cw_Delivery cw' = cw_Delivery cw.
Proof.
  intros Hw HR. unfold CompileWorkflow. destruct (Validate mkdir wf) eqn:Ev; [|done]. rewrite (Validate_writable _ _ _ Hw Ev). cbn [none negb].
  rewrite (resolveSecrets_ext R R' wf HR). destruct (resolveSecrets R' wf) as [wf'|]; [|done]. cbn [mbind result_bind].
  destruct (cs _); [|done]. cbn [mbind result_bind]. destruct (CompileRuntime mkdir _ _ _) as [e|] eqn:Er; [|done]. cbn [mbind result_bind].
  destruct (CompileRuntime_writable _ mkdir' _ _ root' _ _ Hw Er) as [e' ->]. cbn [mbind result_bind].
  destruct (applyOperators _); [|done]. cbn [mbind result_bind]. destruct (ck _); [|done]. cbn [mbind result_bind]. intros [= <-]. by eexists.
Qed.

(** ** What a backend gives the runner *)

(** The variables the backends set themselves. *)
Definition backend_names : list bytes := [b "DATA_DIR"; b "SAVEPOINT_DIR"; b "PORT"; b "WORKFLOW"; b "RESTORE_SAVEPOINT"].

(** The environment [lookup] of the process started for [spec], a launch that
    carries a document. *)
Class Delivers (spec : LaunchSpec) (lookup : bytes -> option bytes) : Prop := {
  delivers_workflow : lookup (b "WORKFLOW") = Some Docker.containerWorkflowPath;
  delivers_data : lookup (b "DATA_DIR") = Some Docker.containerDataDir;
  delivers_restore : lookup (b "RESTORE_SAVEPOINT") = (if decide (ls_RestoreSavepoint spec = []) then None else Some (ls_RestoreSavepoint spec));
  delivers_env n : n ∉ backend_names -> "="%char ∉ n -> lookup n = ls_Env spec !! n;
}.
(** Names that neither hold an '=' nor are the backends' own. *)
Definition plain_env (env : env_map) : Prop := forall n, is_Some (env !! n) -> (n ∉ backend_names) /\ ("="%char ∉ n).

Lemma cut_entry_var k v : "="%char ∉ k -> cut_entry (k ++ "="%char :: v) = Some (k, v).
Proof.
  induction k as [|c k IH]; [done|]. cbn [app cut_entry]. rewrite not_elem_of_cons. intros [Hc Hk]. rewrite decide_False by congruence. by rewrite IH.
Qed.
Lemma find_var_app n l l' : find_var n (l ++ l') = match find_var n l with Some v => Some v | None => find_var n l' end.
Proof. unfold find_var. induction l as [|[k v] l IH]; [done|]. cbn [app List.find]. by case_bool_decide. Qed.
Lemma find_var_none n l : (forall v, (n, v) ∉ l) -> find_var n l = None.
Proof.
  unfold find_var. induction l as [|[k v] l IH]; [done|]. intros H. cbn [List.find]. rewrite bool_decide_false.
  - apply IH. intros v' Hv. apply (H v'). by right.
  - cbn. intros ->. apply (H v). by left.
Qed.
Lemma find_var_map (n : bytes) (m : env_map) : find_var n (map_to_list m) = m !! n.
Proof.
  unfold find_var. destruct (List.find _ (map_to_list m)) as [[k v]|] eqn:E; cbn.
  - apply List.find_some in E as [Hin Hk]. rewrite bool_decide_eq_true in Hk. cbn in Hk. subst k. symmetry. apply elem_of_map_to_list. by apply list_elem_of_In.
  - destruct (m !! n) as [v|] eqn:Em; [|done]. apply elem_of_map_to_list, list_elem_of_In in Em.
    apply (List.find_none _ _ E) in Em. by rewrite bool_decide_eq_false in Em.
Qed.
Lemma cut_entries (m : env_map) : (forall n, is_Some (m !! n) -> "="%char ∉ n) ->
  omap cut_entry ((λ kv : bytes * bytes, kv.1 ++ b "=" ++ kv.2) <$> map_to_list m) = map_to_list m.
Proof.
  intros H. assert (Hl : forall kv, kv ∈ map_to_list m -> "="%char ∉ kv.1).
  { intros [k v] Hin%elem_of_map_to_list. apply H. by eexists. }
  induction (map_to_list m) as [|[k v] l IH]; [done|]. change (b "=") with ["="%char] in *. cbn [fmap list_fmap app fst snd] in *.
  cbn [omap list_omap]. rewrite cut_entry_var by (apply (Hl (k, v)); left). f_equal. apply IH. intros kv Hkv. apply Hl. by right.
Qed.

(** Docker: one entry per variable, so the order of the map does not matter. *)
Definition docker_vars (spec : LaunchSpec) : list (bytes * bytes) :=
  [(b "DATA_DIR", Docker.containerDataDir); (b "SAVEPOINT_DIR", Docker.containerSavepointDir); (b "PORT", dec_ (Docker.containerPort spec))]
  ++ (if Docker.isSdk spec then [] else [(b "WORKFLOW", Docker.containerWorkflowPath)])
  ++ (if bool_decide (ls_RestoreSavepoint spec = []) then [] else [(b "RESTORE_SAVEPOINT", ls_RestoreSavepoint spec)]).
Lemma docker_environ spec : (forall n, is_Some (ls_Env spec !! n) -> "="%char ∉ n) ->
  omap cut_entry (Docker.containerEnv spec (Docker.containerPort spec)) = docker_vars spec ++ map_to_list (ls_Env spec).
Proof.
  intros H. unfold Docker.containerEnv, docker_vars. rewrite !omap_app, cut_entries by done. rewrite <- !app_assoc.
  destruct (Docker.isSdk spec); case_bool_decide; reflexivity.
Qed.
#[export] Instance docker_delivers spec img limits : Docker.isSdk spec = false -> plain_env (ls_Env spec) ->
  Delivers spec (LookupEnv (Docker.cc_Env (Docker.containerConfig img spec limits))).
Proof.
  intros Hs Hp. change (Docker.cc_Env _) with (Docker.containerEnv spec (Docker.containerPort spec)).
  assert (E : forall n, LookupEnv (Docker.containerEnv spec (Docker.containerPort spec)) n =
    match find_var n (docker_vars spec) with Some v => Some v | None => ls_Env spec !! n end).
  { intros n. unfold LookupEnv. rewrite docker_environ by (intros m Hm; by apply Hp). by rewrite find_var_app, find_var_map. }
  assert (Hn : forall n, n ∈ backend_names -> ls_Env spec !! n = None).
  { intros n Hn. destruct (ls_Env spec !! n) eqn:El; [|done]. by destruct (Hp n (mk_is_Some _ _ El)) as [[] _]. }
  split.
  - rewrite E. unfold docker_vars. by rewrite Hs.
  - by rewrite E.
  - rewrite E. unfold docker_vars. rewrite Hs. destruct (decide (ls_RestoreSavepoint spec = [])) as [Er|Er]; [rewrite bool_decide_true by done; apply Hn; set_solver|by rewrite bool_decide_false].
  - intros n Hb _. rewrite E, find_var_none; [done|]. intros v Hin. apply Hb. unfold docker_vars in Hin. rewrite Hs in Hin. clear -Hin.
    rewrite !elem_of_app, !elem_of_cons in Hin. unfold backend_names. case_bool_decide; rewrite ?elem_of_cons, ?elem_of_nil in *; naive_solver.
Qed.

(** Kubernetes: the container's own variables win over those of the referenced
    Secret, which holds the launch environment. *)
Definition pod_LookupEnv (job : Kubernetes.KJob) (secret : env_map) (n : bytes) : option bytes :=
  match find_var n (Kubernetes.kj_Env job) with Some v => Some v | None => match Kubernetes.kj_EnvFrom job with [] => None | _ => secret !! n end end.

(** The Job that [k8s_Launch] creates from the objects of [createInputs]. *)
Definition launched_pod (opts : Kubernetes.KubernetesOptions) (spec : LaunchSpec) (run : bytes) (limits : list (bytes * (Z * Z))) : Kubernetes.KJob :=
  Kubernetes.buildJob opts run (ls_JobID spec) (b "weibo-" ++ ls_JobID spec ++ b "-data") (if Docker.isSdk spec then None else Some run)
    (if decide (ls_Env spec = ∅) then None else Some run) (Docker.orString (ls_Image spec) (Kubernetes.ko_Image opts)) (Docker.containerPort spec)
    (ls_RestoreSavepoint spec) (ls_PullPolicy spec) limits.
#[export] Instance k8s_delivers opts spec run limits : Docker.isSdk spec = false -> plain_env (ls_Env spec) ->
  Delivers spec (pod_LookupEnv (launched_pod opts spec run limits) (ls_Env spec)).
Proof.
  intros Hs Hp. unfold launched_pod. rewrite Hs.
  assert (Hn : forall n, n ∈ backend_names -> ls_Env spec !! n = None).
  { intros n Hn. destruct (ls_Env spec !! n) eqn:El; [|done]. by destruct (Hp n (mk_is_Some _ _ El)) as [[] _]. }
  assert (He : forall n, match option_list (if decide (ls_Env spec = ∅) then None else Some run) with [] => None | _ => ls_Env spec !! n end = ls_Env spec !! n).
  { intros n. case_decide as Ee; [by rewrite Ee, lookup_empty|done]. }
  unfold pod_LookupEnv, Kubernetes.buildJob. cbn [Kubernetes.kj_Env Kubernetes.kj_EnvFrom]. rewrite bool_decide_true by done. split.
  - done.
  - done.
  - rewrite He. destruct (decide (ls_RestoreSavepoint spec = [])) as [Er|Er]; [rewrite bool_decide_true by done; apply Hn; set_solver|by rewrite bool_decide_false].
  - intros n Hb _. rewrite find_var_none; [apply He|]. intros v Hin. apply Hb. clear -Hin.
    rewrite !elem_of_app, !elem_of_cons in Hin. unfold backend_names. case_bool_decide; rewrite ?elem_of_cons, ?elem_of_nil in *; naive_solver.
Qed.
(** [createInputs] names the run's objects this way. *)
Lemma created_inputs {C} `{KA : Kubernetes.KubeAPI C} opts spec run (c c' : C) inputs : Kubernetes.createInputs opts spec run c = (c', Ok inputs) ->
  inputs = (if Docker.isSdk spec then None else Some run, if decide (ls_Env spec = ∅) then None else Some run).
Proof.
  unfold Kubernetes.createInputs. destruct (if Docker.isSdk spec then (c, None) else _) as [c1 [e|]]; [done|].
  destruct (decide _); [by intros [= _ <-]|]. destruct (Kubernetes.SecretCreate _ _ _) as [c2 r]. destruct (Kubernetes.kerr r); [done|]. by intros [= _ <-].
Qed.

(** ** What the controller keeps of a job *)

Section Kept.
Context `{JT : JSONText} {B : Type} `{CB : ContainerBackend B}.
Variable (clock : nat -> Z) (idSource : nat -> bytes).
Variable opts : Options.
Variable yaml_manifest : bytes -> option sdkManifest.
Variable ParseQuantity : bytes -> bool.
Variable validate : bytes -> env_map -> result (bytes * bytes * json).
Variable agent : bytes -> bytes -> result Z.
Variable interrupted : bytes -> bool.

(** A workflow job: its row, up to the desired state and times, and its secrets. *)
Record Accepted : Type := mkAcc { ac_ID : bytes; ac_Name : bytes; ac_Doc : bytes; ac_Delivery : bytes; ac_Graph : json; ac_Env : env_map }.
Definition row_of (id : bytes) (s : SQLite) : option jobRow := List.find (λ row, bool_decide (jr_id row = id)) (jobs s).
Definition accepts (a : Accepted) (row : jobRow) : Prop :=
  jr_kind row = KindYAML /\ jr_name row = ac_Name a /\ jr_spec row = ac_Doc a /\ jr_delivery row = ac_Delivery a /\ jr_graph row = json_print (ac_Graph a).
Definition recorded (a : Accepted) (w : World B) : Prop :=
  (exists row, row_of (ac_ID a) (w_store w) = Some row /\ accepts a row) /\ default ∅ (w_secrets w !! ac_ID a) = ac_Env a.
(** Secrets are only held for jobs in the store. *)
Definition secrets_owned (w : World B) : Prop := forall id, is_Some (w_secrets w !! id) -> id ∈ jr_id <$> jobs (w_store w).

Lemma find_row_app (id : bytes) (l l' : list jobRow) row :
  List.find (λ r, bool_decide (jr_id r = id)) l = Some row -> List.find (λ r, bool_decide (jr_id r = id)) (l ++ l') = Some row.
Proof. induction l as [|x l IH]; [done|]. cbn. by case_bool_decide. Qed.
Lemma find_row_none (id : bytes) (l l' : list jobRow) :
  id ∉ jr_id <$> l -> List.find (λ r, bool_decide (jr_id r = id)) (l ++ l') = List.find (λ r, bool_decide (jr_id r = id)) l'.
Proof.
  induction l as [|x l IH]; [done|]. rewrite fmap_cons, not_elem_of_cons. intros [H1 H2]. cbn [app List.find]. rewrite bool_decide_false by congruence. by apply IH.
Qed.
Lemma row_of_in id s row : row_of id s = Some row -> id ∈ jr_id <$> jobs s.
Proof. intros [Hin Hb]%List.find_some. apply bool_decide_eq_true in Hb as <-. apply list_elem_of_fmap_2, list_elem_of_In, Hin. Qed.

(** [keep m]: the operation keeps every accepted job, and secrets owned. *)
Definition kept (a : Accepted) (w : World B) : Prop := recorded a w /\ secrets_owned w.
Definition keep {A} (m : M B A) : Prop := forall a, triple (kept a) m (λ _, kept a).

Lemma kept_frame a w w' : kept a w -> jobs (w_store w') = jobs (w_store w) -> w_secrets w' = w_secrets w -> kept a w'.
Proof. intros [[H1 H2] H3] Ej Es. unfold kept, recorded, secrets_owned, row_of in *. by rewrite Ej, Es. Qed.
Lemma keep_ret {A} (x : A) : keep (mret x).
Proof. intros a. apply (triple_ret (λ _, kept a)). Qed.
Lemma keep_bind {A C} (m : M B A) (f : A -> M B C) : keep m -> (forall x, keep (f x)) -> keep (m ≫= f).
Proof. intros Hm Hf a. eapply triple_bind; [apply Hm|]. intros x. apply Hf. Qed.
Lemma keep_now : keep (now clock).
Proof. intros a w Hw. by eapply kept_frame. Qed.
Lemma keep_newID : keep (newID idSource).
Proof. intros a w Hw. by eapply kept_frame. Qed.
Lemma keep_read_store {A} (f : SQLite -> A) : keep (read_store f).
Proof. by intros a w Hw. Qed.
Lemma keep_read_backend {A} (f : B -> A) : keep (read_backend f).
Proof. by intros a w Hw. Qed.
Lemma keep_reader {A} (f : World B -> A) : keep (λ w, (f w, w)).
Proof. by intros a w Hw. Qed.
Lemma keep_on_backend {A} (f : B -> B * A) : keep (on_backend f).
Proof. intros a w Hw. unfold on_backend. destruct (f _). by eapply kept_frame. Qed.
Lemma keep_on_store {A} (f : SQLite -> SQLite * A) : (forall s, jobs (f s).1 = jobs s) -> keep (on_store f).
Proof. intros Hf a w Hw. unfold on_store. specialize (Hf (w_store w)). destruct (f _). by eapply kept_frame. Qed.
Lemma create_run_jobs r s : jobs (CreateRun r s).1 = jobs s.
Proof. unfold CreateRun. by case_bool_decide. Qed.
Lemma keep_create_run r : keep (on_store (CreateRun r)).
Proof. apply keep_on_store, create_run_jobs. Qed.
Lemma keep_update_run r : keep (on_store (UpdateRun r)).
Proof. by apply keep_on_store. Qed.
Lemma keep_transition a1 a2 a3 a4 a5 : keep (transition clock a1 a2 a3 a4 a5).
Proof. apply keep_bind; [apply keep_now|]. intros t. by apply keep_on_store. Qed.
Lemma keep_if {A} (c : bool) (m1 m2 : M B A) : keep m1 -> keep m2 -> keep (if c then m1 else m2).
Proof. by destruct c. Qed.

(** The desired state and the time of change are not part of what is kept. *)
Lemma set_desired_row id jobID d t s row : row_of id s = Some row ->
  exists row', row_of id (SetDesired jobID d t s).1 = Some row' /\ forall a, accepts a row -> accepts a row'.
Proof.
  unfold row_of, SetDesired. cbn [fst jobs set_jobs]. induction (jobs s) as [|x l IH]; [done|]. cbn [fmap list_fmap List.find].
  set (y := if bool_decide (jr_id x = jobID) then _ else x). assert (Ey : jr_id y = jr_id x) by (subst y; by case_bool_decide). rewrite Ey.
  case_bool_decide; [|apply IH]. intros [= <-]. exists y. split; [done|]. intros a. subst y. by case_bool_decide.
Qed.
Lemma set_desired_ids jobID d t s : jr_id <$> jobs (SetDesired jobID d t s).1 = jr_id <$> jobs s.
Proof. cbn. rewrite <- list_fmap_compose. apply list_fmap_ext. intros ? x _. cbn. by case_bool_decide. Qed.
Lemma keep_set_desired jobID d : keep (set_desired clock jobID d).
Proof.
  apply keep_bind; [apply keep_now|]. intros t a w [[(row & Hr & Ha) Hs] Ho]. unfold on_store.
  pose proof (set_desired_ids jobID d t (w_store w)) as Ei. destruct (set_desired_row (ac_ID a) jobID d t _ _ Hr) as (row' & Hr' & Ha').
  destruct (SetDesired _ _ _ _) as [s' r]. cbn [fst] in *. split; [split; [exists row'; split; [done|by apply Ha']|done]|].
  intros id Hi. cbn. rewrite Ei. by apply Ho.
Qed.

Create HintDb keep discriminated.
#[local] Hint Resolve keep_ret keep_now keep_newID keep_read_store keep_read_backend keep_reader keep_on_backend
  keep_create_run keep_update_run keep_transition keep_set_desired : keep.
#[local] Hint Extern 2 (keep (_ ≫= _)) => (apply keep_bind; [|intros ?]) : keep.
#[local] Hint Extern 2 (keep (if _ then _ else _)) => apply keep_if : keep.
#[local] Hint Extern 3 (keep (match ?x with _ => _ end)) => destruct x : keep.

Lemma keep_finish run from to reason : keep (finishRun clock run from to reason).
Proof. unfold finishRun. auto with keep. Qed.
#[local] Hint Resolve keep_finish : keep.
Lemma keep_stop_run run reason : keep (stop_run clock run reason).
Proof. unfold stop_run. auto with keep. Qed.
#[local] Hint Resolve keep_stop_run : keep.
Lemma keep_launch job attempt restore : keep (launch clock idSource opts yaml_manifest job attempt restore).
Proof. unfold launch, launch_start. auto 20 with keep. Qed.
#[local] Hint Resolve keep_launch : keep.
Lemma keep_Cancel jobID : keep (Cancel clock jobID).
Proof. unfold Cancel. auto 20 with keep. Qed.
Lemma keep_doRestart jobID restore : keep (doRestart clock idSource opts yaml_manifest jobID restore).
Proof. unfold doRestart. auto 20 with keep. Qed.
Lemma keep_Savepoint jobID label : keep (Savepoint clock agent jobID label).
Proof. unfold Savepoint, ControlAddress. auto 20 with keep. Qed.
Lemma keep_maybeRestart job run : keep (maybeRestart clock idSource opts yaml_manifest interrupted job run).
Proof. unfold maybeRestart. auto 20 with keep. Qed.
#[local] Hint Resolve keep_maybeRestart : keep.
Lemma keep_reconcile_one run : keep (reconcile_one clock idSource opts yaml_manifest interrupted run).
Proof. unfold reconcile_one, reconcileRun, handleExit. auto 20 with keep. Qed.
Lemma keep_Reconcile : keep (Reconcile clock idSource opts yaml_manifest interrupted).
Proof.
  apply keep_bind; [apply keep_read_store|]. intros l. induction l as [|run l IH]; [apply keep_ret|]. cbn [reconcile_all].
  apply keep_bind; [apply keep_reconcile_one|]. intros ?. exact IH.
Qed.

(** Recording a new job and its secrets. *)
Definition accepted (job : Job) (env : env_map) : Accepted := mkAcc (j_ID job) (j_Name job) (j_Spec job) (j_Delivery job) (j_Graph job) env.
Definition stored (job : Job) (env : env_map) (w : World B) : World B :=
  (setSecrets (j_ID job) env (mkWorld _ (CreateJob job (w_store w)).1 (w_backend w) (w_secrets w) (w_ticks w) (w_ids w))).2.
Lemma stored_kept job env w : j_ID job ∉ jr_id <$> jobs (w_store w) -> secrets_owned w ->
  secrets_owned (stored job env w) /\ (forall a, recorded a w -> recorded a (stored job env w)) /\
  (j_Kind job = KindYAML -> recorded (accepted job env) (stored job env w)).
Proof.
  intros Hid Ho. assert (Hnone : w_secrets w !! j_ID job = None) by (destruct (w_secrets w !! j_ID job) eqn:E; [destruct Hid; apply Ho; by eexists|done]).
  unfold stored, setSecrets, CreateJob, recorded, secrets_owned, row_of. cbv zeta. rewrite bool_decide_false by done.
  assert (Hsec : forall m : gmap bytes env_map, (forall i, is_Some (m !! i) -> is_Some (w_secrets w !! i) \/ i = j_ID job) -> forall r i, is_Some (m !! i) ->
    jr_id r = j_ID job -> i ∈ jr_id <$> (jobs (w_store w) ++ [r])).
  { intros m Hm r i Hi Hr. rewrite fmap_app, elem_of_app. destruct (Hm i Hi) as [Hs| ->]; [left; by apply Ho|right]. cbn. rewrite Hr. by left. }
  destruct (decide (env = ∅)) as [He|He]; cbn [snd fst w_store w_secrets jobs set_jobs].
  - split_and!.
    + intros i Hi. eapply Hsec; [|exact Hi|done]. by left.
    + intros a [(row & Hr & Ha) Hs]. split; [exists row; split; [by apply find_row_app|done]|done].
    + intros Hk. split; [|cbn; by rewrite Hnone, He]. eexists. split; [rewrite find_row_none by done; cbn; by rewrite bool_decide_true|].
      unfold accepts. cbn. rewrite Hk. by split_and!.
  - split_and!.
    + intros i Hi. eapply Hsec; [|exact Hi|done]. intros i' [v Hv]. apply lookup_insert_Some in Hv as [[<- _]|[_ Hv]]; [by right|left; by eexists].
    + intros a [(row & Hr & Ha) Hs]. split; [exists row; split; [by apply find_row_app|done]|]. rewrite lookup_insert_ne; [done|].
      intros E. apply Hid. rewrite E. by eapply (row_of_in _ _ row).
    + intros Hk. split; [|cbn; by rewrite lookup_insert_eq]. eexists. split; [rewrite find_row_none by done; cbn; by rewrite bool_decide_true|].
      unfold accepts. cbn. rewrite Hk. by split_and!.
Qed.

Lemma owned_frame w w' : secrets_owned w -> jobs (w_store w') = jobs (w_store w) -> w_secrets w' = w_secrets w -> secrets_owned w'.
Proof. unfold secrets_owned. by intros H -> ->. Qed.
(** What a submission leaves: the jobs there were, and the job it returns. *)
Lemma submit_job_kept mk env reason w : (forall id t, j_ID (mk id t) = id) -> secrets_owned w ->
  let '(r, w') := submit_job clock idSource opts yaml_manifest mk env reason w in
  (forall a, recorded a w -> kept a w') /\ (forall job, r.1 = Some job -> job = mk (idSource (w_ids w)) (clock (w_ticks w)) /\ (j_Kind job = KindYAML -> kept (accepted job env) w')).
Proof.
  intros Hmk Ho. unfold submit_job. cbv [mbind M_bind now newID on_store]. cbv beta iota zeta. cbn [w_store w_backend w_secrets w_ticks w_ids].
  set (job := mk _ _). set (w0 := mkWorld B (w_store w) (w_backend w) (w_secrets w) (S (w_ticks w)) (S (w_ids w))).
  destruct (CreateJob job (w_store w)) as [s' [[]|e]] eqn:Ec.
  - assert (Hid : j_ID job ∉ jr_id <$> jobs (w_store w0)) by (unfold CreateJob in Ec; cbv zeta in Ec; by case_bool_decide).
    destruct (stored_kept job env w0 Hid) as (H1 & H2 & H3); [by eapply owned_frame|].
    set (w1 := mkWorld B s' (w_backend w) (w_secrets w) (S (w_ticks w)) (S (w_ids w))).
    assert (Es : stored job env w0 = (setSecrets (j_ID job) env w1).2) by (unfold stored; change (w_store w0) with (w_store w); by rewrite Ec).
    assert (Hw0 : forall a, recorded a w -> recorded a w0) by done.
    replace (idSource (w_ids w)) with (j_ID job) by apply Hmk.
    destruct (setSecrets (j_ID job) env w1) as [[] w2]. cbn [snd] in Es. subst w2. clearbody w0 w1.
    set (rest := λ x : unit, transition clock (j_ID job) [] [] (phase_string Submitted) reason ≫= λ _,
      launch clock idSource opts yaml_manifest job 1 [] ≫= λ r, match r with Err e => mret (Some job, Some ("submit: launch: " +:+ e)%string) | Ok _ => mret (Some job, None) end).
    assert (Hk : keep (rest tt)) by (unfold rest; auto 20 with keep).
    assert (Hr : (rest tt (stored job env w0)).1.1 = Some job).
    { unfold rest, mbind, M_bind. destruct (transition _ _ _ _ _ _ _) as [? ?]. destruct (launch _ _ _ _ _ _ _ _) as [[?|?] ?]; done. }
    change (let '(r, w') := rest tt (stored job env w0) in (forall a, recorded a w -> kept a w') /\
      (forall job0, r.1 = Some job0 -> job0 = job /\ (j_Kind job0 = KindYAML -> kept (accepted job0 env) w'))).
    assert (Hall : forall a, recorded a (stored job env w0) -> kept a (rest tt (stored job env w0)).2).
    { intros a Ha. specialize (Hk a (stored job env w0) (conj Ha H1)). by destruct (rest tt _). }
    destruct (rest tt (stored job env w0)) as [r w']. cbn [fst snd] in *. split; [intros a Ha; by apply Hall, H2, Hw0|].
    intros job0 E. rewrite Hr in E. injection E as <-. split; [done|]. intros Hy. by apply Hall, H3.
  - split; [|done]. intros a Ha. eapply (kept_frame a w); [by split| |done]. unfold CreateJob in Ec. cbv zeta in Ec. cbn. by case_bool_decide; simplify_eq.
Qed.
Lemma keep_submit_job mk env reason : (forall id t, j_ID (mk id t) = id) -> keep (submit_job clock idSource opts yaml_manifest mk env reason).
Proof. intros Hmk a w [Hr Ho]. pose proof (submit_job_kept mk env reason w Hmk Ho) as H. destruct (submit_job _ _ _ _ _ _ _ w). by apply H. Qed.
Lemma keep_Submit doc env : keep (Submit clock idSource opts yaml_manifest ParseQuantity validate doc env).
Proof.
  unfold Submit, submitSDK. destruct (parseSDKManifest _ doc) as [m|].
  - repeat apply keep_if; [apply keep_ret..|]. destruct (validateResources _ _); [by apply keep_submit_job|apply keep_ret].
  - destruct (validate doc env) as [[[name del] g]|e]; [by apply keep_submit_job|apply keep_ret].
Qed.
Lemma kept_snd {A} (m : M B A) a w : keep m -> kept a w -> kept a (m w).2.
Proof. intros Hm Hw. specialize (Hm a w Hw). by destruct (m w). Qed.
Lemma ctl_step_kept a w w' : ctl_step clock idSource opts yaml_manifest ParseQuantity validate agent interrupted w w' -> kept a w -> kept a w'.
Proof.
  intros [] Hw; try (apply kept_snd; [|exact Hw]).
  - apply keep_Submit.
  - apply keep_Cancel.
  - apply keep_doRestart.
  - unfold RestartFromSavepoint. apply keep_if; [apply keep_ret|apply keep_doRestart].
  - apply keep_Savepoint.
  - apply keep_Reconcile.
Qed.
(** Whatever the containers do in between. *)
Abbreviation any_step := (plane_step clock idSource opts yaml_manifest ParseQuantity validate agent interrupted (λ _ _ : B, True)).
Lemma plane_steps_kept a w w' : rtc any_step w w' -> kept a w -> kept a w'.
Proof.
  induction 1 as [|? ? ? H1 _ IH]; [done|]. intros Hw. apply IH. destruct H1; [by eapply ctl_step_kept|by eapply kept_frame].
Qed.

(** Reading back a kept job gives the document, its metadata, and a launch with
    the secrets it was submitted with. *)
Lemma kept_launch a w restore : kept a w ->
  exists job, GetJob (ac_ID a) (w_store w) = Ok job /\ j_Name job = ac_Name a /\ j_Delivery job = ac_Delivery a /\ j_Graph job = ac_Graph a /\
    ls_WorkflowDoc (launchSpec opts yaml_manifest job restore w) = Some (ac_Doc a) /\
    ls_RestoreSavepoint (launchSpec opts yaml_manifest job restore w) = restore /\
    ls_Env (launchSpec opts yaml_manifest job restore w) = ac_Env a ∪ {[ b "WEIBO_JOB_ID" := ac_ID a ]}.
Proof.
  intros [[(row & Hr & Hk & Hn & Hd & Hde & Hg) Hs] _]. unfold GetJob. fold (row_of (ac_ID a) (w_store w)). rewrite Hr.
  pose proof (List.find_some _ _ Hr) as [_ Hid%bool_decide_eq_true].
  unfold scanJob. rewrite Hg, json_parse_print. eexists. split; [done|]. cbn [j_Name j_Delivery j_Graph]. split_and!; [done..| | |];
  unfold launchSpec; cbn [j_Kind j_Spec j_ID]; (rewrite decide_False by (rewrite Hk; discriminate)); cbn [ls_WorkflowDoc ls_RestoreSavepoint ls_Env]; [by rewrite Hd|done|].
  unfold launchEnv. by rewrite Hid, Hs.
Qed.
Lemma submitted_kept doc env w job err w' : parseSDKManifest yaml_manifest doc = None -> secrets_owned w ->
  Submit clock idSource opts yaml_manifest ParseQuantity validate doc env w = ((Some job, err), w') ->
  exists v, validate doc env = Ok v /\ kept (mkAcc (j_ID job) v.1.1 doc v.1.2 v.2 env) w'.
Proof.
  intros Hm Ho. unfold Submit. rewrite Hm. destruct (validate doc env) as [[[name del] g]|e]; [|done]. intros E. exists (name, del, g). split; [done|].
  match type of E with submit_job _ _ _ _ ?mk _ ?reason _ = _ => pose proof (submit_job_kept mk env reason w (λ id t, eq_refl) Ho) as H end.
  rewrite E in H. destruct H as [_ H]. destruct (H job eq_refl) as [Ej Hk]. rewrite Ej in Hk |- *. by apply Hk.
Qed.
End Kept.

(** ** Every launch of an accepted job runs what was accepted *)

Section Deploy.
Context `{JT : JSONText} `{OT : ObjectText} `{TT : TarText} {B : Type} `{CB : ContainerBackend B}.
Variable (clock : nat -> Z) (idSource : nat -> bytes) (opts : Options) (yaml_manifest : bytes -> option sdkManifest) (ParseQuantity : bytes -> bool).
Variable (agent : bytes -> bytes -> result Z) (interrupted : bytes -> bool).
Variables (ParseYAML ParseJSON : bytes -> result Workflow) (compileSource : SourceSpec -> result unit) (compileSink : SinkSpec -> result unit).
(** the controller's host, and the container's file system *)
Variables (mkdir environ : bytes -> option bytes) (mkdirTemp : result bytes).
Variables (pod_mkdir : bytes -> option bytes) (readFile : bytes -> result bytes).
Variables (io k : nat) (run_job : CompiledWorkflow -> Dest -> Dest * Agent * option (string * bool)).

Let validated := validate ParseYAML mkdir environ mkdirTemp compileSource compileSink.
Let steps := rtc (plane_step clock idSource opts yaml_manifest ParseQuantity validated agent interrupted (λ _ _ : B, True)).

(** The request supplies the document's references. *)
Definition supplied (doc : bytes) (env : env_map) : Prop :=
  forall wf n, ParseYAML doc = Ok wf -> n ∈ references wf -> is_Some (env !! n) /\ (n ∉ backend_names).

(** C20: what was accepted is what runs.  A submission returns a job, perhaps with
    the error of its launch; the same controller process then goes through any
    sequence of operations (a restart of the controller, which loses the secrets
    it keeps in memory, is not among them).  The job is still there, and every
    launch of it, over any backend that delivers the launch to the process, makes
    the runner compile the document to the name, guarantee and graph that were
    recorded, and serve it with the savepoint asked for, provided the request
    supplied every variable the document refers to
    ([controller_environment_stays_behind] shows the runner exiting otherwise)
    and the container's directories can be created. *)
Theorem accepted_job_runs (doc : bytes) (env : env_map) (w w1 w2 : World B) (job : Job) (err : option string) (restore : bytes)
    (lookup : bytes -> option bytes) :
  parseSDKManifest yaml_manifest doc = None -> doc <> [] -> secrets_owned w -> supplied doc env -> writable pod_mkdir ->
  Submit clock idSource opts yaml_manifest ParseQuantity validated doc env w = ((Some job, err), w1) -> steps w1 w2 ->
  exists job2, GetJob (j_ID job) (w_store w2) = Ok job2 /\
  let spec := launchSpec opts yaml_manifest job2 restore w2 in
  Docker.isSdk spec = false /\
  (Delivers spec lookup -> readFile Docker.containerWorkflowPath = Ok (str (ls_WorkflowDoc spec)) ->
   exists cw, j_Name job2 = cw_Name cw /\ j_Delivery job2 = delivery_text (cw_Delivery cw) /\ j_Graph job2 = graph_json (cw_Graph cw) /\
   forall d x, runner_run readFile ParseYAML ParseJSON pod_mkdir (Environment_Resolve lookup) compileSource compileSink (Getenv lookup) io k run_job d x =
     Serve (run_job cw) io k (mkSO (cw_CheckpointDir cw) (Getenv lookup "SAVEPOINT_DIR") restore) d x).
Proof.
  intros Hm Hdoc Ho Hsup Hw Hsub Hsteps. destruct (submitted_kept _ _ _ _ _ _ doc env w job err w1 Hm Ho Hsub) as ([[name del] g] & Hv & Hk).
  eapply plane_steps_kept in Hk; [|exact Hsteps]. destruct (kept_launch opts yaml_manifest _ w2 restore Hk) as (job2 & Hg & Hn & Hd & Hgr & Hs & Hres & He).
  cbn [ac_ID ac_Name ac_Doc ac_Delivery ac_Graph ac_Env fst snd] in *. exists job2. split; [done|]. cbv zeta. split.
  { unfold Docker.isSdk. rewrite Hs. by apply bool_decide_false. }
  intros Hdel Hread. rewrite Hs in Hread. change (str (Some doc)) with doc in Hread. unfold validated, validate in Hv.
  destruct (ParseYAML doc) as [wf|] eqn:Ep; [|done]. cbn [mbind result_bind] in Hv. destruct mkdirTemp as [tmp|]; [|done]. cbn [mbind result_bind] in Hv.
  destruct (CompileWorkflow mkdir _ _ _ tmp _) as [cw|] eqn:Ec; [|done]. cbn [mbind result_bind] in Hv. injection Hv as <- <- <-.
  edestruct (compile_elsewhere mkdir pod_mkdir (chain_Resolve environ env) (Environment_Resolve lookup)) with (3 := Ec) as (cw' & Ec' & E1 & _ & E3 & E4); [exact Hw| |].
  { intros n Hin. destruct (Hsup wf n Ep Hin) as [[v Hv] Hb]. unfold chain_Resolve, Environment_Resolve. rewrite Hv, delivers_env; [|done|].
    - rewrite He. by rewrite (lookup_union_Some_l _ _ _ _ Hv).
    - by apply word_no_equals, (references_word wf). }
  exists cw'. rewrite E1, E3, E4. split_and!; [done..|]. intros d x. unfold runner_run, serve_options, Getenv.
  rewrite delivers_workflow, delivers_data, delivers_restore, Hres. cbn [default]. change (isE Docker.containerWorkflowPath) with false.
  change (orDefault (default [] (Some Docker.containerDataDir)) defaultDataDir) with Docker.containerDataDir. cbn [id]. cbv iota. rewrite Hw.
  unfold CompileFile, Load. change (default [] (Some Docker.containerWorkflowPath)) with Docker.containerWorkflowPath. rewrite Hread.
  match goal with |- context [if ?c then ParseYAML _ else _] => change c with true end. cbv iota. rewrite Ep, Ec'.
  do 2 f_equal. by destruct (decide (restore = [])) as [->|].
Qed.
End Deploy.

(** ** A concrete submission *)

#[local] Existing Instance agg_codec.
Definition pg_wf (dsn : bytes) : Workflow := mkWorkflow (b "orders") (b "1")
  (Some (Workflow.mkEnv 0 0 (Some (mkCkpt (10 * Second) [])) None))
  (mkSource (b "kafka") (Some (mkKSS [b "kafka:9092"] (b "in") [] (b "g") [] false false None [] 0 0 0 None None)) [])
  demo_pipeline
  (mkSink (b "postgres") None None (Some (mkPg dsn (b "orders") {[b "id" := b "id"]} [] [] [] 0 0 0 []))).
Definition pg_doc : bytes := b "the document".
Definition pg_yaml (doc : bytes) : result Workflow := if decide (doc = pg_doc) then Ok (pg_wf (b "postgres://${PG_USER}@db/orders")) else Err "EOF".
Definition pg_env : env_map := {[b "PG_USER" := b "ada"]}.
Definition no_ends {A} (_ : A) : result unit := Ok tt.
Definition controller_environ (n : bytes) : option bytes := if decide (n = b "PG_USER") then Some (b "root") else None.
Definition pg_validate := validate pg_yaml mkdir_ok controller_environ (Ok (b "/tmp/weibo-validate-1")) no_ends no_ends.
Definition pg_submit (env : env_map) := Submit (B := Fake) sec_clock num_id demo_opts no_manifest any_quantity pg_validate pg_doc env (fresh_world NewFake).
Definition pg_job : Job := match (pg_submit pg_env).1.1 with Some j => j | None => mkJob [] [] [] [] [] [] JNull [] 0 0 end.
Definition pg_restarted : World Fake := (Restart sec_clock num_id demo_opts no_manifest (j_ID pg_job) (pg_submit pg_env).2).2.
(** The environment of a job's Docker container, and its one file. *)
Definition pg_lookup (job : Job) (w : World Fake) : bytes -> option bytes :=
  LookupEnv (Docker.cc_Env (Docker.containerConfig (b "runner") (launchSpec demo_opts no_manifest job [] w) (0, 0))).
Definition pg_readFile (p : bytes) : result bytes := if decide (p = Docker.containerWorkflowPath) then Ok pg_doc else Err "no such file".
Definition pg_run (cw : CompiledWorkflow) (x : Dest) : Dest * Agent * option (string * bool) := (x, agent_New, None).
Definition pg_runner (lookup : bytes -> option bytes) (d : Disk) (x : Dest) :=
  runner_run pg_readFile pg_yaml pg_yaml mkdir_ok (Environment_Resolve lookup) no_ends no_ends (Getenv lookup) 9 0 pg_run d x.

Lemma pg_supplied : supplied pg_yaml pg_doc pg_env.
Proof.
  intros wf n. unfold pg_yaml. rewrite decide_True by done. intros [= Ewf] Hn.
  assert (E : references wf = [b "PG_USER"]) by (rewrite <- Ewf; vm_compute; reflexivity). rewrite E in Hn.
  apply list_elem_of_singleton in Hn as ->. split; [by eexists|]. rewrite <- (bool_decide_eq_false (_ ∈ _)). vm_compute. reflexivity.
Qed.
Lemma pg_plain : plain_env (pg_env ∪ {[b "WEIBO_JOB_ID" := num_id 0]}).
Proof.
  unfold pg_env. intros n [v Hv]. apply lookup_union_Some_raw in Hv as [Hv|[_ Hv]]; apply lookup_singleton_Some in Hv as [<- _];
    (split; [rewrite <- (bool_decide_eq_false (_ ∈ _)); vm_compute; reflexivity|rewrite <- (bool_decide_eq_false (_ ∈ _)); vm_compute; reflexivity]).
Qed.
Lemma accepted_job_runs_witness : exists job2, GetJob (num_id 0) (w_store pg_restarted) = Ok job2 /\ j_Delivery job2 = b "at-least-once" /\
  exists cw, cw_Name cw = b "orders" /\ forall d x, pg_runner (pg_lookup job2 pg_restarted) d x =
    Serve (pg_run cw) 9 0 (mkSO (cw_CheckpointDir cw) (b "/savepoints") []) d x.
Proof.
  assert (Hsub : pg_submit pg_env = ((Some pg_job, None), (pg_submit pg_env).2)) by (vm_compute; reflexivity).
  assert (Hid : j_ID pg_job = num_id 0) by (vm_compute; reflexivity).
  assert (Ho : secrets_owned (fresh_world NewFake)) by (intros id [v Hv]; discriminate Hv).
  pose proof (accepted_job_runs (B := Fake) sec_clock num_id demo_opts no_manifest any_quantity demo_agent no_interrupt pg_yaml pg_yaml no_ends no_ends
    mkdir_ok controller_environ (Ok (b "/tmp/weibo-validate-1")) mkdir_ok pg_readFile 9 0 pg_run pg_doc pg_env (fresh_world NewFake) (pg_submit pg_env).2 pg_restarted
    pg_job None []) as H.
  assert (Hg : exists job2, GetJob (num_id 0) (w_store pg_restarted) = Ok job2 /\ j_Delivery job2 = b "at-least-once" /\ j_Name job2 = b "orders" /\
    launchSpec demo_opts no_manifest job2 [] pg_restarted = mkSpec (num_id 0) (b "orders") (b "weibo-runner:dev") (Some pg_doc) (pg_env ∪ {[b "WEIBO_JOB_ID" := num_id 0]}) 8080 [] PullIfNotPresent None).
  { eexists. split; [vm_compute; reflexivity|]. split; [vm_compute; reflexivity|]. split; vm_compute; reflexivity. }
  destruct Hg as (job2 & Hg & Hdel & Hname & Hspec). exists job2. split; [exact Hg|]. split; [exact Hdel|].
  destruct (H (pg_lookup job2 pg_restarted)) as (job2' & Hg' & Hsdk & Hrun).
  - reflexivity.
  - discriminate.
  - exact Ho.
  - exact pg_supplied.
  - intros dir. reflexivity.
  - exact Hsub.
  - apply rtc_once. left. apply DoRestart.
  - rewrite Hid, Hg in Hg'. injection Hg' as <-. destruct Hrun as (cw & Hn & _ & _ & Hr).
    + apply docker_delivers; [exact Hsdk|]. rewrite Hspec. exact pg_plain.
    + rewrite Hspec. reflexivity.
    + exists cw. split; [by rewrite <- Hn, Hname|]. intros d x. specialize (Hr d x).
      assert (Hsp : Getenv (pg_lookup job2 pg_restarted) "SAVEPOINT_DIR" = b "/savepoints") by (unfold pg_lookup; rewrite Hspec; vm_compute; reflexivity).
      rewrite Hsp in Hr. exact Hr.
Defined.

(** ** What the hypotheses exclude *)

Definition stranded : (option Job * option string) * World Fake := pg_submit ∅.
Lemma stranded_launch : stranded.1.2 = None /\ exists j, stranded.1.1 = Some j /\
  let lookup := pg_lookup j stranded.2 in
  Getenv lookup "WORKFLOW" = Docker.containerWorkflowPath /\ Getenv lookup "DATA_DIR" = Docker.containerDataDir /\ lookup (b "PG_USER") = None.
Proof. split; [vm_compute; reflexivity|]. eexists. split; [vm_compute; reflexivity|]. vm_compute. repeat split. Qed.
Lemma unset_reference R : R (b "PG_USER") = Err "secret is not set" ->
  is_ok (CompileFile pg_readFile pg_yaml pg_yaml mkdir_ok R no_ends no_ends Docker.containerWorkflowPath Docker.containerDataDir) = false.
Proof.
  intros HR. unfold CompileFile, Load. change (pg_readFile Docker.containerWorkflowPath) with (Ok (A := bytes) pg_doc).
  match goal with |- context [if ?c then pg_yaml _ else _] => change c with true end. cbv iota.
  set (wf := pg_wf (b "postgres://${PG_USER}@db/orders")). change (pg_yaml pg_doc) with (Ok wf). cbv iota. unfold CompileWorkflow.
  assert (Hv : Validate mkdir_ok wf = []) by (vm_compute; reflexivity). rewrite Hv. cbn [none negb].
  assert (Er : references wf = [b "PG_USER"]) by (vm_compute; reflexivity).
  rewrite (resolveSecrets_ext R (λ n, Err "secret is not set")) by (rewrite Er; by intros n ->%list_elem_of_singleton).
  assert (Hf : is_ok (resolveSecrets (λ n, Err "secret is not set") wf) = false) by (vm_compute; reflexivity). by destruct (resolveSecrets _ wf).
Qed.
(** A reference that only the controller's own environment answers passes the
    validation of a submission, but that environment is not handed on: the job
    is recorded and launched, and its process exits with an error before
    anything runs. *)
Theorem controller_environment_stays_behind :
  stranded.1.2 = None /\ exists j, stranded.1.1 = Some j /\ forall d x, pg_runner (pg_lookup j stranded.2) d x = (exitError, d, x).
Proof.
  destruct stranded_launch as (He & j & Hj & Hw & Hd & Hn). split; [exact He|]. exists j. split; [exact Hj|]. intros d x.
  unfold pg_runner, runner_run. rewrite Hw, Hd. change (isE Docker.containerWorkflowPath) with false.
  change (orDefault Docker.containerDataDir defaultDataDir) with Docker.containerDataDir. cbv iota. unfold mkdir_ok at 1.
  pose proof (unset_reference (Environment_Resolve (pg_lookup j stranded.2))) as Hc. unfold Environment_Resolve at 1 in Hc. rewrite Hn in Hc. specialize (Hc eq_refl).
  destruct (CompileFile _ _ _ _ _ _ _ _ _); [discriminate Hc|reflexivity].
Qed.

(** The transactional id of a sink is never expanded, whatever the resolver. *)
Lemma txn_id_resolved R snk snk' : resolve_sink R snk = Ok snk' -> tk_TransactionalID <$> sink_TxnKafka snk' = tk_TransactionalID <$> sink_TxnKafka snk.
Proof.
  intros H. unfold resolve_sink in H. destruct (eqs _ _); [destruct (sink_Kafka snk) as [k|]; [destruct (resolveSASLOpt R (sk_SASL k))|]; by simplify_eq/=|].
  destruct (_ || _); [destruct (sink_TxnKafka snk) as [k|] eqn:E; [destruct (resolveSASLOpt R (tk_SASL k))|]; simplify_eq/=; by rewrite ?E|].
  destruct (eqs _ _); [destruct (sink_Postgres snk) as [p|]; [destruct (resolveOne R (pg_DSN p))|]; by simplify_eq/=|]. by simplify_eq/=.
Qed.
(** Pinning it to the job as the controller documents, with a reference to
    WEIBO_JOB_ID, therefore gives every job the literal text of the reference:
    two jobs of one such document share their transactional id. *)
Theorem job_id_reference_is_literal R marshal snk snk' cfg : sink_Type snk = b "txnKafka" ->
  tk_TransactionalID <$> sink_TxnKafka snk = Some (b "${WEIBO_JOB_ID}") ->
  resolve_sink R snk = Ok snk' -> Ends.CompileSink marshal snk' = Ok cfg ->
  exists c, cfg = Ends.STxnKafka c /\ Ends.ts_transactionalID c = b "${WEIBO_JOB_ID}".
Proof.
  intros Ht Hid Hr Hc. pose proof (txn_id_resolved R snk snk' Hr) as E. rewrite Hid in E.
  assert (Ht' : sink_Type snk' = b "txnKafka").
  { unfold resolve_sink in Hr. rewrite Ht in Hr. change (eqs (b "txnKafka") "kafka") with false in Hr. change (eqs (b "txnKafka") "txnKafka") with true in Hr. cbn [orb] in Hr.
    destruct (sink_TxnKafka snk) as [k|]; [destruct (resolveSASLOpt R (tk_SASL k))|]; by simplify_eq/=. }
  unfold Ends.CompileSink in Hc. rewrite Ht' in Hc. change (isE (b "txnKafka")) with false in Hc. change (eqs (b "txnKafka") "kafka") with false in Hc.
  change (eqs (b "txnKafka") "txnKafka") with true in Hc. cbn [orb] in Hc. destruct (sink_TxnKafka snk') as [k|]; [|done]. cbn in E. injection E as E.
  unfold Ends.compileTxnKafkaSink in Hc. destruct (none _); [done|]. destruct (isE (tk_Topic k)); [done|]. destruct (isE _); [done|].
  destruct (Ends.compileSerializer _); [|done]. cbn [mbind result_bind] in Hc. destruct (Ends.compileSASLOpt _); [|done]. cbn in Hc. injection Hc as <-. by eexists.
Qed.
